(* ===== verification/_CoqProject ===== *)
-Q . S2P
Prelude.v
PyDict.v
PyFloat.v
PyText.v
PyVal.v
Sha1.v
Crp.v
Schema.v
Sampling.v
Holdback.v
BehaviorState.v
FrameState.v
Amr.v
ActionState.v
Anomaly.v
BusOutcomes.v
TtlCache.v
Dedup.v
Persistence.v
AlertConfig.v
Stop.v
PyNumber.v
Limiter.v
Ranking.v
Fusion.v
SearchCore.v
Proc.v
AssetStore.v
AssetEviction.v
AssetDownload.v
PyIso.v
EventDocs.v
EventSink.v
Events.v
VideoEmbedding.v
AlwaysOn.v
RtviClient.v
RuleDocs.v
Realtime.v
RealtimeRuns.v
CollisionState.v
Closeness.v
Collision.v
CollisionGroups.v
CollisionFrames.v
CollisionSafe.v
CollisionRuns.v
WorkloadSpec.v
HealthWatcher.v
Placement.v
PlacementSafe.v
PlacementExact.v
Docker.v
PlacementRuns.v
