(* ===== verification/Prelude.v ===== *)
(** * Verification of the Video Search and Summarization services

    The repository is a blueprint of services that turn camera streams into
    objects, behaviors, incidents and verified alerts. This development models
    the services' own decision-making state, the part whose errors would be
    silent: what a state manager keeps, when an incident or an alert is
    reported, which events are filtered out, when a bus message is
    acknowledged. Paths are under [src/services].

    ** The modelled system

    - _Behavior analytics_ ([analytics/behavior-analytics/src/mdx/analytics/core])
      consumes frames of detected objects. [StateMgmt] groups an object's
      messages into a track and emits behaviors; [FrameStateMgmt] turns frames
      into violations and incidents; [AmrStateMgmt] mutes robots and regions;
      [AnomalyActionDetection] turns recognised actions into fall-risk and
      lack-of-movement incidents; [StopDetection] decides that a vehicle is
      stopped; [CollisionDetection] groups the objects that came close to a
      suspected one and reports the groups; [CRP] clusters the embeddings of a track.
      The incidents it writes are read by
    - _the alert service_ ([alert/src]), which drops duplicates and
      insignificant updates, protects confirmed verdicts ([DedupStateHandler],
      [_TTLCache]), keeps the configuration of each alert type in
      Elasticsearch behind a cache ([AlertConfigService]), stores the verified
      events there ([VLMEnhancedElasticSink]) and runs alert rules directly on
      live streams ([RealtimeAlertService]), on request and for every camera that
      starts streaming ([AlwaysOnService]),
    - _the inference service_ ([rtvi/rt-vlm/src]), which limits how many requests
      are preprocessed at once by the free GPU memory
      ([AdaptivePreprocessLimiter]) and keeps the media and live streams it
      works on, fetched from other hosts where asked to ([AssetManager]),
    - _the agent_ ([agent/packages/vss_core]), which answers a search by fusing
      embedding and attribute hits and merging adjacent clips ([Search]), and
    - _the stream distribution controller_ ([sdrc]), which consumes lifecycle
      events of the cameras from Kafka or Redis, decides whether each is
      acknowledged or retried ([bus_outcomes.py]), and gives each stream to a
      worker pod, such as an inference service, that has room for it
      ([app.py]); its replicas share in Redis what each pod has.

    ** Files

    - Prelude.v, this file: exceptions as values ([result]), the state monad of
      Python methods ([stM], whose state survives a [raise]), string, slice and
      sorting functions of Python, tactics and hint databases.
    - PyDict.v: insertion-ordered dicts as association lists.
    - PyFloat.v: binary64 floats, [datetime] and [timedelta] as microseconds.
    - PyText.v: digits, ISO 8601, [json.dumps]. PyVal.v: dynamically typed
      values with [str], [float], [int], [get]. Sha1.v: [hashlib.sha1].
    - Schema.v: the records of [schema/models.py] the managers keep.
    - Crp.v: [utils/crp.py] and the vector functions of [utils/util.py].
    - Sampling.v: [stream/state/behavior/point_sampling.py]. Holdback.v:
      [behavior_holdback.py]. BehaviorState.v: [state_management.py]
      ([process_batch] with all it calls, [flush_behaviors],
      [live_object_ids]) and the grouping of [utils/schema_util.py].
    - FrameState.v: [stream/state/frame/frame_state_management.py]
      ([update_frames], [get_incidents]). Amr.v:
      [stream/state/amr/amr_state_management.py].
    - ActionState.v: [schema/action/action_state.py]. Anomaly.v:
      [transform/detection/anomaly_action_detection.py].
    - BusOutcomes.v: [sdrc/lib/bus_outcomes.py] and, of [sdrc/app.py],
      [_apply_bus_commit_decision] and the end of [kafka_topic_handler].
    - TtlCache.v: [_TTLCache] and Dedup.v: [DedupStateHandler], both of
      [alert/src/clients/dedup_state.py].
    - Persistence.v: [ElasticPersistenceStore] of
      [alert/src/persistence/elastic_store.py] and the document operations of
      [alert/src/clients/elastic.py]. AlertConfig.v: the stores and the service
      of [alert/src/handlers/alert_config], with the heap of the records they
      share; [StoreLaws] is what a store promises the service.
    - Stop.v: [transform/detection/stop_detection.py] and the two distances of
      [utils/distance_util.py] it uses.
    - PyNumber.v: conversions between [int] and [float], signs, [math.ceil].
      Limiter.v: [models/vllm_compatible/adaptive_preprocess_limiter.py] of
      rt-vlm; concurrent calls are the interleavings of its atomic sections.
    - Ranking.v: descending sorts, ranks and [sum] on floats. Fusion.v:
      [search_core/primitives/_fusion.py]. SearchCore.v: [_search_helpers.py]
      and [search.py] beside it, with [SearchInput.validate_semantics].
    - Proc.v: processes over a shared state, every interleaving and
      cancellation of them, and the logic that carries an invariant through
      ([wp], [pool_sound]). AssetStore.v: [utils/asset_manager.py] of rt-vlm,
      each method a process of the sections it runs under the lock and the
      actions between awaits. AssetEviction.v: what its evictions achieve.
      AssetDownload.v: the vetting and the redirect loop of its downloads.
    - PyIso.v: the calendar, what [datetime] writes and reads. EventDocs.v:
      [mdx/utils/elastic_ready.py] of the alert service. EventSink.v:
      [mdx/sink/vlm_enhanced_sink], the event documents of
      [clients/elastic.py] and [utils/event_utils.py], over Persistence.v,
      AlertConfig.v and Dedup.v.
    - VideoEmbedding.v: [stream/state/video_embedding]; [DownsamplerLaws] is
      what a downsampler promises the manager.
    - Events.v: [transform/event] of behavior analytics, the sides and
      intersections of [utils/distance_util.py] and the containment tests of
      [calibration_base.py], over the trips BehaviorState.v carries across
      batches.
    - AlwaysOn.v: [realtime/services/always_on_service.py], its rules file and
      its route, processes over Proc.v.
    - RtviClient.v: [realtime/services/rtvi_client.py], the requests of the alert
      service to the inference service. RuleDocs.v: the rule configuration
      ([realtime/schemas/alert_config.py]), its documents and their store
      ([rule_store.py]). Realtime.v: [realtime_service.py], processes over
      Proc.v; RealtimeRuns.v: a concrete inference service, the witnesses of
      Realtime.v and runs that show its flaws.
    - CollisionState.v: [schema/collision/collision_state.py]. Closeness.v: the
      geometry and configuration of collision detection. Collision.v:
      [transform/detection/collision_detection.py]; CollisionGroups.v: the
      partition its groups form and what regroups it; CollisionFrames.v: the
      account of frames and references; CollisionSafe.v: what the detector
      guarantees; CollisionRuns.v: witnesses and runs that show its flaws.
    - WorkloadSpec.v: [sdrc/lib/parameters/redisconfig.py] and the mappings of
      [redisMessaging.py], the streams, leases and routes in Redis.
      HealthWatcher.v: [healthwatcher.py]. Placement.v: the handlers of
      [sdrc/app.py] that add, remove and re-add streams and the requests of
      [provisionconfig.py], processes over Proc.v; [Cluster] is what they ask of
      the cluster client, [Workers] what the pods answer. PlacementSafe.v: what
      holds under every interleaving; PlacementExact.v: what a handler does
      alone. Docker.v: [dockerclient.py], an instance of [Cluster];
      PlacementRuns.v: witnesses and runs that show flaws of the code.

    A class is a [Record] of its attributes, a method a function in [stM] of
    that record under the method's name, a branch or loop body of a long method
    a function of its own. Objects that the code mutates are values in the one
    place that owns them, read and written back through it; where several
    places share them and it shows (AlertConfig.v) they live in a heap. Metrics
    and log texts are left out.

    ** What the theorems show

    - Behavior state: the invariant of the state manager on every outcome of a
      batch, exceptions included; which tracks remain after a batch; that with
      and without emit-once every behavior is handed over once and in time;
      that the retained points are exactly the stride samples of the series,
      and how many there are; clustering partitions the embeddings.
    - Frame state: calls never raise on reachable states, completion
      partitions the violations, a report drains its queue and is not repeated,
      the frame history is bounded, merged ids are canonical.
    - Video embeddings: which messages the sliding window skips, how far apart
      those of the swinging door are, that what a sensor gives out is a
      subsequence of what it was given.
    - Region events: every stretch of a track is looked at once however it is
      cut into batches, entries and exits alternate, a clean crossing makes
      one event.
    - AMR, actions, anomalies: mute states follow the latest frame, intervals
      stay ordered, a fall alert needs its confirmations, exactly the live
      objects are kept.
    - Collisions: with geographic or image coordinates, frames that show each
      object once and two-part names, no operation raises; a frame and a suspicion refine regroupings of an abstract partition by closeness;
      reports settle exactly the groups whose time is over and forget their
      objects everywhere; a batch leaves nothing stale.
    - Bus: retries are bounded and other messages keep their counters; over
      deliveries and rebalances, whichever client calls fail, no record is
      passed by the committed offset that was not acknowledged, but for those
      whose seek failed.
    - Stream placement: however the bus and pod-watcher handlers of the replicas
      interleave and whatever requests to Redis fail, no pod is given more streams
      than it has room for, as long as no controller starts and the metadata
      route is not used ([bus_handler]); where no request fails, no lease outlives
      the handlers, that route included; a new stream that is added alone goes to
      the selected pod with its route, its removal takes everything back; with an
      assignment by use, streams go round the pods in turn; the pod watcher
      agrees with the health watcher.
    - Alert filters: the cache refines a map with expiring entries, the filters
      refine a log of what was let through, a verdict protects for its time on
      every replica, whatever other calls they make, and fails open, a failed connection is retried after its cooldown.
    - Alert configuration: updates are atomic among replicas, the service
      refines a map over any lawful store, a refused write changes neither
      cache nor snapshot, a strict read never answers from the snapshot.
    - Search: a failed attribute lookup costs its clip the attributes, a library
      error aborts the search; no route returns more than was asked for.
    - Asset store: over every interleaving of its methods, cancellations
      included, camera ids are unique, an id keeps its asset until it is
      removed, reservations are given back; the evictions remove exactly the
      assets a plan names; a search for a fresh id ends. Downloads: every
      request was vetted, credentials stay with their host, sizes and redirects
      are bounded.
    - Always-on rules: over every interleaving of requests, callbacks and
      cancellations a tracked rule is never exchanged for another and requests
      that wait for each other never deadlock; what a start and a removal do
      that run alone.
    - Real-time rules: over every interleaving of creations, deletions, late
      failures and replays, cancellations included, every lock and reference
      taken is given back, nobody waits for ever, and the stream of a camera is
      added at most once and once more for every listing not answered; without a
      store, a creation or deletion that runs alone does what it answers, its
      stream left behind only where the inference service failed; a stored rule
      is replayed with its own configuration.
    - Event documents: what normalization makes of every field of an event
      ([document_of]), and that it leaves the form it makes alone; where an event is stored follows from the message
      as it came in, and its enrichment goes to the same place; a verdict is
      marked only once the event is stored.
    - Where a theorem shows that the code does not do what its text says, the
      name says so: an incremental CRP update restarts the sizes
      ([update_model_sizes]), overlapping regions reset a violation
      ([overlapping_rois_reset]), an interrupted fall risk alerts without
      confirmation ([unconfirmed_fall_alert]).

    ** Parameters, fuel and bounds

    Code outside the repository and platform behaviour are arguments: the order
    in which numpy adds ([np_sum], [dot]), protobuf's [ToDatetime], the text of a float
    ([repr_float], [FloatText]), [datetime.fromisoformat] ([IsoParser]), the Kafka consumer
    ([Consumer], [ConsumerLaws]), the functions of [math] ([MathLib], [Degrees]) and of numpy on angles
    ([NumpyMath]), the order in which a set is iterated ([iter_set]), the
    callbacks of the limiter, what [du], name resolution, [urljoin], the servers
    of a download and [uuid4] answer, the retrieval backends of a search ([Backends]), shapely and matplotlib ([Shapely], [Polygons]),
    pydantic validation, the Elasticsearch server ([EsServer], [EsLaws], [EsIndexing]) and, for the verdicts, its client ([Elastic], [ElasticLaws]),
    the realtime service as the always-on rules see it ([RealtimeService]) and
    the inference service as the realtime rules do ([RtviServer], [RtviLaws],
    [RtviWorks]), which requests to Redis fail ([faults]), [uuid4] and the text
    of a value in Redis ([redis_text]), what worker pods answer to requests
    ([Workers]) and to health probes, and how many of those a wait gets in
    before its deadline. Each
    law is inhabited by an instance used in a witness. The trajectory fields of
    a behavior, numeric geometry the managers only carry, are an argument too
    ([derive]). Clock readings are arguments in the order the code takes them. Integers are
    unbounded as in Python; floats round as binary64. Recursion follows lists;
    the fuel of digit counting ([str_Z]) is the binary length of the number and
    that of binary search the length of the list ([bisect_right_spec] shows it
    is enough); the attempts of an update are the code's own bound; the search
    for a fresh id has one draw more than there are ids ([fresh_id_found]); an
    addition that scales the workload and starts again has as fuel the depth
    Python allows. Case folding and blanks are those of ASCII.

    ** Not modelled

    Threads outside the limiter, the asset store, the two rule services and the
    placement of streams (elsewhere each operation under its lock is atomic), input and output,
    configuration files beyond the keys read, the asynchronous mirrors of the
    verdict calls, the model pipelines of the inference services, the language
    model agents, user interfaces and tools.
    The media splitting of the inference services, calibration, space
    utilization, and of the stream controller the Kubernetes client, the Envoy
    configuration and the reprovisioning of pods are left out as well: each is
    mostly calls of ffmpeg, shapely, pandas or Kubernetes. *)

From Stdlib Require Import ZArith Lia Permutation Sorting.
From stdpp Require Import base list strings gmap sorting.

(** ** Python exceptions and fallible results *)

(** The exception classes the modelled code raises or lets escape. *)
Inductive pyexn :=
  | KeyError
  | IndexError
  | TypeError
  | ValueError
  | AttributeError
  | OverflowError
  | ZeroDivisionError
  | AssertionError
  | PersistenceError
  | NamedError (name : string).

(** A local variable read before it was assigned *)
Definition UnboundLocalError : pyexn := NamedError "UnboundLocalError".

Inductive result (A : Type) :=
  | Ok (a : A)
  | Exn (e : pyexn).
Arguments Ok {A} a.
Arguments Exn {A} e.

#[export] Instance pyexn_eq_dec : EqDecision pyexn.
Proof. solve_decision. Defined.

#[export] Instance result_ret : MRet result := λ A a, Ok a.
#[export] Instance result_bind : MBind result :=
  λ A B k m, match m with Ok a => k a | Exn e => Exn e end.

Definition is_ok {A} (r : result A) : bool :=
  match r with Ok _ => true | Exn _ => false end.

(** [require o e] turns a missing value into the exception [e]. *)
Definition require {A} (o : option A) (e : pyexn) : result A :=
  match o with Some a => Ok a | None => Exn e end.

(** ** State with exceptions

    A Python method that mutates [self] and may raise: the new state is
    returned in both cases, since mutations made before a [raise] persist. *)
Definition stM (S A : Type) : Type := S → result A * S.

#[export] Instance stM_ret S : MRet (stM S) := λ A a s, (Ok a, s).
#[export] Instance stM_bind S : MBind (stM S) :=
  λ A B k m s,
    match m s with
    | (Ok a, s') => k a s'
    | (Exn e, s') => (Exn e, s')
    end.

Definition sget {S} : stM S S := λ s, (Ok s, s).
Definition sput {S} (s' : S) : stM S unit := λ _, (Ok tt, s').
Definition smod {S} (f : S → S) : stM S unit := λ s, (Ok tt, f s).
Definition sraise {S A} (e : pyexn) : stM S A := λ s, (Exn e, s).
Definition slift {S A} (r : result A) : stM S A := λ s, (r, s).

(** [try: m except Exception as e: handler e] *)
Definition scatch {S A} (m : stM S A) (handler : pyexn → stM S A) : stM S A :=
  λ s, match m s with (Ok a, s') => (Ok a, s') | (Exn e, s') => handler e s' end.

(** A [for x in l: body] loop over a stateful body. *)
Fixpoint sfor {S A} (l : list A) (body : A → stM S unit) : stM S unit :=
  match l with
  | [] => mret tt
  | x :: l' => _ ← body x; sfor l' body
  end.

(** Run a computation on a component [B] of the state [S]. *)
Definition zoom {S B A} (get : S → B) (put : B → S → S) (m : stM B A) : stM S A :=
  λ s, let '(r, b) := m (get s) in (r, put b s).

(** ** Python strings: bytes in UTF-8, so equality, concatenation, splitting on
    ASCII separators and the code-point order are those of Python. *)

(** [s.endswith(t)] *)
Definition ends_with (s t : string) : bool :=
  let n := String.length s in
  let m := String.length t in
  (m <=? n) && String.eqb (String.substring (n - m) m s) t.

(** [s.split(sep)] for a non-empty [sep]; the scan consumes [skip] characters
    of a separator already recognised. *)
Fixpoint split_loop (sep s : string) (skip : nat) (acc : string) : list string :=
  match s with
  | EmptyString => [acc]
  | String c s' =>
      match skip with
      | S k => split_loop sep s' k acc
      | O =>
          if String.prefix sep s
          then acc :: split_loop sep s' (String.length sep - 1) EmptyString
          else split_loop sep s' 0 (acc +:+ String c EmptyString)
      end
  end.
Definition py_split (sep s : string) : list string := split_loop sep s 0 EmptyString.

(** [sep.join(l)] *)
Definition py_join (sep : string) (l : list string) : string := String.concat sep l.

(** [s.lower()] and [s.strip()], on the ASCII characters. *)
Definition lower_ascii (c : Ascii.ascii) : Ascii.ascii :=
  let n := Ascii.nat_of_ascii c in
  if (65 <=? n) && (n <=? 90) then Ascii.ascii_of_nat (n + 32) else c.
Fixpoint py_lower (s : string) : string :=
  match s with
  | EmptyString => EmptyString
  | String c s' => String (lower_ascii c) (py_lower s')
  end.
Definition is_space (c : Ascii.ascii) : bool :=
  let n := Ascii.nat_of_ascii c in
  (n =? 32) || ((9 <=? n) && (n <=? 13)) || ((28 <=? n) && (n <=? 31)).
Fixpoint py_lstrip (s : string) : string :=
  match s with
  | EmptyString => EmptyString
  | String c s' => if is_space c then py_lstrip s' else s
  end.
Fixpoint py_rstrip (s : string) : string :=
  match s with
  | EmptyString => EmptyString
  | String c s' =>
      match py_rstrip s' with
      | EmptyString => if is_space c then EmptyString else String c EmptyString
      | r => String c r
      end
  end.
Definition py_strip (s : string) : string := py_rstrip (py_lstrip s).

Example split_ex : py_split " #-# " "cam #-# 7" = ["cam"; "7"].
Proof. reflexivity. Qed.
Example split_ex2 : py_split "|" "a||b" = ["a"; ""; "b"].
Proof. reflexivity. Qed.
Example strip_ex : py_lower (py_strip "  Ab C ") = "ab c".
Proof. reflexivity. Qed.
Example ends_ex : ends_with "cam #-# dummy" "dummy" = true.
Proof. reflexivity. Qed.

(** ** Python slices *)

(** [l[-n:]] for an [int] [n]: the start index [-n] counts from the end when
    it is negative, and is clamped to the list; [l[-0:]] is the whole list. *)
Definition py_tail {A} (l : list A) (n : Z) : list A :=
  if (- n <? 0)%Z then drop (Z.to_nat (Z.of_nat (length l) - n)) l
  else drop (Z.to_nat (- n)) l.

(** [l[:n]] *)
Definition py_take {A} (n : Z) (l : list A) : list A :=
  if (0 <=? n)%Z then take (Z.to_nat n) l else take (length l - Z.to_nat (- n)) l.

(** [l.remove(x)] where [x] occurs: the first occurrence *)
Fixpoint py_remove {A} `{EqDecision A} (x : A) (l : list A) : list A :=
  match l with
  | [] => []
  | y :: l' => if decide (x = y) then l' else y :: py_remove x l'
  end.

(** [l.insert(i, x)]: a negative index counts from the end; both ends clamp. *)
Definition py_insert {A} (l : list A) (i : Z) (x : A) : list A :=
  let n := Z.of_nat (length l) in
  let j := Z.to_nat (Z.min n (if (i <? 0)%Z then Z.max 0 (i + n) else i)) in
  take j l ++ x :: drop j l.

(** [l[::2]] *)
Fixpoint every2 {A} (l : list A) : list A :=
  match l with
  | [] => []
  | [x] => [x]
  | x :: _ :: l' => x :: every2 l'
  end.

(** [bisect.bisect_right(l, x)]: binary search, [fuel] at least [hi - lo]. *)
Fixpoint bisect_loop (l : list Z) (x : Z) (fuel lo hi : nat) : nat :=
  match fuel with
  | O => lo
  | S fuel =>
      if lo <? hi then
        let mid := (lo + hi) / 2 in
        if (x <? nth mid l 0)%Z then bisect_loop l x fuel lo mid
        else bisect_loop l x fuel (S mid) hi
      else lo
  end.
Definition bisect_right (l : list Z) (x : Z) : nat :=
  bisect_loop l x (length l) 0 (length l).

(** ** [sorted(l, key=...)]: the stable sort *)
Section sort.
  Context {A : Type} (le : A → A → bool).

Fixpoint insert_by (x : A) (l : list A) : list A :=
  match l with
  | [] => [x]
  | y :: l' => if le x y then x :: l else y :: insert_by x l'
  end.

Definition sort_by (l : list A) : list A := foldr insert_by [] l.
End sort.

(** [sorted(l, key=k)] for an integer key, and [sorted(l)] for strings. *)
Definition sort_key {A} (k : A → Z) (l : list A) : list A :=
  sort_by (λ x y, (k x <=? k y)%Z) l.
Definition sort_strings (l : list string) : list string := sort_by String.leb l.

(** [set(l)] as a duplicate-free list, in an unspecified order. *)
Fixpoint dedup {A} `{EqDecision A} (l : list A) : list A :=
  match l with
  | [] => []
  | x :: l' => if decide (x ∈ l') then dedup l' else x :: dedup l'
  end.

#[global] Arguments Nat.div : simpl never.
#[global] Arguments Nat.modulo : simpl never.

(** ** Tactics *)

(** Split a [match]/[if] in the goal or a hypothesis, keeping the equation. *)
Ltac split_match :=
  match goal with
  | |- context [match ?x with _ => _ end] => destruct x eqn:?
  | H : context [match ?x with _ => _ end] |- _ => destruct x eqn:?
  end.

Ltac bool_lia := repeat
  match goal with
  | H : (_ <? _)%Z = true |- _ => apply Z.ltb_lt in H
  | H : (_ <? _)%Z = false |- _ => apply Z.ltb_ge in H
  | H : (_ <=? _)%Z = true |- _ => apply Z.leb_le in H
  | H : (_ <=? _)%Z = false |- _ => apply Z.leb_gt in H
  | H : (_ =? _)%Z = true |- _ => apply Z.eqb_eq in H
  | H : (_ =? _)%Z = false |- _ => apply Z.eqb_neq in H
  end; try lia.

Create HintDb pylib.
Create Rewrite HintDb pyrw.

(** ** Lemmas: results and state *)

Lemma result_bind_Ok {A B} (m : result A) (k : A → result B) b :
  m ≫= k = Ok b ↔ ∃ a, m = Ok a ∧ k a = Ok b.
Proof. destruct m; naive_solver. Qed.

Lemma bind_Ok {T A B} (m : stM T A) (f : A → stM T B) st a st' :
  m st = (Ok a, st') → (m ≫= f) st = f a st'.
Proof. intros E. unfold mbind, stM_bind. by rewrite E. Qed.

Lemma stM_bind_Ok {S A B} (m : stM S A) (k : A → stM S B) s b s'' :
  (m ≫= k) s = (Ok b, s'') ↔ ∃ a s', m s = (Ok a, s') ∧ k a s' = (Ok b, s'').
Proof.
  unfold mbind, stM_bind. destruct (m s) as [[a|e] s']; naive_solver.
Qed.

(** A state invariant preserved by every iteration is preserved by the loop,
    whether it returns or raises. *)
Lemma sfor_inv {S A} (I : S → Prop) (l : list A) (body : A → stM S unit) s :
  (∀ x s, x ∈ l → I s → I (body x s).2) → I s → I (sfor l body s).2.
Proof.
  revert s. induction l as [|x l IH]; intros s Hb Hs; simpl; [done|].
  unfold mbind, stM_bind.
  assert (I (body x s).2) as H1 by (apply Hb; [left|done]).
  destruct (body x s) as [[a|e] s'] eqn:E; simpl in *; [|done].
  apply IH; [|done]. intros y s0 Hy. apply Hb. by right.
Qed.

(** If moreover no iteration raises under the invariant, the loop returns. *)
Lemma sfor_ok {S A} (I : S → Prop) (l : list A) (body : A → stM S unit) s :
  (∀ x s, x ∈ l → I s → ∃ s', body x s = (Ok tt, s') ∧ I s') →
  I s → ∃ s', sfor l body s = (Ok tt, s') ∧ I s'.
Proof.
  revert s. induction l as [|x l IH]; intros s Hb Hs; simpl; [by eauto|].
  destruct (Hb x s) as (s' & E & Hs'); [by left|done|].
  unfold mbind, stM_bind. rewrite E.
  apply IH; [|done]. intros y s0 Hy. apply Hb. by right.
Qed.

Lemma sfor_app {S A} (l1 l2 : list A) (body : A → stM S unit) s :
  sfor (l1 ++ l2) body s = (_ ← sfor l1 body; sfor l2 body) s.
Proof.
  revert s. induction l1 as [|x l1 IH]; intros s; [done|]. simpl.
  unfold mbind, stM_bind in *. destruct (body x s) as [[[]|e] s']; [|done].
  apply IH.
Qed.

(** ** Lemmas: removing an element *)
Section remove.
  Context {A : Type} `{EqDecision A}.
  Implicit Types (l : list A).

Lemma py_remove_sub x l y : y ∈ py_remove x l → y ∈ l.
Proof. induction l as [|z l IH]; cbn; [done|]. case_decide; [by right|]. intros [->|?]%elem_of_cons; [by left|right; auto]. Qed.

Lemma py_remove_elem x l y : NoDup l → y ∈ py_remove x l ↔ y ≠ x ∧ y ∈ l.
Proof.
  induction l as [|z l IH]; cbn; intros Hnd; [split; [by intros ?%elem_of_nil|by intros [_ ?%elem_of_nil]]|].
  apply NoDup_cons in Hnd as [Hz Hnd]. case_decide as Hx.
  - subst. split; [intros Hy; split; [by intros ->|by right]|]. intros [Hne [?|?]%elem_of_cons]; done.
  - rewrite !elem_of_cons, IH by done. naive_solver.
Qed.

Lemma py_remove_NoDup x l : NoDup l → NoDup (py_remove x l).
Proof.
  induction l as [|z l IH]; cbn; [done|]. intros [Hz Hnd]%NoDup_cons. case_decide; [done|].
  apply NoDup_cons. split; [by intros ?%py_remove_sub|by apply IH].
Qed.

Lemma py_removes (rs l : list A) :
  NoDup l → NoDup (foldl (λ l r, py_remove r l) l rs) ∧
  (∀ y, y ∈ foldl (λ l r, py_remove r l) l rs ↔ y ∈ l ∧ y ∉ rs) ∧ length (foldl (λ l r, py_remove r l) l rs) ≤ length l.
Proof.
  revert l. induction rs as [|r rs IH]; intros l Hnd; cbn.
  { split_and!; [done| |done]. intros y. pose proof (not_elem_of_nil y). tauto. }
  destruct (IH (py_remove r l)) as (H1 & H2 & H3); [by apply py_remove_NoDup|]. split_and!; [done| |].
  - intros y. rewrite H2, py_remove_elem, not_elem_of_cons by done. tauto.
  - etrans; [done|]. clear. induction l as [|z l IH]; cbn; [done|]. case_decide; cbn; lia.
Qed.
End remove.

(** ** Lemmas: slices *)

Lemma py_tail_pos {A} (l : list A) (n : Z) :
  (0 < n)%Z → py_tail l n = drop (length l - Z.to_nat n) l.
Proof.
  intros Hn. unfold py_tail. destruct (Z.ltb_spec (- n) 0); [|lia].
  f_equal. lia.
Qed.

Lemma py_tail_length {A} (l : list A) (n : Z) :
  (0 < n)%Z → length (py_tail l n) = length l `min` Z.to_nat n.
Proof. intros. rewrite py_tail_pos, length_drop by done. lia. Qed.

Lemma py_tail_suffix {A} (l : list A) (n : Z) : py_tail l n `suffix_of` l.
Proof.
  unfold py_tail. case_match; eexists (take _ l); by rewrite take_drop.
Qed.

Lemma py_tail_short {A} (l : list A) (n : Z) :
  (0 < n)%Z → length l ≤ Z.to_nat n → py_tail l n = l.
Proof.
  intros. rewrite py_tail_pos by done.
  by replace (length l - Z.to_nat n) with 0 by lia.
Qed.

(** Keeping the last [n] of a list extended on the right only needs the last
    [n] of its left part. *)
Lemma py_tail_app {A} (l1 l2 : list A) (n : Z) :
  (0 < n)%Z → py_tail (py_tail l1 n ++ l2) n = py_tail (l1 ++ l2) n.
Proof.
  intros Hn. rewrite !py_tail_pos, !length_app, !length_drop by done.
  rewrite !drop_app, drop_drop, length_drop. f_equal; f_equal; lia.
Qed.

Lemma every2_length {A} (l : list A) : length (every2 l) = (length l + 1) / 2.
Proof.
  assert (∀ n (l : list A), length l ≤ n →
    length (every2 l) = (length l + 1) / 2) as H; [|by eapply H].
  induction n as [|n IH]; intros [|x [|y l']] Hn; cbn [length every2] in *;
    try done; try lia.
  rewrite IH by lia.
  pose proof (Nat.div_add (length l' + 1) 1 2 ltac:(lia)) as Hd.
  replace (S (S (length l')) + 1) with (length l' + 1 + 1 * 2) by lia.
  rewrite Hd. lia.
Qed.

Lemma every2_lookup {A} (l : list A) i : every2 l !! i = l !! (2 * i).
Proof.
  assert (∀ n (l : list A) i, length l ≤ n → every2 l !! i = l !! (2 * i)) as H;
    [|by eapply H].
  induction n as [|n IH]; intros [|x [|y l']] [|j] Hn; simpl in *; try done; try lia.
  rewrite IH by lia. replace (j + S (j + 0)) with (S (2 * j)) by lia. done.
Qed.

Lemma every2_fmap {A B} (f : A → B) (l : list A) : every2 (f <$> l) = f <$> every2 l.
Proof.
  apply list_eq. intros i. by rewrite every2_lookup, !list_lookup_fmap, every2_lookup.
Qed.

(** ** Lemmas: insertion and bisection *)

Lemma StronglySorted_lookup_lt {A} (R : A → A → Prop) l i j x y :
  StronglySorted R l → i < j → l !! i = Some x → l !! j = Some y → R x y.
Proof.
  intros Hs Hij Hi Hj. rewrite <-(take_drop j l) in Hs.
  eapply StronglySorted_app_1_elem_of; [exact Hs| |].
  - apply list_elem_of_lookup. exists i. by rewrite lookup_take_lt.
  - apply list_elem_of_lookup. exists 0. by rewrite lookup_drop, Nat.add_0_r.
Qed.

Lemma py_insert_nat {A} (l : list A) (j : nat) x :
  j ≤ length l → py_insert l (Z.of_nat j) x = take j l ++ x :: drop j l.
Proof.
  intros. unfold py_insert. rewrite (proj2 (Z.ltb_ge _ _)) by lia.
  by replace (Z.to_nat _) with j by lia.
Qed.

Lemma bisect_loop_spec l x fuel lo hi :
  StronglySorted Z.le l → hi - lo ≤ fuel → lo ≤ hi ≤ length l →
  (∀ i y, i < lo → l !! i = Some y → (y ≤ x)%Z) →
  (∀ i y, hi ≤ i → l !! i = Some y → (x < y)%Z) →
  let r := bisect_loop l x fuel lo hi in
  r ≤ length l ∧
  (∀ i y, i < r → l !! i = Some y → (y ≤ x)%Z) ∧
  (∀ i y, r ≤ i → l !! i = Some y → (x < y)%Z).
Proof.
  intros Hs. revert lo hi.
  induction fuel as [|fuel IH]; intros lo hi Hf Hb Hlo Hhi; simpl.
  { assert (lo = hi) as -> by lia. split_and!; eauto; lia. }
  destruct (Nat.ltb_spec lo hi); [|assert (lo = hi) as -> by lia; split_and!; eauto; lia].
  pose proof (Nat.div_mod_eq (lo + hi) 2) as Hm.
  pose proof (Nat.mod_upper_bound (lo + hi) 2 ltac:(lia)) as Hm2.
  set (mid := (lo + hi) / 2) in *.
  destruct (lookup_lt_is_Some_2 l mid) as [y Hy]; [lia|].
  rewrite (nth_lookup_Some _ _ _ _ Hy).
  assert (∀ i j a b, i ≤ j → l !! i = Some a → l !! j = Some b → (a ≤ b)%Z) as Hmono.
  { clear -Hs. intros i j a b Hij Ha Hb.
    destruct (decide (i = j)) as [->|]; [simplify_eq; lia|].
    eapply (StronglySorted_lookup_lt Z.le l i j); eauto with lia. }
  destruct (Z.ltb_spec x y); apply IH; try lia; try done.
  - intros i z Hi Hz. specialize (Hmono mid i y z Hi Hy Hz). lia.
  - intros i z Hi Hz. specialize (Hmono i mid z y ltac:(lia) Hz Hy). lia.
Qed.

(** On a sorted list [bisect_right] is the position after the last element
    not greater than [x]. *)
Lemma bisect_right_spec l x :
  StronglySorted Z.le l →
  bisect_right l x ≤ length l ∧
  Forall (λ y, (y ≤ x)%Z) (take (bisect_right l x) l) ∧
  Forall (λ y, (x < y)%Z) (drop (bisect_right l x) l).
Proof.
  intros Hs.
  destruct (bisect_loop_spec l x (length l) 0 (length l)) as (Hr & Hlo & Hhi);
    [done|lia|lia|lia| |].
  { intros i y Hi ?%lookup_lt_Some. lia. }
  fold (bisect_right l x) in *. split_and!; [done| |].
  - apply Forall_lookup. intros i y [Hy Hi]%lookup_take_Some. eauto.
  - apply Forall_lookup. intros i y Hy. rewrite lookup_drop in Hy.
    eapply Hhi; [|exact Hy]. lia.
Qed.

(** ** Lemmas: stable sorting *)
Section sort_lemmas.
  Context {A : Type} (le : A → A → bool).
  Implicit Types (l : list A).

Lemma insert_by_perm x l : insert_by le x l ≡ₚ x :: l.
Proof.
  induction l as [|y l IH]; simpl; [done|]. case_match; [done|].
  rewrite IH. by apply Permutation_swap.
Qed.

Lemma sort_by_perm l : sort_by le l ≡ₚ l.
Proof.
  induction l as [|x l IH]; simpl; [done|]. by rewrite insert_by_perm, IH.
Qed.

Lemma sort_by_length l : length (sort_by le l) = length l.
Proof. by rewrite sort_by_perm. Qed.

Lemma sort_by_elem_of l x : x ∈ sort_by le l ↔ x ∈ l.
Proof. by rewrite sort_by_perm. Qed.

Lemma sort_by_nil_inv l : sort_by le l = [] → l = [].
Proof. intros H. apply Permutation_nil. by rewrite <-H, sort_by_perm. Qed.

Context (le_trans : ∀ x y z, le x y = true → le y z = true → le x z = true)
        (le_total : ∀ x y, le x y = true ∨ le y x = true).

Lemma insert_by_sorted x l :
  StronglySorted (λ x y, le x y = true) l →
  StronglySorted (λ x y, le x y = true) (insert_by le x l).
Proof.
  induction 1 as [|y l Hs IH Hall]; simpl; [by repeat constructor|].
  destruct (le x y) eqn:E.
  - constructor; [by constructor|]. constructor; [done|].
    eapply Forall_impl; [exact Hall|]. intros z Hz. by eapply le_trans.
  - constructor; [done|]. rewrite insert_by_perm.
    constructor; [|done]. destruct (le_total x y); congruence.
Qed.

Lemma sort_by_sorted l : StronglySorted (λ x y, le x y = true) (sort_by le l).
Proof.
  induction l as [|x l IH]; simpl; [constructor|]. by apply insert_by_sorted.
Qed.

(** A list already in order is unchanged. *)
Lemma sort_by_id l : StronglySorted (λ x y, le x y = true) l → sort_by le l = l.
Proof.
  induction 1 as [|x l Hs IH Hall]; simpl; [done|]. rewrite IH.
  destruct Hall as [|y l Hy Hall]; simpl; [done|]. by rewrite Hy.
Qed.

(** Stability: the elements of one equivalence class of the order keep their
    relative order. *)
Lemma insert_by_filter_eq x l (P : A → Prop) `{∀ a, Decision (P a)} :
  P x → (∀ y, P y → le x y = true) →
  filter P (insert_by le x l) = x :: filter P l.
Proof.
  intros Hx HP. induction l as [|y l IH]; simpl.
  { by rewrite filter_cons_True. }
  destruct (le x y) eqn:E.
  - by rewrite filter_cons_True.
  - rewrite filter_cons_False by (intros Hy; rewrite HP in E; done).
    rewrite IH. by rewrite filter_cons_False by (intros Hy; rewrite HP in E; done).
Qed.

Lemma insert_by_filter_ne x l (P : A → Prop) `{∀ a, Decision (P a)} :
  ¬ P x → filter P (insert_by le x l) = filter P l.
Proof.
  intros Hx. induction l as [|y l IH]; simpl; [by rewrite filter_cons_False|].
  destruct (le x y); [by rewrite filter_cons_False|].
  rewrite !filter_cons. by rewrite IH.
Qed.

Lemma sort_by_stable l (P : A → Prop) `{∀ a, Decision (P a)} :
  (∀ x y, P x → P y → le x y = true) →
  filter P (sort_by le l) = filter P l.
Proof.
  intros HP. induction l as [|x l IH]; simpl; [done|].
  destruct (decide (P x)).
  - rewrite insert_by_filter_eq, IH by eauto. by rewrite filter_cons_True.
  - rewrite insert_by_filter_ne, IH by done. by rewrite filter_cons_False.
Qed.
End sort_lemmas.

Lemma sort_key_sorted {A} (k : A → Z) l :
  StronglySorted (λ x y, (k x ≤ k y)%Z) (sort_key k l).
Proof.
  assert (StronglySorted (λ x y, (k x <=? k y)%Z = true) (sort_key k l)) as H.
  { apply sort_by_sorted; intros *; rewrite ?Z.leb_le; lia. }
  induction H as [|x l' _ IH Hall]; constructor; [done|].
  eapply Forall_impl; [exact Hall|]. intros y. by rewrite Z.leb_le.
Qed.

Lemma sort_key_perm {A} (k : A → Z) l : sort_key k l ≡ₚ l.
Proof. apply sort_by_perm. Qed.

Lemma sort_key_id {A} (k : A → Z) l :
  StronglySorted (λ x y, (k x ≤ k y)%Z) l → sort_key k l = l.
Proof.
  intros H. apply sort_by_id.
  induction H as [|x l' _ IH Hall]; constructor; [done|].
  eapply Forall_impl; [exact Hall|]. intros y. by rewrite Z.leb_le.
Qed.

Lemma StronglySorted_filter {A} (R : A → A → Prop) (P : A → Prop)
    `{∀ a, Decision (P a)} l :
  StronglySorted R l → StronglySorted R (filter P l).
Proof.
  induction 1 as [|x l Hs IH Hall]; [constructor|].
  rewrite filter_cons. case_decide; [|done]. constructor; [done|].
  apply Forall_forall. intros y [_ Hy]%list_elem_of_filter.
  rewrite Forall_forall in Hall. by apply Hall.
Qed.

Lemma StronglySorted_fmap {A B} (R : B → B → Prop) (f : A → B) l :
  StronglySorted (λ x y, R (f x) (f y)) l → StronglySorted R (f <$> l).
Proof.
  induction 1 as [|x l Hs IH Hall]; csimpl; constructor; [done|].
  rewrite Forall_fmap. exact Hall.
Qed.

Lemma StronglySorted_fmap_inv {A B} (R : B → B → Prop) (f : A → B) l :
  StronglySorted R (f <$> l) → StronglySorted (λ x y, R (f x) (f y)) l.
Proof.
  induction l as [|x l IH]; csimpl; [constructor|].
  intros [Hall Hs]%StronglySorted_cons. constructor; [by apply IH|].
  rewrite Forall_fmap in Hall. exact Hall.
Qed.

Lemma list_filter_all {A} (P : A → Prop) `{∀ a, Decision (P a)} (l : list A) :
  (∀ x, x ∈ l → P x) → filter P l = l.
Proof.
  induction l as [|x l IH]; intros Hl; [done|].
  rewrite filter_cons_True by (apply Hl; by left).
  rewrite IH; [done|]. intros y Hy. apply Hl. by right.
Qed.

Lemma list_filter_none {A} (P : A → Prop) `{∀ a, Decision (P a)} (l : list A) :
  (∀ x, x ∈ l → ¬ P x) → filter P l = [].
Proof.
  induction l as [|x l IH]; intros Hl; [done|].
  rewrite filter_cons_False by (apply Hl; by left).
  apply IH. intros y Hy. apply Hl. by right.
Qed.

(** ** Lemmas: duplicate removal *)
Section dedup_lemmas.
  Context {A : Type} `{EqDecision A}.

Lemma dedup_elem_of (l : list A) x : x ∈ dedup l ↔ x ∈ l.
Proof.
  induction l as [|y l IH]; simpl; [done|]. case_decide.
  - rewrite IH, elem_of_cons. naive_solver.
  - rewrite !elem_of_cons, IH. done.
Qed.

Lemma dedup_nodup (l : list A) : NoDup (dedup l).
Proof.
  induction l as [|y l IH]; simpl; [constructor|]. case_decide; [done|].
  constructor; [by rewrite dedup_elem_of|done].
Qed.
End dedup_lemmas.

(** ** Lemmas: sorted strings *)
Lemma string_leb_trans x y z :
  String.leb x y = true → String.leb y z = true → String.leb x z = true.
Proof.
  unfold String.leb. revert y z.
  induction x as [|a x IH]; intros [|b y] [|c z]; simpl; try done.
  unfold Ascii.compare.
  destruct (N.compare_spec (Ascii.N_of_ascii a) (Ascii.N_of_ascii b)) as [Hab|Hab|Hab],
    (N.compare_spec (Ascii.N_of_ascii b) (Ascii.N_of_ascii c)) as [Hbc|Hbc|Hbc],
    (N.compare_spec (Ascii.N_of_ascii a) (Ascii.N_of_ascii c)) as [Hac|Hac|Hac];
    intros; try done; try (exfalso; lia); by eapply IH.
Qed.

#[export] Instance string_leb_antisymm : AntiSymm (=) (λ x y, String.leb x y = true).
Proof. intros x y. apply String.leb_antisym. Qed.

Lemma sort_strings_sorted l : StronglySorted (λ x y, String.leb x y = true) (sort_strings l).
Proof.
  apply sort_by_sorted; [apply string_leb_trans|apply String.leb_total].
Qed.

(** The result of [sorted] does not depend on the order of its argument. *)
Lemma sort_strings_perm l1 l2 : l1 ≡ₚ l2 → sort_strings l1 = sort_strings l2.
Proof.
  intros H. eapply (StronglySorted_unique (λ x y, String.leb x y = true));
    [apply sort_strings_sorted..|].
  unfold sort_strings. by rewrite !sort_by_perm.
Qed.

Lemma string_length_app (s t : string) :
  String.length (s +:+ t) = (String.length s + String.length t).
Proof.
  induction s as [|x s IH]; [done|].
  change (S (String.length (s +:+ t)) = S (String.length s + String.length t)). by rewrite IH.
Qed.
Lemma prefix_app p s : String.prefix p (p +:+ s) = true.
Proof. induction p as [|c p IH]; [by destruct s|]. simpl. by destruct (Ascii.ascii_dec c c). Qed.
Lemma substring_all s : String.substring 0 (String.length s) s = s.
Proof. induction s as [|c s IH]; [done|]. simpl. by rewrite IH. Qed.
Lemma substring_app p s : String.substring (String.length p) (String.length s) (p +:+ s) = s.
Proof. induction p as [|c p IH]; [apply substring_all|exact IH]. Qed.
#[export] Hint Resolve sort_strings_sorted sort_key_sorted dedup_nodup py_tail_suffix : pylib.
#[export] Hint Rewrite @sort_by_elem_of @dedup_elem_of @sort_by_length
  @every2_lookup : pyrw.
