(* ===== verification/PyDict.v ===== *)
(** * Python dictionaries

    A [dict] iterates in insertion order, so it is an association list:
    assignment replaces in place or appends, deletion removes the entry. The
    lemmas relate it to stdpp's finite maps ([dict_map]), where order is
    forgotten, and give the keys' behaviour under each operation. *)

From stdpp Require Import base list strings gmap.
From S2P Require Import Prelude.

Abbreviation dict K V := (list (K * V)).

Section defs.
  Context {K V : Type} `{EqDecision K}.
  Implicit Types (d : dict K V) (k : K) (v : V).

(** [d.get(k)] *)
Fixpoint dget d k : option V :=
  match d with
  | [] => None
  | (k', v) :: d' => if decide (k = k') then Some v else dget d' k
  end.

(** [d[k] = v] *)
Fixpoint dset d k v : dict K V :=
  match d with
  | [] => [(k, v)]
  | (k', v') :: d' =>
      if decide (k = k') then (k', v) :: d' else (k', v') :: dset d' k v
  end.

(** [del d[k]], [d.pop(k, None)] *)
Definition ddel d k : dict K V := filter (λ kv, kv.1 ≠ k) d.

(** [k in d] *)
Definition dmem d k : bool := match dget d k with Some _ => true | None => false end.

Definition dkeys d : list K := d.*1.
Definition dvals d : list V := d.*2.

(** [d.update(d2)] *)
Definition dupdate d (d2 : dict K V) : dict K V :=
  foldl (λ acc kv, dset acc kv.1 kv.2) d d2.

(** [d.setdefault(k, v)], the entry a [defaultdict] creates on access *)
Definition dsetdefault d k v : V * dict K V :=
  match dget d k with Some v' => (v', d) | None => (v, dset d k v) end.

(** A Python dict has one entry per key. *)
Definition dict_wf d : Prop := NoDup (dkeys d).
End defs.

(** Apply [f] to every value, keeping keys and order. *)
Definition dmap {K V W} (f : V → W) (d : dict K V) : dict K W :=
  (λ kv, (kv.1, f kv.2)) <$> d.

(** The finite map a dict denotes. *)
Definition dict_map {K V} `{Countable K} (d : dict K V) : gmap K V :=
  list_to_map d.

Section lemmas.
  Context {K V : Type} `{EqDecision K}.
  Implicit Types (d : dict K V) (k : K) (v : V).

Lemma dget_app d d2 k : dget (d ++ d2) k = match dget d k with Some v => Some v | None => dget d2 k end.
Proof. induction d as [|[k' v'] d IH]; simpl; [done|]. by destruct (decide (k = k')). Qed.

Lemma dget_dset_eq d k v : dget (dset d k v) k = Some v.
Proof.
  induction d as [|[k' v'] d IH]; simpl; [by rewrite decide_True|].
  case_decide; simpl; [by rewrite decide_True|by rewrite decide_False].
Qed.

Lemma dget_dset_ne d k k' v : k ≠ k' → dget (dset d k v) k' = dget d k'.
Proof.
  intros Hne. induction d as [|[k0 v0] d IH]; simpl; [by rewrite decide_False|].
  case_decide; subst; simpl; [by rewrite !decide_False|].
  case_decide; [done|apply IH].
Qed.

Lemma dget_dset d k k' v :
  dget (dset d k v) k' = if decide (k = k') then Some v else dget d k'.
Proof. case_decide; subst; auto using dget_dset_eq, dget_dset_ne. Qed.

Lemma dget_ddel_eq d k : dget (ddel d k) k = None.
Proof.
  unfold ddel. induction d as [|[k' v'] d IH]; [done|].
  rewrite filter_cons. case_decide; simpl in *; [|done].
  by rewrite decide_False.
Qed.

Lemma dget_ddel_ne d k k' : k ≠ k' → dget (ddel d k) k' = dget d k'.
Proof.
  intros Hne. unfold ddel. induction d as [|[k0 v0] d IH]; [done|].
  rewrite filter_cons. case_decide as Hd; simpl in *.
  - case_decide; [done|apply IH].
  - subst. by rewrite decide_False.
Qed.

Lemma dget_ddel d k k' :
  dget (ddel d k) k' = if decide (k = k') then None else dget d k'.
Proof. case_decide; subst; auto using dget_ddel_eq, dget_ddel_ne. Qed.

Lemma dget_filter_key (P : K → Prop) `{∀ kv : K * V, Decision (P kv.1)} d k :
  P k → dget (filter (λ kv, P kv.1) d) k = dget d k.
Proof.
  intros HP. induction d as [|[k' v'] d IH]; [done|]. rewrite filter_cons.
  case_decide as Hk; simpl in *; rewrite IH; [done|].
  destruct (decide (k = k')) as [->|]; done.
Qed.

Lemma dget_elem d k v : dget d k = Some v → (k, v) ∈ d.
Proof.
  induction d as [|[k' v'] d IH]; simpl; [done|].
  case_decide; intros ?; simplify_eq; [by left|right; auto].
Qed.

Lemma dget_None d k : dget d k = None ↔ k ∉ dkeys d.
Proof.
  unfold dkeys. induction d as [|[k' v'] d IH]; csimpl.
  - split; [intros _; apply not_elem_of_nil|done].
  - rewrite not_elem_of_cons. case_decide; naive_solver.
Qed.

Lemma dget_is_Some d k : is_Some (dget d k) ↔ k ∈ dkeys d.
Proof.
  rewrite <-not_eq_None_Some, dget_None. split; [|tauto].
  destruct (decide (k ∈ dkeys d)); tauto.
Qed.

Lemma dmem_true d k : dmem d k = true ↔ k ∈ dkeys d.
Proof. unfold dmem. rewrite <-dget_is_Some. destruct (dget d k); split; naive_solver. Qed.

Lemma elem_dget d k v : dict_wf d → (k, v) ∈ d → dget d k = Some v.
Proof.
  unfold dict_wf, dkeys. induction d as [|[k' v'] d IH]; csimpl.
  - by intros _ ?%not_elem_of_nil.
  - intros [Hni Hnd]%NoDup_cons [?|Hin]%elem_of_cons; simplify_eq.
    + by rewrite decide_True.
    + rewrite decide_False; [auto|]. intros ->. apply Hni.
      apply list_elem_of_fmap. by exists (k', v).
Qed.

Lemma dkeys_dset_in d k v : k ∈ dkeys d → dkeys (dset d k v) = dkeys d.
Proof.
  unfold dkeys. induction d as [|[k' v'] d IH]; csimpl.
  - by intros ?%not_elem_of_nil.
  - intros [?|?]%elem_of_cons; case_decide; csimpl; f_equal; naive_solver.
Qed.

Lemma dset_fresh d k v : k ∉ dkeys d → dset d k v = d ++ [(k, v)].
Proof.
  unfold dkeys. induction d as [|[k' v'] d IH]; csimpl; [done|].
  intros [Hne Hni]%not_elem_of_cons. rewrite decide_False by done.
  by rewrite IH.
Qed.

Lemma dkeys_dset_fresh d k v : k ∉ dkeys d → dkeys (dset d k v) = dkeys d ++ [k].
Proof. intros. rewrite dset_fresh by done. unfold dkeys. by rewrite fmap_app. Qed.

Lemma dkeys_dset_elem d k v k' : k' ∈ dkeys (dset d k v) ↔ k' = k ∨ k' ∈ dkeys d.
Proof.
  destruct (decide (k ∈ dkeys d)).
  - rewrite dkeys_dset_in by done. naive_solver.
  - rewrite dkeys_dset_fresh, elem_of_app, list_elem_of_singleton by done. tauto.
Qed.

Lemma dkeys_ddel d k : dkeys (ddel d k) = filter (.≠ k) (dkeys d).
Proof.
  unfold dkeys, ddel. induction d as [|[k' v'] d IH]; [done|].
  rewrite filter_cons. csimpl. rewrite filter_cons. simpl.
  destruct (decide (k' ≠ k)); csimpl; congruence.
Qed.

Lemma dkeys_ddel_elem d k k' : k' ∈ dkeys (ddel d k) ↔ k' ≠ k ∧ k' ∈ dkeys d.
Proof. by rewrite dkeys_ddel, list_elem_of_filter. Qed.

Lemma ddel_absent d k : dget d k = None → ddel d k = d.
Proof.
  intros Hk%dget_None. apply list_filter_all. intros [k' v] Hin Heq. simpl in Heq. subst k'.
  apply Hk, list_elem_of_fmap. by exists (k, v).
Qed.

Lemma ddel_dset d k v : dget d k = None → ddel (dset d k v) k = d.
Proof.
  intros Hk. rewrite dset_fresh by by apply dget_None. pose proof (ddel_absent d k Hk) as E. unfold ddel in *.
  rewrite filter_app, E, filter_cons, filter_nil, decide_False by (intros H; by apply H). apply app_nil_r.
Qed.

Lemma dict_wf_nil : dict_wf ([] : dict K V).
Proof. constructor. Qed.

Lemma dict_wf_dset d k v : dict_wf d → dict_wf (dset d k v).
Proof.
  unfold dict_wf. intros H. destruct (decide (k ∈ dkeys d)).
  - by rewrite dkeys_dset_in.
  - rewrite dkeys_dset_fresh by done. apply NoDup_app. split_and!; [done| |].
    + by intros x ? ->%list_elem_of_singleton.
    + apply NoDup_singleton.
Qed.

Lemma dict_wf_ddel d k : dict_wf d → dict_wf (ddel d k).
Proof. unfold dict_wf. rewrite dkeys_ddel. by apply NoDup_filter. Qed.

Lemma dict_wf_dupdate d d2 : dict_wf d → dict_wf (dupdate d d2).
Proof.
  unfold dupdate. revert d. induction d2 as [|kv d2 IH]; intros d Hd; simpl; [done|].
  by apply IH, dict_wf_dset.
Qed.

Lemma dset_elem d k v k' v' :
  dict_wf d → (k', v') ∈ dset d k v ↔ (k' = k ∧ v' = v) ∨ (k' ≠ k ∧ (k', v') ∈ d).
Proof.
  intros Hwf. split.
  - intros Hin%elem_dget; [|by apply dict_wf_dset].
    rewrite dget_dset in Hin. case_decide; simplify_eq; [by left|right].
    split; [done|by apply dget_elem].
  - intros [[-> ->]|[Hne Hin]]; apply dget_elem; rewrite dget_dset.
    + by rewrite decide_True.
    + rewrite decide_False by done. by apply elem_dget.
Qed.

Lemma dset_id d k v : dget d k = Some v → dset d k v = d.
Proof.
  induction d as [|[k' v'] d IH]; simpl; [done|].
  case_decide; [by intros [= ->]|]. intros Hg. by rewrite IH.
Qed.

Lemma dset_dset d k v v' : dset (dset d k v) k v' = dset d k v'.
Proof.
  induction d as [|[k' v0] d IH]; simpl; [by rewrite decide_True|]. case_decide; simpl; [by rewrite decide_True|].
  rewrite decide_False by done. by rewrite IH.
Qed.

Lemma dset_elem_1 d k v k' v' :
  (k', v') ∈ dset d k v → (k' = k ∧ v' = v) ∨ (k', v') ∈ d.
Proof.
  induction d as [|[k1 v1] d IH]; simpl.
  - intros ?%list_elem_of_singleton. simplify_eq. by left.
  - case_decide; intros [?|?]%elem_of_cons; simplify_eq.
    + by left.
    + right. by right.
    + right. by left.
    + destruct IH as [?|?]; [done|by left|]. right. by right.
Qed.

Lemma dupdate_elem_1 d d2 k v : (k, v) ∈ dupdate d d2 → (k, v) ∈ d ∨ (k, v) ∈ d2.
Proof.
  unfold dupdate. revert d. induction d2 as [|[k2 v2] d2 IH]; intros d; simpl; [by left|].
  intros [[[-> ->]|?]%dset_elem_1|?]%IH; [right; by left|by left|right; by right].
Qed.

Lemma dget_dupdate_not d d2 k : k ∉ dkeys d2 → dget (dupdate d d2) k = dget d k.
Proof.
  unfold dupdate, dkeys. revert d. induction d2 as [|[k2 v2] d2 IH]; intros d; csimpl; [done|].
  rewrite not_elem_of_cons. intros [??]. rewrite IH by done. by rewrite dget_dset_ne.
Qed.

Lemma dget_dupdate_in d d2 k v : dict_wf d2 → dget d2 k = Some v → dget (dupdate d d2) k = Some v.
Proof.
  intros Hw Hk. revert d. induction d2 as [|[k2 v2] d2 IH]; intros d; [done|]. cbn in Hk.
  apply NoDup_cons in Hw as [Hn Hw]. change (dupdate d ((k2, v2) :: d2)) with (dupdate (dset d k2 v2) d2).
  case_decide as Hd; [|by apply IH]. injection Hk as ->. subst. rewrite dget_dupdate_not by done. apply dget_dset_eq.
Qed.

(** [for k in ks: d.pop(k, None)] *)
Lemma dget_foldl_ddel d ks k : dget (foldl (λ d k, ddel d k) d ks) k = if decide (k ∈ ks) then None else dget d k.
Proof.
  revert d. induction ks as [|k1 ks IH]; intros d; [by rewrite decide_False by apply not_elem_of_nil|].
  cbn [foldl]. rewrite IH, dget_ddel. repeat case_decide; set_solver.
Qed.
Lemma dict_wf_foldl_ddel d ks : dict_wf d → dict_wf (foldl (λ d k, ddel d k) d ks).
Proof. revert d. induction ks as [|k ks IH]; intros d Hd; [done|]. by apply IH, dict_wf_ddel. Qed.

Lemma dget_dmap {W} (f : V → W) d k : dget (dmap f d) k = f <$> dget d k.
Proof.
  unfold dmap. induction d as [|[k' v'] d IH]; csimpl; [done|]. by case_decide.
Qed.

Lemma dkeys_dmap {W} (f : V → W) d : dkeys (dmap f d) = dkeys d.
Proof. unfold dkeys, dmap. rewrite <-list_fmap_compose. done. Qed.

Lemma dict_wf_dmap {W} (f : V → W) d : dict_wf d → dict_wf (dmap f d).
Proof. unfold dict_wf. by rewrite dkeys_dmap. Qed.

Lemma dict_wf_filter (P : K * V → Prop) `{∀ kv, Decision (P kv)} d :
  dict_wf d → dict_wf (filter P d).
Proof.
  unfold dict_wf, dkeys. induction d as [|kv d IH]; csimpl; [done|].
  intros [Hni Hnd]%NoDup_cons. rewrite filter_cons. case_decide; [|auto].
  csimpl. apply NoDup_cons. split; [|auto]. intros (kv' & Hk & Hin)%list_elem_of_fmap.
  apply list_elem_of_filter in Hin as [_ Hin]. apply Hni. rewrite Hk.
  by apply list_elem_of_fmap_2.
Qed.

Lemma dict_wf_fold {A} (f : dict K V → A → K) (g : dict K V → A → V) (l : list A) d :
  dict_wf d → dict_wf (foldl (λ d a, dset d (f d a) (g d a)) d l).
Proof. revert d. induction l as [|a l IH]; intros d Hd; simpl; auto using dict_wf_dset. Qed.

Lemma dvals_elem d v : v ∈ dvals d ↔ ∃ k, (k, v) ∈ d.
Proof.
  unfold dvals. rewrite list_elem_of_fmap. split.
  - intros ([k v'] & -> & ?). by exists k.
  - intros [k ?]. by exists (k, v).
Qed.
End lemmas.

(** ** The finite map a dict denotes *)
Section refinement.
  Context {K V : Type} `{Countable K}.
  Implicit Types (d : dict K V).

Lemma dict_map_lookup d k : dict_map d !! k = dget d k.
Proof.
  unfold dict_map. induction d as [|[k' v'] d IH]; csimpl; [done|].
  rewrite lookup_insert, IH. repeat case_decide; congruence.
Qed.

Lemma dict_map_dset d k v : dict_map (dset d k v) = <[k := v]> (dict_map d).
Proof.
  apply map_eq. intros i. by rewrite lookup_insert, !dict_map_lookup, dget_dset.
Qed.

Lemma dict_map_ddel d k : dict_map (ddel d k) = delete k (dict_map d).
Proof.
  apply map_eq. intros i. by rewrite lookup_delete, !dict_map_lookup, dget_ddel.
Qed.

Lemma dict_map_to_list d : dict_wf d → map_to_list (dict_map d) ≡ₚ d.
Proof. intros Hd. by apply map_to_list_to_map. Qed.

Lemma dict_map_dom d k : k ∈ dom (dict_map d) ↔ k ∈ dkeys d.
Proof. by rewrite elem_of_dom, dict_map_lookup, dget_is_Some. Qed.
End refinement.

#[export] Hint Resolve dict_wf_nil dict_wf_dset dict_wf_ddel dict_wf_dupdate : pylib.
#[export] Hint Rewrite @dget_dset_eq @dget_ddel_eq @dkeys_dset_elem
  @dkeys_ddel_elem @dict_map_dset @dict_map_ddel @dict_map_lookup : pyrw.

(** Case analysis on the dictionary lookups of the goal. *)
Ltac dict_simpl :=
  repeat first
    [ progress simplify_eq/=
    | rewrite dget_dset_eq
    | rewrite dget_ddel_eq
    | rewrite dget_dset_ne by done
    | rewrite dget_ddel_ne by done ].

(** ** Grouping

    [d.setdefault(key(x), []).append(x)] over a list. *)
Section group_by.
  Context {K A : Type} `{EqDecision K} (key : A → K).

Definition add_to_group (d : dict K (list A)) (x : A) : dict K (list A) :=
  dset d (key x) (default [] (dget d (key x)) ++ [x]).
Definition group_by (l : list A) : dict K (list A) := foldl add_to_group [] l.

Lemma group_by_snoc l x : group_by (l ++ [x]) = add_to_group (group_by l) x.
Proof. unfold group_by. by rewrite foldl_app. Qed.

Lemma join_dset (d : dict K (list A)) k l x :
  dict_wf d → default [] (dget d k) = l → mjoin (dvals (dset d k (l ++ [x]))) ≡ₚ mjoin (dvals d) ++ [x].
Proof.
  unfold dict_wf, dvals, dkeys. induction d as [|[k' v] d IH]; simpl; [by intros _ <-|].
  intros [Hk Hwf]%NoDup_cons. case_decide as Hc.
  - intros <-. simpl. rewrite <- !(assoc_L (++)). apply Permutation_app_head, Permutation_app_comm.
  - intros Hl. simpl. rewrite IH by done. by rewrite (assoc_L (++)).
Qed.

Lemma group_by_spec l :
  dict_wf (group_by l) ∧ mjoin (dvals (group_by l)) ≡ₚ l ∧
  ∀ k v, (k, v) ∈ group_by l → Forall (λ x, key x = k) v.
Proof.
  induction l as [|x l (IH1 & IH2 & IH3)] using rev_ind.
  { split_and!; [constructor|done|]. by intros k v ?%elem_of_nil. }
  rewrite group_by_snoc. split_and!.
  - by apply dict_wf_dset.
  - unfold add_to_group. by rewrite join_dset, IH2.
  - intros k v [[-> ->]|H]%dset_elem_1; [|by eapply IH3].
    apply Forall_app. split; [|by repeat constructor].
    destruct (dget _ (key x)) as [v|] eqn:E; simpl; [|done]. by eapply IH3, dget_elem.
Qed.
End group_by.

(** ** Nested dicts: [d[k1][k2]], its assignment with a new inner dict where there is
    none, and [d[k1].pop(k2, None)] *)
Section nested.
  Context {K1 K2 V : Type} `{EqDecision K1} `{EqDecision K2}.
  Implicit Types (d : dict K1 (dict K2 V)).

Definition nget d s o : option V := match dget d s with Some inner => dget inner o | None => None end.
Definition nset d s o (v : V) : dict K1 (dict K2 V) := dset d s (dset (default [] (dget d s)) o v).
Definition ndel d s o : dict K1 (dict K2 V) :=
  match dget d s with Some inner => dset d s (ddel inner o) | None => d end.

(** Every inner dict has one entry per key. *)
Definition nested_wf d : Prop := dict_wf d ∧ ∀ s inner, dget d s = Some inner → dict_wf inner.

Lemma nget_nset d s o v s' o' :
  nget (nset d s o v) s' o' = if decide (s = s' ∧ o = o') then Some v else nget d s' o'.
Proof.
  unfold nget, nset. rewrite dget_dset. destruct (decide (s = s')) as [<-|Hs].
  - rewrite dget_dset. destruct (decide (o = o')) as [<-|Ho].
    + by rewrite decide_True.
    + rewrite decide_False by tauto. by destruct (dget d s).
  - rewrite decide_False by tauto. done.
Qed.

Lemma nget_ndel d s o s' o' :
  nget (ndel d s o) s' o' = if decide (s = s' ∧ o = o') then None else nget d s' o'.
Proof.
  unfold nget, ndel. destruct (dget d s) as [inner|] eqn:E.
  - rewrite dget_dset. destruct (decide (s = s')) as [<-|Hs].
    + rewrite dget_ddel, E. repeat case_decide; naive_solver.
    + rewrite decide_False by tauto. done.
  - case_decide as Hso; [|done]. destruct Hso as [<- <-]. by rewrite E.
Qed.

Lemma nget_nset_eq d s o v : nget (nset d s o v) s o = Some v.
Proof. rewrite nget_nset. by rewrite decide_True. Qed.

Lemma nget_Some d s o v : nget d s o = Some v → ∃ inner, dget d s = Some inner ∧ dget inner o = Some v.
Proof. unfold nget. destruct (dget d s) as [inner|]; [|done]. by exists inner. Qed.

Lemma nested_wf_nil : nested_wf ([] : dict K1 (dict K2 V)).
Proof. split; [constructor|done]. Qed.

Lemma nested_wf_dset d s inner : nested_wf d → dict_wf inner → nested_wf (dset d s inner).
Proof.
  intros [Hd Hi] Hw. split; [by apply dict_wf_dset|]. intros s' i. rewrite dget_dset.
  case_decide; [by intros [= <-]|apply Hi].
Qed.

Lemma nested_wf_default d s : nested_wf d → dict_wf (default [] (dget d s)).
Proof. intros [_ Hi]. destruct (dget d s) as [i|] eqn:E; [by apply (Hi s)|constructor]. Qed.

Lemma nested_wf_nset d s o v : nested_wf d → nested_wf (nset d s o v).
Proof. intros Hw. apply nested_wf_dset; [done|]. by apply dict_wf_dset, nested_wf_default. Qed.

Lemma nested_wf_ndel d s o : nested_wf d → nested_wf (ndel d s o).
Proof.
  intros Hw. unfold ndel. destruct (dget d s) as [i|] eqn:E; [|done]. apply nested_wf_dset; [done|].
  apply dict_wf_ddel. by apply (proj2 Hw s).
Qed.
End nested.
#[global] Arguments nget : simpl never.
#[global] Arguments nset : simpl never.
#[global] Arguments ndel : simpl never.
#[export] Hint Resolve nested_wf_nil nested_wf_nset nested_wf_ndel : pylib.
