(* ===== verification/PyFloat.v ===== *)
(** * Python floats, datetimes and timedeltas

    A [float] is an IEEE 754 binary64 number with the standard library's
    executable specification of the operations ([SpecFloat], precision 53,
    exponents up to 1024). A timezone-aware [datetime] is the integer number
    of microseconds since the epoch and a [timedelta] an integer number of
    microseconds, which is how CPython represents them;
    [timedelta.total_seconds()] is their correctly rounded quotient by
    10^6, and [timedelta(seconds=x)] rounds half-even to a microsecond. The
    bounds of [datetime] (years 1 to 9999) are not modelled. *)

From Stdlib Require Import ZArith Lia Floats.SpecFloat.
From stdpp Require Import base list.
From S2P Require Import Prelude.
Open Scope Z_scope.

Abbreviation float := spec_float.
Definition prec : Z := 53.
Definition emax : Z := 1024.

(** ** Arithmetic and comparisons *)
Definition fadd : float → float → float := SFadd prec emax.
Definition fsub : float → float → float := SFsub prec emax.
Definition fmul : float → float → float := SFmul prec emax.
Definition fdiv : float → float → float := SFdiv prec emax.
Definition fsqrt : float → float := SFsqrt prec emax.
Definition fabs : float → float := SFabs.
Definition fopp : float → float := SFopp.

Definition flt : float → float → bool := SFltb.
Definition fle : float → float → bool := SFleb.
Definition feq : float → float → bool := SFeqb.

Definition is_nan (x : float) : bool :=
  match x with S754_nan => true | _ => false end.

(** [math.isfinite] *)
Definition isfinite (x : float) : bool :=
  match x with S754_zero _ | S754_finite _ _ _ => true | _ => false end.

Definition f0 : float := S754_zero false.
Definition finf : float := S754_infinity false.
Definition fninf : float := S754_infinity true.

(** [float(n)] for an [int], rounded to nearest even. *)
Definition Z2f (n : Z) : float := binary_normalize prec emax n 0 false.

(** [a / b] for integers [a] and [b > 0]: the quotient correctly rounded. *)
Definition div_ints (a : Z) (b : positive) : float :=
  match a with
  | Z0 => S754_zero false
  | Zpos _ | Zneg _ =>
      let '(m, e, l) := SFdiv_core_binary prec emax (Z.abs a) 0 (Zpos b) 0 in
      binary_round_aux prec emax (a <? 0) m e l
  end.

(** A decimal literal [n / 10^k]. *)
Definition lit (n : Z) (k : nat) : float := div_ints n (Pos.of_nat (Nat.pow 10 k)).

(** [x ? n] for a float [x] and an [int] [n]: Python compares the exact values. *)
Definition fcmpZ (x : float) (n : Z) : option comparison :=
  match x with
  | S754_nan => None
  | S754_infinity s => Some (if s then Lt else Gt)
  | S754_zero _ => Some (0 ?= n)
  | S754_finite s m e =>
      let v := if s then Zneg m else Zpos m in
      Some (if 0 <=? e then (v * 2 ^ e ?= n) else (v ?= n * 2 ^ (- e)))
  end.
Definition fltZ (x : float) (n : Z) : bool :=
  match fcmpZ x n with Some Lt => true | _ => false end.
Definition fgeZ (x : float) (n : Z) : bool :=
  match fcmpZ x n with Some (Eq | Gt) => true | _ => false end.
Definition fgtZ (x : float) (n : Z) : bool :=
  match fcmpZ x n with Some Gt => true | _ => false end.

(** ** Datetimes and timedeltas *)
Abbreviation datetime := Z (only parsing).
Abbreviation timedelta := Z (only parsing).

(** [td.total_seconds()] *)
Definition total_seconds (td : timedelta) : float := div_ints td 1000000.

(** [dt.timestamp()] of an aware datetime. *)
Definition timestamp_of (dt : datetime) : float := total_seconds dt.

(** [timedelta(seconds=n)] for an [int]. *)
Definition td_int (n : Z) : timedelta := n * 1000000.

(** The exact integer part and fractional part of a finite float ([modf]). *)
Definition modf (x : float) : option (Z * float) :=
  match x with
  | S754_zero s => Some (0, S754_zero s)
  | S754_finite s m e =>
      if 0 <=? e then Some ((if s then Zneg m else Zpos m) * 2 ^ e, S754_zero s)
      else
        let q := Zpos m / 2 ^ (- e) in
        let r := Zpos m mod 2 ^ (- e) in
        Some (if s then - q else q,
              match r with
              | 0 => S754_zero s
              | _ => binary_normalize prec emax (if s then - r else r) e s
              end)
  | _ => None
  end.

(** The integer nearest to a finite float [x], ties to the one that makes
    [base + result] even (CPython's rounding of the microsecond remainder). *)
Definition round_with (base : Z) (x : float) : Z :=
  match x with
  | S754_finite s m e =>
      let sg := if s then -1 else 1 in
      if 0 <=? e then sg * (Zpos m * 2 ^ e)
      else
        let d := 2 ^ (- e) in
        let q := Zpos m / d in
        let r := Zpos m mod d in
        match 2 * r ?= d with
        | Lt => sg * q
        | Gt => sg * (q + 1)
        | Eq => if Z.even (base + sg * q) then sg * q else sg * (q + 1)
        end
  | _ => 0
  end.

(** [timedelta(seconds=x)] for a [float]; NaN raises [ValueError] and the
    infinities raise [OverflowError]. *)
Definition td_float (x : float) : result timedelta :=
  match x with
  | S754_nan => Exn ValueError
  | S754_infinity _ => Exn OverflowError
  | _ =>
      match modf x with
      | Some (ip, fp) =>
          let base := ip * 1000000 in
          Ok (base + round_with base (fmul fp (Z2f 1000000)))
      | None => Exn ValueError
      end
  end.

Example td_half : td_float (lit 5 1) = Ok 500000.
Proof. vm_compute. reflexivity. Qed.
Example td_neg : td_float (fopp (lit 12345678 7)) = Ok (-1234568).
Proof. vm_compute. reflexivity. Qed.
Example ts_tenth : total_seconds 100000 = lit 1 1.
Proof. vm_compute. reflexivity. Qed.
Example lit_tenth : lit 1 1 = S754_finite false 7205759403792794 (-56).
Proof. vm_compute. reflexivity. Qed.
Example f_gt_int : fgtZ (lit 55 1) 5 = true ∧ fgtZ (lit 5 0) 5 = false.
Proof. split; vm_compute; reflexivity. Qed.

(** ** Lemmas: the order of the floats

    On the floats other than NaN the comparisons are a total preorder: each
    float has a lexicographic rank, and comparing is comparing ranks. *)
Definition frank (x : float) : Z * Z * Z :=
  match x with
  | S754_nan => (0, 0, 0)
  | S754_infinity true => (-2, 0, 0)
  | S754_finite true m e => (-1, - e, Zneg m)
  | S754_zero _ => (0, 0, 0)
  | S754_finite false m e => (1, e, Zpos m)
  | S754_infinity false => (2, 0, 0)
  end.

Definition lex_compare (p q : Z * Z * Z) : comparison :=
  match p.1.1 ?= q.1.1 with
  | Eq => match p.1.2 ?= q.1.2 with Eq => p.2 ?= q.2 | c => c end
  | c => c
  end.

Lemma fcompare_rank x y :
  is_nan x = false → is_nan y = false →
  SFcompare x y = Some (lex_compare (frank x) (frank y)).
Proof.
  intros Hx Hy.
  destruct x as [[]|[]| |[] m e], y as [[]|[]| |[] m' e']; try done;
    unfold lex_compare; simpl; rewrite ?Z.compare_refl; try done.
  rewrite Z.compare_opp, (Z.compare_antisym e e'). by destruct (e ?= e').
Qed.

Lemma lex_compare_refl p : lex_compare p p = Eq.
Proof. unfold lex_compare. by rewrite !Z.compare_refl. Qed.

Lemma lex_compare_antisym p q : lex_compare q p = CompOpp (lex_compare p q).
Proof.
  unfold lex_compare.
  rewrite (Z.compare_antisym q.1.1 p.1.1), (Z.compare_antisym q.1.2 p.1.2),
    (Z.compare_antisym q.2 p.2).
  by destruct (q.1.1 ?= p.1.1), (q.1.2 ?= p.1.2), (q.2 ?= p.2).
Qed.

Lemma lex_compare_trans p q r :
  lex_compare p q ≠ Gt → lex_compare q r ≠ Gt → lex_compare p r ≠ Gt.
Proof.
  destruct p as [[a b] c], q as [[a' b'] c'], r as [[a'' b''] c''].
  unfold lex_compare; simpl.
  destruct (Z.compare_spec a a'), (Z.compare_spec a' a''),
    (Z.compare_spec a a''); try done; try lia;
  destruct (Z.compare_spec b b'), (Z.compare_spec b' b''),
    (Z.compare_spec b b''); try done; try lia.
  exact (Z.le_trans c c' c'').
Qed.

Lemma fle_rank x y :
  is_nan x = false → is_nan y = false →
  fle x y = true ↔ lex_compare (frank x) (frank y) ≠ Gt.
Proof.
  intros. unfold fle, SFleb. rewrite fcompare_rank by done. by case_match.
Qed.

Lemma flt_fle x y :
  is_nan x = false → is_nan y = false → flt x y = negb (fle y x).
Proof.
  intros. unfold fle, flt, SFleb, SFltb. rewrite !fcompare_rank by done.
  rewrite (lex_compare_antisym (frank x)). by case_match.
Qed.

Lemma fle_not_nan x y : fle x y = true → is_nan x = false ∧ is_nan y = false.
Proof. by destruct x as [| | |], y as [| | |]. Qed.

Lemma flt_not_nan x y : flt x y = true → is_nan x = false ∧ is_nan y = false.
Proof. by destruct x as [| | |], y as [| | |]. Qed.

Lemma fle_refl x : is_nan x = false → fle x x = true.
Proof. intros. apply fle_rank; [done..|]. by rewrite lex_compare_refl. Qed.

Lemma flt_irrefl x : flt x x = false.
Proof.
  destruct (is_nan x) eqn:E; [by destruct x|].
  by rewrite flt_fle, fle_refl.
Qed.

Lemma feq_refl x : is_nan x = false → feq x x = true.
Proof. intros. unfold feq, SFeqb. by rewrite fcompare_rank, lex_compare_refl. Qed.

Lemma fle_total x y :
  is_nan x = false → is_nan y = false → fle x y = true ∨ fle y x = true.
Proof.
  intros. rewrite !fle_rank by done. rewrite (lex_compare_antisym (frank x)).
  destruct (lex_compare _ _); naive_solver.
Qed.

Lemma fle_trans x y z : fle x y = true → fle y z = true → fle x z = true.
Proof.
  intros Hxy Hyz. destruct (fle_not_nan _ _ Hxy), (fle_not_nan _ _ Hyz).
  rewrite fle_rank in * by done. by eapply lex_compare_trans.
Qed.

Lemma flt_le x y : flt x y = true → fle x y = true.
Proof.
  intros H. destruct (flt_not_nan _ _ H). rewrite flt_fle in H by done.
  destruct (fle_total x y); [done..|]. by rewrite H2 in H.
Qed.

Lemma flt_fle_trans x y z : flt x y = true → fle y z = true → flt x z = true.
Proof.
  intros Hxy Hyz. destruct (flt_not_nan _ _ Hxy), (fle_not_nan _ _ Hyz).
  rewrite flt_fle in * by done. apply negb_true_iff, not_true_is_false.
  intros Hzx. apply negb_true_iff, not_true_iff_false in Hxy. apply Hxy.
  by eapply fle_trans.
Qed.

Lemma fle_flt_trans x y z : fle x y = true → flt y z = true → flt x z = true.
Proof.
  intros Hxy Hyz. destruct (fle_not_nan _ _ Hxy), (flt_not_nan _ _ Hyz).
  rewrite flt_fle in * by done. apply negb_true_iff, not_true_is_false.
  intros Hzx. apply negb_true_iff, not_true_iff_false in Hyz. apply Hyz.
  by eapply fle_trans.
Qed.

Lemma fle_false_flt x y :
  is_nan x = false → is_nan y = false → fle x y = false → flt y x = true.
Proof. intros. rewrite flt_fle by done. by rewrite H1. Qed.

#[export] Hint Resolve fle_refl flt_irrefl feq_refl flt_le : pylib.

(** ** Lemmas: rounding never yields NaN *)

Lemma shr_1_nonneg r : 0 <= shr_m r → 0 <= shr_m (shr_1 r).
Proof. destruct r as [[|[]|[]] ? ?]; simpl; lia. Qed.

Lemma shr_nonneg r e n : 0 <= shr_m r → 0 <= shr_m (shr r e n).1.
Proof.
  intros H. destruct n as [|p|p]; simpl; [done| |done].
  revert r H. induction p as [p IH|p IH|]; intros r H; simpl; auto using shr_1_nonneg.
Qed.

Lemma shr_fexp_nonneg m e l : 0 <= m → 0 <= shr_m (shr_fexp prec emax m e l).1.
Proof. intros. apply shr_nonneg. by destruct l as [|[]]. Qed.

Lemma round_nearest_even_nonneg m l : 0 <= m → 0 <= round_nearest_even m l.
Proof. intros. unfold round_nearest_even. repeat case_match; lia. Qed.

Lemma binary_round_aux_not_nan s m e l :
  0 <= m → is_nan (binary_round_aux prec emax s m e l) = false.
Proof.
  intros H. unfold binary_round_aux.
  pose proof (shr_fexp_nonneg m e l H) as H1. destruct (shr_fexp _ _ m e l) as [r1 e1].
  simpl in H1.
  pose proof (shr_fexp_nonneg _ e1 loc_Exact
    (round_nearest_even_nonneg _ (loc_of_shr_record r1) H1)) as H2.
  destruct (shr_fexp _ _ (round_nearest_even _ _) e1 _) as [r2 e2]. simpl in H2.
  destruct (shr_m r2); [done|by case_match|lia].
Qed.

Lemma div_ints_not_nan a b : is_nan (div_ints a b) = false.
Proof.
  assert (∀ n, 0 <= n → let '(m, _, _) := SFdiv_core_binary prec emax n 0 (Zpos b) 0 in
    0 <= m) as Hq.
  { intros n Hn. unfold SFdiv_core_binary.
    set (m' := match _ with 0 => _ | _ => _ end).
    assert (0 <= m') as Hm.
    { unfold m'. case_match; [done| |done]. by apply Z.shiftl_nonneg. }
    pose proof (Z_div_mod m' (Zpos b) eq_refl) as Hd.
    destruct (Z.div_eucl m' (Zpos b)) as [q r]. destruct Hd as [Hd Hr].
    assert (0 <= q) by nia. done. }
  unfold div_ints. destruct a as [|p|p]; [done|..];
    specialize (Hq (Zpos p) ltac:(lia)); simpl Z.abs;
    destruct (SFdiv_core_binary _ _ _ _ _ _) as [[m e] l];
    by apply binary_round_aux_not_nan.
Qed.

Lemma total_seconds_not_nan td : is_nan (total_seconds td) = false.
Proof. apply div_ints_not_nan. Qed.
#[export] Hint Resolve total_seconds_not_nan : pylib.

(** ** Lemmas: a positive integer converts to a positive float *)
Lemma Zdigits2_log2 m : 0 < m → Zdigits2 m = Z.log2 m + 1.
Proof.
  destruct m as [|p|p]; [lia| |lia]. intros _. simpl.
  assert (∀ q, Zpos (digits2_pos q) = Z.log2 (Zpos q) + 1) as H; [|apply H].
  clear p. induction q as [q IH|q IH|]; [..|done].
  - simpl digits2_pos. rewrite Pos2Z.inj_succ, IH, (Pos2Z.inj_xI q), Z.log2_succ_double by lia. lia.
  - simpl digits2_pos. rewrite Pos2Z.inj_succ, IH, (Pos2Z.inj_xO q), Z.log2_double by lia. lia.
Qed.

Lemma shr_1_div2 r : 0 <= shr_m r → shr_m (shr_1 r) = Z.shiftr (shr_m r) 1.
Proof. by destruct r as [[|[]|] ? ?]. Qed.

Lemma iter_shr_1 p r : 0 <= shr_m r → shr_m (SpecFloat.iter_pos shr_1 p r) = Z.shiftr (shr_m r) (Zpos p).
Proof.
  assert (∀ r, 0 <= shr_m r → 0 <= shr_m (shr_1 r)) as H1 by (intros; by apply shr_1_nonneg).
  revert r. induction p as [p IH|p IH|]; intros r Hr; simpl; [..|by apply shr_1_div2].
  - rewrite IH, IH, shr_1_div2, !Z.shiftr_shiftr by
      (rewrite ?IH, ?shr_1_div2 by auto; rewrite ?Z.shiftr_nonneg; auto; lia).
    f_equal. lia.
  - rewrite IH, IH, Z.shiftr_shiftr by (rewrite ?IH by auto; rewrite ?Z.shiftr_nonneg; auto; lia).
    f_equal. lia.
Qed.

Lemma shiftr_pos m n : 0 < m → 0 <= n <= Z.log2 m → 0 < Z.shiftr m n.
Proof.
  intros Hm Hn. rewrite Z.shiftr_div_pow2 by lia. apply Z.div_str_pos.
  split; [by apply Z.pow_pos_nonneg; lia|]. etrans; [|by apply Z.log2_spec].
  apply Z.pow_le_mono_r; lia.
Qed.

(** Rounding keeps a positive mantissa whose value is at least one positive. *)
Lemma shr_fexp_pos m e l :
  0 < m → 0 <= Z.log2 m + e →
  0 < shr_m (shr_fexp prec emax m e l).1 ∧
  0 <= Z.log2 (shr_m (shr_fexp prec emax m e l).1) + (shr_fexp prec emax m e l).2.
Proof.
  intros Hm He. unfold shr_fexp. rewrite Zdigits2_log2 by done.
  set (r := shr_record_of_loc m l).
  assert (shr_m r = m) as Hr by (unfold r; by destruct l as [|[]]).
  set (n := fexp prec emax (Z.log2 m + 1 + e) - e).
  assert (n <= Z.log2 m) as Hn by (unfold n, fexp, SpecFloat.emin, prec, emax; lia).
  unfold shr. destruct n as [|p|p] eqn:En; simpl; [by rewrite Hr|..|by rewrite Hr].
  rewrite iter_shr_1, Hr by lia. split; [apply shiftr_pos; lia|].
  rewrite Z.log2_shiftr by lia. lia.
Qed.

Lemma binary_round_aux_pos m e :
  0 < m → 0 <= Z.log2 m + e →
  (∃ m' e', binary_round_aux prec emax false m e loc_Exact = S754_finite false m' e') ∨
  binary_round_aux prec emax false m e loc_Exact = S754_infinity false.
Proof.
  intros Hm He. unfold binary_round_aux.
  destruct (shr_fexp_pos m e loc_Exact Hm He) as [H1 H2].
  destruct (shr_fexp prec emax m e loc_Exact) as [r1 e1]. simpl in H1, H2.
  set (m1 := round_nearest_even (shr_m r1) (loc_of_shr_record r1)).
  assert (shr_m r1 <= m1) as Hm1 by (unfold m1, round_nearest_even; repeat case_match; lia).
  pose proof (Z.log2_le_mono _ _ Hm1).
  destruct (shr_fexp_pos m1 e1 loc_Exact) as [H3 _]; [lia..|].
  destruct (shr_fexp prec emax m1 e1 loc_Exact) as [r2 e2]. simpl in H3.
  destruct (shr_m r2) as [|m2|]; [lia| |lia]. destruct (_ <=? _); eauto.
Qed.

Lemma pos_iter_xO p q : Zpos (Pos.iter xO p q) = Zpos p * 2 ^ Zpos q.
Proof.
  induction q as [|q IH] using Pos.peano_ind; [simpl; lia|].
  rewrite Pos.iter_succ, Pos2Z.inj_xO, IH, Pos2Z.inj_succ, Z.pow_succ_r by lia. lia.
Qed.

Lemma Z2f_pos n :
  0 < n → (∃ m e, Z2f n = S754_finite false m e) ∨ Z2f n = S754_infinity false.
Proof.
  intros Hn. unfold Z2f, binary_normalize. destruct n as [|p|]; [lia| |lia].
  unfold binary_round, shl_align. set (ez := fexp prec emax _).
  destruct (ez - 0) as [|d|d] eqn:Ed; [by apply binary_round_aux_pos; [|apply Z.add_nonneg_nonneg; [apply Z.log2_nonneg|]]..|].
  apply binary_round_aux_pos; [lia|].
  rewrite pos_iter_xO, Z.log2_mul_pow2 by lia. pose proof (Z.log2_nonneg (Zpos p)). lia.
Qed.
