(* ===== verification/PyText.v ===== *)
(** * Text the services produce: decimal digits, ISO 8601 instants, JSON

    [datetime.isoformat(timespec="milliseconds")] of a UTC datetime (with the
    proleptic Gregorian calendar of CPython's [datetime]) and the part of
    [json.dumps] that incident output uses: strings, lists and dicts with the
    default separators and [ensure_ascii]. Strings are UTF-8 bytes. *)

From Stdlib Require Import ZArith Lia.
From stdpp Require Import base list strings.
From S2P Require Import Prelude PyFloat.
Open Scope Z_scope.

(** ** Decimal digits *)
Definition digit (d : Z) : Ascii.ascii := Ascii.ascii_of_N (Z.to_N (48 + d)).

(** The last [n] decimal digits of [k], zero padded. *)
Fixpoint digits (n : nat) (k : Z) : string :=
  match n with
  | O => EmptyString
  | S n => digits n (k / 10) +:+ String (digit (k mod 10)) EmptyString
  end.

(** [str(k)] for an [int]: as many digits as needed, [fuel] more than their number. *)
Fixpoint digit_count (fuel : nat) (k : Z) : nat :=
  match fuel with
  | O => 1
  | S fuel => if k <? 10 then 1 else S (digit_count fuel (k / 10))
  end.
Definition str_Z (k : Z) : string :=
  let a := Z.abs k in
  let s := digits (digit_count (Z.to_nat (Z.log2_up (a + 1)) + 1) a) a in
  if k <? 0 then "-" +:+ s else s.

Example str_Z_ex : str_Z (-1024) = "-1024" ∧ str_Z 0 = "0".
Proof. done. Qed.

(** ** ISO 8601 *)

(** The civil date (year, month, day) of a day number counted from 1970-01-01. *)
Definition civil_from_days (n : Z) : Z * Z * Z :=
  let z := n + 719468 in
  let era := z / 146097 in
  let doe := z mod 146097 in
  let yoe := (doe - doe / 1460 + doe / 36524 - doe / 146096) / 365 in
  let doy := doe - (365 * yoe + yoe / 4 - yoe / 100) in
  let mp := (5 * doy + 2) / 153 in
  let d := doy - (153 * mp + 2) / 5 + 1 in
  let m := if mp <? 10 then mp + 3 else mp - 9 in
  (yoe + era * 400 + (if m <=? 2 then 1 else 0), m, d).

(** [dt.isoformat(timespec="milliseconds")] of a UTC datetime. *)
Definition isoformat_ms (dt : datetime) : string :=
  let '(y, m, d) := civil_from_days (dt / 86400000000) in
  let us := dt mod 86400000000 in
  let s := us / 1000000 in
  digits 4 y +:+ "-" +:+ digits 2 m +:+ "-" +:+ digits 2 d +:+ "T" +:+
  digits 2 (s / 3600) +:+ ":" +:+ digits 2 (s / 60 mod 60) +:+ ":" +:+ digits 2 (s mod 60)
  +:+ "." +:+ digits 3 (us / 1000 mod 1000) +:+ "+00:00".

(** [s.replace("+00:00", "Z")] on such a text: its only occurrence is the suffix. *)
Definition convert_datetime_to_iso_8601_with_z_suffix (dt : datetime) : string :=
  py_join "Z" (py_split "+00:00" (isoformat_ms dt)).

Example iso_ex :
  convert_datetime_to_iso_8601_with_z_suffix 1710417600123456 = "2024-03-14T12:00:00.123Z".
Proof. vm_compute. reflexivity. Qed.
Example iso_leap :
  convert_datetime_to_iso_8601_with_z_suffix 951782399999999 = "2000-02-28T23:59:59.999Z".
Proof. vm_compute. reflexivity. Qed.

(** ** JSON *)
#[local] Set Warnings "-register-all".
Inductive json :=
  | JStr (s : string)
  | JList (l : list json)
  | JDict (d : list (string * json)).

Definition hex_digit (d : Z) : Ascii.ascii :=
  Ascii.ascii_of_N (Z.to_N (if d <? 10 then 48 + d else 87 + d)).
(** [\uXXXX] *)
Definition u_escape (k : Z) : string :=
  "\u" +:+ String (hex_digit (k / 4096 mod 16)) (String (hex_digit (k / 256 mod 16))
    (String (hex_digit (k / 16 mod 16)) (String (hex_digit (k mod 16)) EmptyString))).

(** The escape of one code point. *)
Definition json_char (k : Z) : string :=
  if k =? 34 then String (Ascii.ascii_of_nat 92) (String (Ascii.ascii_of_nat 34) EmptyString)
  else if k =? 92 then "\\"
  else if k =? 10 then "\n"
  else if k =? 13 then "\r"
  else if k =? 9 then "\t"
  else if k =? 8 then "\b"
  else if k =? 12 then "\f"
  else if (32 <=? k) && (k <? 127) then String (Ascii.ascii_of_N (Z.to_N k)) EmptyString
  else if k <? 65536 then u_escape k
  else u_escape (55296 + (k - 65536) / 1024) +:+ u_escape (56320 + (k - 65536) mod 1024).

Definition byte_of (c : Ascii.ascii) : Z := Z.of_N (Ascii.N_of_ascii c).

(** The code points of a UTF-8 text: [k] continuation bytes of the code point
    [acc] are still to come. *)
Fixpoint code_points (s : string) (k : nat) (acc : Z) : list Z :=
  match s with
  | EmptyString => []
  | String c s' =>
      let b := byte_of c in
      match k with
      | O => if b <? 128 then b :: code_points s' 0 0
             else if b <? 224 then code_points s' 1 (b - 192)
             else if b <? 240 then code_points s' 2 (b - 224)
             else code_points s' 3 (b - 240)
      | S k' => let acc' := acc * 64 + (b - 128) in
                match k' with
                | O => acc' :: code_points s' 0 0
                | S _ => code_points s' k' acc'
                end
      end
  end.

Definition dquote : string := String (Ascii.ascii_of_nat 34) EmptyString.
Definition json_string (s : string) : string :=
  dquote +:+ py_join "" (json_char <$> code_points s 0 0) +:+ dquote.

(** [json.dumps(j)] *)
Fixpoint json_dumps (j : json) : string :=
  match j with
  | JStr s => json_string s
  | JList l => "[" +:+ py_join ", " (json_dumps <$> l) +:+ "]"
  | JDict d =>
      "{" +:+ py_join ", " ((λ kv, json_string kv.1 +:+ ": " +:+ json_dumps kv.2) <$> d) +:+ "}"
  end.

Example json_ex : json_dumps (JList [JDict []; JStr "a\b"]) = "[{}, " +:+ dquote +:+ "a\\b" +:+ dquote +:+ "]".
Proof. vm_compute. reflexivity. Qed.
Example json_utf8 :
  json_string (String (Ascii.ascii_of_nat 195) (String (Ascii.ascii_of_nat 169) EmptyString)) = dquote +:+ "\u00e9" +:+ dquote.
Proof. vm_compute. reflexivity. Qed.
