(* ===== verification/PyVal.v ===== *)
(** * Dynamically typed Python values: what [json.loads] and [yaml.safe_load]
    return

    Truth values, [dict.get], [str()], [repr()], [float()] and iteration of
    such a value, raising what Python raises. Dict keys are strings; strings
    are UTF-8 bytes, and [repr] takes every non-ASCII character as printable.
    The decimal text of a float is an interface ([FloatText]) with the law
    CPython documents: [float(repr(x))] is [x]. *)

From Stdlib Require Import ZArith Lia Strings.String Strings.Ascii Floats.SpecFloat.
From stdpp Require Import base countable list strings.
From S2P Require Import Prelude PyDict PyFloat PyText.
Open Scope Z_scope.

#[local] Set Warnings "-register-all".
Inductive pyval :=
  | VNone
  | VBool (b : bool)
  | VInt (z : Z)
  | VFloat (f : float)
  | VStr (s : string)
  | VList (l : list pyval)
  | VDict (d : list (string * pyval)).

(** [bool(v)] *)
Definition truthy (v : pyval) : bool :=
  match v with
  | VNone => false
  | VBool b => b
  | VInt z => negb (z =? 0)
  | VFloat f => negb (feq f f0)
  | VStr s => negb (String.eqb s EmptyString)
  | VList l => negb (bool_decide (l = []))
  | VDict d => negb (bool_decide (d = []))
  end.

(** [a or b] *)
Definition vor (a b : pyval) : pyval := if truthy a then a else b.

(** [v.get(key, dflt)] *)
Definition vget_or (v : pyval) (key : string) (dflt : pyval) : result pyval :=
  match v with VDict d => Ok (default dflt (dget d key)) | _ => Exn AttributeError end.
Definition vget (v : pyval) (key : string) : result pyval := vget_or v key VNone.

(** The receiver of a [str] method. *)
Definition as_str (v : pyval) : result string :=
  match v with VStr s => Ok s | _ => Exn AttributeError end.

Definition is_dict (v : pyval) : bool := match v with VDict _ => true | _ => false end.

(** [v == True] *)
Definition eq_true (v : pyval) : bool :=
  match v with
  | VBool b => b
  | VInt z => z =? 1
  | VFloat f => feq f (Z2f 1)
  | _ => false
  end.

(** ** Text *)
Class FloatText := {
  repr_float : float → string;
  parse_float : string → option float;
}.
Class FloatTextLaws `{FloatText} : Prop :=
  parse_repr x : parse_float (repr_float x) = Some x.

(** The characters of a UTF-8 text: continuation bytes stay with their character. *)
Fixpoint utf8_chars (s : string) : list string :=
  match s with
  | EmptyString => []
  | String c s' =>
      match utf8_chars s', s' with
      | r :: rs, String c' _ =>
          if (128 <=? byte_of c') && (byte_of c' <? 192) then String c r :: rs
          else String c EmptyString :: r :: rs
      | _, _ => [String c EmptyString]
      end
  end.

Definition has_char (c : Ascii.ascii) (s : string) : bool :=
  existsb (Ascii.eqb c) (list_ascii_of_string s).

(** One byte of [repr(s)] between quotes [q]. *)
Definition repr_byte (q : Ascii.ascii) (c : Ascii.ascii) : string :=
  let b := byte_of c in
  if Ascii.eqb c q || (b =? 92) then String (Ascii.ascii_of_nat 92) (String c EmptyString)
  else if b =? 10 then "\n"
  else if b =? 13 then "\r"
  else if b =? 9 then "\t"
  else if (b <? 32) || (b =? 127)
  then "\x" +:+ String (hex_digit (b / 16)) (String (hex_digit (b mod 16)) EmptyString)
  else String c EmptyString.
Definition repr_str (s : string) : string :=
  let q := if has_char (Ascii.ascii_of_nat 39) s && negb (has_char (Ascii.ascii_of_nat 34) s)
           then Ascii.ascii_of_nat 34 else Ascii.ascii_of_nat 39 in
  String q EmptyString +:+ py_join "" (repr_byte q <$> list_ascii_of_string s) +:+ String q EmptyString.

Section text.
  Context `{FloatText}.

(** [repr(v)] *)
Fixpoint py_repr (v : pyval) : string :=
  match v with
  | VNone => "None"
  | VBool b => if b then "True" else "False"
  | VInt z => str_Z z
  | VFloat f => repr_float f
  | VStr s => repr_str s
  | VList l => "[" +:+ py_join ", " (py_repr <$> l) +:+ "]"
  | VDict d =>
      "{" +:+ py_join ", " ((λ kv, repr_str kv.1 +:+ ": " +:+ py_repr kv.2) <$> d) +:+ "}"
  end.

(** [str(v)], which is also what an f-string shows. *)
Definition py_str (v : pyval) : string := match v with VStr s => s | _ => py_repr v end.

(** [float(v)] *)
Definition py_float (v : pyval) : result float :=
  match v with
  | VBool b => Ok (Z2f (if b then 1 else 0))
  | VInt z => if isfinite (Z2f z) then Ok (Z2f z) else Exn OverflowError
  | VFloat f => Ok f
  | VStr s => require (parse_float s) ValueError
  | VNone | VList _ | VDict _ => Exn TypeError
  end.
End text.

(** [x >= v] for a [float] [x] *)
Definition float_ge (x : float) (v : pyval) : result bool :=
  match v with
  | VBool b => Ok (fgeZ x (if b then 1 else 0))
  | VInt z => Ok (fgeZ x z)
  | VFloat f => Ok (fle f x)
  | _ => Exn TypeError
  end.

(** [int(s)] of a text: surrounding blanks, a sign, digits with single
    underscores between them. *)
Fixpoint parse_digits (s : string) (acc : Z) (underscore : bool) : option Z :=
  match s with
  | EmptyString => if underscore then None else Some acc
  | String c s' =>
      let b := byte_of c in
      if (48 <=? b) && (b <=? 57) then parse_digits s' (acc * 10 + (b - 48)) false
      else if (b =? 95) && negb underscore then parse_digits s' acc true
      else None
  end.
Definition parse_int (s : string) : option Z :=
  match py_strip s with
  | EmptyString => None
  | String c s' =>
      if byte_of c =? 45 then Z.opp <$> parse_digits s' 0 true
      else if byte_of c =? 43 then parse_digits s' 0 true
      else parse_digits (String c s') 0 true
  end.

(** [int(v)] *)
Definition py_int (v : pyval) : result Z :=
  match v with
  | VBool b => Ok (if b then 1 else 0)
  | VInt z => Ok z
  | VFloat f =>
      match modf f with
      | Some (z, _) => Ok z
      | None => Exn (if is_nan f then ValueError else OverflowError)
      end
  | VStr s => require (parse_int s) ValueError
  | VNone | VList _ | VDict _ => Exn TypeError
  end.
Example parse_int_ex : parse_int " -1_024 " = Some (-1024) ∧ parse_int "1__0" = None ∧ parse_int "_1" = None ∧ parse_int "-" = None.
Proof. split_and!; reflexivity. Qed.

(** [for x in v] *)
Definition py_iter (v : pyval) : result (list pyval) :=
  match v with
  | VStr s => Ok (VStr <$> utf8_chars s)
  | VList l => Ok l
  | VDict d => Ok (VStr <$> dkeys d)
  | _ => Exn TypeError
  end.

(** [sep.join(l)] raises on a value that is not a string. *)
Definition py_join_vals (sep : string) (l : list pyval) : result string :=
  ss ← require (mapM (λ v, match v with VStr s => Some s | _ => None end) l) TypeError;
  mret (py_join sep ss).

(** ** An instance: the bits of a float in a text *)
Fixpoint pos_bits (p : positive) : string :=
  match p with
  | xH => EmptyString
  | xO p => String "0"%char (pos_bits p)
  | xI p => String "1"%char (pos_bits p)
  end.
Fixpoint bits_pos (s : string) : positive :=
  match s with
  | EmptyString => xH
  | String c s => if Ascii.eqb c "1"%char then xI (bits_pos s) else xO (bits_pos s)
  end.

Lemma bits_pos_bits p : bits_pos (pos_bits p) = p.
Proof. induction p; simpl; congruence. Qed.

Definition float_code (x : float) : bool * (Z * (positive * Z)) :=
  match x with
  | S754_zero s => (s, (0, (1%positive, 0)))
  | S754_infinity s => (s, (1, (1%positive, 0)))
  | S754_nan => (false, (2, (1%positive, 0)))
  | S754_finite s m e => (s, (3, (m, e)))
  end.
Definition code_float (c : bool * (Z * (positive * Z))) : float :=
  let '(s, (t, (m, e))) := c in
  match t with
  | 0 => S754_zero s
  | 1 => S754_infinity s
  | 2 => S754_nan
  | _ => S754_finite s m e
  end.

Definition bits_text : FloatText := {|
  repr_float x := pos_bits (encode (float_code x));
  parse_float s := code_float <$> decode (bits_pos s);
|}.
Lemma bits_text_laws : @FloatTextLaws bits_text.
Proof.
  intros x. simpl. rewrite bits_pos_bits, decode_encode. simpl. by destruct x.
Qed.

Example repr_ex :
  py_repr (H:=bits_text) (VList [VStr "it's"; VDict [("a", VInt 3)]; VNone]) =
    "[" +:+ dquote +:+ "it's" +:+ dquote +:+ ", {'a': 3}, None]".
Proof. vm_compute. reflexivity. Qed.
