(* ===== verification/Sha1.v ===== *)
(** * SHA-1 as [hashlib.sha1(data).hexdigest()] computes it (FIPS 180-4)

    Words are integers modulo 2^32, a text is its UTF-8 bytes. *)

From Stdlib Require Import ZArith Lia.
From stdpp Require Import base list strings.
From S2P Require Import Prelude PyText.
Open Scope Z_scope.

Definition w32 (x : Z) : Z := x mod 4294967296.
Definition rotl (n x : Z) : Z := Z.lor (w32 (Z.shiftl x n)) (Z.shiftr x (32 - n)).
Definition not32 (x : Z) : Z := 4294967295 - x.

Fixpoint bytes_of (s : string) : list Z :=
  match s with EmptyString => [] | String c s' => byte_of c :: bytes_of s' end.

(** [n] bytes of [x], most significant first. *)
Fixpoint be_bytes (n : nat) (x : Z) : list Z :=
  match n with O => [] | S n => be_bytes n (x / 256) ++ [x mod 256] end.

(** The message with the bit 1, zeros up to 56 modulo 64, and its bit length. *)
Definition pad (m : list Z) : list Z :=
  let n := Z.of_nat (length m) in
  m ++ 128 :: replicate (Z.to_nat ((55 - n) mod 64)) 0 ++ be_bytes 8 (8 * n).

Definition word_of (l : list Z) : Z := foldl (λ acc b, acc * 256 + b) 0 l.
Fixpoint words (n : nat) (l : list Z) : list Z :=
  match n with O => [] | S n => word_of (take 4 l) :: words n (drop 4 l) end.

(** The message schedule, latest word first. *)
Fixpoint schedule (n : nat) (ws : list Z) : list Z :=
  match n with
  | O => ws
  | S n =>
      schedule n
        (rotl 1 (Z.lxor (Z.lxor (nth 2 ws 0) (nth 7 ws 0)) (Z.lxor (nth 13 ws 0) (nth 15 ws 0))) :: ws)
  end.

Record hash := mk_hash { ha : Z; hb : Z; hc : Z; hd : Z; he : Z }.
Definition hash_init : hash := mk_hash 1732584193 4023233417 2562383102 271733878 3285377520.

Definition round (t : nat) (s : hash) (w : Z) : hash :=
  let '(f, k) :=
    if (t <? 20)%nat then (Z.lor (Z.land (hb s) (hc s)) (Z.land (not32 (hb s)) (hd s)), 1518500249)
    else if (t <? 40)%nat then (Z.lxor (Z.lxor (hb s) (hc s)) (hd s), 1859775393)
    else if (t <? 60)%nat
    then (Z.lor (Z.lor (Z.land (hb s) (hc s)) (Z.land (hb s) (hd s))) (Z.land (hc s) (hd s)), 2400959708)
    else (Z.lxor (Z.lxor (hb s) (hc s)) (hd s), 3395469782) in
  mk_hash (w32 (rotl 5 (ha s) + f + he s + k + w)) (ha s) (rotl 30 (hb s)) (hc s) (hd s).

Fixpoint rounds (t : nat) (s : hash) (ws : list Z) : hash :=
  match ws with [] => s | w :: rest => rounds (S t) (round t s w) rest end.

Definition compress (s : hash) (block : list Z) : hash :=
  let r := rounds 0 s (reverse (schedule 64 (reverse (words 16 block)))) in
  mk_hash (w32 (ha s + ha r)) (w32 (hb s + hb r)) (w32 (hc s + hc r)) (w32 (hd s + hd r))
    (w32 (he s + he r)).

Fixpoint blocks (n : nat) (s : hash) (l : list Z) : hash :=
  match n with O => s | S n => blocks n (compress s (take 64 l)) (drop 64 l) end.

Definition hex_of (l : list Z) : string :=
  foldr (λ b s, String (hex_digit (b / 16)) (String (hex_digit (b mod 16)) s)) EmptyString l.

Definition sha1_hexdigest (text : string) : string :=
  let m := pad (bytes_of text) in
  let h := blocks (length m / 64) hash_init m in
  hex_of (be_bytes 4 (ha h) ++ be_bytes 4 (hb h) ++ be_bytes 4 (hc h) ++ be_bytes 4 (hd h)
          ++ be_bytes 4 (he h)).

(** The test vectors of the standard. *)
Example sha1_empty : sha1_hexdigest "" = "da39a3ee5e6b4b0d3255bfef95601890afd80709".
Proof. vm_compute. reflexivity. Qed.
Example sha1_abc : sha1_hexdigest "abc" = "a9993e364706816aba3e25717850c26c9cd0d89d".
Proof. vm_compute. reflexivity. Qed.
Example sha1_two_blocks :
  sha1_hexdigest "abcdbcdecdefdefgefghfghighijhijkijkljklmklmnlmnomnopnopq" =
    "84983e441c3bd26ebaae4aa1f95129e5e54670f1".
Proof. vm_compute. reflexivity. Qed.

Lemma pad_blocks m : (length (pad m) mod 64 = 0)%nat.
Proof.
  unfold pad. rewrite length_app. simpl. rewrite length_app, length_replicate.
  apply Nat2Z.inj. rewrite Nat2Z.inj_mod, !Nat2Z.inj_add, Nat2Z.inj_succ, Nat2Z.inj_add.
  rewrite Z2Nat.id by (apply Z.mod_pos_bound; lia). simpl Z.of_nat.
  pose proof (Z.div_mod (55 - Z.of_nat (length m)) 64 ltac:(lia)) as E.
  apply Z.mod_divide; [done|]. exists (1 - (55 - Z.of_nat (length m)) / 64). lia.
Qed.
