(* ===== verification/Crp.v ===== *)
(** * Incremental clustering of embeddings (Chinese Restaurant Process)

    [utils/crp.py] with the vector helpers of [utils/util.py]. A numpy vector
    is a list of binary64 numbers. The element-wise operations and [np.sqrt]
    are correctly rounded and are the ones of [PyFloat]; the order in which
    [np.sum] adds is numpy's own, so the summation is a variable of the
    section. [update_model] extends the centre list of the model it is given
    in place, so that model is the state of the computation. *)

From stdpp Require Import base list.
From Stdlib Require Import ZArith Lia Permutation.
From S2P Require Import Prelude PyFloat.
Open Scope nat_scope.

Abbreviation vec := (list float).

(** [np.add(x, y)] on vectors of one length *)
Definition vadd (x y : vec) : vec := zip_with fadd x y.

(** [class Model]: unnormalised centres, cluster sizes, normalised centres. *)
Record Model := mk_Model {
  centersA : list vec;
  center_idx : list nat;
  centers : list vec;
}.

Section crp.
  Context (np_sum : vec → float).

(** ** [utils/util.py] *)
Definition dot_product (x y : vec) : float := np_sum (zip_with fmul x y).
Definition magnitude (x : vec) : float := fsqrt (np_sum (zip_with fmul x x)).
Definition normalize (x : vec) : vec := (λ e, fdiv e (magnitude x)) <$> x.

Definition cosine_similarity (x y : vec) : result float :=
  if bool_decide (length x = length y)
  then Ok (fdiv (dot_product x y) (fmul (magnitude x) (magnitude y)))
  else Exn AssertionError.

(** ** [Model] *)
Definition new_Model (cs : list vec) (sizes : list nat) : Model :=
  mk_Model cs sizes (normalize <$> cs).

Definition model_filter (m : Model) (threshold : Z) : list (vec * nat) :=
  filter (λ c, (threshold ≤ Z.of_nat c.2)%Z) (zip (centers m) (center_idx m)).

(** [predict]: scan with a strict comparison, starting from similarity 0.0. *)
Fixpoint predict_from (cs : list vec) (v : vec) (i : nat) (best : float * nat)
    : float * nat :=
  match cs with
  | [] => best
  | c :: cs' =>
      let sim := dot_product c v in
      predict_from cs' v (S i) (if flt best.1 sim then (sim, i) else best)
  end.
Definition predict (m : Model) (v : vec) : nat :=
  (predict_from (centers m) v 0 (f0, 0)).2.

(** [predict_next]: the best two, [(max_sim, max_idx, next_sim, next_idx)]. *)
Fixpoint predict_next_from (cs : list vec) (v : vec) (i : nat)
    (st : float * nat * float * nat) : float * nat * float * nat :=
  match cs with
  | [] => st
  | c :: cs' =>
      let sim := dot_product c v in
      let '(max_sim, max_idx, next_sim, next_idx) := st in
      let st' :=
        if flt max_sim sim then
          if flt next_sim max_sim then (sim, i, max_sim, max_idx)
          else (sim, i, next_sim, next_idx)
        else if flt next_sim sim then (max_sim, max_idx, sim, i)
        else st in
      predict_next_from cs' v (S i) st'
  end.
Definition predict_next (m : Model) (v : vec) : nat :=
  (predict_next_from (centers m) v 0 (f0, 0, f0, 0)).2.

(** ** [CRP] *)

(** The inner scan: the first centre of largest similarity above minus
    infinity; the assertion of [cosine_similarity] may fail. *)
Fixpoint nearest (v : vec) (cs : list vec) (j : nat) (best : float * nat)
    : result (float * nat) :=
  match cs with
  | [] => Ok best
  | c :: cs' =>
      match cosine_similarity v c with
      | Ok sim => nearest v cs' (S j) (if flt best.1 sim then (sim, j) else best)
      | Exn e => Exn e
      end
  end.

(** One iteration of the assignment loops: the centres are the mutable state,
    [ids] the member ids of each cluster, [new_id] the id recorded for a vector
    opening a cluster and [old_id] for one that joins a cluster. *)
Definition crp_assign (pnew : float) (v : vec) (new_id old_id : nat)
    (ids : list (list nat)) : stM (list vec) (list (list nat)) :=
  λ cs,
    match nearest v cs 0 (fninf, 0) with
    | Exn e => (Exn e, cs)
    | Ok (max_sim, max_idx) =>
        if flt max_sim pnew then (Ok (ids ++ [[new_id]]), cs ++ [v])
        else if max_idx <? length cs then
          let cs' := alter (λ c, vadd c v) max_idx cs in
          if max_idx <? length ids
          then (Ok (alter (λ l, l ++ [old_id]) max_idx ids), cs')
          else (Exn IndexError, cs')
        else (Exn IndexError, cs)
    end.

(** [CRP.cluster]: vector [i] is recorded as member [i]. *)
Fixpoint cluster_loop (pnew : float) (vecs : list vec) (i : nat)
    (ids : list (list nat)) : stM (list vec) (list (list nat)) :=
  match vecs with
  | [] => mret ids
  | v :: vecs' =>
      ids' ← crp_assign pnew v i i ids; cluster_loop pnew vecs' (S i) ids'
  end.

Definition cluster (vecs : list vec) (pnew : float) : result Model :=
  match vecs with
  | [] | [] :: _ => Ok (new_Model [] [])
  | v0 :: rest =>
      match cluster_loop pnew rest 1 [[0]] [v0] with
      | (Ok ids, cs) => Ok (new_Model cs (length <$> ids))
      | (Exn e, _) => Exn e
      end
  end.

(** [CRP.update_model]: the member lists are rebuilt as one entry per
    cluster of the given model. *)
Fixpoint update_loop (pnew : float) (vecs : list vec) (ids : list (list nat))
    : stM (list vec) (list (list nat)) :=
  match vecs with
  | [] => mret ids
  | v :: vecs' =>
      ids' ← crp_assign pnew v (length ids) (length ids) ids;
      update_loop pnew vecs' ids'
  end.

Definition set_centersA (cs : list vec) (m : Model) : Model :=
  mk_Model cs (center_idx m) (centers m).

Definition update_model (new_vecs : list vec) (pnew : float) : stM Model Model :=
  λ m,
    match new_vecs with
    | [] | [] :: _ => (Ok m, m)
    | _ =>
        let ids := (λ i, [i]) <$> center_idx m in
        let '(r, cs) := update_loop pnew new_vecs ids (centersA m) in
        (match r with
         | Ok ids' => Ok (new_Model cs (length <$> ids'))
         | Exn e => Exn e
         end, set_centersA cs m)
    end.

(** The vector sum a centre stands for: members added in order. *)
Definition vsum (vs : list vec) : vec :=
  match vs with [] => [] | v :: vs' => foldl vadd v vs' end.

(** [ids] describes the clustering [cs] of the first [n] of [vecs]: the ids are
    a partition of [0 .. n-1] into non-empty clusters and each centre is the
    sum of its members. *)
Definition crp_partition (vecs : list vec) (n : nat) (ids : list (list nat))
    (cs : list vec) : Prop :=
  concat ids ≡ₚ seq 0 n ∧
  Forall (λ l, l ≠ []) ids ∧
  cs = (λ l, vsum (omap (λ i, vecs !! i) l)) <$> ids.

(** ** Lemmas *)

(** The result of a scan is a candidate of the list or the initial pair. *)
Lemma nearest_index v cs j best s i :
  nearest v cs j best = Ok (s, i) → i = best.2 ∨ (j ≤ i < j + length cs).
Proof.
  revert j best. induction cs as [|c cs IH]; intros j best; simpl.
  - intros [= ->]. by left.
  - destruct (cosine_similarity v c) as [sim|]; [|done].
    intros H%IH. destruct (flt best.1 sim); simpl in *; lia.
Qed.

Lemma nearest_total v cs j best :
  Forall (λ c, length c = length v) cs → ∃ b, nearest v cs j best = Ok b.
Proof.
  revert j best. induction cs as [|c cs IH]; intros j best Hall; simpl; [eauto|].
  apply Forall_cons in Hall as [Hc Hall].
  unfold cosine_similarity. rewrite bool_decide_true by done. by apply IH.
Qed.

(** Each successful assignment opens a cluster or extends an existing one. *)
Lemma crp_assign_Ok pnew v n o ids cs ids' cs' :
  crp_assign pnew v n o ids cs = (Ok ids', cs') →
  (ids' = ids ++ [[n]] ∧ cs' = cs ++ [v]) ∨
  (∃ k, k < length cs ∧ k < length ids ∧
        ids' = alter (λ l, l ++ [o]) k ids ∧ cs' = alter (λ c, vadd c v) k cs).
Proof.
  unfold crp_assign. destruct (nearest v cs 0 (fninf, 0)) as [[s i]|] eqn:E; [|done].
  destruct (flt s pnew); [intros [= <- <-]; by left|].
  destruct (Nat.ltb_spec i (length cs)), (Nat.ltb_spec i (length ids)); intros [=]; subst.
  right. by exists i.
Qed.

Lemma crp_assign_total pnew v n o ids cs :
  Forall (λ c, length c = length v) cs → length ids = length cs → cs ≠ [] →
  ∃ ids' cs', crp_assign pnew v n o ids cs = (Ok ids', cs').
Proof.
  intros Hall Hlen Hne. unfold crp_assign.
  destruct (nearest_total v cs 0 (fninf, 0) Hall) as [[s i] E]. rewrite E.
  destruct (flt s pnew); [eauto|].
  assert (i < length cs).
  { pose proof (nearest_index _ _ _ _ _ _ E). destruct cs; simpl in *; [done|lia]. }
  rewrite (proj2 (Nat.ltb_lt _ _)), (proj2 (Nat.ltb_lt _ _)) by lia. eauto.
Qed.

Lemma concat_alter_snoc (x : nat) k (ids : list (list nat)) :
  k < length ids → concat (alter (λ l, l ++ [x]) k ids) ≡ₚ concat ids ++ [x].
Proof.
  revert k. induction ids as [|l ids IH]; intros [|k] Hk; simpl in *; try lia.
  - rewrite <-!app_assoc. f_equiv. by rewrite Permutation_app_comm.
  - change (list_alter ?f k ids) with (alter f k ids).
    rewrite IH by lia. by rewrite app_assoc.
Qed.

Lemma concat_length_sum (ids : list (list nat)) :
  length (concat ids) = sum_list (length <$> ids).
Proof. induction ids as [|l ids IH]; csimpl; [done|]. by rewrite length_app, IH. Qed.

Lemma crp_assign_length pnew v n o ids cs ids' cs' :
  crp_assign pnew v n o ids cs = (Ok ids', cs') → length ids = length cs →
  length ids' = length cs'.
Proof.
  intros [[-> ->]|(k & _ & _ & -> & ->)]%crp_assign_Ok H; [rewrite !length_app|
    rewrite !length_alter]; simpl; lia.
Qed.

Lemma crp_assign_count pnew v n o ids cs ids' cs' :
  crp_assign pnew v n o ids cs = (Ok ids', cs') →
  sum_list (length <$> ids') = S (sum_list (length <$> ids)).
Proof.
  rewrite <-!concat_length_sum.
  intros [[-> _]|(k & _ & Hk & -> & _)]%crp_assign_Ok.
  - rewrite concat_app, length_app. simpl. lia.
  - rewrite concat_alter_snoc, length_app by done. simpl. lia.
Qed.

Lemma vsum_snoc vs v : vs ≠ [] → vsum (vs ++ [v]) = vadd (vsum vs) v.
Proof. destruct vs as [|w vs]; [done|]. intros _. simpl. by rewrite foldl_app. Qed.

Lemma omap_members_ne (vecs : list vec) n ids l :
  concat ids ≡ₚ seq 0 n → n ≤ length vecs → l ∈ ids → l ≠ [] →
  omap (λ i, vecs !! i) l ≠ [].
Proof.
  intros Hp Hn Hl Hne. destruct l as [|i l]; [done|]. simpl.
  assert (i ∈ seq 0 n) as Hi.
  { rewrite <-Hp. apply list_elem_of_In, in_concat. exists (i :: l).
    split; [by apply list_elem_of_In|by left]. }
  apply elem_of_seq in Hi.
  destruct (lookup_lt_is_Some_2 vecs i) as [v Hv]; [lia|]. by rewrite Hv.
Qed.

Lemma crp_assign_partition pnew vecs n v ids cs ids' cs' :
  crp_partition vecs n ids cs → vecs !! n = Some v →
  crp_assign pnew v n n ids cs = (Ok ids', cs') →
  crp_partition vecs (S n) ids' cs'.
Proof.
  intros (Hp & Hne & ->) Hv Ha. pose proof (lookup_lt_Some _ _ _ Hv) as Hlt.
  apply crp_assign_Ok in Ha as [[-> ->]|(k & _ & Hk & -> & ->)].
  - split_and!.
    + rewrite concat_app, seq_S, Hp. done.
    + apply Forall_app. split; [done|]. by repeat constructor.
    + rewrite fmap_app. csimpl. by rewrite Hv.
  - destruct (lookup_lt_is_Some_2 _ _ Hk) as [l Hl].
    assert (omap (λ i, vecs !! i) l ≠ []) as Hm.
    { eapply omap_members_ne; [done|lia|by eapply list_elem_of_lookup_2|].
      by apply (Forall_lookup_1 _ _ _ _ Hne Hl). }
    split_and!.
    + by rewrite concat_alter_snoc, seq_S, Hp.
    + apply Forall_alter; [done|]. intros x _ _ [_ [=]]%app_nil.
    + apply list_eq. intros i. destruct (decide (i = k)) as [->|Hik].
      * rewrite list_lookup_alter_eq, !list_lookup_fmap, list_lookup_alter_eq, Hl.
        simpl. rewrite omap_app. simpl. by rewrite Hv, vsum_snoc.
      * rewrite list_lookup_alter_ne, !list_lookup_fmap, list_lookup_alter_ne by done.
        done.
Qed.

Lemma cluster_loop_partition pnew vecs rest n ids cs ids' cs' :
  crp_partition vecs n ids cs → n + length rest = length vecs → drop n vecs = rest →
  cluster_loop pnew rest n ids cs = (Ok ids', cs') →
  crp_partition vecs (length vecs) ids' cs'.
Proof.
  revert n ids cs. induction rest as [|v rest IH]; intros n ids cs Hp Hlen Hd; simpl in *.
  - intros [= <- <-]. by replace (length vecs) with n by lia.
  - intros (ids1 & cs1 & Ha & Hl)%stM_bind_Ok.
    assert (vecs !! n = Some v) as Hv.
    { by rewrite <-(Nat.add_0_r n), <-lookup_drop, Hd. }
    eapply IH in Hl; [done| |lia|].
    + by eapply crp_assign_partition.
    + apply drop_S in Hv. rewrite Hd in Hv. by injection Hv as <-.
Qed.

Lemma cluster_loop_total pnew (d : nat) rest n ids cs :
  Forall (λ v, length v = d) rest → Forall (λ v, length v = d) cs →
  length ids = length cs → cs ≠ [] →
  ∃ ids' cs', cluster_loop pnew rest n ids cs = (Ok ids', cs').
Proof.
  revert n ids cs. induction rest as [|v rest IH]; intros n ids cs Hr Hc Hlen Hne; simpl.
  { by eauto. }
  apply Forall_cons in Hr as [Hv Hr].
  destruct (crp_assign_total pnew v n n ids cs) as (ids1 & cs1 & Ha); try done.
  { eapply Forall_impl; [exact Hc|]. simpl. congruence. }
  pose proof (crp_assign_length _ _ _ _ _ _ _ _ Ha Hlen) as Hlen1.
  destruct (IH (S n) ids1 cs1) as (ids2 & cs2 & H2); try done.
  - apply crp_assign_Ok in Ha as [[-> ->]|(k & Hk & _ & -> & ->)].
    + apply Forall_app. by repeat constructor.
    + apply Forall_alter; [done|]. intros c _ Hcl. unfold vadd.
      rewrite length_zip_with. lia.
  - apply crp_assign_Ok in Ha as [[-> ->]|(k & Hk & _ & -> & ->)].
    + by destruct cs.
    + intros E%(f_equal length). rewrite length_alter in E. simpl in E. lia.
  - exists ids2, cs2. unfold mbind, stM_bind. by rewrite Ha.
Qed.

Lemma update_loop_count pnew vecs ids cs ids' cs' :
  update_loop pnew vecs ids cs = (Ok ids', cs') →
  sum_list (length <$> ids') = sum_list (length <$> ids) + length vecs.
Proof.
  revert ids cs. induction vecs as [|v vecs IH]; intros ids cs; simpl.
  - intros [= <- <-]. lia.
  - intros (ids1 & cs1 & Ha & Hl)%stM_bind_Ok.
    rewrite (IH _ _ Hl), (crp_assign_count _ _ _ _ _ _ _ _ Ha). lia.
Qed.

(** ** Properties *)

(** [CRP.cluster] on non-empty vectors of one dimension always returns a
    model: the vectors are partitioned into non-empty clusters, each centre is
    the sum of its members in arrival order, and the recorded sizes are the
    cardinalities of the partition, so that they add up to the number of
    vectors clustered. *)
Theorem cluster_partitions (vecs : list vec) (pnew : float) (d : nat) :
  vecs ≠ [] → 0 < d → Forall (λ v, length v = d) vecs →
  ∃ ids m,
    cluster vecs pnew = Ok m ∧
    crp_partition vecs (length vecs) ids (centersA m) ∧
    center_idx m = length <$> ids ∧
    sum_list (center_idx m) = length vecs.
Proof.
  intros Hne Hd Hall. destruct vecs as [|v0 rest]; [done|].
  apply Forall_cons in Hall as [Hv0 Hall].
  destruct v0 as [|x v0]; [simpl in Hv0; lia|].
  destruct (cluster_loop_total pnew d rest 1 [[0]] [x :: v0]) as (ids & cs & E);
    [done|by repeat constructor|done..|].
  assert (crp_partition ((x :: v0) :: rest) (S (length rest)) ids cs) as Hp.
  { eapply (cluster_loop_partition pnew ((x :: v0) :: rest) rest 1); [|done..|exact E].
    split_and!; [done|by repeat constructor|done]. }
  exists ids, (new_Model cs (length <$> ids)). split_and!; try done.
  - unfold cluster. by rewrite E.
  - simpl. rewrite <-concat_length_sum, (proj1 Hp), length_seq. done.
Qed.

(** [CRP.update_model] forgets the sizes of the model it updates: every
    old cluster restarts from size one, so the sizes of the new model add up
    to the number of old clusters plus the number of new vectors, whatever
    the old sizes were. *)
Theorem update_model_sizes (m m' m0 : Model) (new_vecs : list vec) (pnew : float) :
  Forall (λ v, v ≠ []) new_vecs → new_vecs ≠ [] →
  update_model new_vecs pnew m = (Ok m', m0) →
  sum_list (center_idx m') = length (center_idx m) + length new_vecs.
Proof.
  intros Hall Hne. destruct new_vecs as [|[|x v] rest]; [done|by inversion Hall|].
  unfold update_model. destruct (update_loop _ _ _ _) as [[ids|e] cs] eqn:E; [|done].
  intros [= <- <-]. apply update_loop_count in E. simpl center_idx. rewrite E.
  f_equal. rewrite <-list_fmap_compose. clear E.
  induction (center_idx m) as [|i l IH]; [done|]. simpl. f_equal. exact IH.
Qed.
End crp.

(** ** Witnesses *)

(** A left-to-right summation, one instance of [np.sum]. *)
Definition sum_left (x : vec) : float := foldl fadd f0 x.

Definition v10 : vec := [Z2f 1; Z2f 0].
Definition v01 : vec := [Z2f 0; Z2f 1].

Lemma cluster_partitions_witness :
  ∃ ids m,
    cluster sum_left [v10; v01; v10] (lit 9 1) = Ok m ∧
    crp_partition [v10; v01; v10] 3 ids (centersA m) ∧
    center_idx m = length <$> ids ∧
    sum_list (center_idx m) = 3.
Proof.
  apply (cluster_partitions sum_left [v10; v01; v10] (lit 9 1) 2);
    [done|lia|by repeat constructor].
Defined.

Lemma update_model_sizes_witness :
  sum_list (center_idx (new_Model sum_left [vadd v10 v10; v01] [2; 1])) = 3 ∧
  ∃ m' m0,
    update_model sum_left [v10; v10] (lit 9 1) (new_Model sum_left [vadd v10 v10; v01] [2; 1])
      = (Ok m', m0) ∧
    sum_list (center_idx m') = 2 + 2.
Proof.
  split; [done|].
  destruct (update_model sum_left [v10; v10] (lit 9 1)
    (new_Model sum_left [vadd v10 v10; v01] [2; 1])) as [[m'|e] m0] eqn:E;
    [|vm_compute in E; done].
  exists m', m0. split; [done|].
  apply (update_model_sizes sum_left _ m' m0 [v10; v10] (lit 9 1)) in E; [done|
    by repeat constructor|done].
Defined.
