(* ===== verification/Schema.v ===== *)
(** * Schema of the behavior-analytics service ([core/schema/models.py])

    The records the state managers keep and exchange. Fields that no modelled
    code reads or writes are left out of [Object], [Sensor], [Message],
    [Frame], [Behavior] and [Incident]; the other records are complete.
    Pydantic copies a list or dict given to a constructor, so the values here
    do not alias. Protobuf timestamps stay abstract pairs: their conversion
    belongs to the protobuf library. *)

From stdpp Require Import base list strings.
From Stdlib Require Import ZArith.
From S2P Require Import Prelude PyDict PyFloat Crp.
Open Scope Z_scope.

Record Coordinate := mk_Coordinate { co_x : float; co_y : float; co_z : float }.

Record Bbox := mk_Bbox
  { leftX : float; topY : float; rightX : float; bottomY : float }.

Record Embedding := mk_Embedding { em_vector : vec; em_info : dict string string }.

Record Location := mk_Location { lat : float; lon : float; alt : float }.

Record Object := mk_Object {
  ob_id : string;
  ob_type : string;
  ob_confidence : float;
  ob_bbox : Bbox;
  ob_embedding : option Embedding;
  ob_coordinate : Coordinate;
  ob_location : option Location;
  ob_info : dict string string;
}.

Record Sensor := mk_Sensor { se_id : string }.

Record Message := mk_Message {
  ms_timestamp : datetime;
  ms_sensor : Sensor;
  ms_object : option Object;
  ms_place : string;
  ms_event : option string;
  ms_videoPath : string;
}.

(** ** Object tracks *)
Record ObjectState := mk_ObjectState {
  os_id : string;
  os_start : datetime;
  os_end : datetime;
  os_points : list Coordinate;
  os_bboxes : list Bbox;
  os_sampling : Z;
  os_sample_phase : Z;
  os_tail_ts : list datetime;
  os_lastXpoints : list Coordinate;
  os_lastXbboxes : list Bbox;
  os_model : option Model;
}.

(** [ObjectState.time_interval] *)
Definition os_time_interval (s : ObjectState) : float :=
  total_seconds (os_end s - os_start s).

(** Attribute assignments [state.f = v]. *)
Definition set_end (v : datetime) (s : ObjectState) : ObjectState :=
  mk_ObjectState (os_id s) (os_start s) v (os_points s) (os_bboxes s)
    (os_sampling s) (os_sample_phase s) (os_tail_ts s) (os_lastXpoints s)
    (os_lastXbboxes s) (os_model s).
Definition set_series (pts : list Coordinate) (bbs : list Bbox) (sampling phase : Z)
    (tail : list datetime) (s : ObjectState) : ObjectState :=
  mk_ObjectState (os_id s) (os_start s) (os_end s) pts bbs sampling phase tail
    (os_lastXpoints s) (os_lastXbboxes s) (os_model s).
Definition set_lastX (pts : list Coordinate) (bbs : list Bbox) (s : ObjectState)
    : ObjectState :=
  mk_ObjectState (os_id s) (os_start s) (os_end s) (os_points s) (os_bboxes s)
    (os_sampling s) (os_sample_phase s) (os_tail_ts s) pts bbs (os_model s).
Definition set_model (m : option Model) (s : ObjectState) : ObjectState :=
  mk_ObjectState (os_id s) (os_start s) (os_end s) (os_points s) (os_bboxes s)
    (os_sampling s) (os_sample_phase s) (os_tail_ts s) (os_lastXpoints s)
    (os_lastXbboxes s) m.

(** A behavior: the fields copied from the track and its last message, and
    the trajectory-derived ones (locations, speed, bearing, direction index)
    as one value [T]. *)
Record Behavior (T : Type) := mk_Behavior {
  be_id : string;
  be_timestamp : datetime;
  be_end : datetime;
  be_timeInterval : float;
  be_embeddings : list Embedding;
  be_locationsBboxes : list Bbox;
  be_length : nat;
  be_trajectory : T;
  be_sensor : Sensor;
  be_object : Object;
  be_place : string;
  be_event : option string;
  be_videoPath : string;
}.
Arguments mk_Behavior {T}.
Arguments be_id {T}. Arguments be_timestamp {T}. Arguments be_end {T}.
Arguments be_timeInterval {T}. Arguments be_embeddings {T}.
Arguments be_locationsBboxes {T}. Arguments be_length {T}.
Arguments be_trajectory {T}. Arguments be_sensor {T}. Arguments be_object {T}.
Arguments be_place {T}. Arguments be_event {T}. Arguments be_videoPath {T}.

(** ** Frames, violations and incidents *)
Inductive IncidentCategory :=
  | PROXIMITY_VIOLATION
  | RESTRICTED_AREA_VIOLATION
  | CONFINED_AREA_VIOLATION
  | FOV_COUNT_VIOLATION.

#[export] Instance IncidentCategory_eq_dec : EqDecision IncidentCategory.
Proof. solve_decision. Defined.

Definition category_value (c : IncidentCategory) : string :=
  match c with
  | PROXIMITY_VIOLATION => "Proximity Violation"
  | RESTRICTED_AREA_VIOLATION => "Restricted Area Violation"
  | CONFINED_AREA_VIOLATION => "Confined Area Violation"
  | FOV_COUNT_VIOLATION => "FOV Count Violation"
  end.

(** One presence interval, the dict [{"start": .., "end": ..}]. *)
Record interval := mk_interval { iv_start : datetime; iv_end : datetime }.

(** The values stored in [IncidentState.info]: strings, and the float of the
    internal tracking field. *)
Inductive info_val :=
  | IStr (s : string)
  | IFloat (x : float).

Record IncidentState := mk_IncidentState {
  is_sensor_id : string;
  is_primary_object_id : string;
  is_object_ids : list string;
  is_object_presence : dict string (list interval);
  is_start : datetime;
  is_end : datetime;
  is_category : IncidentCategory;
  is_info : dict string info_val;
}.

(** [IncidentState.time_interval] *)
Definition is_time_interval (s : IncidentState) : float :=
  total_seconds (is_end s - is_start s).

Definition set_is_end (v : datetime) (s : IncidentState) : IncidentState :=
  mk_IncidentState (is_sensor_id s) (is_primary_object_id s) (is_object_ids s)
    (is_object_presence s) (is_start s) v (is_category s) (is_info s).
Definition set_is_object_ids (v : list string) (s : IncidentState) : IncidentState :=
  mk_IncidentState (is_sensor_id s) (is_primary_object_id s) v
    (is_object_presence s) (is_start s) (is_end s) (is_category s) (is_info s).
Definition set_is_presence (v : dict string (list interval)) (s : IncidentState)
    : IncidentState :=
  mk_IncidentState (is_sensor_id s) (is_primary_object_id s) (is_object_ids s)
    v (is_start s) (is_end s) (is_category s) (is_info s).
Definition set_is_info (v : dict string info_val) (s : IncidentState) : IncidentState :=
  mk_IncidentState (is_sensor_id s) (is_primary_object_id s) (is_object_ids s)
    (is_object_presence s) (is_start s) (is_end s) (is_category s) v.

Record AmrState := mk_AmrState {
  am_id : string;
  am_roi_id : string;
  am_sensor_id : string;
  am_object_id : string;
  am_mute : option bool;
  am_mute_state_changed : bool;
}.

Record RoiState := mk_RoiState {
  ro_id : string;
  ro_sensor_id : string;
  ro_mute : option bool;
  ro_mute_state_changed : bool;
}.

(** Protobuf's [Timestamp] message. *)
Record proto_ts := mk_proto_ts { seconds : Z; nanos : Z }.

Record TypeMetrics := mk_TypeMetrics {
  tm_id : string;
  tm_type : string;
  tm_count : Z;
  tm_objectIds : list string;
  tm_info : dict string string;
}.

(** [socialDistancing] is its [info] when the submessage is set. *)
Record Frame := mk_Frame {
  fr_id : string;
  fr_timestamp : proto_ts;
  fr_objects : list Object;
  fr_fov : list TypeMetrics;
  fr_rois : list TypeMetrics;
  fr_socialDistancing : dict string string;
  fr_info : dict string string;
}.

Record FrameState := mk_FrameState {
  fs_id : string;
  fs_last_x_frames : list Frame;
  fs_safety : dict string IncidentState;
  fs_restricted : dict string IncidentState;
  fs_confined : dict string IncidentState;
  fs_fov : option IncidentState;
  fs_amr_states : dict string AmrState;
  fs_roi_states : dict string RoiState;
}.

(** [FrameState(id=sensor_id)] *)
Definition new_FrameState (id : string) : FrameState :=
  mk_FrameState id [] [] [] [] None [] [].

Record Incident := mk_Incident {
  in_timestamp : datetime;
  in_end : datetime;
  in_sensorId : string;
  in_objectIds : list string;
  in_category : string;
  in_place : string;
  in_info : dict string string;
}.
