(* ===== verification/Sampling.v ===== *)
(** * Bounding and downsampling of a track's point series

    [stream/state/behavior/point_sampling.py]. The operations read of a
    message its timestamp, coordinate and bounding box ([obs]); they mutate an
    [ObjectState] in place, which is the argument and result here.

    The main invariant, [series_inv raw st], says that the points and boxes
    kept by [st] are exactly the entries [0, N, 2N, ...] of a chronologically
    sorted series [raw], where [N = st.sampling], that [sample_phase] is the
    length of [raw] modulo [N], and that at stride one [tail_ts] lists the last
    timestamps of [raw]. Every operation preserves it. *)

From Stdlib Require Import ZArith Lia Permutation Sorting.
From stdpp Require Import base list strings sorting.
From S2P Require Import Prelude PyFloat Crp Schema.
Open Scope Z_scope.

Record obs := mk_obs { obs_ts : datetime; obs_coord : Coordinate; obs_box : Bbox }.

Definition TAIL_CAP : Z := 16.

(** ** [append_sampled] *)
Definition append_one (st : ObjectState) (o : obs) : ObjectState :=
  let keep := os_sample_phase st =? 0 in
  set_series
    (if keep then os_points st ++ [obs_coord o] else os_points st)
    (if keep then os_bboxes st ++ [obs_box o] else os_bboxes st)
    (os_sampling st)
    ((os_sample_phase st + 1) mod os_sampling st)
    (if keep && (os_sampling st =? 1) then os_tail_ts st ++ [obs_ts o]
     else os_tail_ts st)
    st.

Definition append_sampled (st : ObjectState) (msgs : list obs) : ObjectState :=
  let st' := foldl append_one st msgs in
  if (os_sampling st' =? 1) && (TAIL_CAP <? Z.of_nat (length (os_tail_ts st')))
  then set_series (os_points st') (os_bboxes st') (os_sampling st')
         (os_sample_phase st') (py_tail (os_tail_ts st') TAIL_CAP) st'
  else st'.

(** ** [insert_tolerance_messages] *)
Definition insert_one (st : ObjectState) (o : obs) : ObjectState :=
  let ts := obs_ts o in
  match os_tail_ts st with
  | [] => st
  | t0 :: _ =>
      if ts <? t0 then st
      else
        let rel_idx := bisect_right (os_tail_ts st) ts in
        let abs_idx := Z.of_nat (length (os_points st))
                       - Z.of_nat (length (os_tail_ts st)) + Z.of_nat rel_idx in
        set_series (py_insert (os_points st) abs_idx (obs_coord o))
          (py_insert (os_bboxes st) abs_idx (obs_box o))
          (os_sampling st) (os_sample_phase st)
          (py_insert (os_tail_ts st) (Z.of_nat rel_idx) ts) st
  end.

Definition insert_tolerance_messages (st : ObjectState) (msgs : list obs)
    : ObjectState :=
  if os_sampling st =? 1 then foldl insert_one st msgs else st.

(** ** [halve_if_needed] *)
Definition halve_if_needed (st : ObjectState) (max_points : Z) : ObjectState :=
  if Z.of_nat (length (os_points st)) <=? max_points then st
  else
    let j := Z.of_nat (length (os_points st))
             - (if os_sample_phase st =? 0 then 0 else 1) in
    set_series (every2 (os_points st)) (every2 (os_bboxes st))
      (os_sampling st * 2)
      (os_sample_phase st + os_sampling st * (j mod 2))
      [] st.

(** The three edits of one batch, in the order state management makes them. *)
Definition extend_series (st : ObjectState) (in_order in_tolerance : list obs)
    (max_points : Z) : ObjectState :=
  halve_if_needed
    (insert_tolerance_messages (append_sampled st in_order) in_tolerance)
    max_points.

(** ** The invariant *)
Definition sampled_from {A B} (f : A → B) (raw : list A) (s : Z) (kept : list B) : Prop :=
  ∀ i : nat, kept !! i = f <$> raw !! (i * Z.to_nat s)%nat.

Record series_inv (raw : list obs) (st : ObjectState) : Prop := mk_series_inv {
  si_stride : 1 ≤ os_sampling st;
  si_phase : os_sample_phase st = Z.of_nat (length raw) mod os_sampling st;
  si_points : sampled_from obs_coord raw (os_sampling st) (os_points st);
  si_bboxes : sampled_from obs_box raw (os_sampling st) (os_bboxes st);
  si_sorted : StronglySorted Z.le (obs_ts <$> raw);
  si_tail : if os_sampling st =? 1 then os_tail_ts st `suffix_of` (obs_ts <$> raw)
            else os_tail_ts st = [];
}.

(** ** Lemmas *)

Lemma sampled_from_stride1 {A B} (f : A → B) raw kept :
  sampled_from f raw 1 kept ↔ kept = f <$> raw.
Proof.
  unfold sampled_from. replace (Z.to_nat 1) with 1%nat by done. split.
  - intros H. apply list_eq. intros i. by rewrite H, Nat.mul_1_r, list_lookup_fmap.
  - intros -> i. by rewrite Nat.mul_1_r, list_lookup_fmap.
Qed.

Lemma sampled_from_length {A B} (f : A → B) raw s kept :
  1 ≤ s → sampled_from f raw s kept →
  Z.of_nat (length kept) = (Z.of_nat (length raw) + s - 1) / s.
Proof.
  intros Hs H.
  assert (∀ i, (i < length kept)%nat ↔ Z.of_nat i * s < Z.of_nat (length raw)) as Hi.
  { intros i. rewrite <-lookup_lt_is_Some, H, fmap_is_Some, lookup_lt_is_Some. lia. }
  assert (Z.of_nat (length raw) ≤ Z.of_nat (length kept) * s) as H1.
  { specialize (Hi (length kept)). nia. }
  destruct (length kept) as [|k] eqn:E; apply Z.div_unique with
    (Z.of_nat (length raw) + s - 1 - s * Z.of_nat (length kept)); rewrite ?E; try lia.
  specialize (proj1 (Hi k) ltac:(lia)). nia.
Qed.

(** The next raw observation is kept exactly when the phase is zero. *)
Lemma sampled_from_snoc {A B} (f : A → B) raw s kept o :
  1 ≤ s → sampled_from f raw s kept →
  sampled_from f (raw ++ [o]) s
    (if Z.of_nat (length raw) mod s =? 0 then kept ++ [f o] else kept).
Proof.
  intros Hs H. pose proof (sampled_from_length _ _ _ _ Hs H) as Hlen.
  set (n := length raw) in *.
  pose proof (Z.div_mod (Z.of_nat n) s ltac:(lia)) as Hdm.
  pose proof (Z.mod_pos_bound (Z.of_nat n) s ltac:(lia)) as Hmb.
  intros i. destruct (Z.eqb_spec (Z.of_nat n mod s) 0) as [Hz|Hz].
  - assert (Z.of_nat (length kept) = Z.of_nat n / s) as Hk.
    { rewrite Hlen. symmetry. apply Z.div_unique with (s - 1); nia. }
    destruct (Nat.lt_trichotomy i (length kept)) as [Hi|[->|Hi]].
    + rewrite lookup_app_l, H by done. f_equal. symmetry. apply lookup_app_l.
      fold n. nia.
    + rewrite lookup_app_r, Nat.sub_diag by lia.
      rewrite lookup_app_r by (fold n; nia).
      replace (length kept * Z.to_nat s - length raw)%nat with 0%nat by (fold n; nia).
      done.
    + rewrite !lookup_ge_None_2; [done|rewrite length_app; simpl; fold n; nia|
        rewrite length_app; simpl; lia].
  - rewrite H. f_equal. destruct (decide (i * Z.to_nat s < n)%nat).
    + symmetry. by apply lookup_app_l.
    + assert (Z.of_nat n / s < Z.of_nat i) by nia.
      assert (S n ≤ i * Z.to_nat s)%nat by nia.
      rewrite !lookup_ge_None_2; [done|rewrite length_app; simpl|]; fold n; lia.
Qed.

(** Dropping every other kept entry doubles the stride. *)
Lemma sampled_from_every2 {A B} (f : A → B) raw s kept :
  1 ≤ s → sampled_from f raw s kept → sampled_from f raw (s * 2) (every2 kept).
Proof. intros Hs H i. rewrite every2_lookup, H. do 2 f_equal. lia. Qed.

(** The parity correction keeps the phase equal to the length modulo [2N]. *)
Lemma halve_phase n s p :
  1 ≤ s → 0 ≤ n → p = (n + s - 1) / s →
  n mod s + s * ((p - (if n mod s =? 0 then 0 else 1)) mod 2) = n mod (s * 2).
Proof.
  intros Hs Hn ->. pose proof (Z.div_mod n s ltac:(lia)) as Hdm.
  pose proof (Z.mod_pos_bound n s ltac:(lia)) as Hmb.
  assert ((n + s - 1) / s - (if n mod s =? 0 then 0 else 1) = n / s) as ->.
  { destruct (Z.eqb_spec (n mod s) 0) as [Hz|Hz].
    - rewrite Z.sub_0_r. symmetry. apply Z.div_unique with (s - 1); nia.
    - assert (n / s + 1 = (n + s - 1) / s) as <-; [|lia].
      apply Z.div_unique with (n mod s - 1); nia. }
  rewrite Z.rem_mul_r by lia. lia.
Qed.

Lemma py_tail_suffix_of {A} (l l' : list A) n :
  l `suffix_of` l' → py_tail l n `suffix_of` l'.
Proof. intros H. etrans; [apply py_tail_suffix|done]. Qed.

Lemma append_one_inv raw st o :
  series_inv raw st → Forall (λ t, t ≤ obs_ts o) (obs_ts <$> raw) →
  series_inv (raw ++ [o]) (append_one st o).
Proof.
  intros [H1 H2 H3 H4 H5 H6] Hlast. unfold append_one.
  constructor; simpl; [done|..].
  - rewrite H2, Zplus_mod_idemp_l, length_app. f_equal. simpl. lia.
  - rewrite H2. by apply sampled_from_snoc.
  - rewrite H2. by apply sampled_from_snoc.
  - rewrite fmap_app. apply StronglySorted_app. split_and!; [|done|by repeat constructor].
    intros x y Hx ->%list_elem_of_singleton. rewrite Forall_forall in Hlast. auto.
  - destruct (Z.eqb_spec (os_sampling st) 1) as [E|E].
    + rewrite H2, E, Z.mod_1_r. simpl. rewrite fmap_app. by apply suffix_app.
    + by rewrite andb_false_r.
Qed.

Lemma foldl_append_inv raw st msgs :
  series_inv raw st → StronglySorted Z.le (obs_ts <$> raw ++ msgs) →
  series_inv (raw ++ msgs) (foldl append_one st msgs).
Proof.
  revert raw st. induction msgs as [|o msgs IH]; intros raw st Hinv Hs; simpl.
  { by rewrite app_nil_r. }
  rewrite cons_middle, app_assoc in *. apply IH; [|done].
  apply append_one_inv; [done|].
  rewrite !fmap_app in Hs. apply StronglySorted_app_1_l in Hs.
  apply Forall_forall. intros t Ht.
  eapply StronglySorted_app_1_elem_of; [exact Hs|done|]. csimpl. by left.
Qed.

Lemma append_sampled_inv raw st msgs :
  series_inv raw st → StronglySorted Z.le (obs_ts <$> raw ++ msgs) →
  series_inv (raw ++ msgs) (append_sampled st msgs).
Proof.
  intros Hinv Hs. unfold append_sampled.
  pose proof (foldl_append_inv _ _ _ Hinv Hs) as [H1 H2 H3 H4 H5 H6].
  destruct (_ && _) eqn:E; [|by constructor].
  apply andb_true_iff in E as [E _]. constructor; simpl; try done.
  rewrite E in *. by apply py_tail_suffix_of.
Qed.

(** Inserting [x] after the entries of a sorted list that do not exceed it. *)
Lemma sorted_insert l k (x : Z) :
  StronglySorted Z.le l → Forall (λ y, y ≤ x) (take k l) →
  Forall (λ y, x < y) (drop k l) → StronglySorted Z.le (take k l ++ x :: drop k l).
Proof.
  intros Hs Hle Hlt. rewrite <-(take_drop k l) in Hs.
  rewrite Forall_forall in Hle. rewrite Forall_forall in Hlt.
  apply StronglySorted_app in Hs as (Hc & Ht & Hd). apply StronglySorted_app.
  split_and!; [|done|].
  - intros a b Ha [->|Hb]%elem_of_cons; [by apply Hle|].
    pose proof (Hle _ Ha). pose proof (Hlt _ Hb). lia.
  - constructor; [done|]. apply Forall_forall. intros b Hb. pose proof (Hlt _ Hb). lia.
Qed.

Lemma py_insert_fmap {A B} (f : A → B) (raw : list A) (k : nat) o :
  (k ≤ length raw)%nat →
  py_insert (f <$> raw) (Z.of_nat k) (f o) = f <$> (take k raw ++ o :: drop k raw).
Proof.
  intros. rewrite py_insert_nat by (by rewrite length_fmap).
  by rewrite fmap_app, fmap_cons, fmap_take, fmap_drop.
Qed.

(** Whether the tolerance window accepts a late message. *)
Definition tolerated (st : ObjectState) (o : obs) : bool :=
  match os_tail_ts st with [] => false | t0 :: _ => t0 <=? obs_ts o end.

Lemma insert_one_inv raw st o :
  series_inv raw st → os_sampling st = 1 →
  ∃ raw', series_inv raw' (insert_one st o) ∧ os_sampling (insert_one st o) = 1 ∧
    if tolerated st o then raw' ≡ₚ o :: raw else raw' = raw.
Proof.
  intros [H1 H2 H3 H4 H5 H6] Hs1. unfold insert_one, tolerated.
  rewrite Hs1 in *. simpl in H6.
  apply sampled_from_stride1 in H3. apply sampled_from_stride1 in H4.
  destruct (os_tail_ts st) as [|t0 tl] eqn:Et.
  { exists raw. split_and!; [|done..]. constructor; rewrite ?Hs1, ?Et; simpl; try done;
      by apply sampled_from_stride1. }
  rewrite Z.leb_antisym. destruct (obs_ts o <? t0) eqn:Elt; cbn [negb].
  { exists raw. split_and!; [|done..]. constructor; rewrite ?Hs1, ?Et; simpl; try done;
      by apply sampled_from_stride1. }
  bool_lia. destruct H6 as [pre Hpre]. rewrite Hpre in H5.
  apply StronglySorted_app in H5 as (Hpt & Hp & Ht).
  destruct (bisect_right_spec (t0 :: tl) (obs_ts o) Ht) as (Hr & Hle & Hlt).
  set (r := bisect_right (t0 :: tl) (obs_ts o)) in *.
  assert (length raw = length pre + length (t0 :: tl))%nat as Hlen.
  { by rewrite <-(length_fmap obs_ts), Hpre, length_app. }
  set (k := (length pre + r)%nat).
  assert (Z.of_nat (length (os_points st)) - Z.of_nat (length (t0 :: tl)) + Z.of_nat r
          = Z.of_nat k) as ->.
  { rewrite H3, length_fmap. subst k. lia. }
  assert (obs_ts <$> (take k raw ++ o :: drop k raw)
          = pre ++ take r (t0 :: tl) ++ obs_ts o :: drop r (t0 :: tl)) as Hts.
  { rewrite fmap_app, fmap_cons, fmap_take, fmap_drop, Hpre. subst k.
    rewrite take_app_add, drop_app_add. by rewrite <-app_assoc. }
  exists (take k raw ++ o :: drop k raw).
  split_and!; [|done|by rewrite <-Permutation_middle, take_drop].
  constructor; simpl; [done|by rewrite H2, !Z.mod_1_r|..].
  - apply sampled_from_stride1. rewrite H3. apply py_insert_fmap. subst k. lia.
  - apply sampled_from_stride1. rewrite H4. apply py_insert_fmap. subst k. lia.
  - rewrite Hts. apply StronglySorted_app. split_and!; [|done|by apply sorted_insert].
    intros a b Ha Hb. rewrite elem_of_app, elem_of_cons in Hb.
    assert (a ≤ t0) by (apply Hpt; [done|by left]).
    destruct Hb as [Hb|[->|Hb]]; [|lia|].
    + apply Hpt; [done|]. by eapply subseteq_take.
    + rewrite Forall_forall in Hlt. specialize (Hlt _ Hb). lia.
  - rewrite Hts, (py_insert_nat _ _ _ Hr). by exists pre.
Qed.

(** The messages a run of tolerance insertions places, in order. *)
Fixpoint tolerated_all (st : ObjectState) (msgs : list obs) : list obs :=
  match msgs with
  | [] => []
  | o :: msgs' =>
      (if tolerated st o then [o] else []) ++ tolerated_all (insert_one st o) msgs'
  end.

Lemma insert_tolerance_inv raw st msgs :
  series_inv raw st →
  ∃ raw', series_inv raw' (insert_tolerance_messages st msgs) ∧
    raw' ≡ₚ raw ++ (if os_sampling st =? 1 then tolerated_all st msgs else []).
Proof.
  unfold insert_tolerance_messages. destruct (Z.eqb_spec (os_sampling st) 1) as [E|E].
  2: { exists raw. by rewrite app_nil_r. }
  revert raw st E. induction msgs as [|o msgs IH]; intros raw st E Hinv; simpl.
  { exists raw. by rewrite app_nil_r. }
  destruct (insert_one_inv raw st o Hinv E) as (raw1 & Hinv1 & E1 & Hraw1).
  destruct (IH raw1 _ E1 Hinv1) as (raw2 & Hinv2 & Hraw2).
  exists raw2. split; [done|]. rewrite Hraw2.
  destruct (tolerated st o); simpl; [|by rewrite Hraw1].
  by rewrite Hraw1, <-Permutation_middle.
Qed.

Lemma halve_if_needed_inv raw st max_points :
  series_inv raw st → series_inv raw (halve_if_needed st max_points).
Proof.
  intros [H1 H2 H3 H4 H5 H6]. unfold halve_if_needed.
  destruct (_ <=? _); [by constructor|].
  pose proof (sampled_from_length _ _ _ _ H1 H3) as Hlen.
  constructor; simpl; [lia| |by apply sampled_from_every2|by apply sampled_from_every2|
    done|].
  - rewrite H2. by apply halve_phase; [done|lia|].
  - by rewrite (proj2 (Z.eqb_neq _ _)) by lia.
Qed.

Lemma halve_if_needed_length st max_points :
  Z.of_nat (length (os_points (halve_if_needed st max_points))) ≤
  Z.max max_points ((Z.of_nat (length (os_points st)) + 1) / 2).
Proof.
  unfold halve_if_needed. destruct (Z.leb_spec (Z.of_nat (length (os_points st))) max_points).
  { lia. }
  simpl. rewrite every2_length, Nat2Z.inj_div, Nat2Z.inj_add. lia.
Qed.

Lemma append_sampled_stride st msgs : os_sampling (append_sampled st msgs) = os_sampling st.
Proof.
  assert (∀ l s, os_sampling (foldl append_one s l) = os_sampling s) as Hsame.
  { induction l as [|o l IH]; intros s; simpl; [done|]. by rewrite IH. }
  unfold append_sampled. destruct (_ && _); simpl; by rewrite Hsame.
Qed.

Lemma append_sampled_length st msgs :
  (length (os_points (append_sampled st msgs)) ≤ length (os_points st) + length msgs)%nat.
Proof.
  assert (∀ msgs st, (length (os_points (foldl append_one st msgs)) ≤
                      length (os_points st) + length msgs)%nat) as H.
  { induction msgs0 as [|o l IH]; intros st0; simpl; [lia|].
    etrans; [apply IH|]. simpl. case_match; rewrite ?length_app; simpl; lia. }
  unfold append_sampled. case_match; apply H.
Qed.

Lemma py_insert_length {A} (l : list A) i x : length (py_insert l i x) = S (length l).
Proof.
  unfold py_insert. rewrite length_app. simpl. rewrite length_take, length_drop. lia.
Qed.

Lemma insert_tolerance_length st msgs :
  (length (os_points (insert_tolerance_messages st msgs)) ≤
   length (os_points st) + length msgs)%nat.
Proof.
  unfold insert_tolerance_messages. case_match; [|lia]. clear.
  revert st. induction msgs as [|o l IH]; intros st; simpl; [lia|].
  etrans; [apply IH|]. unfold insert_one. repeat case_match; simpl; try lia.
  rewrite py_insert_length. lia.
Qed.

#[export] Hint Resolve append_sampled_inv halve_if_needed_inv : pylib.

(** ** Properties *)

(** C3. One batch of edits of a live track -- stride-continuous appending,
    placement of late messages, halving -- keeps the retained points and boxes
    exactly the entries [0, N, 2N, ...] of a chronologically sorted series:
    the old series extended by the in-order messages and by the late messages
    the tolerance window accepts. Only the stride decides what is dropped,
    across batch boundaries and halvings alike. *)
Theorem extend_series_sampled (raw : list obs) (st : ObjectState)
    (in_order in_tolerance : list obs) (max_points : Z) :
  series_inv raw st →
  StronglySorted Z.le (obs_ts <$> raw ++ in_order) →
  ∃ raw',
    series_inv raw' (extend_series st in_order in_tolerance max_points) ∧
    raw' ≡ₚ (raw ++ in_order) ++
      (if os_sampling st =? 1
       then tolerated_all (append_sampled st in_order) in_tolerance else []).
Proof.
  intros Hinv Hs. pose proof (append_sampled_inv _ _ _ Hinv Hs) as H1.
  destruct (insert_tolerance_inv _ _ in_tolerance H1) as (raw' & H2 & Hp).
  exists raw'. split; [by apply halve_if_needed_inv|].
  by rewrite Hp, append_sampled_stride.
Qed.

(** The series stays bounded: a batch of at most [max_points] messages
    leaves at most [max_points] points in a track that had at most that many. *)
Theorem extend_series_bounded (st : ObjectState) (in_order in_tolerance : list obs)
    (max_points : Z) :
  Z.of_nat (length (os_points st)) ≤ max_points →
  Z.of_nat (length in_order + length in_tolerance) ≤ max_points →
  Z.of_nat (length (os_points (extend_series st in_order in_tolerance max_points)))
    ≤ max_points.
Proof.
  intros Hst Hmsgs. etrans; [apply halve_if_needed_length|].
  pose proof (insert_tolerance_length (append_sampled st in_order) in_tolerance).
  pose proof (append_sampled_length st in_order).
  apply Z.max_lub; [lia|]. apply Z.lt_succ_r, Z.div_lt_upper_bound; lia.
Qed.

(** ** Witnesses *)
Definition cz (n : Z) : Coordinate := mk_Coordinate (Z2f n) f0 f0.
Definition bz : Bbox := mk_Bbox f0 f0 f0 f0.
Definition oz (n : Z) : obs := mk_obs n (cz n) bz.
Definition st_of (l : list obs) : ObjectState :=
  mk_ObjectState "s #-# o" 0 0 (obs_coord <$> l) (obs_box <$> l) 1 0 (obs_ts <$> l)
    [] [] None.

Lemma st_of_inv l : StronglySorted Z.le (obs_ts <$> l) → series_inv l (st_of l).
Proof.
  intros H. constructor; simpl; [done|by rewrite Z.mod_1_r|..].
  - by apply sampled_from_stride1.
  - by apply sampled_from_stride1.
  - done.
  - done.
Qed.

Lemma extend_series_sampled_witness :
  ∃ raw',
    series_inv raw' (extend_series (st_of [oz 1; oz 5]) [oz 6; oz 9; oz 12] [oz 4] 4) ∧
    raw' ≡ₚ ([oz 1; oz 5] ++ [oz 6; oz 9; oz 12]) ++ [oz 4].
Proof.
  apply (extend_series_sampled [oz 1; oz 5] (st_of [oz 1; oz 5])
           [oz 6; oz 9; oz 12] [oz 4] 4).
  - apply st_of_inv. repeat constructor; simpl; lia.
  - repeat constructor; simpl; lia.
Defined.

Example extend_series_computes :
  os_points (extend_series (st_of [oz 1; oz 5]) [oz 6; oz 9; oz 12] [oz 4] 4)
    = cz <$> [1; 5; 9] ∧
  os_sampling (extend_series (st_of [oz 1; oz 5]) [oz 6; oz 9; oz 12] [oz 4] 4) = 2.
Proof. split; vm_compute; reflexivity. Qed.

Lemma extend_series_bounded_witness :
  Z.of_nat (length (os_points
    (extend_series (st_of [oz 1; oz 5]) [oz 6; oz 9; oz 12] [oz 4] 4))) ≤ 4.
Proof.
  apply (extend_series_bounded (st_of [oz 1; oz 5]) [oz 6; oz 9; oz 12] [oz 4] 4);
    simpl; lia.
Defined.
