(* ===== verification/Holdback.v ===== *)
(** * Holding back behaviors until their track ends

    [stream/state/behavior/behavior_holdback.py]: [pending] is the latest
    behavior per live track, [ended] the behaviors waiting to be collected.
    The abstract view [held] is the sequence of behaviors in custody; the
    lemmas say how each operation moves behaviors without losing any. *)

From Stdlib Require Import ZArith Lia Permutation.
From stdpp Require Import base list strings gmap.
From S2P Require Import Prelude PyDict PyFloat Crp Schema.

Section holdback.
  Context {T : Type}.
  Abbreviation Behavior := (Schema.Behavior T).

Record BehaviorHoldback := mk_Holdback {
  pending : dict string Behavior;
  ended : list Behavior;
}.
Implicit Types (h : BehaviorHoldback) (b : Behavior).

Definition new_Holdback : BehaviorHoldback := mk_Holdback [] [].

Definition retain (behaviors : list Behavior) h : BehaviorHoldback :=
  mk_Holdback (foldl (λ d b, dset d (be_id b) b) (pending h) behaviors) (ended h).

Definition end_track (message_key : string) h : BehaviorHoldback :=
  match dget (pending h) message_key with
  | Some b => mk_Holdback (ddel (pending h) message_key) (ended h ++ [b])
  | None => h
  end.

Definition take_ended h : list Behavior * BehaviorHoldback :=
  (ended h, mk_Holdback (pending h) []).

Definition flush h : list Behavior * BehaviorHoldback :=
  (ended h ++ dvals (pending h), new_Holdback).

(** Everything in custody. *)
Definition held h : list Behavior := ended h ++ dvals (pending h).

(** Each pending behavior is filed under its own id, once. *)
Definition holdback_wf h : Prop :=
  dict_wf (pending h) ∧ ∀ k b, dget (pending h) k = Some b → be_id b = k.

(** ** Lemmas *)

Lemma ddel_perm (d : dict string Behavior) k b :
  dict_wf d → dget d k = Some b → dvals d ≡ₚ b :: dvals (ddel d k).
Proof.
  unfold dict_wf, dkeys, dvals, ddel. induction d as [|[k' v] d IH]; csimpl; [done|].
  intros [Hni Hnd]%NoDup_cons. case_decide as Hk.
  - intros [= ->]. subst. rewrite filter_cons_False by (simpl; tauto).
    f_equiv. replace (filter _ d) with d; [done|].
    symmetry. apply list_filter_all. intros [k1 v1] Hin Heq. simpl in *. subst.
    apply Hni, list_elem_of_fmap. by exists (k', v1).
  - intros Hg. rewrite filter_cons_True by (simpl; congruence). csimpl.
    rewrite (IH Hnd Hg). apply Permutation_swap.
Qed.

Lemma end_track_held h k : holdback_wf h → held (end_track k h) ≡ₚ held h.
Proof.
  intros [Hwf _]. unfold held, end_track. destruct (dget (pending h) k) as [b|] eqn:E; [|done].
  simpl. rewrite (ddel_perm _ _ _ Hwf E), <-app_assoc. done.
Qed.

Lemma end_track_wf h k : holdback_wf h → holdback_wf (end_track k h).
Proof.
  intros [Hwf Hid]. unfold end_track. destruct (dget (pending h) k) as [b|] eqn:E; [|done].
  split; simpl; [by apply dict_wf_ddel|]. intros k' b'. rewrite dget_ddel.
  case_decide; [done|]. apply Hid.
Qed.

Lemma end_track_keys h k k' :
  k' ∈ dkeys (pending (end_track k h)) ↔ k' ∈ dkeys (pending h) ∧ k' ≠ k.
Proof.
  unfold end_track. destruct (dget (pending h) k) as [b|] eqn:E; simpl.
  - rewrite dkeys_ddel_elem. tauto.
  - apply dget_None in E. naive_solver.
Qed.

Lemma end_track_ended h k b :
  b ∈ ended (end_track k h) ↔ b ∈ ended h ∨ dget (pending h) k = Some b.
Proof.
  unfold end_track. destruct (dget (pending h) k) as [b'|]; simpl.
  - rewrite elem_of_app, list_elem_of_singleton. naive_solver.
  - naive_solver.
Qed.

Lemma retain_cons b bs h :
  retain (b :: bs) h = retain bs (mk_Holdback (dset (pending h) (be_id b) b) (ended h)).
Proof. done. Qed.

Lemma retain_wf h bs : holdback_wf h → holdback_wf (retain bs h).
Proof.
  revert h. induction bs as [|b bs IH]; intros h Hwf; [by destruct h|].
  rewrite retain_cons. apply IH. destruct Hwf as [Hd Hid].
  split; simpl; [by apply dict_wf_dset|].
  intros k b'. rewrite dget_dset. case_decide; [by intros [= <-]|apply Hid].
Qed.

Lemma retain_keys h bs k :
  k ∈ dkeys (pending (retain bs h)) ↔ k ∈ dkeys (pending h) ∨ k ∈ be_id <$> bs.
Proof.
  revert h. induction bs as [|b bs IH]; intros h.
  - rewrite fmap_nil, elem_of_nil. destruct h; simpl. tauto.
  - rewrite retain_cons, IH, fmap_cons, elem_of_cons. simpl.
    rewrite dkeys_dset_elem. tauto.
Qed.

(** The latest behavior of a batch supersedes what was held for its track. *)
Lemma retain_get h bs k :
  dget (pending (retain bs h)) k =
    match last (filter (λ b, be_id b = k) bs) with
    | Some b => Some b
    | None => dget (pending h) k
    end.
Proof.
  revert h. induction bs as [|b bs IH]; intros h; [done|].
  rewrite retain_cons, IH. simpl. rewrite dget_dset, filter_cons.
  destruct (decide (be_id b = k)) as [E|E]; [|done].
  rewrite last_cons. by destruct (last _).
Qed.

Lemma retain_ended h bs : ended (retain bs h) = ended h.
Proof. done. Qed.

(** ** Property *)

(** The holdback is a custodian: ending tracks in any order, collecting
    with [take_ended] and finally flushing hands over exactly the behaviors in
    custody, each once, and leaves the holdback empty. *)
Theorem holdback_conserves h (ks : list string) :
  holdback_wf h →
  let '(taken, h1) := take_ended (foldr end_track h ks) in
  let '(rest, h2) := flush h1 in
  taken ++ rest ≡ₚ held h ∧ h2 = new_Holdback.
Proof.
  intros Hwf.
  assert (holdback_wf (foldr end_track h ks) ∧ held (foldr end_track h ks) ≡ₚ held h)
    as [_ Hheld].
  { induction ks as [|k ks [IH1 IH2]]; simpl; [done|].
    split; [by apply end_track_wf|]. by rewrite end_track_held. }
  simpl. by split.
Qed.
End holdback.
Arguments BehaviorHoldback : clear implicits.

#[export] Hint Resolve end_track_wf retain_wf : pylib.

(** ** Witness *)
Definition be0 (id : string) (t : Z) : Behavior unit :=
  mk_Behavior id t t f0 [] [] 1 tt (mk_Sensor "s")
    (mk_Object "o" "" f0 (mk_Bbox f0 f0 f0 f0) None (mk_Coordinate f0 f0 f0) None [])
    "" None "".

Lemma holdback_conserves_witness :
  let h := retain [be0 "a" 1; be0 "b" 2; be0 "a" 3] new_Holdback in
  let '(taken, h1) := take_ended (foldr end_track h ["b"; "zz"]) in
  let '(rest, h2) := flush h1 in
  taken ++ rest ≡ₚ [be0 "a" 3; be0 "b" 2] ∧ h2 = new_Holdback.
Proof.
  apply (holdback_conserves (retain [be0 "a" 1; be0 "b" 2; be0 "a" 3] new_Holdback)
    ["b"; "zz"]).
  apply retain_wf. split; [constructor|done].
Defined.
