(* ===== verification/BehaviorState.v ===== *)
(** * Object tracks over time: the behavior state manager

    [stream/state/behavior/state_management.py] ([class StateMgmt]) with
    [messages_to_map] and [get_sensor_id_from_behavior_id] of
    [utils/schema_util.py]. A batch of messages grouped by track key is folded
    into per-track [ObjectState]s (points through [Sampling], embeddings
    through [Crp]); tracks that fall silent in event time are ended and their
    behaviors released through [Holdback].

    Parameters: [np_sum] (numpy's summation) and [derive], the
    trajectory-derived fields of a behavior (smoothing, distance, speed,
    bearing: [schema/trajectory/trajectory.py], not modelled here). *)

From Stdlib Require Import ZArith Lia Permutation Sorting.
From stdpp Require Import base list strings gmap sorting.
From S2P Require Import Prelude PyDict PyFloat Crp Schema Sampling Holdback.
Open Scope Z_scope.

(** The configuration read by state management. *)
Record BehaviorConfig := mk_BehaviorConfig {
  behavior_emit_once : bool;
  behavior_state_valid_interval : Z;
  behavior_water_mark : Z;
  behavior_time_threshold : datetime;
  behavior_max_points : Z;
  behavior_state_end_tolerance_sec : float;
  cluster_threshold : float;
  object_confidence_threshold : float;
  sensor_tripwire_min_points : string → Z;
}.

(** The calibration's view of a sensor: the ids of its tripwires and ROIs. *)
Record SensorInfo := mk_SensorInfo { tripwires : list string; rois : list string }.

(** What [Trajectory] is built from. *)
Record Trajectory := mk_Trajectory {
  tr_id : string;
  tr_start : datetime;
  tr_end : datetime;
  tr_points : list Coordinate;
}.

(** ** [utils/schema_util.py] *)

Definition message_key (m : Message) : string :=
  match ms_object m with
  | Some o => se_id (ms_sensor m) +:+ " #-# " +:+ ob_id o
  | None => "dummy"
  end.

Definition messages_to_map (msgs : list Message) : dict string (list Message) :=
  foldl (λ d m,
    let k := message_key m in
    dset d k (default [] (dget d k) ++ [m])) [] msgs.

Definition get_sensor_id_from_behavior_id (behavior_id : string) : string :=
  default EmptyString (head (py_split " #-# " behavior_id)).

Section state_mgmt.
  Context {T : Type} (np_sum : vec → float) (derive : Trajectory → T).
  Abbreviation Behavior := (Schema.Behavior T).

Definition model_to_embeddings (m : option Model) : list Embedding :=
  match m with
  | None => []
  | Some m => (λ v, mk_Embedding v []) <$> centers m
  end.

Record StateMgmt := mk_StateMgmt {
  state : dict string ObjectState;
  sensor_latest_timestamp : dict string datetime;
  behavior_holdback : BehaviorHoldback T;
}.

Record BehaviorBatch := mk_BehaviorBatch {
  active_behaviors : list Behavior;
  trip_behaviors : list Behavior;
  behaviors_to_write : list Behavior;
}.

Definition new_StateMgmt : StateMgmt := mk_StateMgmt [] [] new_Holdback.

Definition set_state (d : dict string ObjectState) (s : StateMgmt) : StateMgmt :=
  mk_StateMgmt d (sensor_latest_timestamp s) (behavior_holdback s).
Definition set_clock (d : dict string datetime) (s : StateMgmt) : StateMgmt :=
  mk_StateMgmt (state s) d (behavior_holdback s).
Definition set_holdback (h : BehaviorHoldback T) (s : StateMgmt) : StateMgmt :=
  mk_StateMgmt (state s) (sensor_latest_timestamp s) h.

Section with_config.
  Context (cfg : BehaviorConfig) (sensor_map : dict string SensorInfo).

(** ** [_update_sensor_latest_timestamp] *)
Definition update_clock (d : dict string datetime) (m : Message) : dict string datetime :=
  let sid := se_id (ms_sensor m) in
  match dget d sid with
  | Some t => if t <? ms_timestamp m then dset d sid (ms_timestamp m) else d
  | None => dset d sid (ms_timestamp m)
  end.
Definition update_sensor_latest_timestamp (msgs : list Message) : stM StateMgmt unit :=
  smod (λ s, set_clock (foldl update_clock (sensor_latest_timestamp s) msgs) s).

(** ** [_is_valid_state] *)
Definition is_valid_state (old_state new_state : ObjectState) (interval : Z) : bool :=
  fltZ (total_seconds (os_start new_state - os_end old_state)) interval
  && (os_end old_state <=? os_start new_state).

(** ** [_update_object_state_model]: the state is the object being updated *)
Definition update_object_state_model (embeddings : list vec) : stM ObjectState unit :=
  λ st,
    match os_model st with
    | Some m =>
        match update_model np_sum embeddings (cluster_threshold cfg) m with
        | (Ok m', _) => (Ok tt, set_model (Some m') st)
        | (Exn e, m0) => (Exn e, set_model (Some m0) st)
        end
    | None =>
        match cluster np_sum embeddings (cluster_threshold cfg) with
        | Ok m' => (Ok tt, set_model (Some m') st)
        | Exn e => (Exn e, st)
        end
    end.

(** ** The message filters of [_get_object_trip_state_and_message] *)

(** Inside the watermark window of the batch and after the global threshold. *)
Definition filter_by_time (msgs : list Message) : list Message :=
  let sorted_messages := sort_key ms_timestamp msgs in
  match last sorted_messages with
  | None => []
  | Some l =>
      let time_threshold := ms_timestamp l - td_int (behavior_water_mark cfg) in
      filter (λ m, time_threshold ≤ ms_timestamp m ∧
                   behavior_time_threshold cfg < ms_timestamp m) sorted_messages
  end.

(** In-order and in-tolerance messages with respect to the stored state. *)
Definition split_messages (st : option ObjectState) (msgs : list Message)
    : result (list Message * list Message) :=
  match st with
  | None => Ok (msgs, [])
  | Some s =>
      match td_float (behavior_state_end_tolerance_sec cfg) with
      | Exn e => Exn e
      | Ok tol =>
          let cutoff := os_end s - tol in
          Ok (filter (λ m, os_end s < ms_timestamp m) msgs,
              filter (λ m, ms_timestamp m ≤ os_end s ∧ cutoff < ms_timestamp m) msgs)
      end
  end.

Definition obs_of (m : Message) : result obs :=
  match ms_object m with
  | Some o => Ok (mk_obs (ms_timestamp m) (ob_coordinate o) (ob_bbox o))
  | None => Exn AttributeError
  end.

(** The non-empty embedding of a confident detection, if any. *)
Definition embedding_of (m : Message) : result (option vec) :=
  match ms_object m with
  | None => Exn AttributeError
  | Some o =>
      Ok (if fle (object_confidence_threshold cfg) (ob_confidence o) then
            match ob_embedding o with
            | Some e => match em_vector e with [] => None | v => Some v end
            | None => None
            end
          else None)
  end.

Definition new_object_state (key : string) (first last : obs) (os : list obs)
    (min_trip_length_minus_one : Z) : ObjectState :=
  mk_ObjectState key (obs_ts first) (obs_ts last) (obs_coord <$> os) (obs_box <$> os)
    1 0 (obs_ts <$> py_tail os TAIL_CAP)
    (py_tail (obs_coord <$> os) min_trip_length_minus_one)
    (py_tail (obs_box <$> os) min_trip_length_minus_one) None.

(** Start of the trip window: the new state's start moved back by the average
    spacing of its points for each of the carried-over points. *)
Definition trip_start (old new_state : ObjectState) : result datetime :=
  let n := Z.of_nat (length (os_points new_state)) in
  let interval :=
    if negb (feq (os_time_interval new_state) f0) && (1 <? n)
    then fdiv (os_time_interval new_state) (Z2f (n - 1))
    else total_seconds (os_start new_state - os_end old) in
  match td_float (fmul (Z2f (Z.of_nat (length (os_lastXpoints old)))) interval) with
  | Ok d => Ok (os_start new_state - d)
  | Exn e => Exn e
  end.

(** The "update existing state" branch: the state is the stored object, and
    the result the trip state. *)
Definition update_existing (key : string) (new_state : ObjectState)
    (os tol_os : list obs) (embeddings : list vec) (mtl : Z) : stM ObjectState ObjectState :=
  λ st,
    let trip_points := os_lastXpoints st ++ os_points new_state in
    let trip_bboxes := os_lastXbboxes st ++ os_bboxes new_state in
    match trip_start st new_state with
    | Exn e => (Exn e, st)
    | Ok tstart =>
        let st1 := extend_series st os tol_os (behavior_max_points cfg) in
        let st2 := set_lastX (py_tail trip_points mtl) (py_tail trip_bboxes mtl)
                     (set_end (os_end new_state) st1) in
        match update_object_state_model embeddings st2 with
        | (Exn e, st3) => (Exn e, st3)
        | (Ok _, st3) =>
            (Ok (mk_ObjectState key tstart (os_end new_state) trip_points trip_bboxes
                   1 0 [] [] [] None), st3)
        end
    end.

(** The "new state" branch. *)
Definition start_new (key : string) (old : option ObjectState) (new_state : ObjectState)
    (embeddings : list vec) : stM StateMgmt ObjectState :=
  λ s,
    let s1 := match old with
              | Some _ => set_holdback (end_track key (behavior_holdback s)) s
              | None => s
              end in
    let '(r, st) := update_object_state_model embeddings new_state in
    (match r with Ok _ => Ok st | Exn e => Exn e end,
     set_state (dset (state s1) key st) s1).

(** A track without a stored state, or whose stored state the new one cannot
    continue, starts anew; otherwise the stored state is updated. *)
Definition advance_track (key : string) (old : option ObjectState)
    (new_state : ObjectState) (os tol_os : list obs) (embeddings : list vec) (mtl : Z)
    (last_message : Message)
    : stM StateMgmt (option (ObjectState * ObjectState * Message)) :=
  λ s,
    let start := start_new key old new_state embeddings in
    let fresh := (ns ← start; mret (Some (ns, ns, last_message))) s in
    match old with
    | None => fresh
    | Some st =>
        if is_valid_state st new_state (behavior_state_valid_interval cfg) then
          let '(r, st') := update_existing key new_state os tol_os embeddings mtl st in
          (match r with
           | Ok trip => Ok (Some (st', trip, last_message))
           | Exn e => Exn e
           end, set_state (dset (state s) key st') s)
        else fresh
    end.

(** ** [_get_object_trip_state_and_message] *)
Definition get_object_trip_state_and_message (key : string) (msgs : list Message)
    : stM StateMgmt (option (ObjectState * ObjectState * Message)) :=
  λ s,
    match msgs with
    | [] => (Ok None, s)
    | m0 :: _ =>
        if String.eqb key EmptyString || ends_with key "dummy" then (Ok None, s)
        else
          let mtl := sensor_tripwire_min_points cfg (se_id (ms_sensor m0)) * 2 - 1 in
          let st := dget (state s) key in
          match split_messages st (filter_by_time msgs) with
          | Exn e => (Exn e, s)
          | Ok (in_order, in_tol) =>
              match head in_order, last in_order with
              | Some mf, Some ml =>
                  match mapM obs_of in_order, mapM embedding_of (in_order ++ in_tol),
                        mapM obs_of in_tol, obs_of mf, obs_of ml with
                  | Ok os, Ok embs, Ok tol_os, Ok o_first, Ok o_last =>
                      let embeddings := omap id embs in
                      let new_state := new_object_state key o_first o_last os mtl in
                      advance_track key st new_state os tol_os embeddings mtl ml s
                  | _, _, _, _, _ => (Exn AttributeError, s)
                  end
              | _, _ => (Ok None, s)
              end
          end
    end.

(** ** [_get_behavior] *)
Definition get_behavior (st : ObjectState) (tr : Trajectory) (m : Message)
    : result Behavior :=
  match ms_object m with
  | None => Exn ValueError
  | Some o =>
      Ok (mk_Behavior (os_id st) (os_start st) (os_end st) (os_time_interval st)
            (model_to_embeddings (os_model st)) (os_bboxes st)
            (length (tr_points tr)) (derive tr) (ms_sensor m) o (ms_place m)
            (ms_event m) (ms_videoPath m))
  end.

Definition create_trajectory (st : ObjectState) : Trajectory :=
  mk_Trajectory (os_id st) (os_start st) (os_end st) (os_points st).

(** ** [_sensor_has_trip_geometry] *)
Definition sensor_has_trip_geometry (sensor_id : string) : bool :=
  match dget sensor_map sensor_id with
  | Some i => negb (bool_decide (tripwires i = [])) || negb (bool_decide (rois i = []))
  | None => false
  end.

(** ** [_build_trip_behavior] *)
Definition build_trip_behavior (trip_state : ObjectState) (last_message : Message)
    : result (option Behavior) :=
  if sensor_has_trip_geometry (se_id (ms_sensor last_message))
  then b ← get_behavior trip_state (create_trajectory trip_state) last_message;
       Ok (Some b)
  else Ok None.

(** ** [_process_key] *)
Definition process_key (key : string) (msgs : list Message)
    : stM StateMgmt (option Behavior * option Behavior) :=
  _ ← update_sensor_latest_timestamp msgs;
  r ← get_object_trip_state_and_message key msgs;
  match r with
  | None => mret (None, None)
  | Some (st, trip_st, last_message) =>
      b ← slift (get_behavior st (create_trajectory st) last_message);
      tb ← slift (build_trip_behavior trip_st last_message);
      mret (Some b, tb)
  end.

(** The key loop of [process_batch]: active and trip behaviors, in key order. *)
Fixpoint process_keys (messages_map : dict string (list Message))
    : stM StateMgmt (list Behavior * list Behavior) :=
  match messages_map with
  | [] => mret ([], [])
  | (key, msgs) :: rest =>
      r ← process_key key msgs;
      rs ← process_keys rest;
      mret (option_list r.1 ++ rs.1, option_list r.2 ++ rs.2)
  end.

(** ** [_end_inactive_behaviors] *)
Definition is_inactive (clock : dict string datetime) (behavior_id : string)
    (st : ObjectState) : bool :=
  match dget clock (get_sensor_id_from_behavior_id behavior_id) with
  | None => false
  | Some ts => fgeZ (total_seconds (ts - os_end st)) (behavior_state_valid_interval cfg)
  end.
Definition end_if_inactive (s : StateMgmt) (behavior_id : string) : StateMgmt :=
  match dget (state s) behavior_id with
  | Some st =>
      if is_inactive (sensor_latest_timestamp s) behavior_id st
      then set_holdback (end_track behavior_id (behavior_holdback s))
             (set_state (ddel (state s) behavior_id) s)
      else s
  | None => s
  end.
Definition end_inactive_behaviors : stM StateMgmt unit :=
  smod (λ s, foldl end_if_inactive s (dkeys (state s))).

(** ** [_carry_over_held_behaviors] *)
Definition carry_over_held_behaviors (active : list Behavior)
    : stM StateMgmt (list Behavior) :=
  λ s,
    let h := behavior_holdback s in
    if bool_decide (pending h = []) && bool_decide (ended h = []) then (Ok [], s)
    else
      let '(flushed, h') := flush h in
      (Ok (filter (λ b, be_id b ∉ be_id <$> active) flushed), set_holdback h' s).

(** ** [process_batch]: one call is one batch *)
Definition retain_active (active : list Behavior) : stM StateMgmt unit :=
  smod (λ s, set_holdback (retain active (behavior_holdback s)) s).

Definition collect_ended : stM StateMgmt (list Behavior) :=
  λ s, let '(out, h') := take_ended (behavior_holdback s) in (Ok out, set_holdback h' s).

Definition process_batch (messages_map : dict string (list Message))
    : stM StateMgmt BehaviorBatch :=
  let emit_once := behavior_emit_once cfg in
  r ← process_keys messages_map;
  _ ← (if emit_once then retain_active r.1 else mret tt);
  _ ← end_inactive_behaviors;
  w ← (if emit_once then collect_ended
       else c ← carry_over_held_behaviors r.1; mret (c ++ r.1));
  mret (mk_BehaviorBatch r.1 r.2 w).
End with_config.

(** ** [flush_behaviors], [live_object_ids] *)
Definition flush_behaviors : stM StateMgmt (list Behavior) :=
  λ s, let '(out, h') := flush (behavior_holdback s) in (Ok out, set_holdback h' s).
Definition live_object_ids (s : StateMgmt) : list string := dkeys (state s).
End state_mgmt.

(** ** The invariant *)

(** A stored track: its series is sampled from a chronological series of
    observations none of which is later than the track's end. *)
Definition track_inv (st : ObjectState) : Prop :=
  os_start st ≤ os_end st ∧
  ∃ raw, series_inv raw st ∧ Forall (λ t, t ≤ os_end st) (obs_ts <$> raw).

Section invariant.
  Context {T : Type}.
  Implicit Types (s : StateMgmt (T:=T)) (b : Schema.Behavior T).

(** Every track is filed under its id and well formed; a behavior is held back
    only for a live track and never ends after it. *)
Record sm_inv s : Prop := mk_sm_inv {
  inv_wf : dict_wf (state s);
  inv_tracks : ∀ k st, dget (state s) k = Some st → os_id st = k ∧ track_inv st;
  inv_holdback : holdback_wf (behavior_holdback s);
  inv_pending : ∀ k b, dget (pending (behavior_holdback s)) k = Some b →
    ∃ st, dget (state s) k = Some st ∧ be_end b ≤ os_end st;
}.

(** [b] belongs to a track that is over: whatever is stored under its id
    starts after [b] ended. *)
Definition track_over s b : Prop :=
  ∀ st, dget (state s) (be_id b) = Some st → be_end b < os_start st.

(** During a batch: behaviors already released are of tracks that were replaced. *)
Definition released_over s : Prop :=
  ∀ b, b ∈ ended (behavior_holdback s) →
    is_Some (dget (state s) (be_id b)) ∧ track_over s b.

(** Stored tracks only grow. *)
Definition advances s s' : Prop :=
  ∀ k st, dget (state s) k = Some st →
    ∃ st', dget (state s') k = Some st' ∧ os_end st ≤ os_end st'.
End invariant.

(** ** Lemmas: messages *)

Lemma mapM_obs_ts msgs os :
  mapM obs_of msgs = Ok os → obs_ts <$> os = ms_timestamp <$> msgs.
Proof.
  revert os. induction msgs as [|m msgs IH]; intros os; simpl.
  { by intros [= <-]. }
  intros (o & Ho & (os' & Hos & [= <-])%result_bind_Ok)%result_bind_Ok.
  csimpl. rewrite (IH _ Hos). f_equal.
  unfold obs_of in Ho. case_match; [|done]. by injection Ho as <-.
Qed.

Section lemmas.
  Context (cfg : BehaviorConfig).

Lemma filter_by_time_sorted msgs :
  StronglySorted Z.le (ms_timestamp <$> filter_by_time cfg msgs).
Proof.
  unfold filter_by_time. destruct (last _); [|constructor].
  apply StronglySorted_fmap, StronglySorted_filter, sort_key_sorted.
Qed.

Lemma split_messages_spec st msgs in_order in_tol :
  StronglySorted Z.le (ms_timestamp <$> msgs) →
  split_messages cfg st msgs = Ok (in_order, in_tol) →
  StronglySorted Z.le (ms_timestamp <$> in_order) ∧
  (∀ s, st = Some s → Forall (λ m, os_end s < ms_timestamp m) in_order) ∧
  in_order ⊆ msgs.
Proof.
  intros Hs. destruct st as [s|]; simpl; [|by intros [= <- <-]].
  destruct (td_float _) as [tol|]; [|done]. intros [= <- <-]. split_and!.
  - apply StronglySorted_fmap, StronglySorted_filter. by apply StronglySorted_fmap_inv.
  - intros ? [= <-]. apply Forall_forall. by intros m [? _]%list_elem_of_filter.
  - apply list_subseteq_filter.
Qed.
End lemmas.

(** ** Lemmas: one track *)

Lemma series_inv_set_end raw st v : series_inv raw st → series_inv raw (set_end v st).
Proof. intros []. by constructor. Qed.
Lemma series_inv_set_lastX raw st p b : series_inv raw st → series_inv raw (set_lastX p b st).
Proof. intros []. by constructor. Qed.
Lemma series_inv_set_model raw st m : series_inv raw st → series_inv raw (set_model m st).
Proof. intros []. by constructor. Qed.
#[local] Hint Resolve series_inv_set_end series_inv_set_lastX series_inv_set_model : pylib.

Lemma track_inv_set_model st m : track_inv st → track_inv (set_model m st).
Proof. intros (? & raw & ? & ?). split; [done|]. exists raw. auto with pylib. Qed.

Lemma new_object_state_inv key os o_first o_last mtl :
  StronglySorted Z.le (obs_ts <$> os) → head os = Some o_first → last os = Some o_last →
  track_inv (new_object_state key o_first o_last os mtl).
Proof.
  intros Hs Hh Hl.
  assert (Forall (λ t, t ≤ obs_ts o_last) (obs_ts <$> os)) as Hle.
  { apply last_Some in Hl as [l' ->]. rewrite fmap_app in *.
    apply Forall_app. split; [|by repeat constructor].
    apply Forall_forall. intros t Ht.
    eapply StronglySorted_app_1_elem_of; [exact Hs|done|by left]. }
  split; simpl.
  - destruct os as [|o os]; [done|]. injection Hh as ->. by inversion Hle.
  - exists os. split; [|done]. constructor; simpl; [done|by rewrite Z.mod_1_r| | |done|].
    + by apply sampled_from_stride1.
    + by apply sampled_from_stride1.
    + destruct (py_tail_suffix os TAIL_CAP) as [pre Hpre]. exists (obs_ts <$> pre).
      rewrite Hpre at 1. by rewrite fmap_app.
Qed.

Lemma append_one_frame st o :
  os_id (append_one st o) = os_id st ∧ os_start (append_one st o) = os_start st ∧
  os_end (append_one st o) = os_end st.
Proof. done. Qed.

Lemma extend_series_frame st os tol mx :
  os_id (extend_series st os tol mx) = os_id st ∧
  os_start (extend_series st os tol mx) = os_start st ∧
  os_end (extend_series st os tol mx) = os_end st.
Proof.
  unfold extend_series, halve_if_needed, insert_tolerance_messages, append_sampled.
  set (F := λ s, os_id s = os_id st ∧ os_start s = os_start st ∧ os_end s = os_end st).
  assert (∀ l s, F s → F (foldl append_one s l)) as Ha.
  { induction l as [|o l IH]; intros s Hs; simpl; [done|]. by apply IH. }
  assert (∀ l s, F s → F (foldl insert_one s l)) as Hi.
  { induction l as [|o l IH]; intros s Hs; simpl; [done|]. apply IH.
    unfold insert_one. by repeat case_match. }
  assert (F (foldl append_one st os)) as Hos by (by apply Ha).
  repeat case_match; try apply Hi; apply Hos || (by apply Hi).
Qed.

Section tracks.
  Context {T : Type} (np_sum : vec → float) (cfg : BehaviorConfig).
  Implicit Types (s : StateMgmt (T:=T)).

Lemma update_model_frame embs st r st' :
  update_object_state_model np_sum cfg embs st = (r, st') → ∃ m, st' = set_model m st.
Proof.
  unfold update_object_state_model. intros H.
  assert (st = set_model (os_model st) st) as Heta by (by destruct st).
  repeat case_match; simplify_eq; eauto.
Qed.

(** Continuing a track keeps its start, moves its end forward and keeps the
    series a sample of a chronological series. *)
Lemma update_existing_inv key new_state os tol_os embs mtl st r st' :
  track_inv st → StronglySorted Z.le (obs_ts <$> os) →
  Forall (λ t, os_end st < t) (obs_ts <$> os) →
  Forall (λ t, t ≤ os_end new_state) (obs_ts <$> os) →
  Forall (λ t, t ≤ os_end st) (obs_ts <$> tol_os) → os_end st ≤ os_end new_state →
  update_existing np_sum cfg key new_state os tol_os embs mtl st = (r, st') →
  track_inv st' ∧ os_id st' = os_id st ∧ os_start st' = os_start st ∧
  os_end st ≤ os_end st'.
Proof.
  intros (Hse & raw & Hinv & Hraw) Hs Hgt Hle Htol Hend. unfold update_existing.
  assert (track_inv st) as Htr by (split; eauto).
  destruct (trip_start st new_state) as [ts|e]; [|by intros [= <- <-]].
  set (st1 := extend_series st os tol_os (behavior_max_points cfg)).
  destruct (extend_series_frame st os tol_os (behavior_max_points cfg)) as (Hid & Hst & _).
  assert (track_inv (set_end (os_end new_state) st1)) as Htr1.
  { split; [simpl; unfold st1; rewrite Hst; lia|].
    assert (StronglySorted Z.le (obs_ts <$> raw ++ os)) as Hss.
    { rewrite fmap_app. destruct Hinv. apply StronglySorted_app. split_and!; [|done..].
      intros x y Hx Hy. rewrite Forall_forall in Hraw, Hgt.
      specialize (Hraw _ Hx). specialize (Hgt _ Hy). lia. }
    pose proof (append_sampled_inv _ _ _ Hinv Hss) as Ha.
    destruct (insert_tolerance_inv _ _ tol_os Ha) as (raw' & Hi & Hp).
    exists raw'. split; [apply series_inv_set_end; by apply halve_if_needed_inv|]. simpl.
    rewrite Hp, !fmap_app, !Forall_app. split_and!.
    - eapply Forall_impl; [exact Hraw|]. simpl. lia.
    - done.
    - case_match; [|constructor].
      assert (∀ l st0, Forall (λ t, t ≤ os_end st) (obs_ts <$> l) →
        Forall (λ t, t ≤ os_end new_state) (obs_ts <$> tolerated_all st0 l)) as Hall.
      { induction l as [|o l IH]; intros st0 Hl; csimpl; [constructor|].
        apply Forall_cons in Hl as [Ho Hl]. rewrite fmap_app, Forall_app.
        split; [|by apply IH]. case_match; repeat constructor. lia. }
      by apply Hall. }
  destruct (update_object_state_model _ _ _ _) as [rr st3] eqn:E.
  apply update_model_frame in E as [m ->].
  assert (∀ p b, track_inv (set_model m (set_lastX p b (set_end (os_end new_state) st1))))
    as Hfin.
  { intros p b. destruct Htr1 as (H1 & raw1 & H2 & H3). apply track_inv_set_model.
    split; [done|]. exists raw1. auto with pylib. }
  destruct rr; intros [= <- <-]; by split_and!.
Qed.


Lemma advances_refl s : advances s s.
Proof. intros k st H. exists st. split; [done|lia]. Qed.

Lemma advances_trans s1 s2 s3 : advances s1 s2 → advances s2 s3 → advances s1 s3.
Proof.
  intros H12 H23 k st H. destruct (H12 _ _ H) as (st2 & H2 & ?).
  destruct (H23 _ _ H2) as (st3 & H3 & ?). exists st3. split; [done|lia].
Qed.

Lemma advances_dset s k st h c :
  (∀ old, dget (state s) k = Some old → os_end old ≤ os_end st) →
  advances s (mk_StateMgmt (dset (state s) k st) c h).
Proof.
  intros Hold k' st' Hk'. simpl. rewrite dget_dset. case_decide as E.
  - subst. exists st. eauto.
  - exists st'. split; [done|lia].
Qed.

(** What one step on the track [key] guarantees. *)
Definition step_ok s s' : Prop :=
  sm_inv s' ∧ released_over s' ∧ advances s s' ∧
  sensor_latest_timestamp s' = sensor_latest_timestamp s.

(** Replacing the stored state of a track, with the holdback [h]. *)
Lemma put_track_ok s k st h :
  sm_inv s → released_over s → os_id st = k → track_inv st → holdback_wf h →
  (∀ old, dget (state s) k = Some old → os_end old ≤ os_end st) →
  (∀ k' b, dget (pending h) k' = Some b →
     dget (pending (behavior_holdback s)) k' = Some b ∧ (k' = k → be_end b ≤ os_end st)) →
  (∀ b, b ∈ ended h → be_id b = k → be_end b < os_start st) →
  (∀ b, b ∈ ended h → be_id b ≠ k → b ∈ ended (behavior_holdback s)) →
  step_ok s (mk_StateMgmt (dset (state s) k st) (sensor_latest_timestamp s) h).
Proof.
  intros [H1 H2 H3 H4] Hrel Hid Htr Hh Hold Hpend Hek Hother. split_and!; [|..|done].
  - constructor; simpl; [by apply dict_wf_dset| |done|].
    + intros k' st'. rewrite dget_dset. case_decide as E; [intros [= <-]; by subst|apply H2].
    + intros k' b Hb. destruct (Hpend _ _ Hb) as [Hb' Hk]. rewrite dget_dset.
      case_decide as E; [exists st; eauto|by apply H4].
  - intros b Hb. simpl in Hb. unfold track_over. simpl.
    destruct (decide (be_id b = k)) as [E|E].
    + rewrite E, dget_dset_eq. split; [done|]. intros ? [= <-]. eauto.
    + rewrite dget_dset_ne by done. by apply Hrel, Hother.
  - by apply advances_dset.
Qed.

Lemma start_new_ok key old ns embs s r s' :
  sm_inv s → released_over s → dget (state s) key = old → os_id ns = key →
  track_inv ns → (∀ o, old = Some o → os_end o < os_start ns) →
  start_new np_sum cfg key old ns embs s = (r, s') →
  step_ok s s' ∧ (∀ st, r = Ok st → dget (state s') key = Some st ∧ os_id st = key).
Proof.
  intros Hinv Hrel Hold Hid Htr Hlater. unfold start_new.
  destruct (update_object_state_model _ _ _ _) as [rr st1] eqn:E.
  apply update_model_frame in E as [m ->]. intros [= <- <-]. split.
  2: { intros st. destruct rr; [intros [= <-]|done]. destruct old; simpl;
         by rewrite dget_dset_eq. }
  destruct Htr as [Hse Hseries].
  assert (track_inv (set_model m ns)) as Htr' by (apply track_inv_set_model; by split).
  destruct old as [o|]; simpl.
  - pose proof (Hlater o eq_refl) as Hlt.
    apply (put_track_ok s key _ (end_track key (behavior_holdback s))); try done.
    + apply end_track_wf, Hinv.
    + intros o' Ho'. simplify_eq. simpl. lia.
    + intros k' b Hb. assert (k' ∈ dkeys (pending (end_track key (behavior_holdback s)))) as Hk.
      { apply dget_is_Some. by eexists. }
      apply end_track_keys in Hk as [_ Hne].
      unfold end_track in Hb. case_match; [|naive_solver].
      simpl in Hb. by rewrite dget_ddel_ne in Hb.
    + intros b [Hb|Hb]%end_track_ended Hk.
      * destruct (Hrel b Hb) as [_ Hover]. specialize (Hover o).
        rewrite Hk in Hover. specialize (Hover Hold).
        destruct (inv_tracks _ Hinv _ _ Hold) as [_ [? _]]. simpl. lia.
      * destruct (inv_pending _ Hinv _ _ Hb) as (o' & Ho' & ?). simplify_eq. simpl. lia.
    + intros b [Hb|Hb]%end_track_ended Hk; [done|].
      by apply (proj2 (inv_holdback _ Hinv)) in Hb.
  - apply (put_track_ok s key _ (behavior_holdback s)); try done.
    + apply Hinv.
    + intros o Ho. by rewrite Hold in Ho.
    + intros k' b Hb. split; [done|]. intros ->.
      destruct (inv_pending _ Hinv _ _ Hb) as (o' & Ho' & _). by rewrite Hold in Ho'.
    + intros b Hb Hk. destruct (Hrel b Hb) as [[o Ho] _]. by rewrite Hk, Hold in Ho.
Qed.

Lemma mapM_obs_Forall (P : datetime → Prop) msgs os :
  mapM obs_of msgs = Ok os → Forall (λ m, P (ms_timestamp m)) msgs → Forall P (obs_ts <$> os).
Proof. intros ->%mapM_obs_ts ?. by apply Forall_fmap. Qed.

Lemma obs_of_last msgs os m o :
  mapM obs_of msgs = Ok os → last msgs = Some m → obs_of m = Ok o → last os = Some o.
Proof.
  revert os. induction msgs as [|m0 msgs IH]; intros os; simpl; [done|].
  intros (o0 & Ho & (os' & Hos & [= <-])%result_bind_Ok)%result_bind_Ok.
  rewrite !last_cons. destruct (last msgs) as [m'|] eqn:E.
  - intros [= ->] Hm. by rewrite (IH _ Hos eq_refl Hm).
  - intros [= ->] Hm. apply last_None in E as ->. injection Hos as <-. simpl. congruence.
Qed.

Lemma obs_of_head msgs os m o :
  mapM obs_of msgs = Ok os → head msgs = Some m → obs_of m = Ok o → head os = Some o.
Proof.
  destruct msgs as [|m0 msgs]; simpl; [done|].
  intros (o0 & Ho & (os' & Hos & [= <-])%result_bind_Ok)%result_bind_Ok [= ->] Hm.
  simpl. congruence.
Qed.

(** One track's share of a batch, whatever its outcome. *)
Lemma get_state_ok key msgs s r s' :
  sm_inv s → released_over s →
  get_object_trip_state_and_message np_sum cfg key msgs s = (r, s') →
  step_ok s s' ∧ (∀ st trip m, r = Ok (Some (st, trip, m)) →
    dget (state s') key = Some st ∧ os_id st = key).
Proof.
  intros Hinv Hrel. unfold get_object_trip_state_and_message.
  assert (step_ok s s) as Hid by (split_and!; eauto using advances_refl).
  destruct msgs as [|m0 msgs0]; [by intros [= <- <-]|].
  set (msgs := m0 :: msgs0). set (mtl := _ - 1).
  case_match; [by intros [= <- <-]|].
  destruct (split_messages _ _ _) as [[in_order in_tol]|e] eqn:Esp; [|by intros [= <- <-]].
  destruct (head in_order) as [mf|] eqn:Eh; [|by intros [= <- <-]].
  destruct (last in_order) as [ml|] eqn:El; [|by intros [= <- <-]].
  destruct (mapM obs_of in_order) as [os|] eqn:Eos; [|by intros [= <- <-]].
  destruct (mapM (embedding_of cfg) _) as [embs|]; [|by intros [= <- <-]].
  destruct (mapM obs_of in_tol) as [tol|] eqn:Etol; [|by intros [= <- <-]].
  destruct (obs_of mf) as [of1|] eqn:Eof; [|by intros [= <- <-]].
  destruct (obs_of ml) as [ol|] eqn:Eol; [|by intros [= <- <-]].
  destruct (split_messages_spec _ _ _ _ _ (filter_by_time_sorted cfg msgs) Esp)
    as (Hsort & Hgt & _).
  pose proof (obs_of_head _ _ _ _ Eos Eh Eof) as Hh.
  pose proof (obs_of_last _ _ _ _ Eos El Eol) as Hl.
  rewrite <-(mapM_obs_ts _ _ Eos) in Hsort.
  pose proof (new_object_state_inv key os of1 ol mtl Hsort Hh Hl) as Hns.
  assert (∀ o, dget (state s) key = Some o → Forall (λ t, os_end o < t) (obs_ts <$> os)) as Hgt'.
  { intros o Ho. eapply (mapM_obs_Forall (λ t, os_end o < t)); [exact Eos|]. eauto. }
  assert (∀ o, dget (state s) key = Some o → os_end o < obs_ts of1) as Hlt.
  { intros o Ho. specialize (Hgt' o Ho). destruct os as [|o1 os1]; [done|].
    injection Hh as ->. by inversion Hgt'. }
  unfold advance_track. set (ns := new_object_state _ _ _ _ _) in *.
  assert (∀ old r s', dget (state s) key = old →
    (st ← start_new np_sum cfg key old ns (omap id embs);
     mret (Some (st, st, ml))) s = (r, s') →
    step_ok s s' ∧ (∀ st trip m, r = Ok (Some (st, trip, m)) →
      dget (state s') key = Some st ∧ os_id st = key)) as Hfresh.
  { intros old r1 s1 Hold. unfold mbind, stM_bind.
    destruct (start_new _ _ _ _ _ _ _) as [rr s2] eqn:E.
    apply start_new_ok in E as [Hok Hst]; [|try done..]; [|by rewrite <-Hold in *; eauto].
    destruct rr as [st|e]; intros [= <- <-]; (split; [done|]); [|done].
    intros ? ? ? [= <- _ _]. eauto. }
  destruct (dget (state s) key) as [st|] eqn:Est; [|by apply Hfresh].
  case_match; [|by apply Hfresh].
  destruct (update_existing _ _ _ _ _ _ _ _ _) as [ru st'] eqn:Eu.
  destruct (inv_tracks _ Hinv _ _ Est) as [Hidst Htr].
  apply update_existing_inv in Eu as (Htr' & Hid' & Hstart & Hend'); try done.
  2: by apply Hgt'.
  2: { destruct Hns as (_ & raw & Hr1 & Hr2). simpl. clear -Hsort Hl.
       apply last_Some in Hl as [l' ->]. rewrite fmap_app in *.
       apply Forall_app. split; [|by repeat constructor].
       apply Forall_forall. intros t Ht.
       eapply StronglySorted_app_1_elem_of; [exact Hsort|done|by left]. }
  2: { eapply mapM_obs_Forall; [exact Etol|]. simpl in Esp.
       destruct (td_float _); [|done]. injection Esp as <- <-.
       apply Forall_forall. by intros m [[? _] _]%list_elem_of_filter. }
  2: { specialize (Hlt _ eq_refl). destruct Hns as [? _]. simpl in *. lia. }
  intros [= <- <-]. split.
  - apply (put_track_ok s key st' (behavior_holdback s)); try done.
    + congruence.
    + apply Hinv.
    + intros o Ho. simplify_eq. lia.
    + intros k' b Hb. split; [done|]. intros ->.
      destruct (inv_pending _ Hinv _ _ Hb) as (o' & Ho' & ?). simplify_eq. lia.
    + intros b Hb Hk. destruct (Hrel b Hb) as [_ Hover]. rewrite Hstart.
      apply Hover. congruence.
  - intros st2 trip m. destruct ru; [|done]. intros [= <- _ _]. simpl.
    rewrite dget_dset_eq. split; [done|congruence].
Qed.
End tracks.

(** ** Lemmas: one batch *)
Section batch.
  Context {T : Type} (np_sum : vec → float) (derive : Trajectory → T).
  Context (cfg : BehaviorConfig) (sensor_map : dict string SensorInfo).
  Implicit Types (s : StateMgmt (T:=T)) (b : Schema.Behavior T).

(** [b] describes the stored track it names, as far as it has come. *)
Definition describes s b : Prop :=
  ∃ st, dget (state s) (be_id b) = Some st ∧ be_end b ≤ os_end st.

Lemma describes_advances s s' b : advances s s' → describes s b → describes s' b.
Proof.
  intros Ha (st & Hst & ?). destruct (Ha _ _ Hst) as (st' & ? & ?).
  exists st'. split; [done|lia].
Qed.

(** The part of the invariant that a change of clock does not touch. *)
Definition batch_inv s : Prop := sm_inv s ∧ released_over s.

Lemma batch_inv_clock s c : batch_inv s → batch_inv (set_clock c s).
Proof. intros [[] ?]. split; [by constructor|done]. Qed.

Lemma process_key_ok key msgs s r s' :
  batch_inv s → process_key np_sum derive cfg sensor_map key msgs s = (r, s') →
  batch_inv s' ∧ advances s s' ∧
  sensor_latest_timestamp s' = foldl update_clock (sensor_latest_timestamp s) msgs ∧
  (∀ b tb, r = Ok (Some b, tb) → be_id b = key ∧ describes s' b).
Proof.
  intros Hinv. unfold process_key, mbind, stM_bind, update_sensor_latest_timestamp, smod.
  set (s1 := set_clock _ s).
  assert (batch_inv s1) as [H1 H2] by by apply batch_inv_clock.
  assert (advances s s1) as Ha1 by exact (advances_refl s).
  destruct (get_object_trip_state_and_message _ _ _ _ _) as [rr s2] eqn:E.
  apply get_state_ok in E as [(Hi & Hr & Ha & Hc) Hst]; [|done..].
  assert (advances s s2) as Ha2 by exact (advances_trans _ _ _ Ha1 Ha).
  destruct rr as [[[[st tst] m]|]|e]; [|by intros [= <- <-]..].
  destruct (Hst _ _ _ eq_refl) as [Hget Hid].
  assert (∀ b, get_behavior derive st (create_trajectory st) m = Ok b →
    be_id b = key ∧ describes s2 b) as Hb.
  { intros b. unfold get_behavior. case_match; [|done]. intros [= <-]. simpl.
    split; [done|]. exists st. simpl. rewrite Hid. split; [done|lia]. }
  unfold slift. destruct (get_behavior _ _ _ _) as [b|e]; [|by intros [= <- <-]].
  destruct (build_trip_behavior _ _ _ _) as [tb|e]; intros [= <- <-]; [|done].
  split_and!; try done. intros b1 tb1 [= <- _]. by apply Hb.
Qed.

Lemma process_keys_ok d s r s' :
  batch_inv s → process_keys np_sum derive cfg sensor_map d s = (r, s') →
  batch_inv s' ∧ advances s s' ∧
  (∀ bs tbs, r = Ok (bs, tbs) →
     sensor_latest_timestamp s' =
       foldl update_clock (sensor_latest_timestamp s) (concat (dvals d)) ∧
     be_id <$> bs `sublist_of` dkeys d ∧ Forall (describes s') bs).
Proof.
  revert s r s'. induction d as [|[key msgs] d IH]; intros s r s' Hinv; simpl.
  { intros [= <- <-]. split_and!; [apply Hinv..|apply advances_refl|].
    intros ? ? [= <- <-]. split_and!; [done| |done]. constructor. }
  unfold mbind, stM_bind.
  destruct (process_key _ _ _ _ _ _ _) as [r1 s1] eqn:E1.
  apply process_key_ok in E1 as (Hi1 & Ha1 & Hc1 & Hb1); [|done].
  destruct r1 as [[ob otb]|e]; [|by intros [= <- <-]].
  destruct (process_keys _ _ _ _ _ _) as [r2 s2] eqn:E2.
  apply IH in E2 as (Hi2 & Ha2 & Hb2); [|done].
  assert (advances s s2) as Ha by exact (advances_trans _ _ _ Ha1 Ha2).
  destruct r2 as [[bs tbs]|e]; intros [= <- <-]; [|done]. split_and!; [apply Hi2..|done|].
  intros ? ? [= <- <-]. destruct (Hb2 _ _ eq_refl) as (Hc2 & Hsub & Hall).
  split_and!.
  - rewrite Hc2, Hc1. unfold dvals; csimpl. by rewrite foldl_app.
  - unfold dkeys in *; csimpl. destruct ob as [b|]; csimpl.
    + destruct (Hb1 _ _ eq_refl) as [-> _]. by constructor.
    + by apply sublist_cons.
  - destruct ob as [b|]; csimpl; [|done]. constructor; [|done].
    destruct (Hb1 _ _ eq_refl) as [_ Hd]. exact (describes_advances _ _ _ Ha2 Hd).
Qed.

Lemma foldl_retain_sub (bs : list (Schema.Behavior T)) d k b :
  dget (foldl (λ d b, dset d (be_id b) b) d bs) k = Some b →
  dget d k = Some b ∨ (b ∈ bs ∧ be_id b = k).
Proof.
  revert d. induction bs as [|b1 bs IH]; intros d; simpl; [auto|].
  intros [H|[H ?]]%IH; [|right; split; [by right|done]].
  rewrite dget_dset in H. case_decide; simplify_eq; [right; split; [by left|done]|by left].
Qed.

Lemma retain_active_ok bs s :
  batch_inv s → Forall (describes s) bs →
  batch_inv (set_holdback (retain bs (behavior_holdback s)) s).
Proof.
  intros [[H1 H2 H3 H4] Hrel] Hall. split; [|done].
  constructor; simpl; [done|done|by apply retain_wf|].
  intros k b [Hb|[Hin <-]]%foldl_retain_sub; [by apply H4|].
  rewrite Forall_forall in Hall. by destruct (Hall _ Hin) as (st & ? & ?); eauto.
Qed.

(** After the sweep a released behavior's track may be gone altogether. *)
Definition swept_inv s : Prop :=
  sm_inv s ∧ ∀ b, b ∈ ended (behavior_holdback s) → track_over s b.

Lemma end_if_inactive_ok s k : swept_inv s → swept_inv (end_if_inactive cfg s k).
Proof.
  intros [[H1 H2 H3 H4] Hov]. unfold end_if_inactive.
  destruct (dget (state s) k) as [st|] eqn:E; [|done]. case_match; [|done].
  split.
  - constructor; simpl; [by apply dict_wf_ddel| |by apply end_track_wf|].
    + intros k' st'. rewrite dget_ddel. case_decide; [done|apply H2].
    + intros k' b Hb.
      assert (k' ∈ dkeys (pending (end_track k (behavior_holdback s)))) as Hk.
      { apply dget_is_Some. by eexists. }
      apply end_track_keys in Hk as [_ Hne]. rewrite dget_ddel_ne by done.
      apply H4. unfold end_track in Hb. case_match; [|done].
      simpl in Hb. by rewrite dget_ddel_ne in Hb.
  - intros b Hb st'. simpl. rewrite dget_ddel. case_decide as Hk; [done|].
    simpl in Hb. apply end_track_ended in Hb as [Hb|Hb]; [by apply Hov|].
    by apply (proj2 H3) in Hb.
Qed.

Lemma end_if_inactive_clock s k :
  sensor_latest_timestamp (end_if_inactive cfg s k) = sensor_latest_timestamp s.
Proof. unfold end_if_inactive. by repeat case_match. Qed.

Lemma end_if_inactive_get s k k' :
  dget (state (end_if_inactive cfg s k)) k' =
    match dget (state s) k' with
    | Some st => if decide (k = k') then
                   if is_inactive cfg (sensor_latest_timestamp s) k' st then None else Some st
                 else Some st
    | None => None
    end.
Proof.
  unfold end_if_inactive. destruct (decide (k = k')) as [<-|Hne].
  - destruct (dget (state s) k) as [st|] eqn:E; [|by rewrite E].
    destruct (is_inactive _ _ k st); simpl; [apply dget_ddel_eq|done].
  - trans (dget (state s) k'); [|by destruct (dget (state s) k')].
    repeat case_match; try done. simpl. by rewrite dget_ddel_ne.
Qed.

Lemma sweep_fold_ok ks s :
  swept_inv s →
  let s' := foldl (end_if_inactive cfg) s ks in
  swept_inv s' ∧ sensor_latest_timestamp s' = sensor_latest_timestamp s ∧
  (∀ k, dget (state s') k =
     match dget (state s) k with
     | Some st => if decide (k ∈ ks) then
                    if is_inactive cfg (sensor_latest_timestamp s) k st then None else Some st
                  else Some st
     | None => None
     end).
Proof.
  revert s. induction ks as [|k0 ks IH]; intros s Hs; simpl.
  { split_and!; [apply Hs..|done|]. intros k. by repeat case_match. }
  destruct (IH (end_if_inactive cfg s k0) (end_if_inactive_ok _ _ Hs)) as (H1 & H2 & H3).
  split_and!; [apply H1..|by rewrite H2, end_if_inactive_clock|].
  intros k. rewrite H3, end_if_inactive_get, end_if_inactive_clock.
  destruct (dget (state s) k) as [st|]; [|done].
  destruct (is_inactive _ _ _ _) eqn:Hi;
    destruct (decide (k0 = k)), (decide (k ∈ ks)), (decide (k ∈ k0 :: ks)) as [Hin|Hin];
    rewrite ?Hi; try done; exfalso; revert Hin; rewrite elem_of_cons; naive_solver.
Qed.

(** The sweep removes exactly the inactive tracks. *)
Lemma end_inactive_ok s :
  swept_inv s →
  let s' := foldl (end_if_inactive cfg) s (dkeys (state s)) in
  swept_inv s' ∧ sensor_latest_timestamp s' = sensor_latest_timestamp s ∧
  (∀ k, dget (state s') k =
     match dget (state s) k with
     | Some st => if is_inactive cfg (sensor_latest_timestamp s) k st then None else Some st
     | None => None
     end).
Proof.
  intros Hs. destruct (sweep_fold_ok (dkeys (state s)) s Hs) as (H1 & H2 & H3).
  split_and!; [apply H1..|done|]. intros k. rewrite H3.
  destruct (dget (state s) k) as [st|] eqn:E; [|done].
  rewrite decide_True; [done|]. apply dget_is_Some. by eexists.
Qed.

Lemma end_if_inactive_held s k :
  sm_inv s →
  (∀ k', k' ∈ be_id <$> held (behavior_holdback s) ↔
         k' ∈ be_id <$> held (behavior_holdback (end_if_inactive cfg s k))).
Proof.
  intros Hs k'. unfold end_if_inactive. repeat case_match; [|done..]. simpl.
  by rewrite (end_track_held _ _ (inv_holdback _ Hs)).
Qed.

Lemma sweep_fold_held ks s :
  swept_inv s →
  ∀ k', k' ∈ be_id <$> held (behavior_holdback s) ↔
        k' ∈ be_id <$> held (behavior_holdback (foldl (end_if_inactive cfg) s ks)).
Proof.
  revert s. induction ks as [|k ks IH]; intros s Hs k'; simpl; [done|].
  rewrite <-IH by by apply end_if_inactive_ok. apply end_if_inactive_held, Hs.
Qed.

Lemma held_keys h k :
  holdback_wf h → k ∈ be_id <$> held (T:=T) h ↔ k ∈ be_id <$> ended h ∨ k ∈ dkeys (pending h).
Proof.
  intros [Hwf Hid]. unfold held. rewrite fmap_app, elem_of_app. f_equiv.
  rewrite list_elem_of_fmap. split.
  - intros (b & -> & [k' Hin]%dvals_elem). pose proof (elem_dget _ _ _ Hwf Hin) as Hg.
    rewrite (Hid _ _ Hg). apply dget_is_Some. by eexists.
  - intros [b Hb]%dget_is_Some. exists b. split; [by rewrite (Hid _ _ Hb)|].
    apply dvals_elem. exists k. by apply dget_elem.
Qed.
End batch.

(** ** Lemmas: custody across a batch *)
Section custody.
  Context {T : Type} (np_sum : vec → float) (derive : Trajectory → T).
  Context (cfg : BehaviorConfig) (sensor_map : dict string SensorInfo).
  Implicit Types (s : StateMgmt (T:=T)) (b : Schema.Behavior T).

Lemma start_new_holdback key old ns embs s r s' :
  start_new np_sum cfg key old ns embs s = (r, s') →
  behavior_holdback s' = behavior_holdback s ∨
  behavior_holdback s' = end_track key (behavior_holdback s).
Proof.
  unfold start_new. destruct (update_object_state_model _ _ _ _). intros [= _ <-].
  destruct old; [by right|by left].
Qed.

Lemma get_state_holdback key msgs s r s' :
  get_object_trip_state_and_message np_sum cfg key msgs s = (r, s') →
  behavior_holdback s' = behavior_holdback s ∨
  behavior_holdback s' = end_track key (behavior_holdback s).
Proof.
  unfold get_object_trip_state_and_message.
  repeat (case_match; try (intros [= _ <-]; by left)). unfold advance_track.
  assert (∀ old ns embs (m : Message) (r : result (option (ObjectState * ObjectState * Message))) s',
    (st ← start_new np_sum cfg key old ns embs; mret (Some (st, st, m))) s = (r, s') →
    behavior_holdback s' = behavior_holdback s ∨
    behavior_holdback s' = end_track key (behavior_holdback s)) as Hf.
  { intros old ns embs mm r1 s1. unfold mbind, stM_bind.
    destruct (start_new _ _ _ _ _ _ _) as [[st|e] s2] eqn:E;
      apply start_new_holdback in E; by intros [= _ <-]. }
  case_match; [|by apply Hf]. case_match; [|by apply Hf].
  case_match. intros [= _ <-]. by left.
Qed.

Lemma process_keys_held d s r s' :
  batch_inv s → process_keys np_sum derive cfg sensor_map d s = (r, s') →
  held (behavior_holdback s') ≡ₚ held (behavior_holdback s).
Proof.
  revert s r s'. induction d as [|[key msgs] d IH]; intros s r s' Hinv; simpl.
  { by intros [= _ <-]. }
  unfold mbind, stM_bind at 1.
  destruct (process_key _ _ _ _ _ _ _) as [r1 s1] eqn:E1.
  assert (held (behavior_holdback s1) ≡ₚ held (behavior_holdback s)) as H1.
  { revert E1. unfold process_key, mbind, stM_bind, update_sensor_latest_timestamp, smod.
    destruct (get_object_trip_state_and_message _ _ _ _ _) as [rr s2] eqn:E.
    apply get_state_holdback in E. simpl in E.
    assert (held (behavior_holdback s2) ≡ₚ held (behavior_holdback s)) as Hh.
    { destruct E as [->| ->]; [done|]. by apply end_track_held, Hinv. }
    unfold slift. intros H.
    repeat case_match; unfold mret, stM_ret in *; simplify_eq; exact Hh. }
  apply process_key_ok in E1 as (Hi1 & _); [|done].
  destruct r1 as [rr|e]; [|by intros [= _ <-]].
  unfold stM_bind. destruct (process_keys _ _ _ _ _ _) as [r2 s2] eqn:E2.
  apply IH in E2; [|done]. destruct r2; intros [= _ <-]; by rewrite E2.
Qed.

(** A completed batch: its keys, then the sweep, then the emission policy. *)
Lemma process_batch_Ok d s out s' :
  process_batch np_sum derive cfg sensor_map d s = (Ok out, s') ↔
  ∃ bs tbs s1, process_keys np_sum derive cfg sensor_map d s = (Ok (bs, tbs), s1) ∧
    let s2 := if behavior_emit_once cfg
              then set_holdback (retain bs (behavior_holdback s1)) s1 else s1 in
    let s3 := foldl (end_if_inactive cfg) s2 (dkeys (state s2)) in
    out = mk_BehaviorBatch bs tbs
      (if behavior_emit_once cfg then ended (behavior_holdback s3)
       else filter (λ b, be_id b ∉ be_id <$> bs) (held (behavior_holdback s3)) ++ bs) ∧
    s' = set_holdback
      (if behavior_emit_once cfg then mk_Holdback (pending (behavior_holdback s3)) []
       else new_Holdback) s3.
Proof.
  unfold process_batch. rewrite stM_bind_Ok. split.
  - intros ([bs tbs] & s1 & -> & H). exists bs, tbs, s1. split; [done|]. revert H.
    unfold mbind, stM_bind, retain_active, end_inactive_behaviors, smod, collect_ended,
      carry_over_held_behaviors.
    destruct (behavior_emit_once cfg); simpl; [by intros [= <- <-]|].
    set (s3 := foldl _ _ _).
    destruct (bool_decide (pending (behavior_holdback s3) = [])) eqn:Ep,
      (bool_decide (ended (behavior_holdback s3) = [])) eqn:Ee; simpl;
      intros [= <- <-]; split; try done.
    + apply bool_decide_eq_true in Ep, Ee. unfold held. by rewrite Ep, Ee.
    + apply bool_decide_eq_true in Ep, Ee. destruct s3 as [? ? [? ?]]; simpl in *.
      by rewrite Ep, Ee.
  - intros (bs & tbs & s1 & H & Hout & Hs'). exists (bs, tbs), s1. split; [done|].
    unfold mbind, stM_bind, retain_active, end_inactive_behaviors, smod, collect_ended,
      carry_over_held_behaviors in *.
    destruct (behavior_emit_once cfg); simpl; simpl in Hout, Hs'; [by subst|].
    set (s3 := foldl _ _ _) in *.
    destruct (bool_decide (pending (behavior_holdback s3) = [])) eqn:Ep,
      (bool_decide (ended (behavior_holdback s3) = [])) eqn:Ee; simpl; subst; try done.
    apply bool_decide_eq_true in Ep, Ee. destruct s3 as [? ? [? ?]]; simpl in *.
    unfold held, set_holdback. simpl. by rewrite Ep, Ee.
Qed.

(** An interrupted batch stops in the key loop: nothing after it raises. *)
Lemma process_batch_Exn d s e s' :
  process_batch np_sum derive cfg sensor_map d s = (Exn e, s') →
  process_keys np_sum derive cfg sensor_map d s = (Exn e, s').
Proof.
  unfold process_batch, mbind, stM_bind, retain_active, end_inactive_behaviors, smod,
    collect_ended, carry_over_held_behaviors.
  destruct (process_keys _ _ _ _ _ _) as [[r|e'] s1]; [|by intros [= -> ->]].
  destruct (behavior_emit_once cfg); simpl; [done|].
  destruct (bool_decide _ && bool_decide _); done.
Qed.

Lemma batch_swept s : batch_inv s → swept_inv s.
Proof. intros [H1 H2]. split; [done|]. intros b Hb. by apply H2. Qed.

(** The state in which the sweep of a completed batch starts and the one it
    ends in. *)
Lemma sweep_of_batch d s bs tbs s1 :
  batch_inv s → process_keys np_sum derive cfg sensor_map d s = (Ok (bs, tbs), s1) →
  let s2 := if behavior_emit_once cfg
            then set_holdback (retain bs (behavior_holdback s1)) s1 else s1 in
  batch_inv s2 ∧ sensor_latest_timestamp s2 =
    foldl update_clock (sensor_latest_timestamp s) (concat (dvals d)) ∧
  swept_inv (foldl (end_if_inactive cfg) s2 (dkeys (state s2))).
Proof.
  intros Hinv E s2. apply process_keys_ok in E as (Hi & _ & Hr); [|done].
  destruct (Hr _ _ eq_refl) as (Hc & _ & Hd).
  assert (batch_inv s2) as H2.
  { unfold s2. case_match; [|done]. by apply retain_active_ok. }
  split_and!; [apply H2..|unfold s2; by case_match|].
  by apply end_inactive_ok, batch_swept.
Qed.

Lemma swept_drop s h :
  swept_inv s → ended h = [] → holdback_wf h →
  (∀ k b, dget (pending h) k = Some b → dget (pending (behavior_holdback s)) k = Some b) →
  batch_inv (set_holdback h s).
Proof.
  intros [[H1 H2 H3 H4] _] He Hwf Hp. split.
  - constructor; simpl; [done|done|done|]. eauto.
  - intros b. simpl. rewrite He. by intros ?%elem_of_nil.
Qed.

Lemma completed_batch_inv d s out s' :
  batch_inv s → process_batch np_sum derive cfg sensor_map d s = (Ok out, s') → batch_inv s'.
Proof.
  intros Hinv (bs & tbs & s1 & E & _ & ->)%process_batch_Ok.
  destruct (sweep_of_batch _ _ _ _ _ Hinv E) as (_ & _ & Hsw).
  pose proof (inv_holdback _ (proj1 Hsw)) as [Hw Hk].
  apply swept_drop; [done|by case_match| |]; case_match; try done.
  split; [constructor|done].
Qed.

Lemma interrupted_batch_inv d s e s' :
  batch_inv s → process_batch np_sum derive cfg sensor_map d s = (Exn e, s') → batch_inv s'.
Proof. intros Hinv E%process_batch_Exn. by apply process_keys_ok in E as [H _]. Qed.
End custody.
#[export] Hint Resolve completed_batch_inv interrupted_batch_inv : pylib.

(** ** Properties *)
Section properties.
  Context {T : Type} (np_sum : vec → float) (derive : Trajectory → T).
  Context (cfg : BehaviorConfig) (sensor_map : dict string SensorInfo).
  Implicit Types (s : StateMgmt (T:=T)) (b : Schema.Behavior T).

(** C1. Processing a batch preserves the state manager's invariant, whether the
    batch completes or an exception interrupts it: every track is filed once
    under its id with a series sampled from a chronological series ending no
    later than the track, a behavior is held back only for a live track and
    never ends after it, and a behavior awaiting release belongs to a track
    that was replaced by a later one. *)
Theorem process_batch_inv d s :
  batch_inv s → batch_inv (process_batch np_sum derive cfg sensor_map d s).2.
Proof.
  intros Hinv. destruct (process_batch _ _ _ _ _ _) as [[out|e] s'] eqn:E; eauto with pylib.
Qed.

(** After a completed batch no inactive track remains: each sensor's clock
    has advanced over the whole batch, and the tracks left in the state are
    those whose sensor is unknown to the clock or that ended less than
    [behavior_state_valid_interval] seconds before it. *)
Theorem process_batch_sweeps d s out s' :
  batch_inv s → process_batch np_sum derive cfg sensor_map d s = (Ok out, s') →
  sensor_latest_timestamp s' =
    foldl update_clock (sensor_latest_timestamp s) (concat (dvals d)) ∧
  (∀ k st, dget (state s') k = Some st →
     is_inactive cfg (sensor_latest_timestamp s') k st = false).
Proof.
  intros Hinv (bs & tbs & s1 & E & _ & ->)%process_batch_Ok.
  destruct (sweep_of_batch _ _ _ _ _ _ _ _ _ Hinv E) as (H2 & Hc & _).
  set (s2 := if behavior_emit_once cfg then _ else s1) in *.
  destruct (end_inactive_ok cfg s2 (batch_swept _ H2)) as (_ & Hc' & Hget). simpl.
  split; [congruence|]. intros k st. rewrite Hget, Hc'.
  destruct (dget (state s2) k); [|done]. destruct (is_inactive _ _ _ _) eqn:Ei; [done|].
  by intros [= <-].
Qed.

(** C2. With emit-once on, a completed batch writes only behaviors of tracks
    that are over (what is stored under their id, if anything, starts after
    they end), and loses none: every track that had a behavior in custody or
    produced one in this batch has one written or is still pending, and
    nothing released is left uncollected. *)
Theorem emit_once_written d s out s' :
  batch_inv s → behavior_emit_once cfg = true →
  process_batch np_sum derive cfg sensor_map d s = (Ok out, s') →
  Forall (track_over s') (behaviors_to_write out) ∧
  ended (behavior_holdback s') = [] ∧
  (∀ k, k ∈ be_id <$> held (behavior_holdback s) ∨ k ∈ be_id <$> active_behaviors out →
     k ∈ dkeys (pending (behavior_holdback s')) ∨ k ∈ be_id <$> behaviors_to_write out).
Proof.
  intros Hinv Hon (bs & tbs & s1 & E & -> & ->)%process_batch_Ok.
  pose proof (sweep_of_batch _ _ _ _ _ _ _ _ _ Hinv E) as (H2 & _ & Hsw).
  pose proof (process_keys_held _ _ _ _ _ _ _ _ Hinv E) as Hh.
  apply process_keys_ok in E as (H1 & _ & _); [|done].
  rewrite Hon in *. simpl in *. set (s2 := set_holdback _ s1) in *.
  set (s3 := foldl _ s2 _) in *. split_and!; [|done|].
  - apply Forall_forall. intros b Hb st. simpl. by apply Hsw.
  - intros k Hk.
    assert (k ∈ be_id <$> held (behavior_holdback s2)) as Hk2.
    { apply held_keys; [apply H2|]. unfold s2. simpl. rewrite <-Hh in Hk.
      rewrite held_keys in Hk by apply H1. rewrite (retain_keys (behavior_holdback s1) bs k).
      tauto. }
    apply (sweep_fold_held cfg (dkeys (state s2)) s2 (batch_swept _ H2)) in Hk2.
    apply held_keys in Hk2; [tauto|apply Hsw].
Qed.

(** With emit-once off, a completed batch writes every active behavior,
    preceded by the held ones of tracks without fresh output; afterwards
    nothing is held back, so a held behavior is written at most once and never
    after a fresher one of the same track. *)
Theorem emit_off_written d s out s' :
  batch_inv s → behavior_emit_once cfg = false →
  process_batch np_sum derive cfg sensor_map d s = (Ok out, s') →
  behavior_holdback s' = new_Holdback ∧
  ∃ carried, behaviors_to_write out = carried ++ active_behaviors out ∧
    Forall (λ b, be_id b ∉ be_id <$> active_behaviors out) carried ∧
    (∀ k, k ∈ be_id <$> held (behavior_holdback s) →
       k ∈ be_id <$> behaviors_to_write out).
Proof.
  intros Hinv Hoff (bs & tbs & s1 & E & -> & ->)%process_batch_Ok.
  pose proof (sweep_of_batch _ _ _ _ _ _ _ _ _ Hinv E) as (H2 & _ & Hsw).
  pose proof (process_keys_held _ _ _ _ _ _ _ _ Hinv E) as Hh.
  rewrite Hoff in *. simpl in *. split; [done|]. eexists; split_and!; [done| |].
  - apply Forall_forall. by intros b [? _]%list_elem_of_filter.
  - intros k Hk. rewrite <-Hh in Hk.
    apply (sweep_fold_held cfg (dkeys (state s1)) s1 (batch_swept _ H2)) in Hk.
    rewrite fmap_app, elem_of_app. destruct (decide (k ∈ be_id <$> bs)); [by right|left].
    apply list_elem_of_fmap in Hk as (b & -> & Hb). apply list_elem_of_fmap.
    exists b. split; [done|]. by apply list_elem_of_filter.
Qed.

(** Grouping a batch by track key keeps every message once, in arrival
    order, under its own key, and creates no empty group. *)
Theorem messages_to_map_groups (msgs : list Message) :
  dict_wf (messages_to_map msgs) ∧
  ∀ k, dget (messages_to_map msgs) k =
    match filter (λ m, message_key m = k) msgs with [] => None | l => Some l end.
Proof.
  induction msgs as [|m msgs [IH1 IH2]] using rev_ind; [split; [constructor|done]|].
  unfold messages_to_map in *. rewrite foldl_app. simpl. split; [by apply dict_wf_dset|].
  intros k. rewrite dget_dset, filter_app, IH2, filter_cons, filter_nil.
  destruct (decide (message_key m = k)) as [<-|]; [|by rewrite app_nil_r].
  by destruct (filter _ msgs).
Qed.

(** A sensor's clock is the latest timestamp seen from it, whatever the
    order in which its messages arrive. *)
Theorem update_clock_max (msgs : list Message) c sid :
  dget (foldl update_clock c msgs) sid =
    foldl (λ acc t, Some (Z.max (default t acc) t)) (dget c sid)
      (ms_timestamp <$> filter (λ m, se_id (ms_sensor m) = sid) msgs).
Proof.
  revert c. induction msgs as [|m msgs IH]; intros c; simpl; [done|].
  rewrite IH, filter_cons. unfold update_clock.
  destruct (decide (se_id (ms_sensor m) = sid)) as [<-|Hne]; csimpl.
  - f_equal. destruct (dget c _) as [t|] eqn:E; simpl; [|rewrite dget_dset_eq; f_equal; lia].
    case_match; bool_lia; rewrite ?dget_dset_eq, ?E; f_equal; lia.
  - f_equal. repeat case_match; by rewrite ?dget_dset_ne.
Qed.
End properties.

(** ** Witnesses: two tracks of one camera; the first falls silent *)
Definition cfg_ex (once : bool) : BehaviorConfig :=
  mk_BehaviorConfig once 2 60 0 100 (Z2f 1) (lit 9 1) f0 (λ _, 3).
Definition ob_ex (id : string) (x : Z) : Object :=
  mk_Object id "Person" (Z2f 1) (mk_Bbox f0 f0 f0 f0)
    (Some (mk_Embedding [Z2f 1; Z2f 0] [])) (mk_Coordinate (Z2f x) f0 f0) None [].
Definition ms_ex (t : Z) (id : string) (x : Z) : Message :=
  mk_Message (t * 1000000) (mk_Sensor "cam") (Some (ob_ex id x)) "hall" None "".
Definition batch1 : dict string (list Message) :=
  messages_to_map [ms_ex 1 "7" 0; ms_ex 2 "7" 1; ms_ex 2 "9" 5].
Definition batch2 : dict string (list Message) := messages_to_map [ms_ex 9 "9" 6].
Definition run_ex (once : bool) (ds : list (dict string (list Message)))
    (s : StateMgmt (T:=unit)) : StateMgmt (T:=unit) :=
  foldl (λ s d, (process_batch sum_left (λ _, tt) (cfg_ex once) [] d s).2) s ds.
Definition out_ex (once : bool) d (s : StateMgmt (T:=unit)) :=
  (process_batch sum_left (λ _, tt) (cfg_ex once) [] d s).1.

Lemma new_StateMgmt_inv T : batch_inv (new_StateMgmt (T:=T)).
Proof.
  split; [constructor; try done; [constructor|by split; [constructor|]]|].
  intros b Hb. by apply elem_of_nil in Hb.
Qed.

Example run_ex1 :
  dkeys (state (run_ex true [batch1] new_StateMgmt)) = ["cam #-# 7"; "cam #-# 9"].
Proof. vm_compute. reflexivity. Qed.
Example run_ex2 :
  dkeys (state (run_ex true [batch1; batch2] new_StateMgmt)) = ["cam #-# 9"] ∧
  (be_id <$> match out_ex true batch2 (run_ex true [batch1] new_StateMgmt) with
             | Ok o => behaviors_to_write o | Exn _ => [] end) = ["cam #-# 9"; "cam #-# 7"].
Proof. split; vm_compute; reflexivity. Qed.

Lemma process_batch_inv_witness :
  batch_inv (process_batch sum_left (λ _, tt) (cfg_ex true) [] batch1 new_StateMgmt).2.
Proof. apply process_batch_inv, new_StateMgmt_inv. Defined.

Lemma run_ex_inv once ds : batch_inv (run_ex once ds new_StateMgmt).
Proof.
  unfold run_ex. generalize (new_StateMgmt_inv unit). generalize (new_StateMgmt (T:=unit)).
  induction ds as [|d ds IH]; intros s Hs; simpl; [done|]. apply IH.
  destruct (process_batch _ _ _ _ _ _) as [[out|e] s'] eqn:E; eauto with pylib.
Qed.

Definition result_out {A} (d : A) (r : result A) : A := match r with Ok a => a | Exn _ => d end.
Definition out2 (once : bool) : BehaviorBatch (T:=unit) :=
  result_out (mk_BehaviorBatch [] [] []) (out_ex once batch2 (run_ex once [batch1] new_StateMgmt)).

Definition s2_ex : StateMgmt (T:=unit) := run_ex true [batch1; batch2] new_StateMgmt.
Definition st9_ex : ObjectState :=
  default (st_of []) (dget (state s2_ex) "cam #-# 9").

Lemma process_batch_sweeps_witness :
  is_inactive (cfg_ex true) (sensor_latest_timestamp s2_ex) "cam #-# 9" st9_ex = false.
Proof.
  apply (process_batch_sweeps sum_left (λ _, tt) (cfg_ex true) [] batch2
    (run_ex true [batch1] new_StateMgmt) (out2 true)).
  - apply run_ex_inv.
  - vm_compute. reflexivity.
  - vm_compute. reflexivity.
Defined.

Lemma emit_once_written_witness :
  Forall (track_over (run_ex true [batch1; batch2] new_StateMgmt))
    (behaviors_to_write (out2 true)).
Proof.
  apply (emit_once_written sum_left (λ _, tt) (cfg_ex true) [] batch2
    (run_ex true [batch1] new_StateMgmt) (out2 true)).
  - apply run_ex_inv.
  - reflexivity.
  - vm_compute. reflexivity.
Defined.

Lemma emit_off_written_witness :
  behavior_holdback (run_ex false [batch1; batch2] new_StateMgmt) = new_Holdback.
Proof.
  apply (emit_off_written sum_left (λ _, tt) (cfg_ex false) [] batch2
    (run_ex false [batch1] new_StateMgmt) (out2 false)).
  - apply run_ex_inv.
  - reflexivity.
  - vm_compute. reflexivity.
Defined.
