(* ===== verification/FrameState.v ===== *)
(** * Frame history and violation incidents per sensor

    [stream/state/frame/frame_state_management.py] ([class FrameStateMgmt])
    and [str_to_bool] of [utils/util.py]. A batch of frames of one sensor
    extends its bounded frame history and folds each frame's violations into
    open [IncidentState]s; a violation silent for longer than its expiration
    window is completed and queued; incidents are reported from the open
    violations (once per new end time) and from the queue (once).

    An open violation is one shared object in the code, reachable only through
    its entry of the sensor's [FrameState]; entries are rewritten here. The
    protobuf library's [Timestamp.ToDatetime] is the parameter [ToDatetime].
    Protobuf submessages are always truthy, so [frame.socialDistancing] guards
    nothing. *)

From Stdlib Require Import ZArith Lia Permutation Sorting.
From stdpp Require Import base list strings sorting relations.
From S2P Require Import Prelude PyDict PyFloat PyText Schema.
Open Scope Z_scope.

Record FrameConfig := mk_FrameConfig {
  fc_water_mark : Z;
  fc_time_threshold : datetime;
  fc_min_frames : string → Z;
  incident_object_ttl : float;
  incident_enable : IncidentCategory → bool;
  incident_threshold : IncidentCategory → float;
  incident_expiration_window : IncidentCategory → float;
  fov_object_threshold : Z;
  fov_object_type : string;
}.

Definition nonempty {A} (l : list A) : bool := match l with [] => false | _ => true end.

(** [str_to_bool] *)
Definition str_to_bool (s : string) : bool := String.eqb (py_lower s) "true".

(** Attribute assignments on a [FrameState]. *)
Definition set_fs_frames (v : list Frame) (f : FrameState) : FrameState :=
  mk_FrameState (fs_id f) v (fs_safety f) (fs_restricted f) (fs_confined f) (fs_fov f)
    (fs_amr_states f) (fs_roi_states f).
Definition set_fs_safety (v : dict string IncidentState) (f : FrameState) : FrameState :=
  mk_FrameState (fs_id f) (fs_last_x_frames f) v (fs_restricted f) (fs_confined f)
    (fs_fov f) (fs_amr_states f) (fs_roi_states f).
Definition set_fs_restricted (v : dict string IncidentState) (f : FrameState) : FrameState :=
  mk_FrameState (fs_id f) (fs_last_x_frames f) (fs_safety f) v (fs_confined f)
    (fs_fov f) (fs_amr_states f) (fs_roi_states f).
Definition set_fs_confined (v : dict string IncidentState) (f : FrameState) : FrameState :=
  mk_FrameState (fs_id f) (fs_last_x_frames f) (fs_safety f) (fs_restricted f) v
    (fs_fov f) (fs_amr_states f) (fs_roi_states f).
Definition set_fs_fov (v : option IncidentState) (f : FrameState) : FrameState :=
  mk_FrameState (fs_id f) (fs_last_x_frames f) (fs_safety f) (fs_restricted f)
    (fs_confined f) v (fs_amr_states f) (fs_roi_states f).

(** The open violations of a category as a dict; the single field-of-view
    violation is the one-entry dict the code wraps it in. *)
Definition violations (sensor_id : string) (c : IncidentCategory) (f : FrameState)
    : dict string IncidentState :=
  match c with
  | PROXIMITY_VIOLATION => fs_safety f
  | RESTRICTED_AREA_VIOLATION => fs_restricted f
  | CONFINED_AREA_VIOLATION => fs_confined f
  | FOV_COUNT_VIOLATION =>
      match fs_fov f with Some v => [(sensor_id, v)] | None => [] end
  end.
Definition set_violations (sensor_id : string) (c : IncidentCategory)
    (d : dict string IncidentState) (f : FrameState) : FrameState :=
  match c with
  | PROXIMITY_VIOLATION => set_fs_safety d f
  | RESTRICTED_AREA_VIOLATION => set_fs_restricted d f
  | CONFINED_AREA_VIOLATION => set_fs_confined d f
  | FOV_COUNT_VIOLATION => set_fs_fov (dget d sensor_id) f
  end.

Record FrameStateMgmt := mk_FrameStateMgmt {
  fm_state : dict string FrameState;
  completed_states : dict string (list IncidentState);
}.
Definition new_FrameStateMgmt : FrameStateMgmt := mk_FrameStateMgmt [] [].

(** ** [_merge_object_ids] *)
Definition merge_object_ids (existing_ids new_ids : list string) : result (list string) :=
  match existing_ids with
  | [] => Exn IndexError
  | primary_id :: _ =>
      Ok (primary_id ::
          sort_strings (filter (.≠ primary_id) (dedup (existing_ids ++ new_ids))))
  end.

Section frame_state.
  Context (ToDatetime : proto_ts → datetime) (cfg : FrameConfig).

Definition get_timestamp_from_proto_ts (t : proto_ts) : datetime := ToDatetime t.
Definition frame_time (f : Frame) : datetime := get_timestamp_from_proto_ts (fr_timestamp f).

(** ** [_update_object_state] *)

(** One more observation of an object: extend its last interval or open one. *)
Definition observe (window : float) (ts : datetime) (ivs : list interval) : list interval :=
  match last ivs with
  | Some i =>
      if fle (total_seconds (ts - iv_end i)) window
      then removelast ivs ++ [mk_interval (iv_start i) ts]
      else ivs ++ [mk_interval ts ts]
  | None => [mk_interval ts ts]
  end.

Definition fresh_intervals (cutoff : datetime) (ivs : list interval) : list interval :=
  filter (λ i, cutoff ≤ iv_end i) ivs.

Definition update_object_state (object_ids : list string) (ts : datetime) (window : float)
    : stM IncidentState unit :=
  λ st,
    match td_float (incident_object_ttl cfg) with
    | Exn e => (Exn e, st)
    | Ok ttl =>
        let cutoff := ts - ttl in
        let seen := foldl (λ d oid, dset d oid (observe window ts (default [] (dget d oid))))
                      (is_object_presence st) object_ids in
        let kept := dmap (fresh_intervals cutoff) seen in
        let stale := dkeys (filter (λ kv, nonempty kv.2 = false) kept) in
        (Ok tt,
         set_is_presence (filter (λ kv, nonempty kv.2 = true) kept)
           (if nonempty stale
            then set_is_object_ids (filter (.∉ stale) (is_object_ids st)) st else st))
    end.

(** ** [_process_violation_state] *)
Definition update_violation (object_ids : list string) (info : dict string info_val)
    (ts : datetime) (window : float) (track : bool) : stM IncidentState unit :=
  _ ← smod (set_is_end ts);
  st ← sget;
  ids ← (if track then slift (merge_object_ids (is_object_ids st) object_ids)
         else mret object_ids);
  _ ← smod (set_is_object_ids ids);
  _ ← smod (λ st, set_is_info (dupdate (is_info st) info) st);
  if track && nonempty object_ids then update_object_state object_ids ts window else mret tt.

Definition violation_id (sensor_id : string) (primary_object_id : option string) : string :=
  match primary_object_id with
  | None => sensor_id
  | Some p => sensor_id +:+ " #-# " +:+ p
  end.

Definition new_violation (sensor_id : string) (primary_object_id : option string)
    (object_ids : list string) (ts : datetime) (category : IncidentCategory)
    (info : dict string info_val) : IncidentState :=
  mk_IncidentState sensor_id (default EmptyString primary_object_id) object_ids [] ts ts
    category info.

Definition process_violation_state (sensor_id : string) (primary_object_id : option string)
    (object_ids : list string) (frame : Frame) (window : float) (category : IncidentCategory)
    (info : dict string info_val) (additional_validation : IncidentState → bool)
    (track : bool) : stM (dict string IncidentState) unit :=
  λ state_dict,
    let vid := violation_id sensor_id primary_object_id in
    let ts := frame_time frame in
    let new_state := new_violation sensor_id primary_object_id object_ids ts category info in
    let presence := if track && nonempty object_ids
                    then update_object_state object_ids ts window else mret tt in
    match presence new_state with
    | (Exn e, _) => (Exn e, state_dict)
    | (Ok _, new_state) =>
        match dget state_dict vid with
        | Some st =>
            if additional_validation st then
              let '(r, st') := update_violation object_ids info ts window track st in
              (r, dset state_dict vid st')
            else (Ok tt, dset state_dict vid new_state)
        | None => (Ok tt, dset state_dict vid new_state)
        end
    end.

Definition get_safety_violation_state (sensor_id object_ids : string) (frame : Frame)
    : stM (dict string IncidentState) unit :=
  if String.eqb object_ids EmptyString then mret tt
  else
    let object_id_list := py_split "," object_ids in
    match object_id_list with
    | [] | [_] => mret tt
    | primary :: _ =>
        process_violation_state sensor_id (Some primary) object_id_list frame
          (incident_expiration_window cfg PROXIMITY_VIOLATION) PROXIMITY_VIOLATION
          [] (λ _, true) true
    end.

Definition has_roi (roi_id : string) (st : IncidentState) : bool :=
  match dget (is_info st) "roiId" with
  | Some (IStr r) => String.eqb r roi_id
  | _ => false
  end.

Definition get_restricted_area_violation_state (sensor_id roi_id object_id : string)
    (frame : Frame) : stM (dict string IncidentState) unit :=
  if String.eqb roi_id EmptyString || String.eqb object_id EmptyString then mret tt
  else
    process_violation_state sensor_id (Some object_id) [object_id] frame
      (incident_expiration_window cfg RESTRICTED_AREA_VIOLATION) RESTRICTED_AREA_VIOLATION
      [("roiId", IStr roi_id)] (has_roi roi_id) false.

Definition get_confined_area_violation_state (sensor_id object_id : string) (frame : Frame)
    : stM (dict string IncidentState) unit :=
  if String.eqb object_id EmptyString then mret tt
  else
    process_violation_state sensor_id (Some object_id) [object_id] frame
      (incident_expiration_window cfg CONFINED_AREA_VIOLATION) CONFINED_AREA_VIOLATION
      [] (λ _, true) false.

(** On the dict [temp_dict] that holds the sensor's single violation. *)
Definition get_fov_count_violation_state (sensor_id : string) (frame : Frame)
    (fov_metric : TypeMetrics) : stM (dict string IncidentState) unit :=
  if tm_count fov_metric <? fov_object_threshold cfg then mret tt
  else
    process_violation_state sensor_id None (tm_objectIds fov_metric) frame
      (incident_expiration_window cfg FOV_COUNT_VIOLATION) FOV_COUNT_VIOLATION
      [] (λ _, true) true.

(** ** Completion *)
Definition mark_complete (st : IncidentState) : IncidentState :=
  set_is_info (dset (is_info st) "isComplete" (IStr "true")) st.

Definition expired (c : IncidentCategory) (now : datetime) (st : IncidentState) : bool :=
  flt (incident_expiration_window cfg c) (total_seconds (now - is_end st)).

(** [_complete_and_move_violations]: the violations left open, and the queue. *)
Definition complete_and_move (sensor_id : string) (c : IncidentCategory) (now : datetime)
    (vs : dict string IncidentState) (queue : dict string (list IncidentState))
    : dict string IncidentState * dict string (list IncidentState) :=
  let completed := dvals (filter (λ kv, expired c now kv.2 = true) vs) in
  (filter (λ kv, expired c now kv.2 = false) vs,
   if nonempty completed
   then dset queue sensor_id (default [] (dget queue sensor_id) ++ (mark_complete <$> completed))
   else queue).

(** A sensor's state with the completion queues, while its frames are processed. *)
Abbreviation work := (FrameState * dict string (list IncidentState))%type.

Definition complete_category (sensor_id : string) (now : datetime) (w : work)
    (c : IncidentCategory) : work :=
  let '(vs, queue) := complete_and_move sensor_id c now (violations sensor_id c w.1) w.2 in
  (set_violations sensor_id c vs w.1, queue).

Definition all_categories : list IncidentCategory :=
  [PROXIMITY_VIOLATION; RESTRICTED_AREA_VIOLATION; CONFINED_AREA_VIOLATION; FOV_COUNT_VIOLATION].

(** [_check_and_complete_violations] *)
Definition check_and_complete_violations (sensor_id : string) (now : datetime) (w : work)
    : work :=
  foldl (complete_category sensor_id now) w all_categories.

(** ** [update_frames] *)
Definition on_violations (sensor_id : string) (c : IncidentCategory)
    (m : stM (dict string IncidentState) unit) : stM work unit :=
  zoom (λ w, violations sensor_id c w.1) (λ d w, (set_violations sensor_id c d w.1, w.2)) m.

Definition when (b : bool) (m : stM work unit) : stM work unit := if b then m else mret tt.

Definition process_frame (sensor_id : string) (frame : Frame) : stM work unit :=
  _ ← smod (check_and_complete_violations sensor_id (frame_time frame));
  _ ← when (incident_enable cfg PROXIMITY_VIOLATION)
        (sfor (py_split "|" (default EmptyString
                 (dget (fr_socialDistancing frame) "proximityViolationObjects")))
           (λ object_ids, on_violations sensor_id PROXIMITY_VIOLATION
              (get_safety_violation_state sensor_id object_ids frame)));
  _ ← when (incident_enable cfg RESTRICTED_AREA_VIOLATION)
        (sfor (fr_rois frame) (λ roi,
           when (str_to_bool (default "false" (dget (tm_info roi) "restrictedAreaViolation")))
             (sfor (tm_objectIds roi) (λ object_id,
                on_violations sensor_id RESTRICTED_AREA_VIOLATION
                  (get_restricted_area_violation_state sensor_id (tm_id roi) object_id frame)))));
  _ ← when (incident_enable cfg CONFINED_AREA_VIOLATION)
        (sfor (py_split "|" (default EmptyString
                 (dget (fr_info frame) "confinedAreaViolationObjects")))
           (λ objects, sfor (py_split "," objects) (λ object_id,
              on_violations sensor_id CONFINED_AREA_VIOLATION
                (get_confined_area_violation_state sensor_id object_id frame))));
  when (incident_enable cfg FOV_COUNT_VIOLATION)
    (sfor (fr_fov frame) (λ fov_metric,
       when (String.eqb (tm_type fov_metric) (fov_object_type cfg))
         (on_violations sensor_id FOV_COUNT_VIOLATION
            (get_fov_count_violation_state sensor_id frame fov_metric)))).

Definition filter_frames (frames : list Frame) : list Frame :=
  let sorted_frames := sort_key frame_time frames in
  match last sorted_frames with
  | None => []
  | Some l =>
      let time_threshold := frame_time l - td_int (fc_water_mark cfg) in
      filter (λ f, time_threshold ≤ frame_time f ∧ fc_time_threshold cfg < frame_time f)
        sorted_frames
  end.

(** The sensor's new [FrameState]: the violations of the old one are carried
    over by reference, its AMR and ROI states are not. *)
Definition next_frame_state (sensor_id : string) (old : option FrameState)
    (filtered : list Frame) : FrameState :=
  let n := fc_min_frames cfg sensor_id in
  match old with
  | None => set_fs_frames (py_tail filtered n) (new_FrameState sensor_id)
  | Some o =>
      mk_FrameState sensor_id (py_tail (fs_last_x_frames o ++ filtered) n)
        (fs_safety o) (fs_restricted o) (fs_confined o) (fs_fov o) [] []
  end.

Definition update_frames (sensor_id : string) (frames : list Frame)
    : stM FrameStateMgmt unit :=
  λ s,
    if String.eqb sensor_id EmptyString || negb (nonempty frames) then (Ok tt, s)
    else
      match filter_frames frames with
      | [] => (Ok tt, s)
      | filtered =>
          let fs := next_frame_state sensor_id (dget (fm_state s) sensor_id) filtered in
          let '(r, (fs', queue)) :=
            sfor filtered (process_frame sensor_id) (fs, completed_states s) in
          (r, mk_FrameStateMgmt (dset (fm_state s) sensor_id fs') queue)
      end.

(** ** [get_state] *)
Inductive state_view :=
  | OneState (o : option FrameState)
  | AllStates (d : dict string FrameState).

Definition get_state (sensor_id : string) (s : FrameStateMgmt) : state_view :=
  if String.eqb sensor_id EmptyString then AllStates (fm_state s)
  else OneState (dget (fm_state s) sensor_id).

(** What the callers make of it: an empty result is falsy, and a non-empty
    dict has no violation attributes. *)
Definition frame_state_of (v : state_view) : result (option FrameState) :=
  match v with
  | OneState o => Ok o
  | AllStates [] => Ok None
  | AllStates (_ :: _) => Exn AttributeError
  end.

(** ** Incidents *)
Definition is_complete (st : IncidentState) : bool :=
  match dget (is_info st) "isComplete" with
  | Some (IStr v) => String.eqb v "true"
  | _ => false
  end.

Definition already_reported (st : IncidentState) : bool :=
  match dget (is_info st) "lastReportedEndTs" with
  | Some (IFloat x) => feq (timestamp_of (is_end st)) x
  | _ => false
  end.

Definition timeline_json (presence : dict string (list interval)) : json :=
  JDict (dmap (λ ivs, JList ((λ i, JDict
    [("start", JStr (convert_datetime_to_iso_8601_with_z_suffix (iv_start i)));
     ("end", JStr (convert_datetime_to_iso_8601_with_z_suffix (iv_end i)))]) <$> ivs)) presence).

Definition incident_info (st : IncidentState) : dict string info_val :=
  let i0 := if String.eqb (is_primary_object_id st) EmptyString then []
            else [("primaryObjectId", IStr (is_primary_object_id st))] in
  let i1 := dupdate i0 (filter (λ kv, kv.1 ≠ "lastReportedEndTs") (is_info st)) in
  if nonempty (is_object_presence st)
  then dset i1 "objectTimeline" (IStr (json_dumps (timeline_json (is_object_presence st))))
  else i1.

(** The [dict[str, str]] field of [Incident] rejects a value that is no string. *)
Definition str_value (kv : string * info_val) : result (string * string) :=
  match kv.2 with IStr s => Ok (kv.1, s) | IFloat _ => Exn ValueError end.

Definition make_incident (sensor_id : string) (last_x_frames : list Frame)
    (st : IncidentState) : result Incident :=
  info ← mapM str_value (incident_info st);
  Ok (mk_Incident (is_start st) (is_end st) sensor_id (is_object_ids st)
        (category_value (is_category st))
        (match last last_x_frames with
         | Some f => default EmptyString (dget (fr_info f) "place")
         | None => EmptyString
         end) info).

(** One iteration of [_get_violation_incidents]. *)
Definition report_violation (sensor_id : string) (threshold : float)
    (last_x_frames : list Frame) : stM IncidentState (option Incident) :=
  λ st,
    if fle threshold (is_time_interval st) then
      if negb (is_complete st) && already_reported st then (Ok None, st)
      else
        match make_incident sensor_id last_x_frames st with
        | Exn e => (Exn e, st)
        | Ok i =>
            (Ok (Some i),
             if is_complete st then st
             else set_is_info (dset (is_info st) "lastReportedEndTs"
                    (IFloat (timestamp_of (is_end st)))) st)
        end
    else (Ok None, st).

(** [_get_violation_incidents] *)
Fixpoint get_violation_incidents (sensor_id : string) (threshold : float)
    (last_x_frames : list Frame) (d : dict string IncidentState)
    : result (list Incident) * dict string IncidentState :=
  match d with
  | [] => (Ok [], [])
  | (k, st) :: d' =>
      match report_violation sensor_id threshold last_x_frames st with
      | (Exn e, st') => (Exn e, (k, st') :: d')
      | (Ok o, st') =>
          let '(r, d'') := get_violation_incidents sensor_id threshold last_x_frames d' in
          (match r with Ok l => Ok (option_list o ++ l) | Exn e => Exn e end, (k, st') :: d'')
      end
  end.

(** [get_proximity_violation_incidents] and its three siblings. *)
Definition get_category_incidents (c : IncidentCategory) (sensor_id : string)
    : stM FrameStateMgmt (list Incident) :=
  λ s,
    match frame_state_of (get_state sensor_id s) with
    | Exn e => (Exn e, s)
    | Ok None => (Ok [], s)
    | Ok (Some fs) =>
        let '(r, d) := get_violation_incidents sensor_id (incident_threshold cfg c)
                         (fs_last_x_frames fs) (violations sensor_id c fs) in
        (r, mk_FrameStateMgmt (dset (fm_state s) sensor_id (set_violations sensor_id c d fs))
              (completed_states s))
    end.
Definition get_proximity_violation_incidents := get_category_incidents PROXIMITY_VIOLATION.
Definition get_restricted_area_violation_incidents :=
  get_category_incidents RESTRICTED_AREA_VIOLATION.
Definition get_confined_area_violation_incidents :=
  get_category_incidents CONFINED_AREA_VIOLATION.
Definition get_fov_count_violation_incidents := get_category_incidents FOV_COUNT_VIOLATION.

(** [_get_completed_incidents]: the queue is updated before the reports, which
    are made on states nothing refers to any more. *)
Definition states_dict (c : IncidentCategory) (l : list IncidentState)
    : dict string IncidentState :=
  filter (λ kv, is_category kv.2 = c) (imap (λ i st, (str_Z (Z.of_nat i), st)) l).

Definition get_completed_incidents (sensor_id : string) (c : IncidentCategory)
    (threshold : float) (last_x_frames : list Frame) : stM FrameStateMgmt (list Incident) :=
  λ s,
    match dget (completed_states s) sensor_id with
    | None => (Ok [], s)
    | Some l =>
        let remaining := filter (λ st, is_category st ≠ c) l in
        let queue := if nonempty remaining then dset (completed_states s) sensor_id remaining
                     else ddel (completed_states s) sensor_id in
        ((get_violation_incidents sensor_id threshold last_x_frames (states_dict c l)).1,
         mk_FrameStateMgmt (fm_state s) queue)
    end.

(** [get_incidents]: open and completed violations, category by category. *)
Definition incidents_of (c : IncidentCategory) (sensor_id : string)
    (last_x_frames : list Frame) : stM FrameStateMgmt (list Incident) :=
  a ← get_category_incidents c sensor_id;
  b ← get_completed_incidents sensor_id c (incident_threshold cfg c) last_x_frames;
  mret (a ++ b).

Definition get_incidents (sensor_id : string) : stM FrameStateMgmt (list Incident) :=
  s ← sget;
  st ← slift (frame_state_of (get_state sensor_id s));
  let last_x_frames := match st with Some fs => fs_last_x_frames fs | None => [] end in
  safety ← incidents_of PROXIMITY_VIOLATION sensor_id last_x_frames;
  restricted ← incidents_of RESTRICTED_AREA_VIOLATION sensor_id last_x_frames;
  confined ← incidents_of CONFINED_AREA_VIOLATION sensor_id last_x_frames;
  fov ← incidents_of FOV_COUNT_VIOLATION sensor_id last_x_frames;
  mret (safety ++ restricted ++ confined ++ fov).
End frame_state.

(** ** The invariant *)

(** Only the internal tracking field of an incident's info holds a float. *)
Definition internal_only (info : dict string info_val) : Prop :=
  ∀ k x, (k, IFloat x) ∈ info → k = "lastReportedEndTs".

(** An open violation of category [c]. The list of a field-of-view violation
    is the frame's and may be empty. *)
Record open_ok (c : IncidentCategory) (st : IncidentState) : Prop := mk_open_ok {
  op_category : is_category st = c;
  op_open : dget (is_info st) "isComplete" = None;
  op_info : internal_only (is_info st);
  op_presence : dict_wf (is_object_presence st);
  op_ids : c ≠ FOV_COUNT_VIOLATION → is_object_ids st ≠ [];
}.

(** A completed violation, queued for reporting. *)
Record done_ok (st : IncidentState) : Prop := mk_done_ok {
  dn_complete : is_complete st = true;
  dn_info : internal_only (is_info st);
}.

Definition all_open (c : IncidentCategory) (d : dict string IncidentState) : Prop :=
  ∀ k st, (k, st) ∈ d → open_ok c st.

Definition queue_ok (queue : dict string (list IncidentState)) : Prop :=
  ∀ sensor l, dget queue sensor = Some l → l ≠ [] ∧ Forall done_ok l.

Definition work_inv (sensor_id : string) (w : FrameState * dict string (list IncidentState))
    : Prop :=
  (∀ c, all_open c (violations sensor_id c w.1)) ∧ queue_ok w.2.

Definition mgmt_inv (s : FrameStateMgmt) : Prop :=
  (∀ sensor fs c, dget (fm_state s) sensor = Some fs → all_open c (violations sensor c fs)) ∧
  queue_ok (completed_states s).

(** A configured time to live that is a duration. *)
Definition ttl_ok (cfg : FrameConfig) : Prop :=
  ∃ t, td_float (incident_object_ttl cfg) = Ok t ∧ 0 ≤ t.

(** ** Lemmas: violations *)

Lemma violations_set_sub sensor c c' d fs k st :
  (k, st) ∈ violations sensor c' (set_violations sensor c d fs) →
  (c = c' ∧ (k, st) ∈ d) ∨ (c ≠ c' ∧ (k, st) ∈ violations sensor c' fs).
Proof.
  destruct c, c'; simpl; try (by left); try (by right).
  destruct (dget d sensor) eqn:E; [|by intros ?%elem_of_nil].
  intros ?%list_elem_of_singleton. simplify_eq. left. split; [done|by apply dget_elem].
Qed.

Lemma all_open_dset c d k st : all_open c d → open_ok c st → all_open c (dset d k st).
Proof. intros Hd Hst k' st' [[-> ->]|H]%dset_elem_1; [done|by eapply Hd]. Qed.

Lemma all_open_get c d k st : all_open c d → dget d k = Some st → open_ok c st.
Proof. intros Hd H%dget_elem. by eapply Hd. Qed.

Lemma work_inv_set sensor c d fs queue :
  work_inv sensor (fs, queue) → all_open c d →
  work_inv sensor (set_violations sensor c d fs, queue).
Proof.
  intros [H1 H2] Hd. split; [|done]. intros c' k st Hin.
  apply violations_set_sub in Hin as [[<- ?]|[_ ?]]; [by eapply Hd|by eapply H1].
Qed.

Lemma internal_only_dset info k v :
  internal_only info → (∀ x, v = IFloat x → k = "lastReportedEndTs") →
  internal_only (dset info k v).
Proof. intros H Hv k' x [[-> Hx]|?]%dset_elem_1; [by eapply Hv|by eapply H]. Qed.

Lemma internal_only_dupdate info info2 :
  internal_only info → internal_only info2 → internal_only (dupdate info info2).
Proof. intros H1 H2 k x [?|?]%dupdate_elem_1; [by eapply H1|by eapply H2]. Qed.

Lemma internal_only_nil : internal_only [].
Proof. by intros k x ?%elem_of_nil. Qed.

(** Once observed, an object's presence ends with the current time. *)
Lemma observe_last window ts ivs : ∃ l i, observe window ts ivs = l ++ [i] ∧ iv_end i = ts.
Proof.
  unfold observe. repeat case_match; [by eexists _, _|by eexists _, _|].
  by exists [], (mk_interval ts ts).
Qed.

Definition seen_at (ts : datetime) (d : dict string (list interval)) (oid : string) : Prop :=
  ∃ ivs l i, dget d oid = Some ivs ∧ ivs = l ++ [i] ∧ iv_end i = ts.

Lemma seen_fold window ts ids d oid :
  oid ∈ ids ∨ seen_at ts d oid →
  seen_at ts (foldl (λ d oid, dset d oid (observe window ts (default [] (dget d oid)))) d ids) oid.
Proof.
  revert d. induction ids as [|o ids IH]; intros d H; simpl.
  { destruct H as [H|H]; [by apply elem_of_nil in H|done]. }
  apply IH. destruct (decide (o = oid)) as [->|Hne].
  - right. destruct (observe_last window ts (default [] (dget d oid))) as (l & i & -> & <-).
    exists (l ++ [i]), l, i. by rewrite dget_dset_eq.
  - destruct H as [[->|?]%elem_of_cons|(ivs & l & i & ? & ? & ?)]; [done|by left|right].
    exists ivs, l, i. by rewrite dget_dset_ne.
Qed.

Section lemmas.
  Context (ToDatetime : proto_ts → datetime) (cfg : FrameConfig).

Lemma update_object_state_ok ids ts window st r st' :
  ttl_ok cfg → dict_wf (is_object_presence st) →
  update_object_state cfg ids ts window st = (r, st') →
  r = Ok tt ∧ is_category st' = is_category st ∧ is_info st' = is_info st ∧
  is_start st' = is_start st ∧ is_end st' = is_end st ∧ dict_wf (is_object_presence st') ∧
  (∀ oid, oid ∈ ids → oid ∈ is_object_ids st → oid ∈ is_object_ids st').
Proof.
  intros (ttl & Httl & Hpos) Hwf. unfold update_object_state. rewrite Httl. intros [= <- <-].
  set (seen := foldl _ _ _). set (stale := dkeys _).
  assert (dict_wf (dmap (fresh_intervals (ts - ttl)) seen)) as Hwfk.
  { by apply dict_wf_dmap, (dict_wf_fold (λ _ oid, oid)). }
  assert (∀ oid, oid ∈ ids → oid ∉ stale) as Hfresh.
  { intros oid Hoid ((k & ivs) & Hk & Hin)%list_elem_of_fmap. simpl in Hk. subst k.
    apply list_elem_of_filter in Hin as [He Hin]. apply elem_dget in Hin; [|done].
    rewrite dget_dmap in Hin.
    destruct (seen_fold window ts ids (is_object_presence st) oid (or_introl Hoid))
      as (ivs' & l & i & Hg & -> & Hi). fold seen in Hg. rewrite Hg in Hin.
    simpl in Hin. injection Hin as <-. unfold fresh_intervals in He. simpl in He.
    rewrite filter_app, filter_cons_True in He by lia. by destruct (filter _ l). }
  split_and!; try by destruct (nonempty stale).
  - destruct (nonempty stale); by apply dict_wf_filter.
  - destruct (nonempty stale); simpl; [|done].
    intros oid H1 H2. apply list_elem_of_filter. auto.
Qed.

Lemma merge_object_ids_elem existing new ids x :
  merge_object_ids existing new = Ok ids → x ∈ ids ↔ x ∈ existing ∨ x ∈ new.
Proof.
  destruct existing as [|p e]; [done|]. set (l := dedup ((p :: e) ++ new)).
  assert (x ∈ l ↔ (x = p ∨ x ∈ e) ∨ x ∈ new) as Hl.
  { unfold l. by rewrite dedup_elem_of, elem_of_app, elem_of_cons. }
  unfold merge_object_ids. fold l. clearbody l. intros [= <-]. unfold sort_strings.
  rewrite !elem_of_cons, sort_by_elem_of, list_elem_of_filter, Hl.
  destruct (decide (x = p)); naive_solver.
Qed.

(** Updating an open violation keeps it well formed; the only failure is the
    merge into an empty list of ids. *)
Lemma update_violation_ok ids info ts window track c st r st' :
  ttl_ok cfg → open_ok c st → internal_only info → "isComplete" ∉ dkeys info →
  (c ≠ FOV_COUNT_VIOLATION → ids ≠ []) →
  update_violation cfg ids info ts window track st = (r, st') →
  open_ok c st' ∧ (c ≠ FOV_COUNT_VIOLATION → r = Ok tt).
Proof.
  intros Httl [Hc Ho Hi Hp Hids] Hinfo Hnc Hne.
  unfold update_violation, mbind, stM_bind, sget, smod, slift; simpl.
  assert (∀ ids', (c ≠ FOV_COUNT_VIOLATION → ids' ≠ []) →
    open_ok c (set_is_info (dupdate (is_info st) info)
      (set_is_object_ids ids' (set_is_end ts st)))) as Hst.
  { intros ids' Hids'. constructor; simpl; [done| |by apply internal_only_dupdate|done..].
    by rewrite dget_dupdate_not. }
  destruct track; simpl.
  2: { intros [= <- <-]. split; [by apply Hst|done]. }
  destruct (merge_object_ids (is_object_ids st) ids) as [ids'|e] eqn:Em.
  2: { intros [= <- <-]. split; [by constructor|].
       intros Hf. specialize (Hids Hf). by destruct (is_object_ids st). }
  assert (ids' ≠ []) as Hids' by (by destruct (is_object_ids st); simplify_eq/=).
  destruct (nonempty ids) eqn:En; [|by intros [= <- <-]; split; [apply Hst|]].
  intros E. apply update_object_state_ok in E as (-> & H1 & H2 & _ & _ & H3 & H4);
    [|done..]. simpl in *. split; [|done]. destruct (Hst ids') as [? ? ? ? _]; [done|].
  simpl in *. constructor; [congruence|by rewrite H2|by rewrite H2|done|].
  intros Hf Hnil. destruct ids as [|i ids]; [by apply Hne|].
  specialize (H4 i (ltac:(by left))). rewrite Hnil in H4.
  eapply elem_of_nil, H4. eapply merge_object_ids_elem; [done|]. right. by left.
Qed.

Lemma process_violation_ok sensor primary ids frame window c info valid track d r d' :
  ttl_ok cfg → all_open c d → internal_only info → "isComplete" ∉ dkeys info →
  (c ≠ FOV_COUNT_VIOLATION → ids ≠ []) →
  process_violation_state ToDatetime cfg sensor primary ids frame window c info valid track d
    = (r, d') →
  all_open c d' ∧ (c ≠ FOV_COUNT_VIOLATION → r = Ok tt).
Proof.
  intros Httl Hd Hinfo Hnc Hne. unfold process_violation_state.
  set (ns := new_violation _ _ _ _ _ _). set (ts := frame_time _ _).
  assert (open_ok c ns) as Hns.
  { constructor; simpl; [done|by apply dget_None|done|constructor|done]. }
  set (presence := if track && nonempty ids then _ else _).
  assert (∃ ns', presence ns = (Ok tt, ns') ∧ open_ok c ns') as (ns' & -> & Hns').
  { unfold presence. destruct (track && nonempty ids) eqn:Et; [|by eexists].
    destruct (update_object_state _ _ _ _ _) as [r1 ns1] eqn:E.
    apply update_object_state_ok in E as (-> & H1 & H2 & _ & _ & H3 & H4); [|done|constructor].
    exists ns1. split; [done|]. constructor; simpl in *; [done| |by rewrite H2|done|].
    - rewrite H2. by apply dget_None.
    - intros _ Hnil. destruct ids as [|i ids]; [by destruct track|].
      specialize (H4 i ltac:(by left) ltac:(by left)). rewrite Hnil in H4.
      by apply elem_of_nil in H4. }
  destruct (dget d _) as [st|] eqn:Eg.
  2: { intros [= <- <-]. split; [by apply all_open_dset|done]. }
  destruct (valid st).
  2: { intros [= <- <-]. split; [by apply all_open_dset|done]. }
  destruct (update_violation _ _ _ _ _ _ _) as [r1 st'] eqn:E. intros [= <- <-].
  apply (update_violation_ok _ _ _ _ _ c) in E as [H1 H2]; [|by eauto using all_open_get..].
  split; [by apply all_open_dset|done].
Qed.

(** ** Lemmas: one frame *)

(** A step that keeps the invariant on every outcome, and returns when
    field-of-view incidents are disabled. *)
Definition good (sensor : string) (m : stM (FrameState * dict string (list IncidentState)) unit)
    : Prop :=
  ∀ w, work_inv sensor w → work_inv sensor (m w).2 ∧
    (incident_enable cfg FOV_COUNT_VIOLATION = false → (m w).1 = Ok tt).

Lemma good_ret sensor : good sensor (mret tt).
Proof. by intros w Hw. Qed.

Lemma good_bind sensor m k : good sensor m → good sensor k → good sensor (_ ← m; k).
Proof.
  intros Hm Hk w Hw. unfold mbind, stM_bind. destruct (Hm w Hw) as [H1 H2].
  destruct (m w) as [[[]|e] w']; [by apply Hk|]. split; [done|].
  intros Hf. by specialize (H2 Hf).
Qed.

Lemma good_when sensor b m : good sensor m → good sensor (when b m).
Proof. destruct b; [done|]. intros _. apply good_ret. Qed.

Lemma good_sfor {A} sensor (l : list A) body :
  (∀ x, good sensor (body x)) → good sensor (sfor l body).
Proof.
  intros Hb. induction l as [|x l IH]; simpl; [apply good_ret|by apply good_bind].
Qed.

Lemma good_on sensor c m :
  (∀ d, all_open c d → ∃ r d', m d = (r, d') ∧ all_open c d' ∧
     (c ≠ FOV_COUNT_VIOLATION → r = Ok tt)) →
  (c = FOV_COUNT_VIOLATION → incident_enable cfg FOV_COUNT_VIOLATION = true) →
  good sensor (on_violations sensor c m).
Proof.
  intros Hm Hc [fs queue] Hw. unfold on_violations, zoom. simpl.
  destruct (Hm (violations sensor c fs)) as (r & d' & -> & H1 & H2); [apply Hw|].
  split; [by apply work_inv_set|]. simpl. intros Hf. apply H2. intros ->.
  rewrite Hf in Hc. by specialize (Hc eq_refl).
Qed.

Lemma good_violation sensor primary ids frame window c info valid track :
  ttl_ok cfg → internal_only info → "isComplete" ∉ dkeys info →
  (c ≠ FOV_COUNT_VIOLATION → ids ≠ []) →
  ∀ d, all_open c d → ∃ r d',
    process_violation_state ToDatetime cfg sensor primary ids frame window c info valid track d
      = (r, d') ∧ all_open c d' ∧ (c ≠ FOV_COUNT_VIOLATION → r = Ok tt).
Proof.
  intros Httl Hi Hnc Hne d Hd.
  destruct (process_violation_state _ _ _ _ _ _ _ _ _ _ _ d) as [r d'] eqn:E.
  exists r, d'. split; [done|]. by eapply process_violation_ok.
Qed.

Lemma complete_category_inv sensor now w c :
  work_inv sensor w → work_inv sensor (complete_category cfg sensor now w c).
Proof.
  destruct w as [fs queue]. intros Hw. unfold complete_category. simpl.
  apply work_inv_set.
  - destruct Hw as [H1 H2]. split; [done|]. simpl. case_match; [|done].
    intros sensor' l. rewrite dget_dset. case_decide as Hs; [|apply H2].
    subst sensor'. set (cs := dvals _) in *. intros [= <-]. split.
    { intros [_ Hnil]%app_nil. by destruct cs. }
    apply Forall_app. split.
    + destruct (dget queue sensor) eqn:E; [by apply (H2 _ _ E)|constructor].
    + apply Forall_fmap, Forall_forall. intros st [k Hk]%dvals_elem. simpl.
      apply list_elem_of_filter in Hk as [_ Hk]. destruct (H1 _ _ _ Hk) as [? ? Hi ? ?].
      constructor; simpl.
      * unfold is_complete. simpl. by rewrite dget_dset_eq.
      * by apply internal_only_dset.
  - intros k st [_ Hk]%list_elem_of_filter. destruct Hw as [H1 _]. by eapply H1.
Qed.

Lemma process_frame_good sensor frame :
  ttl_ok cfg → good sensor (process_frame ToDatetime cfg sensor frame).
Proof.
  intros Httl. unfold process_frame. repeat apply good_bind.
  - intros w Hw. split; [|done]. simpl. unfold check_and_complete_violations.
    generalize all_categories. intros l. revert w Hw.
    induction l as [|c l IH]; intros w Hw; simpl; [done|]. by apply IH, complete_category_inv.
  - apply good_when, good_sfor. intros oids. apply good_on; [|done].
    unfold get_safety_violation_state. intros d Hd. case_match; [by eexists _, _|].
    destruct (py_split "," oids) as [|o1 [|o2 os]]; [by eexists _, _..|].
    apply good_violation; try done; [apply internal_only_nil|apply not_elem_of_nil].
  - apply good_when, good_sfor. intros roi. apply good_when, good_sfor. intros oid.
    apply good_on; [|done]. unfold get_restricted_area_violation_state. intros d Hd.
    case_match; [by eexists _, _|]. apply good_violation; try done.
    + intros k x Hk%list_elem_of_singleton. simplify_eq.
    + by intros ?%list_elem_of_singleton.
  - apply good_when, good_sfor. intros oids. apply good_sfor. intros oid.
    apply good_on; [|done]. unfold get_confined_area_violation_state. intros d Hd.
    case_match; [by eexists _, _|]. apply good_violation; try done; [apply internal_only_nil|apply not_elem_of_nil].
  - destruct (incident_enable cfg FOV_COUNT_VIOLATION) eqn:Ef; [|apply good_ret].
    apply good_sfor. intros tm. apply good_when, good_on; [|done].
    unfold get_fov_count_violation_state. intros d Hd. case_match; [by eexists _, _|].
    apply good_violation; try done; [apply internal_only_nil|apply not_elem_of_nil].
Qed.

Lemma violations_next sensor old filtered c k st :
  (k, st) ∈ violations sensor c (next_frame_state cfg sensor old filtered) →
  ∃ o, old = Some o ∧ (k, st) ∈ violations sensor c o.
Proof.
  destruct old as [o|]; [eauto|]. destruct c; simpl; by intros ?%elem_of_nil.
Qed.

(** [update_frames] when it has frames to process. *)
Lemma update_frames_eq sensor frames s :
  sensor ≠ EmptyString → filter_frames ToDatetime cfg frames ≠ [] →
  update_frames ToDatetime cfg sensor frames s =
    let fs := next_frame_state cfg sensor (dget (fm_state s) sensor)
                (filter_frames ToDatetime cfg frames) in
    let '(r, (fs', queue)) :=
      sfor (filter_frames ToDatetime cfg frames) (process_frame ToDatetime cfg sensor)
        (fs, completed_states s) in
    (r, mk_FrameStateMgmt (dset (fm_state s) sensor fs') queue).
Proof.
  intros Hs Hf. unfold update_frames. destruct (String.eqb_spec sensor EmptyString); [done|].
  destruct frames as [|f frames]; [done|]. simpl.
  by destruct (filter_frames ToDatetime cfg (f :: frames)).
Qed.

Lemma update_frames_skip sensor frames s :
  sensor = EmptyString ∨ filter_frames ToDatetime cfg frames = [] →
  update_frames ToDatetime cfg sensor frames s = (Ok tt, s).
Proof.
  intros H. unfold update_frames. destruct (String.eqb_spec sensor EmptyString); [done|].
  destruct H as [|H]; [done|]. rewrite H. by destruct (nonempty frames).
Qed.

Lemma update_frames_good sensor frames s :
  ttl_ok cfg → mgmt_inv s →
  mgmt_inv (update_frames ToDatetime cfg sensor frames s).2 ∧
  (incident_enable cfg FOV_COUNT_VIOLATION = false →
   (update_frames ToDatetime cfg sensor frames s).1 = Ok tt).
Proof.
  intros Httl [Hs Hq].
  destruct (decide (sensor = EmptyString ∨ filter_frames ToDatetime cfg frames = [])) as [Hn|Hn].
  { by rewrite update_frames_skip. }
  rewrite update_frames_eq by tauto. set (fs := next_frame_state _ _ _ _). simpl.
  destruct (good_sfor sensor (filter_frames ToDatetime cfg frames)
    (process_frame ToDatetime cfg sensor) (λ f, process_frame_good sensor f Httl)
    (fs, completed_states s)) as [[H1 H2] H3].
  { split; [|done]. intros c k st Hin. simpl in Hin.
    apply violations_next in Hin as (o & Ho & Hin). by eapply Hs. }
  destruct (sfor _ _ _) as [r [fs' queue]]. simpl in *. split; [|done]. split; [|done].
  intros sensor' fs1 c. simpl. rewrite dget_dset. case_decide; [|apply Hs].
  intros [= <-]. subst. apply H1.
Qed.
End lemmas.

(** ** Lemmas: reporting *)

(** [i] reports the violation [st]. *)
Definition reports (st : IncidentState) (i : Incident) : Prop :=
  in_timestamp i = is_start st ∧ in_end i = is_end st ∧
  in_objectIds i = is_object_ids st ∧ in_category i = category_value (is_category st).

Lemma mapM_str_value d :
  (∀ k x, (k, IFloat x) ∈ d → False) → ∃ l, mapM str_value d = Ok l.
Proof.
  induction d as [|[k v] d IH]; intros H; simpl; [by eexists|].
  destruct v as [v|x]; [|exfalso; eapply H; by left]. simpl.
  destruct IH as [l Hl]; [intros k' x Hx; eapply H; by right|].
  rewrite Hl. simpl. by eexists.
Qed.

Lemma incident_info_strings st k x :
  internal_only (is_info st) → (k, IFloat x) ∈ incident_info st → False.
Proof.
  intros Hi. unfold incident_info. set (i0 := if String.eqb _ _ then _ else _).
  set (i1 := dupdate _ _).
  assert ((k, IFloat x) ∈ i1 → False) as H1.
  { intros [H|[Hne H]%list_elem_of_filter]%dupdate_elem_1; [|by apply Hne, (Hi _ x)].
    unfold i0 in H. case_match; [by apply elem_of_nil in H|].
    apply list_elem_of_singleton in H. simplify_eq. }
  case_match; [|done]. intros [[_ ?]|?]%dset_elem_1; [done|auto].
Qed.

Lemma make_incident_ok sensor lx st :
  internal_only (is_info st) → ∃ i, make_incident sensor lx st = Ok i ∧ reports st i.
Proof.
  intros Hi. unfold make_incident.
  destruct (mapM_str_value (incident_info st)) as [l Hl].
  { intros k x. by apply incident_info_strings. }
  rewrite Hl. simpl. eexists. by split.
Qed.

Lemma is_complete_open c st : open_ok c st → is_complete st = false.
Proof. intros []. unfold is_complete. by rewrite op_open0. Qed.

(** What one report does: it succeeds, reports the violation or nothing, and
    leaves an open violation that has nothing new to report. *)
Lemma report_violation_ok sensor thr lx st :
  internal_only (is_info st) →
  ∃ o st', report_violation sensor thr lx st = (Ok o, st') ∧
    (∀ i, o = Some i → reports st i ∧ fle thr (is_time_interval st) = true) ∧
    (is_complete st = true → fle thr (is_time_interval st) = true → ∃ i, o = Some i) ∧
    (∀ c, open_ok c st → open_ok c st') ∧
    (is_complete st = false → ∀ lx', report_violation sensor thr lx' st' = (Ok None, st')).
Proof.
  intros Hi. unfold report_violation at 1 2.
  destruct (fle thr (is_time_interval st)) eqn:Et.
  2: { eexists None, st. split_and!; try done. intros _ lx'. unfold report_violation.
       by rewrite Et. }
  destruct (negb (is_complete st) && already_reported st) eqn:Er.
  { eexists None, st. split_and!; try done.
    - intros Hc. by rewrite Hc in Er.
    - intros _ lx'. unfold report_violation. by rewrite Et, Er. }
  destruct (make_incident_ok sensor lx st Hi) as (i & -> & Hr).
  eexists (Some i), _. split_and!; [done|by intros ? [= <-]|by eexists|..].
  - intros c Ho. rewrite (is_complete_open _ _ Ho). destruct Ho. constructor; simpl; try done.
    + by rewrite dget_dset_ne.
    + by apply internal_only_dset.
  - intros Hc lx'. rewrite Hc. unfold report_violation. unfold is_time_interval in *. simpl.
    rewrite Et. unfold is_complete in *. simpl. rewrite dget_dset_ne by done. rewrite Hc.
    unfold already_reported. simpl. rewrite dget_dset_eq, feq_refl; [done|].
    apply total_seconds_not_nan.
Qed.

Lemma get_violation_incidents_ok sensor thr lx d :
  (∀ k st, (k, st) ∈ d → internal_only (is_info st)) →
  ∃ l d', get_violation_incidents sensor thr lx d = (Ok l, d') ∧
    (∀ i, i ∈ l → ∃ k st, (k, st) ∈ d ∧ reports st i ∧ fle thr (is_time_interval st) = true) ∧
    (∀ k st, (k, st) ∈ d → is_complete st = true → fle thr (is_time_interval st) = true →
       ∃ i, i ∈ l ∧ reports st i) ∧
    (∀ c, all_open c d → all_open c d' ∧
       ∀ lx', get_violation_incidents sensor thr lx' d' = (Ok [], d')) ∧
    dkeys d' = dkeys d.
Proof.
  induction d as [|[k st] d IH]; intros Hi; simpl.
  { eexists [], []. split_and!; try done; [|intros ? ? ?%elem_of_nil; done].
    intros i Hin. by apply elem_of_nil in Hin. }
  destruct (report_violation_ok sensor thr lx st) as (o & st' & -> & H1 & H2 & H3 & H4).
  { eapply Hi. by left. }
  destruct IH as (l & d' & -> & I1 & I2 & I3 & I4); [intros k' st0 Hin; eapply Hi; by right|].
  eexists _, _. split_and!; [done|..].
  - intros i [Hin|Hin]%elem_of_app.
    + destruct o as [i'|]; [|by apply elem_of_nil in Hin].
      apply list_elem_of_singleton in Hin as ->. destruct (H1 _ eq_refl).
      exists k, st. split_and!; try done. by left.
    + destruct (I1 i Hin) as (k' & st0 & ? & ?). exists k', st0. split; [by right|done].
  - intros k' st0 [?|Hin]%elem_of_cons Hc Ht; simplify_eq.
    + destruct (H2 Hc Ht) as [i ->]. exists i. split; [by left|]. by apply H1.
    + destruct (I2 k' st0 Hin Hc Ht) as (i & ? & ?). exists i.
      split; [apply elem_of_app; by right|done].
  - intros c Hop. assert (open_ok c st) as Hst by (eapply Hop; by left).
    destruct (I3 c) as [I5 I6]; [intros k' st0 Hin; eapply Hop; by right|]. split.
    + intros k' st0 [?|Hin]%elem_of_cons; simplify_eq; [by apply H3|by eapply I5].
    + intros lx'. simpl. rewrite H4 by by eapply is_complete_open. by rewrite I6.
  - unfold dkeys in *. csimpl. by rewrite I4.
Qed.

Section reporting.
  Context (cfg : FrameConfig) (sensor : string).
  Hypothesis Hsensor : sensor ≠ EmptyString.
  Implicit Types (s : FrameStateMgmt).

(** Category [c] of the sensor has nothing left to report. *)
Record quiet (c : IncidentCategory) s : Prop := mk_quiet {
  qu_open : ∀ fs, dget (fm_state s) sensor = Some fs → ∀ lx,
    get_violation_incidents sensor (incident_threshold cfg c) lx (violations sensor c fs)
      = (Ok [], violations sensor c fs);
  qu_done : ∀ l, dget (completed_states s) sensor = Some l →
    l ≠ [] ∧ Forall (λ st, is_category st ≠ c) l;
}.

Lemma set_violations_id c fs : set_violations sensor c (violations sensor c fs) fs = fs.
Proof.
  destruct c, fs as [? ? ? ? ? [v|] ? ?]; try done.
  unfold set_violations, set_fs_fov. simpl. by rewrite decide_True.
Qed.

Lemma violations_set c d fs :
  dkeys d = dkeys (violations sensor c fs) →
  violations sensor c (set_violations sensor c d fs) = d.
Proof.
  destruct c; try done. simpl. unfold dkeys. destruct (fs_fov fs) as [v|]; csimpl.
  - destruct d as [|[k x] [|? ?]]; [done| |done]. csimpl. intros [= ->].
    by rewrite decide_True.
  - by intros ->%fmap_nil_inv.
Qed.

Lemma violations_set_ne c c' d fs :
  c ≠ c' → violations sensor c' (set_violations sensor c d fs) = violations sensor c' fs.
Proof. by destruct c, c'. Qed.

Lemma quiet_incidents c s lx : quiet c s → incidents_of cfg c sensor lx s = (Ok [], s).
Proof.
  intros [Hq1 Hq2]. unfold incidents_of, mbind, stM_bind.
  assert (get_category_incidents cfg c sensor s = (Ok [], s)) as ->.
  { unfold get_category_incidents, get_state.
    destruct (String.eqb_spec sensor EmptyString); [done|]. simpl.
    destruct (dget (fm_state s) sensor) as [fs|] eqn:E; [|done].
    rewrite (Hq1 _ eq_refl), set_violations_id, dset_id by done. by destruct s. }
  unfold get_completed_incidents.
  destruct (dget (completed_states s) sensor) as [l|] eqn:E; [|done].
  destruct (Hq2 l eq_refl) as [Hne Hall].
  rewrite (list_filter_all _ l) by by apply Forall_forall.
  assert (states_dict c l = []) as ->.
  { unfold states_dict. apply list_filter_none. intros [k st] Hin%elem_of_lookup_imap Hc.
    destruct Hin as (i & y & [= -> ->] & Hy). simpl in Hc. rewrite Forall_lookup in Hall.
    by eapply Hall. }
  destruct l as [|st l]; [done|]. simpl. rewrite dset_id by done. by destruct s.
Qed.

(** The first half of a category's report: the open violations. *)
Lemma category_incidents_ok c s :
  mgmt_inv s →
  ∃ l s', get_category_incidents cfg c sensor s = (Ok l, s') ∧ mgmt_inv s' ∧
    completed_states s' = completed_states s ∧
    (∀ i, i ∈ l → in_category i = category_value c ∧
       fle (incident_threshold cfg c) (total_seconds (in_end i - in_timestamp i)) = true) ∧
    match dget (fm_state s) sensor with
    | None => s' = s
    | Some fs => ∃ d, fm_state s' = dset (fm_state s) sensor (set_violations sensor c d fs) ∧
        dkeys d = dkeys (violations sensor c fs) ∧
        (∀ lx, get_violation_incidents sensor (incident_threshold cfg c) lx d = (Ok [], d))
    end.
Proof.
  intros [Hs Hq]. unfold get_category_incidents, get_state.
  destruct (String.eqb_spec sensor EmptyString); [done|]. simpl.
  destruct (dget (fm_state s) sensor) as [fs|] eqn:E.
  2: { eexists [], s. split_and!; try done. by intros i ?%elem_of_nil. }
  destruct (get_violation_incidents_ok sensor (incident_threshold cfg c)
    (fs_last_x_frames fs) (violations sensor c fs)) as (l & d & -> & H1 & _ & H3 & H4).
  { intros k st Hin. by destruct (Hs _ _ _ E _ _ Hin). }
  destruct (H3 c (Hs _ _ c E)) as [H5 H6].
  eexists l, _. split_and!; [done| |done| |by exists d].
  - split; [|done]. intros sensor' fs' c'. simpl. rewrite dget_dset.
    case_decide as Hse; [|apply Hs]. intros [= <-]. subst sensor'. intros k st Hin.
    apply violations_set_sub in Hin as [[<- ?]|[_ ?]]; [by eapply H5|by eapply Hs].
  - intros i (k & st & Hin & (Hr1 & Hr2 & _ & ->) & Hle)%H1.
    unfold is_time_interval in Hle. rewrite Hr1, Hr2.
    by rewrite (op_category _ _ (Hs _ _ c E _ _ Hin)).
Qed.

(** The second half: the queue of the category, drained. *)
Lemma states_dict_elem c l k st :
  (k, st) ∈ states_dict c l → st ∈ l ∧ is_category st = c.
Proof.
  unfold states_dict. intros [Hc (i & y & [= _ ->] & Hy)%elem_of_lookup_imap]%list_elem_of_filter.
  split; [by eapply list_elem_of_lookup_2|done].
Qed.

Lemma states_dict_in c l st :
  st ∈ l → is_category st = c → ∃ k, (k, st) ∈ states_dict c l.
Proof.
  intros [i Hi]%list_elem_of_lookup Hc. exists (str_Z (Z.of_nat i)).
  apply list_elem_of_filter. split; [done|]. apply elem_of_lookup_imap. eauto.
Qed.

Lemma completed_incidents_ok c s lx :
  mgmt_inv s →
  ∃ l s', get_completed_incidents sensor c (incident_threshold cfg c) lx s = (Ok l, s') ∧
    mgmt_inv s' ∧ fm_state s' = fm_state s ∧
    (∀ i, i ∈ l → in_category i = category_value c ∧
       fle (incident_threshold cfg c) (total_seconds (in_end i - in_timestamp i)) = true) ∧
    (∀ st, st ∈ default [] (dget (completed_states s) sensor) → is_category st = c →
       fle (incident_threshold cfg c) (is_time_interval st) = true → ∃ i, i ∈ l ∧ reports st i) ∧
    (∀ k, k ≠ sensor → dget (completed_states s') k = dget (completed_states s) k) ∧
    (∀ st, st ∈ default [] (dget (completed_states s') sensor) ↔
       st ∈ default [] (dget (completed_states s) sensor) ∧ is_category st ≠ c).
Proof.
  intros [Hs Hq]. unfold get_completed_incidents.
  destruct (dget (completed_states s) sensor) as [q|] eqn:E.
  2: { eexists [], s. rewrite E. simpl.
       split_and!; try done; intros x; rewrite ?elem_of_nil; tauto. }
  destruct (Hq _ _ E) as [Hne Hdone]. rewrite Forall_forall in Hdone.
  destruct (get_violation_incidents_ok sensor (incident_threshold cfg c) lx (states_dict c q))
    as (l & d & -> & H1 & H2 & _).
  { intros k st [Hin _]%states_dict_elem. by apply Hdone. }
  eexists l, _. split_and!; [done|split; [done|]|done|..]; simpl.
  - intros k r. case_match eqn:Er; rewrite ?dget_dset, ?dget_ddel; case_decide as Hk; try done;
      try apply Hq. intros [= <-]. split; [by destruct (filter _ q)|].
    apply Forall_forall. intros st [_ Hin]%list_elem_of_filter. by apply Hdone.
  - intros i (k & st & [Hin Hc]%states_dict_elem & (Hr1 & Hr2 & _ & ->) & Hle)%H1.
    unfold is_time_interval in Hle. by rewrite Hr1, Hr2, Hc.
  - intros st Hin Hc Hle. destruct (states_dict_in c q st Hin Hc) as [k Hk].
    eapply H2; [exact Hk| |done]. by apply Hdone.
  - intros k Hk. case_match; by rewrite ?dget_dset_ne, ?dget_ddel_ne.
  - intros st. destruct (nonempty (filter _ q)) eqn:Er; simpl;
      rewrite ?dget_dset_eq, ?dget_ddel_eq; simpl.
    + rewrite list_elem_of_filter. tauto.
    + destruct (filter _ q) as [|? ?] eqn:Ef; [|done]. rewrite elem_of_nil.
      split; [done|]. intros [Hin Hc]. assert (st ∈ filter (λ st, is_category st ≠ c) q) as Hf.
      { by apply list_elem_of_filter. } rewrite Ef in Hf. by apply elem_of_nil in Hf.
Qed.

(** Everything a category's report does. *)
Record report_ok (c : IncidentCategory) (lx : list Frame) s (out : list Incident) s' : Prop :=
  mk_report_ok {
  rp_inv : mgmt_inv s';
  rp_quiet : quiet c s';
  rp_others : ∀ c', c' ≠ c → quiet c' s → quiet c' s';
  rp_sound : ∀ i, i ∈ out → in_category i = category_value c ∧
    fle (incident_threshold cfg c) (total_seconds (in_end i - in_timestamp i)) = true;
  rp_done : ∀ st, st ∈ default [] (dget (completed_states s) sensor) → is_category st = c →
    fle (incident_threshold cfg c) (is_time_interval st) = true → ∃ i, i ∈ out ∧ reports st i;
  rp_foreign : ∀ k, k ≠ sensor → dget (completed_states s') k = dget (completed_states s) k;
  rp_queue : ∀ st, st ∈ default [] (dget (completed_states s') sensor) ↔
    st ∈ default [] (dget (completed_states s) sensor) ∧ is_category st ≠ c;
}.

Lemma incidents_of_ok c lx s :
  mgmt_inv s → ∃ out s', incidents_of cfg c sensor lx s = (Ok out, s') ∧ report_ok c lx s out s'.
Proof.
  intros Hinv. unfold incidents_of, mbind, stM_bind.
  destruct (category_incidents_ok c s Hinv) as (l1 & s1 & -> & Hi1 & Hc1 & Hs1 & Hf1).
  destruct (completed_incidents_ok c s1 lx Hi1) as (l2 & s2 & -> & Hi2 & Hf2 & Hs2 & Hd2 & Hk2 & Hq2).
  eexists _, s2. split; [done|].
  rewrite Hc1 in *. constructor; try done.
  - constructor.
    + rewrite Hf2. intros fs. destruct (dget (fm_state s) sensor) as [fs0|] eqn:E.
      * destruct Hf1 as (d & -> & Hk & Hg). rewrite dget_dset_eq. intros [= <-] lx'.
        by rewrite violations_set.
      * subst s1. by rewrite E.
    + intros l Hl. split; [by eapply (proj2 Hi2)|]. apply Forall_forall. intros st Hst.
      apply (Hq2 st). by rewrite Hl.
  - intros c' Hne [Hq1' Hq2']. constructor.
    + rewrite Hf2. intros fs. destruct (dget (fm_state s) sensor) as [fs0|] eqn:E.
      * destruct Hf1 as (d & -> & Hk & Hg). rewrite dget_dset_eq. intros [= <-] lx'.
        rewrite violations_set_ne by done. by apply Hq1'.
      * subst s1. by rewrite E.
    + intros l Hl. split; [by eapply (proj2 Hi2)|]. apply Forall_forall. intros st Hst.
      assert (st ∈ default [] (dget (completed_states s) sensor)) as Hin.
      { apply (Hq2 st). by rewrite Hl. }
      destruct (dget (completed_states s) sensor) as [l0|] eqn:E; [|by apply elem_of_nil in Hin].
      destruct (Hq2' _ eq_refl) as [_ Hall]. rewrite Forall_forall in Hall. by apply Hall.
  - intros i [?|?]%elem_of_app; auto.
  - intros st H1 H2 H3. destruct (Hd2 st H1 H2 H3) as (i & ? & ?). exists i.
    split; [apply elem_of_app; by right|done].
Qed.

(** The four reports of one call, composed. *)
Lemma get_incidents_steps s :
  mgmt_inv s →
  ∃ lx o1 s1 o2 s2 o3 s3 o4 s4,
    get_incidents cfg sensor s = (Ok (o1 ++ o2 ++ o3 ++ o4), s4) ∧
    report_ok PROXIMITY_VIOLATION lx s o1 s1 ∧
    report_ok RESTRICTED_AREA_VIOLATION lx s1 o2 s2 ∧
    report_ok CONFINED_AREA_VIOLATION lx s2 o3 s3 ∧
    report_ok FOV_COUNT_VIOLATION lx s3 o4 s4.
Proof.
  intros Hinv. unfold get_incidents, mbind, stM_bind, sget, slift, get_state.
  destruct (String.eqb_spec sensor EmptyString); [done|]. simpl.
  set (lx := match dget (fm_state s) sensor with Some fs => _ | None => _ end).
  destruct (incidents_of_ok PROXIMITY_VIOLATION lx s Hinv) as (o1 & s1 & -> & H1).
  destruct (incidents_of_ok RESTRICTED_AREA_VIOLATION lx s1 (rp_inv _ _ _ _ _ H1))
    as (o2 & s2 & -> & H2).
  destruct (incidents_of_ok CONFINED_AREA_VIOLATION lx s2 (rp_inv _ _ _ _ _ H2))
    as (o3 & s3 & -> & H3).
  destruct (incidents_of_ok FOV_COUNT_VIOLATION lx s3 (rp_inv _ _ _ _ _ H3))
    as (o4 & s4 & -> & H4).
  by exists lx, o1, s1, o2, s2, o3, s3, o4, s4.
Qed.
End reporting.

(** ** Lemmas: completion and history *)
Section completion.
  Context (ToDatetime : proto_ts → datetime) (cfg : FrameConfig).

(** The violations of a category that are over at [now]. *)
Definition over (sensor : string) (now : datetime) (fs : FrameState) (c : IncidentCategory)
    : list IncidentState :=
  dvals (filter (λ kv, expired cfg c now kv.2 = true) (violations sensor c fs)).

Lemma violations_filter sensor c (P : string * IncidentState → Prop) `{∀ kv, Decision (P kv)} fs :
  violations sensor c (set_violations sensor c (filter P (violations sensor c fs)) fs)
    = filter P (violations sensor c fs).
Proof.
  destruct c; try done. simpl. destruct (fs_fov fs) as [v|]; [|done].
  rewrite filter_cons, filter_nil. case_decide; simpl; [by rewrite decide_True|done].
Qed.

Lemma complete_category_spec sensor now fs queue c :
  let w' := complete_category cfg sensor now (fs, queue) c in
  violations sensor c w'.1 =
    filter (λ kv, expired cfg c now kv.2 = false) (violations sensor c fs) ∧
  (∀ c', c ≠ c' → violations sensor c' w'.1 = violations sensor c' fs) ∧
  default [] (dget w'.2 sensor) =
    default [] (dget queue sensor) ++ (mark_complete <$> over sensor now fs c) ∧
  (∀ k, k ≠ sensor → dget w'.2 k = dget queue k).
Proof.
  unfold complete_category, complete_and_move. simpl. fold (over sensor now fs c).
  split_and!.
  - apply violations_filter.
  - intros c' Hne. by apply violations_set_ne.
  - destruct (over sensor now fs c); simpl; [by rewrite app_nil_r|by rewrite dget_dset_eq].
  - intros k Hk. case_match; [by rewrite dget_dset_ne|done].
Qed.

Lemma sfor_process_frames sensor l w :
  fs_last_x_frames (sfor l (process_frame ToDatetime cfg sensor) w).2.1 = fs_last_x_frames w.1.
Proof.
  assert (∀ c d fs, fs_last_x_frames (set_violations sensor c d fs) = fs_last_x_frames fs) as Hv
    by (by intros []).
  set (I := λ w' : FrameState * dict string (list IncidentState),
    fs_last_x_frames w'.1 = fs_last_x_frames w.1).
  set (G := λ m : stM (FrameState * dict string (list IncidentState)) unit,
    ∀ w', I w' → I (m w').2).
  assert (∀ m k : stM (FrameState * dict string (list IncidentState)) unit,
    G m → G k → G (_ ← m; k)) as Hb.
  { intros m k Hm Hk w' Hw. unfold mbind, stM_bind. specialize (Hm w' Hw).
    destruct (m w') as [[[]|e] w1]; [by apply Hk|done]. }
  assert (∀ b m, G m → G (when b m)) as Hwh by (intros [] m; [done|by intros _ w']).
  assert (∀ A (l : list A) body, (∀ x, G (body x)) → G (sfor l body)) as Hf
    by (intros A l0 body Hbody w' Hw; apply sfor_inv; [intros; by apply Hbody|done]).
  assert (∀ c m, G (on_violations sensor c m)) as Ho.
  { intros c m [fs q] Hw. unfold on_violations, zoom. simpl.
    destruct (m _) as [r d]. unfold I in *. simpl in *. by rewrite Hv. }
  enough (G (sfor l (process_frame ToDatetime cfg sensor))) as H by by apply H.
  apply Hf. intros frame. unfold process_frame. repeat apply Hb; auto 10.
  intros w' Hw. simpl. unfold check_and_complete_violations. generalize all_categories.
  intros cs. revert w' Hw. induction cs as [|c cs IH]; intros w' Hw; simpl; [done|].
  apply IH. unfold I in *. unfold complete_category, complete_and_move. simpl. by rewrite Hv.
Qed.

(** The sensor's frame history after one call. *)
Definition history (sensor : string) (s : FrameStateMgmt) : list Frame :=
  default [] (fs_last_x_frames <$> dget (fm_state s) sensor).

Lemma update_frames_history sensor frames s :
  sensor ≠ EmptyString → 0 < fc_min_frames cfg sensor →
  history sensor (update_frames ToDatetime cfg sensor frames s).2 =
    match filter_frames ToDatetime cfg frames with
    | [] => history sensor s
    | fl => py_tail (history sensor s ++ fl) (fc_min_frames cfg sensor)
    end.
Proof.
  intros Hs Hn.
  destruct (decide (filter_frames ToDatetime cfg frames = [])) as [Hf|Hf].
  { rewrite update_frames_skip by auto. by rewrite Hf. }
  rewrite update_frames_eq by done.
  pose proof (sfor_process_frames sensor (filter_frames ToDatetime cfg frames)
    (next_frame_state cfg sensor (dget (fm_state s) sensor) (filter_frames ToDatetime cfg frames),
     completed_states s)) as H.
  destruct (filter_frames ToDatetime cfg frames) as [|f fl]; [done|].
  cbv zeta. destruct (sfor _ _ _) as [r [fs' queue]]. unfold history. simpl in *.
  rewrite dget_dset_eq. simpl. rewrite H. by destruct (dget (fm_state s) sensor).
Qed.
End completion.

(** ** Reachable states: any sequence of calls, failed ones included *)
Inductive frame_step (ToDatetime : proto_ts → datetime) (cfg : FrameConfig)
    : FrameStateMgmt → FrameStateMgmt → Prop :=
  | step_update sensor frames s :
      frame_step ToDatetime cfg s (update_frames ToDatetime cfg sensor frames s).2
  | step_report sensor s :
      sensor ≠ EmptyString → frame_step ToDatetime cfg s (get_incidents cfg sensor s).2.

Lemma new_FrameStateMgmt_inv : mgmt_inv new_FrameStateMgmt.
Proof. by split. Qed.

Lemma frame_step_inv ToDatetime cfg s s' :
  ttl_ok cfg → mgmt_inv s → frame_step ToDatetime cfg s s' → mgmt_inv s'.
Proof.
  intros Httl Hs Hst. revert Hs.
  destruct Hst as [sensor frames s1|sensor s1 Hne]; intros Hs; [by apply update_frames_good|].
  destruct (get_incidents_steps cfg sensor Hne s1 Hs)
    as (lx & o1 & s2 & o2 & s3 & o3 & s4 & o4 & s5 & -> & _ & _ & _ & H4). apply H4.
Qed.

Lemma reachable_inv ToDatetime cfg s :
  ttl_ok cfg → rtc (frame_step ToDatetime cfg) new_FrameStateMgmt s → mgmt_inv s.
Proof.
  intros Httl H. generalize new_FrameStateMgmt_inv.
  induction H as [s|s1 s2 s3 Hst _ IH]; intros Hs; [done|]. by eapply IH, frame_step_inv.
Qed.

(** ** Properties *)
Section properties.
  Context (ToDatetime : proto_ts → datetime) (cfg : FrameConfig).

(** Whatever calls came before, including failed ones, updating frames
    never raises when the object time to live is a duration and field-of-view
    incidents are off, and reporting never raises for a named sensor. *)
Theorem frame_calls_total s :
  ttl_ok cfg → rtc (frame_step ToDatetime cfg) new_FrameStateMgmt s →
  (incident_enable cfg FOV_COUNT_VIOLATION = false →
     ∀ sensor frames, (update_frames ToDatetime cfg sensor frames s).1 = Ok tt) ∧
  (∀ sensor, sensor ≠ EmptyString → ∃ out, (get_incidents cfg sensor s).1 = Ok out).
Proof.
  intros Httl Hs%reachable_inv; [|done]. split.
  - intros Hf sensor frames. by apply update_frames_good.
  - intros sensor Hne. destruct (get_incidents_steps cfg sensor Hne s Hs)
      as (lx & o1 & s1 & o2 & s2 & o3 & s3 & o4 & s4 & -> & _). by eexists.
Qed.

(** Incidents are not reported twice: a second report of a sensor, with no
    frames in between, is empty and changes nothing. *)
Theorem get_incidents_once sensor s :
  sensor ≠ EmptyString → mgmt_inv s →
  ∃ out s', get_incidents cfg sensor s = (Ok out, s') ∧
            get_incidents cfg sensor s' = (Ok [], s').
Proof.
  intros Hne Hs. destruct (get_incidents_steps cfg sensor Hne s Hs)
    as (lx & o1 & s1 & o2 & s2 & o3 & s3 & o4 & s4 & -> & H1 & H2 & H3 & H4).
  eexists _, s4. split; [done|].
  pose proof (rp_quiet _ _ _ _ _ _ _ H4) as Q4.
  assert (quiet cfg sensor CONFINED_AREA_VIOLATION s4) as Q3.
  { eapply rp_others; [exact H4|done|apply H3]. }
  assert (quiet cfg sensor RESTRICTED_AREA_VIOLATION s4) as Q2.
  { eapply rp_others; [exact H4|done|]. eapply rp_others; [exact H3|done|apply H2]. }
  assert (quiet cfg sensor PROXIMITY_VIOLATION s4) as Q1.
  { eapply rp_others; [exact H4|done|]. eapply rp_others; [exact H3|done|].
    eapply rp_others; [exact H2|done|apply H1]. }
  unfold get_incidents, mbind, stM_bind, sget, slift, get_state.
  destruct (String.eqb_spec sensor EmptyString); [done|]. simpl.
  do 4 (rewrite quiet_incidents by done; simpl). done.
Qed.

(** One report of a sensor covers its queue: every completed violation
    that lasted its category's threshold is reported, the queue is emptied,
    other sensors' queues are untouched, and every incident reported lasted
    the threshold of its category. *)
Theorem get_incidents_drains sensor s :
  sensor ≠ EmptyString → mgmt_inv s →
  ∃ out s', get_incidents cfg sensor s = (Ok out, s') ∧
    (∀ st, st ∈ default [] (dget (completed_states s) sensor) →
       fle (incident_threshold cfg (is_category st)) (is_time_interval st) = true →
       ∃ i, i ∈ out ∧ reports st i) ∧
    default [] (dget (completed_states s') sensor) = [] ∧
    (∀ k, k ≠ sensor → dget (completed_states s') k = dget (completed_states s) k) ∧
    Forall (λ i, ∃ c, in_category i = category_value c ∧
      fle (incident_threshold cfg c) (total_seconds (in_end i - in_timestamp i)) = true) out.
Proof.
  intros Hne Hs. destruct (get_incidents_steps cfg sensor Hne s Hs)
    as (lx & o1 & s1 & o2 & s2 & o3 & s3 & o4 & s4 & -> & H1 & H2 & H3 & H4).
  eexists _, s4. split; [done|].
  pose proof (rp_queue _ _ _ _ _ _ _ H1) as Q1. pose proof (rp_queue _ _ _ _ _ _ _ H2) as Q2.
  pose proof (rp_queue _ _ _ _ _ _ _ H3) as Q3. pose proof (rp_queue _ _ _ _ _ _ _ H4) as Q4.
  split_and!.
  - intros st Hin Hle. destruct (is_category st) eqn:Ec.
    + destruct (rp_done _ _ _ _ _ _ _ H1 st) as (i & ? & ?); [done..|].
      exists i. rewrite !elem_of_app. tauto.
    + destruct (rp_done _ _ _ _ _ _ _ H2 st) as (i & ? & ?); [apply Q1; by rewrite Ec|done..|].
      exists i. rewrite !elem_of_app. tauto.
    + destruct (rp_done _ _ _ _ _ _ _ H3 st) as (i & ? & ?);
        [apply Q2; rewrite Q1, Ec; done|done..|]. exists i. rewrite !elem_of_app. tauto.
    + destruct (rp_done _ _ _ _ _ _ _ H4 st) as (i & ? & ?);
        [apply Q3; rewrite Q2, Q1, Ec; done|done..|]. exists i. rewrite !elem_of_app. tauto.
  - destruct (default [] (dget (completed_states s4) sensor)) as [|st l]; [done|].
    destruct (proj1 (Q4 st)) as [Hin ?]; [by left|]. rewrite Q3, Q2, Q1 in Hin.
    by destruct (is_category st); naive_solver.
  - intros k Hk. by rewrite (rp_foreign _ _ _ _ _ _ _ H4), (rp_foreign _ _ _ _ _ _ _ H3),
      (rp_foreign _ _ _ _ _ _ _ H2), (rp_foreign _ _ _ _ _ _ _ H1).
  - rewrite !Forall_app. split_and!; apply Forall_forall; intros i Hi; eexists;
      [apply (rp_sound _ _ _ _ _ _ _ H1)|apply (rp_sound _ _ _ _ _ _ _ H2)|
       apply (rp_sound _ _ _ _ _ _ _ H3)|apply (rp_sound _ _ _ _ _ _ _ H4)]; done.
Qed.

(** Completing violations loses none: at each frame the open violations of
    every category split into those silent for longer than the category's
    expiration window, appended in order to the sensor's queue marked
    complete, and the others, kept open unchanged. *)
Theorem complete_conserves sensor now fs queue :
  let w' := check_and_complete_violations cfg sensor now (fs, queue) in
  (∀ c, violations sensor c w'.1 =
     filter (λ kv, expired cfg c now kv.2 = false) (violations sensor c fs)) ∧
  default [] (dget w'.2 sensor) =
    default [] (dget queue sensor) ++ (mark_complete <$> (all_categories ≫= over cfg sensor now fs)) ∧
  (∀ k, k ≠ sensor → dget w'.2 k = dget queue k).
Proof.
  unfold check_and_complete_violations. cbn [foldl all_categories].
  destruct (complete_category_spec cfg sensor now fs queue PROXIMITY_VIOLATION)
    as (A1 & B1 & C1 & D1).
  destruct (complete_category _ _ _ (fs, queue) _) as [fs1 q1]. cbn [fst snd] in *.
  destruct (complete_category_spec cfg sensor now fs1 q1 RESTRICTED_AREA_VIOLATION)
    as (A2 & B2 & C2 & D2).
  destruct (complete_category _ _ _ (fs1, q1) _) as [fs2 q2]. cbn [fst snd] in *.
  destruct (complete_category_spec cfg sensor now fs2 q2 CONFINED_AREA_VIOLATION)
    as (A3 & B3 & C3 & D3).
  destruct (complete_category _ _ _ (fs2, q2) _) as [fs3 q3]. cbn [fst snd] in *.
  destruct (complete_category_spec cfg sensor now fs3 q3 FOV_COUNT_VIOLATION)
    as (A4 & B4 & C4 & D4).
  split_and!.
  - intros [].
    + by rewrite B4, B3, B2, A1.
    + by rewrite B4, B3, A2, B1.
    + by rewrite B4, A3, B2, B1.
    + by rewrite A4, B3, B2, B1.
  - rewrite C4, C3, C2, C1. unfold over.
    rewrite (B3 FOV_COUNT_VIOLATION), (B2 FOV_COUNT_VIOLATION), (B1 FOV_COUNT_VIOLATION),
      (B2 CONFINED_AREA_VIOLATION), (B1 CONFINED_AREA_VIOLATION),
      (B1 RESTRICTED_AREA_VIOLATION) by done.
    cbn [mbind list_bind all_categories]. by rewrite app_nil_r, !fmap_app, !app_assoc.
  - intros k Hk. by rewrite D4, D3, D2, D1.
Qed.

(** A sensor's frame history is the last [sensorMinFrames] of all the
    frames that passed the time filter, over any sequence of updates and
    whether or not they raised. *)
Theorem frame_history_bounded sensor (batches : list (list Frame)) :
  sensor ≠ EmptyString → 0 < fc_min_frames cfg sensor →
  let s := foldl (λ s frames, (update_frames ToDatetime cfg sensor frames s).2)
             new_FrameStateMgmt batches in
  history sensor s =
    py_tail (batches ≫= filter_frames ToDatetime cfg) (fc_min_frames cfg sensor) ∧
  (length (history sensor s) ≤ Z.to_nat (fc_min_frames cfg sensor))%nat.
Proof.
  intros Hs Hn. cbv zeta.
  assert (history sensor (foldl (λ s frames, (update_frames ToDatetime cfg sensor frames s).2)
             new_FrameStateMgmt batches) =
    py_tail (batches ≫= filter_frames ToDatetime cfg) (fc_min_frames cfg sensor)) as H.
  { induction batches as [|b bs IH] using rev_ind.
    - unfold py_tail. simpl. by case_match; rewrite drop_nil.
    - rewrite foldl_app. simpl. rewrite update_frames_history, IH, bind_app by done. csimpl.
      destruct (filter_frames ToDatetime cfg b); [by rewrite !app_nil_r|].
      by rewrite app_nil_r, py_tail_app. }
  rewrite H. split; [done|]. rewrite py_tail_length by done. lia.
Qed.

(** Merging object ids keeps the primary object first and every id once,
    and does not depend on the order or multiplicity of the ids that join, so
    equal violations carry equal lists. *)
Theorem merge_object_ids_canonical p rest new ids :
  merge_object_ids (p :: rest) new = Ok ids →
  head ids = Some p ∧ NoDup ids ∧ (∀ x, x ∈ ids ↔ x ∈ p :: rest ∨ x ∈ new) ∧
  (∀ rest' new', (∀ x, x ∈ (p :: rest) ++ new ↔ x ∈ (p :: rest') ++ new') →
     merge_object_ids (p :: rest') new' = Ok ids).
Proof.
  intros H. split_and!.
  - by injection H as <-.
  - pose proof (dedup_nodup ((p :: rest) ++ new)) as Hnd. revert H Hnd.
    unfold merge_object_ids, sort_strings. generalize (dedup ((p :: rest) ++ new)).
    intros l [= <-] Hnd. apply NoDup_cons. split.
    + rewrite sort_by_elem_of, list_elem_of_filter. by intros [? _].
    + rewrite sort_by_perm. by apply NoDup_filter.
  - intros x. by apply merge_object_ids_elem.
  - intros rest' new' Heq. rewrite <-H. unfold merge_object_ids. do 2 f_equal.
    apply sort_strings_perm, filter_Permutation, NoDup_Permutation; [apply dedup_nodup..|].
    intros x. by rewrite !dedup_elem_of.
Qed.

(** An object inside two restricted areas at once never accumulates a
    violation: the open violation is kept per object, and each area's turn
    replaces the one of the other, so after the frame it has lasted no time. *)
Theorem overlapping_rois_reset sensor roi1 roi2 oid frame d :
  roi1 ≠ EmptyString → roi2 ≠ EmptyString → oid ≠ EmptyString → roi1 ≠ roi2 →
  ∃ d' st, (_ ← get_restricted_area_violation_state ToDatetime cfg sensor roi1 oid frame;
      get_restricted_area_violation_state ToDatetime cfg sensor roi2 oid frame) d = (Ok tt, d') ∧
    dget d' (sensor +:+ " #-# " +:+ oid) = Some st ∧
    is_start st = frame_time ToDatetime frame ∧ is_end st = frame_time ToDatetime frame.
Proof.
  intros H1 H2 Ho Hne.
  assert (∃ st d', get_restricted_area_violation_state ToDatetime cfg sensor roi1 oid frame d
    = (Ok tt, d') ∧ dget d' (sensor +:+ " #-# " +:+ oid) = Some st ∧ has_roi roi1 st = true)
    as (st1 & d1 & E1 & Hg & Hr).
  { unfold get_restricted_area_violation_state, process_violation_state.
    rewrite (proj2 (String.eqb_neq _ _) H1), (proj2 (String.eqb_neq _ _) Ho). simpl.
    destruct (dget d _) as [st|] eqn:E.
    - destruct (has_roi roi1 st); eexists _, _; (split; [done|]); rewrite dget_dset_eq;
        (split; [done|]); unfold has_roi; simpl; rewrite ?dget_dset_eq; apply String.eqb_refl.
    - eexists _, _. split; [done|]. rewrite dget_dset_eq. split; [done|].
      unfold has_roi. simpl. apply String.eqb_refl. }
  unfold mbind, stM_bind. rewrite E1. simpl.
  unfold get_restricted_area_violation_state at 1, process_violation_state.
  rewrite (proj2 (String.eqb_neq _ _) H2), (proj2 (String.eqb_neq _ _) Ho). simpl.
  rewrite Hg. assert (has_roi roi2 st1 = false) as ->.
  { unfold has_roi in *. destruct (dget (is_info st1) "roiId") as [[r|x]|]; try done.
    apply String.eqb_eq in Hr. subst. by apply String.eqb_neq. }
  eexists _, _. split; [done|]. by rewrite dget_dset_eq.
Qed.
End properties.

(** ** Witnesses: one camera, a proximity violation, then silence *)
Definition to_dt (t : proto_ts) : datetime := seconds t * 1000000 + nanos t / 1000.
Definition fcfg_ex (fov : bool) : FrameConfig :=
  mk_FrameConfig 60 0 (λ _, 2) (Z2f 600)
    (λ c, match c with FOV_COUNT_VIOLATION => fov | _ => true end)
    (λ _, Z2f 1) (λ _, Z2f 3) 2 "Person".
Definition frame_ex (t : Z) (prox : string) (roi_ids : list string) (fov : list TypeMetrics) : Frame :=
  mk_Frame "f" (mk_proto_ts t 0) [] fov
    ((λ r, mk_TypeMetrics r "" 1 ["7"] [("restrictedAreaViolation", "True")]) <$> roi_ids)
    [("proximityViolationObjects", prox)] [("place", "hall")].
Definition frames_ex : list (list Frame) :=
  [[frame_ex 10 "1,3,2" [] []; frame_ex 12 "1,4" [] []]; [frame_ex 17 "" [] []]].
Definition fm_ex (n : nat) : FrameStateMgmt :=
  foldl (λ s frames, (update_frames to_dt (fcfg_ex false) "cam" frames s).2)
    new_FrameStateMgmt (take n frames_ex).

Lemma fcfg_ttl fov : ttl_ok (fcfg_ex fov).
Proof. exists 600000000. split; [vm_compute; reflexivity|lia]. Qed.

Lemma fm_ex_inv n : mgmt_inv (fm_ex n).
Proof.
  unfold fm_ex. generalize (take n frames_ex) new_FrameStateMgmt_inv.
  generalize new_FrameStateMgmt. intros s l. revert s.
  induction l as [|f l IH]; intros s Hs; simpl; [done|].
  apply IH, update_frames_good; [apply fcfg_ttl|done].
Qed.

Example merged_ids : (is_object_ids <$> dvals (default [] (fs_safety <$> dget (fm_state (fm_ex 1)) "cam")))
  = [["1"; "2"; "3"; "4"]].
Proof. vm_compute. reflexivity. Qed.
Example queued : (is_start <$> default [] (dget (completed_states (fm_ex 2)) "cam")) = [10000000].
Proof. vm_compute. reflexivity. Qed.

Lemma frame_calls_total_witness :
  (update_frames to_dt (fcfg_ex false) "cam" [frame_ex 10 "1,2" [] []] new_FrameStateMgmt).1 = Ok tt.
Proof.
  apply (frame_calls_total to_dt (fcfg_ex false) new_FrameStateMgmt);
    [apply fcfg_ttl|apply rtc_refl|reflexivity].
Defined.

Lemma get_incidents_once_witness :
  ∃ out s', get_incidents (fcfg_ex false) "cam" (fm_ex 1) = (Ok out, s') ∧
            get_incidents (fcfg_ex false) "cam" s' = (Ok [], s').
Proof. apply (get_incidents_once (fcfg_ex false) "cam" (fm_ex 1)); [done|apply fm_ex_inv]. Defined.

Lemma get_incidents_drains_witness :
  ∃ out s', get_incidents (fcfg_ex false) "cam" (fm_ex 2) = (Ok out, s') ∧
    default [] (dget (completed_states s') "cam") = [].
Proof.
  destruct (get_incidents_drains (fcfg_ex false) "cam" (fm_ex 2))
    as (out & s' & H1 & _ & H2 & _); [done|apply fm_ex_inv|].
  exists out, s'. by split.
Defined.

Lemma frame_history_bounded_witness :
  (length (history "cam" (fm_ex 2)) ≤ 2)%nat.
Proof. apply (frame_history_bounded to_dt (fcfg_ex false) "cam" frames_ex); [done|simpl; lia]. Defined.

Lemma merge_object_ids_canonical_witness :
  merge_object_ids ["9"; "5"; "1"] ["1"; "7"] = Ok ["9"; "1"; "5"; "7"] ∧
  merge_object_ids ["9"; "7"] ["5"; "9"; "1"] = Ok ["9"; "1"; "5"; "7"].
Proof.
  assert (merge_object_ids ["9"; "5"; "1"] ["1"; "7"] = Ok ["9"; "1"; "5"; "7"]) as H
    by reflexivity.
  split; [exact H|]. apply (merge_object_ids_canonical "9" ["5"; "1"] ["1"; "7"] _ H).
  intros x. rewrite !elem_of_app, !elem_of_cons, !elem_of_nil. tauto.
Defined.

Lemma overlapping_rois_reset_witness :
  ∃ d' st,
    (_ ← get_restricted_area_violation_state to_dt (fcfg_ex false) "cam" "A" "7"
           (frame_ex 12 "" ["A"; "B"] []);
     get_restricted_area_violation_state to_dt (fcfg_ex false) "cam" "B" "7"
           (frame_ex 12 "" ["A"; "B"] [])) [] = (Ok tt, d') ∧
    dget d' "cam #-# 7" = Some st ∧ is_start st = 12000000 ∧ is_end st = 12000000.
Proof.
  apply (overlapping_rois_reset to_dt (fcfg_ex false) "cam" "A" "B" "7"
    (frame_ex 12 "" ["A"; "B"] []) []); done.
Defined.

(** A minute inside one area opens a violation of that length; inside two
    overlapping areas, none that lasts. *)
Definition minute (rois : list string) : list Frame :=
  (λ t, frame_ex (Z.of_nat t) "" rois []) <$> seq 1 60.
Definition restricted_spans (rois : list string) : list Z :=
  (λ st, is_end st - is_start st) <$>
    dvals (default [] (fs_restricted <$> dget (fm_state
      (update_frames to_dt (fcfg_ex false) "cam" (minute rois) new_FrameStateMgmt).2) "cam")).
Lemma overlapping_rois_run :
  restricted_spans ["A"] = [59000000] ∧ restricted_spans ["A"; "B"] = [0].
Proof. split; vm_compute; reflexivity. Qed.

(** A field-of-view violation whose metric lists no object ids makes the next
    such frame raise. *)
Definition fov_ex : list TypeMetrics := [mk_TypeMetrics "t" "Person" 5 [] []].
Lemma fov_without_ids_raises :
  (update_frames to_dt (fcfg_ex true) "cam"
     [frame_ex 10 "" [] fov_ex; frame_ex 11 "" [] fov_ex] new_FrameStateMgmt).1 = Exn IndexError.
Proof. vm_compute. reflexivity. Qed.
