(* ===== verification/Amr.v ===== *)
(** * AMR and ROI mute states

    [stream/state/amr/amr_state_management.py] ([class AmrStateMgmt]) with
    [CalibrationBase.roi_restricted_types]. The latest frame that passes the
    time filter decides, for every region and every autonomous mobile robot
    (AMR) in one, whether its alarm is muted; an update returns the states
    whose mute changed. The returned objects are the stored ones, whose change
    flag is reset before the call returns. *)

From Stdlib Require Import ZArith Lia.
From stdpp Require Import base list strings.
From S2P Require Import Prelude PyDict PyFloat Schema FrameState.
Open Scope Z_scope.

(** The part of a calibrated ROI that is read. *)
Record ROI := mk_ROI { roi_id : string; restrictedObjectTypes : list string }.

Definition set_mute (v : bool) (s : AmrState) : AmrState :=
  mk_AmrState (am_id s) (am_roi_id s) (am_sensor_id s) (am_object_id s) (Some v) true.
Definition reset_amr (s : AmrState) : AmrState :=
  mk_AmrState (am_id s) (am_roi_id s) (am_sensor_id s) (am_object_id s) (am_mute s) false.
Definition set_roi_mute (v : bool) (s : RoiState) : RoiState :=
  mk_RoiState (ro_id s) (ro_sensor_id s) (Some v) true.
Definition reset_roi (s : RoiState) : RoiState :=
  mk_RoiState (ro_id s) (ro_sensor_id s) (ro_mute s) false.
Definition set_fs_amr (v : dict string AmrState) (f : FrameState) : FrameState :=
  mk_FrameState (fs_id f) (fs_last_x_frames f) (fs_safety f) (fs_restricted f) (fs_confined f)
    (fs_fov f) v (fs_roi_states f).
Definition set_fs_roi (v : dict string RoiState) (f : FrameState) : FrameState :=
  mk_FrameState (fs_id f) (fs_last_x_frames f) (fs_safety f) (fs_restricted f) (fs_confined f)
    (fs_fov f) (fs_amr_states f) v.

(** [_get_ocr_id] *)
Fixpoint find_ocr (object_id : string) (objects : list Object) : string :=
  match objects with
  | [] => EmptyString
  | o :: rest =>
      if String.eqb (ob_id o) object_id then default EmptyString (dget (ob_info o) "ocrId")
      else find_ocr object_id rest
  end.
Definition get_ocr_id (object_id : string) (frame : Frame) : string :=
  find_ocr object_id (fr_objects frame).

Section amr.
  Context (ToDatetime : proto_ts → datetime) (cfg : FrameConfig).
  Context (sensor_map : dict string (list ROI)).

(** [CalibrationBase.roi_restricted_types] *)
Definition roi_restricted_types (sensor_id : string) : dict string (list string) :=
  foldl (λ d r, dset d (roi_id r) (restrictedObjectTypes r)) []
    (default [] (dget sensor_map sensor_id)).

Definition violating (roi : TypeMetrics) : bool :=
  str_to_bool (default "false" (dget (tm_info roi) "restrictedAreaViolation")).

Definition restricted_entry (types : dict string (list string)) (roi : TypeMetrics) : bool :=
  bool_decide (tm_type roi ∈ default [] (dget types (tm_id roi))).

(** [roi_to_restricted_state]: for each ROI with a restricted entry, whether
    none of its entries is violating. *)
Definition roi_to_restricted_state (types : dict string (list string))
    (rois : list TypeMetrics) : dict string bool :=
  foldl (λ d roi,
    if restricted_entry types roi
    then dset d (tm_id roi) (default true (dget d (tm_id roi)) && negb (violating roi))
    else d) [] rois.

Definition latest_frame (frames : list Frame) : option Frame :=
  last (filter_frames ToDatetime cfg frames).

(** ** [update_amr_states] *)
Definition amr_step (sensor_id : string) (frame : Frame) (restricted : dict string bool)
    (roi : TypeMetrics) (d : dict string AmrState) (object_id : string) : dict string AmrState :=
  let ocr_id := get_ocr_id object_id frame in
  let st := default (mk_AmrState ocr_id (tm_id roi) sensor_id object_id (Some true) false)
              (dget d ocr_id) in
  let r := default true (dget restricted (tm_id roi)) in
  dset d ocr_id (if bool_decide (am_mute st = Some r) then st else set_mute r st).

Definition update_amr_states (sensor_id : string) (frames : list Frame)
    : stM (dict string FrameState) (list AmrState) :=
  λ states,
    match latest_frame frames with
    | None => (Ok [], states)
    | Some f =>
        let fs := default (new_FrameState sensor_id) (dget states sensor_id) in
        let restricted := roi_to_restricted_state (roi_restricted_types sensor_id) (fr_rois f) in
        let d := foldl (λ d roi,
                   if String.eqb (tm_type roi) "AMR"
                   then foldl (amr_step sensor_id f restricted roi) d (tm_objectIds roi)
                   else d) (fs_amr_states fs) (fr_rois f) in
        (Ok (reset_amr <$> filter (λ s, am_mute_state_changed s = true) (dvals d)),
         dset states sensor_id (set_fs_amr (dmap reset_amr d) fs))
    end.

(** ** [update_roi_states] *)
Definition roi_step (sensor_id : string) (restricted : dict string bool)
    (d : dict string RoiState) (r : ROI) : dict string RoiState :=
  let st := default (mk_RoiState (roi_id r) sensor_id (Some true) false) (dget d (roi_id r)) in
  let v := default true (dget restricted (roi_id r)) in
  dset d (roi_id r) (if bool_decide (ro_mute st = Some v) then st else set_roi_mute v st).

Definition update_roi_states (sensor_id : string) (frames : list Frame)
    : stM (dict string FrameState) (list RoiState) :=
  λ states,
    match latest_frame frames with
    | None => (Ok [], states)
    | Some f =>
        let fs := default (new_FrameState sensor_id) (dget states sensor_id) in
        let restricted := roi_to_restricted_state (roi_restricted_types sensor_id) (fr_rois f) in
        match dget sensor_map sensor_id with
        | None => (Exn KeyError, states)
        | Some rois =>
            let d := foldl (roi_step sensor_id restricted) (fs_roi_states fs) rois in
            (Ok (reset_roi <$> filter (λ s, ro_mute_state_changed s = true) (dvals d)),
             dset states sensor_id (set_fs_roi (dmap reset_roi d) fs))
        end
    end.

(** ** Lemmas *)

(** The verdict on a ROI: muted unless one of its restricted entries violates. *)
Definition muted (types : dict string (list string)) (rois : list TypeMetrics) (rid : string)
    : bool :=
  forallb (λ roi, negb (restricted_entry types roi && String.eqb (tm_id roi) rid && violating roi))
    rois.

Lemma restricted_state_spec types rois rid :
  default true (dget (roi_to_restricted_state types rois) rid) = muted types rois rid.
Proof.
  unfold roi_to_restricted_state, muted.
  enough (∀ d, default true (dget (foldl (λ d roi,
    if restricted_entry types roi
    then dset d (tm_id roi) (default true (dget d (tm_id roi)) && negb (violating roi))
    else d) d rois) rid) = default true (dget d rid) &&
      forallb (λ roi, negb (restricted_entry types roi && String.eqb (tm_id roi) rid
        && violating roi)) rois) as H by by rewrite H.
  induction rois as [|r rois IH]; intros d; simpl; [by rewrite andb_true_r|].
  rewrite IH. destruct (restricted_entry types r); [|done]. rewrite dget_dset.
  destruct (String.eqb_spec (tm_id r) rid) as [->|Hne].
  - rewrite decide_True by done. simpl. by rewrite <-andb_assoc.
  - by rewrite decide_False.
Qed.

(** Between calls no stored state is flagged as changed. *)
Definition roi_rest (d : dict string RoiState) : Prop :=
  dict_wf d ∧ ∀ k st, dget d k = Some st → ro_mute_state_changed st = false.

(** What a ROI's state was before the call; an unseen ROI counts as muted. *)
Definition mute_before (d : dict string RoiState) (rid : string) : option bool :=
  match dget d rid with Some st => ro_mute st | None => Some true end.

Lemma roi_fold_spec sensor restricted d0 rois d :
  dict_wf d →
  (∀ k st, dget d k = Some st →
     (ro_mute_state_changed st = true ↔ ro_mute st ≠ mute_before d0 k) ∧
     (ro_mute_state_changed st = true → ro_mute st = Some (default true (dget restricted k)))) →
  (∀ k, dget d k = None → dget d0 k = None) →
  let d' := foldl (roi_step sensor restricted) d rois in
  dict_wf d' ∧
  (∀ k st, dget d' k = Some st →
     (ro_mute_state_changed st = true ↔ ro_mute st ≠ mute_before d0 k)) ∧
  (∀ r, r ∈ rois → ∃ st, dget d' (roi_id r) = Some st ∧
     ro_mute st = Some (default true (dget restricted (roi_id r)))) ∧
  (∀ k, k ∉ roi_id <$> rois → dget d' k = dget d k).
Proof.
  set (v k := default true (dget restricted k)).
  revert d. induction rois as [|r rois IH]; intros d Hwf Hd Hn; simpl.
  { split_and!; [done|intros; by apply Hd|by intros r ?%elem_of_nil|done]. }
  set (d1 := roi_step sensor restricted d r).
  assert (∃ st, dget d1 (roi_id r) = Some st ∧ ro_mute st = Some (v (roi_id r)) ∧
    (ro_mute_state_changed st = true ↔ ro_mute st ≠ mute_before d0 (roi_id r))) as (st1 & G1 & M1 & F1).
  { unfold d1, roi_step. fold (v (roi_id r)). rewrite dget_dset_eq.
    eexists; split; [done|]. destruct (dget d (roi_id r)) as [st|] eqn:E; simpl.
    - destruct (Hd _ _ E) as [H1 H2]. fold (v (roi_id r)) in H2.
      case_bool_decide as Hm; [done|]. simpl. split; [done|]. split; [|done]. intros _ Heq.
      apply Hm. destruct (ro_mute_state_changed st) eqn:Ec; [by apply H2|].
      rewrite Heq. destruct (decide (ro_mute st = mute_before d0 (roi_id r))); [done|].
      by apply H1 in n.
    - unfold mute_before. rewrite (Hn _ E). case_bool_decide as Hm; simpl; [done|].
      split; [done|]. split; [|done]. intros _ Heq. by rewrite Heq in Hm. }
  destruct (IH d1) as (I1 & I2 & I3 & I4).
  - by apply dict_wf_dset.
  - intros k st. destruct (decide (roi_id r = k)) as [<-|Hne].
    + rewrite G1. intros [= <-]. split; [done|]. by rewrite M1.
    + unfold d1, roi_step. rewrite dget_dset_ne by done. apply Hd.
  - intros k. unfold d1, roi_step. rewrite dget_dset. case_decide; [done|apply Hn].
  - split_and!; [done|done| |].
    + intros r' [->|Hin]%elem_of_cons; [|by apply I3].
      destruct (decide (roi_id r ∈ roi_id <$> rois)) as [(r2 & Hr2 & Hin)%list_elem_of_fmap|Hni].
      * rewrite Hr2. by apply I3.
      * rewrite I4 by done. eauto.
    + intros k Hk. apply not_elem_of_cons in Hk as [Hne Hni]. rewrite I4 by done.
      unfold d1, roi_step. by rewrite dget_dset_ne.
Qed.

(** ** Properties *)

(** Updating a calibrated sensor's regions never raises: from the latest
    frame in the time window every configured region is muted exactly when
    none of its restricted entries reports a violation, whatever placeholder
    entries accompany it; other regions keep their state, no state is left
    flagged, and the states returned are exactly those whose mute changed. *)
Theorem update_roi_states_spec sensor frames states rois f :
  dget sensor_map sensor = Some rois → latest_frame frames = Some f →
  let old := default [] (fs_roi_states <$> dget states sensor) in
  roi_rest old →
  ∃ out states' d,
    update_roi_states sensor frames states = (Ok out, states') ∧
    fs_roi_states <$> dget states' sensor = Some d ∧ roi_rest d ∧
    (∀ r, r ∈ rois → ro_mute <$> dget d (roi_id r) =
       Some (Some (muted (roi_restricted_types sensor) (fr_rois f) (roi_id r)))) ∧
    (∀ k, k ∉ roi_id <$> rois → ro_mute <$> dget d k = ro_mute <$> dget old k) ∧
    (∀ st, st ∈ out ↔ ∃ k, dget d k = Some st ∧ ro_mute st ≠ mute_before old k).
Proof.
  intros Hs Hf old [Hwf Hrest]. unfold update_roi_states. rewrite Hf, Hs.
  set (fs := default (new_FrameState sensor) (dget states sensor)).
  assert (fs_roi_states fs = old) as Ho by (unfold fs, old; by destruct (dget states sensor)).
  set (res := roi_to_restricted_state _ _). rewrite Ho.
  destruct (roi_fold_spec sensor res old rois old) as (H1 & H2 & H3 & H4); try done.
  { intros k st Hk. unfold mute_before. rewrite Hk, (Hrest _ _ Hk). by split. }
  set (d := foldl _ old rois) in *. eexists _, _, (dmap reset_roi d).
  split_and!; [done|by rewrite dget_dset_eq| | | |].
  - split; [by apply dict_wf_dmap|]. intros k st. rewrite dget_dmap.
    destruct (dget d k); [|done]. by intros [= <-].
  - intros r Hr. destruct (H3 r Hr) as (st & Hg & Hm). rewrite dget_dmap, Hg. simpl.
    rewrite Hm. unfold res. by rewrite restricted_state_spec.
  - intros k Hk. rewrite dget_dmap, H4 by done. by destruct (dget old k).
  - intros st. rewrite list_elem_of_fmap. split.
    + intros (st0 & -> & Hin). apply list_elem_of_filter in Hin as [Hc [k Hk]%dvals_elem].
      apply elem_dget in Hk; [|done]. exists k. rewrite dget_dmap, Hk. split; [done|].
      simpl. by apply (H2 _ _ Hk).
    + intros (k & Hk & Hm). rewrite dget_dmap in Hk.
      destruct (dget d k) as [st0|] eqn:E; [|done]. injection Hk as <-.
      exists st0. split; [done|]. apply list_elem_of_filter. split; [by apply (H2 _ _ E)|].
      apply dvals_elem. exists k. by apply dget_elem.
Qed.
End amr.

(** ** Witnesses *)
Definition roi_entry (rid typ v : string) (objs : list string) : TypeMetrics :=
  mk_TypeMetrics rid typ 0 objs [("restrictedAreaViolation", v)].
Definition robot (id ocr : string) : Object :=
  mk_Object id "AMR" f0 (mk_Bbox f0 f0 f0 f0) None (mk_Coordinate f0 f0 f0) None [("ocrId", ocr)].
Definition amr_frame (rois : list TypeMetrics) : Frame :=
  mk_Frame "f" (mk_proto_ts 5 0) [robot "7" "R2"] [] rois [] [].
Definition calib_ex : dict string (list ROI) :=
  [("cam", [mk_ROI "A" ["Person"; "Forklift"]; mk_ROI "B" ["Person"]])].
Definition rois_ex : list TypeMetrics :=
  [roi_entry "A" "Person" "true" []; roi_entry "A" "Forklift" "false" [];
   roi_entry "A" "AMR" "false" ["7"]; roi_entry "B" "AMR" "false" ["7"]].

Lemma update_roi_states_spec_witness :
  ∃ out states' d,
    update_roi_states to_dt (fcfg_ex false) calib_ex "cam" [amr_frame rois_ex] [] = (Ok out, states') ∧
    fs_roi_states <$> dget states' "cam" = Some d ∧
    (∀ st, st ∈ out ↔ ∃ k, dget d k = Some st ∧ ro_mute st ≠ mute_before [] k).
Proof.
  destruct (update_roi_states_spec to_dt (fcfg_ex false) calib_ex "cam" [amr_frame rois_ex] []
    [mk_ROI "A" ["Person"; "Forklift"]; mk_ROI "B" ["Person"]] (amr_frame rois_ex))
    as (out & states' & d & H1 & H2 & _ & _ & _ & H3);
    [reflexivity|vm_compute; reflexivity|split; [constructor|done]|].
  exists out, states', d. split_and!; [exact H1|exact H2|exact H3].
Defined.

Example roi_update_ex :
  (ro_id <$> match (update_roi_states to_dt (fcfg_ex false) calib_ex "cam" [amr_frame rois_ex] []).1
             with Ok l => l | Exn _ => [] end) = ["A"].
Proof. vm_compute. reflexivity. Qed.

(** A robot inside a violating and a quiet region in one frame ends the frame
    muted, as it began, yet is returned as changed. *)
Lemma amr_in_two_rois :
  (update_amr_states to_dt (fcfg_ex false) calib_ex "cam" [amr_frame rois_ex] []).1 =
    Ok [mk_AmrState "R2" "A" "cam" "7" (Some true) false].
Proof. vm_compute. reflexivity. Qed.
