(* ===== verification/ActionState.v ===== *)
(** * Action intervals and fall-risk confirmation of one object

    [schema/action/action_state.py]: [ActionState] accumulates, per action
    type, the intervals in which a tracked person was seen doing it;
    [FallRiskState] counts observations towards starting and ending an alert.
    A two-element list [[start, end]] of the code is an [interval] record. *)

From Stdlib Require Import ZArith Lia.
From stdpp Require Import base list strings.
From S2P Require Import Prelude PyDict PyFloat Schema.
Open Scope Z_scope.

Record Action := mk_Action { ac_type : string; ac_confidence : float }.

Record ActionState := mk_ActionState {
  as_sensor_id : string;
  as_object_id : string;
  last_action : string;
  action_intervals : dict string (list interval);
  durations : dict string float;
  ACTION_CONFIDENCE_THRESHOLD : float;
}.

Definition new_ActionState (sensor_id object_id : string) (action_threshold : float)
    : ActionState :=
  mk_ActionState sensor_id object_id "Unknown" [] [] action_threshold.

Definition set_last_action (v : string) (s : ActionState) : ActionState :=
  mk_ActionState (as_sensor_id s) (as_object_id s) v (action_intervals s) (durations s)
    (ACTION_CONFIDENCE_THRESHOLD s).
Definition set_action_intervals (v : dict string (list interval)) (s : ActionState)
    : ActionState :=
  mk_ActionState (as_sensor_id s) (as_object_id s) (last_action s) v (durations s)
    (ACTION_CONFIDENCE_THRESHOLD s).
Definition set_durations (v : dict string float) (s : ActionState) : ActionState :=
  mk_ActionState (as_sensor_id s) (as_object_id s) (last_action s) (action_intervals s) v
    (ACTION_CONFIDENCE_THRESHOLD s).

(** The entries of a type seen for the first time. *)
Definition add_type (action_type : string) (s : ActionState) : ActionState :=
  if dmem (action_intervals s) action_type then s
  else set_durations (dset (durations s) action_type f0)
         (set_action_intervals (dset (action_intervals s) action_type []) s).

Definition update_action (action : Action) (timestamp : datetime) : stM ActionState unit :=
  λ s0,
    if flt (ACTION_CONFIDENCE_THRESHOLD s0) (ac_confidence action) then
      let t := ac_type action in
      let s := add_type t s0 in
      let ivs := default [] (dget (action_intervals s) t) in
      if String.eqb (last_action s) t then
        match dget (durations s) t with
        | None => (Exn KeyError, s)
        | Some d =>
            match last ivs with
            | None => (Exn IndexError, s)
            | Some i =>
                (Ok tt,
                 set_action_intervals
                   (dset (action_intervals s) t
                      (removelast ivs ++ [mk_interval (iv_start i) timestamp]))
                   (set_durations
                      (dset (durations s) t (fadd d (total_seconds (timestamp - iv_end i)))) s))
            end
        end
      else
        (Ok tt,
         set_action_intervals
           (dset (action_intervals s) t (ivs ++ [mk_interval timestamp timestamp]))
           (set_last_action t s))
    else (Ok tt, s0).

Definition get_last_action (s : ActionState) : string := last_action s.

(** [None] when the type is unknown; the list of a known type may be empty. *)
Definition get_last_interval (action_type : string) (s : ActionState)
    : result (option interval) :=
  match dget (action_intervals s) action_type with
  | None => Ok None
  | Some ivs => match last ivs with Some i => Ok (Some i) | None => Exn IndexError end
  end.

Definition get_action_intervals (s : ActionState) := action_intervals s.
Definition get_durations (s : ActionState) := durations s.

(** ** [FallRiskState] *)
Record FallRiskState := mk_FallRiskState {
  fr_sensor_id : string;
  fr_object_id : string;
  fall_risk : bool;
  start_time : datetime;
  end_time : datetime;
  n_confirm_start : Z;
  n_confirm_end : Z;
  N_CONFIRM_START : Z;
  N_CONFIRM_END : Z;
}.

Definition new_FallRiskState (sensor_id object_id : string) (timestamp : datetime)
    (n_start n_end : Z) : FallRiskState :=
  mk_FallRiskState sensor_id object_id false timestamp timestamp 0 0 n_start n_end.

Definition is_fall_risk (s : FallRiskState) : bool := fall_risk s.

Definition update_start_time (t : datetime) (s : FallRiskState) : FallRiskState :=
  mk_FallRiskState (fr_sensor_id s) (fr_object_id s) (fall_risk s) t (end_time s)
    (n_confirm_start s) (n_confirm_end s) (N_CONFIRM_START s) (N_CONFIRM_END s).
Definition update_end_time (t : datetime) (s : FallRiskState) : FallRiskState :=
  mk_FallRiskState (fr_sensor_id s) (fr_object_id s) (fall_risk s) (start_time s) t
    (n_confirm_start s) (n_confirm_end s) (N_CONFIRM_START s) (N_CONFIRM_END s).
Definition update_fall_risk (v : bool) (t : datetime) (s : FallRiskState) : FallRiskState :=
  mk_FallRiskState (fr_sensor_id s) (fr_object_id s) v (start_time s) t
    (n_confirm_start s) (n_confirm_end s) (N_CONFIRM_START s) (N_CONFIRM_END s).
Definition get_start_time (s : FallRiskState) : datetime := start_time s.
Definition get_end_time (s : FallRiskState) : datetime := end_time s.

Definition set_n_start (n : Z) (s : FallRiskState) : FallRiskState :=
  mk_FallRiskState (fr_sensor_id s) (fr_object_id s) (fall_risk s) (start_time s) (end_time s)
    n (n_confirm_end s) (N_CONFIRM_START s) (N_CONFIRM_END s).
Definition set_n_end (n : Z) (s : FallRiskState) : FallRiskState :=
  mk_FallRiskState (fr_sensor_id s) (fr_object_id s) (fall_risk s) (start_time s) (end_time s)
    (n_confirm_start s) n (N_CONFIRM_START s) (N_CONFIRM_END s).
Definition increase_n_confirm_start (s : FallRiskState) := set_n_start (n_confirm_start s + 1) s.
Definition is_confirmed_start (s : FallRiskState) : bool :=
  N_CONFIRM_START s <=? n_confirm_start s.
Definition increase_n_confirm_end (s : FallRiskState) := set_n_end (n_confirm_end s + 1) s.
Definition is_confirmed_end (s : FallRiskState) : bool := N_CONFIRM_END s <=? n_confirm_end s.
Definition reset_n_confirm_start (s : FallRiskState) := set_n_start 0 s.
Definition reset_n_confirm_end (s : FallRiskState) := set_n_end 0 s.

(** ** The invariant of [ActionState] *)

(** Intervals in order: each spans forward, starts no earlier than its
    predecessor ended, and none ends after [now]. *)
Fixpoint intervals_upto (now : datetime) (ivs : list interval) : Prop :=
  match ivs with
  | [] => True
  | i :: rest =>
      iv_start i ≤ iv_end i ∧ iv_end i ≤ now ∧ intervals_upto now rest ∧
      match rest with j :: _ => iv_end i ≤ iv_start j | [] => True end
  end.

Record action_inv (now : datetime) (s : ActionState) : Prop := mk_action_inv {
  ai_wf : dict_wf (action_intervals s);
  ai_ivs : ∀ t ivs, dget (action_intervals s) t = Some ivs →
    intervals_upto now ivs ∧ is_Some (dget (durations s) t) ∧ (t ≠ "Unknown" → ivs ≠ []);
  ai_last : last_action s ≠ "Unknown" →
    ∃ ivs, dget (action_intervals s) (last_action s) = Some ivs ∧ ivs ≠ [];
}.

(** ** Lemmas *)

Lemma intervals_upto_mono now now' ivs :
  now ≤ now' → intervals_upto now ivs → intervals_upto now' ivs.
Proof.
  intros H. induction ivs as [|i ivs IH]; simpl; [done|].
  intros (H1 & H2 & H3 & H4). split_and!; [done|lia|by apply IH|done].
Qed.

Lemma intervals_upto_extend now ivs i t :
  intervals_upto now (ivs ++ [i]) → now ≤ t →
  intervals_upto t (ivs ++ [mk_interval (iv_start i) t]).
Proof.
  intros H Ht. induction ivs as [|j ivs IH]; simpl in *.
  - destruct H as (? & ? & _). split_and!; simpl; try done; lia.
  - destruct H as (H1 & H2 & H3 & H4). split_and!; [done|lia|by apply IH|].
    by destruct ivs.
Qed.

Lemma intervals_upto_snoc now ivs t :
  intervals_upto now ivs → now ≤ t → intervals_upto t (ivs ++ [mk_interval t t]).
Proof.
  intros H Ht. induction ivs as [|j ivs IH]; simpl in *; [split_and!; simpl; try done; lia|].
  destruct H as (H1 & H2 & H3 & H4). split_and!; [done|lia|by apply IH|].
  destruct ivs; simpl in *; [lia|done].
Qed.

Lemma action_inv_mono now now' s : now ≤ now' → action_inv now s → action_inv now' s.
Proof.
  intros H [H1 H2 H3]. constructor; [done| |done]. intros t ivs Hg.
  destruct (H2 t ivs Hg) as (? & ? & ?). eauto using intervals_upto_mono.
Qed.

Lemma add_type_get t s : is_Some (dget (action_intervals (add_type t s)) t).
Proof.
  unfold add_type, dmem. destruct (dget (action_intervals s) t) eqn:E; [by rewrite E|].
  simpl. by rewrite dget_dset_eq.
Qed.

(** A known type is left alone, a new one gets empty entries. *)
Lemma add_type_cases t s :
  (is_Some (dget (action_intervals s) t) ∧ add_type t s = s) ∨
  (dget (action_intervals s) t = None ∧
   add_type t s = set_durations (dset (durations s) t f0)
                    (set_action_intervals (dset (action_intervals s) t []) s)).
Proof.
  unfold add_type, dmem. destruct (dget (action_intervals s) t); [left|right]; split; eauto.
Qed.

(** ** Properties *)

(** An observation made no earlier than the previous ones keeps every
    action's intervals ordered, disjoint and in the past, and never raises --
    unless the action type is the placeholder Unknown. *)
Theorem update_action_inv now (action : Action) (t : datetime) s :
  action_inv now s → now ≤ t → ac_type action ≠ "Unknown" →
  ∃ s', update_action action t s = (Ok tt, s') ∧ action_inv t s' ∧
    (flt (ACTION_CONFIDENCE_THRESHOLD s) (ac_confidence action) = true →
       last_action s' = ac_type action ∧
       ∃ ivs i, dget (action_intervals s') (ac_type action) = Some (ivs ++ [i]) ∧ iv_end i = t).
Proof.
  intros Hinv Ht Hu. unfold update_action.
  destruct (flt _ _) eqn:Ec; [|exists s; split_and!; [done|by eapply action_inv_mono|done]].
  set (ty := ac_type action) in *. destruct Hinv as [Hwf Hivs Hlast].
  destruct (add_type_cases ty s) as [[[ivs Hg] ->]|[Hg ->]]; simpl.
  - destruct (Hivs ty ivs Hg) as (Hup & [d Hd] & Hne). rewrite Hg, Hd. simpl.
    specialize (Hne Hu).
    destruct (String.eqb_spec (last_action s) ty) as [Hl|Hl].
    + destruct (exists_last Hne) as (l & i & ->). rewrite last_snoc, removelast_last.
      eexists; split; [done|]. split; [|intros _; simpl; rewrite dget_dset_eq; eauto].
      constructor; simpl; [by apply dict_wf_dset| |].
      * intros t' ivs'. rewrite !dget_dset. case_decide as E; [|].
        { intros [= <-]. subst. split_and!; [by eapply intervals_upto_extend|by eexists|].
          intros _ [_ ?]%app_nil. done. }
        intros Hg'. destruct (Hivs _ _ Hg') as (? & ? & ?).
        split_and!; [by eapply intervals_upto_mono|done|done].
      * intros _. rewrite Hl, dget_dset_eq. eexists; split; [done|]. by intros [_ ?]%app_nil.
    + eexists; split; [done|]. split; [|intros _; simpl; rewrite dget_dset_eq; eauto].
      constructor; simpl; [by apply dict_wf_dset| |].
      * intros t' ivs'. rewrite !dget_dset. case_decide as E; [|].
        { intros [= <-]. subst. split_and!; [by eapply intervals_upto_snoc|by eexists|].
          intros _ [_ ?]%app_nil. done. }
        intros Hg'. destruct (Hivs _ _ Hg') as (? & ? & ?).
        split_and!; [by eapply intervals_upto_mono|done|done].
      * intros _. rewrite dget_dset_eq. eexists; split; [done|]. by intros [_ ?]%app_nil.
  - assert (last_action s ≠ ty) as Hl.
    { intros <-. destruct (Hlast Hu) as (ivs & Hg' & _). congruence. }
    rewrite (proj2 (String.eqb_neq _ _) Hl), dget_dset_eq. simpl.
    eexists; split; [done|]. split; [|intros _; simpl; rewrite dget_dset_eq].
    2: { split; [done|]. by exists [], (mk_interval t t). }
    constructor; simpl; [by repeat apply dict_wf_dset| |].
    + intros t' ivs'. rewrite !dget_dset. case_decide as E; [|].
      { intros [= <-]. split_and!; simpl; try done; lia. }
      intros Hg'. destruct (Hivs _ _ Hg') as (? & ? & ?).
        split_and!; [by eapply intervals_upto_mono|done|done].
    + intros _. rewrite dget_dset_eq. by eexists.
Qed.

Lemma new_ActionState_inv now sensor oid thr : action_inv now (new_ActionState sensor oid thr).
Proof. constructor; simpl; [constructor|done|done]. Qed.

Lemma update_action_inv_witness :
  ∃ s', update_action (mk_Action "Walking" (lit 9 1)) 5 (new_ActionState "cam" "7" (lit 5 1))
          = (Ok tt, s') ∧ action_inv 5 s'.
Proof.
  destruct (update_action_inv 0 (mk_Action "Walking" (lit 9 1)) 5
    (new_ActionState "cam" "7" (lit 5 1))) as (s' & H1 & H2 & _);
    [apply new_ActionState_inv|lia|done|].
  exists s'. by split.
Defined.

(** The placeholder type on a fresh object continues an interval that was
    never opened. *)
Lemma unknown_action_raises :
  (update_action (mk_Action "Unknown" (lit 9 1)) 5 (new_ActionState "cam" "7" (lit 5 1))).1
    = Exn IndexError.
Proof. vm_compute. reflexivity. Qed.
