(* ===== verification/Anomaly.v ===== *)
(** * Anomalous actions: fall risk and lack of movement

    [transform/detection/anomaly_action_detection.py] ([class
    AnomalyActionDetection]). Per sensor and object the detector keeps an
    [ActionState] and, while a fall risk is tracked, a [FallRiskState].

    Incidents keep the fields of [Schema.Incident]; the analytics-module text
    is dropped from them. The description of a detection is returned as in the
    code; the decimal text of a duration in it is the parameter [repr_float].
    A protobuf frame is reduced to its sensor, time and the actions of each
    object's pose; its conversions of timestamps are parameters. *)

From Stdlib Require Import ZArith Lia.
From stdpp Require Import base list strings.
From S2P Require Import Prelude PyDict PyFloat Schema ActionState.
Open Scope Z_scope.

(** The sensor's detection settings; the [enable] switches of both detections
    exist in the configuration and are read by nothing. *)
Record AnomalyActionConfig := mk_AnomalyActionConfig {
  actionThreshold : float;
  ignoreSensors : list string;
  classes : list string;
  fallRisk_enable : bool;
  nConfirmStart : Z;
  nConfirmEnd : Z;
  lackMovement_enable : bool;
  durationThreshold : float;
}.

Record AnomalyActionDetection := mk_Detection {
  action_state : dict string (dict string ActionState);
  fall_risk_state : dict string (dict string FallRiskState);
}.
Definition new_Detection : AnomalyActionDetection := mk_Detection [] [].

Definition set_action_state v (s : AnomalyActionDetection) := mk_Detection v (fall_risk_state s).
Definition set_fall_risk_state v (s : AnomalyActionDetection) := mk_Detection (action_state s) v.

Definition LYING_DOWN : string := "Lying Down".

(** A detection: the flag and its description. *)
Abbreviation verdict := (bool * string)%type.

Section detection.
  Context (repr_float : float → string) (config : string → AnomalyActionConfig).

(** ** Fall risk *)
Definition init_start_confirmation_fr (sensor_id object_id : string) (timestamp : datetime)
    (cfg : AnomalyActionConfig) : stM AnomalyActionDetection verdict :=
  λ s,
    match nget (fall_risk_state s) sensor_id object_id with
    | None =>
        let st := reset_n_confirm_end (increase_n_confirm_start (reset_n_confirm_start
                    (update_start_time timestamp
                       (new_FallRiskState sensor_id object_id timestamp
                          (nConfirmStart cfg) (nConfirmEnd cfg))))) in
        (Ok (false, "Init new fall risk, confirm start"),
         set_fall_risk_state (nset (fall_risk_state s) sensor_id object_id st) s)
    | Some st =>
        (Ok (true, "Fall Risk " +:+ sensor_id +:+ "#" +:+ object_id +:+ ", Continue alert"),
         set_fall_risk_state
           (nset (fall_risk_state s) sensor_id object_id (update_fall_risk true timestamp st)) s)
    end.

Definition continue_end_confirmation_fr (sensor_id object_id : string)
    : stM AnomalyActionDetection verdict :=
  λ s,
    match nget (fall_risk_state s) sensor_id object_id with
    | Some st =>
        if is_confirmed_end st
        then (Ok (false, "Fall Risk " +:+ sensor_id +:+ "#" +:+ object_id +:+ ", stop alert"),
              set_fall_risk_state (ndel (fall_risk_state s) sensor_id object_id) s)
        else (Ok (false, "Wait for end confirm"),
              set_fall_risk_state
                (nset (fall_risk_state s) sensor_id object_id (increase_n_confirm_end st)) s)
    | None => (Ok (false, "Remain lying down"), s)
    end.

Definition handle_from_lying_down_fr (sensor_id object_id current_action : string)
    (timestamp : datetime) (cfg : AnomalyActionConfig) : stM AnomalyActionDetection verdict :=
  if negb (String.eqb current_action LYING_DOWN)
  then init_start_confirmation_fr sensor_id object_id timestamp cfg
  else continue_end_confirmation_fr sensor_id object_id.

Definition init_end_confirmation_fr (sensor_id object_id : string)
    : stM AnomalyActionDetection verdict :=
  λ s,
    match nget (fall_risk_state s) sensor_id object_id with
    | None => (Exn KeyError, s)
    | Some st =>
        if is_confirmed_start st
        then (Ok (false, "Init end confirmation"),
              set_fall_risk_state (nset (fall_risk_state s) sensor_id object_id
                (reset_n_confirm_start (increase_n_confirm_end (reset_n_confirm_end st)))) s)
        else (Ok (false, "Stop fall-risk tracking"), s)
    end.

Definition continue_confirm_start_or_continue_fr (sensor_id object_id : string)
    (timestamp : datetime) : stM AnomalyActionDetection verdict :=
  λ s,
    match nget (fall_risk_state s) sensor_id object_id with
    | None => (Exn KeyError, s)
    | Some st =>
        if is_confirmed_start st
        then (Ok (true, "Fall Risk " +:+ sensor_id +:+ "#" +:+ object_id +:+ ", Continue alert"),
              set_fall_risk_state (nset (fall_risk_state s) sensor_id object_id
                (update_fall_risk true timestamp st)) s)
        else (Ok (false, "Wait for start confirmation"),
              set_fall_risk_state (nset (fall_risk_state s) sensor_id object_id
                (increase_n_confirm_start st)) s)
    end.

Definition handle_from_other_action_fr (sensor_id object_id current_action : string)
    (timestamp : datetime) : stM AnomalyActionDetection verdict :=
  λ s,
    match nget (fall_risk_state s) sensor_id object_id with
    | None => (Ok (false, EmptyString), s)
    | Some _ =>
        if String.eqb current_action LYING_DOWN
        then init_end_confirmation_fr sensor_id object_id s
        else continue_confirm_start_or_continue_fr sensor_id object_id timestamp s
    end.

Definition detect_fall_risk (sensor_id object_id : string) (action : Action)
    (timestamp : datetime) (cfg : AnomalyActionConfig) : stM AnomalyActionDetection verdict :=
  λ s,
    match nget (action_state s) sensor_id object_id with
    | None => (Ok (false, EmptyString), s)
    | Some a =>
        if String.eqb (get_last_action a) "Unknown" then (Ok (false, EmptyString), s)
        else if String.eqb (get_last_action a) LYING_DOWN
        then handle_from_lying_down_fr sensor_id object_id (ac_type action) timestamp cfg s
        else handle_from_other_action_fr sensor_id object_id (ac_type action) timestamp s
    end.

(** ** Lack of movement *)
Definition detect_lack_movement (sensor_id object_id : string) (action : Action)
    (cfg : AnomalyActionConfig) (s : AnomalyActionDetection) : result verdict :=
  match nget (action_state s) sensor_id object_id with
  | None => Ok (false, EmptyString)
  | Some a =>
      if String.eqb (get_last_action a) "Unknown" then Ok (false, EmptyString)
      else if String.eqb (get_last_action a) LYING_DOWN
              && String.eqb (ac_type action) LYING_DOWN then
        i ← get_last_interval LYING_DOWN a;
        match i with
        | None => Ok (false, EmptyString)
        | Some i =>
            let duration := total_seconds (iv_end i - iv_start i) in
            Ok (if fle (durationThreshold cfg) duration
                then (true, "Lack Movement " +:+ sensor_id +:+ "#" +:+ object_id +:+
                        ", duration: " +:+ repr_float duration +:+ " seconds")
                else (false, EmptyString))
        end
      else Ok (false, EmptyString)
  end.

(** ** One observation *)

(** [AnomalyActionDetection.update_action] *)
Definition update_object_action (sensor_id object_id : string) (action : Action)
    (timestamp : datetime) (action_threshold : float) : stM AnomalyActionDetection unit :=
  λ s,
    let a := default (new_ActionState sensor_id object_id action_threshold)
               (nget (action_state s) sensor_id object_id) in
    let '(r, a') := update_action action timestamp a in
    (r, set_action_state (nset (action_state s) sensor_id object_id a') s).

Definition create_incident (sensor_id object_id : string) (start_ts end_ts : datetime)
    (incident_type : string) : Incident :=
  mk_Incident start_ts end_ts sensor_id [object_id] incident_type EmptyString
    [("primary_object_id", object_id)].

Definition fall_incidents (sensor_id object_id : string) (flag : bool)
    (s : AnomalyActionDetection) : list Incident :=
  if flag then
    match nget (fall_risk_state s) sensor_id object_id with
    | Some st => [create_incident sensor_id object_id (get_start_time st) (get_end_time st)
                    "fall_risk"]
    | None => []
    end
  else [].

Definition lack_incidents (sensor_id object_id : string) (flag : bool)
    (s : AnomalyActionDetection) : result (list Incident) :=
  if flag then
    match nget (action_state s) sensor_id object_id with
    | Some a =>
        i ← get_last_interval LYING_DOWN a;
        Ok (match i with
            | Some i => [create_incident sensor_id object_id (iv_start i) (iv_end i)
                           "lack_movement"]
            | None => []
            end)
    | None => Ok []
    end
  else Ok [].

Definition monitored (sensor_id object_type : string) : bool :=
  let cfg := config sensor_id in
  bool_decide (object_type ∈ classes cfg) && bool_decide (sensor_id ∉ ignoreSensors cfg).

Definition detect (sensor_id object_id : string) (action : Action) (timestamp : datetime)
    (object_type : string) : stM AnomalyActionDetection (list Incident) :=
  if monitored sensor_id object_type then
    let cfg := config sensor_id in
    fall ← detect_fall_risk sensor_id object_id action timestamp cfg;
    s1 ← sget;
    lack ← slift (detect_lack_movement sensor_id object_id action cfg s1);
    _ ← update_object_action sensor_id object_id action timestamp (actionThreshold cfg);
    s2 ← sget;
    lack_is ← slift (lack_incidents sensor_id object_id lack.1 s2);
    mret (fall_incidents sensor_id object_id fall.1 s2 ++ lack_is)
  else mret [].

(** ** Batches *)
Record PoseObject := mk_PoseObject { po_id : string; po_type : string; po_actions : list Action }.
Record PoseFrame := mk_PoseFrame {
  pf_sensorId : string;
  pf_timestamp : proto_ts;
  pf_objects : list PoseObject;
}.

Context (ToMilliseconds : proto_ts → Z) (ToDatetime : proto_ts → datetime).

Definition detect_object (f : PoseFrame) (o : PoseObject)
    : stM AnomalyActionDetection (list Incident) :=
  match last (po_actions o) with
  | Some a => detect (pf_sensorId f) (po_id o) a (ToDatetime (pf_timestamp f)) (po_type o)
  | None => mret []
  end.

Fixpoint concat_runs {A} (f : A → stM AnomalyActionDetection (list Incident)) (l : list A)
    : stM AnomalyActionDetection (list Incident) :=
  match l with
  | [] => mret []
  | x :: l' => i ← f x; is' ← concat_runs f l'; mret (i ++ is')
  end.

(** The frame loop of [detect_batch]. *)
Definition detect_frames (frames : list PoseFrame) : stM AnomalyActionDetection (list Incident) :=
  concat_runs (λ f, concat_runs (detect_object f) (pf_objects f))
    (sort_key (λ f, ToMilliseconds (pf_timestamp f)) frames).

(** The place of an incident: the one of the first behavior of its object. *)
Definition places {T} (behaviors : list (Behavior T)) : dict string (dict string string) :=
  foldl (λ d b,
    match nget d (se_id (be_sensor b)) (ob_id (be_object b)) with
    | Some _ => d
    | None => nset d (se_id (be_sensor b)) (ob_id (be_object b)) (be_place b)
    end) [] behaviors.
Definition assign_place (d : dict string (dict string string)) (i : Incident) : Incident :=
  match in_objectIds i with
  | oid :: _ =>
      match nget d (in_sensorId i) oid with
      | Some p => mk_Incident (in_timestamp i) (in_end i) (in_sensorId i) (in_objectIds i)
                    (in_category i) p (in_info i)
      | None => i
      end
  | [] => i
  end.

(** What a behavior's info is given: its last action and, per action, the
    duration and the intervals as epoch seconds (serialised to JSON by the code). *)
Record annotation := mk_annotation {
  an_current_action : string;
  an_action_intervals : list (string * float * list (float * float));
}.
Definition annotate {T} (s : AnomalyActionDetection) (b : Behavior T) : result annotation :=
  match nget (action_state s) (se_id (be_sensor b)) (ob_id (be_object b)) with
  | None => Ok (mk_annotation "Unknown" [])
  | Some a =>
      l ← mapM (λ kv : string * list interval,
            d ← require (dget (get_durations a) kv.1) KeyError;
            Ok (kv.1, d, (λ i, (timestamp_of (iv_start i), timestamp_of (iv_end i))) <$> kv.2))
            (get_action_intervals a);
      Ok (mk_annotation (get_last_action a) l)
  end.

Definition detect_batch {T} (behaviors : list (Behavior T)) (frames : list PoseFrame)
    : stM AnomalyActionDetection (list Incident * list annotation) :=
  incidents ← detect_frames frames;
  s ← sget;
  notes ← slift (mapM (annotate s) behaviors);
  mret (assign_place (places behaviors) <$> incidents, notes).

(** ** Reclaiming state *)
Definition remove_sensor (s : AnomalyActionDetection) (sensor_id : string)
    : AnomalyActionDetection :=
  mk_Detection (ddel (action_state s) sensor_id) (ddel (fall_risk_state s) sensor_id).
Definition remove_object (sensor_id : string) (s : AnomalyActionDetection) (object_id : string)
    : AnomalyActionDetection :=
  mk_Detection (ndel (action_state s) sensor_id object_id)
    (ndel (fall_risk_state s) sensor_id object_id).

Definition live_object_dict (live_objects : list string) : dict string (list string) :=
  foldl (λ d live_object,
    match py_split " #-# " live_object with
    | [sensor_id; object_id] => dset d sensor_id (object_id :: default [] (dget d sensor_id))
    | _ => d
    end) [] live_objects.

Definition reclaim_sensor (live : dict string (list string)) (s : AnomalyActionDetection)
    (sensor_id : string) : AnomalyActionDetection :=
  match dget live sensor_id with
  | None => remove_sensor s sensor_id
  | Some objects =>
      foldl (λ s object_id,
        if decide (object_id ∈ objects) then s else remove_object sensor_id s object_id)
        s (dkeys (default [] (dget (action_state s) sensor_id)))
  end.

Definition update_live_object (live_objects : list string) (s : AnomalyActionDetection)
    : AnomalyActionDetection :=
  foldl (reclaim_sensor (live_object_dict live_objects)) s (dkeys (action_state s)).
End detection.

(** ** The fall-risk machine of one object

    The specification the nested dictionaries implement: from the last
    confident action, the current one and the tracking state, the alert flag
    and the next tracking state. *)
Definition fall_next (sensor oid last cur : string) (ts : datetime) (cfg : AnomalyActionConfig)
    (fr : option FallRiskState) : bool * option FallRiskState :=
  if String.eqb last LYING_DOWN then
    if String.eqb cur LYING_DOWN then
      match fr with
      | Some st => (false, if is_confirmed_end st then None else Some (increase_n_confirm_end st))
      | None => (false, None)
      end
    else
      match fr with
      | Some st => (true, Some (update_fall_risk true ts st))
      | None => (false, Some (set_n_start 1
                   (new_FallRiskState sensor oid ts (nConfirmStart cfg) (nConfirmEnd cfg))))
      end
  else
    match fr with
    | None => (false, None)
    | Some st =>
        if String.eqb cur LYING_DOWN then
          (false, Some (if is_confirmed_start st then set_n_start 0 (set_n_end 1 st) else st))
        else if is_confirmed_start st then (true, Some (update_fall_risk true ts st))
        else (false, Some (increase_n_confirm_start st))
    end.

(** An action state on which no observation of a real action raises. *)
Definition ready (a : ActionState) : Prop :=
  (∀ t, is_Some (dget (action_intervals a) t) → is_Some (dget (durations a) t)) ∧
  (∀ ivs, dget (action_intervals a) (last_action a) = Some ivs → ivs ≠ []) ∧
  last_action a ≠ "Unknown" ∧ is_Some (dget (action_intervals a) (last_action a)).

Lemma update_ready action t a :
  ready a → flt (ACTION_CONFIDENCE_THRESHOLD a) (ac_confidence action) = true →
  ac_type action ≠ "Unknown" →
  ∃ a', update_action action t a = (Ok tt, a') ∧ ready a' ∧
    last_action a' = ac_type action ∧
    ACTION_CONFIDENCE_THRESHOLD a' = ACTION_CONFIDENCE_THRESHOLD a.
Proof.
  intros (H1 & H2 & H3 & H4) Hc Hu. unfold update_action. rewrite Hc.
  set (ty := ac_type action) in *.
  destruct (add_type_cases ty a) as [[[ivs Hg] ->]|[Hg ->]]; simpl.
  - destruct (H1 ty) as [d Hd]; [by eexists|]. rewrite Hg, Hd. simpl.
    destruct (String.eqb_spec (last_action a) ty) as [Hl|Hl].
    + rewrite Hl in *. destruct (exists_last (H2 _ Hg)) as (l & i & ->).
      rewrite last_snoc. eexists; split; [done|]. unfold ready.
      split_and!; simpl; rewrite ?Hl, ?dget_dset_eq; try done.
      * intros t'. rewrite !dget_dset. case_decide; [by eexists|apply H1].
      * by intros ? [= <-] [_ ?]%app_nil.
    + eexists; split; [done|]. unfold ready. split_and!; simpl; try done; rewrite ?dget_dset_eq; try done.
      * intros t'. rewrite dget_dset. case_decide; [subst; by eexists|apply H1].
      * by intros ? [= <-] [_ ?]%app_nil.
  - assert (last_action a ≠ ty) as Hl.
    { intros E. rewrite E, Hg in H4. by destruct H4. }
    rewrite (proj2 (String.eqb_neq _ _) Hl), dget_dset_eq. simpl.
    eexists; split; [done|]. unfold ready. split_and!; simpl; try done; rewrite ?dget_dset_eq; try done.
    + intros t'. rewrite !dget_dset. case_decide; [by eexists|apply H1].
    + by intros ? [= <-].
Qed.

Section runs.
  Context (repr_float : float → string) (config : string → AnomalyActionConfig).

Lemma detect_fall_risk_spec sensor oid action ts cfg s a :
  nget (action_state s) sensor oid = Some a → last_action a ≠ "Unknown" →
  let '(flag, fr) := fall_next sensor oid (last_action a) (ac_type action) ts cfg
                       (nget (fall_risk_state s) sensor oid) in
  ∃ d s', detect_fall_risk sensor oid action ts cfg s = (Ok (flag, d), s') ∧
    action_state s' = action_state s ∧
    nget (fall_risk_state s') sensor oid = fr ∧
    (∀ s2 o2, ¬ (sensor = s2 ∧ oid = o2) →
       nget (fall_risk_state s') s2 o2 = nget (fall_risk_state s) s2 o2).
Proof.
  intros Ha Hu. unfold detect_fall_risk, fall_next, get_last_action. rewrite Ha.
  rewrite (proj2 (String.eqb_neq _ _) Hu).
  unfold handle_from_lying_down_fr, init_start_confirmation_fr, continue_end_confirmation_fr,
    handle_from_other_action_fr, init_end_confirmation_fr, continue_confirm_start_or_continue_fr.
  destruct (String.eqb (last_action a) LYING_DOWN), (String.eqb (ac_type action) LYING_DOWN);
    simpl; destruct (nget (fall_risk_state s) sensor oid) as [st|] eqn:Ef; simpl;
    try (destruct (is_confirmed_end st)); try (destruct (is_confirmed_start st));
    eexists _, _; (split; [done|]); (split; [done|]); simpl;
    rewrite ?nget_nset, ?nget_ndel, ?decide_True by done; (split; [done|]);
    intros s2 o2 Hne; by rewrite ?nget_nset, ?nget_ndel, ?decide_False by done.
Qed.

(** One observation of a real action with confidence. *)
Lemma detect_step sensor oid otype action ts s a :
  monitored config sensor otype = true →
  nget (action_state s) sensor oid = Some a → ready a →
  flt (ACTION_CONFIDENCE_THRESHOLD a) (ac_confidence action) = true →
  ac_type action ≠ "Unknown" →
  ¬ (last_action a = LYING_DOWN ∧ ac_type action = LYING_DOWN) →
  let '(flag, fr) := fall_next sensor oid (last_action a) (ac_type action) ts (config sensor)
                       (nget (fall_risk_state s) sensor oid) in
  ∃ s' a', detect repr_float config sensor oid action ts otype s =
      (Ok (match fr with
           | Some st => if flag then [create_incident sensor oid (start_time st) (end_time st)
                                        "fall_risk"] else []
           | None => [] end), s') ∧
    nget (action_state s') sensor oid = Some a' ∧ ready a' ∧
    last_action a' = ac_type action ∧
    ACTION_CONFIDENCE_THRESHOLD a' = ACTION_CONFIDENCE_THRESHOLD a ∧
    nget (fall_risk_state s') sensor oid = fr.
Proof.
  intros Hm Ha Hr Hc Hu Hnl. pose proof Hr as (_ & _ & Hl & _).
  pose proof (detect_fall_risk_spec sensor oid action ts (config sensor) s a Ha Hl) as Hf.
  destruct (fall_next _ _ _ _ _ _ _) as [flag fr].
  destruct Hf as (d & s1 & E & Hact & Hfr & _).
  unfold detect. rewrite Hm. unfold mbind, stM_bind, sget, slift. rewrite E.
  assert (detect_lack_movement repr_float sensor oid action (config sensor) s1
    = Ok (false, EmptyString)) as ->.
  { unfold detect_lack_movement, get_last_action. rewrite Hact, Ha.
    rewrite (proj2 (String.eqb_neq _ _) Hl).
    destruct (String.eqb_spec (last_action a) LYING_DOWN),
      (String.eqb_spec (ac_type action) LYING_DOWN); try done. tauto. }
  unfold update_object_action. rewrite Hact, Ha. simpl.
  destruct (update_ready action ts a Hr Hc Hu) as (a' & -> & Hr' & Hl' & Ht').
  eexists _, a'. split.
  - simpl. rewrite app_nil_r. unfold fall_incidents. simpl. rewrite Hfr.
    destruct flag, fr; done.
  - simpl. rewrite nget_nset_eq. by split_and!.
Qed.

(** Successive observations of one object. *)
Fixpoint detect_run (sensor oid otype : string) (obs : list (Action * datetime))
    : stM AnomalyActionDetection (list (list Incident)) :=
  match obs with
  | [] => mret []
  | (action, ts) :: rest =>
      i ← detect repr_float config sensor oid action ts otype;
      l ← detect_run sensor oid otype rest;
      mret (i :: l)
  end.

(** A confident observation of something other than lying down. *)
Definition moving (thr : float) (o : Action * datetime) : Prop :=
  flt thr (ac_confidence o.1) = true ∧ ac_type o.1 ≠ LYING_DOWN ∧ ac_type o.1 ≠ "Unknown".

Lemma moving_run sensor oid otype obs s a st (i : nat) :
  monitored config sensor otype = true →
  nget (action_state s) sensor oid = Some a → ready a → last_action a ≠ LYING_DOWN →
  nget (fall_risk_state s) sensor oid = Some st → 1 ≤ N_CONFIRM_START st →
  n_confirm_start st = Z.min (Z.of_nat i) (N_CONFIRM_START st) →
  Forall (moving (ACTION_CONFIDENCE_THRESHOLD a)) obs →
  ∃ s', detect_run sensor oid otype obs s =
    (Ok (imap (λ j o, if N_CONFIRM_START st <=? Z.of_nat (i + j)
                      then [create_incident sensor oid (start_time st) o.2 "fall_risk"] else [])
           obs), s').
Proof.
  intros Hm. revert s a st i. induction obs as [|[action ts] obs IH];
    intros s a st i Ha Hr Hl Hf HN Hn Hall; simpl; [by eexists|].
  apply Forall_cons in Hall as [(Hc & Hnl & Hu) Hall]. simpl in *.
  pose proof (detect_step sensor oid otype action ts s a Hm Ha Hr Hc Hu ltac:(tauto)) as Hs.
  rewrite Hf in Hs. unfold fall_next in Hs.
  rewrite (proj2 (String.eqb_neq _ _) Hl), (proj2 (String.eqb_neq _ _) Hnl) in Hs.
  unfold mbind, stM_bind. rewrite Nat.add_0_r.
  assert (is_confirmed_start st = (N_CONFIRM_START st <=? Z.of_nat i)) as Hcs.
  { unfold is_confirmed_start. rewrite Hn. destruct (Z.leb_spec (N_CONFIRM_START st) (Z.of_nat i));
      [apply Z.leb_le|apply Z.leb_gt]; lia. }
  rewrite Hcs in Hs.
  destruct (Z.leb_spec (N_CONFIRM_START st) (Z.of_nat i)) as [Hle|Hgt].
  - destruct Hs as (s' & a' & -> & Ha' & Hr' & Hl' & Ht' & Hf').
    destruct (IH s' a' _ (S i) Ha' Hr' ltac:(congruence) Hf') as (s2 & E);
      [done|simpl; lia|by rewrite Ht'|].
    rewrite E. exists s2. unfold mret, stM_ret. do 3 f_equal.
    apply imap_ext. intros j x _. simpl. by rewrite Nat.add_succ_r.
  - destruct Hs as (s' & a' & -> & Ha' & Hr' & Hl' & Ht' & Hf').
    destruct (IH s' a' _ (S i) Ha' Hr' ltac:(congruence) Hf') as (s2 & E);
      [done|simpl; lia|by rewrite Ht'|].
    rewrite E. exists s2. unfold mret, stM_ret. do 3 f_equal.
    apply imap_ext. intros j x _. simpl. by rewrite Nat.add_succ_r.
Qed.
End runs.

(** ** Lemmas: reclaiming *)

(** No fall risk is tracked for an object without an action state. *)
Definition fall_tracked (s : AnomalyActionDetection) : Prop :=
  ∀ sensor, is_Some (dget (fall_risk_state s) sensor) → is_Some (dget (action_state s) sensor).
Definition objects_tracked (s : AnomalyActionDetection) : Prop :=
  ∀ sensor oid, is_Some (nget (fall_risk_state s) sensor oid) →
    is_Some (nget (action_state s) sensor oid).

Definition is_live (live_objects : list string) (sensor oid : string) : bool :=
  bool_decide (oid ∈ default [] (dget (live_object_dict live_objects) sensor)).

Lemma live_object_dict_spec live_objects sensor oid :
  oid ∈ default [] (dget (live_object_dict live_objects) sensor) ↔
  ∃ l, l ∈ live_objects ∧ py_split " #-# " l = [sensor; oid].
Proof.
  unfold live_object_dict.
  enough (∀ d, oid ∈ default [] (dget (foldl (λ d live_object,
    match py_split " #-# " live_object with
    | [sensor_id; object_id] => dset d sensor_id (object_id :: default [] (dget d sensor_id))
    | _ => d
    end) d live_objects) sensor) ↔
    oid ∈ default [] (dget d sensor) ∨
    ∃ l, l ∈ live_objects ∧ py_split " #-# " l = [sensor; oid]) as H.
  { rewrite H. simpl. rewrite elem_of_nil. tauto. }
  induction live_objects as [|x l IH]; intros d; simpl.
  { split; [tauto|]. intros [?|(l & Hl & _)]; [done|]. by apply elem_of_nil in Hl. }
  rewrite IH. setoid_rewrite elem_of_cons.
  assert (oid ∈ default [] (dget match py_split " #-# " x with
    | [sensor_id; object_id] => dset d sensor_id (object_id :: default [] (dget d sensor_id))
    | _ => d end sensor) ↔ oid ∈ default [] (dget d sensor) ∨ py_split " #-# " x = [sensor; oid])
    as ->.
  { destruct (py_split " #-# " x) as [|s1 [|o1 [|? ?]]]; try naive_solver.
    rewrite dget_dset. case_decide as E; [subst; simpl; rewrite elem_of_cons|]; naive_solver. }
  naive_solver.
Qed.

Lemma reclaim_objects_get (objects keys : list string) sensor s s2 o2 :
  let s' := foldl (λ s object_id,
    if decide (object_id ∈ objects) then s else remove_object sensor s object_id) s keys in
  nget (action_state s') s2 o2 =
    (if decide (s2 = sensor ∧ o2 ∈ keys ∧ o2 ∉ objects) then None
     else nget (action_state s) s2 o2) ∧
  nget (fall_risk_state s') s2 o2 =
    (if decide (s2 = sensor ∧ o2 ∈ keys ∧ o2 ∉ objects) then None
     else nget (fall_risk_state s) s2 o2).
Proof.
  revert s. induction keys as [|k keys IH]; intros s; simpl.
  { case_decide as Hd; [|done]. by destruct Hd as (_ & ?%elem_of_nil & _). }
  destruct (IH (if decide (k ∈ objects) then s else remove_object sensor s k)) as [-> ->].
  assert (∀ V (d : dict string (dict string V)),
    (if decide (s2 = sensor ∧ o2 ∈ keys ∧ o2 ∉ objects) then None
     else nget (if decide (k ∈ objects) then d else ndel d sensor k) s2 o2) =
    (if decide (s2 = sensor ∧ o2 ∈ k :: keys ∧ o2 ∉ objects) then None else nget d s2 o2)) as H.
  { intros V d. destruct (decide (k ∈ objects)) as [Hk|Hk].
    - destruct (decide (s2 = sensor ∧ o2 ∈ keys ∧ o2 ∉ objects)) as [Hd|Hd],
        (decide (s2 = sensor ∧ o2 ∈ k :: keys ∧ o2 ∉ objects)) as [Hd2|Hd2]; try done;
        exfalso; rewrite elem_of_cons in Hd2; naive_solver.
    - rewrite nget_ndel.
      destruct (decide (s2 = sensor ∧ o2 ∈ keys ∧ o2 ∉ objects)) as [Hd|Hd],
        (decide (s2 = sensor ∧ o2 ∈ k :: keys ∧ o2 ∉ objects)) as [Hd2|Hd2],
        (decide (sensor = s2 ∧ k = o2)) as [Hd3|Hd3]; try done;
        exfalso; rewrite elem_of_cons in Hd2; naive_solver. }
  specialize (H _ (action_state s)) as H1. specialize (H _ (fall_risk_state s)) as H2.
  split; [rewrite <-H1|rewrite <-H2]; by destruct (decide (k ∈ objects)).
Qed.

(** Reclaiming one sensor removes exactly its objects that are not live. *)
Lemma reclaim_sensor_get live_objects sensor s s2 o2 :
  objects_tracked s →
  let s' := reclaim_sensor (live_object_dict live_objects) s sensor in
  objects_tracked s' ∧
  nget (action_state s') s2 o2 =
    (if decide (s2 = sensor ∧ is_live live_objects s2 o2 = false) then None
     else nget (action_state s) s2 o2) ∧
  nget (fall_risk_state s') s2 o2 =
    (if decide (s2 = sensor ∧ is_live live_objects s2 o2 = false) then None
     else nget (fall_risk_state s) s2 o2).
Proof.
  intros Ht s'.
  assert (∀ s2 o2, nget (action_state s') s2 o2 =
    (if decide (s2 = sensor ∧ is_live live_objects s2 o2 = false) then None
     else nget (action_state s) s2 o2) ∧
    nget (fall_risk_state s') s2 o2 =
    (if decide (s2 = sensor ∧ is_live live_objects s2 o2 = false) then None
     else nget (fall_risk_state s) s2 o2)) as H.
  { clear s2 o2. intros s2 o2. unfold s', reclaim_sensor, is_live.
    destruct (dget (live_object_dict live_objects) sensor) as [objects|] eqn:El.
    - destruct (reclaim_objects_get objects (dkeys (default [] (dget (action_state s) sensor)))
        sensor s s2 o2) as [-> ->].
      set (keys := dkeys _).
      destruct (decide (s2 = sensor)) as [->|Hne].
      2: { by split; apply decide_ext; tauto. }
      rewrite El. simpl.
      assert (o2 ∉ keys → nget (action_state s) sensor o2 = None ∧
        nget (fall_risk_state s) sensor o2 = None) as Hn.
      { intros Hk. assert (nget (action_state s) sensor o2 = None) as Hn.
        { unfold nget. unfold keys in Hk. destruct (dget (action_state s) sensor); [|done].
          by apply dget_None. }
        split; [done|]. destruct (nget (fall_risk_state s) sensor o2) eqn:Ef; [|done].
        destruct (Ht sensor o2) as [x Hx]; [by eexists|congruence]. }
      destruct (decide (o2 ∈ keys)) as [Hk|Hk].
      { split; apply decide_ext; rewrite bool_decide_eq_false; tauto. }
      destruct (Hn Hk) as [-> ->]. by split; repeat case_decide.
    - unfold remove_sensor, nget. simpl. rewrite !dget_ddel.
      destruct (decide (sensor = s2)) as [<-|Hne].
      + rewrite El. by split; case_decide as Hd; try done; exfalso; apply Hd.
      + by split; case_decide as Hd; try done; destruct Hd; congruence. }
  split; [|by apply H]. intros s3 o3. destruct (H s3 o3) as [-> ->].
  case_decide; [by intros [? ?]|apply Ht].
Qed.

Lemma reclaim_fold_get live_objects sensors s s2 o2 :
  objects_tracked s →
  let s' := foldl (reclaim_sensor (live_object_dict live_objects)) s sensors in
  nget (action_state s') s2 o2 =
    (if decide (s2 ∈ sensors ∧ is_live live_objects s2 o2 = false) then None
     else nget (action_state s) s2 o2) ∧
  nget (fall_risk_state s') s2 o2 =
    (if decide (s2 ∈ sensors ∧ is_live live_objects s2 o2 = false) then None
     else nget (fall_risk_state s) s2 o2).
Proof.
  revert s. induction sensors as [|k sensors IH]; intros s Ht; cbn [foldl].
  { case_decide as Hd; [|done]. by destruct Hd as [?%elem_of_nil _]. }
  destruct (reclaim_sensor_get live_objects k s s2 o2 Ht) as (Ht' & E1 & E2).
  destruct (IH _ Ht') as [-> ->]. rewrite E1, E2.
  destruct (is_live live_objects s2 o2) eqn:Hl.
  { rewrite !(decide_False (P:=_ ∧ true = false)) by (by intros [_ ?]). done. }
  destruct (decide (s2 ∈ sensors ∧ false = false)) as [Hd|Hd],
    (decide (s2 = k ∧ false = false)) as [Hd1|Hd1],
    (decide (s2 ∈ k :: sensors ∧ false = false)) as [Hd2|Hd2]; try done;
    exfalso; rewrite elem_of_cons in Hd2; naive_solver.
Qed.

(** ** Properties *)
Section properties.
  Context (repr_float : float → string) (config : string → AnomalyActionConfig).

(** A person who was lying and moves raises a fall alert only once
    [nConfirmStart] observations confirm it: with no fall risk tracked yet,
    of any sequence of confident observations of movement the first
    [nConfirmStart] report nothing, and each later one reports one incident
    from the time of the first movement to its own. *)
Theorem fall_alert_confirmed sensor oid otype s a first rest :
  monitored config sensor otype = true → 1 ≤ nConfirmStart (config sensor) →
  nget (action_state s) sensor oid = Some a → ready a → last_action a = LYING_DOWN →
  nget (fall_risk_state s) sensor oid = None →
  Forall (moving (ACTION_CONFIDENCE_THRESHOLD a)) (first :: rest) →
  ∃ s', detect_run repr_float config sensor oid otype (first :: rest) s =
    (Ok (imap (λ j o, if nConfirmStart (config sensor) <=? Z.of_nat j
                      then [create_incident sensor oid first.2 o.2 "fall_risk"] else [])
           (first :: rest)), s').
Proof.
  destruct first as [action ts]. intros Hm HN Ha Hr Hl Hf [(Hc & Hnl & Hu) Hall]%Forall_cons.
  simpl in *.
  pose proof (detect_step repr_float config sensor oid otype action ts s a Hm Ha Hr Hc Hu
    ltac:(tauto)) as Hs.
  rewrite Hf, Hl in Hs. unfold fall_next in Hs.
  rewrite String.eqb_refl, (proj2 (String.eqb_neq _ _) Hnl) in Hs.
  destruct Hs as (s1 & a1 & E & Ha1 & Hr1 & Hl1 & Ht1 & Hf1).
  destruct (moving_run repr_float config sensor oid otype rest s1 a1 _ 1 Hm Ha1 Hr1
    ltac:(congruence) Hf1) as (s2 & E2); [done|simpl; lia|by rewrite Ht1|].
  unfold mbind, stM_bind. rewrite E, E2. exists s2. unfold mret, stM_ret.
  rewrite (proj2 (Z.leb_gt _ _)) by lia. done.
Qed.

(** The confirmation can be bypassed: an interruption by lying down before
    the start is confirmed says it stops tracking but keeps the state, so the
    next movement alerts at once, with a single confirmation, whatever
    [nConfirmStart] is. *)
Theorem unconfirmed_fall_alert sensor oid otype s a m1 l m2 :
  monitored config sensor otype = true → 1 < nConfirmStart (config sensor) →
  nget (action_state s) sensor oid = Some a → ready a → last_action a = LYING_DOWN →
  nget (fall_risk_state s) sensor oid = None →
  moving (ACTION_CONFIDENCE_THRESHOLD a) m1 → moving (ACTION_CONFIDENCE_THRESHOLD a) m2 →
  flt (ACTION_CONFIDENCE_THRESHOLD a) (ac_confidence l.1) = true → ac_type l.1 = LYING_DOWN →
  ∃ s', detect_run repr_float config sensor oid otype [m1; l; m2] s =
    (Ok [[]; []; [create_incident sensor oid m1.2 m2.2 "fall_risk"]], s').
Proof.
  destruct m1 as [a1 t1], l as [al tl], m2 as [a2 t2].
  intros Hm HN Ha Hr Hl Hf (Hc1 & Hn1 & Hu1) (Hc2 & Hn2 & Hu2) Hcl Hll. simpl in *.
  pose proof (detect_step repr_float config sensor oid otype a1 t1 s a Hm Ha Hr Hc1 Hu1
    ltac:(tauto)) as H1.
  rewrite Hf, Hl in H1. unfold fall_next in H1.
  rewrite String.eqb_refl, (proj2 (String.eqb_neq _ _) Hn1) in H1.
  destruct H1 as (s1 & b1 & E1 & Ha1 & Hr1 & Hl1 & Ht1 & Hf1).
  pose proof (detect_step repr_float config sensor oid otype al tl s1 b1 Hm Ha1 Hr1
    ltac:(by rewrite Ht1) ltac:(by rewrite Hll) ltac:(intros [? _]; congruence)) as H2.
  rewrite Hf1, Hl1, Hll in H2. unfold fall_next in H2.
  rewrite String.eqb_refl, (proj2 (String.eqb_neq _ _) Hn1) in H2.
  unfold is_confirmed_start in H2. simpl in H2.
  rewrite (proj2 (Z.leb_gt (nConfirmStart (config sensor)) 1)) in H2 by lia.
  destruct H2 as (s2 & b2 & E2 & Ha2 & Hr2 & Hl2 & Ht2 & Hf2).
  pose proof (detect_step repr_float config sensor oid otype a2 t2 s2 b2 Hm Ha2 Hr2
    ltac:(by rewrite Ht2, Ht1) Hu2 ltac:(tauto)) as H3.
  rewrite Hf2, Hl2 in H3. unfold fall_next in H3.
  rewrite ?Hll, String.eqb_refl, (proj2 (String.eqb_neq _ _) Hn2) in H3.
  destruct H3 as (s3 & b3 & E3 & _).
  unfold mbind, stM_bind. rewrite E1, E2, E3. by exists s3.
Qed.

End properties.

(** Reclaiming state keeps exactly the live objects: an object is live
    when the list names it as sensor and object around one separator; both
    its action state and its fall-risk state are kept unchanged, and those of
    every other object are dropped. *)
Theorem update_live_object_exact live_objects s sensor oid :
  objects_tracked s →
  let s' := update_live_object live_objects s in
  let live := ∃ l, l ∈ live_objects ∧ py_split " #-# " l = [sensor; oid] in
  (live → nget (action_state s') sensor oid = nget (action_state s) sensor oid ∧
          nget (fall_risk_state s') sensor oid = nget (fall_risk_state s) sensor oid) ∧
  (¬ live → nget (action_state s') sensor oid = None ∧
            nget (fall_risk_state s') sensor oid = None).
Proof.
  intros Ht. unfold update_live_object.
  destruct (reclaim_fold_get live_objects (dkeys (action_state s)) s sensor oid Ht) as [E1 E2].
  cbv zeta. rewrite <-live_object_dict_spec.
  destruct (decide (sensor ∈ dkeys (action_state s) ∧ is_live live_objects sensor oid = false))
    as [Hd|Hd]; rewrite E1, E2; unfold is_live in Hd; rewrite bool_decide_eq_false in Hd;
    split; intros Hl; try tauto.
  assert (dget (action_state s) sensor = None) as Hn by (apply dget_None; tauto).
  assert (nget (action_state s) sensor oid = None) as Hna by (unfold nget; by rewrite Hn).
  split; [done|]. destruct (nget (fall_risk_state s) sensor oid) eqn:Ef; [|done].
  destruct (Ht sensor oid) as [x Hx]; [by eexists|congruence].
Qed.


(** ** Witnesses *)
Definition acfg_ex (n : Z) : string → AnomalyActionConfig :=
  λ _, mk_AnomalyActionConfig (lit 5 1) [] ["Person"] true n 4 true (Z2f 120).
Definition see (t : string) (ts : Z) : Action * datetime := (mk_Action t (lit 9 1), ts).
Definition lying_state : ActionState :=
  mk_ActionState "room" "7" LYING_DOWN [(LYING_DOWN, [mk_interval 0 0])] [(LYING_DOWN, f0)]
    (lit 5 1).
Definition det_ex : AnomalyActionDetection := mk_Detection [("room", [("7", lying_state)])] [].

Lemma lying_ready : ready lying_state.
Proof.
  split_and!; [|by intros ? [= <-]|done|by eexists].
  intros t. unfold lying_state. simpl. case_decide; [by eexists|done].
Qed.
Lemma moving_ex t ts : t ≠ LYING_DOWN → t ≠ "Unknown" →
  moving (ACTION_CONFIDENCE_THRESHOLD lying_state) (see t ts).
Proof. intros. split_and!; [vm_compute; reflexivity|done|done]. Qed.

Definition walk (n : nat) : list (Action * datetime) := (λ k, see "Walking" (Z.of_nat k)) <$> seq 1 n.

Lemma fall_alert_confirmed_witness :
  ∃ s', detect_run (λ _, "") (acfg_ex 3) "room" "7" "Person" (walk 5) det_ex =
    (Ok [[]; []; []; [create_incident "room" "7" 1 4 "fall_risk"];
         [create_incident "room" "7" 1 5 "fall_risk"]], s').
Proof.
  destruct (fall_alert_confirmed (λ _, "") (acfg_ex 3) "room" "7" "Person" det_ex lying_state
    (see "Walking" 1) ((λ k, see "Walking" (Z.of_nat k)) <$> seq 2 4)) as [s' E];
    [reflexivity|simpl; lia|reflexivity|apply lying_ready|reflexivity|reflexivity| |].
  - simpl. repeat constructor; by apply moving_ex.
  - exists s'. etrans; [exact E|]. reflexivity.
Defined.

Lemma unconfirmed_fall_alert_witness :
  ∃ s', detect_run (λ _, "") (acfg_ex 10) "room" "7" "Person"
    [see "Standing" 1; see LYING_DOWN 2; see "Standing" 3] det_ex =
    (Ok [[]; []; [create_incident "room" "7" 1 3 "fall_risk"]], s').
Proof.
  apply (unconfirmed_fall_alert (λ _, "") (acfg_ex 10) "room" "7" "Person" det_ex lying_state
    (see "Standing" 1) (see LYING_DOWN 2) (see "Standing" 3));
    [reflexivity|simpl; lia|reflexivity|apply lying_ready|reflexivity|reflexivity|
     by apply moving_ex|by apply moving_ex|vm_compute; reflexivity|reflexivity].
Defined.

Lemma update_live_object_exact_witness :
  nget (action_state (update_live_object ["hall #-# 7"; "odd"] det_ex)) "room" "7" = None.
Proof.
  apply (update_live_object_exact ["hall #-# 7"; "odd"] det_ex "room" "7").
  - by intros sensor oid [? ?].
  - intros (l & Hl & E). rewrite !elem_of_cons, elem_of_nil in Hl.
    destruct Hl as [->|[->|[]]]; vm_compute in E; discriminate E.
Defined.
