(* ===== verification/BusOutcomes.v ===== *)
(** * Commit decisions for bus events (SDRC)

    [sdrc/lib/bus_outcomes.py] with [_apply_bus_commit_decision] and the
    commit part of [kafka_topic_handler] of [sdrc/app.py]: whether a Kafka or
    Redis message is acknowledged after its handler ran, how often a temporary
    failure is retried, and how a Kafka offset is kept from being skipped.

    The Kafka client is an interface ([Consumer]) with the laws of its
    documentation, and a group's consumption of a log a relation over its polls,
    the deliveries and rebalances ([consumes]); an exception is the list of its classes, most specific
    first, and the optional packages' presence is an argument. The dispatch of
    an event to the provisioning code is not modelled: its outcome is an
    argument of the handler. *)

From Stdlib Require Import ZArith Lia.
From stdpp Require Import base list strings.
From S2P Require Import Prelude PyDict PyText.
Open Scope Z_scope.

Definition EVENT_OK : string := "OK".
Definition EVENT_NOOP : string := "NOOP".
Definition EVENT_TERMINAL : string := "TERMINAL".
Definition EVENT_RETRYABLE : string := "RETRYABLE".

(** ** Classification of exceptions *)
Definition TERMINAL_EXC_TYPES : list string :=
  ["KeyError"; "TypeError"; "ValueError"; "json.JSONDecodeError"; "AttributeError";
   "IndexError"; "UnicodeDecodeError"].

(** Which optional packages can be imported. *)
Record Imports := mk_Imports {
  has_requests : bool; has_redis : bool; has_kubernetes : bool; has_healthwatcher : bool }.

Definition isinstance (mro : list string) (types : list string) : bool :=
  existsb (λ c, bool_decide (c ∈ types)) mro.

Definition is_retryable_infra_exception (env : Imports) (mro : list string) : bool :=
  isinstance mro ["TimeoutError"; "ConnectionError"]
  || (has_requests env && isinstance mro ["requests.RequestException"])
  || (has_redis env && isinstance mro ["redis.RedisError"])
  || (has_kubernetes env && isinstance mro ["kubernetes.client.rest.ApiException"]).

Definition classify_exception (env : Imports) (mro : list string) : string :=
  if isinstance mro TERMINAL_EXC_TYPES then EVENT_TERMINAL
  else if has_healthwatcher env
          && isinstance mro ["lib.podprovisioner.healthwatcher.WorkloadUnhealthyError"]
  then EVENT_RETRYABLE
  else if is_retryable_infra_exception env mro then EVENT_RETRYABLE
  else EVENT_TERMINAL.

(** ** Retry accounting: the state is [_bus_retry_attempts] *)
Definition bump_retry_attempt (message_key : string) : stM (dict string Z) Z :=
  λ d, let attempt := default 0 (dget d message_key) + 1 in
       (Ok attempt, dset d message_key attempt).
Definition clear_retry_attempt (message_key : string) : stM (dict string Z) unit :=
  smod (λ d, ddel d message_key).

Definition decide_commit (outcome message_key : string) (retry_limit : Z)
    : stM (dict string Z) (bool * string * Z) :=
  let limit := Z.max 1 retry_limit in
  let final := if bool_decide (outcome ∈ [EVENT_OK; EVENT_NOOP; EVENT_TERMINAL; EVENT_RETRYABLE])
               then outcome else EVENT_TERMINAL in
  if String.eqb final EVENT_RETRYABLE then
    attempt ← bump_retry_attempt message_key;
    if limit <=? attempt then
      _ ← clear_retry_attempt message_key; mret (true, EVENT_TERMINAL, attempt)
    else mret (false, final, attempt)
  else _ ← clear_retry_attempt message_key; mret (true, final, 0).

(** [_apply_bus_commit_decision], with its log-based dead-letter queue. *)
Record DeadLetter := mk_DeadLetter {
  dl_bus : string; dl_message_id : string; dl_attempt : option Z; dl_reason : string }.

Record BusState := mk_BusState { attempts : dict string Z; dead_letters : list DeadLetter }.

Definition retry_limit_of (config : option Z) : Z :=
  match config with Some 0 | None => 20 | Some n => n end.

Definition apply_bus_commit_decision (bus_name message_key outcome : string)
    (config : option Z) : stM BusState (bool * string * Z) :=
  λ s,
    match decide_commit outcome message_key (retry_limit_of config) (attempts s) with
    | (Exn e, d) => (Exn e, mk_BusState d (dead_letters s))
    | (Ok (should_commit, final, attempt), d) =>
        let reason := if String.eqb outcome EVENT_RETRYABLE && negb (attempt =? 0)
                      then "retry_limit_exceeded" else "terminal" in
        let letters := if String.eqb final EVENT_TERMINAL
                       then dead_letters s ++ [mk_DeadLetter bus_name message_key
                              (if attempt =? 0 then None else Some attempt) reason]
                       else dead_letters s in
        (Ok (should_commit, final, attempt), mk_BusState d letters)
    end.

(** ** Message keys *)

(** An attribute of a record: absent or [None], a value (or a method returning
    one), or a method that cannot be called without arguments. *)
Inductive field (A : Type) := FNone | FVal (a : A) | FCallable.
Arguments FNone {A}. Arguments FVal {A} a. Arguments FCallable {A}.

Record KafkaMessage := mk_KafkaMessage {
  msg_id : Z;
  msg_topic : field string;
  msg_partition : field Z;
  msg_offset : field Z;
}.

Definition field_text {A} (show : A → string) (repr : string) (f : field A) : option string :=
  match f with FNone => None | FVal a => Some (show a) | FCallable => Some repr end.

(** [repr] stands for the text of a bound method. *)
Definition kafka_message_key (repr : string) (msg : KafkaMessage) : string :=
  match field_text id repr (msg_topic msg), field_text str_Z repr (msg_partition msg),
        field_text str_Z repr (msg_offset msg) with
  | Some t, Some p, Some o => "kafka:" +:+ t +:+ ":" +:+ p +:+ ":" +:+ o
  | _, _, _ => "kafka:" +:+ str_Z (msg_id msg)
  end.
Definition redis_message_key (msgid : string) : string := "redis:" +:+ msgid.

(** ** The Kafka consumer *)

(** A client's consumer: [seek] and [commit] may raise; [commit] writes the
    positions, [commit_at] one given offset, of topic and partition. *)
Class Consumer (C : Type) := {
  c_seek : string → Z → Z → stM C unit;
  c_commit : stM C unit;
  c_commit_at : string → Z → Z → stM C unit;
  position : C → string → Z → Z;
  committed : C → string → Z → Z;
}.

(** What the client library documents: seeking moves the position of one
    partition, committing writes positions or one offset, and a call that
    raises has done nothing. *)
Class ConsumerLaws (C : Type) `{Consumer C} : Prop := {
  seek_committed t p o c t' p' : committed (c_seek t p o c).2 t' p' = committed c t' p';
  seek_ok t p o c t' p' : (c_seek t p o c).1 = Ok tt →
    position (c_seek t p o c).2 t' p' =
      if bool_decide ((t', p') = (t, p)) then o else position c t' p';
  seek_fails t p o c e t' p' : (c_seek t p o c).1 = Exn e →
    position (c_seek t p o c).2 t' p' = position c t' p';
  commit_position c t p : position (c_commit c).2 t p = position c t p;
  commit_ok c t p : (c_commit c).1 = Ok tt → committed (c_commit c).2 t p = position c t p;
  commit_fails c e t p : (c_commit c).1 = Exn e → committed (c_commit c).2 t p = committed c t p;
  commit_at_position t p o c t' p' : position (c_commit_at t p o c).2 t' p' = position c t' p';
  commit_at_ok t p o c t' p' : (c_commit_at t p o c).1 = Ok tt →
    committed (c_commit_at t p o c).2 t' p' =
      if bool_decide ((t', p') = (t, p)) then o else committed c t' p';
  commit_at_fails t p o c e t' p' : (c_commit_at t p o c).1 = Exn e →
    committed (c_commit_at t p o c).2 t' p' = committed c t' p';
}.

Section kafka.
  Context {C : Type} `{Consumer C}.

(** The consumer object with its [commit] attribute: the parked offsets of the
    one-shot replacements installed, latest first. *)
Record Handle := mk_Handle { consumer : C; parked : list (string * Z * Z) }.

Definition on_consumer (m : stM C unit) : stM Handle unit :=
  zoom consumer (λ c h, mk_Handle c (parked h)) m.

(** Calling [consumer.commit(arg)]: each replacement passes its own offset to
    the attribute it replaced and puts that one back, whatever happens. *)
Fixpoint call_commit (parks : list (string * Z * Z)) (arg : option (string * Z * Z)) : stM C unit :=
  match parks with
  | [] => match arg with Some (t, p, o) => c_commit_at t p o | None => c_commit end
  | park :: rest => call_commit rest (Some park)
  end.
Definition handle_commit : stM Handle unit :=
  λ h, let '(r, c) := call_commit (parked h) None (consumer h) in
       (r, mk_Handle c (tail (parked h))).

(** [kafka_rewind_to_message]: [False] instead of any exception. *)
Definition kafka_rewind_to_message (msg : KafkaMessage) : stM Handle bool :=
  λ h,
    match msg_topic msg, msg_partition msg, msg_offset msg with
    | FVal t, FVal p, FVal o =>
        match on_consumer (c_seek t p o) h with
        | (Ok _, h') => (Ok true, h')
        | (Exn _, h') => (Ok false, h')
        end
    | _, _, _ => (Ok false, h)
    end.

Definition kafka_park_offset_on_next_commit (msg : KafkaMessage) : stM Handle bool :=
  λ h,
    match msg_topic msg, msg_partition msg, msg_offset msg with
    | FVal t, FVal p, FVal o => (Ok true, mk_Handle (consumer h) ((t, p, o) :: parked h))
    | _, _, _ => (Ok false, h)
    end.

(** The end of [kafka_topic_handler], after the decision. *)
Definition finish_message (should_commit : bool) (msg : KafkaMessage) : stM Handle unit :=
  λ h,
    if should_commit then (Ok tt, (handle_commit h).2)
    else
      (rewound ← kafka_rewind_to_message msg;
       if (rewound : bool) then mret tt
       else
         installed ← kafka_park_offset_on_next_commit msg;
         if (installed : bool) then mret tt else sraise (NamedError "RuntimeError")) h.

(** One delivery: the handler, and the [consumer.commit()] that the Flask
    integration issues after a handler that returned; a failure of that call
    is not the handler's. *)
Definition deliver (should_commit : bool) (msg : KafkaMessage) (h : Handle) : Handle :=
  match finish_message should_commit msg h with
  | (Ok _, h') => (handle_commit h').2
  | (Exn _, h') => h'
  end.
End kafka.

(** *** Consuming the topics

    The records of the log are any set of offsets per partition. A poll hands
    out the first record at or after the position and moves the position
    behind it. One consumer of the group is at work at a time. The state of a run: the handle, the records committed after
    their handler ran, and those left for retry whose seek failed. *)
Section consuming.
  Context {C : Type} `{Consumer C} (stored : string → Z → Z → Prop).

Record polled (t : string) (p o : Z) (c c' : C) : Prop := mk_polled {
  polled_stored : stored t p o;
  polled_next : ∀ o', stored t p o' → position c t p ≤ o' → o ≤ o';
  polled_from : position c t p ≤ o;
  polled_position : ∀ t' p', position c' t' p' =
    if bool_decide ((t', p') = (t, p)) then o + 1 else position c t' p';
  polled_committed : ∀ t' p', committed c' t' p' = committed c t' p';
}.

Record Consumption := mk_Consumption {
  handle : Handle (C:=C);
  acked : list (string * Z * Z);
  unsought : list (string * Z * Z);
}.

Definition seek_raises (t : string) (p o : Z) (c : C) : bool :=
  match c_seek t p o c with (Ok _, _) => false | (Exn _, _) => true end.

(** A poll and the delivery of its message, whatever the decision about it;
    or the partitions are assigned anew (a rebalance, another consumer): each
    is resumed where it was or at its committed offset. *)
Inductive consumes : Consumption → Consumption → Prop :=
  | consume_message b msg t p o h c' ack uns :
      msg_topic msg = FVal t → msg_partition msg = FVal p → msg_offset msg = FVal o →
      polled t p o (consumer h) c' →
      consumes (mk_Consumption h ack uns)
        (mk_Consumption (deliver b msg (mk_Handle c' (parked h)))
           (if (b : bool) then (t, p, o) :: ack else ack)
           (if b then uns else if seek_raises t p o c' then (t, p, o) :: uns else uns))
  | consume_assigned h c' ack uns :
      (∀ t p, committed c' t p = committed (consumer h) t p) →
      (∀ t p, position c' t p = position (consumer h) t p ∨
              position c' t p = committed (consumer h) t p) →
      consumes (mk_Consumption h ack uns) (mk_Consumption (mk_Handle c' []) ack uns).

(** The group starts at the offsets it has committed. *)
Inductive consuming (start : string → Z → Z) : Consumption → Prop :=
  | consuming_start c :
      (∀ t p, committed c t p = start t p) → (∀ t p, position c t p = start t p) →
      consuming start (mk_Consumption (mk_Handle c []) [] [])
  | consuming_step r r' : consuming start r → consumes r r' → consuming start r'.
End consuming.
Arguments Consumption C : clear implicits.

(** ** Lemmas *)

Lemma decide_commit_attempts outcome key limit d :
  (decide_commit outcome key limit d).2 =
    (if String.eqb outcome EVENT_RETRYABLE && (default 0 (dget d key) + 1 <? Z.max 1 limit)
     then dset d key (default 0 (dget d key) + 1)
     else ddel (if String.eqb outcome EVENT_RETRYABLE
                then dset d key (default 0 (dget d key) + 1) else d) key) .
Proof.
  unfold decide_commit, mbind, stM_bind, bump_retry_attempt, clear_retry_attempt, smod.
  destruct (String.eqb_spec outcome EVENT_RETRYABLE) as [->|Hne]; simpl.
  - rewrite Z.ltb_antisym. by destruct (Z.max 1 limit <=? _).
  - case_bool_decide; [by rewrite (proj2 (String.eqb_neq _ _) Hne)|done].
Qed.

Section runs.
(** Successive decisions on the same message. *)
Fixpoint decide_run (outcomes : list string) (key : string) (limit : Z)
    : stM (dict string Z) (list (bool * string * Z)) :=
  match outcomes with
  | [] => mret []
  | o :: rest => r ← decide_commit o key limit; rs ← decide_run rest key limit; mret (r :: rs)
  end.

Lemma decide_retryable key limit d :
  let n := default 0 (dget d key) + 1 in
  decide_commit EVENT_RETRYABLE key limit d =
    if Z.max 1 limit <=? n then (Ok (true, EVENT_TERMINAL, n), ddel (dset d key n) key)
    else (Ok (false, EVENT_RETRYABLE, n), dset d key n).
Proof.
  unfold decide_commit, mbind, stM_bind, bump_retry_attempt, clear_retry_attempt, smod.
  simpl. by destruct (Z.max 1 limit <=? _).
Qed.

Lemma decide_run_retryable key limit (n : nat) d k :
  default 0 (dget d key) = k → 0 ≤ k → k + Z.of_nat n < Z.max 1 limit →
  ∃ d', decide_run (replicate n EVENT_RETRYABLE) key limit d =
    (Ok ((λ i, (false, EVENT_RETRYABLE, k + Z.of_nat i)) <$> seq 1 n), d') ∧
    default 0 (dget d' key) = k + Z.of_nat n.
Proof.
  revert d k. induction n as [|n IH]; intros d k Hk Hk0 Hlt; simpl.
  { eexists; split; [done|lia]. }
  unfold mbind, stM_bind. rewrite decide_retryable, Hk. simpl.
  rewrite (proj2 (Z.leb_gt _ _)) by lia.
  destruct (IH (dset d key (k + 1)) (k + 1)) as (d' & -> & Hd');
    [by rewrite dget_dset_eq|lia|lia|].
  exists d'. split; [|lia]. unfold mret, stM_ret.
  assert ((λ i : nat, (false, EVENT_RETRYABLE, k + 1 + Z.of_nat i)) <$> seq 1 n =
    (λ i : nat, (false, EVENT_RETRYABLE, k + Z.of_nat i)) <$> seq 2 n) as ->; [|done].
  replace (seq 2 n) with (S <$> seq 1 n) by apply fmap_S_seq.
  rewrite <-list_fmap_compose. apply list_fmap_ext. intros i x _.
  unfold compose. f_equal. lia.
Qed.
End runs.

(** ** Properties *)

(** C10. A message that keeps failing temporarily is retried a bounded number
    of times: counted from a cleared counter, the first [limit - 1] failures
    leave it uncommitted with their attempt number, the next one commits it as
    terminal, and its counter is cleared for good. *)
Theorem retries_bounded (key : string) (limit : Z) (d : dict string Z) :
  dget d key = None →
  let m := Z.to_nat (Z.max 1 limit - 1) in
  ∃ d', decide_run (replicate (S m) EVENT_RETRYABLE) key limit d =
    (Ok (((λ i, (false, EVENT_RETRYABLE, Z.of_nat i)) <$> seq 1 m) ++
         [(true, EVENT_TERMINAL, Z.max 1 limit)]), d') ∧ dget d' key = None.
Proof.
  intros Hd. cbv zeta. set (m := Z.to_nat _).
  destruct (decide_run_retryable key limit m d 0) as (d1 & E1 & Hd1);
    [by rewrite Hd|lia|lia|].
  assert (∀ l1 l2 d, decide_run (l1 ++ l2) key limit d =
    (rs1 ← decide_run l1 key limit; rs2 ← decide_run l2 key limit; mret (rs1 ++ rs2)) d) as Happ.
  { clear. induction l1 as [|o l1 IH]; intros l2 d; simpl;
      unfold mbind, stM_bind, mret, stM_ret.
    - by destruct (decide_run l2 key limit d) as [[?|?] ?].
    - destruct (decide_commit o key limit d) as [[r|?] d1]; [|done]. rewrite IH.
      unfold mbind, stM_bind, mret, stM_ret.
      destruct (decide_run l1 key limit d1) as [[?|?] d2]; [|done].
      by destruct (decide_run l2 key limit d2) as [[?|?] ?]. }
  replace (S m) with (m + 1)%nat by lia. rewrite replicate_add, Happ.
  unfold mbind, stM_bind. rewrite E1. simpl. unfold mbind, stM_bind.
  rewrite decide_retryable, Hd1. simpl.
  rewrite (proj2 (Z.leb_le _ _)) by lia. eexists. split; [|apply dget_ddel_eq].
  unfold mret, stM_ret. do 3 f_equal. repeat f_equal. lia.
Qed.

(** Only temporary failures below the limit stay uncommitted; every other
    outcome, unknown ones included, commits and clears the counter, and the
    counters of other messages are never touched. *)
Theorem decide_commit_spec outcome key limit d :
  ∃ b final n, (decide_commit outcome key limit d).1 = Ok (b, final, n) ∧
    (b = false ↔ outcome = EVENT_RETRYABLE ∧ default 0 (dget d key) + 1 < Z.max 1 limit) ∧
    (b = true → dget (decide_commit outcome key limit d).2 key = None ∧
       final = if bool_decide (outcome ∈ [EVENT_OK; EVENT_NOOP]) then outcome else EVENT_TERMINAL) ∧
    (∀ k, k ≠ key → dget (decide_commit outcome key limit d).2 k = dget d k).
Proof.
  rewrite decide_commit_attempts.
  destruct (String.eqb_spec outcome EVENT_RETRYABLE) as [->|Hne].
  - rewrite decide_retryable. simpl.
    destruct (Z.leb_spec (Z.max 1 limit) (default 0 (dget d key) + 1)).
    + rewrite (proj2 (Z.ltb_ge _ _)) by lia.
      eexists _, _, _; split; [done|]. split_and!; [split; [done|lia]|..].
      * intros _. by rewrite dget_ddel_eq.
      * intros k Hk. by rewrite dget_ddel_ne, dget_dset_ne.
    + rewrite (proj2 (Z.ltb_lt _ _)) by lia.
      eexists _, _, _; split; [done|]. split_and!; [done|done|].
      intros k Hk. by rewrite dget_dset_ne.
  - simpl. unfold decide_commit.
    assert (∀ f, String.eqb (if bool_decide (outcome ∈ [EVENT_OK; EVENT_NOOP; EVENT_TERMINAL;
      EVENT_RETRYABLE]) then outcome else f) EVENT_RETRYABLE = true → f = EVENT_RETRYABLE) as Hf.
    { intros f Hf. apply String.eqb_eq in Hf. by case_bool_decide. }
    destruct (String.eqb _ EVENT_RETRYABLE) eqn:E; [by apply Hf in E|].
    eexists _, _, _; split; [done|]. split_and!; [split; [done|tauto]|..].
    + intros _. split; [apply dget_ddel_eq|].
      destruct (decide (outcome = EVENT_OK)) as [->|]; [done|].
      destruct (decide (outcome = EVENT_NOOP)) as [->|]; [done|].
      destruct (decide (outcome = EVENT_TERMINAL)) as [->|]; [done|].
      by rewrite !bool_decide_false by (rewrite !elem_of_cons, elem_of_nil; tauto).
    + intros k Hk. by rewrite dget_ddel_ne.
Qed.

Section kafka_properties.
  Context {C : Type} `{ConsumerLaws C} (stored : string → Z → Z → Prop).

(** What one delivery does to positions and committed offsets. *)
Lemma deliver_ack msg c t p :
  parked (deliver true msg (mk_Handle c [])) = [] ∧
  let c' := consumer (deliver true msg (mk_Handle c [])) in
  position c' t p = position c t p ∧
  (committed c' t p = position c t p ∨ committed c' t p = committed c t p).
Proof.
  unfold deliver, finish_message, handle_commit. simpl.
  pose proof (commit_position c t p) as P1. pose proof (commit_ok c t p) as O1.
  pose proof (commit_fails c) as F1.
  destruct (c_commit c) as [r1 c1]; simpl in *.
  pose proof (commit_position c1 t p) as P2. pose proof (commit_ok c1 t p) as O2.
  pose proof (commit_fails c1) as F2.
  destruct (c_commit c1) as [r2 c2]; simpl in *.
  split; [done|]. split; [congruence|].
  destruct r2 as [[]|e2]; [left; rewrite O2 by done; done|].
  rewrite (F2 e2) by done.
  destruct r1 as [[]|e1]; [left; by apply O1|right; by apply (F1 e1)].
Qed.

Lemma deliver_retry msg t p o c t' p' :
  msg_topic msg = FVal t → msg_partition msg = FVal p → msg_offset msg = FVal o →
  parked (deliver false msg (mk_Handle c [])) = [] ∧
  let c' := consumer (deliver false msg (mk_Handle c [])) in
  let here := bool_decide ((t', p') = (t, p)) in
  position c' t' p' =
    (if here && negb (seek_raises t p o c) then o else position c t' p') ∧
  (committed c' t' p' = committed c t' p' ∨
   committed c' t' p' = if here then o else position c t' p').
Proof.
  intros Ht Hp Ho. unfold deliver, finish_message, mbind, stM_bind, kafka_rewind_to_message,
    kafka_park_offset_on_next_commit, on_consumer, zoom, seek_raises. rewrite Ht, Hp, Ho. simpl.
  pose proof (seek_committed t p o c t' p') as SC. pose proof (seek_ok t p o c t' p') as SO.
  pose proof (λ e, seek_fails t p o c e t' p') as SF.
  destruct (c_seek t p o c) as [[[]|e] c1]; simpl in *; unfold handle_commit; simpl.
  - pose proof (commit_position c1 t' p') as P1. pose proof (commit_ok c1 t' p') as O1.
    pose proof (λ e, commit_fails c1 e t' p') as F1.
    destruct (c_commit c1) as [[[]|e] c2]; simpl in *.
    all: split; [done|]; rewrite ?andb_true_r, P1, SO by done; split; [done|].
    + right. rewrite O1, SO by done. done.
    + left. rewrite (F1 e) by done. done.
  - pose proof (commit_at_position t p o c1 t' p') as P1.
    pose proof (commit_at_ok t p o c1 t' p') as O1.
    pose proof (λ e, commit_at_fails t p o c1 e t' p') as F1.
    destruct (c_commit_at t p o c1) as [[[]|e'] c2]; simpl in *.
    all: split; [done|]; rewrite ?andb_false_r, P1, (SF e) by done; split; [done|].
    + rewrite O1 by done. case_bool_decide; [by right|left; congruence].
    + left. rewrite (F1 e') by done. done.
Qed.

(** Every record from [start t p] up to [x] is acknowledged or [unsought]. *)
Definition settled_below (start : string → Z → Z) (r : Consumption C) t p (x : Z) : Prop :=
  ∀ o, stored t p o → start t p ≤ o < x → (t, p, o) ∈ acked r ∨ (t, p, o) ∈ unsought r.

Record consumed (start : string → Z → Z) (r : Consumption C) : Prop := mk_consumed {
  consumed_parked : parked (handle r) = [];
  consumed_order t p : committed (consumer (handle r)) t p ≤ position (consumer (handle r)) t p;
  consumed_settled t p : settled_below start r t p (position (consumer (handle r)) t p);
}.

Lemma consumes_keeps start r r' : consumed start r → consumes stored r r' → consumed start r'.
Proof.
  intros [Hk Ho Hs] Hstep. inversion Hstep as
    [b msg t p o h c' ack uns Ht Hp Hoff Hpoll|h c' ack uns Hc Hpos]; subst; simpl in *.
  - rewrite Hk in *. destruct Hpoll as [Hst Hnext Hfrom Hpos Hcom].
    assert (∀ x, x ≤ o → settled_below start (mk_Consumption h ack uns) t p x) as Hbefore.
    { intros x Hx o' Ho' Hr. apply Hs; [done|].
      destruct (Z.le_gt_cases (position (consumer h) t p) o'); [|lia].
      specialize (Hnext o' Ho'). lia. }
    destruct b; (split; [|intros t' p'; specialize (Ho t' p')..]).
    + apply (deliver_ack msg c' t p).
    + destruct (deliver_ack msg c' t' p') as (_ & E1 & E2). simpl in *.
      specialize (Hpos t' p'). specialize (Hcom t' p'). case_bool_decide; simplify_eq; lia.
    + destruct (deliver_ack msg c' t' p') as (_ & E1 & _). simpl in *. intros o' Ho' Hr. simpl.
      rewrite E1, Hpos in Hr. case_bool_decide as Hq; simplify_eq.
      * destruct (decide (o' = o)) as [->|]; [left; left|].
        destruct (Hbefore o (Z.le_refl _) o' Ho'); [lia|left; by right|by right].
      * destruct (Hs t' p' o' Ho' Hr); [left; by right|by right].
    + by apply (deliver_retry msg t p o c' t p).
    + destruct (deliver_retry msg t p o c' t' p' Ht Hp Hoff) as (_ & E1 & E2). simpl in *.
      specialize (Hpos t' p'). specialize (Hcom t' p'). rewrite E1.
      case_bool_decide; simplify_eq; simpl in *; case_match; lia.
    + destruct (deliver_retry msg t p o c' t' p' Ht Hp Hoff) as (_ & E1 & _). simpl in *.
      intros o' Ho' Hr. simpl. rewrite E1, Hpos in Hr.
      case_bool_decide as Hq; simplify_eq; simpl in *.
      * destruct (seek_raises t p o c'); simpl in *.
        -- destruct (decide (o' = o)) as [->|]; [right; left|].
           destruct (Hbefore o (Z.le_refl _) o' Ho'); [lia|by left|right; by right].
        -- apply (Hbefore o); [lia|done|lia].
      * destruct (Hs t' p' o' Ho' Hr); [by left|right; by case_match; [right|]].
  - split; simpl; [done|..]; intros t p; specialize (Ho t p); destruct (Hpos t p) as [E|E];
      rewrite ?E, ?Hc; try lia; [apply Hs|].
    intros o' Ho' Hr. apply Hs; [done|]. simpl. lia.
Qed.

Lemma consuming_consumed start r : consuming stored start r → consumed start r.
Proof.
  induction 1 as [c Hc Hp|r r' _ IH Hstep]; [|by eapply consumes_keeps].
  split; simpl; [done|..]; intros t p; rewrite ?Hc, ?Hp; [done|]. intros o _ Hr. lia.
Qed.

(** C5. However the deliveries to a group with one consumer at a time go, with
    rebalances and restarts in between and whichever of the client's calls fail:
    every record of a partition before
    its committed offset has been acknowledged after its handler ran, unless
    it was left for retry and the seek back to it failed; and a message just
    left for retry is not before the committed offset, the consumer standing
    on it again unless that seek failed. No replacement of the commit stays
    pending. *)
Theorem retry_not_skipped (start : string → Z → Z) (r : Consumption C) :
  consuming stored start r →
  parked (handle r) = [] ∧
  (∀ t p o, stored t p o → start t p ≤ o < committed (consumer (handle r)) t p →
     (t, p, o) ∈ acked r ∨ (t, p, o) ∈ unsought r) ∧
  (∀ msg t p o c', msg_topic msg = FVal t → msg_partition msg = FVal p →
     msg_offset msg = FVal o → polled stored t p o (consumer (handle r)) c' →
     let h' := deliver false msg (mk_Handle c' []) in
     committed (consumer h') t p ≤ o ∧
     (seek_raises t p o c' = false → position (consumer h') t p = o)).
Proof.
  intros Hr. destruct (consuming_consumed start r Hr) as [Hk Ho Hs].
  split; [done|]. split.
  { intros t p o Hst Hlt. apply Hs; [done|]. specialize (Ho t p). lia. }
  intros msg t p o c' Ht Hp Hoff [Hst Hnext Hfrom Hpos Hcom].
  destruct (deliver_retry msg t p o c' t p Ht Hp Hoff) as (_ & E1 & E2). simpl in *.
  rewrite bool_decide_true in E1, E2 by done. specialize (Ho t p). rewrite Hcom in E2.
  split; [lia|]. intros Hseek. by rewrite Hseek in E1.
Qed.
End kafka_properties.

(** ** Witness: a group of one partition whose commits work *)
Record Log := mk_Log { l_pos : Z; l_com : Z; seek_works : bool }.
#[export] Instance log_consumer : Consumer Log := {|
  c_seek t p o := λ c, if seek_works c && bool_decide ((t, p) = ("streams", 0))
                       then (Ok tt, mk_Log o (l_com c) true) else (Exn ValueError, c);
  c_commit := λ c, (Ok tt, mk_Log (l_pos c) (l_pos c) (seek_works c));
  c_commit_at t p o := λ c, if bool_decide ((t, p) = ("streams", 0))
                            then (Ok tt, mk_Log (l_pos c) o (seek_works c)) else (Exn ValueError, c);
  position c t p := if bool_decide ((t, p) = ("streams", 0)) then l_pos c else 0;
  committed c t p := if bool_decide ((t, p) = ("streams", 0)) then l_com c else 0;
|}.
#[export] Instance log_laws : ConsumerLaws Log.
Proof.
  split; simpl; intros; match goal with c : Log |- _ => destruct c as [q k []] end; simpl in *;
    try done; repeat (case_bool_decide; simpl in *); try done; congruence.
Qed.

Definition msg_at (o : Z) : KafkaMessage := mk_KafkaMessage o (FVal "streams") (FVal 0) (FVal o).
Definition in_log (t : string) (p o : Z) : Prop := t = "streams" ∧ p = 0 ∧ 40 ≤ o.
Definition log_start (t : string) (p : Z) : Z := if bool_decide ((t, p) = ("streams", 0)) then 40 else 0.

Definition log_next (c : Log) : Log := mk_Log (l_pos c + 1) (l_com c) (seek_works c).
Lemma log_polled c : 40 ≤ l_pos c → polled in_log "streams" 0 (l_pos c) c (log_next c).
Proof. intros ?. split; simpl; unfold in_log; intros; repeat case_bool_decide; naive_solver lia. Qed.

(** Each record in turn, acknowledged or left for retry. *)
Fixpoint log_run (bs : list bool) (r : Consumption Log) : Consumption Log :=
  match bs with
  | [] => r
  | b :: bs =>
      let c := consumer (handle r) in
      let o := l_pos c in
      log_run bs (mk_Consumption (deliver b (msg_at o) (mk_Handle (log_next c) (parked (handle r))))
        (if b then ("streams", 0, o) :: acked r else acked r)
        (if b then unsought r else if seek_raises "streams" 0 o (log_next c)
         then ("streams", 0, o) :: unsought r else unsought r))
  end.

Lemma log_deliver_from b c : 40 ≤ l_pos c →
  40 ≤ l_pos (consumer (deliver b (msg_at (l_pos c)) (mk_Handle (log_next c) []))).
Proof. intros ?. destruct b, c as [q k []]; simpl in *; lia. Qed.

Lemma log_run_consuming bs r :
  consuming in_log log_start r → 40 ≤ l_pos (consumer (handle r)) →
  consuming in_log log_start (log_run bs r).
Proof.
  revert r. induction bs as [|b bs IH]; intros r Hr Hp; [done|].
  pose proof (consumed_parked _ _ _ (consuming_consumed _ _ _ Hr)) as Hk.
  destruct r as [h ack uns]. simpl in *. apply IH; simpl.
  - eapply consuming_step; [exact Hr|]. apply consume_message; try done. by apply log_polled.
  - rewrite Hk. by apply log_deliver_from.
Qed.

Definition log_empty (works : bool) : Consumption Log :=
  mk_Consumption (mk_Handle (mk_Log 40 40 works) []) [] [].

Lemma log_consuming works bs : consuming in_log log_start (log_run bs (log_empty works)).
Proof.
  apply log_run_consuming; [|simpl; lia].
  by apply consuming_start; intros t p; unfold log_start; simpl; case_match.
Qed.

(** Two acknowledged, one left for retry twice and then acknowledged. *)
Lemma retry_not_skipped_witness :
  let r := log_run [true; true; false; false; true] (log_empty true) in
  committed (consumer (handle r)) "streams" 0 = 43 ∧
  ∀ o, 40 ≤ o < 43 → ("streams", 0, o) ∈ acked r.
Proof.
  split; [reflexivity|]. intros o Ho.
  destruct (proj1 (proj2 (retry_not_skipped in_log log_start _
    (log_consuming true [true; true; false; false; true]))) "streams" 0 o) as [Hin|Hin].
  - unfold in_log. split; [reflexivity|split; [reflexivity|lia]].
  - exact Ho.
  - exact Hin.
  - vm_compute in Hin. inversion Hin.
Defined.

(** When the seek fails the offset of the message is committed once, but the
    next message's commit passes it. *)
Example unsought_passed :
  committed (consumer (handle (log_run [true; false] (log_empty false)))) "streams" 0 = 41 ∧
  let r := log_run [true; false; true] (log_empty false) in
  committed (consumer (handle r)) "streams" 0 = 43 ∧
  acked r = [("streams", 0, 42); ("streams", 0, 40)] ∧ unsought r = [("streams", 0, 41)].
Proof. done. Qed.

Lemma retries_bounded_witness :
  ∃ d', decide_run (replicate 3 EVENT_RETRYABLE) "redis:1" 3 [] =
    (Ok [(false, EVENT_RETRYABLE, 1); (false, EVENT_RETRYABLE, 2); (true, EVENT_TERMINAL, 3)], d')
    ∧ dget d' "redis:1" = None.
Proof. apply (retries_bounded "redis:1" 3 []). reflexivity. Defined.
