(* ===== verification/TtlCache.v ===== *)
(** * The in-process TTL cache of the Alert service

    [_TTLCache] of [alert/src/clients/dedup_state.py]. The clock's reading is
    an argument of each operation (the code reads it once per call); the lock
    makes each operation atomic, so a concurrent history is a sequence of
    them. Metrics and the cache's name are left out.

    The specification is a finite map with an expiry per key, in which nothing
    is ever deleted: sweeping and lazy deletion are invisible. *)

From Stdlib Require Import ZArith Lia Permutation.
From stdpp Require Import base list strings gmap fin_maps.
From S2P Require Import Prelude PyDict PyFloat.
Open Scope Z_scope.

Section cache.
  Context {V : Type}.

Record TTLCache := mk_TTLCache {
  data : dict string (V * option float);
  purge_interval : float;
  last_purge : float;
}.
Definition new_TTLCache (interval : float) : TTLCache := mk_TTLCache [] interval f0.

Implicit Types (c : TTLCache).

Definition expired (expire_at : option float) (now : float) : bool :=
  match expire_at with Some e => fle e now | None => false end.

(** The absolute expiry of an entry written at [now]. *)
Definition expire_at_of (now : float) (ttl : option float) : option float :=
  match ttl with
  | None => None
  | Some t => Some (if fle t f0 then now else fadd now t)
  end.

Definition set_data (d : dict string (V * option float)) c : TTLCache :=
  mk_TTLCache d (purge_interval c) (last_purge c).

Definition maybe_purge (now : float) c : TTLCache :=
  if flt (fsub now (last_purge c)) (purge_interval c) then c
  else mk_TTLCache (filter (λ kv, expired kv.2.2 now = false) (data c)) (purge_interval c) now.

Definition get (now : float) (key : string) : stM TTLCache (option V) :=
  λ c,
    match dget (data c) key with
    | None => (Ok None, c)
    | Some (v, e) =>
        if expired e now then (Ok None, set_data (ddel (data c) key) c) else (Ok (Some v), c)
    end.

Definition set (now : float) (key : string) (v : V) (ttl : option float) : stM TTLCache unit :=
  smod (λ c, let c1 := maybe_purge now c in
             set_data (dset (data c1) key (v, expire_at_of now ttl)) c1).

Definition set_if_absent (now : float) (key : string) (v : V) (ttl : option float)
    : stM TTLCache bool :=
  λ c,
    let c1 := maybe_purge now c in
    match dget (data c1) key with
    | Some (_, e) =>
        if expired e now
        then (Ok true, set_data (dset (data c1) key (v, expire_at_of now ttl)) c1)
        else (Ok false, c1)
    | None => (Ok true, set_data (dset (data c1) key (v, expire_at_of now ttl)) c1)
    end.

Definition cache_len (now : float) c : nat :=
  length (filter (λ kv, expired kv.2.2 now = false) (data c)).

(** ** The specification *)
Abbreviation spec := (gmap string (V * option float)).

Definition live (now : float) (entry : option (V * option float)) : option V :=
  match entry with
  | Some (v, e) => if expired e now then None else Some v
  | None => None
  end.

(** One call with its clock reading. *)
Inductive call :=
  | Get (key : string)
  | Set_ (key : string) (v : V) (ttl : option float)
  | SetIfAbsent (key : string) (v : V) (ttl : option float)
  | Len.

Inductive reply :=
  | RValue (o : option V)
  | RUnit
  | RBool (b : bool)
  | RNat (n : nat).

Definition run_call (now : float) (a : call) c : reply * TTLCache :=
  match a with
  | Get k => match get now k c with (Ok o, c') => (RValue o, c') | (Exn _, c') => (RUnit, c') end
  | Set_ k v ttl => (RUnit, (set now k v ttl c).2)
  | SetIfAbsent k v ttl =>
      match set_if_absent now k v ttl c with
      | (Ok b, c') => (RBool b, c') | (Exn _, c') => (RUnit, c') end
  | Len => (RNat (cache_len now c), c)
  end.

Definition spec_call (now : float) (a : call) (m : spec) : reply * spec :=
  match a with
  | Get k => (RValue (live now (m !! k)), m)
  | Set_ k v ttl => (RUnit, <[k := (v, expire_at_of now ttl)]> m)
  | SetIfAbsent k v ttl =>
      match live now (m !! k) with
      | Some _ => (RBool false, m)
      | None => (RBool true, <[k := (v, expire_at_of now ttl)]> m)
      end
  | Len => (RNat (size (filter (λ kv, expired kv.2.2 now = false) m)), m)
  end.

Fixpoint run_calls (calls : list (float * call)) c : list reply * TTLCache :=
  match calls with
  | [] => ([], c)
  | (now, a) :: rest =>
      let '(r, c1) := run_call now a c in
      let '(rs, c2) := run_calls rest c1 in (r :: rs, c2)
  end.
Fixpoint spec_calls (calls : list (float * call)) (m : spec) : list reply * spec :=
  match calls with
  | [] => ([], m)
  | (now, a) :: rest =>
      let '(r, m1) := spec_call now a m in
      let '(rs, m2) := spec_calls rest m1 in (r :: rs, m2)
  end.

(** Clock readings that never go back (a monotonic clock) and are numbers. *)
Fixpoint clock_ok (now : float) (calls : list (float * call)) : Prop :=
  match calls with
  | [] => True
  | (t, _) :: rest => fle now t = true ∧ clock_ok t rest
  end.

(** ** The simulation relation

    The cache holds exactly the specification's entries, except that entries
    expired by [now] may be missing. *)
Record sim (now : float) c (m : spec) : Prop := mk_sim {
  sim_wf : dict_wf (data c);
  sim_sub : ∀ k x, dget (data c) k = Some x → m !! k = Some x;
  sim_live : ∀ k x, m !! k = Some x → expired x.2 now = false → dget (data c) k = Some x;
}.

(** ** Lemmas *)
Lemma expired_mono e now now' :
  expired e now = true → fle now now' = true → expired e now' = true.
Proof. destruct e; [|done]. simpl. intros. by eapply fle_trans. Qed.

Lemma sim_later now now' c m : fle now now' = true → sim now c m → sim now' c m.
Proof.
  intros H [H1 H2 H3]. constructor; [done|done|]. intros k x Hk He. apply H3; [done|].
  destruct (expired x.2 now) eqn:E; [|done]. by rewrite (expired_mono _ _ _ E H) in He.
Qed.

Lemma dget_filter {W} (P : string * W → Prop) `{∀ kv, Decision (P kv)} (d : dict string W) k :
  dict_wf d →
  dget (filter P d) k =
    match dget d k with Some x => if decide (P (k, x)) then Some x else None | None => None end.
Proof.
  unfold dict_wf, dkeys. induction d as [|[k' x] d IH]; csimpl; [done|].
  intros [Hni Hnd]%NoDup_cons. rewrite filter_cons.
  destruct (decide (k = k')) as [->|Hne].
  - case_decide; simpl; [by rewrite decide_True|]. rewrite IH by done.
    assert (dget d k' = None) as -> by by apply dget_None. done.
  - case_decide; simpl; [rewrite decide_False by done|]; by apply IH.
Qed.

Lemma maybe_purge_sim now c m : sim now c m → sim now (maybe_purge now c) m.
Proof.
  intros [H1 H2 H3]. unfold maybe_purge. case_match; [done|].
  constructor; simpl; [by apply dict_wf_filter|..]; intros k x.
  - rewrite dget_filter by done. destruct (dget (data c) k) eqn:E; [|done].
    case_decide; [|done]. intros [= <-]. by apply H2.
  - intros Hk He. rewrite dget_filter by done. rewrite (H3 _ _ Hk He).
    by rewrite decide_True.
Qed.

Lemma sim_set now c m k x :
  sim now c m → sim now (set_data (dset (data c) k x) c) (<[k := x]> m).
Proof.
  intros [H1 H2 H3]. constructor; simpl; [by apply dict_wf_dset|..]; intros k' x';
    rewrite dget_dset, lookup_insert; case_decide; eauto.
Qed.

Lemma sim_lookup now c m k : sim now c m → live now (dget (data c) k) = live now (m !! k).
Proof.
  intros [_ H2 H3]. destruct (dget (data c) k) as [x|] eqn:E; [by rewrite (H2 _ _ E)|].
  destruct (m !! k) as [[v e]|] eqn:Em; [|done]. simpl.
  destruct (expired e now) eqn:He; [done|]. specialize (H3 _ _ Em He). congruence.
Qed.

Lemma sim_len now c m :
  sim now c m → cache_len now c = size (filter (λ kv, expired kv.2.2 now = false) m).
Proof.
  intros [H1 H2 H3]. unfold cache_len.
  rewrite <-length_map_to_list. apply Permutation_length. apply NoDup_Permutation.
  - apply NoDup_filter. unfold dict_wf, dkeys in H1. by eapply NoDup_fmap_1.
  - apply NoDup_map_to_list.
  - intros [k x]. rewrite list_elem_of_filter, elem_of_map_to_list, map_lookup_filter_Some. simpl.
    split.
    + intros [He Hin]. split; [|done]. by apply H2, elem_dget.
    + intros [Hk He]. split; [done|]. by apply dget_elem, H3.
Qed.

(** One call: equal replies, and the relation is kept. *)
Lemma call_sim now a c m :
  sim now c m →
  (run_call now a c).1 = (spec_call now a m).1 ∧
  sim now (run_call now a c).2 (spec_call now a m).2.
Proof.
  intros Hs. destruct a as [k|k v ttl|k v ttl|]; simpl.
  - pose proof (sim_lookup _ _ _ k Hs) as Hl. unfold get.
    destruct (dget (data c) k) as [[v e]|] eqn:E; simpl in *; [|by rewrite <-Hl].
    destruct (expired e now) eqn:He; simpl; rewrite <-Hl; (split; [done|]); [|done].
    destruct Hs as [H1 H2 H3]. constructor; simpl; [by apply dict_wf_ddel|..]; intros k' x;
      rewrite dget_ddel; case_decide as Hk; try done; [by apply H2|subst|by apply H3].
    intros Hm Hex. specialize (H3 _ _ Hm Hex). rewrite E in H3. injection H3 as <-.
    simpl in Hex. congruence.
  - split; [done|]. apply sim_set. by apply maybe_purge_sim.
  - apply maybe_purge_sim in Hs. pose proof (sim_lookup _ _ _ k Hs) as Hl.
    unfold set_if_absent. rewrite <-Hl.
    destruct (dget (data (maybe_purge now c)) k) as [[v' e]|]; simpl;
      [destruct (expired e now)|]; simpl; (split; [done|]); auto using sim_set.
  - split; [|done]. by rewrite (sim_len _ _ _ Hs).
Qed.

Lemma calls_sim now calls c m :
  sim now c m → clock_ok now calls → (run_calls calls c).1 = (spec_calls calls m).1.
Proof.
  revert now c m. induction calls as [|[t a] calls IH]; intros now c m Hs; [done|].
  intros [Ht Hc]. simpl. destruct (call_sim t a c m) as [Hr Hs']; [by eapply sim_later|].
  destruct (run_call t a c) as [r1 c1], (spec_call t a m) as [r2 m1]. simpl in *. subst r2.
  specialize (IH t c1 m1 Hs' Hc).
  destruct (run_calls calls c1) as [rs1 c2], (spec_calls calls m1) as [rs2 m2].
  simpl in *. by subst.
Qed.

Lemma set_if_absent_admits now k v ttl c :
  ∃ b c', set_if_absent now k v ttl c = (Ok b, c').
Proof. unfold set_if_absent. repeat case_match; by eexists _, _. Qed.

(** ** Property *)

(** C9. The cache implements a map with expiring entries: on any sequence of
    calls with a clock that does not go back it answers exactly as the
    specification that never deletes anything, so sweeps and lazy deletions
    cannot be observed. *)
Theorem ttl_cache_refines interval start calls :
  clock_ok start calls →
  (run_calls calls (new_TTLCache interval)).1 = (spec_calls calls ∅).1.
Proof.
  intros Hc. apply (calls_sim start); [|done].
  constructor; simpl; [constructor|done|]. intros k x. by rewrite lookup_empty.
Qed.
End cache.
Arguments TTLCache : clear implicits.
Arguments call : clear implicits.
Arguments reply : clear implicits.

(** ** Witness: an entry read, expired, swept by a later write and recreated *)
Definition calls_ex : list (float * call nat) :=
  [(Z2f 100, SetIfAbsent "a" 1%nat (Some (Z2f 10))); (Z2f 105, SetIfAbsent "a" 2%nat (Some (Z2f 10)));
   (Z2f 105, Get "a"); (Z2f 140, Set_ "b" 3%nat None); (Z2f 141, Len);
   (Z2f 142, SetIfAbsent "a" 4%nat (Some (Z2f 10))); (Z2f 143, Len)].

Lemma ttl_cache_refines_witness :
  (run_calls calls_ex (new_TTLCache (Z2f 30))).1 = (spec_calls calls_ex ∅).1.
Proof.
  apply (ttl_cache_refines (Z2f 30) (Z2f 0) calls_ex).
  by vm_compute.
Defined.

Example calls_ex_replies :
  (run_calls calls_ex (new_TTLCache (Z2f 30))).1 =
    [RBool true; RBool false; RValue (Some 1%nat); RUnit; RNat 1; RBool true; RNat 2].
Proof. vm_compute. reflexivity. Qed.
