(* ===== verification/Dedup.v ===== *)
(** * Event deduplication and verdict protection (Alert service)

    [DedupStateHandler] of [alert/src/clients/dedup_state.py] on top of the
    cache of TtlCache.v: the configuration checks, the cohort key, the
    time-to-live dedup and rate limit, the end-time delta filter, and the
    confirmed-verdict protection with its lazily built Elasticsearch client.

    A message is the dict of dynamic values [json.loads] returns. Clock
    readings are arguments, one per call of the clock. The Elasticsearch
    client is an interface ([Elastic]), its laws those of the documents an index
    holds ([ElasticLaws]), and the replicas of the service are handlers on one
    cluster ([Fleet]); [datetime.fromisoformat] and the decimal text of floats
    are arguments. Reading the YAML file, logging and metrics are left out; a
    lock makes each cache operation atomic. *)

From Stdlib Require Import ZArith Lia Strings.String Permutation Floats.SpecFloat.
From stdpp Require Import base list strings gmap.
From S2P Require Import Prelude PyDict PyFloat PyText PyVal Sha1 TtlCache.
Open Scope Z_scope.

(** ** The Elasticsearch client *)
Record ElasticConfig := mk_ElasticConfig {
  hosts : list string; username : pyval; password : pyval; api_key : pyval; cloud_id : pyval;
  verify_certs : bool; ca_certs : pyval; request_timeout : Z;
}.

(** A client [Cl] and the world [W] its calls act on. *)
Class Elastic (Cl W : Type) := {
  es_connect : ElasticConfig → stM W Cl;
  es_ensure_json_index : Cl → string → stM W unit;
  es_write_json : Cl → string → pyval → string → stM W unit;
  es_get_document : Cl → string → string → stM W pyval;
  es_delete_by_query : Cl → string → pyval → stM W pyval;
}.

(** ** Configuration *)
Record DedupConfig := mk_DedupConfig {
  rate_limit_ttl : float;
  incident_end_categories : list string;
  dedup_ttl_seconds : float;
  protect_confirmed_enabled : bool;
  protect_confirmed_ttl : float;
  es_backoff_seconds : float;
  end_delta_enabled : bool;
  end_delta_threshold : pyval;
  end_delta_ttl : float;
  verdict_index : string;
  app_config : pyval;
}.

Section config.
  Context `{FloatText}.

Definition validate_ttl (value : pyval) : result float :=
  match py_float value with
  | Ok ttl => if negb (isfinite ttl) || fle ttl f0 then Exn ValueError else Ok ttl
  | Exn TypeError | Exn ValueError => Exn ValueError
  | Exn e => Exn e
  end.

(** [s.strip().lower()] *)
Definition norm (s : string) : string := py_lower (py_strip s).
Definition norm_text (v : pyval) : result string := s ← as_str v; mret (norm s).

Definition load_incident_end_categories (state_config : pyval) : result (list string) :=
  raw ← vget state_config "end_time_in_dedup_key_categories";
  match vor raw (VList []) with
  | VDict d => mret ((λ kv, norm kv.1) <$> filter (λ kv, truthy kv.2 = true) d)
  | raw => l ← py_iter raw; mret ((λ v, norm (py_str v)) <$> l)
  end.

Definition resolve_verdict_index (config : pyval) : result string :=
  persistence ← vget config "persistence";
  prefix ← vget_or (vor persistence (VDict [])) "index_prefix" (VStr "ab-");
  mret (py_str prefix +:+ "confirmed-verdicts").

(** The section of the file the tuning is read from. *)
Definition state_config_of (config : pyval) : result pyval :=
  agent ← vget_or config "alert_agent" (VDict []);
  filters ← vget (vor agent (VDict [])) "event_filters";
  if truthy filters then mret filters
  else
    redis ← vget config "redis";
    legacy ← (if truthy redis then mret redis
              else bridge ← vget_or config "event_bridge" (VDict []); vget bridge "redis_source");
    mret (vor legacy (VDict [])).

(** [__init__], from the parsed file. *)
Definition load_config (file rate_limit : pyval) : result DedupConfig :=
  let config := vor file (VDict []) in
  state ← state_config_of config;
  rate ← validate_ttl rate_limit;
  categories ← load_incident_end_categories state;
  dedup_ttl ← vget_or state "dedup_ttl_seconds" (VInt 300);
  dedup_ttl ← validate_ttl dedup_ttl;
  protect ← vget_or state "protect_confirmed_verdicts" (VDict []);
  enabled ← vget_or protect "enabled" (VBool false);
  protect_ttl ← vget_or protect "ttl_seconds" (VInt 600);
  protect_ttl ← validate_ttl protect_ttl;
  backoff ← vget_or protect "es_retry_backoff_seconds" (VInt 30);
  backoff ← validate_ttl backoff;
  delta ← vget_or state "end_time_delta_filter" (VDict []);
  delta_on ← vget_or delta "enabled" (VBool false);
  threshold ← vget_or delta "threshold_seconds" (VInt 5);
  delta_ttl ← vget_or delta "ttl_seconds" (VInt 3600);
  delta_ttl ← validate_ttl delta_ttl;
  index ← resolve_verdict_index config;
  mret (mk_DedupConfig rate categories dedup_ttl (truthy enabled) protect_ttl backoff
          (truthy delta_on) threshold delta_ttl index config).

(** The overrides of [persistence.elasticsearch], else the [elastic] block.
    An override section that is not a dict raises; which exception does not
    matter, the only caller catches all of them. *)
Definition pick (es_override elastic_cfg : pyval) (key : string) (dflt : pyval) : result pyval :=
  match es_override with
  | VDict d => match dget d key with Some v => mret v | None => vget_or elastic_cfg key dflt end
  | _ => Exn AttributeError
  end.

(** [tuple(str(h).strip() for h in hosts if h)], or the text itself. *)
Definition hosts_of (v : pyval) : list string :=
  match v with
  | VStr s => [s]
  | VList l => (λ h, py_strip (py_str h)) <$> filter (λ h, truthy h = true) l
  | _ => []
  end.

Definition build_elastic_config (config : pyval) : result ElasticConfig :=
  elastic ← vget_or config "elastic" (VDict []);
  let elastic_cfg := vor elastic (VDict []) in
  persistence ← vget_or config "persistence" (VDict []);
  override ← vget (vor persistence (VDict [])) "elasticsearch";
  let es_override := vor override (VDict []) in
  let get key dflt := pick es_override elastic_cfg key dflt in
  cloud ← get "cloud_id" VNone;
  own_hosts ← vget es_override "hosts";
  hosts_config ← (if truthy own_hosts then mret own_hosts else vget elastic_cfg "hosts");
  if bool_decide (hosts_of hosts_config = []) && negb (truthy cloud) then Exn ValueError
  else
    user ← get "username" VNone;
    pass ← get "password" VNone;
    key ← get "api_key" VNone;
    verify ← get "verify_certs" (VBool false);
    ca ← get "ca_certs" VNone;
    timeout ← get "request_timeout" (VInt 10);
    timeout ← py_int timeout;
    mret (mk_ElasticConfig (if truthy cloud then [] else hosts_of hosts_config)
            user pass key cloud (truthy verify) ca timeout).

(** ** The cohort key *)
Definition mget (msg : dict string pyval) (key : string) : pyval := default VNone (dget msg key).

Definition should_include_end (cfg : DedupConfig) (category : string) : bool :=
  if String.eqb category EmptyString then false
  else bool_decide (norm category ∈ incident_end_categories cfg).

Definition object_digest (ids : list pyval) : string :=
  String.substring 0 16 (sha1_hexdigest (py_join "," (sort_strings (py_str <$> ids)))).

Definition build_key (cfg : DedupConfig) (msg : dict string pyval) (rate_limit is_last_chunk : bool)
    : result string :=
  if dmem msg "objectIds" then
    sensor_id ← norm_text (vor (mget msg "sensorId") (VStr ""));
    let timestamp := vor (mget msg "timestamp") (VStr "") in
    let end_ := vor (mget msg "end") (VStr "") in
    category ← norm_text (vor (mget msg "category") (VStr ""));
    module ← vget (vor (mget msg "analyticsModule") (VDict [])) "id";
    am_id ← norm_text (vor module (VStr ""));
    object_ids ← py_iter (vor (mget msg "objectIds") (VList []));
    let include_end := negb rate_limit && should_include_end cfg category in
    py_join_vals ":"
      ([VStr "vlm"; VStr sensor_id; timestamp] ++ (if include_end then [end_] else []) ++
       [VStr (object_digest object_ids); VStr category; VStr am_id;
        VStr (if is_last_chunk then "true" else "false")])
  else
    sensor_id ← vget (default (VDict []) (dget msg "sensor")) "id";
    vehicle_id ← vget (default (VDict []) (dget msg "object")) "id";
    anomaly_type ← vget_or (default (VDict []) (dget msg "analyticsModule")) "id" (VStr "");
    mret ("anomaly:" +:+ py_str (mget msg "timestamp") +:+ ":" +:+ py_str sensor_id +:+ ":" +:+
          py_str vehicle_id +:+ ":" +:+ py_str anomaly_type).

Definition is_last_chunk (msg : dict string pyval) : bool :=
  match mget msg "info" with
  | VDict info =>
      let v := default VNone (dget info "isComplete") in
      eq_true v ||
      match v with VStr s => bool_decide (s ∈ ["true"; "True"; "TRUE"]) | _ => false end
  | _ => false
  end.
End config.

(** ** The handler's state

    [world] is the cluster and network the clients act on. *)
Section handler.
  Context `{FloatText} {Cl W : Type} `{Elastic Cl W}.
  (** [datetime.fromisoformat(s).timestamp()], [None] where it raises. *)
  Context (fromisoformat : string → option float).
  Context (cfg : DedupConfig).

Record Handler := mk_Handler {
  dedup_cache : TTLCache unit;
  enddelta_cache : TTLCache string;
  es_client : option Cl;
  injected_es_client : option Cl;
  es_retry_after : float;
  world : W;
}.
Definition new_Handler (client : option Cl) (w : W) : Handler :=
  mk_Handler (new_TTLCache (Z2f 30)) (new_TTLCache (Z2f 30)) client client f0 w.

Definition on_dedup {A} : stM (TTLCache unit) A → stM Handler A :=
  zoom dedup_cache (λ c h, mk_Handler c (enddelta_cache h) (es_client h) (injected_es_client h)
                             (es_retry_after h) (world h)).
Definition on_enddelta {A} : stM (TTLCache string) A → stM Handler A :=
  zoom enddelta_cache (λ c h, mk_Handler (dedup_cache h) c (es_client h) (injected_es_client h)
                                (es_retry_after h) (world h)).
Definition on_world {A} : stM W A → stM Handler A :=
  zoom world (λ w h, mk_Handler (dedup_cache h) (enddelta_cache h) (es_client h)
                       (injected_es_client h) (es_retry_after h) w).
Definition put_client (c : option Cl) (retry_after : float) (h : Handler) : Handler :=
  mk_Handler (dedup_cache h) (enddelta_cache h) c (injected_es_client h) retry_after (world h).

(** ** Dedup and rate limit *)
Definition process_event (now : float) (msg : dict string pyval) (rate_limit last : bool)
    : stM Handler bool :=
  category ← slift (if rate_limit then norm_text (vor (mget msg "category") (VStr ""))
                    else mret EmptyString);
  if rate_limit && negb (should_include_end cfg category) then mret true
  else
    key ← slift (build_key cfg msg rate_limit last);
    let ttl := if rate_limit then rate_limit_ttl cfg else dedup_ttl_seconds cfg in
    scatch (on_dedup (set_if_absent now key tt (Some ttl))) (λ _, mret true).

(** The messages come with the clock's reading when each is looked at. *)
Fixpoint filter_new_events (messages : list (float * dict string pyval))
    (rate_limit verify_only_finished_events : bool) : stM Handler (list (dict string pyval)) :=
  match messages with
  | [] => mret []
  | (now, msg) :: rest =>
      if negb (is_last_chunk msg) && verify_only_finished_events
      then filter_new_events rest rate_limit verify_only_finished_events
      else
        keep ← process_event now msg rate_limit (is_last_chunk msg);
        kept ← filter_new_events rest rate_limit verify_only_finished_events;
        mret (if (keep : bool) then msg :: kept else kept)
  end.

(** ** End-time delta filter *)
Definition parse_iso_to_epoch (iso : pyval) : option float :=
  match iso with
  | VStr s => if String.eqb s EmptyString then None
              else fromisoformat (py_join "+00:00" (py_split "Z" s))
  | _ => None
  end.

(** [t1] and [t2] are the readings of the cache's clock in [get] and [set]. *)
Definition check_end_delta (t1 t2 : float) (msg : dict string pyval) : stM Handler bool :=
  cohort_key ← slift (build_key cfg msg true (is_last_chunk msg));
  let key := "enddelta:" +:+ cohort_key in
  match parse_iso_to_epoch (mget msg "end") with
  | None => mret true
  | Some current_epoch =>
      let store := on_enddelta (set t2 key (repr_float current_epoch) (Some (end_delta_ttl cfg))) in
      scatch
        (stored ← on_enddelta (get t1 key);
         match stored with
         | None => _ ← store; mret true
         | Some text =>
             stored_epoch ← slift (require (parse_float text) ValueError);
             changed ← slift (float_ge (fabs (fsub current_epoch stored_epoch))
                                (end_delta_threshold cfg));
             if (changed : bool) then _ ← store; mret true else mret false
         end)
        (λ _, mret true)
  end.

Fixpoint filter_incidents (messages : list (float * float * dict string pyval))
    : stM Handler (list (dict string pyval)) :=
  match messages with
  | [] => mret []
  | (t1, t2, msg) :: rest =>
      keep ← (if dmem msg "objectIds" then check_end_delta t1 t2 msg else mret true);
      kept ← filter_incidents rest;
      mret (if (keep : bool) then msg :: kept else kept)
  end.
Definition filter_by_end_time_delta (messages : list (float * float * dict string pyval))
    : stM Handler (list (dict string pyval)) :=
  if end_delta_enabled cfg then filter_incidents messages else mret messages.*2.

(** ** Confirmed verdicts *)
Definition set_es_client (client : option Cl) : stM Handler unit :=
  smod (λ h, mk_Handler (dedup_cache h) (enddelta_cache h) client client f0 (world h)).

(** [now] and [later] are [time.time()] before and after the attempt. *)
Definition get_es_client (now later : float) : stM Handler (option Cl) :=
  h ← sget;
  match es_client h, injected_es_client h with
  | Some c, _ => mret (Some c)
  | None, Some c => _ ← smod (put_client (Some c) (es_retry_after h)); mret (Some c)
  | None, None =>
      if flt now (es_retry_after h) then mret None
      else
        scatch
          (config ← slift (build_elastic_config (app_config cfg));
           c ← on_world (es_connect config);
           _ ← smod (put_client (Some c) f0); mret (Some c))
          (λ _, _ ← smod (put_client None (fadd later (es_backoff_seconds cfg))); mret None)
  end.

Definition ensure_verdict_index (now later : float) : stM Handler bool :=
  if negb (protect_confirmed_enabled cfg) then mret true
  else
    client ← get_es_client now later;
    match client with
    | None => mret false
    | Some c => scatch (_ ← on_world (es_ensure_json_index c (verdict_index cfg)); mret true)
                  (λ _, mret false)
    end.

(** [t] is [time.time()] when the marker is made, [created_at] its text. *)
Definition mark_verdict_confirmed (now later t : float) (created_at fingerprint : string)
    : stM Handler bool :=
  if negb (protect_confirmed_enabled cfg) || String.eqb fingerprint EmptyString then mret false
  else
    client ← get_es_client now later;
    match client with
    | None => mret false
    | Some c =>
        scatch
          (_ ← on_world (es_ensure_json_index c (verdict_index cfg));
           _ ← on_world (es_write_json c (verdict_index cfg)
                 (VDict [("fingerprint", VStr fingerprint);
                         ("expires_at", VFloat (fadd t (protect_confirmed_ttl cfg)));
                         ("created_at", VStr created_at)]) fingerprint);
           mret true)
          (λ _, mret false)
    end.

(** What the marker's [expires_at] says at time [t]: only [TypeError] and
    [ValueError] of [float()] are caught. *)
Definition marker_confirms (doc : pyval) (t : float) : result bool :=
  expires_at ← vget doc "expires_at";
  match py_float expires_at with
  | Exn TypeError | Exn ValueError => mret false
  | Exn e => Exn e
  | Ok e => mret (isfinite e && negb (fle e t))
  end.

Definition is_verdict_confirmed (now later t : float) (fingerprint : string) : stM Handler bool :=
  if negb (protect_confirmed_enabled cfg) || String.eqb fingerprint EmptyString then mret false
  else
    client ← get_es_client now later;
    match client with
    | None => mret false
    | Some c =>
        doc ← scatch (on_world (es_get_document c (verdict_index cfg) fingerprint))
                (λ _, mret VNone);
        if truthy doc then slift (marker_confirms doc t) else mret false
    end.

Definition purge_expired_verdicts (now later t : float) : stM Handler Z :=
  if negb (protect_confirmed_enabled cfg) then mret 0
  else
    client ← get_es_client now later;
    match client with
    | None => mret 0
    | Some c =>
        scatch
          (answer ← on_world (es_delete_by_query c (verdict_index cfg)
             (VDict [("range", VDict [("expires_at", VDict [("lt", VFloat t)])])]));
           deleted ← slift (vget_or answer "deleted" (VInt 0));
           slift (py_int (vor deleted (VInt 0))))
          (λ _, mret 0)
    end.
End handler.

(** ** Specifications

    Both filters forget nothing: the specification of each is a log of the
    entries written, and says which of them still count. *)
Record Event := mk_Event {
  ev_now : float; ev_msg : dict string pyval; ev_rate_limit : bool; ev_last : bool }.

Section specs.
  Context `{FloatText} {Cl W : Type} `{Elastic Cl W}.
  Context (fromisoformat : string → option float) (cfg : DedupConfig).
  Implicit Types (h : @Handler Cl W).

Fixpoint run_events (evs : list Event) h : list (result bool) :=
  match evs with
  | [] => []
  | ev :: rest =>
      let '(r, h') := process_event cfg (ev_now ev) (ev_msg ev) (ev_rate_limit ev) (ev_last ev) h in
      r :: run_events rest h'
  end.

(** The key an event competes for and the expiry of its entry; [None] when
    the rate limit does not apply to its category. *)
Definition claim_of (ev : Event) : result (option (string * option float)) :=
  category ← (if ev_rate_limit ev then norm_text (vor (mget (ev_msg ev) "category") (VStr ""))
              else mret EmptyString);
  if ev_rate_limit ev && negb (should_include_end cfg category) then mret None
  else
    key ← build_key cfg (ev_msg ev) (ev_rate_limit ev) (ev_last ev);
    mret (Some (key, expire_at_of (ev_now ev)
                       (Some (if ev_rate_limit ev then rate_limit_ttl cfg else dedup_ttl_seconds cfg)))).

Definition all_expired (admitted : list (string * option float)) (key : string) (now : float) : bool :=
  forallb (λ p, negb (String.eqb p.1 key) || expired p.2 now) admitted.

Fixpoint dedup_spec (evs : list Event) (admitted : list (string * option float))
    : list (result bool) :=
  match evs with
  | [] => []
  | ev :: rest =>
      match claim_of ev with
      | Exn e => Exn e :: dedup_spec rest admitted
      | Ok None => Ok true :: dedup_spec rest admitted
      | Ok (Some (key, e)) =>
          if all_expired admitted key (ev_now ev)
          then Ok true :: dedup_spec rest ((key, e) :: admitted)
          else Ok false :: dedup_spec rest admitted
      end
  end.

Fixpoint in_order (now : float) (evs : list Event) : Prop :=
  match evs with
  | [] => True
  | ev :: rest => fle now (ev_now ev) = true ∧ in_order (ev_now ev) rest
  end.

(** The log of admissions and the map the cache refines. *)
Definition admitted_sim (now : float) (log : list (string * option float))
    (m : gmap string (unit * option float)) : Prop :=
  (∀ k x, m !! k = Some x → (k, x.2) ∈ log) ∧
  (∀ k e, (k, e) ∈ log → expired e now = false → m !! k = Some (tt, e)).

Lemma admitted_sim_later now now' log m :
  fle now now' = true → admitted_sim now log m → admitted_sim now' log m.
Proof.
  intros Hle [H1 H2]. split; [done|]. intros k e Hin He. apply H2; [done|].
  destruct (expired e now) eqn:E; [|done]. by rewrite (expired_mono _ _ _ E Hle) in He.
Qed.

Lemma all_expired_live now log m k :
  admitted_sim now log m →
  all_expired log k now = match live now (m !! k) with Some _ => false | None => true end.
Proof.
  intros [H1 H2]. unfold live, all_expired.
  destruct (m !! k) as [[[] e]|] eqn:E; [destruct (expired e now) eqn:He|].
  2: { apply not_true_is_false. rewrite forallb_forall. intros Hall.
       specialize (Hall (k, e) (proj1 (list_elem_of_In _ _) (H1 _ _ E))). simpl in Hall.
       rewrite String.eqb_refl, He in Hall. done. }
  all: apply forallb_forall; intros [k' e'] Hin%list_elem_of_In; simpl;
    destruct (String.eqb_spec k' k) as [->|]; [|done]; simpl;
    destruct (expired e' now) eqn:He'; [done|]; rewrite (H2 _ _ Hin He') in E; congruence.
Qed.

Lemma admitted_sim_add now log m k e :
  admitted_sim now log m → all_expired log k now = true →
  admitted_sim now ((k, e) :: log) (<[k := (tt, e)]> m).
Proof.
  intros [H1 H2] Hall. split.
  - intros k' x. rewrite lookup_insert_Some. intros [[-> <-]|[_ Hm]]; [left|]. right. by apply H1.
  - intros k' e' Hin He'. apply elem_of_cons in Hin as [[= -> ->]|Hin]; [apply lookup_insert_eq|].
    destruct (decide (k' = k)) as [->|]; [|by rewrite lookup_insert_ne; auto].
    unfold all_expired in Hall. rewrite forallb_forall in Hall.
    specialize (Hall (k, e') (proj1 (list_elem_of_In _ _) Hin)). simpl in Hall.
    by rewrite String.eqb_refl, He' in Hall.
Qed.

(** An operation on one field of the handler. *)
Lemma on_dedup_run {A} (m : stM (TTLCache unit) A) h :
  (on_dedup m h).1 = (m (dedup_cache h)).1 ∧ dedup_cache (on_dedup m h).2 = (m (dedup_cache h)).2.
Proof. unfold on_dedup, zoom. by destruct (m (dedup_cache h)). Qed.

Lemma process_event_claim ev h :
  process_event cfg (ev_now ev) (ev_msg ev) (ev_rate_limit ev) (ev_last ev) h =
    match claim_of ev with
    | Exn e => (Exn e, h)
    | Ok None => (Ok true, h)
    | Ok (Some (key, _)) =>
        on_dedup (set_if_absent (ev_now ev) key tt
          (Some (if ev_rate_limit ev then rate_limit_ttl cfg else dedup_ttl_seconds cfg))) h
    end.
Proof.
  unfold process_event, claim_of, mbind, stM_bind, result_bind, slift, scatch, mret, stM_ret,
    result_ret.
  destruct (if ev_rate_limit ev then _ else _) as [category|]; [|done].
  destruct (ev_rate_limit ev && _); [done|].
  destruct (build_key _ _ _ _) as [key|]; [|done].
  unfold on_dedup, zoom.
  match goal with |- context [set_if_absent ?t ?k ?v ?l ?c] =>
    destruct (set_if_absent_admits t k v l c) as (b & c' & ->) end. done.
Qed.

Lemma run_events_spec now evs h m log :
  in_order now evs → sim now (dedup_cache h) m → admitted_sim now log m →
  run_events evs h = dedup_spec evs log.
Proof.
  revert now h m log. induction evs as [|ev evs IH]; intros now h m log; [done|].
  intros [Ht Hord] Hs Hl. cbn [run_events dedup_spec].
  eapply sim_later in Hs; [|done]. eapply admitted_sim_later in Hl; [|done].
  pose proof (process_event_claim ev h) as Hp.
  destruct (claim_of ev) as [[[key e]|]|ex] eqn:Hc;
    [|by rewrite Hp, (IH (ev_now ev) h m log)..].
  set (ttl := if ev_rate_limit ev then rate_limit_ttl cfg else dedup_ttl_seconds cfg) in *.
  assert (e = expire_at_of (ev_now ev) (Some ttl)) as He.
  { revert Hc. unfold claim_of, mbind, result_bind, mret, result_ret. fold ttl.
    destruct (if ev_rate_limit ev then _ else Ok _) as [category|]; [|done].
    destruct (ev_rate_limit ev && _); [done|].
    destruct (build_key _ _ _ _); [|done]. by intros [= _ <-]. }
  rewrite (all_expired_live _ _ _ key Hl).
  destruct (call_sim (ev_now ev) (SetIfAbsent key tt (Some ttl)) _ _ Hs) as [Hr Hs'].
  cbn [run_call spec_call] in Hr, Hs'. rewrite <-He in Hs'.
  pose proof (on_dedup_run (set_if_absent (ev_now ev) key tt (Some ttl)) h) as [Ho1 Ho2].
  destruct (process_event _ _ _ _ _ h) as [r h']. rewrite <-Hp in Ho1, Ho2. cbn [fst snd] in Ho1, Ho2.
  destruct (set_if_absent (ev_now ev) key tt (Some ttl) (dedup_cache h)) as [[b|] c'] eqn:Es.
  2: { destruct (set_if_absent_admits (ev_now ev) key tt (Some ttl) (dedup_cache h)) as (?&?&E').
       by rewrite E' in Es. }
  cbn [fst snd] in *. subst r.
  pose proof (all_expired_live _ _ _ key Hl) as Hall.
  destruct (live (ev_now ev) (m !! key)); cbn [fst snd] in Hr, Hs'; injection Hr as ->.
  - f_equal. apply (IH (ev_now ev) _ m); [done| |done]. by rewrite Ho2.
  - f_equal. eapply (IH (ev_now ev)); [done|rewrite Ho2; exact Hs'|].
    by apply admitted_sim_add.
Qed.
End specs.

Lemma new_cache_sim {V} now i : sim now (@new_TTLCache V i) ∅.
Proof. constructor; simpl; [constructor|done|]. intros k x. by rewrite lookup_empty. Qed.

(** ** The end-time delta filter *)
Record Check := mk_Check { ck_get : float; ck_set : float; ck_msg : dict string pyval }.

Section delta.
  Context `{FloatTextLaws} {Cl W : Type} `{Elastic Cl W}.
  Context (fromisoformat : string → option float) (cfg : DedupConfig).
  Implicit Types (h : @Handler Cl W).

Fixpoint run_checks (checks : list Check) h : list (result bool) :=
  match checks with
  | [] => []
  | ck :: rest =>
      let '(r, h') := check_end_delta fromisoformat cfg (ck_get ck) (ck_set ck) (ck_msg ck) h in
      r :: run_checks rest h'
  end.

(** The log holds, latest first, the ends that were passed on, per cohort. *)
Fixpoint delta_spec (checks : list Check) (log : dict string (float * option float))
    : list (result bool) :=
  match checks with
  | [] => []
  | ck :: rest =>
      match build_key cfg (ck_msg ck) true (is_last_chunk (ck_msg ck)) with
      | Exn e => Exn e :: delta_spec rest log
      | Ok cohort =>
          match parse_iso_to_epoch fromisoformat (mget (ck_msg ck) "end") with
          | None => Ok true :: delta_spec rest log
          | Some epoch =>
              let entry := (cohort, (epoch, expire_at_of (ck_set ck) (Some (end_delta_ttl cfg)))) in
              match live (ck_get ck) (dget log cohort) with
              | None => Ok true :: delta_spec rest (entry :: log)
              | Some last =>
                  match float_ge (fabs (fsub epoch last)) (end_delta_threshold cfg) with
                  | Ok true => Ok true :: delta_spec rest (entry :: log)
                  | Ok false => Ok false :: delta_spec rest log
                  | Exn _ => Ok true :: delta_spec rest log
                  end
              end
          end
      end
  end.

Fixpoint checks_in_order (now : float) (checks : list Check) : Prop :=
  match checks with
  | [] => True
  | ck :: rest => fle now (ck_get ck) = true ∧ fle (ck_get ck) (ck_set ck) = true ∧
                  checks_in_order (ck_set ck) rest
  end.

Definition delta_sim (log : dict string (float * option float))
    (m : gmap string (string * option float)) : Prop :=
  ∀ k, m !! ("enddelta:" +:+ k) = prod_map repr_float id <$> dget log k.

Lemma delta_sim_live log m t k :
  delta_sim log m → live t (m !! ("enddelta:" +:+ k)) = repr_float <$> live t (dget log k).
Proof. intros Hm. rewrite Hm. destruct (dget log k) as [[x e]|]; [|done]. simpl. by case_match. Qed.

Lemma delta_sim_add log m k x e :
  delta_sim log m →
  delta_sim ((k, (x, e)) :: log) (<["enddelta:" +:+ k := (repr_float x, e)]> m).
Proof.
  intros Hm k'. cbn [dget]. case_decide as Hk; simpl in Hk; subst.
  - by rewrite lookup_insert_eq.
  - rewrite lookup_insert_ne; [apply Hm|]. intros Heq. by apply (inj _) in Heq.
Qed.

Lemma get_sim now k (c : TTLCache string) m :
  sim now c m → ∃ c', get now k c = (Ok (live now (m !! k)), c') ∧ sim now c' m.
Proof.
  intros Hs. destruct (call_sim now (Get k) c m Hs) as [Hr Hs']. simpl in Hr, Hs'.
  destruct (get now k c) as [[o|e] c'] eqn:E; simpl in *; [|done].
  injection Hr as ->. by exists c'.
Qed.

(** Writing an end passed on. *)
Definition passed_on (ck : Check) (cohort : string) (epoch : float) (c : TTLCache string) h : Handler :=
  mk_Handler (dedup_cache h)
    (set (ck_set ck) ("enddelta:" +:+ cohort) (repr_float epoch) (Some (end_delta_ttl cfg)) c).2
    (es_client h) (injected_es_client h) (es_retry_after h) (world h).

Lemma passed_on_sim ck cohort epoch c h m log :
  fle (ck_get ck) (ck_set ck) = true → sim (ck_get ck) c m → delta_sim log m →
  ∃ m', sim (ck_set ck) (enddelta_cache (passed_on ck cohort epoch c h)) m' ∧
    delta_sim ((cohort, (epoch, expire_at_of (ck_set ck) (Some (end_delta_ttl cfg)))) :: log) m'.
Proof.
  intros Ht Hs Hl. eapply sim_later in Hs; [|exact Ht].
  eexists. split; [|by apply delta_sim_add].
  apply (call_sim (ck_set ck) (Set_ ("enddelta:" +:+ cohort) (repr_float epoch)
    (Some (end_delta_ttl cfg))) c m Hs).
Qed.

Lemma run_checks_spec now checks h m log :
  checks_in_order now checks → sim now (enddelta_cache h) m → delta_sim log m →
  run_checks checks h = delta_spec checks log.
Proof.
  revert now h m log. induction checks as [|ck checks IH]; intros now h m log; [done|].
  intros (Ht1 & Ht2 & Hord) Hs Hl. cbn [run_checks delta_spec].
  eapply sim_later in Hs; [|exact Ht1].
  assert (∀ h', enddelta_cache h' = enddelta_cache h → run_checks checks h' = delta_spec checks log) as IH0.
  { intros h' Eh. apply (IH (ck_set ck) h' m); [done| |done]. rewrite Eh. by eapply sim_later. }
  assert (∀ c h', sim (ck_get ck) c m → enddelta_cache h' = c → run_checks checks h' = delta_spec checks log) as IH1.
  { intros c h' Hc Eh. apply (IH (ck_set ck) h' m); [done| |done]. rewrite Eh. by eapply sim_later. }
  unfold check_end_delta, mbind, stM_bind, slift, scatch, mret, stM_ret.
  destruct (build_key cfg _ true _) as [cohort|e]; [|by rewrite IH0].
  destruct (parse_iso_to_epoch _ _) as [epoch|]; [|by rewrite IH0].
  destruct (get_sim (ck_get ck) ("enddelta:" +:+ cohort) (enddelta_cache h) m Hs) as (c1 & Eg & Hs1).
  destruct (passed_on_sim ck cohort epoch c1 h m log Ht2 Hs1 Hl) as (m' & Hp & Hl').
  unfold on_enddelta, zoom. rewrite Eg, (delta_sim_live _ _ _ _ Hl). cbn [enddelta_cache].
  destruct (live (ck_get ck) (dget log cohort)) as [last|]; simpl.
  - rewrite parse_repr. simpl. destruct (float_ge _ _) as [[]|e]; f_equal; try by eapply IH1.
    by eapply (IH (ck_set ck)).
  - f_equal. by eapply (IH (ck_set ck)).
Qed.
End delta.

(** ** Verdict protection *)

(** What Elasticsearch documents, told by the document an id of an index
    holds: only a write changes a document, and only the one of its id, even
    when it fails; a read by id that succeeds returns it; deleting by a range
    removes only documents whose field is below the bound. *)
Class ElasticLaws (Cl W : Type) `{Elastic Cl W} := {
  document : W → string → string → option pyval;
  connect_document config w i id : document (es_connect config w).2 i id = document w i id;
  ensure_document c index w i id :
    document (es_ensure_json_index c index w).2 i id = document w i id;
  write_document c index doc fp w i id :
    document (es_write_json c index doc fp w).2 i id = document w i id ∨
    (i, id) = (index, fp) ∧ document (es_write_json c index doc fp w).2 i id = Some doc;
  write_done c index doc fp w : (es_write_json c index doc fp w).1 = Ok tt →
    document (es_write_json c index doc fp w).2 index fp = Some doc;
  get_document c index fp w i id :
    document (es_get_document c index fp w).2 i id = document w i id;
  get_answer c index fp w answer : (es_get_document c index fp w).1 = Ok answer →
    answer = default VNone (document w index fp);
  delete_document c index field t w i id :
    let query := VDict [("range", VDict [(field, VDict [("lt", VFloat t)])])] in
    let w' := (es_delete_by_query c index query w).2 in
    document w' i id = document w i id ∨
    document w' i id = None ∧ ∃ d, document w i id = Some (VDict d) ∧
      ∀ x, dget d field = Some (VFloat x) → flt x t = true;
}.

(** *** Replicas

    The handlers of several processes, each with its own caches and client,
    on one cluster. *)
Section replicas.
  Context `{FloatText} {Cl W : Type} `{Elastic Cl W} (cfg : DedupConfig).

Inductive VerdictCall :=
  | Ensure (now later : float)
  | Mark (now later t : float) (created_at fingerprint : string)
  | Confirmed (now later t : float) (fingerprint : string)
  | Purge (now later t : float).

Inductive Answer := AFlag (b : bool) | ACount (n : Z).

Definition run_verdict (call : VerdictCall) : stM (@Handler Cl W) Answer :=
  match call with
  | Ensure now later => b ← ensure_verdict_index cfg now later; mret (AFlag b)
  | Mark now later t created fp => b ← mark_verdict_confirmed cfg now later t created fp; mret (AFlag b)
  | Confirmed now later t fp => b ← is_verdict_confirmed cfg now later t fp; mret (AFlag b)
  | Purge now later t => n ← purge_expired_verdicts cfg now later t; mret (ACount n)
  end.

Record Fleet := mk_Fleet { replicas : list (@Handler Cl W); cluster : W }.

Definition in_world (w : W) (h : @Handler Cl W) : @Handler Cl W :=
  mk_Handler (dedup_cache h) (enddelta_cache h) (es_client h) (injected_es_client h)
    (es_retry_after h) w.

(** A call on a replica. *)
Definition serve (i : nat) (call : VerdictCall) : stM Fleet Answer :=
  λ f, match replicas f !! i with
       | Some h => let '(r, h') := run_verdict call (in_world (cluster f) h) in
                   (r, mk_Fleet (<[i := h']> (replicas f)) (world h'))
       | None => (Exn IndexError, f)
       end.
Definition serve_all (calls : list (nat * VerdictCall)) (f : Fleet) : Fleet :=
  foldl (λ f ic, (serve ic.1 ic.2 f).2) f calls.

(** The replica has a client, and its read of the marker is answered. *)
Definition reads_marker (i : nat) (now later : float) (fp : string) (f : Fleet) : bool :=
  match replicas f !! i with
  | Some h =>
      match get_es_client cfg now later (in_world (cluster f) h) with
      | (Ok (Some c), h') => is_ok (es_get_document c (verdict_index cfg) fp (world h')).1
      | _ => false
      end
  | None => false
  end.

(** Calls that neither mark the fingerprint nor purge with a clock ahead of [t]. *)
Definition undisturbed (fp : string) (t : float) (call : VerdictCall) : bool :=
  match call with
  | Mark _ _ _ _ fp' => negb (String.eqb fp' fp)
  | Purge _ _ t' => fle t' t
  | _ => true
  end.
End replicas.

(** *** What the verdict calls do to documents *)
Section documents.
  Context `{FloatTextLaws} {Cl W : Type} `{ElasticLaws Cl W} (cfg : DedupConfig).
  Implicit Types (h : @Handler Cl W).

Lemma get_client_document now later h i id :
  document (world (get_es_client cfg now later h).2) i id = document (world h) i id.
Proof.
  unfold get_es_client, sget, mbind, stM_bind, mret, stM_ret, scatch, slift, smod, on_world, zoom.
  destruct (es_client h); [done|]. destruct (injected_es_client h); [done|].
  destruct (flt _ _); [done|]. destruct (build_elastic_config _) as [config|]; [|done].
  pose proof (connect_document config (world h) i id) as Hd.
  by destruct (es_connect config (world h)) as [[?|?] ?].
Qed.

(** The marker is there, or gone with its time over. *)
Definition marked (fp : string) (marker : pyval) (over : bool) (w : W) : Prop :=
  document w (verdict_index cfg) fp = Some marker ∨
  document w (verdict_index cfg) fp = None ∧ over = true.

Lemma marked_same fp marker over w w' :
  document w' (verdict_index cfg) fp = document w (verdict_index cfg) fp →
  marked fp marker over w → marked fp marker over w'.
Proof. unfold marked. by intros ->. Qed.

(** A call that asks for the client first. *)
Lemma with_client_marked {A} now later (none : A) (some : Cl → stM (@Handler Cl W) A) fp m over h :
  (∀ c h', marked fp m over (world h') → marked fp m over (world (some c h').2)) →
  marked fp m over (world h) →
  marked fp m over
    (world ((client ← get_es_client cfg now later;
             match client with None => mret none | Some c => some c end) h).2).
Proof.
  intros Hs Hm. eapply marked_same in Hm; [|apply (get_client_document now later)].
  unfold mbind, stM_bind. destruct (get_es_client cfg now later h) as [[[c|]|e] h']; [|done..].
  by apply Hs.
Qed.

Lemma mark_marked now later t created fp' fp m over h :
  fp' ≠ fp → marked fp m over (world h) →
  marked fp m over (world (mark_verdict_confirmed cfg now later t created fp' h).2).
Proof.
  intros Hne Hm. unfold mark_verdict_confirmed. case_match; [done|].
  apply with_client_marked; [|done]. clear h Hm. intros c h Hm.
  unfold scatch, mbind, stM_bind, mret, stM_ret, on_world, zoom.
  eapply marked_same in Hm; [|apply (ensure_document c (verdict_index cfg))].
  destruct (es_ensure_json_index c _ (world h)) as [[[]|e] w1]; [|done]. simpl in *.
  match goal with |- context [es_write_json c ?ix ?d ?id w1] =>
    destruct (write_document c ix d id w1 ix fp) as [E|[E _]];
    [destruct (es_write_json c ix d id w1) as [[[]|e] w2]; eapply marked_same; done|] end.
  congruence.
Qed.

Lemma check_marked now later t fp' fp m over h :
  marked fp m over (world h) →
  marked fp m over (world (is_verdict_confirmed cfg now later t fp' h).2).
Proof.
  intros Hm. unfold is_verdict_confirmed. case_match; [done|].
  apply with_client_marked; [|done]. clear h Hm. intros c h Hm.
  unfold scatch, mbind, stM_bind, mret, stM_ret, slift, on_world, zoom.
  eapply marked_same in Hm; [|apply (get_document c (verdict_index cfg) fp')].
  destruct (es_get_document c _ fp' (world h)) as [[doc|e] w1]; simpl in *; [|done].
  by case_match.
Qed.

Lemma ensure_marked now later fp m over h :
  marked fp m over (world h) → marked fp m over (world (ensure_verdict_index cfg now later h).2).
Proof.
  intros Hm. unfold ensure_verdict_index. case_match; [done|].
  apply with_client_marked; [|done]. clear h Hm. intros c h Hm.
  unfold scatch, mbind, stM_bind, mret, stM_ret, on_world, zoom.
  eapply marked_same in Hm; [|apply (ensure_document c (verdict_index cfg))].
  by destruct (es_ensure_json_index c _ (world h)) as [[[]|e] w1].
Qed.

Lemma purge_marked now later t fp d e over h :
  dget d "expires_at" = Some (VFloat e) → (flt e t = true → over = true) →
  marked fp (VDict d) over (world h) →
  marked fp (VDict d) over (world (purge_expired_verdicts cfg now later t h).2).
Proof.
  intros He Ho Hm. unfold purge_expired_verdicts. case_match; [done|].
  apply with_client_marked; [|done]. clear h Hm. intros c h Hm.
  unfold scatch, mbind, stM_bind, mret, stM_ret, slift, on_world, zoom.
  assert (marked fp (VDict d) over (es_delete_by_query c (verdict_index cfg)
    (VDict [("range", VDict [("expires_at", VDict [("lt", VFloat t)])])]) (world h)).2) as Hm'.
  { destruct (delete_document c (verdict_index cfg) "expires_at" t (world h)
      (verdict_index cfg) fp) as [E|(E & d' & Ed & Hx)]; [by eapply marked_same|].
    right. split; [done|]. destruct Hm as [Hm|[_ ?]]; [|done]. apply Ho, Hx. congruence. }
  destruct (es_delete_by_query c _ _ (world h)) as [[a|x] w1]; simpl in *; [|done].
  destruct (vget_or a "deleted" (VInt 0)) as [n|]; [|done]. by destruct (py_int _).
Qed.

Lemma run_verdict_marked call fp d e t h :
  dget d "expires_at" = Some (VFloat e) → undisturbed fp t call = true →
  marked fp (VDict d) (fle e t) (world h) →
  marked fp (VDict d) (fle e t) (world (run_verdict cfg call h).2).
Proof.
  intros He Hu Hm. destruct call as [now later|now later t' cr fp'|now later t' fp'|now later t'];
    simpl in *; unfold mbind, stM_bind, mret, stM_ret.
  - pose proof (ensure_marked now later fp _ _ h Hm). by destruct (ensure_verdict_index _ _ _ h) as [[]].
  - apply negb_true_iff, String.eqb_neq in Hu. pose proof (mark_marked now later t' cr fp' fp _ _ h Hu Hm).
    by destruct (mark_verdict_confirmed _ _ _ _ _ _ h) as [[]].
  - pose proof (check_marked now later t' fp' fp _ _ h Hm).
    by destruct (is_verdict_confirmed _ _ _ _ _ h) as [[]].
  - assert (flt e t' = true → fle e t = true) as Ho.
    { intros Hlt. eapply fle_trans; [by apply flt_le|done]. }
    pose proof (purge_marked now later t' fp d e _ h He Ho Hm).
    by destruct (purge_expired_verdicts _ _ _ _ h) as [[]].
Qed.

Lemma serve_all_marked calls fp d e t f :
  dget d "expires_at" = Some (VFloat e) → forallb (undisturbed fp t) calls.*2 = true →
  marked fp (VDict d) (fle e t) (cluster f) →
  marked fp (VDict d) (fle e t) (cluster (serve_all cfg calls f)).
Proof.
  intros He. revert f. induction calls as [|[i call] calls IH]; intros f Hu Hm; [done|].
  simpl in Hu. apply andb_true_iff in Hu as [Hu1 Hu2]. apply IH; [done|]. simpl.
  unfold serve. destruct (replicas f !! i) as [h|]; [|done].
  pose proof (run_verdict_marked call fp d e t (in_world (cluster f) h) He Hu1 Hm) as Hm'.
  by destruct (run_verdict cfg call _).
Qed.
End documents.

Section properties.
  Context `{FloatTextLaws} {Cl W : Type} `{ElasticLaws Cl W}.
  Context (fromisoformat : string → option float) (cfg : DedupConfig).
  Implicit Types (h : @Handler Cl W).

(** C4. The dedup and rate-limit filters are exact: on any sequence of events
    with a clock that does not go back, an event is passed on iff every entry
    admitted before it under its key has expired; one that is held back
    leaves the entry and its expiry as they were, and an event whose key
    cannot be built raises and changes nothing. *)
Theorem dedup_exact start evs h :
  in_order start evs → dedup_cache h = new_TTLCache (Z2f 30) →
  run_events cfg evs h = dedup_spec cfg evs [].
Proof.
  intros Hord Hc. apply (run_events_spec cfg start evs h ∅); [done|by rewrite Hc; apply new_cache_sim|].
  split; [intros k x; by rewrite lookup_empty|by intros k e ?%elem_of_nil].
Qed.

(** The end-time delta filter is exact: an incident is held back iff the
    last end passed on for its cohort is not older than the time to live and
    closer to its own end than the threshold; an end that cannot be parsed and
    a threshold that is not a number let it pass. *)
Theorem end_delta_exact start checks h :
  checks_in_order start checks → enddelta_cache h = new_TTLCache (Z2f 30) →
  run_checks fromisoformat cfg checks h = delta_spec fromisoformat cfg checks [].
Proof.
  intros Hord Hc.
  apply (run_checks_spec fromisoformat cfg start checks h ∅); [done|by rewrite Hc; apply new_cache_sim|].
  intros k. by rewrite lookup_empty.
Qed.

(** The cohort key does not depend on how an event is written: the order
    of its object ids, the case and surrounding blanks of sensor, category and
    module, and its end unless the category asks for it, leave it unchanged. *)
Theorem build_key_canonical m1 m2 l1 l2 rate_limit last :
  dget m1 "objectIds" = Some (VList l1) → dget m2 "objectIds" = Some (VList l2) → l1 ≡ₚ l2 →
  (∀ field, field ∈ ["sensorId"; "category"] →
    norm_text (vor (mget m1 field) (VStr "")) = norm_text (vor (mget m2 field) (VStr ""))) →
  (let module m := id ← vget (vor (mget m "analyticsModule") (VDict [])) "id";
                   norm_text (vor id (VStr "")) in module m1 = module m2) →
  mget m1 "timestamp" = mget m2 "timestamp" →
  (mget m1 "end" = mget m2 "end" ∨ rate_limit = true ∨
   ∀ c, norm_text (vor (mget m1 "category") (VStr "")) = Ok c → should_include_end cfg c = false) →
  build_key cfg m1 rate_limit last = build_key cfg m2 rate_limit last.
Proof.
  intros Ho1 Ho2 Hp Hf Hm Ht He. unfold build_key. unfold dmem. rewrite Ho1, Ho2.
  rewrite <-(Hf "sensorId"), <-(Hf "category"), <-Ht by set_solver.
  destruct (norm_text (vor (mget m1 "sensorId") (VStr ""))) as [s|]; [|done].
  destruct (norm_text (vor (mget m1 "category") (VStr ""))) as [c|]; [|done].
  simpl in Hm |- *.
  assert (∀ l, vor (VList l) (VList []) = VList l) as Hl
    by (intros l; unfold vor; simpl; by case_bool_decide; subst).
  assert (object_digest l1 = object_digest l2) as Hd.
  { unfold object_digest. do 3 f_equal. apply sort_strings_perm. by rewrite Hp. }
  assert (mget m1 "objectIds" = VList l1 ∧ mget m2 "objectIds" = VList l2) as [-> ->]
    by (unfold mget; by rewrite Ho1, Ho2).
  rewrite !Hl. simpl. rewrite <-Hd.
  destruct (vget (vor (mget m1 "analyticsModule") _) "id") as [a1|e1],
    (vget (vor (mget m2 "analyticsModule") _) "id") as [a2|e2]; simpl in Hm |- *.
  - rewrite <-Hm. destruct (norm_text (vor a1 _)) as [a|]; [|done]. simpl.
    destruct He as [<-|[->|Hc]]; [done|done|]. rewrite (Hc c) by done. by rewrite andb_false_r.
  - by rewrite Hm.
  - by rewrite <-Hm.
  - congruence.
Qed.

Lemma mark_writes now later t created_at fp h h1 :
  mark_verdict_confirmed cfg now later t created_at fp h = (Ok true, h1) →
  protect_confirmed_enabled cfg = true ∧ String.eqb fp EmptyString = false ∧
  document (world h1) (verdict_index cfg) fp =
    Some (VDict [("fingerprint", VStr fp);
                 ("expires_at", VFloat (fadd t (protect_confirmed_ttl cfg)));
                 ("created_at", VStr created_at)]).
Proof.
  unfold mark_verdict_confirmed. destruct (protect_confirmed_enabled cfg), (String.eqb fp _); try done.
  simpl. unfold mbind, stM_bind, mret, stM_ret, scatch, on_world, zoom.
  destruct (get_es_client cfg now later h) as [[[c|]|e] h']; [|done..].
  destruct (es_ensure_json_index c _ (world h')) as [[[]|e] w1]; [|done]. simpl.
  match goal with |- context [es_write_json c ?ix ?d fp w1] =>
    pose proof (write_done c ix d fp w1) as Hd;
    destruct (es_write_json c ix d fp w1) as [[[]|e] w2] end; [|done].
  intros [= <-]. split_and!; [done..|]. by apply Hd.
Qed.

(** What a check answers whose read is answered. *)
Lemma check_answer now later t2 t created fp f i :
  let e := fadd t (protect_confirmed_ttl cfg) in
  protect_confirmed_enabled cfg = true → String.eqb fp EmptyString = false →
  isfinite e = true → reads_marker cfg i now later fp f = true →
  marked cfg fp (VDict [("fingerprint", VStr fp); ("expires_at", VFloat e);
    ("created_at", created)]) (fle e t2) (cluster f) →
  (serve cfg i (Confirmed now later t2 fp) f).1 = Ok (AFlag (negb (fle e t2))).
Proof.
  intros e Hen Hfp Hfin Hread Hm. unfold reads_marker in Hread. unfold serve.
  destruct (replicas f !! i) as [h|]; [|done]. simpl.
  unfold is_verdict_confirmed. rewrite Hen, Hfp. simpl.
  eapply marked_same in Hm; [|apply (get_client_document cfg now later (in_world (cluster f) h))].
  unfold mbind, stM_bind, mret, stM_ret, scatch, on_world, zoom, slift.
  destruct (get_es_client cfg now later _) as [[[c|]|x] h']; [|done..]. simpl in *.
  pose proof (get_answer c (verdict_index cfg) fp (world h')) as Ha.
  destruct (es_get_document c _ fp (world h')) as [[doc|x] w1]; [|done]. simpl in *.
  rewrite (Ha doc eq_refl). destruct Hm as [->|[-> ->]]; [|done]. simpl.
  unfold marker_confirms, mbind, result_bind, mret, result_ret. simpl. by rewrite Hfin.
Qed.

(** C8. A verdict marked at [t] on one replica protects its incident for the
    configured time and no longer, on every replica: whatever verdict calls
    the replicas make in between, failing or not, other marks, checks and
    purges, a check at [t2] that can reach the store answers true iff [t] plus
    the time to live is still ahead, provided the incident was not marked
    again and no purge ran by a clock ahead of [t2]. *)
Theorem verdict_roundtrip i j now later t created_at fp f f1 calls now2 later2 t2 :
  let e := fadd t (protect_confirmed_ttl cfg) in
  serve cfg i (Mark now later t created_at fp) f = (Ok (AFlag true), f1) →
  forallb (undisturbed fp t2) calls.*2 = true →
  let f2 := serve_all cfg calls f1 in
  reads_marker cfg j now2 later2 fp f2 = true →
  isfinite e = true →
  (serve cfg j (Confirmed now2 later2 t2 fp) f2).1 = Ok (AFlag (negb (fle e t2))).
Proof.
  intros e Hmark Hu f2 Hread Hfin. revert Hmark. unfold serve at 1.
  destruct (replicas f !! i) as [h|]; [|done]. cbn [run_verdict].
  unfold mbind, stM_bind, mret, stM_ret.
  destruct (mark_verdict_confirmed cfg now later t created_at fp _) as [[b|x] h1] eqn:E; [|done].
  intros [= -> <-]. apply mark_writes in E as (Hen & Hfp & Hdoc).
  apply (check_answer now2 later2 t2 t (VStr created_at)); [done..|].
  apply (serve_all_marked cfg); [done|done|]. by left.
Qed.

(** Protection fails open: the check answers true only for a marker read
    from the store whose expiry is a finite number that lies ahead. *)
Theorem verdict_confirmed_sound now later t fp h :
  (is_verdict_confirmed cfg now later t fp h).1 = Ok true →
  protect_confirmed_enabled cfg = true ∧ fp ≠ "" ∧
  ∃ c w doc e, (es_get_document c (verdict_index cfg) fp w).1 = Ok doc ∧
    (x ← vget doc "expires_at"; py_float x) = Ok e ∧ isfinite e = true ∧ fle e t = false.
Proof.
  unfold is_verdict_confirmed. destruct (protect_confirmed_enabled cfg); [|done].
  destruct (String.eqb_spec fp EmptyString) as [|Hfp]; [done|]. simpl.
  unfold mbind, stM_bind, mret, stM_ret, scatch, on_world, zoom.
  destruct (get_es_client cfg now later h) as [[[c|]|e] h']; [|done..].
  destruct (es_get_document c _ fp (world h')) as [[doc|e] w1] eqn:E; [|done].
  destruct (truthy doc); [|done]. simpl. unfold marker_confirms, mbind, result_bind, mret, result_ret.
  destruct (vget doc "expires_at") as [x|] eqn:Ex; [|done]. intros Hx. split; [done|]. split; [done|].
  exists c, (world h'), doc. rewrite E, Ex.
  destruct (py_float x) as [e|[]]; try done. exists e.
  injection Hx as [Hf Hle%negb_true_iff]%andb_true_iff. done.
Qed.

(** After a failed attempt to reach Elasticsearch no call before the end
    of the cooldown touches the network or the state, and the first one after
    it attempts again and recovers when the connection works. *)
Theorem es_backoff now later h h' :
  es_client h = None → injected_es_client h = None → flt now (es_retry_after h) = false →
  get_es_client cfg now later h = (Ok None, h') →
  (∀ t l, flt t (fadd later (es_backoff_seconds cfg)) = true →
     get_es_client cfg t l h' = (Ok None, h')) ∧
  (∀ t l config c w, flt t (fadd later (es_backoff_seconds cfg)) = false →
     build_elastic_config (app_config cfg) = Ok config → es_connect config (world h') = (Ok c, w) →
     ∃ h'', get_es_client cfg t l h' = (Ok (Some c), h'') ∧ es_client h'' = Some c ∧ world h'' = w).
Proof.
  intros Hc Hi Hn. unfold get_es_client, sget, mbind, stM_bind, mret, stM_ret, scatch, slift, on_world, zoom.
  rewrite Hc, Hi, Hn. intros Hfail.
  assert (es_client h' = None ∧ injected_es_client h' = None ∧
    es_retry_after h' = fadd later (es_backoff_seconds cfg)) as (-> & -> & ->).
  { destruct (build_elastic_config _) as [config|]; [|by injection Hfail as <-].
    destruct (es_connect config (world h)) as [[c|] w]; simpl in Hfail; [done|].
    by injection Hfail as <-. }
  split.
  - intros t l ->. done.
  - intros t l config c w -> -> Hconn. rewrite Hconn. simpl. by eexists.
Qed.
End properties.

(** ** Witnesses *)

(** A store in memory that can be down; its documents by index and id. *)
Record Store := mk_Store { up : bool; docs : dict (string * string) pyval }.
Definition down {A} : stM Store A := sraise (NamedError "ConnectionError").
Definition below (index : string) (query : pyval) (kv : (string * string) * pyval) : bool :=
  match query, kv with
  | VDict [(_, VDict [(field, VDict [(_, VFloat t)])])], ((i, _), VDict d) =>
      String.eqb i index && match dget d field with Some (VFloat x) => flt x t | _ => false end
  | _, _ => false
  end.
#[export] Instance mem_elastic : Elastic unit Store := {|
  es_connect _ := λ w, if up w then (Ok tt, w) else down w;
  es_ensure_json_index _ _ := λ w, if up w then (Ok tt, w) else down w;
  es_write_json _ i d id := λ w, if up w then (Ok tt, mk_Store true (dset (docs w) (i, id) d)) else down w;
  es_get_document _ i id := λ w, if up w then (Ok (default VNone (dget (docs w) (i, id))), w) else down w;
  es_delete_by_query _ i q := λ w,
    if up w then
      let gone := filter (λ kv, below i q (kv.1, default VNone (dget (docs w) kv.1)) = true) (docs w) in
      (Ok (VDict [("deleted", VInt (Z.of_nat (length gone)))]),
       mk_Store true (foldr (λ kv d, ddel d kv.1) (docs w) gone))
    else down w;
|}.

Lemma foldr_ddel {V} (gone d : dict (string * string) V) k :
  dget (foldr (λ kv d, ddel d kv.1) d gone) k = if bool_decide (k ∈ gone.*1) then None else dget d k.
Proof.
  induction gone as [|[k' v] gone IH]; [done|]. simpl. destruct (decide (k = k')) as [->|Hne].
  - rewrite dget_ddel_eq, bool_decide_true; [done|left].
  - rewrite dget_ddel_ne, IH by done. apply (f_equal (λ b : bool, if b then None else dget d k)).
    apply bool_decide_ext. set_solver.
Qed.

#[export] Instance mem_elastic_laws : ElasticLaws unit Store.
Proof.
  unshelve refine {| document w i id := dget (docs w) (i, id) |}; simpl.
  - intros _ w i id. by case_match.
  - intros _ _ w i id. by case_match.
  - intros _ index doc fp w i id. case_match; [simpl|by left].
    destruct (decide ((i, id) = (index, fp))) as [->|]; [right; by rewrite dget_dset_eq|].
    left. by apply dget_dset_ne.
  - intros _ index doc fp w. case_match; [|done]. intros _. simpl. apply dget_dset_eq.
  - intros _ index fp w i id. by case_match.
  - intros _ index fp w answer. case_match; [|done]. by intros [= <-].
  - intros _ index field t w i id. case_match; [simpl|by left]. rewrite foldr_ddel.
    case_bool_decide as Hin; [right|by left]. split; [done|].
    apply list_elem_of_fmap in Hin as ([k v] & Heq & Hin). simpl in Heq. subst k.
    apply list_elem_of_filter in Hin as [Hb _]. simpl in Hb.
    destruct (dget (docs w) (i, id)) as [[]|]; try done. simpl in Hb.
    apply andb_true_iff in Hb as [_ Hb]. eexists. split; [done|]. intros x Hx. by rewrite Hx in Hb.
Qed.
#[local] Existing Instance bits_text.
#[local] Existing Instance bits_text_laws.

Definition file_ex : pyval :=
  VDict [("elastic", VDict [("hosts", VStr "http://es:9200")]);
         ("alert_agent", VDict [("event_filters", VDict [
            ("dedup_ttl_seconds", VInt 60);
            ("end_time_in_dedup_key_categories", VList [VStr " Collision "]);
            ("protect_confirmed_verdicts", VDict [("enabled", VBool true)]);
            ("end_time_delta_filter", VDict [("enabled", VBool true)])])])].
Definition cfg_ex : DedupConfig :=
  mk_DedupConfig (Z2f 300) ["collision"] (Z2f 60) true (Z2f 600) (Z2f 30) true (VInt 5) (Z2f 3600)
    "ab-confirmed-verdicts" file_ex.
Example load_ex : load_config file_ex (VInt 300) = Ok cfg_ex.
Proof. vm_compute. reflexivity. Qed.
Example ttl_zero : validate_ttl (VInt 0) = Exn ValueError ∧ validate_ttl VNone = Exn ValueError.
Proof. split; vm_compute; reflexivity. Qed.

Definition incident_ex (sensor category end_ : string) (ids : list pyval) : dict string pyval :=
  [("sensorId", VStr sensor); ("timestamp", VStr "2026-01-01T00:00:00Z"); ("end", VStr end_);
   ("category", VStr category); ("objectIds", VList ids)].
Definition epoch_ex (s : string) : option float :=
  match s with "a" => Some (Z2f 1000) | "b" => Some (Z2f 1003) | "c" => Some (Z2f 1007) | _ => None end.
Definition event_ex (t : Z) (msg : dict string pyval) : Event := mk_Event (Z2f t) msg false false.
Definition handler_ex (store : Store) : @Handler unit Store := new_Handler None store.

(** The same incident twice, after its time to live, and with another end for
    a category that counts it. *)
Definition events_ex : list Event :=
  [event_ex 10 (incident_ex "Cam" "fall" "a" [VInt 2; VInt 1]);
   event_ex 20 (incident_ex " cam" "FALL" "b" [VStr "1"; VInt 2]);
   event_ex 70 (incident_ex "cam" "fall" "b" [VInt 1; VInt 2]);
   event_ex 71 (incident_ex "cam" "collision" "a" [VInt 1]);
   event_ex 72 (incident_ex "cam" "collision" "b" [VInt 1])].
Lemma dedup_exact_witness :
  run_events cfg_ex events_ex (handler_ex (mk_Store true [])) = dedup_spec cfg_ex events_ex [].
Proof. apply (dedup_exact cfg_ex (Z2f 0)); [by vm_compute|reflexivity]. Defined.
Example dedup_ex :
  run_events cfg_ex events_ex (handler_ex (mk_Store true [])) =
    [Ok true; Ok false; Ok true; Ok true; Ok true].
Proof. vm_compute. reflexivity. Qed.

Definition check_ex (t : Z) (end_ : string) : Check :=
  mk_Check (Z2f t) (Z2f t) (incident_ex "cam" "fall" end_ [VInt 1]).
Definition checks_ex : list Check :=
  [check_ex 1 "a"; check_ex 2 "b"; check_ex 3 "c"; check_ex 4 "b"; check_ex 5 "?"; check_ex 3610 "b"].
Lemma end_delta_exact_witness :
  run_checks epoch_ex cfg_ex checks_ex (handler_ex (mk_Store true [])) =
    delta_spec epoch_ex cfg_ex checks_ex [].
Proof. apply (end_delta_exact epoch_ex cfg_ex (Z2f 0)); [by vm_compute|reflexivity]. Defined.
Example end_delta_ex :
  run_checks epoch_ex cfg_ex checks_ex (handler_ex (mk_Store true [])) =
    [Ok true; Ok false; Ok true; Ok false; Ok true; Ok true].
Proof. vm_compute. reflexivity. Qed.

Lemma build_key_canonical_witness :
  build_key cfg_ex (incident_ex "Cam" "fall" "a" [VInt 2; VStr "1"]) false true =
    build_key cfg_ex (incident_ex " cam" "FALL" "b" [VStr "1"; VInt 2]) false true.
Proof.
  apply (build_key_canonical cfg_ex _ _ [VInt 2; VStr "1"] [VStr "1"; VInt 2]);
    try reflexivity; [by constructor| |].
  - intros f [->|[->|[]%elem_of_nil]%elem_of_cons]%elem_of_cons; reflexivity.
  - right; right. intros c [= <-]. reflexivity.
Defined.

Definition marked_ex : @Handler unit Store :=
  (mark_verdict_confirmed cfg_ex (Z2f 1) (Z2f 1) (Z2f 100) "" "fp" (handler_ex (mk_Store true []))).2.
(** Two replicas; after the mark on the first the second marks another
    incident and purges, once before the marker's end and once behind it. *)
Definition fleet_ex : Fleet (Cl:=unit) (W:=Store) :=
  mk_Fleet [handler_ex (mk_Store true []); handler_ex (mk_Store true [])] (mk_Store true []).
Definition mark_ex (t : Z) (fp : string) : VerdictCall := Mark (Z2f t) (Z2f t) (Z2f t) "" fp.
Definition protected_ex : Fleet := (serve cfg_ex 0 (mark_ex 100 "fp") fleet_ex).2.
Definition between_ex (t : Z) : list (nat * VerdictCall) :=
  [(1%nat, mark_ex 50 "other"); (1%nat, Confirmed (Z2f 200) (Z2f 200) (Z2f 200) "fp");
   (1%nat, Purge (Z2f 660) (Z2f 660) (Z2f 660)); (0%nat, Purge (Z2f t) (Z2f t) (Z2f t))].
Definition verdict_ex (t : Z) : result Answer :=
  (serve cfg_ex 1 (Confirmed (Z2f t) (Z2f t) (Z2f t) "fp")
     (serve_all cfg_ex (between_ex t) protected_ex)).1.
Lemma verdict_roundtrip_witness :
  verdict_ex 699 = Ok (AFlag true) ∧ verdict_ex 700 = Ok (AFlag false) ∧
  verdict_ex 701 = Ok (AFlag false).
Proof.
  split; [|split]; (etrans; [unfold verdict_ex; eapply (verdict_roundtrip cfg_ex 0 1
    (Z2f 100) (Z2f 100) (Z2f 100) "" "fp" fleet_ex protected_ex); vm_compute; reflexivity|];
    vm_compute; reflexivity).
Defined.
(** The purges removed the other marker, and at the end this one. *)
Example purged_ex :
  docs (cluster (serve_all cfg_ex (between_ex 700) protected_ex)) =
    docs (cluster protected_ex) ∧
  docs (cluster (serve_all cfg_ex (between_ex 701) protected_ex)) = [].
Proof. split; vm_compute; reflexivity. Qed.

Lemma verdict_confirmed_sound_witness :
  ∃ (c : unit) (w : Store) doc e, (es_get_document c (verdict_index cfg_ex) "fp" w).1 = Ok doc ∧
    (x ← vget doc "expires_at"; py_float x) = Ok e ∧ isfinite e = true ∧ fle e (Z2f 699) = false.
Proof.
  apply (verdict_confirmed_sound cfg_ex (Z2f 1) (Z2f 1) (Z2f 699) "fp" marked_ex).
  vm_compute. reflexivity.
Defined.

(** The store is down at 5, and back when the cooldown has passed. *)
Definition failed_ex : @Handler unit Store :=
  (get_es_client cfg_ex (Z2f 5) (Z2f 6) (handler_ex (mk_Store false []))).2.
Lemma es_backoff_witness :
  get_es_client cfg_ex (Z2f 35) (Z2f 35) failed_ex = (Ok None, failed_ex).
Proof.
  apply (es_backoff cfg_ex (Z2f 5) (Z2f 6) (handler_ex (mk_Store false [])) failed_ex);
    vm_compute; reflexivity.
Defined.

(** An [expires_at] too large for a [float] is not caught by the handlers of
    [TypeError] and [ValueError]: the check raises instead of failing open. *)
Example verdict_overflow_raises :
  (is_verdict_confirmed cfg_ex (Z2f 1) (Z2f 1) (Z2f 699) "fp"
     (handler_ex (mk_Store true [(("ab-confirmed-verdicts", "fp"),
        VDict [("expires_at", VInt (10 ^ 400))])]))).1 = Exn OverflowError.
Proof. vm_compute. reflexivity. Qed.
