(* ===== verification/Persistence.v ===== *)
(** * Document persistence on Elasticsearch (Alert service)

    [ElasticPersistenceStore] of [alert/src/persistence/elastic_store.py] and
    the synchronous document operations of [ElasticClient],
    [alert/src/clients/elastic.py]: create, read, update under optimistic
    concurrency control with its retries, delete, list.

    The server behind elasticsearch-py is an interface ([EsServer]): a call
    answers, raises an API error with its HTTP status, or fails in transport.
    Its laws ([EsLaws]) speak of the log of writes of a document, in which
    other replicas may write at any moment. *)

From Stdlib Require Import ZArith Lia Strings.String.
From stdpp Require Import base list strings gmap sets.
From S2P Require Import Prelude PyDict PyFloat PyText PyVal.
Open Scope Z_scope.

Abbreviation document := (dict string pyval).

(** ** The server *)
Inductive reply (A : Type) :=
  | Answer (a : A)
  | ApiError (status : Z)
  | Failure.
Arguments Answer {A} a. Arguments ApiError {A} status. Arguments Failure {A}.

Class EsServer (W : Type) := {
  srv_get : string → string → W → reply (document * option Z * option Z) * W;
  srv_create : string → string → document → W → reply unit * W;
  srv_update : string → string → document → option (Z * Z) → W → reply unit * W;
  srv_delete : string → string → W → reply unit * W;
  srv_search : string → pyval → W → reply (list (string * document) * Z) * W;
  srv_exists : string → W → reply bool * W;
  srv_create_index : string → Z → Z → W → reply unit * W;
  srv_ping : W → reply bool * W;
  (** [datetime.now(timezone.utc).isoformat()] with the [Z] suffix *)
  utc_now : W → string;
}.

(** ** [ElasticClient]: the world and the indices known to exist *)
Section client.
  Context {W : Type} `{EsServer W}.

Record EsClient := mk_EsClient { index_cache : gset string; server : W }.
Abbreviation esM := (stM EsClient).

Definition call {A} (f : W → reply A * W) : esM (reply A) :=
  λ c, let '(r, w) := f (server c) in (Ok r, mk_EsClient (index_cache c) w).

(** elasticsearch-py raises [ConflictError] for the status 409. *)
Definition api_error (status : Z) : pyexn :=
  if status =? 409 then NamedError "ConflictError" else NamedError "ApiError".
Definition raise_reply {A B} (r : reply A) : esM B :=
  match r with
  | ApiError status => sraise (api_error status)
  | _ => sraise (NamedError "TransportError")
  end.

(** An answer, or a value for the status [quiet], or the exception. *)
Definition answer_or {A B} (r : reply A) (k : A → B) (quiet : Z) (b : B) : esM B :=
  match r with
  | Answer a => mret (k a)
  | ApiError status => if status =? quiet then mret b else sraise (api_error status)
  | Failure => sraise (NamedError "TransportError")
  end.

Definition ping : esM bool :=
  r ← call srv_ping; mret (match r with Answer b => b | _ => false end).

Definition get_document (index doc_id : string) : esM (option document) :=
  r ← call (srv_get index doc_id); answer_or r (λ a, Some a.1.1) 404 None.

Definition get_document_with_meta (index doc_id : string)
    : esM (option (document * option Z * option Z)) :=
  r ← call (srv_get index doc_id); answer_or r Some 404 None.

Definition write_json_create (index doc_id : string) (doc : document) : esM unit :=
  r ← call (srv_create index doc_id doc);
  match r with Answer _ => mret tt | _ => raise_reply r end.

(** Both or none of the concurrency arguments. *)
Definition update_document (index doc_id : string) (partial : document)
    (if_seq_no if_primary_term : option Z) : esM unit :=
  match if_seq_no, if_primary_term with
  | Some _, None | None, Some _ => sraise ValueError
  | _, _ =>
      let occ := match if_seq_no, if_primary_term with
                 | Some s, Some t => Some (s, t) | _, _ => None end in
      r ← call (srv_update index doc_id partial occ);
      match r with Answer _ => mret tt | _ => raise_reply r end
  end.

Definition delete_document (index doc_id : string) : esM bool :=
  r ← call (srv_delete index doc_id); answer_or r (λ _, true) 404 false.

Definition search_documents (index : string) (query : option pyval) (size from_ : Z)
    (sort : list pyval) : esM (list (string * document) * Z) :=
  let body := [("query", default (VDict [("match_all", VDict [])]) query);
               ("size", VInt size); ("from", VInt from_)] in
  r ← call (srv_search index (VDict (match sort with [] => body | _ => body ++ [("sort", VList sort)] end)));
  answer_or r id 404 ([], 0).

Definition remember_index (index : string) : esM unit :=
  smod (λ c, mk_EsClient (index_cache c ∪ {[index]}) (server c)).

(** A status of 400 is the race with another creator. *)
Definition ensure_json_index (index : string) (shards replicas : Z) : esM unit :=
  c ← sget;
  if bool_decide (index ∈ index_cache c) then mret tt
  else
    r ← call (srv_exists index);
    r ← match r with
        | Answer true => mret (Answer tt)
        | Answer false => call (srv_create_index index shards replicas)
        | ApiError s => mret (ApiError s)
        | Failure => mret Failure
        end;
    match r with
    | Answer _ => remember_index index
    | ApiError status => if status =? 400 then remember_index index else sraise (api_error status)
    | Failure => sraise (NamedError "TransportError")
    end.
End client.
Arguments EsClient : clear implicits.

(** ** [ElasticPersistenceStore] *)
Record PersistenceConfig := mk_PersistenceConfig {
  index_prefix : string;
  update_retries : Z;
  auto_create_indices : bool;
  index_shards : Z;
  index_replicas : Z;
}.

Definition ES_META_FIELDS : list string := ["_id"; "_seq_no"; "_primary_term"; "_index"; "_version"].
Definition DocumentNotFoundError : pyexn := NamedError "DocumentNotFoundError".
Definition DocumentAlreadyExistsError : pyexn := NamedError "DocumentAlreadyExistsError".
Definition ConcurrentModificationError : pyexn := NamedError "ConcurrentModificationError".

Section store.
  Context {W : Type} `{EsServer W} (st : PersistenceConfig).
  Abbreviation esM := (stM (EsClient W)).

Definition index_name (collection : string) : string := index_prefix st +:+ collection.
Definition strip_meta (doc : document) : document := filter (λ kv, kv.1 ∉ ES_META_FIELDS) doc.
Definition now_iso : esM string := λ c, (Ok (utc_now (server c)), c).

Definition create (collection doc_id : string) (doc : document) : esM document :=
  now ← now_iso;
  let doc := dset (dsetdefault (strip_meta doc) "created_at" (VStr now)).2 "updated_at" (VStr now) in
  _ ← scatch
        (_ ← (if auto_create_indices st
              then ensure_json_index (index_name collection) (index_shards st) (index_replicas st)
              else mret tt);
         write_json_create (index_name collection) doc_id doc)
        (λ e, sraise (if bool_decide (e = NamedError "ConflictError")
                      then DocumentAlreadyExistsError else PersistenceError));
  mret (dset doc "_id" (VStr doc_id)).

Definition read (collection doc_id : string) : esM document :=
  doc ← scatch (get_document (index_name collection) doc_id) (λ _, sraise PersistenceError);
  match doc with
  | None => sraise DocumentNotFoundError
  | Some doc => mret (dset doc "_id" (VStr doc_id))
  end.

(** One attempt: [None] after a version conflict. *)
Definition update_attempt (index doc_id : string) (partial : document) : esM (option document) :=
  current ← scatch (get_document_with_meta index doc_id) (λ _, sraise PersistenceError);
  match current with
  | None => sraise DocumentNotFoundError
  | Some (source, Some seq_no, Some primary_term) =>
      now ← now_iso;
      let partial_with_ts := dset (strip_meta partial) "updated_at" (VStr now) in
      scatch
        (_ ← update_document index doc_id partial_with_ts (Some seq_no) (Some primary_term);
         mret (Some (dset (dupdate source partial_with_ts) "_id" (VStr doc_id))))
        (λ e, if bool_decide (e = NamedError "ConflictError") then mret None
              else sraise PersistenceError)
  | Some _ => sraise PersistenceError
  end.

Fixpoint update_loop (attempts : nat) (index doc_id : string) (partial : document) : esM document :=
  match attempts with
  | O => sraise ConcurrentModificationError
  | S attempts =>
      merged ← update_attempt index doc_id partial;
      match merged with
      | Some doc => mret doc
      | None => update_loop attempts index doc_id partial
      end
  end.
Definition update (collection doc_id : string) (partial : document) : esM document :=
  update_loop (Z.to_nat (update_retries st + 1)) (index_name collection) doc_id partial.

Definition delete (collection doc_id : string) : esM bool :=
  deleted ← scatch (delete_document (index_name collection) doc_id) (λ _, sraise PersistenceError);
  if (deleted : bool) then mret true else sraise DocumentNotFoundError.

(** [filters] holds exact matches; the items echo their ids. *)
Definition term_clause (kv : string * pyval) : pyval :=
  VDict [("term", VDict [(match kv.2 with VStr _ => kv.1 +:+ ".keyword" | _ => kv.1 end, kv.2)])].
Definition list_documents (collection : string) (filters : document) (size from_ : Z)
    : esM (list document * Z) :=
  let query := match filters with
               | [] => None
               | _ => Some (VDict [("bool", VDict [("must", VList (term_clause <$> filters))])])
               end in
  hits ← scatch (search_documents (index_name collection) query size from_
                    [VDict [("created_at", VDict [("order", VStr "desc"); ("unmapped_type", VStr "date")])]])
           (λ _, sraise PersistenceError);
  mret ((λ hit, dset hit.2 "_id" (VStr hit.1)) <$> hits.1, hits.2).

Definition exists_document (collection doc_id : string) : esM bool :=
  doc ← scatch (get_document (index_name collection) doc_id) (λ _, sraise PersistenceError);
  mret (match doc with Some _ => true | None => false end).

Definition health : esM bool := ping.
End store.

(** ** The server's laws *)

(** The merge of the update API: objects are merged key by key, recursively,
    everything else is replaced. *)
Fixpoint es_merge (old new : pyval) : pyval :=
  match new, old with
  | VDict dn, VDict d_old =>
      VDict (foldl (λ acc kv, dset acc kv.1 (match dget acc kv.1 with
                                              | Some o => es_merge o kv.2
                                              | None => kv.2
                                              end)) d_old dn)
  | _, _ => new
  end.
Definition es_merge_doc (old partial : document) : document :=
  match es_merge (VDict old) (VDict partial) with VDict d => d | _ => partial end.

(** A write of a document: by this process or another, the contents ([None]
    when deleted), and its sequence number and primary term. *)
Record Entry := mk_Entry { en_own : bool; en_doc : option document; en_stamp : Z * Z }.

Definition by_others (env : list Entry) : Prop := Forall (λ e, en_own e = false) env.
Definition others_wrote (l l' : list Entry) : Prop := ∃ env, l' = l ++ env ∧ by_others env.
Definition contents (l : list Entry) : option document := last l ≫= en_doc.

(** What Elasticsearch documents of realtime reads by id and of conditional
    updates: a read shows the last write and its stamp, no two writes of a
    document have the same stamp, an update conditional on a stamp is applied
    to the write with that stamp as the last one, and a conflict writes nothing. *)
Class EsLaws (W : Type) `{EsServer W} (log : W → string → string → list Entry) : Prop := {
  stamps_distinct w i id : NoDup (en_stamp <$> log w i id);
  get_log i id w r w' :
    srv_get i id w = (r, w') →
    others_wrote (log w i id) (log w' i id) ∧
    match r with
    | Answer (d, s, t) => ∃ e, last (log w' i id) = Some e ∧ en_doc e = Some d ∧
        ∀ s' t', s = Some s' → t = Some t' → en_stamp e = (s', t')
    | ApiError status => status = 404 → contents (log w' i id) = None
    | Failure => True
    end;
  update_log i id p stamp w r w' :
    srv_update i id p (Some stamp) w = (r, w') →
    match r with
    | Answer _ => ∃ env e d stamp', by_others env ∧ last (log w i id ++ env) = Some e ∧
        en_stamp e = stamp ∧ en_doc e = Some d ∧
        log w' i id = log w i id ++ env ++ [mk_Entry true (Some (es_merge_doc d p)) stamp']
    | ApiError status => status = 409 → others_wrote (log w i id) (log w' i id)
    | Failure => True
    end;
}.

(** ** Lemmas *)
Lemma others_wrote_refl l : others_wrote l l.
Proof. exists []. by rewrite app_nil_r; split; [|constructor]. Qed.
Lemma others_wrote_trans l1 l2 l3 :
  others_wrote l1 l2 → others_wrote l2 l3 → others_wrote l1 l3.
Proof.
  intros (e1 & -> & H1) (e2 & -> & H2). exists (e1 ++ e2). rewrite app_assoc. split; [done|].
  by apply Forall_app.
Qed.

Lemma last_stamp_env (l env : list Entry) e e' :
  NoDup (en_stamp <$> (l ++ env)) → last l = Some e → last (l ++ env) = Some e' →
  en_stamp e = en_stamp e' → env = [] ∧ e = e'.
Proof.
  intros Hnd He He' Hs. destruct env as [|x env]; [rewrite app_nil_r in He'; naive_solver|].
  exfalso. rewrite last_app_cons in He'.
  apply last_Some in He as [l0 ->]. rewrite fmap_app in Hnd.
  apply NoDup_app in Hnd as (_ & Hnd & _). apply (Hnd (en_stamp e)).
  - apply list_elem_of_fmap. exists e. split; [done|]. rewrite elem_of_app. right. by constructor.
  - rewrite Hs. apply list_elem_of_fmap. exists e'. split; [done|].
    apply last_Some_elem_of in He'. done.
Qed.

Section occ.
  Context {W : Type} `{EsLaws W log} (st : PersistenceConfig).
  Implicit Types (c : EsClient W).

(** The partial document an attempt writes at the clock's reading [now]. *)
Definition written (partial : document) (now : string) : document :=
  dset (strip_meta partial) "updated_at" (VStr now).

(** The effect of a successful update on the log [l]. *)
Definition updated (doc_id : string) (partial doc : document) (l l' : list Entry) : Prop :=
  ∃ env source now stamp, by_others env ∧ contents (l ++ env) = Some source ∧
    l' = l ++ env ++ [mk_Entry true (Some (es_merge_doc source (written partial now))) stamp] ∧
    doc = dset (dupdate source (written partial now)) "_id" (VStr doc_id).

Lemma update_attempt_log index doc_id partial c r c' :
  update_attempt index doc_id partial c = (r, c') →
  let l := log (server c) index doc_id in
  let l' := log (server c') index doc_id in
  match r with
  | Ok (Some doc) => updated doc_id partial doc l l'
  | Ok None => others_wrote l l'
  | Exn e => (e = DocumentNotFoundError → others_wrote l l' ∧ contents l' = None) ∧
             e ≠ ConcurrentModificationError
  end.
Proof.
  unfold update_attempt, get_document_with_meta, mbind, stM_bind, scatch, call, answer_or, now_iso,
    update_document, mret, stM_ret, sraise.
  destruct (srv_get index doc_id (server c)) as [[[[source s] t]|status|] w1] eqn:Eg;
    pose proof (get_log _ _ _ _ _ Eg) as [He Hr].
  - cbn. destruct s as [s|], t as [t|]; try by intros [= <- <-].
    destruct Hr as (e & Hl & Hd & Hs). specialize (Hs s t eq_refl eq_refl).
    unfold mbind, stM_bind, call. cbn.
    match goal with |- context [srv_update ?i ?d ?p ?o w1] =>
      destruct (srv_update i d p o w1) as [[[]|status|] w2] eqn:Eu end;
      pose proof (update_log _ _ _ _ _ _ _ Eu) as Hu; cbn.
    + intros [= <- <-]. cbn. destruct Hu as (env & e' & d & stamp' & Henv & Hl' & Hs' & Hd' & Hlog).
      destruct (last_stamp_env (log w1 index doc_id) env e e') as [-> <-]; [|done..|congruence|].
      { pose proof (stamps_distinct w2 index doc_id) as Hnd. rewrite Hlog, app_assoc, fmap_app in Hnd.
        by apply NoDup_app in Hnd as (? & _ & _). }
      destruct He as (env1 & E1 & Henv1). rewrite app_nil_r in Hl'. rewrite Hd in Hd'.
      injection Hd' as <-. exists env1, source, (utc_now w1), stamp'. split_and!; [done| |..].
      * unfold contents. rewrite <-E1, Hl. done.
      * by rewrite Hlog, E1, <-!app_assoc.
      * done.
    + unfold raise_reply, sraise, api_error. cbn. destruct (Z.eqb_spec status 409) as [->|].
      * rewrite bool_decide_true by done. intros [= <- <-]. cbn.
        by eapply others_wrote_trans; [|apply Hu].
      * rewrite bool_decide_false by done. by intros [= <- <-].
    + intros [= <- <-]. done.
  - cbn. destruct (Z.eqb_spec status 404) as [->|]; intros [= <- <-]; [|done]. cbn. auto.
  - intros [= <- <-]. done.
Qed.

(** ** Properties *)

(** C6. Updates are atomic among replicas: however other replicas interleave
    their writes, an update that returns has written exactly once, merging its
    partial document into the contents that were last at that moment, and one
    that reports a missing document or a conflict has written nothing. *)
Theorem update_atomic collection doc_id partial c r c' :
  update st collection doc_id partial c = (r, c') →
  let l := log (server c) (index_name st collection) doc_id in
  let l' := log (server c') (index_name st collection) doc_id in
  match r with
  | Ok doc => updated doc_id partial doc l l'
  | Exn e => (e = DocumentNotFoundError → others_wrote l l' ∧ contents l' = None) ∧
             (e = ConcurrentModificationError → others_wrote l l')
  end.
Proof.
  unfold update. generalize (index_name st collection) as index.
  generalize (Z.to_nat (update_retries st + 1)) as attempts. intros attempts index.
  revert c. induction attempts as [|attempts IH]; intros c; simpl.
  { intros [= <- <-]. split; [done|]. intros _. apply others_wrote_refl. }
  unfold mbind at 1, stM_bind.
  destruct (update_attempt index doc_id partial c) as [[[doc|]|e] c1] eqn:Ea;
    apply update_attempt_log in Ea; simpl in Ea.
  - by intros [= <- <-].
  - intros Hl. specialize (IH c1 Hl). simpl in IH. destruct Ea as (env1 & E1 & H1).
    destruct r as [doc|e].
    + destruct IH as (env & source & now & stamp & Henv & Hc & Hl' & ->).
      exists (env1 ++ env), source, now, stamp. rewrite E1, <-!app_assoc in *. split_and!; try done.
      by apply Forall_app.
    + destruct IH as [IH1 IH2]. split.
      * intros (Ho & Hc)%IH1. split; [|done]. eapply others_wrote_trans; [|done]. by exists env1.
      * intros Ho%IH2. eapply others_wrote_trans; [|done]. by exists env1.
  - intros [= <- <-]. destruct Ea as [? Hne]. split; [done|]. done.
Qed.
End occ.

(** ** Witness: a server of one document

    Before each call other replicas make the writes the script says. *)
Record Replica := mk_Replica { writes : list (bool * option document); script : list (list document) }.

Definition replica_log (w : Replica) (_ _ : string) : list Entry :=
  imap (λ n x, mk_Entry x.1 x.2 (Z.of_nat n, 1)) (writes w).
Definition interfere (w : Replica) : Replica :=
  mk_Replica (writes w ++ ((λ d, (false, Some d)) <$> default [] (head (script w)))) (tail (script w)).
Definition newest (w : Replica) : option document := last (writes w) ≫= snd.
Definition newest_no (w : Replica) : Z := Z.of_nat (length (writes w)) - 1.
Definition put (x : bool * option document) (w : Replica) : Replica :=
  mk_Replica (writes w ++ [x]) (script w).

#[export] Instance replica_server : EsServer Replica := {|
  srv_get _ _ w := let w := interfere w in
    match newest w with
    | Some d => (Answer (d, Some (newest_no w), Some 1), w)
    | None => (ApiError 404, w)
    end;
  srv_create _ _ d w := match newest w with
    | Some _ => (ApiError 409, w) | None => (Answer tt, put (true, Some d) w) end;
  srv_update _ _ p occ w := let w := interfere w in
    match newest w with
    | Some d =>
        if bool_decide (occ = None ∨ occ = Some (newest_no w, 1))
        then (Answer tt, put (true, Some (es_merge_doc d p)) w) else (ApiError 409, w)
    | None => (ApiError 404, w)
    end;
  srv_delete _ _ w := match newest w with
    | Some _ => (Answer tt, put (true, None) w) | None => (ApiError 404, w) end;
  srv_search _ _ w := (Answer ([], 0), w);
  srv_exists _ w := (Answer true, w);
  srv_create_index _ _ _ w := (Answer tt, w);
  srv_ping w := (Answer true, w);
  utc_now _ := "now";
|}.

Lemma replica_log_last w i id :
  last (replica_log w i id) = (λ x, mk_Entry x.1 x.2 (newest_no w, 1)) <$> last (writes w).
Proof.
  unfold replica_log, newest_no. destruct (writes w) as [|x l] using rev_ind; [done|].
  rewrite imap_app, !last_snoc. simpl. rewrite Nat.add_0_r, length_app. simpl.
  rewrite last_snoc. by replace (Z.of_nat (length l + 1) - 1) with (Z.of_nat (length l)) by lia.
Qed.

Lemma interfere_log w i id : others_wrote (replica_log w i id) (replica_log (interfere w) i id).
Proof.
  unfold replica_log, interfere. simpl. rewrite imap_app. eexists. split; [done|].
  apply Forall_forall. intros e (n & x & -> & Hx)%elem_of_lookup_imap. simpl.
  apply list_lookup_fmap_Some in Hx as (d & -> & _). done.
Qed.

#[export] Instance replica_laws : EsLaws Replica replica_log.
Proof.
  split.
  - intros w i id. unfold replica_log. rewrite fmap_imap.
    apply NoDup_alt. intros j k s. rewrite !list_lookup_imap.
    destruct (writes w !! j), (writes w !! k); simpl; intros H1 H2; simplify_eq. lia.
  - intros i id w r w'. cbn [srv_get replica_server]. pose proof (interfere_log w i id) as Hi.
    generalize dependent (interfere w). intros w1 Hi.
    pose proof (replica_log_last w1 i id) as Hl. unfold contents, newest.
    destruct (last (writes w1)) as [[own [d|]]|]; cbn in *;
      intros [= <- <-]; (split; [done|]); try (intros _; by rewrite Hl).
    eexists; split; [exact Hl|]. split; [done|]. by intros s t [= <-] [= <-].
  - intros i id p stamp w r w'. cbn [srv_update replica_server]. pose proof (interfere_log w i id) as Hi.
    generalize dependent (interfere w). intros w1 Hi.
    pose proof (replica_log_last w1 i id) as Hl. unfold newest.
    destruct (last (writes w1)) as [[own [d|]]|]; cbn in *; [|by intros [= <- <-]..].
    case_bool_decide as Ho; [|by intros [= <- <-] _]. destruct Ho as [|[= ->]]; [done|].
    intros [= <- <-]. destruct Hi as (env & Ee & Henv). exists env. eexists _, d, _.
    split; [done|]. rewrite <-Ee. split; [exact Hl|]. split; [done|]. split; [done|].
    rewrite app_assoc, <-Ee. unfold replica_log, put. simpl. by rewrite imap_app.
Qed.

Definition cfg_ex : PersistenceConfig := mk_PersistenceConfig "ab-" 3 true 1 0.
(** Another replica writes between the first read and the first update. *)
Definition raced_ex : EsClient Replica :=
  mk_EsClient ∅ (mk_Replica [(false, Some [("prompt", VStr "a")])]
                   [[]; [[("prompt", VStr "b"); ("x", VInt 1)]]]).
Definition update_ex := update cfg_ex "alert_configs" "fire" [("prompt", VStr "c")] raced_ex.

Lemma update_atomic_witness :
  ∃ env source now stamp, by_others env ∧
    replica_log (server update_ex.2) "" "" = replica_log (server raced_ex) "" "" ++ env ++
      [mk_Entry true (Some (es_merge_doc source (written [("prompt", VStr "c")] now))) stamp].
Proof.
  destruct (update_atomic cfg_ex "alert_configs" "fire" [("prompt", VStr "c")] raced_ex
    update_ex.1 update_ex.2 (surjective_pairing update_ex)) as (env & source & now & stamp & He & _ & Hl & _).
  exists env, source, now, stamp. split; [exact He|exact Hl].
Defined.

(** The retry keeps the other replica's field. *)
Example update_ex_log :
  en_doc <$> last (replica_log (server update_ex.2) "" "") =
    Some (Some [("prompt", VStr "c"); ("x", VInt 1); ("updated_at", VStr "now")]).
Proof. vm_compute. reflexivity. Qed.

(** The document returned is not the one stored when a field is an object:
    the server merges objects, the returned copy replaces them. *)
Example update_nested_echo :
  let c := mk_EsClient ∅ (mk_Replica [(true, Some [("vlm_params", VDict [("a", VInt 1)])])] []) in
  let u := update cfg_ex "alert_configs" "fire" [("vlm_params", VDict [("b", VInt 2)])] c in
  ((λ d, dget d "vlm_params") <$> match u.1 with Ok d => Some d | Exn _ => None end) =
    Some (Some (VDict [("b", VInt 2)])) ∧
  ((λ d, dget d "vlm_params") <$> newest (server u.2)) =
    Some (Some (VDict [("a", VInt 1); ("b", VInt 2)])).
Proof. split; vm_compute; reflexivity. Qed.
