(* ===== verification/AlertConfig.v ===== *)
(** * Alert configurations (Alert service)

    The package [alert/src/handlers/alert_config]: the interface of the stores
    ([base.py]), the in-process store ([memory_store.py]), the Elasticsearch
    store ([es_store.py]), the composite with its cache and snapshot
    ([cached_store.py]), hydration, and the service that creates, patches and
    deletes configurations ([service.py]); and [seed_to_store] of
    [alert/src/handlers/prompt_handler/alert_type_config_loader.py].

    A store keeps references to dicts that its callers share and mutate, so
    records live in a heap of objects. The monotonic clock and the UTC clock
    are functions of the number of readings taken so far. Locks make each
    operation of a store atomic; metrics and logs are left out. *)

From Stdlib Require Import ZArith Lia Strings.String Floats.SpecFloat Permutation.
From stdpp Require Import base list strings gmap fin_maps.
From S2P Require Import Prelude PyDict PyFloat PyText PyVal Persistence.
Open Scope Z_scope.

(** ** Objects and clocks *)
Abbreviation ref := nat.
Record Shared := mk_Shared { objects : gmap nat document; next_ref : nat; ticks : nat }.

Definition deref (sh : Shared) (r : ref) : document := default [] (objects sh !! r).
Definition assign (r : ref) (d : document) (sh : Shared) : Shared :=
  mk_Shared (<[r := d]> (objects sh)) (next_ref sh) (ticks sh).

Definition alloc (d : document) : stM Shared ref :=
  λ sh, (Ok (next_ref sh), mk_Shared (<[next_ref sh := d]> (objects sh)) (S (next_ref sh)) (ticks sh)).
Definition tick : stM Shared nat :=
  λ sh, (Ok (ticks sh), mk_Shared (objects sh) (next_ref sh) (S (ticks sh))).

(** Operations on the two parts of a state. *)
Definition on_shared {S A} (m : stM Shared A) : stM (Shared * S) A :=
  zoom fst (λ sh st, (sh, st.2)) m.
Definition on_state {S A} (m : stM S A) : stM (Shared * S) A :=
  zoom snd (λ s st, (st.1, s)) m.

(** [normalize_alert_type] *)
Definition normalize_alert_type (value : string) : string := py_strip (py_lower value).

(** [AlertConfigStoreABC] *)
Class ConfigStore (S : Type) := {
  cs_set : string → ref → stM (Shared * S) bool;
  cs_set_if_absent : string → ref → stM (Shared * S) bool;
  cs_get : string → bool → stM (Shared * S) (option ref);
  cs_get_all : bool → stM (Shared * S) (dict string ref);
  cs_delete : string → stM (Shared * S) bool;
}.

(** ** [InMemoryAlertConfigStore] *)
Section memory.
  Context (monotonic : nat → float).

Record MemStore := mk_MemStore { ttl_seconds : option Z; mem_data : dict string (ref * option float) }.
Definition set_mem (d : dict string (ref * option float)) (m : MemStore) : MemStore :=
  mk_MemStore (ttl_seconds m) d.

Definition clock {S} : stM (Shared * S) float := n ← on_shared tick; mret (monotonic n).

(** [now + ttl] with an [int] converts it; [None] never expires. *)
Definition mem_expire_at (m : MemStore) (now : float) : option float :=
  match ttl_seconds m with None => None | Some ttl => Some (fadd now (Z2f ttl)) end.
Definition mem_expired (expire_at : option float) (now : float) : bool :=
  match expire_at with Some e => fle e now | None => false end.

Definition mem_set (alert_type : string) (r : ref) : stM (Shared * MemStore) bool :=
  let key := normalize_alert_type alert_type in
  now ← clock;
  _ ← on_state (smod (λ m, set_mem (dset (mem_data m) key (r, mem_expire_at m now)) m));
  mret true.

Definition mem_set_if_absent (alert_type : string) (r : ref) : stM (Shared * MemStore) bool :=
  let key := normalize_alert_type alert_type in
  now ← clock;
  m ← on_state sget;
  let blocked := match dget (mem_data m) key with
                 | Some (_, e) => negb (mem_expired e now) | None => false end in
  if blocked then mret false
  else _ ← on_state (sput (set_mem (dset (mem_data m) key (r, mem_expire_at m now)) m)); mret true.

Definition mem_get (alert_type : string) (fallback_to_memory : bool)
    : stM (Shared * MemStore) (option ref) :=
  let key := normalize_alert_type alert_type in
  now ← clock;
  m ← on_state sget;
  match dget (mem_data m) key with
  | None => mret None
  | Some (r, e) =>
      if mem_expired e now
      then _ ← on_state (sput (set_mem (ddel (mem_data m) key) m)); mret None
      else mret (Some r)
  end.

Definition mem_get_all (fallback_to_memory : bool) : stM (Shared * MemStore) (dict string ref) :=
  now ← clock;
  m ← on_state sget;
  let live := filter (λ kv, mem_expired kv.2.2 now = false) (mem_data m) in
  _ ← on_state (sput (set_mem live m));
  mret (dmap fst live).

Definition mem_delete (alert_type : string) : stM (Shared * MemStore) bool :=
  let key := normalize_alert_type alert_type in
  m ← on_state sget;
  _ ← on_state (sput (set_mem (ddel (mem_data m) key) m));
  mret (dmem (mem_data m) key).

#[export] Instance mem_store : ConfigStore MemStore := {|
  cs_set := mem_set; cs_set_if_absent := mem_set_if_absent; cs_get := mem_get;
  cs_get_all := mem_get_all; cs_delete := mem_delete;
|}.
End memory.

(** ** [ESAlertConfigStore] *)
Section es.
  Context {W : Type} `{EsServer W} (cfg : PersistenceConfig).

Definition ALERT_CONFIG_COLLECTION : string := "alert_configs".

(** [try: m except exc: handler] *)
Definition except {S A} (exc : pyexn) (m handler : stM S A) : stM S A :=
  scatch m (λ e, if bool_decide (e = exc) then handler else sraise e).

Definition es_set (alert_type : string) (r : ref) : stM (Shared * EsClient W) bool :=
  let key := normalize_alert_type alert_type in
  data ← on_shared (λ sh, (Ok (deref sh r), sh));
  let write := _ ← on_state (update cfg ALERT_CONFIG_COLLECTION key data); mret true in
  except DocumentNotFoundError write
    (except DocumentAlreadyExistsError
       (_ ← on_state (create cfg ALERT_CONFIG_COLLECTION key data); mret true) write).

Definition es_set_if_absent (alert_type : string) (r : ref) : stM (Shared * EsClient W) bool :=
  let key := normalize_alert_type alert_type in
  data ← on_shared (λ sh, (Ok (deref sh r), sh));
  except DocumentAlreadyExistsError
    (_ ← on_state (create cfg ALERT_CONFIG_COLLECTION key data); mret true) (mret false).

Definition es_get (alert_type : string) (fallback_to_memory : bool)
    : stM (Shared * EsClient W) (option ref) :=
  let key := normalize_alert_type alert_type in
  doc ← except DocumentNotFoundError
          (d ← on_state (read cfg ALERT_CONFIG_COLLECTION key); mret (Some d)) (mret None);
  match doc with
  | None => mret None
  | Some d => r ← on_shared (alloc d); mret (Some r)
  end.

(** The records of a listing under their normalised alert types. *)
Fixpoint collect (docs : list document) (out : dict string ref)
    : stM (Shared * EsClient W) (dict string ref) :=
  match docs with
  | [] => mret out
  | doc :: docs =>
      r ← on_shared (alloc doc);
      let alert_type := default VNone (dget doc "alert_type") in
      if truthy alert_type
      then key ← slift (as_str alert_type); collect docs (dset out (normalize_alert_type key) r)
      else collect docs out
  end.
Definition es_get_all (fallback_to_memory : bool) : stM (Shared * EsClient W) (dict string ref) :=
  result ← on_state (list_documents cfg ALERT_CONFIG_COLLECTION [] 1000 0);
  collect result.1 [].

Definition es_delete (alert_type : string) : stM (Shared * EsClient W) bool :=
  let key := normalize_alert_type alert_type in
  except DocumentNotFoundError (on_state (delete cfg ALERT_CONFIG_COLLECTION key)) (mret false).

#[export] Instance es_store : ConfigStore (EsClient W) := {|
  cs_set := es_set; cs_set_if_absent := es_set_if_absent; cs_get := es_get;
  cs_get_all := es_get_all; cs_delete := es_delete;
|}.
End es.

(** ** [CachedAlertConfigStore] *)
Definition is_persistence_error (e : pyexn) : bool :=
  bool_decide (e ∈ [PersistenceError; NamedError "PersistenceConfigError"; DocumentNotFoundError;
                    DocumentAlreadyExistsError; ConcurrentModificationError]).

Section cached.
  Context {P C : Type} `{ConfigStore P} `{ConfigStore C}.

Record CachedStore := mk_CachedStore { primary : P; cache : C; memory : dict string ref }.

Definition on_primary {A} (m : stM (Shared * P) A) : stM (Shared * CachedStore) A :=
  zoom (λ st, (st.1, primary st.2))
       (λ p st, (p.1, mk_CachedStore p.2 (cache st.2) (memory st.2))) m.
Definition on_cache {A} (m : stM (Shared * C) A) : stM (Shared * CachedStore) A :=
  zoom (λ st, (st.1, cache st.2))
       (λ c st, (c.1, mk_CachedStore (primary st.2) c.2 (memory st.2))) m.
Definition on_memory (f : dict string ref → dict string ref) : stM (Shared * CachedStore) unit :=
  on_state (smod (λ s, mk_CachedStore (primary s) (cache s) (f (memory s)))).

(** [_update_cache_best_effort] *)
Definition best_effort (m : stM (Shared * C) bool) : stM (Shared * CachedStore) unit :=
  scatch (_ ← on_cache m; mret tt) (λ _, mret tt).

Definition cached_set (alert_type : string) (r : ref) : stM (Shared * CachedStore) bool :=
  _ ← on_primary (cs_set alert_type r);
  _ ← best_effort (cs_set alert_type r);
  _ ← on_memory (λ d, dset d alert_type r);
  mret true.

Definition cached_set_if_absent (alert_type : string) (r : ref) : stM (Shared * CachedStore) bool :=
  created ← on_primary (cs_set_if_absent alert_type r);
  if negb created then mret false
  else
    _ ← best_effort (cs_set alert_type r);
    _ ← on_memory (λ d, dset d alert_type r);
    mret true.

Definition cached_delete (alert_type : string) : stM (Shared * CachedStore) bool :=
  deleted ← on_primary (cs_delete alert_type);
  _ ← best_effort (cs_delete alert_type);
  _ ← on_memory (λ d, ddel d alert_type);
  mret deleted.

(** The part of [get] after a cache miss. *)
Definition get_from_primary (alert_type : string) (fallback_to_memory : bool)
    : stM (Shared * CachedStore) (option ref) :=
  data ← scatch (d ← on_primary (cs_get alert_type true); mret (inl d))
           (λ e, if is_persistence_error e && fallback_to_memory
                 then s ← on_state sget; mret (inr (dget (memory s) alert_type))
                 else sraise e);
  match data with
  | inr fallback => mret fallback
  | inl (Some r) =>
      _ ← best_effort (cs_set alert_type r);
      _ ← on_memory (λ d, dset d alert_type r);
      mret (Some r)
  | inl None => _ ← on_memory (λ d, ddel d alert_type); mret None
  end.

Definition cached_get (alert_type : string) (fallback_to_memory : bool)
    : stM (Shared * CachedStore) (option ref) :=
  hit ← scatch (on_cache (cs_get alert_type true)) (λ _, mret None);
  match hit with
  | Some r => mret (Some r)
  | None => get_from_primary alert_type fallback_to_memory
  end.

Definition cached_get_all (fallback_to_memory : bool) : stM (Shared * CachedStore) (dict string ref) :=
  data ← scatch (d ← on_primary (cs_get_all true); mret (inl d))
           (λ e, if is_persistence_error e && fallback_to_memory
                 then s ← on_state sget; mret (inr (memory s)) else sraise e);
  match data with
  | inr snapshot => mret snapshot
  | inl d => _ ← on_memory (λ _, d); mret d
  end.

#[export] Instance cached_store : ConfigStore CachedStore := {|
  cs_set := cached_set; cs_set_if_absent := cached_set_if_absent; cs_get := cached_get;
  cs_get_all := cached_get_all; cs_delete := cached_delete;
|}.

(** [hydrate_cache], on the composite that shares the snapshot *)
Definition hydrate_cache : stM (Shared * CachedStore) nat :=
  records ← on_primary (cs_get_all true);
  _ ← on_memory (λ _, records);
  _ ← sfor records (λ kv, best_effort (cs_set kv.1 kv.2));
  mret (length records).
End cached.
Arguments CachedStore : clear implicits.

(** ** [AlertConfigService] *)
Definition AlertConfigAlreadyExists : pyexn := NamedError "AlertConfigAlreadyExists".
Definition AlertConfigNotFound : pyexn := NamedError "AlertConfigNotFound".

Section service.
  Context {S : Type} `{ConfigStore S} (utc_now_text : nat → string).
  Abbreviation storeM := (stM (Shared * S)).

Definition utc_now_iso : storeM string := n ← on_shared tick; mret (utc_now_text n).
Definition load (r : ref) : storeM document := on_shared (λ sh, (Ok (deref sh r), sh)).
Definition store_item (r : ref) (key : string) (v : pyval) : storeM unit :=
  on_shared (smod (λ sh, assign r (dset (deref sh r) key v) sh)).

(** [o or r]: an empty dict is false. *)
Definition ref_or (o : option ref) (r : ref) : storeM ref :=
  match o with
  | None => mret r
  | Some r' => d ← load r'; mret (match d with [] => r | _ => r' end)
  end.
(** The record, unless it is missing or empty. *)
Definition found (o : option ref) : storeM (option ref) :=
  match o with
  | None => mret None
  | Some r => d ← load r; mret (match d with [] => None | _ => Some r end)
  end.

Definition create_config (alert_type : string)
    (prompt system_prompt enrichment_prompt vlm_params output_category : pyval) : storeM ref :=
  let normalized := normalize_alert_type alert_type in
  now ← utc_now_iso;
  data ← on_shared (alloc
    [("alert_type", VStr normalized); ("prompt", prompt); ("system_prompt", system_prompt);
     ("enrichment_prompt", enrichment_prompt); ("vlm_params", vlm_params);
     ("output_category", output_category); ("created_at", VStr now); ("updated_at", VStr now)]);
  created ← cs_set_if_absent normalized data;
  if negb created then sraise AlertConfigAlreadyExists
  else stored ← cs_get normalized true; ref_or stored data.

(** A patch of one field; [None] is the sentinel that leaves it untouched. *)
Definition patch (r : ref) (key : string) (v : option pyval) : storeM unit :=
  match v with None => mret tt | Some v => store_item r key v end.

Definition patch_vlm_params (r : ref) (v : option pyval) : storeM unit :=
  match v with
  | None => mret tt
  | Some (VDict params) =>
      d ← load r;
      match vor (default VNone (dget d "vlm_params")) (VDict []) with
      | VDict current => store_item r "vlm_params" (VDict (dupdate current params))
      | _ => sraise AttributeError
      end
  | Some VNone => store_item r "vlm_params" VNone
  | Some _ => sraise TypeError
  end.

Definition update_config (alert_type : string)
    (prompt system_prompt enrichment_prompt vlm_params output_category : option pyval) : storeM ref :=
  let normalized := normalize_alert_type alert_type in
  o ← cs_get normalized false;
  e ← found o;
  match e with
  | None => sraise AlertConfigNotFound
  | Some existing =>
      _ ← patch existing "prompt" prompt;
      _ ← patch existing "system_prompt" system_prompt;
      _ ← patch existing "enrichment_prompt" enrichment_prompt;
      _ ← patch_vlm_params existing vlm_params;
      _ ← patch existing "output_category" output_category;
      now ← utc_now_iso;
      _ ← store_item existing "updated_at" (VStr now);
      _ ← cs_set normalized existing;
      stored ← cs_get normalized true;
      ref_or stored existing
  end.

Definition get_config (alert_type : string) : storeM ref :=
  o ← cs_get (normalize_alert_type alert_type) false;
  e ← found o;
  match e with None => sraise AlertConfigNotFound | Some r => mret r end.

Definition list_all : storeM (list ref) := d ← cs_get_all false; mret (dvals d).

Definition delete_config (alert_type : string) : storeM unit :=
  let normalized := normalize_alert_type alert_type in
  o ← cs_get normalized false;
  e ← found o;
  match e with
  | None => sraise AlertConfigNotFound
  | Some _ => _ ← cs_delete normalized; mret tt
  end.

(** ** [seed_to_store] *)
Record AlertTypeConfig := mk_AlertTypeConfig {
  atc_user : string; atc_system : option string; atc_enrichment : option string;
  atc_vlm_params : option document;
  atc_output_category : option string;
}.
Definition opt_str (o : option string) : pyval := match o with Some s => VStr s | None => VNone end.
(** [s if s else None] *)
Definition non_empty (o : option string) : pyval :=
  match o with Some s => if String.eqb s EmptyString then VNone else VStr s | None => VNone end.
Definition is_none (v : pyval) : bool := match v with VNone => true | _ => false end.

Definition seeded (normalized now : string) (config : AlertTypeConfig) (existing : document) : document :=
  let file_data :=
    [("alert_type", VStr normalized); ("prompt", non_empty (Some (atc_user config)));
     ("system_prompt", non_empty (atc_system config));
     ("enrichment_prompt", non_empty (atc_enrichment config));
     ("vlm_params", match atc_vlm_params config with Some d => VDict d | None => VNone end);
     ("output_category", opt_str (atc_output_category config))] in
  let merged := dupdate file_data (filter (λ kv, is_none kv.2 = false) existing) in
  let merged := match dget existing "vlm_params", atc_vlm_params config with
                | Some (VDict own), Some file => dset merged "vlm_params" (VDict (dupdate file own))
                | _, _ => merged
                end in
  let merged := (dsetdefault merged "created_at"
                   (default (VStr now) (dget existing "created_at"))).2 in
  dset merged "updated_at" (default (VStr now) (dget existing "updated_at")).

Definition seed_to_store (alert_type : string) (config : AlertTypeConfig) : storeM unit :=
  scatch
    (let normalized := normalize_alert_type alert_type in
     o ← cs_get normalized true;
     existing ← match o with Some r => load r | None => mret [] end;
     now ← utc_now_iso;
     data ← on_shared (alloc (seeded normalized now config existing));
     _ ← cs_set normalized data; mret tt)
    (λ _, mret tt).
End service.

(** ** Normalisation is idempotent *)
Lemma lower_ascii_idem c : lower_ascii (lower_ascii c) = lower_ascii c.
Proof. by destruct c as [[] [] [] [] [] [] [] []]. Qed.
Lemma is_space_lower c : is_space (lower_ascii c) = is_space c.
Proof. by destruct c as [[] [] [] [] [] [] [] []]. Qed.
Lemma py_lower_idem s : py_lower (py_lower s) = py_lower s.
Proof. induction s as [|c s IH]; simpl; [done|]. by rewrite lower_ascii_idem, IH. Qed.
Lemma lower_lstrip s : py_lower (py_lstrip s) = py_lstrip (py_lower s).
Proof. induction s as [|c s IH]; simpl; [done|]. rewrite is_space_lower. by destruct (is_space c). Qed.
Lemma lower_rstrip s : py_lower (py_rstrip s) = py_rstrip (py_lower s).
Proof.
  induction s as [|c s IH]; simpl; [done|]. rewrite <-IH, is_space_lower.
  destruct (py_rstrip s); simpl; by destruct (is_space c).
Qed.
Lemma rstrip_idem s : py_rstrip (py_rstrip s) = py_rstrip s.
Proof.
  induction s as [|c s IH]; simpl; [done|].
  destruct (py_rstrip s) as [|c' r] eqn:E; simpl.
  - destruct (is_space c) eqn:Ec; simpl; [done|]. by rewrite Ec.
  - simpl in IH. rewrite IH. done.
Qed.
Definition bare (s : string) : Prop := match s with EmptyString => True | String c _ => is_space c = false end.
Lemma bare_lstrip s : bare (py_lstrip s).
Proof. induction s as [|c s IH]; simpl; [done|]. by destruct (is_space c) eqn:E. Qed.
Lemma lstrip_bare s : bare s → py_lstrip s = s.
Proof. destruct s as [|c s]; simpl; [done|]. by intros ->. Qed.
Lemma rstrip_bare s : bare s → bare (py_rstrip s).
Proof.
  destruct s as [|c s]; simpl; [done|]. intros Hc. destruct (py_rstrip s); [by rewrite Hc|done].
Qed.
Lemma normalize_idem s : normalize_alert_type (normalize_alert_type s) = normalize_alert_type s.
Proof.
  unfold normalize_alert_type, py_strip. rewrite lower_rstrip, lower_lstrip, py_lower_idem.
  rewrite (lstrip_bare (py_rstrip _)) by apply rstrip_bare, bare_lstrip. apply rstrip_idem.
Qed.

(** ** What a store promises its client

    [abs] is the map a store implements. [own k r] says that the object [r]
    is shared with no record but that of [k], so that a client may mutate it;
    what mutating it does to the record of [k] is left open. *)
Class StoreLaws (S : Type) `{ConfigStore S} := {
  abs : Shared → S → gmap string document;
  good : Shared → S → Prop;
  own : string → ref → Shared → S → Prop;
  law_tick sh s : good sh s →
    good (tick sh).2 s ∧ abs (tick sh).2 s = abs sh s ∧
    ∀ k r, own k r sh s → own k r (tick sh).2 s;
  law_alloc sh s d : good sh s →
    good (alloc d sh).2 s ∧ abs (alloc d sh).2 s = abs sh s ∧
    ∀ k, own k (next_ref sh) (alloc d sh).2 s;
  law_assign sh s k r d : good sh s → own k r sh s →
    good (assign r d sh) s ∧ own k r (assign r d sh) s ∧
    ∀ j, j ≠ k → abs (assign r d sh) s !! j = abs sh s !! j;
  law_get sh s k fb : good sh s → normalize_alert_type k = k →
    ∃ o sh' s', cs_get k fb (sh, s) = (Ok o, (sh', s')) ∧ good sh' s' ∧ abs sh' s' = abs sh s ∧
      match o with
      | Some r => abs sh s !! k = Some (deref sh' r) ∧ own k r sh' s'
      | None => abs sh s !! k = None
      end;
  law_set sh s k r : good sh s → normalize_alert_type k = k → own k r sh s →
    ∃ b sh' s', cs_set k r (sh, s) = (Ok b, (sh', s')) ∧ good sh' s' ∧
      abs sh' s' = <[k := deref sh r]> (abs sh s);
  law_set_if_absent sh s k r : good sh s → normalize_alert_type k = k → own k r sh s →
    ∃ sh' s', good sh' s' ∧
      match abs sh s !! k with
      | Some _ => cs_set_if_absent k r (sh, s) = (Ok false, (sh', s')) ∧ abs sh' s' = abs sh s
      | None => cs_set_if_absent k r (sh, s) = (Ok true, (sh', s')) ∧
                abs sh' s' = <[k := deref sh r]> (abs sh s)
      end;
  law_get_all sh s fb : good sh s →
    ∃ d sh' s', cs_get_all fb (sh, s) = (Ok d, (sh', s')) ∧ good sh' s' ∧ abs sh' s' = abs sh s ∧
      deref sh' <$> dvals d ≡ₚ (map_to_list (abs sh s)).*2;
  law_delete sh s k : good sh s → normalize_alert_type k = k →
    ∃ b sh' s', cs_delete k (sh, s) = (Ok b, (sh', s')) ∧ good sh' s' ∧
      abs sh' s' = base.delete k (abs sh s);
}.

(** ** The service refines a map *)
Inductive request :=
  | Create (alert_type : string) (prompt system enrichment vlm category : pyval)
  | Update (alert_type : string) (prompt system enrichment vlm category : option pyval)
  | Get (alert_type : string)
  | ListAll
  | Delete (alert_type : string).

Inductive answer :=
  | ADoc (d : document)
  | ADocs (l : list document)
  | ANone.

Definition same_answer (a b : result answer) : Prop :=
  match a, b with
  | Ok (ADocs l), Ok (ADocs l') => l ≡ₚ l'
  | _, _ => a = b
  end.

(** [vlm_params] is absent, [None] or a dict. *)
Definition vlm_ok (v : pyval) : bool := match v with VNone | VDict _ => true | _ => false end.
Definition doc_ok (d : document) : Prop := d ≠ [] ∧ vlm_ok (default VNone (dget d "vlm_params")) = true.
Definition request_ok (q : request) : Prop :=
  match q with
  | Create _ _ _ _ vlm _ => vlm_ok vlm = true
  | Update _ _ _ _ (Some vlm) _ => vlm_ok vlm = true
  | _ => True
  end.

Definition created (k now : string) (prompt system enrichment vlm category : pyval) : document :=
  [("alert_type", VStr k); ("prompt", prompt); ("system_prompt", system);
   ("enrichment_prompt", enrichment); ("vlm_params", vlm); ("output_category", category);
   ("created_at", VStr now); ("updated_at", VStr now)].

Definition set_opt (key : string) (v : option pyval) (d : document) : document :=
  match v with None => d | Some v => dset d key v end.
Definition merge_vlm (v : option pyval) (d : document) : document :=
  match v with
  | Some (VDict params) =>
      match vor (default VNone (dget d "vlm_params")) (VDict []) with
      | VDict current => dset d "vlm_params" (VDict (dupdate current params))
      | _ => d
      end
  | v => set_opt "vlm_params" v d
  end.
Definition patched (now : string) (prompt system enrichment vlm category : option pyval)
    (d : document) : document :=
  dset (set_opt "output_category" category (merge_vlm vlm
    (set_opt "enrichment_prompt" enrichment (set_opt "system_prompt" system
      (set_opt "prompt" prompt d))))) "updated_at" (VStr now).

Definition spec (now : string) (q : request) (m : gmap string document)
    : result answer * gmap string document :=
  match q with
  | Create t p s e v c =>
      let k := normalize_alert_type t in
      match m !! k with
      | Some _ => (Exn AlertConfigAlreadyExists, m)
      | None => (Ok (ADoc (created k now p s e v c)), <[k := created k now p s e v c]> m)
      end
  | Update t p s e v c =>
      let k := normalize_alert_type t in
      match m !! k with
      | Some d => (Ok (ADoc (patched now p s e v c d)), <[k := patched now p s e v c d]> m)
      | None => (Exn AlertConfigNotFound, m)
      end
  | Get t => (match m !! normalize_alert_type t with
              | Some d => Ok (ADoc d) | None => Exn AlertConfigNotFound end, m)
  | ListAll => (Ok (ADocs (map_to_list m).*2), m)
  | Delete t =>
      let k := normalize_alert_type t in
      match m !! k with
      | Some _ => (Ok ANone, base.delete k m)
      | None => (Exn AlertConfigNotFound, m)
      end
  end.

Lemma bind_Exn {T A B} (m : stM T A) (f : A → stM T B) st e st' :
  m st = (Exn e, st') → (m ≫= f) st = (Exn e, st').
Proof. intros E. unfold mbind, stM_bind. by rewrite E. Qed.
Lemma bind_assoc {T A B D} (m : stM T A) (f : A → stM T B) (g : B → stM T D) st :
  (a ← m; b ← f a; g b) st = (b ← (a ← m; f a); g b) st.
Proof. unfold mbind, stM_bind. by destruct (m st) as [[a|e] st']. Qed.

Section service_laws.
  Context {S : Type} `{StoreLaws S} (utc_now_text : nat → string).
  Implicit Types (sh : Shared) (s : S).
  Abbreviation storeM := (stM (Shared * S)).

Definition run (q : request) : storeM answer :=
  match q with
  | Create t p sy e v c => r ← create_config utc_now_text t p sy e v c; d ← load r; mret (ADoc d)
  | Update t p sy e v c => r ← update_config utc_now_text t p sy e v c; d ← load r; mret (ADoc d)
  | Get t => r ← get_config t; d ← load r; mret (ADoc d)
  | ListAll => l ← list_all; on_shared (λ sh, (Ok (ADocs (deref sh <$> l)), sh))
  | Delete t => _ ← delete_config t; mret ANone
  end.

Definition docs_ok (m : gmap string document) : Prop := map_Forall (λ _ d, doc_ok d) m.

(** A step of the service on the object [r] of the record of [k], holding [d],
    while the records of the other keys are those of [m]. *)
Definition editing (k : string) (r : ref) (m : gmap string document) (d : document) sh s : Prop :=
  good sh s ∧ own k r sh s ∧ deref sh r = d ∧ ∀ j, j ≠ k → abs sh s !! j = m !! j.

Lemma deref_assign r d sh : deref (assign r d sh) r = d.
Proof. unfold deref, assign. simpl. by rewrite lookup_insert_eq. Qed.

Lemma store_item_editing k r m d key v sh s :
  editing k r m d sh s →
  ∃ sh', store_item r key v (sh, s) = (Ok tt, (sh', s)) ∧ editing k r m (dset d key v) sh' s.
Proof.
  intros (Hg & Ho & Hd & Hm). eexists. split; [done|]. simpl. rewrite Hd.
  destruct (law_assign sh s k r (dset d key v) Hg Ho) as (Hg' & Ho' & Hm').
  split; [done|]. split; [done|]. split; [apply deref_assign|].
  intros j Hj. by rewrite Hm', Hm.
Qed.

Lemma patch_editing k r m d key v sh s :
  editing k r m d sh s →
  ∃ sh', patch r key v (sh, s) = (Ok tt, (sh', s)) ∧ editing k r m (set_opt key v d) sh' s.
Proof. destruct v as [v|]; [apply store_item_editing|]. intros He. by exists sh. Qed.

Lemma patch_vlm_editing k r m d v sh s :
  editing k r m d sh s → vlm_ok (default VNone (dget d "vlm_params")) = true →
  match v with Some v => vlm_ok v = true | None => True end →
  ∃ sh', patch_vlm_params r v (sh, s) = (Ok tt, (sh', s)) ∧ editing k r m (merge_vlm v d) sh' s.
Proof.
  intros He Hd Hv. destruct v as [v|]; [|by exists sh].
  destruct v as [| | | | | |params]; try done; [by apply store_item_editing|].
  unfold patch_vlm_params. rewrite (bind_Ok (load r) _ _ d (sh, s)).
  2: { destruct He as (_ & _ & <- & _). done. }
  simpl. destruct (default VNone (dget d "vlm_params")) as [| | | | | |cur]; try done.
  - by apply store_item_editing.
  - destruct cur; by apply store_item_editing.
Qed.

Lemma tick_editing k r m d sh s :
  editing k r m d sh s →
  ∃ sh', utc_now_iso utc_now_text (sh, s) = (Ok (utc_now_text (ticks sh)), (sh', s)) ∧
         editing k r m d sh' s.
Proof.
  intros (Hg & Ho & Hd & Hm). eexists. split; [done|].
  destruct (law_tick sh s Hg) as (Hg' & Ha & Ho'). split; [done|]. split; [by apply Ho'|].
  split; [done|]. intros j Hj. simpl in *. by rewrite Ha, Hm.
Qed.

(** Reading a record that is there, for a document that is not empty. *)
Lemma get_found k fb sh s :
  good sh s → normalize_alert_type k = k → docs_ok (abs sh s) →
  ∃ o sh' s', (o ← cs_get k fb; found o) (sh, s) = (Ok o, (sh', s')) ∧ good sh' s' ∧
    abs sh' s' = abs sh s ∧
    match o with
    | Some r => abs sh s !! k = Some (deref sh' r) ∧ editing k r (abs sh s) (deref sh' r) sh' s'
    | None => abs sh s !! k = None
    end.
Proof.
  intros Hg Hk Hd. destruct (law_get sh s k fb Hg Hk) as (o & sh' & s' & E & Hg' & Ha & Ho).
  exists o, sh', s'. rewrite (bind_Ok _ _ _ _ _ E). destruct o as [r|]; [|done].
  destruct Ho as [Hr Ho]. unfold found. rewrite (bind_Ok (load r) _ _ (deref sh' r) (sh', s')) by done.
  destruct (Hd _ _ Hr) as [Hne _]. split.
  { by destruct (deref sh' r). }
  split; [done|]. split; [done|]. split; [done|]. split; [done|]. split; [done|]. split; [done|].
  intros j _. by rewrite Ha.
Qed.

(** The record returned after a write. *)
Lemma get_or k d r0 sh s :
  good sh s → normalize_alert_type k = k → abs sh s !! k = Some d → d ≠ [] →
  ∃ r sh' s', (o ← cs_get k true; ref_or o r0) (sh, s) = (Ok r, (sh', s')) ∧
    deref sh' r = d ∧ good sh' s' ∧ abs sh' s' = abs sh s.
Proof.
  intros Hg Hk Hd Hne. destruct (law_get sh s k true Hg Hk) as (o & sh' & s' & E & Hg' & Ha & Ho).
  rewrite Hd in Ho. destruct o as [r|]; [|done]. destruct Ho as [[= Hr] _].
  exists r, sh', s'. rewrite (bind_Ok _ _ _ _ _ E). unfold ref_or.
  rewrite (bind_Ok (load r) _ _ (deref sh' r) (sh', s')) by done.
  rewrite <-Hr. split; [|done]. by destruct d.
Qed.

Lemma patched_ok now p sy e v c d :
  doc_ok d → match v with Some v => vlm_ok v = true | None => True end →
  doc_ok (patched now p sy e v c d).
Proof.
  intros [Hne Hd] Hv. unfold doc_ok, patched.
  assert (∀ key v' (d' : document), d' ≠ [] → dset d' key v' ≠ []) as Hset.
  { intros key v' [|[k0 x0] d'] Hd' He; simpl in He; [done|]. by case_decide. }
  assert (∀ key v' d', key ≠ "vlm_params" → dget (set_opt key v' d') "vlm_params" = dget d' "vlm_params") as Hget.
  { intros key [v'|] d' Hk; [|done]. simpl. by rewrite dget_dset_ne. }
  split.
  - intros He. assert (∀ key v' (d' : document), dset d' key v' ≠ []) as Hs.
    { intros key v' [|[k0 x0] d'] E; simpl in E; [done|by case_decide]. }
    by apply Hs in He.
  - rewrite dget_dset_ne by done. rewrite Hget by done.
    set (d1 := set_opt "enrichment_prompt" e _).
    assert (vlm_ok (default VNone (dget d1 "vlm_params")) = true) as H1
      by (unfold d1; by rewrite !Hget by done).
    destruct v as [v|]; [|done]. destruct v as [| | | | | |params]; try done; simpl;
      [by rewrite dget_dset_eq|].
    destruct (vor _ _) as [| | | | | |cur]; try done. by rewrite dget_dset_eq.
Qed.

Lemma run_create t p sy e v c sh s :
  good sh s → docs_ok (abs sh s) → vlm_ok v = true →
  let q := Create t p sy e v c in
  ∃ now r sh' s', run q (sh, s) = (r, (sh', s')) ∧ same_answer r (spec now q (abs sh s)).1 ∧
    abs sh' s' = (spec now q (abs sh s)).2 ∧ good sh' s'.
Proof.
  intros Hg Hd Hv. cbn [run spec]. set (k := normalize_alert_type t).
  assert (normalize_alert_type k = k) as Hk by apply normalize_idem.
  exists (utc_now_text (ticks sh)). set (d := created k _ _ _ _ _ _).
  destruct (law_tick sh s Hg) as (Hg1 & Ha1 & _). set (sh1 := (tick sh).2) in *.
  destruct (law_alloc sh1 s d Hg1) as (Hg2 & Ha2 & Ho2). set (sh2 := (alloc d sh1).2) in *.
  destruct (law_set_if_absent sh2 s k (next_ref sh1) Hg2 Hk (Ho2 k)) as (sh3 & s3 & Hg3 & E3).
  rewrite Ha2, Ha1 in E3.
  assert (deref sh2 (next_ref sh1) = d) as Hderef by (unfold deref; simpl; by rewrite lookup_insert_eq).
  destruct (abs sh s !! k) as [d0|] eqn:Ek; destruct E3 as [E3 Ha3].
  - exists (Exn AlertConfigAlreadyExists), sh3, s3. split; [|by split].
    apply bind_Exn. unfold create_config. fold k.
    rewrite (bind_Ok _ _ (sh, s) (utc_now_text (ticks sh)) (sh1, s)) by done.
    rewrite (bind_Ok _ _ (sh1, s) (next_ref sh1) (sh2, s)) by done.
    by rewrite (bind_Ok _ _ _ _ _ E3).
  - rewrite Hderef in Ha3.
    assert (abs sh3 s3 !! k = Some d) as Hk3 by (by rewrite Ha3, lookup_insert_eq).
    destruct (get_or k d (next_ref sh1) sh3 s3 Hg3 Hk Hk3) as (r & sh4 & s4 & E4 & Hr & Hg4 & Ha4); [done|].
    exists (Ok (ADoc d)), sh4, s4. split; [|by rewrite Ha4].
    rewrite (bind_Ok _ _ _ r (sh4, s4)).
    2: { unfold create_config. fold k.
         rewrite (bind_Ok _ _ (sh, s) (utc_now_text (ticks sh)) (sh1, s)) by done.
         rewrite (bind_Ok _ _ (sh1, s) (next_ref sh1) (sh2, s)) by done.
         by rewrite (bind_Ok _ _ _ _ _ E3). }
    rewrite (bind_Ok (load r) _ _ (deref sh4 r) (sh4, s4)) by done. by rewrite Hr.
Qed.

Lemma run_update t p sy e v c sh s :
  good sh s → docs_ok (abs sh s) → request_ok (Update t p sy e v c) →
  let q := Update t p sy e v c in
  ∃ now r sh' s', run q (sh, s) = (r, (sh', s')) ∧ same_answer r (spec now q (abs sh s)).1 ∧
    abs sh' s' = (spec now q (abs sh s)).2 ∧ good sh' s'.
Proof.
  intros Hg Hd Hv. cbn [run spec request_ok] in *. set (k := normalize_alert_type t).
  assert (normalize_alert_type k = k) as Hk by apply normalize_idem.
  assert (match v with Some v => vlm_ok v = true | None => True end) as Hv' by (by destruct v).
  destruct (get_found k false sh s Hg Hk Hd) as (o & sh1 & s1 & E1 & Hg1 & Ha1 & Ho).
  destruct o as [r|].
  2: { exists EmptyString, (Exn AlertConfigNotFound), sh1, s1. rewrite Ho. split; [|by split].
       apply bind_Exn. unfold update_config. fold k. by rewrite bind_assoc, (bind_Ok _ _ _ _ _ E1). }
  destruct Ho as [Hr He]. rewrite Hr. specialize (Hd _ _ Hr). simpl in Hd. destruct Hd as [Hne Hvd].
  set (m := abs sh s) in *. set (d := deref sh1 r) in *.
  destruct (patch_editing k r m d "prompt" p _ _ He) as (sh2 & E2 & He2).
  destruct (patch_editing k r m _ "system_prompt" sy _ _ He2) as (sh3 & E3 & He3).
  destruct (patch_editing k r m _ "enrichment_prompt" e _ _ He3) as (sh4 & E4 & He4).
  destruct (patch_vlm_editing k r m _ v _ _ He4) as (sh5 & E5 & He5); [|done|].
  { assert (∀ key v' d', key ≠ "vlm_params" → dget (set_opt key v' d') "vlm_params" = dget d' "vlm_params") as Hget.
    { intros key [v'|] d' Hkey; [|done]. simpl. by rewrite dget_dset_ne. }
    by rewrite !Hget. }
  destruct (patch_editing k r m _ "output_category" c _ _ He5) as (sh6 & E6 & He6).
  destruct (tick_editing k r m _ _ _ He6) as (sh7 & E7 & He7).
  destruct (store_item_editing k r m _ "updated_at" (VStr (utc_now_text (ticks sh6))) _ _ He7)
    as (sh8 & E8 & Hg8 & Ho8 & Hd8 & Hm8).
  destruct (law_set sh8 s1 k r Hg8 Hk Ho8) as (b & sh9 & s9 & E9 & Hg9 & Ha9).
  set (d' := patched (utc_now_text (ticks sh6)) p sy e v c d).
  assert (deref sh8 r = d') as Hd' by exact Hd8.
  assert (abs sh9 s9 = <[k := d']> m) as Hm9.
  { rewrite Ha9, Hd'. apply map_eq. intros j. destruct (decide (j = k)) as [->|Hj];
      [by rewrite !lookup_insert_eq|]. rewrite !lookup_insert_ne by done. by apply Hm8. }
  assert (doc_ok d') as [Hne' _] by (by apply patched_ok).
  destruct (get_or k d' r sh9 s9 Hg9 Hk) as (r' & sh10 & s10 & E10 & Hr' & Hg10 & Ha10); [|done|].
  { by rewrite Hm9, lookup_insert_eq. }
  exists (utc_now_text (ticks sh6)), (Ok (ADoc d')), sh10, s10. split; [|by rewrite Ha10].
  rewrite (bind_Ok _ _ _ r' (sh10, s10)).
  2: { unfold update_config. fold k. rewrite bind_assoc, (bind_Ok _ _ _ _ _ E1).
       by rewrite (bind_Ok _ _ _ _ _ E2), (bind_Ok _ _ _ _ _ E3), (bind_Ok _ _ _ _ _ E4),
         (bind_Ok _ _ _ _ _ E5), (bind_Ok _ _ _ _ _ E6), (bind_Ok _ _ _ _ _ E7),
         (bind_Ok _ _ _ _ _ E8), (bind_Ok _ _ _ _ _ E9). }
  rewrite (bind_Ok (load r') _ _ (deref sh10 r') (sh10, s10)) by done. by rewrite Hr'.
Qed.

Lemma run_spec sh s q :
  good sh s → docs_ok (abs sh s) → request_ok q →
  ∃ now r sh' s', run q (sh, s) = (r, (sh', s')) ∧ same_answer r (spec now q (abs sh s)).1 ∧
    abs sh' s' = (spec now q (abs sh s)).2 ∧ good sh' s'.
Proof.
  intros Hg Hd Hq. destruct q as [t p sy e v c|t p sy e v c|t| |t];
    [by apply run_create|by apply run_update|..]; exists EmptyString; cbn [run spec].
  - set (k := normalize_alert_type t). assert (normalize_alert_type k = k) as Hk by apply normalize_idem.
    destruct (get_found k false sh s Hg Hk Hd) as (o & sh1 & s1 & E1 & Hg1 & Ha1 & Ho).
    destruct o as [r|]; [destruct Ho as [Hr _]; rewrite Hr|rewrite Ho].
    + exists (Ok (ADoc (deref sh1 r))), sh1, s1. split; [|by rewrite Ha1].
      rewrite (bind_Ok _ _ _ r (sh1, s1)); [done|].
      unfold get_config. fold k. by rewrite bind_assoc, (bind_Ok _ _ _ _ _ E1).
    + exists (Exn AlertConfigNotFound), sh1, s1. split; [|by rewrite Ha1].
      apply bind_Exn. unfold get_config. fold k. by rewrite bind_assoc, (bind_Ok _ _ _ _ _ E1).
  - destruct (law_get_all sh s false Hg) as (d & sh1 & s1 & E1 & Hg1 & Ha1 & Hp).
    exists (Ok (ADocs (deref sh1 <$> dvals d))), sh1, s1. split; [|by split].
    rewrite (bind_Ok _ _ _ (dvals d) (sh1, s1)); [done|].
    unfold list_all. by rewrite (bind_Ok _ _ _ _ _ E1).
  - set (k := normalize_alert_type t). assert (normalize_alert_type k = k) as Hk by apply normalize_idem.
    destruct (get_found k false sh s Hg Hk Hd) as (o & sh1 & s1 & E1 & Hg1 & Ha1 & Ho).
    destruct o as [r|]; [destruct Ho as [Hr _]; rewrite Hr|rewrite Ho].
    + destruct (law_delete sh1 s1 k Hg1 Hk) as (b & sh2 & s2 & E2 & Hg2 & Ha2).
      exists (Ok ANone), sh2, s2. split; [|by rewrite Ha2, Ha1].
      rewrite (bind_Ok _ _ _ tt (sh2, s2)); [done|]. unfold delete_config. fold k.
      by rewrite bind_assoc, (bind_Ok _ _ _ _ _ E1), (bind_Ok _ _ _ _ _ E2).
    + exists (Exn AlertConfigNotFound), sh1, s1. split; [|by rewrite Ha1].
      apply bind_Exn. unfold delete_config. fold k.
      by rewrite bind_assoc, (bind_Ok _ _ _ _ _ E1).
Qed.

Lemma spec_docs_ok now q m : docs_ok m → request_ok q → docs_ok (spec now q m).2.
Proof.
  intros Hm Hq. destruct q as [t p sy e v c|t p sy e v c|t| |t]; simpl; try done.
  - destruct (m !! _); [done|]. apply map_Forall_insert_2; [|done]. by split.
  - destruct (m !! _) eqn:E; [|done]. apply map_Forall_insert_2; [|done].
    apply patched_ok; [by eapply Hm|by destruct v].
  - destruct (m !! _); [|done]. by apply map_Forall_delete.
Qed.

(** Successive requests, and what the map answers at the clock's readings. *)
Fixpoint run_all (qs : list request) (st : Shared * S) : list (result answer) * (Shared * S) :=
  match qs with
  | [] => ([], st)
  | q :: qs => let '(r, st1) := run q st in let '(rs, st2) := run_all qs st1 in (r :: rs, st2)
  end.
Fixpoint spec_all (nows : list string) (qs : list request) (m : gmap string document)
    : list (result answer) * gmap string document :=
  match nows, qs with
  | now :: nows, q :: qs =>
      let '(r, m1) := spec now q m in let '(rs, m2) := spec_all nows qs m1 in (r :: rs, m2)
  | _, _ => ([], m)
  end.
End service_laws.

(** ** The durable in-process store keeps the promises *)
Ltac run_mem :=
  unfold mem_get, mem_set, mem_set_if_absent, mem_get_all, mem_delete, clock, mbind, stM_bind, mret,
    stM_ret, on_shared, on_state, zoom, sget, sput, smod; simpl.

Section memory_laws.
  Context (monotonic : nat → float).
#[local] Instance mem_store_here : ConfigStore MemStore := mem_store monotonic.
  Implicit Types (sh : Shared) (s : MemStore).

Definition mem_abs sh s : gmap string document := dict_map (dmap (λ x, deref sh x.1) (mem_data s)).
Record mem_good sh s : Prop := mk_mem_good {
  mg_ttl : ttl_seconds s = None;
  mg_wf : dict_wf (mem_data s);
  mg_entry k r e : dget (mem_data s) k = Some (r, e) → e = None ∧ (r < next_ref sh)%nat ∧ is_Some (objects sh !! r);
  mg_inj j k r e e' : dget (mem_data s) j = Some (r, e) → dget (mem_data s) k = Some (r, e') → j = k;
}.
Definition mem_own (k : string) (r : ref) sh s : Prop :=
  (r < next_ref sh)%nat ∧ is_Some (objects sh !! r) ∧ ∀ j e, dget (mem_data s) j = Some (r, e) → j = k.

Lemma mem_abs_lookup sh s k : mem_abs sh s !! k = (λ x, deref sh x.1) <$> dget (mem_data s) k.
Proof. unfold mem_abs. by rewrite dict_map_lookup, dget_dmap. Qed.

Lemma mem_good_set sh s k r :
  mem_good sh s → mem_own k r sh s →
  mem_good sh (set_mem (dset (mem_data s) k (r, None)) s).
Proof.
  intros [H1 H2 H3 H4] (Ho1 & Ho2 & Ho3). constructor; simpl; [done|by apply dict_wf_dset|..].
  - intros k' r' e. rewrite dget_dset. case_decide; [by intros [= <- <-]|apply H3].
  - intros j j' r' e e'. rewrite !dget_dset. repeat case_decide; subst; try done.
    + intros [= <- <-] Hj. by apply Ho3 in Hj.
    + intros Hj [= <- <-]. by apply Ho3 in Hj.
    + by apply H4.
Qed.

Lemma mem_good_del sh s k : mem_good sh s → mem_good sh (set_mem (ddel (mem_data s) k) s).
Proof.
  intros [H1 H2 H3 H4]. constructor; simpl; [done|by apply dict_wf_ddel|..].
  - intros k' r e. rewrite dget_ddel. case_decide; [done|apply H3].
  - intros j j' r e e'. rewrite !dget_ddel. repeat case_decide; try done. apply H4.
Qed.

Lemma mem_abs_set sh s k r :
  mem_abs sh (set_mem (dset (mem_data s) k (r, None)) s) = <[k := deref sh r]> (mem_abs sh s).
Proof.
  apply map_eq. intros j. rewrite mem_abs_lookup. simpl. rewrite dget_dset.
  case_decide as Hj; [subst; by rewrite lookup_insert_eq|].
  rewrite lookup_insert_ne by congruence. by rewrite mem_abs_lookup.
Qed.

Lemma mem_abs_del sh s k :
  mem_abs sh (set_mem (ddel (mem_data s) k) s) = base.delete k (mem_abs sh s).
Proof.
  apply map_eq. intros j. rewrite mem_abs_lookup. simpl. rewrite dget_ddel.
  case_decide as Hj; [subst; by rewrite lookup_delete_eq|].
  rewrite lookup_delete_ne by congruence. by rewrite mem_abs_lookup.
Qed.

(** Only the objects of the records matter. *)
Lemma mem_good_heap sh sh' s :
  mem_good sh s → (next_ref sh ≤ next_ref sh')%nat →
  (∀ r, (r < next_ref sh)%nat → is_Some (objects sh !! r) → is_Some (objects sh' !! r)) → mem_good sh' s.
Proof.
  intros [H1 H2 H3 H4] Hn Ho. constructor; [done..| |done].
  intros k r e Hk. destruct (H3 _ _ _ Hk) as (-> & Hr & Hs). split; [done|]. split; [lia|]. by apply Ho.
Qed.

#[export] Instance mem_laws : StoreLaws MemStore.
Proof.
  refine {| abs := mem_abs; good := mem_good; own := mem_own |}.
  - intros sh s Hg. split; [by eapply mem_good_heap|]. split; [done|]. intros k r Ho. exact Ho.
  - intros sh s d Hg. assert (∀ k r e, dget (mem_data s) k = Some (r, e) → r ≠ next_ref sh) as Hne.
    { intros k r e Hk. destruct (mg_entry _ _ Hg _ _ _ Hk) as (_ & Hr & _). lia. }
    split; [|split].
    + eapply mem_good_heap; [done|simpl; lia|]. intros r Hr Hs. simpl. rewrite lookup_insert_ne; [done|lia].
    + apply map_eq. intros k. rewrite !mem_abs_lookup. destruct (dget _ k) as [[r e]|] eqn:E; [|done].
      simpl. f_equal. unfold deref. simpl. rewrite lookup_insert_ne; [done|]. by intros <-; eapply Hne.
    + intros k. split; [simpl; lia|]. split; [simpl; rewrite lookup_insert_eq; by eexists|].
      intros j e Hj. by eapply Hne in Hj.
  - intros sh s k r d Hg (Ho1 & Ho2 & Ho3).
    assert (∀ r', is_Some (objects sh !! r') → is_Some (objects (assign r d sh) !! r')) as Hs.
    { intros r' Hr'. simpl. destruct (decide (r' = r)) as [->|];
        [rewrite lookup_insert_eq; by eexists|by rewrite lookup_insert_ne]. }
    split; [eapply mem_good_heap; [exact Hg|done|auto]|]. split; [split; [done|split; [by apply Hs|done]]|].
    intros j Hj. rewrite !mem_abs_lookup. destruct (dget _ j) as [[r' e]|] eqn:E; [|done]. simpl.
    f_equal. unfold deref. simpl. rewrite lookup_insert_ne; [done|]. intros <-. by apply Ho3 in E.
  - intros sh s k fb Hg Hk. simpl. run_mem. rewrite Hk.
    destruct (dget (mem_data s) k) as [[r e]|] eqn:E.
    + destruct (mg_entry _ _ Hg _ _ _ E) as (-> & Hr & Hs). simpl.
      exists (Some r), (tick sh).2, s. split; [done|]. split; [by eapply mem_good_heap|]. split; [done|].
      rewrite mem_abs_lookup, E. split; [done|]. split; [done|]. split; [done|].
      intros j e Hj. by eapply (mg_inj _ _ Hg).
    + exists None, (tick sh).2, s. split; [done|]. split; [by eapply mem_good_heap|]. split; [done|].
      by rewrite mem_abs_lookup, E.
  - intros sh s k r Hg Hk Ho. simpl. run_mem. rewrite Hk. unfold mem_expire_at. rewrite (mg_ttl _ _ Hg).
    eexists _, (tick sh).2, _. split; [done|]. split.
    + eapply (mem_good_heap sh); [by apply mem_good_set|done|done].
    + exact (mem_abs_set sh s k r).
  - intros sh s k r Hg Hk Ho. simpl. run_mem. rewrite Hk. unfold mem_expire_at. rewrite (mg_ttl _ _ Hg).
    rewrite mem_abs_lookup. destruct (dget (mem_data s) k) as [[r' e]|] eqn:E; simpl.
    + destruct (mg_entry _ _ Hg _ _ _ E) as (-> & _). simpl.
      exists (tick sh).2, s. split; [by eapply mem_good_heap|done].
    + exists (tick sh).2, (set_mem (dset (mem_data s) k (r, None)) s). split.
      * eapply (mem_good_heap sh); [by apply mem_good_set|done|done].
      * split; [done|]. exact (mem_abs_set sh s k r).
  - intros sh s fb Hg. simpl. run_mem.
    assert (filter (λ kv : string * (ref * option float),
      mem_expired kv.2.2 (monotonic (ticks sh)) = false) (mem_data s) = mem_data s) as ->.
    { apply list_filter_all. intros [k [r e]] Hin. simpl. apply elem_dget in Hin; [|apply Hg].
      by destruct (mg_entry _ _ Hg _ _ _ Hin) as (-> & _). }
    exists (dmap fst (mem_data s)), (tick sh).2, s. split; [by destruct s|].
    split; [by eapply mem_good_heap|]. split; [done|].
    unfold mem_abs. rewrite dict_map_to_list; [|apply dict_wf_dmap, Hg].
    unfold dvals, dmap. rewrite <-!list_fmap_compose. done.
  - intros sh s k Hg Hk. simpl. run_mem. rewrite Hk.
    exists (dmem (mem_data s) k), sh, (set_mem (ddel (mem_data s) k) s). split; [done|]. split; [by apply mem_good_del|].
    apply mem_abs_del.
Defined.
End memory_laws.

(** ** Properties *)
Section service_properties.
  Context {S : Type} `{StoreLaws S} (utc_now_text : nat → string).

(** C7. The service implements a map from alert types to configurations, over
    any store that keeps its promises: whatever the sequence of well-typed
    requests, every answer and the final contents are those of the map (create
    only where absent, patches that leave unset fields and merge VLM
    parameters, not found on what is missing, type names up to case and
    surrounding blanks), although records are shared and mutated in place. *)
Theorem service_refines_map qs sh s :
  good sh s → docs_ok (abs sh s) → Forall request_ok qs →
  ∃ nows, length nows = length qs ∧
    Forall2 same_answer (run_all utc_now_text qs (sh, s)).1 (spec_all nows qs (abs sh s)).1 ∧
    abs (run_all utc_now_text qs (sh, s)).2.1 (run_all utc_now_text qs (sh, s)).2.2 =
      (spec_all nows qs (abs sh s)).2.
Proof.
  revert sh s. induction qs as [|q qs IH]; intros sh s Hg Hd Hqs; [exists []; by split|].
  apply Forall_cons in Hqs as [Hq Hqs].
  destruct (run_spec utc_now_text sh s q Hg Hd Hq) as (now & r & sh1 & s1 & E & Hr & Ha & Hg1).
  assert (docs_ok (abs sh1 s1)) as Hd1 by (rewrite Ha; by apply spec_docs_ok).
  destruct (IH sh1 s1 Hg1 Hd1 Hqs) as (nows & Hl & Hrs & Has).
  exists (now :: nows). split; [by simpl; rewrite Hl|]. simpl. rewrite E.
  destruct (spec now q (abs sh s)) as [r' m1]. simpl in *. subst m1.
  destruct (run_all utc_now_text qs (sh1, s1)) as [rs [sh2 s2]], (spec_all nows qs (abs sh1 s1)) as [rs' m2].
  simpl in *. split; [by constructor|done].
Qed.
End service_properties.

Ltac run_cached :=
  unfold cached_set, cached_get, get_from_primary, best_effort; unfold on_primary, on_memory, on_cache;
  unfold on_state, zoom, scatch, mbind, stM_bind, sget, smod, mret, stM_ret, sraise.

Section cached_properties.
  Context {P C : Type} `{ConfigStore P} `{ConfigStore C}.
  Implicit Types (s : CachedStore P C).

(** A cached store with another snapshot. *)
Definition with_memory (d : dict string ref) s : CachedStore P C :=
  mk_CachedStore (primary s) (cache s) d.

(** Writes reach the source of truth first: when the primary raises, the
    write raises the same and neither cache nor snapshot changes; when the
    primary accepts it, the write succeeds and the snapshot holds the record,
    whatever the cache does. *)
Theorem cached_set_durable k r sh s :
  match cs_set k r (sh, primary s) with
  | (Exn e, (sh', p)) =>
      cached_set k r (sh, s) = (Exn e, (sh', mk_CachedStore p (cache s) (memory s)))
  | (Ok _, (_, p)) => ∃ sh' c,
      cached_set k r (sh, s) = (Ok true, (sh', mk_CachedStore p c (dset (memory s) k r)))
  end.
Proof.
  run_cached. simpl.
  destruct (cs_set k r (sh, primary s)) as [[b|e] [sh1 p]]; [|done]. simpl.
  destruct (cs_set k r (sh1, cache s)) as [[b'|e] [sh2 c]]; simpl; by eexists _, _.
Qed.

(** A strict read never answers from the snapshot: it is the cache's
    record, else what the primary answers or raises, whatever the snapshot
    holds; a read that may fall back never raises a persistence error. *)
Theorem cached_get_sources k sh s :
  (∀ d, (cached_get k false (sh, with_memory d s)).1 = (cached_get k false (sh, s)).1) ∧
  (∀ e, (cached_get k true (sh, s)).1 = Exn e → is_persistence_error e = false).
Proof.
  run_cached. unfold with_memory. simpl.
  split.
  - intros d. destruct (cs_get k true (sh, cache s)) as [[[r|]|e] [sh1 c]]; [done|..]; simpl;
      destruct (cs_get k true (sh1, primary s)) as [[[r|]|e'] [sh2 p]]; simpl;
      try destruct (cs_set k r (sh2, c)) as [[?|?] [? ?]];
      rewrite ?andb_false_r; done.
  - intros e. destruct (cs_get k true (sh, cache s)) as [[[r|]|e1] [sh1 c]]; [done|..]; simpl;
      destruct (cs_get k true (sh1, primary s)) as [[[r|]|e'] [sh2 p]]; simpl;
      try (destruct (cs_set k r (sh2, c)) as [[?|?] [? ?]]; done); try done;
      destruct (is_persistence_error e') eqn:Ee; simpl; try done; by intros [= <-].
Qed.
End cached_properties.

(** ** Witnesses *)
Definition ticking (n : nat) : float := Z2f (Z.of_nat n).
Definition text_ex (n : nat) : string := digits 2 (Z.of_nat n).
Definition heap_ex : Shared := mk_Shared ∅ 0 0.
Definition durable_ex : MemStore := mk_MemStore None [].
Definition requests_ex : list request :=
  [Create " Fire" (VStr "smoke?") VNone VNone (VDict [("fps", VInt 1)]) VNone;
   Create "fire" (VStr "x") VNone VNone VNone VNone;
   Update "FIRE " (Some (VStr "flames?")) None None (Some (VDict [("res", VInt 2)])) None;
   Get "fire"; Delete "fire"; Get "fire"].

Lemma service_refines_map_witness :
  ∃ nows, length nows = 6%nat ∧
    Forall2 same_answer
      (run_all (H:=mem_store ticking) text_ex requests_ex (heap_ex, durable_ex)).1
      (spec_all nows requests_ex ∅).1.
Proof.
  destruct (service_refines_map (H0:=mem_laws ticking) text_ex requests_ex heap_ex durable_ex)
    as (nows & Hl & Ha & _).
  - constructor; [done|constructor|done|done].
  - intros k d Hk. by rewrite mem_abs_lookup in Hk.
  - repeat constructor.
  - exists nows. split; [exact Hl|exact Ha].
Defined.

Example requests_ex_answers :
  (λ r, match r with Ok (ADoc d) => (dget d "prompt", dget d "vlm_params") | _ => (None, None) end) <$>
    (run_all (H:=mem_store ticking) text_ex requests_ex (heap_ex, durable_ex)).1 =
  [(Some (VStr "smoke?"), Some (VDict [("fps", VInt 1)])); (None, None);
   (Some (VStr "flames?"), Some (VDict [("fps", VInt 1); ("res", VInt 2)]));
   (Some (VStr "flames?"), Some (VDict [("fps", VInt 1); ("res", VInt 2)])); (None, None); (None, None)].
Proof. vm_compute. reflexivity. Qed.

(** ** A patch that was refused is served

    The record a read returns is the object the cache and the snapshot hold,
    and the service patches it before it writes. Here other replicas win every
    attempt of the conditional update: the service raises, Elasticsearch never
    sees the prompt "new", and still the next strict read within the cache's
    time to live returns it; with the default time to live of zero it is left
    in the snapshot that outages are served from. *)
Definition other_ex : document := [("alert_type", VStr "fire"); ("prompt", VStr "other")].
Definition contended_ex (ttl : Z) : Shared * CachedStore (EsClient Replica) MemStore :=
  (heap_ex,
   mk_CachedStore
     (mk_EsClient ∅ (mk_Replica [(false, Some [("alert_type", VStr "fire"); ("prompt", VStr "old")])]
        [[]; []; [other_ex]; []; [other_ex]; []; [other_ex]; []; [other_ex]]))
     (mk_MemStore (Some ttl) []) []).
#[local] Existing Instance es_store.
#[local] Instance ticking_store : ConfigStore MemStore := mem_store ticking.
#[local] Instance contended_primary : ConfigStore (EsClient Replica) := es_store Persistence.cfg_ex.

Definition refused_ex (ttl : Z) : result ref * (Shared * CachedStore (EsClient Replica) MemStore) :=
  update_config text_ex "fire" (Some (VStr "new")) None None None None (contended_ex ttl).

Example refused_patch_served :
  (refused_ex 60).1 = Exn ConcurrentModificationError ∧
  newest (server (primary (refused_ex 60).2.2)) = Some other_ex ∧
  ((d ← get_config "fire"; load d) (refused_ex 60).2).1 =
    Ok [("alert_type", VStr "fire"); ("prompt", VStr "new"); ("_id", VStr "fire");
        ("updated_at", VStr "02")].
Proof. split_and!; vm_compute; reflexivity. Qed.

Example refused_patch_in_snapshot :
  (refused_ex 0).1 = Exn ConcurrentModificationError ∧
  (λ r, dget (deref (refused_ex 0).2.1 r) "prompt") <$> dget (memory (refused_ex 0).2.2) "fire" =
    Some (Some (VStr "new")).
Proof. split; vm_compute; reflexivity. Qed.
