(* ===== verification/Stop.v ===== *)
(** * Vehicle stop detection (behavior analytics)

    [transform/detection/stop_detection.py]: a sliding window of positions per
    sensor and object, and the decision that a vehicle is stopped, by distance
    or by speed; with the distances of [utils/distance_util.py] it uses.

    The functions of [math] are an interface ([MathLib]). The window is a
    number of seconds, [None] until it is set. *)

From Stdlib Require Import ZArith Lia Sorting Floats.SpecFloat.
From stdpp Require Import base list strings gmap sorting.
From S2P Require Import Prelude PyDict PyFloat Schema Anomaly.
Open Scope Z_scope.

(** [math.pow], which raises on overflow, and the trigonometric functions. *)
Class MathLib := {
  math_pow : float → float → result float;
  radians : float → float;
  math_sin : float → float;
  math_cos : float → float;
  math_atan2 : float → float → float;
}.

Inductive CalibrationType := IMAGE | CARTESIAN | GEO.

Abbreviation history := (list (Coordinate * datetime)).

Record StopDetection := mk_StopDetection {
  time_window_seconds : option float;
  stop_distance_threshold : option float;
  calibration_type : CalibrationType;
  position_history : dict string (dict string history);
  allowed_objects : list string;
}.
Definition new_StopDetection (calibration : CalibrationType) : StopDetection :=
  mk_StopDetection None None calibration [] ["Vehicle"].

Definition set_time_window_seconds (seconds : float) (s : StopDetection) : StopDetection :=
  mk_StopDetection (Some seconds) (stop_distance_threshold s) (calibration_type s)
    (position_history s) (allowed_objects s).
Definition set_stop_distance_threshold (threshold : float) (s : StopDetection) : StopDetection :=
  mk_StopDetection (time_window_seconds s) (Some threshold) (calibration_type s)
    (position_history s) (allowed_objects s).
Definition set_position_history (d : dict string (dict string history)) (s : StopDetection)
    : StopDetection :=
  mk_StopDetection (time_window_seconds s) (stop_distance_threshold s) (calibration_type s)
    d (allowed_objects s).

(** ** Distances *)
Section distances.
  Context `{MathLib}.

Definition math_sqrt (x : float) : result float :=
  if flt x f0 then Exn ValueError else Ok (fsqrt x).

Definition euclidean_distance (p1 p2 : Coordinate) : result float :=
  x ← math_pow (fsub (co_x p1) (co_x p2)) (Z2f 2);
  y ← math_pow (fsub (co_y p1) (co_y p2)) (Z2f 2);
  z ← math_pow (fsub (co_z p1) (co_z p2)) (Z2f 2);
  math_sqrt (fadd (fadd x y) z).

Definition haversine_distance_coords (p1 p2 : Coordinate) : result float :=
  let lat1 := radians (co_y p1) in
  let lon1 := radians (co_x p1) in
  let lat2 := radians (co_y p2) in
  let lon2 := radians (co_x p2) in
  let lat := fsub lat2 lat1 in
  let lon := fsub lon2 lon1 in
  s1 ← math_pow (math_sin (fdiv lat (Z2f 2))) (Z2f 2);
  s2 ← math_pow (math_sin (fdiv lon (Z2f 2))) (Z2f 2);
  let a := fadd s1 (fmul (fmul (math_cos lat1) (math_cos lat2)) s2) in
  r1 ← math_sqrt a;
  r2 ← math_sqrt (fsub (Z2f 1) a);
  mret (fmul (Z2f (2 * 6371009)) (math_atan2 r1 r2)).

Definition distance (calibration : CalibrationType) (pos1 pos2 : Coordinate) : result float :=
  match calibration with
  | IMAGE => euclidean_distance pos1 pos2
  | GEO => haversine_distance_coords pos1 pos2
  | CARTESIAN => Ok finf
  end.

(** ** The window *)
Fixpoint pop_older (cutoff_time : datetime) (l : history) : history :=
  match l with
  | [] => []
  | p :: l' => if p.2 <? cutoff_time then pop_older cutoff_time l' else l
  end.

(** [_cleanup_old_positions] on one history. *)
Definition cleanup_old_positions (window : option float) (current_timestamp : datetime) (l : history)
    : result history :=
  match window with
  | None => Ok l
  | Some w => td ← td_float (fadd w (Z2f 1)); mret (pop_older (current_timestamp - td) l)
  end.

(** [_update_position]: the position is appended even if the window then raises. *)
Definition update_position (sensor_id object_id : string) (position : Coordinate)
    (timestamp : datetime) : stM StopDetection unit :=
  λ s,
    let l := default [] (nget (position_history s) sensor_id object_id) ++ [(position, timestamp)] in
    let put l := set_position_history (nset (position_history s) sensor_id object_id l) s in
    match cleanup_old_positions (time_window_seconds s) timestamp l with
    | Ok l' => (Ok tt, put l')
    | Exn e => (Exn e, put l)
    end.

(** The position of an object, [None] where the loop continues without one. *)
Definition position_of (calibration : CalibrationType) (obj : Object) : option Coordinate :=
  match calibration with
  | GEO => match ob_location obj with
           | Some l => Some (mk_Coordinate (lon l) (lat l) f0)
           | None => None
           end
  | IMAGE =>
      let b := ob_bbox obj in
      Some (mk_Coordinate (fdiv (fadd (leftX b) (rightX b)) (Z2f 2))
              (fdiv (fadd (topY b) (bottomY b)) (Z2f 2)) f0)
  | CARTESIAN => None
  end.

Definition update_frame (sensor_id : string) (frame : list Message) : stM StopDetection unit :=
  sfor frame (λ message,
    s ← sget;
    match ms_object message with
    | None => mret tt
    | Some obj =>
        if bool_decide (ob_type obj ∈ allowed_objects s) then
          match position_of (calibration_type s) obj with
          | Some position => update_position sensor_id (ob_id obj) position (ms_timestamp message)
          | None => mret tt
          end
        else mret tt
    end).

Definition update_stop_frames (frames : dict string (list (string * list Message)))
    : stM StopDetection unit :=
  sfor frames (λ kv, sfor kv.2 (λ f, match f.2 with [] => mret tt | _ => update_frame kv.1 f.2 end)).

(** ** The decision *)
Fixpoint total_distance (calibration : CalibrationType) (prev : Coordinate) (l : history)
    (total : float) : result float :=
  match l with
  | [] => Ok total
  | p :: l' =>
      d ← distance calibration prev p.1;
      total_distance calibration p.1 l' (fadd total d)
  end.

(** [_calculate_distance_traveled] on one history. *)
Definition calculate_distance_traveled (calibration : CalibrationType) (l : history)
    : result (float * float) :=
  match l with
  | first :: (_ :: _) as rest =>
      total ← total_distance calibration first.1 (tail l) f0;
      let avg_distance := fdiv total (Z2f (Z.of_nat (length l) - 1)) in
      distance_last_first ← distance calibration (default first (last l)).1 first.1;
      mret (avg_distance, distance_last_first)
  | _ => Ok (finf, finf)
  end.

(** [3*threshold]; the window is compared last, and [None] raises then. *)
Definition is_vehicle_stopped_by_distance (s : StopDetection) (sensor_id object_id : string)
    : result bool :=
  match stop_distance_threshold s, nget (position_history s) sensor_id object_id with
  | Some threshold, Some ((first :: _ :: _) as l) =>
      d ← calculate_distance_traveled (calibration_type s) l;
      let duration := total_seconds ((default first (last l)).2 - first.2) in
      if flt d.1 threshold && flt d.2 (fmul (Z2f 3) threshold) then
        match time_window_seconds s with
        | Some w => Ok (fle w duration)
        | None => Exn TypeError
        end
      else Ok false
  | _, _ => Ok false
  end.

Definition is_vehicle_stopped_by_speed (speed timeInterval speed_threshold time_interval_threshold : float)
    : bool :=
  flt speed speed_threshold && flt time_interval_threshold timeInterval.
End distances.

(** ** Reclaiming *)
Definition remove_stop_object (sensor_id : string) (d : dict string (dict string history))
    (object_id : string) : dict string (dict string history) :=
  match dget d sensor_id with
  | Some objects =>
      if dmem objects object_id then
        match ddel objects object_id with
        | [] => ddel d sensor_id
        | objects' => dset d sensor_id objects'
        end
      else d
  | None => d
  end.

Definition reclaim_stop_sensor (live : dict string (list string))
    (d : dict string (dict string history)) (sensor_id : string) : dict string (dict string history) :=
  match dget live sensor_id with
  | None => ddel d sensor_id
  | Some objects =>
      foldl (λ d object_id, if decide (object_id ∈ objects) then d
                            else remove_stop_object sensor_id d object_id)
        d (dkeys (default [] (dget d sensor_id)))
  end.

Definition update_stop_live_object (live_objects : list string) (s : StopDetection) : StopDetection :=
  set_position_history
    (foldl (reclaim_stop_sensor (live_object_dict live_objects)) (position_history s)
       (dkeys (position_history s))) s.

(** ** Lemmas *)
Lemma pop_older_sorted c (l : history) :
  StronglySorted (λ p q : Coordinate * datetime, p.2 ≤ q.2) l → pop_older c l = filter (λ p, c ≤ p.2) l.
Proof.
  induction 1 as [|p l Hl IH Hp]; [done|]. simpl. rewrite filter_cons.
  destruct (Z.ltb_spec p.2 c); case_decide; try lia; [done|].
  f_equal. symmetry. apply list_filter_all. intros q Hq.
  rewrite Forall_forall in Hp. specialize (Hp q Hq). lia.
Qed.

(** ** The window holds exactly the recent positions *)
(** An observation of an object of a sensor. *)
Abbreviation observation := (string * string * Coordinate * datetime)%type.

Section window.
  Context (w : float) (td : timedelta) (Htd : td_float (fadd w (Z2f 1)) = Ok td).

Definition observe_all (obs : list observation) : stM StopDetection unit :=
  sfor obs (λ o, update_position o.1.1.1 o.1.1.2 o.1.2 o.2).

Definition observed (sensor_id object_id : string) (obs : list observation) : history :=
  (λ o, (o.1.2, o.2)) <$> filter (λ o, o.1.1 = (sensor_id, object_id)) obs.

(** The positions not older than the window before the last one. *)
Definition recent (l : history) : option history :=
  t ← snd <$> last l; Some (filter (λ p, t - td ≤ p.2) l).

Definition in_time (l : history) : Prop :=
  StronglySorted (λ p q : Coordinate * datetime, p.2 ≤ q.2) l.

Lemma in_time_snoc l p : in_time (l ++ [p]) ↔ in_time l ∧ ∀ q, q ∈ l → q.2 ≤ p.2.
Proof.
  induction l as [|x l IH]; simpl.
  { split; [|by repeat constructor]. intros _. split; [constructor|by intros ? ?%elem_of_nil]. }
  split.
  - intros [Hs Hx]%StronglySorted_inv. apply IH in Hs as [H1 H2].
    apply Forall_app in Hx as [Hx [Hxp _]%Forall_cons]. split; [by constructor|].
    intros q [->|Hq]%elem_of_cons; [done|by apply H2].
  - intros [[Hs Hx]%StronglySorted_inv Hle]. constructor.
    + apply IH. split; [done|]. intros q Hq. apply Hle. by right.
    + apply Forall_app. split; [done|]. constructor; [|done]. apply Hle. by left.
Qed.

(** One observation more: the positions that fall out of the window are those
    that fall out of the longer history. *)
Lemma recent_snoc (l : history) p :
  in_time (l ++ [p]) →
  recent (l ++ [p]) = Some (pop_older (p.2 - td) (default [] (recent l) ++ [p])).
Proof.
  intros Hs. pose proof (proj1 (in_time_snoc _ _) Hs) as [Hl Hle]. unfold recent at 1.
  rewrite last_snoc. simpl. f_equal.
  assert (in_time (default [] (recent l) ++ [p])) as Hs'.
  { apply in_time_snoc. unfold recent. destruct (last l) as [q|]; simpl;
      [|split; [constructor|by intros ? ?%elem_of_nil]].
    split; [by apply StronglySorted_filter|]. intros x [_ Hx]%list_elem_of_filter. by apply Hle. }
  rewrite pop_older_sorted by exact Hs'. rewrite !filter_app. f_equal.
  unfold recent. destruct (last l) as [q|] eqn:El; simpl.
  - apply last_Some_elem_of in El. specialize (Hle q El).
    rewrite list_filter_filter. apply list_filter_iff. intros x. lia.
  - apply last_None in El. by subst.
Qed.

Definition windowed (s : StopDetection) (obs : list observation) : Prop :=
  time_window_seconds s = Some w ∧
  ∀ sensor oid, nget (position_history s) sensor oid = recent (observed sensor oid obs).

Lemma observed_snoc sensor oid obs s' o' pos t :
  observed sensor oid (obs ++ [((s', o'), pos, t)]) =
    observed sensor oid obs ++ (if decide ((s', o') = (sensor, oid)) then [(pos, t)] else []).
Proof.
  unfold observed. rewrite filter_app, fmap_app. f_equal. rewrite filter_cons. simpl.
  by case_decide.
Qed.

Lemma update_position_windowed s obs sensor oid pos t :
  windowed s obs → in_time (observed sensor oid (obs ++ [((sensor, oid), pos, t)])) →
  ∃ s', update_position sensor oid pos t s = (Ok tt, s') ∧ windowed s' (obs ++ [((sensor, oid), pos, t)]).
Proof.
  intros [Hw Hh] Ht. unfold update_position, cleanup_old_positions. rewrite Hw, Htd, Hh. simpl.
  eexists. split; [done|]. split; [done|]. intros sensor' oid'. simpl.
  rewrite nget_nset, observed_snoc. rewrite observed_snoc, decide_True in Ht by done.
  case_decide as Hk.
  - destruct Hk as [<- <-]. rewrite decide_True by done. by rewrite recent_snoc.
  - rewrite decide_False by (intros [= -> ->]; by apply Hk). rewrite app_nil_r. apply Hh.
Qed.

Lemma observe_all_windowed s done obs :
  windowed s done → (∀ sensor oid, in_time (observed sensor oid (done ++ obs))) →
  ∃ s', observe_all obs s = (Ok tt, s') ∧ windowed s' (done ++ obs).
Proof.
  revert s done. induction obs as [|[[[sensor oid] pos] t] obs IH]; intros s done Hs Ht.
  { exists s. by rewrite app_nil_r. }
  destruct (update_position_windowed s done sensor oid pos t Hs) as (s1 & E1 & Hs1).
  { specialize (Ht sensor oid). rewrite cons_middle, app_assoc in Ht.
    unfold observed in Ht |- *. rewrite filter_app, fmap_app in Ht. by apply StronglySorted_app_1_l in Ht. }
  destruct (IH s1 (done ++ [((sensor, oid), pos, t)]) Hs1) as (s2 & E2 & Hs2); [by rewrite <-app_assoc|].
  rewrite <-app_assoc in Hs2. exists s2. split; [|done].
  unfold observe_all. simpl. unfold mbind, stM_bind. by rewrite E1.
Qed.
End window.

(** The sliding window is exact: whatever the interleaving of the
    observations of several objects, as long as the timestamps of each object
    are in order, every update succeeds and the history of an object holds
    exactly its positions that are not older than the window and one second
    before its last one, in order. *)
Theorem window_exact (w : float) (td : timedelta) (s : StopDetection) (obs : list observation) :
  td_float (fadd w (Z2f 1)) = Ok td →
  time_window_seconds s = Some w → position_history s = [] →
  (∀ sensor oid, in_time (observed sensor oid obs)) →
  ∃ s', observe_all obs s = (Ok tt, s') ∧
    ∀ sensor oid, nget (position_history s') sensor oid = recent td (observed sensor oid obs).
Proof.
  intros Htd Hw Hh Ht.
  destruct (observe_all_windowed w td Htd s [] obs) as (s' & E & _ & H); [|done|by exists s'].
  split; [done|]. intros sensor oid. by rewrite Hh.
Qed.

Definition ten_seconds : StopDetection := set_time_window_seconds (Z2f 10) (new_StopDetection IMAGE).
Definition two_cars : list observation :=
  [(("cam", "a"), mk_Coordinate f0 f0 f0, 0);
   (("cam", "b"), mk_Coordinate f0 f0 f0, 5000000);
   (("cam", "a"), mk_Coordinate (Z2f 1) f0 f0, 6000000);
   (("cam", "a"), mk_Coordinate (Z2f 2) f0 f0, 12000000)].

Lemma two_cars_in_time sensor oid : in_time (observed sensor oid two_cars).
Proof.
  unfold observed, two_cars. rewrite !filter_cons. simpl. repeat case_decide; simplify_eq; simpl;
    repeat constructor; simpl; lia.
Qed.

Lemma window_exact_witness :
  td_float (fadd (Z2f 10) (Z2f 1)) = Ok 11000000 ∧
  ∃ s', observe_all two_cars ten_seconds = (Ok tt, s') ∧
    ∀ sensor oid, nget (position_history s') sensor oid = recent 11000000 (observed sensor oid two_cars).
Proof.
  split; [by vm_compute|].
  apply (window_exact (Z2f 10) 11000000 ten_seconds two_cars);
    [by vm_compute|reflexivity|reflexivity|exact two_cars_in_time].
Defined.

(** ** A vehicle that does not move *)
Section stationary.
  Context `{MathLib} (Hpow : math_pow f0 (Z2f 2) = Ok f0).
  Context (p : Coordinate) (Hx : isfinite (co_x p) = true) (Hy : isfinite (co_y p) = true)
    (Hz : isfinite (co_z p) = true).

Lemma fsub_self x : isfinite x = true → fsub x x = f0.
Proof.
  destruct x as [[]| | |b m e]; try done. intros _. unfold fsub, SFsub, SpecFloat.SFsub.
  rewrite Z.min_id. unfold shl_align. by rewrite Z.sub_diag.
Qed.

Lemma euclidean_distance_self : euclidean_distance p p = Ok f0.
Proof. unfold euclidean_distance. rewrite !fsub_self by done. rewrite Hpow. reflexivity. Qed.

Lemma total_distance_stationary l :
  Forall (λ q : Coordinate * datetime, q.1 = p) l → total_distance IMAGE p l f0 = Ok f0.
Proof.
  induction 1 as [|q l Hq Hl IH]; [done|]. simpl. rewrite Hq, euclidean_distance_self. exact IH.
Qed.

Lemma zero_div_pos n : 0 < n → fdiv f0 (Z2f n) = f0.
Proof. intros [(m & e & ->)| ->]%Z2f_pos; done. Qed.

Lemma distance_traveled_stationary q1 q2 l :
  Forall (λ q : Coordinate * datetime, q.1 = p) (q1 :: q2 :: l) →
  calculate_distance_traveled IMAGE (q1 :: q2 :: l) = Ok (f0, f0).
Proof.
  intros Hl. unfold calculate_distance_traveled.
  assert ((default q1 (last (q1 :: q2 :: l))).1 = p) as ->.
  { destruct (last (q1 :: q2 :: l)) as [q|] eqn:E; simpl;
      [apply last_Some_elem_of in E; rewrite Forall_forall in Hl; by apply Hl|]. by apply Forall_inv in Hl. }
  apply Forall_cons in Hl as [Hq Hl]. simpl tail. rewrite Hq, total_distance_stationary by done.
  unfold mbind, result_bind. rewrite zero_div_pos by (simpl; lia). simpl. by rewrite euclidean_distance_self.
Qed.
End stationary.

(** A vehicle of an image-calibrated sensor that stays at one finite
    position is stopped exactly when the kept positions span the window; the
    law of [math.pow] used is that zero squared is zero. *)
Theorem stationary_stopped `{MathLib} (s : StopDetection) (sensor_id object_id : string)
    (p : Coordinate) (threshold w : float) (first second : Coordinate * datetime) (rest : history) :
  math_pow f0 (Z2f 2) = Ok f0 →
  isfinite (co_x p) = true → isfinite (co_y p) = true → isfinite (co_z p) = true →
  calibration_type s = IMAGE →
  stop_distance_threshold s = Some threshold → time_window_seconds s = Some w →
  flt f0 threshold = true → flt f0 (fmul (Z2f 3) threshold) = true →
  nget (position_history s) sensor_id object_id = Some (first :: second :: rest) →
  Forall (λ q, q.1 = p) (first :: second :: rest) →
  is_vehicle_stopped_by_distance s sensor_id object_id =
    Ok (fle w (total_seconds ((default first (last (second :: rest))).2 - first.2))).
Proof.
  intros Hpow Hx Hy Hz Hc Ht Hw H1 H3 Hn Hl. unfold is_vehicle_stopped_by_distance.
  rewrite Ht, Hn, Hc. rewrite (distance_traveled_stationary Hpow p Hx Hy Hz) by done.
  unfold mbind, result_bind. cbn [fst snd]. by rewrite H1, H3, Hw.
Qed.

(** [math.pow] on the squares the code computes, and flat trigonometry. *)
#[local] Instance flat_math : MathLib := {|
  math_pow x _ := Ok (fmul x x); radians x := x; math_sin x := x; math_cos _ := Z2f 1;
  math_atan2 y x := fdiv y x |}.

Definition parked : StopDetection :=
  set_position_history
    [("cam", [("a", [(mk_Coordinate (Z2f 5) f0 f0, 0); (mk_Coordinate (Z2f 5) f0 f0, 11000000)])])]
    (set_stop_distance_threshold (Z2f 2) ten_seconds).

Lemma stationary_stopped_witness :
  is_vehicle_stopped_by_distance parked "cam" "a" = Ok (fle (Z2f 10) (total_seconds (11000000 - 0))) ∧
  fle (Z2f 10) (total_seconds (11000000 - 0)) = true.
Proof.
  split; [|by vm_compute].
  apply (stationary_stopped parked "cam" "a" (mk_Coordinate (Z2f 5) f0 f0) (Z2f 2) (Z2f 10)
    (mk_Coordinate (Z2f 5) f0 f0, 0) (mk_Coordinate (Z2f 5) f0 f0, 11000000) []);
    [reflexivity..|vm_compute; reflexivity|vm_compute; reflexivity|reflexivity|].
  repeat constructor.
Defined.

(** With a threshold but no window, the decision on a slow vehicle raises. *)
Example no_window_raises :
  is_vehicle_stopped_by_distance
    (set_position_history (position_history parked)
       (set_stop_distance_threshold (Z2f 2) (new_StopDetection IMAGE))) "cam" "a" = Exn TypeError.
Proof. by vm_compute. Qed.
