(* ===== verification/PyNumber.v ===== *)
(** * Python numbers: conversions between [int] and [float]

    [float(n)], [a / b] on integers and [math.ceil], which raise where the
    value has no such number, [min] and [max] on floats, and the signs and exact
    values the clients need: arithmetic on floats that are not negative stays
    not negative, and [math.ceil(n / 2)] is exact for 53-bit integers. *)

From Stdlib Require Import ZArith Lia Floats.SpecFloat.
From stdpp Require Import base list.
From S2P Require Import Prelude PyFloat.
Open Scope Z_scope.

(** [float(n)], also the conversion of an [int] operand of float arithmetic. *)
Definition float_of_int (n : Z) : result float :=
  if isfinite (Z2f n) then Ok (Z2f n) else Exn OverflowError.

(** [a / b] for a positive [int] divisor. *)
Definition true_div (a : Z) (b : positive) : result float :=
  if isfinite (div_ints a b) then Ok (div_ints a b) else Exn OverflowError.

(** [math.ceil(x)] *)
Definition math_ceil (x : float) : result Z :=
  match x with
  | S754_nan => Exn ValueError
  | S754_infinity _ => Exn OverflowError
  | S754_zero _ => Ok 0
  | S754_finite s m e =>
      let v := if s then Zneg m else Zpos m in
      Ok (if 0 <=? e then v * 2 ^ e else - ((- v) / 2 ^ (- e)))
  end.

(** [max(a, b)] and [min(a, b)]: the second only where it is strictly better. *)
Definition fmax (a b : float) : float := if flt a b then b else a.
Definition fmin (a b : float) : float := if flt b a then b else a.

Example ceil_examples :
  math_ceil (lit 15 1) = Ok 2 ∧ math_ceil (fopp (lit 15 1)) = Ok (-1) ∧ math_ceil (Z2f 7) = Ok 7.
Proof. split_and!; vm_compute; reflexivity. Qed.

(** ** Signs

    No negative number, but possibly NaN: closed under addition and
    multiplication, whatever is rounded. *)
Definition fnonneg (x : float) : Prop :=
  match x with
  | S754_finite true _ _ | S754_infinity true => False
  | _ => True
  end.

Lemma math_ceil_nonneg x n : fnonneg x → math_ceil x = Ok n → 0 <= n.
Proof.
  destruct x as [|[]| |[] m e]; try done; intros _ [= <-]; [done|]. destruct (0 <=? e) eqn:E.
  - apply Z.leb_le in E. pose proof (Z.pow_nonneg 2 e). lia.
  - apply Z.leb_gt in E. pose proof (Z.pow_pos_nonneg 2 (- e)).
    enough (Zneg m / 2 ^ (- e) <= 0) by lia. apply Z.div_le_upper_bound; lia.
Qed.

Lemma binary_round_aux_nonneg m e l : fnonneg (binary_round_aux prec emax false m e l).
Proof. unfold binary_round_aux. by repeat case_match; simplify_eq. Qed.

Lemma binary_round_nonneg p e : fnonneg (binary_round prec emax false p e).
Proof. unfold binary_round. case_match. apply binary_round_aux_nonneg. Qed.

Lemma binary_normalize_nonneg m e s : 0 <= m → fnonneg (binary_normalize prec emax m e s).
Proof. destruct m as [|p|]; [done| |lia]. intros _. apply binary_round_nonneg. Qed.

Lemma Z2f_nonneg n : 0 <= n → fnonneg (Z2f n).
Proof. apply binary_normalize_nonneg. Qed.

Lemma float_of_int_nonneg n x : 0 <= n → float_of_int n = Ok x → fnonneg x.
Proof. unfold float_of_int. case_match; [|done]. intros ? [= <-]. by apply Z2f_nonneg. Qed.

Lemma fmul_nonneg x y : fnonneg x → fnonneg y → fnonneg (fmul x y).
Proof.
  destruct x as [|[]| |[] m e], y as [|[]| |[] m' e']; try done. intros _ _.
  apply binary_round_aux_nonneg.
Qed.

Lemma fadd_nonneg x y : fnonneg x → fnonneg y → fnonneg (fadd x y).
Proof.
  destruct x as [[]|[]| |[] m e], y as [[]|[]| |[] m' e']; try done. intros _ _.
  apply binary_round_nonneg.
Qed.

Lemma not_below_one_nonneg x : flt x (Z2f 1) = false → fnonneg x.
Proof. by destruct x as [|[]| |[] m e]. Qed.

(** What is left of one after a smaller canonical float is not negative. *)
Lemma one_minus_nonneg x :
  valid_binary prec emax x = true → flt f0 x = true → fle x (Z2f 1) = true →
  fnonneg (fsub (Z2f 1) x).
Proof.
  destruct x as [|[]| |[] m e]; try done. intros Hv _ Hle.
  assert (∃ K, Z2f 1 = S754_finite false K (-52) ∧ Zpos K = 2 ^ 52) as (K & EK & HK)
    by (exists 4503599627370496%positive; split; vm_compute; reflexivity).
  rewrite EK in *. clear EK.
  unfold valid_binary, bounded, canonical_mantissa in Hv. apply andb_prop in Hv as [Hv _].
  apply Z.eqb_eq in Hv. unfold fexp, SpecFloat.emin, prec, emax in Hv.
  assert (Zpos (digits2_pos m) = Z.log2 (Zpos m) + 1) as Hd by exact (Zdigits2_log2 (Zpos m) eq_refl).
  rewrite Hd in Hv. pose proof (Z.log2_spec (Zpos m) eq_refl) as [_ Hm].
  unfold fle, SFleb, SFcompare in Hle. unfold fsub, SFsub.
  apply binary_normalize_nonneg.
  assert (e = -52 ∨ e < -52) as He by (destruct (Z.compare_spec e (-52)); [auto|auto|done]).
  unfold shl_align. destruct He as [->|He].
  - rewrite Z.compare_refl in Hle. rewrite Z.min_id, Z.sub_diag. cbn [fst].
    change (PosDef.Pos.compare_cont Eq m K) with (m ?= K)%positive in Hle.
    destruct (Pos.compare_spec m K) as [H|H|H]; [..|done].
    + simpl. lia.
    + simpl. lia.
  - rewrite Z.min_r by lia. rewrite Z.sub_diag.
    destruct (e - -52) as [|d|d] eqn:E; [lia|lia|].
    unfold cond_Zopp. cbn [fst]. rewrite pos_iter_xO, HK, <- Z.pow_add_r by lia.
    assert (2 ^ Z.succ (Z.log2 (Zpos m)) <= 2 ^ (52 + Zpos d)) by (apply Z.pow_le_mono_r; lia). lia.
Qed.

(** ** Halving *)
Lemma shr_fexp_exact m e (b : bool) :
  0 < m → fexp prec emax (Z.log2 (if b then 2 * m else m) + 1 + e) - e = (if b then 1 else 0) →
  shr_fexp prec emax (if b then 2 * m else m) e loc_Exact =
    ({| shr_m := m; shr_r := false; shr_s := false |}, if b then e + 1 else e).
Proof.
  intros Hm Hf. unfold shr_fexp. rewrite Zdigits2_log2, Hf by (destruct b; lia).
  destruct b; [|done]. by destruct m as [|p|p].
Qed.

(** [math.ceil(n / 2)] is the exact half rounded up. *)
Lemma ceil_half n :
  0 < n < 2 ^ 53 → (x ← true_div n 2; math_ceil x) = Ok ((n + 1) / 2).
Proof.
  intros Hn. set (l := Z.log2 n).
  assert (0 <= l <= 52) as Hl.
  { assert (Z.log2 n < 53) by (apply Z.log2_lt_pow2; lia). pose proof (Z.log2_nonneg n). unfold l. lia. }
  set (k := n * 2 ^ (52 - l)).
  assert (Z.log2 k = 52) as Hk by (unfold k; rewrite Z.log2_mul_pow2 by lia; fold l; lia).
  assert (0 < k) as Hk0 by (unfold k; pose proof (Z.pow_pos_nonneg 2 (52 - l)); nia).
  assert (Z.log2 (2 * k) = 53) as Hk2 by (rewrite Z.log2_double; lia).
  assert (div_ints n 2 = S754_finite false (Z.to_pos k) (l - 53)) as E.
  { unfold div_ints. destruct n as [|p|p]; [lia| |lia].
    unfold SFdiv_core_binary. change (Z.abs (Zpos p)) with (Zpos p). rewrite Zdigits2_log2 by lia. fold l.
    change (Zdigits2 2) with 2. change (0 - 0) with 0.
    replace (fexp prec emax (l + 1 + 0 - (2 + 0)) `min` 0) with (l - 54)
      by (unfold fexp, SpecFloat.emin, prec, emax; lia).
    replace (0 - (l - 54)) with (Zpos (Z.to_pos (54 - l))) by lia.
    rewrite Z.shiftl_mul_pow2 by lia. rewrite Z2Pos.id by lia.
    replace (Zpos p * 2 ^ (54 - l)) with (2 * k * 2)
      by (unfold k; replace (54 - l) with (52 - l + 1 + 1) by lia; rewrite !Z.pow_add_r by lia; ring).
    pose proof (Z.div_mul (2 * k) 2) as Hq. pose proof (Z.mod_mul (2 * k) 2) as Hr.
    unfold Z.div in Hq. unfold Z.modulo in Hr. destruct (Z.div_eucl (2 * k * 2) 2) as [q r].
    rewrite Hq, Hr by lia. change (new_location 2 0) with loc_Exact. unfold binary_round_aux.
    rewrite (shr_fexp_exact k (l - 54) true) by (rewrite ?Hk2; unfold fexp, SpecFloat.emin, prec, emax; lia).
    simpl round_nearest_even.
    rewrite (shr_fexp_exact k (l - 54 + 1) false) by (rewrite ?Hk; unfold fexp, SpecFloat.emin, prec, emax; lia).
    simpl shr_m. destruct k as [|k'|]; [lia| |lia]. rewrite (proj2 (Z.leb_le _ _)) by (unfold emax, prec; lia).
    f_equal. lia. }
  unfold true_div. rewrite E. simpl. rewrite (proj2 (Z.leb_gt _ _)) by lia. f_equal.
  rewrite ?Z2Pos.id by lia. unfold k.
  replace (- (l - 53)) with (1 + (52 - l)) by lia. rewrite Z.pow_add_r, <- Z.mul_opp_l by lia.
  rewrite Z.div_mul_cancel_r by (try apply Z.pow_nonzero; lia).
  change (2 ^ 1) with 2. Z.to_euclidean_division_equations. lia.
Qed.

(** ** Dividing integers of at most 53 bits

    Conversion to [float] is exact, so dividing the converted numbers is
    dividing the integers. *)
Lemma binary_round_exact s p :
  Z.log2 (Zpos p) <= 52 →
  binary_round prec emax s p 0 =
    S754_finite s (Z.to_pos (Zpos p * 2 ^ (52 - Z.log2 (Zpos p)))) (Z.log2 (Zpos p) - 52).
Proof.
  intros Hl. set (l := Z.log2 (Zpos p)) in *. pose proof (Z.log2_nonneg (Zpos p)) as Hl0. fold l in Hl0.
  set (k := Zpos p * 2 ^ (52 - l)).
  assert (Z.log2 k = 52) as Hk by (unfold k; rewrite Z.log2_mul_pow2 by lia; fold l; lia).
  assert (0 < k) as Hk0 by (unfold k; pose proof (Z.pow_pos_nonneg 2 (52 - l)); nia).
  unfold binary_round, shl_align.
  change (Zpos (digits2_pos p)) with (Zdigits2 (Zpos p)). rewrite Zdigits2_log2 by lia. fold l.
  replace (fexp prec emax (l + 1 + 0)) with (l - 52) by (unfold fexp, SpecFloat.emin, prec, emax; lia).
  assert (∃ q e, (match l - 52 - 0 with
    | Zneg d => (Pos.iter xO p d, l - 52) | _ => (p, 0) end) = (q, e) ∧ Zpos q = k ∧ e = l - 52) as (q & e & -> & Hq & ->).
  { destruct (l - 52 - 0) as [|d|d] eqn:Ed; [|lia|].
    - exists p, 0. split_and!; [done| |lia]. unfold k. replace (52 - l) with 0 by lia. lia.
    - eexists _, _. split_and!; [done| |done]. rewrite pos_iter_xO. unfold k. do 2 f_equal. lia. }
  rewrite <-Hq in *. unfold binary_round_aux.
  rewrite (shr_fexp_exact (Zpos q) (l - 52) false) by (rewrite ?Hk; unfold fexp, SpecFloat.emin, prec, emax; lia).
  simpl round_nearest_even.
  rewrite (shr_fexp_exact (Zpos q) (l - 52) false) by (rewrite ?Hk; unfold fexp, SpecFloat.emin, prec, emax; lia).
  simpl shr_m. cbn iota. rewrite (proj2 (Z.leb_le _ _)) by (unfold emax, prec; lia). done.
Qed.

Lemma new_location_compare n k :
  0 <= k → new_location n k = if k =? 0 then loc_Exact else loc_Inexact (2 * k ?= n).
Proof.
  intros Hk. unfold new_location. destruct (Z.even n) eqn:E; unfold new_location_even, new_location_odd; [done|].
  destruct (k =? 0); [done|]. f_equal. rewrite <-Z.negb_odd in E. apply negb_false_iff, Z.odd_spec in E as [j ->].
  destruct (Z.compare_spec (2 * k + 1) (2 * j + 1)) as [E|E|E], (Z.compare_spec (2 * k) (2 * j + 1)) as [F|F|F];
    done || (exfalso; lia).
Qed.

Lemma new_location_scale n k c :
  0 <= k → 0 < c → new_location (n * c) (k * c) = new_location n k.
Proof.
  intros Hk Hc. rewrite !new_location_compare by nia.
  replace (k * c =? 0) with (k =? 0) by (destruct (Z.eqb_spec k 0), (Z.eqb_spec (k * c) 0); nia || done).
  case_match; [done|]. f_equal.
  rewrite Z.mul_assoc. symmetry. destruct (Z.compare_spec (2 * k) n) as [E|E|E]; symmetry.
  - apply Z.compare_eq_iff. nia.
  - apply Z.compare_lt_iff. nia.
  - apply Z.compare_gt_iff. nia.
Qed.

Lemma div_core_scale m n l1 l2 :
  l1 = Z.log2 m → l2 = Z.log2 n → 0 < m → 0 < n → l1 <= 52 → l2 <= 52 →
  SFdiv_core_binary prec emax (m * 2 ^ (52 - l1)) (l1 - 52) (n * 2 ^ (52 - l2)) (l2 - 52) =
  SFdiv_core_binary prec emax m 0 n 0.
Proof.
  intros E1 E2 Hm Hn H1 H2.
  pose proof (Z.log2_nonneg m). pose proof (Z.log2_nonneg n).
  assert (0 < 2 ^ (52 - l1)) by (apply Z.pow_pos_nonneg; lia).
  assert (0 < 2 ^ (52 - l2)) by (apply Z.pow_pos_nonneg; lia).
  unfold SFdiv_core_binary.
  rewrite !Zdigits2_log2, !Z.log2_mul_pow2, <-E1, <-E2 by nia.
  replace (fexp prec emax (52 - l1 + l1 + 1 + (l1 - 52) - (52 - l2 + l2 + 1 + (l2 - 52))) `min` (l1 - 52 - (l2 - 52)))
    with (l1 - l2 - 53) by (unfold fexp, SpecFloat.emin, prec, emax; lia).
  replace (fexp prec emax (l1 + 1 + 0 - (l2 + 1 + 0)) `min` (0 - 0))
    with (l1 - l2 - 53) by (unfold fexp, SpecFloat.emin, prec, emax; lia).
  replace (l1 - 52 - (l2 - 52) - (l1 - l2 - 53)) with 53 by lia.
  destruct (0 - 0 - (l1 - l2 - 53)) as [|s|] eqn:Es; [lia| |lia].
  rewrite !Z.shiftl_mul_pow2 by lia.
  assert (m * 2 ^ (52 - l1) * 2 ^ 53 = m * 2 ^ Zpos s * 2 ^ (52 - l2)) as ->.
  { rewrite <-!Z.mul_assoc, <-!Z.pow_add_r by lia. do 2 f_equal. lia. }
  pose proof (Z.div_mul_cancel_r (m * 2 ^ Zpos s) n (2 ^ (52 - l2)) ltac:(lia) ltac:(lia)) as Hq.
  pose proof (Z.mul_mod_distr_r (m * 2 ^ Zpos s) n (2 ^ (52 - l2)) ltac:(lia) ltac:(lia)) as Hr.
  pose proof (Z.mod_pos_bound (m * 2 ^ Zpos s) n ltac:(lia)).
  unfold Z.div, Z.modulo in *.
  destruct (Z.div_eucl (m * 2 ^ Zpos s * 2 ^ (52 - l2)) (n * 2 ^ (52 - l2))) as [q r].
  destruct (Z.div_eucl (m * 2 ^ Zpos s) n) as [q' r']. rewrite Hq, Hr. by rewrite new_location_scale by lia.
Qed.

Lemma fdiv_ints a b : Z.abs a < 2 ^ 53 → Zpos b < 2 ^ 53 → fdiv (Z2f a) (Z2f (Zpos b)) = div_ints a b.
Proof.
  intros Ha Hb.
  assert (∀ p, Zpos p < 2 ^ 53 → Z.log2 (Zpos p) <= 52) as Hlog.
  { intros p Hp. apply Z.lt_succ_r. apply Z.log2_lt_pow2; [lia|]. done. }
  assert (∀ p, Z.log2 (Zpos p) <= 52 → Zpos (Z.to_pos (Zpos p * 2 ^ (52 - Z.log2 (Zpos p)))) = Zpos p * 2 ^ (52 - Z.log2 (Zpos p))) as Hpos.
  { intros p Hp. rewrite Z2Pos.id; [done|]. pose proof (Z.pow_pos_nonneg 2 (52 - Z.log2 (Zpos p)) ltac:(lia) ltac:(lia)). nia. }
  pose proof (Hlog b Hb) as Hlb.
  unfold Z2f at 2. cbn [binary_normalize]. rewrite binary_round_exact by done.
  destruct a as [|p|p].
  - done.
  - pose proof (Hlog p Ha) as Hlp. unfold Z2f. cbn [binary_normalize]. rewrite binary_round_exact by done.
    unfold fdiv, SFdiv, div_ints. rewrite !Hpos by done. by rewrite (div_core_scale (Zpos p) (Zpos b)) by done.
  - pose proof (Hlog p Ha) as Hlp. unfold Z2f. cbn [binary_normalize]. rewrite binary_round_exact by done.
    unfold fdiv, SFdiv, div_ints. rewrite !Hpos by done. change (Z.abs (Zneg p)) with (Zpos p).
    by rewrite (div_core_scale (Zpos p) (Zpos b)) by done.
Qed.

Lemma float_of_int_exact a : Z.abs a < 2 ^ 53 → float_of_int a = Ok (Z2f a).
Proof.
  intros Ha. unfold float_of_int, Z2f, binary_normalize. destruct a as [|p|p]; [done| |];
    rewrite binary_round_exact; [done|apply Z.lt_succ_r, Z.log2_lt_pow2; [lia|done]|done|apply Z.lt_succ_r, Z.log2_lt_pow2; [lia|done]].
Qed.
