(* ===== verification/Limiter.v ===== *)
(** * Adaptive admission of preprocessing work (inference service)

    [AdaptivePreprocessLimiter] of
    [rtvi/rt-vlm/src/models/vllm_compatible/adaptive_preprocess_limiter.py]:
    the number of multimodal requests preprocessed at once follows the free
    GPU memory. A request reserves its estimated memory before it starts; the
    limit is halved under memory pressure and raised by one after enough
    healthy completions.

    The attributes of the class are grouped in records ([Gate], [Pacing],
    [Learning], [Counters]). What the callbacks return ([free_memory_mb],
    [gpu_utilization_percent]; [None] is a call that raises) and the clock
    readings are arguments. A section under the asyncio condition and the state
    lock has no await inside, so it is one atomic step; concurrent calls are the
    interleavings of these steps ([step]). Metrics are left out. *)

From Stdlib Require Import ZArith Lia Floats.SpecFloat.
From stdpp Require Import base list strings gmap sets relations.
From S2P Require Import Prelude PyDict PyFloat PyNumber.
Open Scope Z_scope.

Record AdaptivePreprocessConfig := {
  enabled : bool;
  shadow_mode : bool;
  min_workers : Z;
  max_workers : Z;
  gpu_headroom_mb : Z;
  initial_estimated_request_mb : Z;
  estimate_safety_factor : float;
  admission_timeout_seconds : float;
  healthy_completions_for_increase : Z;
  scale_up_cooldown_seconds : float;
  scale_up_gpu_utilization_threshold_percent : float;
  calibration_samples_required : Z;
  estimate_ewma_alpha : float;
  poll_interval_seconds : float;
}.

Definition default_config : AdaptivePreprocessConfig := {|
  enabled := false; shadow_mode := true; min_workers := 1; max_workers := 16;
  gpu_headroom_mb := 1024; initial_estimated_request_mb := 512;
  estimate_safety_factor := lit 125 2; admission_timeout_seconds := lit 30 0;
  healthy_completions_for_increase := 3; scale_up_cooldown_seconds := lit 30 0;
  scale_up_gpu_utilization_threshold_percent := lit 90 0; calibration_samples_required := 3;
  estimate_ewma_alpha := lit 25 2; poll_interval_seconds := lit 5 2 |}.

(** A check [if bad: raise ValueError]. *)
Definition reject (bad : bool) : result unit := if bad then Exn ValueError else Ok tt.

Definition post_init (c : AdaptivePreprocessConfig) : result unit :=
  _ ← reject (min_workers c <? 1);
  _ ← reject (max_workers c <? min_workers c);
  _ ← reject (gpu_headroom_mb c <? 0);
  _ ← reject (initial_estimated_request_mb c <? 1);
  _ ← reject (flt (estimate_safety_factor c) (Z2f 1));
  _ ← reject (fle (admission_timeout_seconds c) f0);
  _ ← reject (healthy_completions_for_increase c <? 1);
  _ ← reject (flt (scale_up_cooldown_seconds c) f0);
  _ ← reject (negb (fle f0 (scale_up_gpu_utilization_threshold_percent c) &&
                    fle (scale_up_gpu_utilization_threshold_percent c) (Z2f 100)));
  _ ← reject (calibration_samples_required c <? 1);
  _ ← reject (negb (flt f0 (estimate_ewma_alpha c) && fle (estimate_ewma_alpha c) (Z2f 1)));
  reject (fle (poll_interval_seconds c) f0).

Record PreprocessAdmission := mk_Admission {
  request_id : string;
  workload_key : string;
  payload_mb : Z;
  estimated_mb : Z;
  free_memory_before_mb : option Z;
  admitted_at : float;
  enforced : bool;
  policy_would_admit : bool;
  exclusive : bool;
  wait_seconds : float;
}.

(** Who is inside, and what is known about them. *)
Record Gate := mk_Gate {
  active : Z;
  pending_reserved_mb : Z;
  admissions : dict string PreprocessAdmission;
  minimum_free_mb_by_request : dict string Z;
  overlapped_request_ids : gset string;
}.

(** How many may be inside. *)
Record Pacing := mk_Pacing {
  effective_limit : Z;
  healthy_completions : Z;
  memory_pressure_active : bool;
  backpressure_observed : bool;
  next_scale_up_at : float;
}.

(** What a request of a workload is estimated to need. *)
Record Learning := mk_Learning {
  estimated_mb_by_workload : dict string Z;
  calibration_samples_by_workload : dict string Z;
  calibrated_workloads : gset string;
}.

Record Counters := mk_Counters {
  admission_count : Z;
  policy_denials : Z;
  shadow_denials : Z;
  timeouts : Z;
  memory_pressure_events : Z;
  observed_peak_active : Z;
}.

Record AdaptivePreprocessLimiter := mk_Limiter {
  gate : Gate;
  pacing : Pacing;
  learning : Learning;
  counters : Counters;
  queued : Z;
  last_free_memory_mb : option Z;
  last_gpu_utilization_percent : option float;
}.

Abbreviation L := AdaptivePreprocessLimiter.

Definition set_gate (g : Gate) (s : L) : L :=
  mk_Limiter g (pacing s) (learning s) (counters s) (queued s) (last_free_memory_mb s)
    (last_gpu_utilization_percent s).
Definition set_pacing (p : Pacing) (s : L) : L :=
  mk_Limiter (gate s) p (learning s) (counters s) (queued s) (last_free_memory_mb s)
    (last_gpu_utilization_percent s).
Definition set_learning (l : Learning) (s : L) : L :=
  mk_Limiter (gate s) (pacing s) l (counters s) (queued s) (last_free_memory_mb s)
    (last_gpu_utilization_percent s).
Definition set_counters (n : Counters) (s : L) : L :=
  mk_Limiter (gate s) (pacing s) (learning s) n (queued s) (last_free_memory_mb s)
    (last_gpu_utilization_percent s).
Definition set_queued (n : Z) (s : L) : L :=
  mk_Limiter (gate s) (pacing s) (learning s) (counters s) n (last_free_memory_mb s)
    (last_gpu_utilization_percent s).
Definition set_last_free (v : option Z) (s : L) : L :=
  mk_Limiter (gate s) (pacing s) (learning s) (counters s) (queued s) v
    (last_gpu_utilization_percent s).
Definition set_last_utilization (v : option float) (s : L) : L :=
  mk_Limiter (gate s) (pacing s) (learning s) (counters s) (queued s) (last_free_memory_mb s) v.

Definition set_healthy (n : Z) (p : Pacing) : Pacing :=
  mk_Pacing (effective_limit p) n (memory_pressure_active p) (backpressure_observed p)
    (next_scale_up_at p).

Definition count_denial (n : Counters) : Counters :=
  mk_Counters (admission_count n) (policy_denials n + 1) (shadow_denials n) (timeouts n)
    (memory_pressure_events n) (observed_peak_active n).
Definition count_timeout (n : Counters) : Counters :=
  mk_Counters (admission_count n) (policy_denials n) (shadow_denials n) (timeouts n + 1)
    (memory_pressure_events n) (observed_peak_active n).
Definition count_pressure (n : Counters) : Counters :=
  mk_Counters (admission_count n) (policy_denials n) (shadow_denials n) (timeouts n)
    (memory_pressure_events n + 1) (observed_peak_active n).
Definition count_admission (shadow_denied : bool) (now_active : Z) (n : Counters) : Counters :=
  mk_Counters (admission_count n + 1) (policy_denials n)
    (if shadow_denied then shadow_denials n + 1 else shadow_denials n) (timeouts n)
    (memory_pressure_events n) (Z.max (observed_peak_active n) now_active).

Section limiter.
  Context (c : AdaptivePreprocessConfig).

Definition new_Limiter (now : float) : L :=
  mk_Limiter (mk_Gate 0 0 [] [] ∅)
    (mk_Pacing (min_workers c) 0 false false (fadd now (scale_up_cooldown_seconds c)))
    (mk_Learning [] [] ∅) (mk_Counters 0 0 0 0 0 0) 0 None None.

(** ** Samples *)
Definition sample_free_memory (raw : option Z) : stM L (option Z) :=
  λ s, (Ok (Z.max 0 <$> raw), set_last_free (Z.max 0 <$> raw) s).

(** [gpu] is [None] without a callback. *)
Definition has_scale_up_gpu_headroom (gpu : option (option float)) : stM L bool :=
  match gpu with
  | None => mret true
  | Some utilization =>
      match utilization with
      | Some u =>
          if isfinite u then
            let percent := fmin (Z2f 100) (fmax f0 u) in
            _ ← smod (set_last_utilization (Some percent));
            mret (flt percent (scale_up_gpu_utilization_threshold_percent c))
          else _ ← smod (set_last_utilization None); mret false
      | None => _ ← smod (set_last_utilization None); mret false
      end
  end.

(** ** Policy *)
Definition request_estimate (s : L) (workload : string) (payload : Z) : result Z :=
  let baseline := match dget (estimated_mb_by_workload (learning s)) workload with
                  | Some learned_mb => learned_mb
                  | None => Z.max (initial_estimated_request_mb c) payload
                  end in
  b ← float_of_int baseline;
  math_ceil (fmul b (estimate_safety_factor c)).

Definition memory_available (s : L) (estimate : Z) (free : option Z) : bool :=
  match free with
  | Some free_mb => gpu_headroom_mb c + estimate <=? free_mb - pending_reserved_mb (gate s)
  | None => false
  end.

Definition policy_decision (workload : string) (payload : Z) (require_calibration : bool)
    (raw : option Z) : stM L (bool * Z * option Z) :=
  s0 ← sget;
  estimate ← slift (request_estimate s0 workload payload);
  free ← sample_free_memory raw;
  s ← sget;
  let worker_available := active (gate s) <? effective_limit (pacing s) in
  let calibration_available := negb require_calibration
    || bool_decide (workload ∈ calibrated_workloads (learning s))
    || (active (gate s) =? 0) in
  mret (worker_available && calibration_available && memory_available s estimate free, estimate, free).

(** ** Pacing *)
Definition record_memory_pressure (force : bool) (now : float) : stM L unit :=
  s ← sget;
  if memory_pressure_active (pacing s) && negb force then mret tt
  else
    half ← slift (x ← true_div (effective_limit (pacing s)) 2; math_ceil x);
    smod (λ s, set_counters (count_pressure (counters s))
      (set_pacing (mk_Pacing (Z.max (min_workers c) half) 0 true false
         (fadd now (scale_up_cooldown_seconds c))) s)).

Definition has_scale_up_memory_margin (a : PreprocessAdmission) (raw : option Z) : stM L bool :=
  free ← sample_free_memory raw;
  s ← sget;
  mret (memory_available s (2 * estimated_mb a) free).

Definition update_limit_after_release (a : PreprocessAdmission) (success memory_pressure : bool)
    (raw : option Z) (gpu : option (option float)) (now : float) : stM L unit :=
  if memory_pressure then record_memory_pressure true now
  else
    s ← sget;
    let p := pacing s in
    if negb success then smod (set_pacing (set_healthy 0 p))
    else if memory_pressure_active p then
      margin ← has_scale_up_memory_margin a raw;
      if negb margin || flt now (next_scale_up_at p) then smod (set_pacing (set_healthy 0 p))
      else if healthy_completions_for_increase c <=? healthy_completions p + 1 then
        smod (set_pacing (mk_Pacing (effective_limit p) 0 false (backpressure_observed p)
          (fadd now (scale_up_cooldown_seconds c))))
      else smod (set_pacing (set_healthy (healthy_completions p + 1) p))
    else if negb (backpressure_observed p) || (max_workers c <=? effective_limit p) then
      smod (set_pacing (set_healthy 0 p))
    else
      let healthy := healthy_completions p + 1 in
      _ ← smod (set_pacing (set_healthy healthy p));
      if (healthy <? healthy_completions_for_increase c * effective_limit p)
         || flt now (next_scale_up_at p) then mret tt
      else
        margin ← has_scale_up_memory_margin a raw;
        headroom ← if margin : bool then has_scale_up_gpu_headroom gpu else mret false;
        let next := fadd now (scale_up_cooldown_seconds c) in
        if negb margin || negb headroom then
          smod (set_pacing (mk_Pacing (effective_limit p) 0 (memory_pressure_active p)
            (backpressure_observed p) next))
        else
          smod (set_pacing (mk_Pacing (effective_limit p + 1) 0 (memory_pressure_active p) false next)).

(** ** Acquire *)
Record request := mk_request {
  rq_id : string;
  rq_workload : string;
  rq_payload : Z;
  rq_started_at : float;
  rq_deadline : float;
}.

(** [acquire] before its loop; [loop_now] is [loop.time()]. *)
Definition acquire_start (id workload : string) (payload : Z) (started_at loop_now : float)
    : result request :=
  if String.eqb workload "" then Exn ValueError
  else if payload <? 1 then Exn ValueError
  else Ok (mk_request id workload payload started_at (fadd loop_now (admission_timeout_seconds c))).

Definition gate_admit (a : PreprocessAdmission) (g : Gate) : Gate :=
  mk_Gate (active g + 1) (pending_reserved_mb g + estimated_mb a)
    (dset (admissions g) (request_id a) a)
    (match free_memory_before_mb a with
     | Some free => dset (minimum_free_mb_by_request g) (request_id a) free
     | None => minimum_free_mb_by_request g
     end)
    (if active g =? 0 then overlapped_request_ids g
     else overlapped_request_ids g ∪ list_to_set (dkeys (admissions g)) ∪ {[ request_id a ]}).

(** The admitting branch of the loop. *)
Definition admit_call (rq : request) (would_admit : bool) (estimate : Z) (free : option Z) (now : float)
    (s : L) : PreprocessAdmission * L :=
    let a := mk_Admission (rq_id rq) (rq_workload rq) (rq_payload rq) estimate free
               (rq_started_at rq) (negb (shadow_mode c)) would_admit
               (active (gate s) + 1 =? 1) (fsub now (rq_started_at rq)) in
    (a, set_counters (count_admission (shadow_mode c && negb would_admit) (active (gate s) + 1)
                        (counters s))
          (set_gate (gate_admit a (gate s)) s)).

(** One turn of the loop under the state lock; the local [queued] is the second
    component of the state. [None] is a denied request. *)
Definition attempt (rq : request) (raw : option Z) (now : float)
    : stM (L * bool) (option PreprocessAdmission) :=
  λ '(s, is_queued),
    if dmem (admissions (gate s)) (rq_id rq) then (Exn ValueError, (s, is_queued))
    else
      match policy_decision (rq_workload rq) (rq_payload rq) true raw s with
      | (Exn e, s1) => (Exn e, (s1, is_queued))
      | (Ok (would_admit, estimate, free), s1) =>
          if shadow_mode c || would_admit then
            let s2 := if is_queued then set_queued (queued s1 - 1) s1 else s1 in
            let '(a, s3) := admit_call rq would_admit estimate free now s2 in
            (Ok (Some a), (s3, false))
          else
            let s2 := set_counters (count_denial (counters s1)) s1 in
            match (if memory_available s2 estimate free then mret tt
                   else record_memory_pressure false now) s2 with
            | (Exn e, s3) => (Exn e, (s3, is_queued))
            | (Ok _, s3) =>
                (Ok None, (if is_queued then s3 else set_queued (queued s3 + 1) s3, true))
            end
      end.

(** One turn of the loop under the condition: the attempt and, if it is
    denied, the deadline. [None] waits and polls again. *)
Definition poll (rq : request) (raw : option Z) (now loop_now : float)
    : stM (L * bool) (option PreprocessAdmission) :=
  r ← attempt rq raw now;
  match r with
  | Some a => mret (Some a)
  | None =>
      if fle (fsub (rq_deadline rq) loop_now) f0 then
        _ ← smod (λ '(s, is_queued),
              (set_counters (count_timeout (counters s))
                 (if is_queued : bool then set_queued (queued s - 1) s else s), false));
        sraise (NamedError "PreprocessAdmissionTimeout")
      else mret None
  end.

(** The [finally] of [acquire] for a call that is still queued. *)
Definition leave_queue (s : L) : L := set_queued (queued s - 1) s.

(** What a call meets at one turn of its loop: the changes made by others since
    the last one, then its own readings. *)
Record turn := mk_turn {
  tn_before : L → L;
  tn_raw : option Z;
  tn_now : float;
  tn_loop_now : float;
}.

(** The loop of [acquire] and its [finally], [None] while it has not ended. *)
Fixpoint acquire_loop (rq : request) (turns : list turn) (s : L) (is_queued : bool)
    : option (result PreprocessAdmission * L) :=
  match turns with
  | [] => None
  | t :: turns' =>
      match poll rq (tn_raw t) (tn_now t) (tn_loop_now t) (tn_before t s, is_queued) with
      | (Ok (Some a), (s', _)) => Some (Ok a, s')
      | (Ok None, (s', is_queued')) => acquire_loop rq turns' s' is_queued'
      | (Exn e, (s', is_queued')) => Some (Exn e, if is_queued' : bool then leave_queue s' else s')
      end
  end.

(** ** Release *)
Definition gate_remove (current : PreprocessAdmission) (id : string) (g : Gate) : Gate :=
  mk_Gate (active g - 1) (Z.max 0 (pending_reserved_mb g - estimated_mb current))
    (ddel (admissions g) id) (ddel (minimum_free_mb_by_request g) id)
    (overlapped_request_ids g ∖ {[ id ]}).

(** The new estimate of a workload: at once when it grows, smoothed when it
    shrinks. *)
Definition updated_estimate (l : Learning) (current : PreprocessAdmission) (observed : Z) : result Z :=
  let floor := Z.max (initial_estimated_request_mb c) (payload_mb current) in
  let observed_mb := Z.max floor observed in
  let previous := default floor (dget (estimated_mb_by_workload l) (workload_key current)) in
  if previous <=? observed_mb then Ok observed_mb
  else
    p ← float_of_int previous;
    o ← float_of_int observed_mb;
    math_ceil (fadd (fmul (fsub (Z2f 1) (estimate_ewma_alpha c)) p)
                    (fmul (estimate_ewma_alpha c) o)).

Definition learn (current : PreprocessAdmission) (observed : Z) : stM L unit :=
  s ← sget;
  let l := learning s in
  let key := workload_key current in
  updated ← slift (updated_estimate l current observed);
  let sample_count := default 0 (dget (calibration_samples_by_workload l) key) + 1 in
  smod (set_learning (mk_Learning (dset (estimated_mb_by_workload l) key updated)
    (dset (calibration_samples_by_workload l) key sample_count)
    (if calibration_samples_required c <=? sample_count then calibrated_workloads l ∪ {[ key ]}
     else calibrated_workloads l))).

(** The allocation a release learns from: the one reported, or the drop of the
    free memory while the request was alone. *)
Definition observed_allocation (g : Gate) (current : PreprocessAdmission) (id : string)
    (reported : option Z) : option Z :=
  match reported with
  | Some _ => reported
  | None =>
      if bool_decide (id ∈ overlapped_request_ids g) then None
      else match free_memory_before_mb current, dget (minimum_free_mb_by_request g) id with
           | Some before, Some minimum => Some (Z.max 0 (before - minimum))
           | _, _ => None
           end
  end.

Definition release (a : PreprocessAdmission) (reported : option Z) (success memory_pressure : bool)
    (raw : option Z) (gpu : option (option float)) (now : float) : stM L unit :=
  λ s,
    let id := request_id a in
    match dget (admissions (gate s)) id with
    | None => (Ok tt, s)
    | Some current =>
        (_ ← smod (set_gate (gate_remove current id (gate s)));
         _ ← match observed_allocation (gate s) current id reported with
             | Some observed =>
                 if success && negb memory_pressure
                    && negb (bool_decide (id ∈ overlapped_request_ids (gate s)))
                 then learn current observed else mret tt
             | None => mret tt
             end;
         update_limit_after_release current success memory_pressure raw gpu now) s
    end.

(** ** The other operations *)
Definition note_backpressure (s : L) : L :=
  set_pacing (mk_Pacing (effective_limit (pacing s)) (healthy_completions (pacing s))
    (memory_pressure_active (pacing s)) true (next_scale_up_at (pacing s))) s.

Definition sample_active_memory (id : string) (raw : option Z) (s : L) : L :=
  if dmem (admissions (gate s)) id then
    let s1 := (sample_free_memory raw s).2 in
    match Z.max 0 <$> raw with
    | None => s1
    | Some free =>
        let g := gate s1 in
        let previous := default free (dget (minimum_free_mb_by_request g) id) in
        set_gate (mk_Gate (active g) (pending_reserved_mb g) (admissions g)
          (dset (minimum_free_mb_by_request g) id (Z.min previous free)) (overlapped_request_ids g)) s1
    end
  else s.

Definition can_accept (workload : string) (payload : Z) (raw : option Z) : stM L bool :=
  if String.eqb workload "" || (payload <? 1) then mret false
  else r ← policy_decision workload payload false raw; mret r.1.1.

Definition queue_capacity (s : L) : Z := if shadow_mode c then 1 else effective_limit (pacing s).

(** ** Concurrent calls

    A call of [acquire] polls until it ends; an exception or a cancellation
    leaves the queue in a separate step, since it has to take the condition
    again, and a second cancellation there abandons the step. *)
Inductive phase :=
  | Polling (rq : request) (is_queued : bool)
  | Leaving
  | Ended (abandoned : bool).

Inductive event :=
  | Other
  | Entered (a : PreprocessAdmission) (free : option Z)
  | Released (success memory_pressure : bool).

Definition sys : Type := L * list phase.

Definition after_poll (r : result (option PreprocessAdmission)) (rq : request) (is_queued : bool) : phase :=
  match r with
  | Ok (Some _) => Ended false
  | Ok None => Polling rq is_queued
  | Exn _ => if is_queued then Leaving else Ended false
  end.

Inductive step : sys → event → sys → Prop :=
  | step_start s ps id workload payload started_at loop_now rq :
      acquire_start id workload payload started_at loop_now = Ok rq →
      step (s, ps) Other (s, ps ++ [Polling rq false])
  | step_poll s ps i rq q raw now loop_now r s' q' :
      ps !! i = Some (Polling rq q) →
      poll rq raw now loop_now (s, q) = (r, (s', q')) →
      step (s, ps) (match r with Ok (Some a) => Entered a (Z.max 0 <$> raw) | _ => Other end)
        (s', <[i := after_poll r rq q']> ps)
  | step_cancel s ps i rq q :
      ps !! i = Some (Polling rq q) →
      step (s, ps) Other (s, <[i := if q : bool then Leaving else Ended false]> ps)
  | step_leave s ps i :
      ps !! i = Some Leaving → step (s, ps) Other (leave_queue s, <[i := Ended false]> ps)
  | step_abandon s ps i :
      ps !! i = Some Leaving → step (s, ps) Other (s, <[i := Ended true]> ps)
  | step_release s ps a reported success memory_pressure raw gpu now :
      step (s, ps) (Released success memory_pressure)
        ((release a reported success memory_pressure raw gpu now s).2, ps)
  | step_note s ps : step (s, ps) Other (note_backpressure s, ps)
  | step_sample s ps id raw : step (s, ps) Other (sample_active_memory id raw s, ps)
  | step_can_accept s ps workload payload raw :
      step (s, ps) Other ((can_accept workload payload raw s).2, ps).

(** A run with its events, in order. *)
Inductive run : sys → list event → sys → Prop :=
  | run_nil st : run st [] st
  | run_snoc st evs st1 ev st2 : run st evs st1 → step st1 ev st2 → run st (evs ++ [ev]) st2.

Definition initial (now : float) : sys := (new_Limiter now, []).

Definition set_effective_limit_for_test (value : Z) : stM L unit :=
  if (min_workers c <=? value) && (value <=? max_workers c) then
    smod (λ s, set_pacing (mk_Pacing value (healthy_completions (pacing s))
      (memory_pressure_active (pacing s)) (backpressure_observed (pacing s))
      (next_scale_up_at (pacing s))) s)
  else sraise ValueError.
End limiter.

(** ** Sums over lists and dicts *)
Definition total (l : list Z) : Z := foldr Z.add 0 l.

Lemma total_cons x l : total (x :: l) = x + total l.
Proof. done. Qed.

Lemma total_app l1 l2 : total (l1 ++ l2) = total l1 + total l2.
Proof. induction l1 as [|x l1 IH]; simpl; [done|]. lia. Qed.

Lemma total_insert l i x y : l !! i = Some x → total (<[i := y]> l) = total l - x + y.
Proof.
  revert i. induction l as [|z l IH]; intros [|i]; simpl; [done|done|intros [= ->]; lia|].
  intros H. rewrite IH by done. lia.
Qed.

Lemma total_nonneg l : Forall (Z.le 0) l → 0 <= total l.
Proof. induction 1; simpl; lia. Qed.

(** The memory reserved by the requests inside. *)
Definition reserved (d : dict string PreprocessAdmission) : Z := total (estimated_mb <$> dvals d).

Lemma reserved_fresh d a :
  dget d (request_id a) = None → reserved (dset d (request_id a) a) = reserved d + estimated_mb a.
Proof.
  intros H. rewrite dset_fresh by (by apply dget_None). unfold reserved, dvals.
  rewrite !fmap_app, total_app. simpl. lia.
Qed.

Lemma reserved_ddel d id a :
  dict_wf d → dget d id = Some a → reserved (ddel d id) = reserved d - estimated_mb a ∧
  Z.of_nat (length (ddel d id)) = Z.of_nat (length d) - 1.
Proof.
  unfold reserved, dvals, dict_wf, dkeys, ddel. induction d as [|[k v] d IH]; [done|].
  rewrite !fmap_cons, total_cons, NoDup_cons. intros [Hk Hwf]. simpl dget. rewrite filter_cons. simpl in Hk |- *.
  destruct (decide (k = id)) as [->|Hne].
  - rewrite decide_True by done. intros [= ->]. rewrite decide_False by naive_solver. rewrite list_filter_all; [split; simpl; lia|].
    intros [k' v'] Hin Heq. simpl in *. subst. apply Hk. apply list_elem_of_fmap. by exists (id, v').
  - rewrite decide_False by done. intros H. rewrite decide_True by done. destruct (IH Hwf H) as [E1 E2].
    rewrite !fmap_cons, total_cons, E1. split; simpl; lia.
Qed.

(** ** The parts of the invariant *)
Record gate_inv (g : Gate) : Prop := {
  gi_wf : dict_wf (admissions g);
  gi_active : active g = Z.of_nat (length (admissions g));
  gi_reserved : pending_reserved_mb g = reserved (admissions g);
  gi_ids : ∀ id a, dget (admissions g) id = Some a → request_id a = id ∧ 0 <= estimated_mb a;
  gi_overlap : 2 <= active g → ∀ id, id ∈ dkeys (admissions g) → id ∈ overlapped_request_ids g;
}.

Lemma gate_admit_inv a g :
  gate_inv g → dget (admissions g) (request_id a) = None → 0 <= estimated_mb a →
  gate_inv (gate_admit a g).
Proof.
  intros [Hwf Ha Hr Hi Ho] Hn He. split; simpl.
  - by apply dict_wf_dset.
  - rewrite dset_fresh by (by apply dget_None). rewrite length_app. simpl. lia.
  - by rewrite reserved_fresh, Hr.
  - intros id a'. rewrite dget_dset. case_decide; [|apply Hi]. intros [= <-]. by subst.
  - intros H2 id Hid. destruct (Z.eqb_spec (active g) 0) as [E|E]; [lia|].
    apply dkeys_dset_elem in Hid as [->|Hid]; [set_solver|].
    apply elem_of_union_l, elem_of_union_r, elem_of_list_to_set, Hid.
Qed.

Lemma dget_elem_reserved d id a :
  dict_wf d → dget d id = Some a → (∀ id a, dget d id = Some a → 0 <= estimated_mb a) →
  0 <= reserved (ddel d id).
Proof.
  intros Hwf Ha H. apply total_nonneg. apply Forall_fmap, Forall_forall. intros a' Hin.
  unfold dvals in Hin. apply list_elem_of_fmap in Hin as ([k v] & -> & Hin). simpl.
  apply list_elem_of_filter in Hin as [_ Hin]. apply (H k). by apply elem_dget.
Qed.

Lemma gate_remove_inv a id g :
  gate_inv g → dget (admissions g) id = Some a → gate_inv (gate_remove a id g).
Proof.
  intros [Hwf Ha Hr Hi Ho] Hg. destruct (reserved_ddel _ _ _ Hwf Hg) as [E1 E2].
  assert (0 <= reserved (ddel (admissions g) id)) by (eapply dget_elem_reserved; [done..|naive_solver]).
  split; simpl.
  - by apply dict_wf_ddel.
  - lia.
  - lia.
  - intros id' a'. rewrite dget_ddel. case_decide; [done|]. apply Hi.
  - intros H2 id' [Hne Hid]%dkeys_ddel_elem. apply elem_of_difference. split; [|set_solver].
    apply Ho; [lia|done].
Qed.

Lemma reject_Ok b (m : result unit) : (_ ← reject b; m) = Ok tt ↔ b = false ∧ m = Ok tt.
Proof. destruct b; naive_solver. Qed.

(** ** The invariant *)
Section invariant.
  Context (c : AdaptivePreprocessConfig) (Hc : post_init c = Ok tt).
  Context (Hmax : max_workers c < 2 ^ 53).
  Context (Halpha : valid_binary prec emax (estimate_ewma_alpha c) = true).

Lemma post_init_bounds :
  1 <= min_workers c <= max_workers c ∧ 1 <= healthy_completions_for_increase c ∧
  0 <= gpu_headroom_mb c ∧ 1 <= initial_estimated_request_mb c.
Proof. unfold post_init in Hc. rewrite !reject_Ok in Hc. destruct_and!. bool_lia. Qed.

Lemma post_init_floats :
  fnonneg (estimate_safety_factor c) ∧ fnonneg (estimate_ewma_alpha c) ∧
  fnonneg (fsub (Z2f 1) (estimate_ewma_alpha c)).
Proof.
  unfold post_init in Hc. rewrite !reject_Ok in Hc. destruct_and!.
  match goal with H : negb (_ && fle _ (Z2f 1)) = false |- _ =>
    apply negb_false_iff, andb_prop in H as [Hpos Hle] end.
  split_and!; [by apply not_below_one_nonneg| |by apply one_minus_nonneg].
  by destruct (estimate_ewma_alpha c) as [|[]| |[] m e].
Qed.

Definition pacing_inv (p : Pacing) : Prop :=
  min_workers c <= effective_limit p <= max_workers c ∧ 0 <= healthy_completions p.

Definition learning_inv (l : Learning) : Prop :=
  (∀ w v, dget (estimated_mb_by_workload l) w = Some v → 0 <= v) ∧
  ∀ w, w ∈ calibrated_workloads l →
    ∃ n, dget (calibration_samples_by_workload l) w = Some n ∧ calibration_samples_required c <= n.

Record limiter_inv (s : L) : Prop := {
  li_gate : gate_inv (gate s);
  li_pacing : pacing_inv (pacing s);
  li_learning : learning_inv (learning s);
  li_enforced : shadow_mode c = false → active (gate s) <= max_workers c;
  li_peak : active (gate s) <= observed_peak_active (counters s);
}.

(** Estimates are never negative. *)
Lemma request_estimate_nonneg s w payload n :
  learning_inv (learning s) → request_estimate c s w payload = Ok n → 0 <= n.
Proof.
  intros [Hl _] H. unfold request_estimate in H. apply result_bind_Ok in H as (b & Hb & H).
  eapply math_ceil_nonneg, H. apply fmul_nonneg; [|apply post_init_floats].
  eapply float_of_int_nonneg, Hb. destruct (dget _ w) eqn:E; [by eapply Hl|].
  pose proof post_init_bounds. lia.
Qed.

Lemma updated_estimate_nonneg l a observed n :
  learning_inv l → updated_estimate c l a observed = Ok n → 0 <= n.
Proof.
  intros [Hl _]. unfold updated_estimate. pose proof post_init_bounds.
  set (floor := Z.max _ (payload_mb a)). case_match; [intros [= <-]; lia|].
  intros (p & Hp & (o & Ho & Hn)%result_bind_Ok)%result_bind_Ok.
  eapply math_ceil_nonneg, Hn. destruct post_init_floats as (_ & H1 & H2).
  apply fadd_nonneg; apply fmul_nonneg; try done.
  - eapply float_of_int_nonneg, Hp. destruct (dget _ (workload_key a)) eqn:E; [by eapply Hl|simpl; lia].
  - eapply float_of_int_nonneg, Ho. lia.
Qed.

(** ** The policy *)
Lemma policy_decision_spec w payload rc raw s :
  policy_decision c w payload rc raw s =
    match request_estimate c s w payload with
    | Exn e => (Exn e, s)
    | Ok n =>
        (Ok ((active (gate s) <? effective_limit (pacing s))
             && (negb rc || bool_decide (w ∈ calibrated_workloads (learning s)) || (active (gate s) =? 0))
             && memory_available c s n (Z.max 0 <$> raw), n, Z.max 0 <$> raw),
         set_last_free (Z.max 0 <$> raw) s)
    end.
Proof.
  unfold policy_decision, mbind, stM_bind, slift, sget, sample_free_memory.
  by destruct (request_estimate c s w payload).
Qed.

(** ** The pacing

    Twice the number of successful releases a limit is worth: the completions
    counted for the next increase, and those the earlier increases took. *)
Definition potential (p : Pacing) : Z :=
  2 * healthy_completions p
  + healthy_completions_for_increase c * (effective_limit p * (effective_limit p - 1)).

Lemma record_memory_pressure_spec force now s :
  pacing_inv (pacing s) →
  record_memory_pressure c force now s =
    if memory_pressure_active (pacing s) && negb force then (Ok tt, s)
    else (Ok tt, set_counters (count_pressure (counters s))
           (set_pacing (mk_Pacing (Z.max (min_workers c) ((effective_limit (pacing s) + 1) / 2)) 0 true false
             (fadd now (scale_up_cooldown_seconds c))) s)).
Proof.
  intros [Hl _]. pose proof post_init_bounds.
  unfold record_memory_pressure, mbind, stM_bind, sget. case_match; [done|].
  unfold slift. by rewrite ceil_half by lia.
Qed.

Lemma halved_limit p next :
  pacing_inv p →
  let p' := mk_Pacing (Z.max (min_workers c) ((effective_limit p + 1) / 2)) 0 true false next in
  pacing_inv p' ∧ effective_limit p' <= effective_limit p ∧ potential p' <= potential p.
Proof.
  intros [Hl Hh] p'. pose proof post_init_bounds.
  assert ((effective_limit p + 1) / 2 <= effective_limit p) by (apply Z.div_le_upper_bound; lia).
  unfold pacing_inv, potential, p'. simpl. split_and!; [lia..|].
  set (l := Z.max _ _). assert (1 <= l <= effective_limit p) by lia.
  assert (l * (l - 1) <= effective_limit p * (effective_limit p - 1)) by nia. nia.
Qed.

(** A change that leaves who is inside and what was learned alone. *)
Definition same_work (s s' : L) : Prop :=
  gate s' = gate s ∧ learning s' = learning s ∧ queued s' = queued s ∧
  observed_peak_active (counters s') = observed_peak_active (counters s).

Lemma headroom_spec gpu s :
  ∃ b s', has_scale_up_gpu_headroom c gpu s = (Ok b, s') ∧ (s' = s ∨ ∃ v, s' = set_last_utilization v s).
Proof.
  unfold has_scale_up_gpu_headroom, mbind, stM_bind, smod.
  destruct gpu as [[u|]|]; [destruct (isfinite u)|..]; eauto 10.
Qed.

(** What has to hold for a release at [now] to raise the limit. *)
Definition may_raise (a : PreprocessAdmission) (success memory_pressure : bool) (raw : option Z)
    (now : float) (s : L) : Prop :=
  let p := pacing s in
  success = true ∧ memory_pressure = false ∧ memory_pressure_active p = false ∧
  backpressure_observed p = true ∧ effective_limit p < max_workers c ∧
  flt now (next_scale_up_at p) = false ∧
  healthy_completions_for_increase c * effective_limit p <= healthy_completions p + 1 ∧
  memory_available c s (2 * estimated_mb a) (Z.max 0 <$> raw) = true.

Definition raised (now : float) (p : Pacing) : Pacing :=
  mk_Pacing (effective_limit p + 1) 0 false false (fadd now (scale_up_cooldown_seconds c)).

Lemma update_limit_spec a success memory_pressure raw gpu now s :
  pacing_inv (pacing s) →
  ∃ s', update_limit_after_release c a success memory_pressure raw gpu now s = (Ok tt, s') ∧
    same_work s s' ∧ pacing_inv (pacing s') ∧
    potential (pacing s') <= potential (pacing s) + (if success && negb memory_pressure then 2 else 0) ∧
    (effective_limit (pacing s') <= effective_limit (pacing s) ∨
     may_raise a success memory_pressure raw now s ∧ pacing s' = raised now (pacing s)).
Proof.
  intros Hp. pose proof post_init_bounds as Hb. unfold update_limit_after_release.
  destruct memory_pressure.
  { rewrite record_memory_pressure_spec by done. rewrite andb_false_r.
    destruct (halved_limit (pacing s) (fadd now (scale_up_cooldown_seconds c)) Hp) as (? & ? & ?).
    eexists. split; [done|]. simpl. rewrite andb_false_r. split_and!; [done..|lia|by left]. }
  destruct Hp as [Hl Hh]. unfold mbind, stM_bind, sget, smod.
  destruct success; simpl negb.
  2:{ eexists. split; [done|]. unfold pacing_inv, potential. simpl. split_and!; [done|lia..|left; lia]. }
  destruct (memory_pressure_active (pacing s)) eqn:Epr.
  { unfold has_scale_up_memory_margin, mbind, stM_bind, sample_free_memory, sget, mret, stM_ret.
    repeat case_match; simplify_eq; eexists; (split; [done|]); bool_lia;
      unfold pacing_inv, potential; simpl; split_and!; try done; try lia; left; lia. }
  destruct (negb (backpressure_observed (pacing s)) || _) eqn:Ebp.
  { eexists. split; [done|]. unfold pacing_inv, potential. simpl. split_and!; [done|lia..|left; lia]. }
  apply orb_false_iff in Ebp as [Ebp%negb_false_iff Elim%Z.leb_gt].
  destruct ((_ <? _) || _) eqn:Eh.
  { eexists. split; [done|]. unfold pacing_inv, potential. simpl. split_and!; [done|lia..|left; simpl; lia]. }
  apply orb_false_iff in Eh as [Eh%Z.ltb_ge Ecool].
  unfold has_scale_up_memory_margin, mbind, stM_bind, sample_free_memory, sget, mret, stM_ret.
  simpl. set (s1 := set_pacing (set_healthy (healthy_completions (pacing s) + 1) (pacing s)) s).
  set (s2 := set_last_free (Z.max 0 <$> raw) s1).
  destruct (memory_available c s2 (2 * estimated_mb a) (Z.max 0 <$> raw)) eqn:Em; simpl.
  - destruct (headroom_spec gpu s2) as (b & s3 & -> & Hs3).
    assert (same_work s2 s3) as Hw by (by destruct Hs3 as [->|[? ->]]).
    destruct b; (eexists; split; [done|]); unfold pacing_inv, potential; simpl.
    + split_and!; [done|lia|lia|lia|nia|]. right. by split.
    + split_and!; [done|lia|lia|lia|nia|]. left. lia.
  - eexists; split; [done|]; unfold pacing_inv, potential; simpl. split_and!; [done|lia..|left; lia].
Qed.

(** ** Learning *)
Lemma learn_inv a observed s :
  limiter_inv s → limiter_inv (learn c a observed s).2 ∧
  pacing (learn c a observed s).2 = pacing s ∧ queued (learn c a observed s).2 = queued s ∧
  gate (learn c a observed s).2 = gate s.
Proof.
  intros Hs. unfold learn, mbind, stM_bind, sget, slift, smod.
  destruct (updated_estimate _ _ _ _) as [n|e] eqn:E; [|done]. simpl.
  apply updated_estimate_nonneg in E; [|apply Hs].
  split; [|done]. destruct Hs as [Hg Hp [Hl Hk] He Hpk]. split; [done|done| |done|done]. split; simpl.
  - intros w v. rewrite dget_dset. case_decide; [by intros [= <-]|apply Hl].
  - intros w Hw. rewrite dget_dset. case_decide as Hkey.
    + subst. eexists. split; [done|]. case_match; bool_lia.
      destruct (Hk _ Hw) as (n' & -> & Hn'). simpl. lia.
    + apply Hk. case_match; set_solver.
Qed.

Lemma gate_remove_limiter_inv s a id :
  limiter_inv s → dget (admissions (gate s)) id = Some a →
  limiter_inv (set_gate (gate_remove a id (gate s)) s).
Proof.
  intros [Hg Hp Hl He Hpk] Ha. split; simpl; [by apply gate_remove_inv|done|done|..].
  - intros H. specialize (He H). lia.
  - lia.
Qed.

Lemma same_work_inv s s' : limiter_inv s → same_work s s' → pacing_inv (pacing s') → limiter_inv s'.
Proof. intros [Hg Hp Hl He Hpk] (E1 & E2 & E3 & E4) Hp'. split; rewrite ?E1, ?E2, ?E4; done. Qed.

(** A release keeps the invariant, whether it returns or raises, and it raises
    the limit only by one and only when it may. *)
Lemma release_spec a reported success memory_pressure raw gpu now s :
  limiter_inv s →
  let s' := (release c a reported success memory_pressure raw gpu now s).2 in
  limiter_inv s' ∧ queued s' = queued s ∧
  potential (pacing s') <= potential (pacing s) + (if success && negb memory_pressure then 2 else 0) ∧
  (effective_limit (pacing s') <= effective_limit (pacing s) ∨
   ∃ current s1, dget (admissions (gate s)) (request_id a) = Some current ∧
     gate s1 = gate_remove current (request_id a) (gate s) ∧ pacing s1 = pacing s ∧
     may_raise current success memory_pressure raw now s1 ∧ pacing s' = raised now (pacing s)).
Proof.
  intros Hs. unfold release.
  destruct (dget (admissions (gate s)) (request_id a)) as [current|] eqn:E.
  2:{ simpl. split_and!; [done|done|case_match; lia|left; lia]. }
  set (m := match observed_allocation _ _ _ _ with Some _ => _ | None => _ end).
  unfold mbind, stM_bind, smod. set (s1 := set_gate _ s).
  assert (limiter_inv s1) as Hs1 by (by apply gate_remove_limiter_inv).
  assert (limiter_inv (m s1).2 ∧ pacing (m s1).2 = pacing s ∧ queued (m s1).2 = queued s ∧
          gate (m s1).2 = gate s1) as (Hs2 & Ep & Eq & Eg).
  { unfold m. destruct (observed_allocation _ _ _ _); [case_match|]; [|done..].
    by apply (learn_inv current z s1). }
  destruct (m s1) as [[[]|e] s2]; simpl in Hs2, Ep, Eq, Eg |- *.
  2:{ rewrite Ep. split_and!; [done|done|case_match; lia|left; lia]. }
  destruct (update_limit_spec current success memory_pressure raw gpu now s2) as
    (s3 & -> & Hw & Hp3 & Hpot & Hlim); [apply Hs2|]. simpl. rewrite Ep in Hpot, Hlim.
  split_and!; [by eapply same_work_inv|destruct Hw as (_ & _ & -> & _); done|done|].
  destruct Hlim as [?|[Hm Hr]]; [by left|]. right. exists current, s2.
  split_and!; done.
Qed.

(** ** Polling *)

(** What an admission was checked against. *)
Definition admitted_by (s : L) (rq : request) (a : PreprocessAdmission) (free : option Z) (s' : L) : Prop :=
  request_id a = rq_id rq ∧ workload_key a = rq_workload rq ∧ free_memory_before_mb a = free ∧
  gate s' = gate_admit a (gate s) ∧ pacing s' = pacing s ∧ learning s' = learning s ∧
  dget (admissions (gate s)) (request_id a) = None ∧ 0 <= estimated_mb a ∧
  (shadow_mode c = false →
   active (gate s) < effective_limit (pacing s) ∧
   (rq_workload rq ∈ calibrated_workloads (learning s) ∨ active (gate s) = 0) ∧
   memory_available c s (estimated_mb a) free = true).

Lemma admit_inv s rq a free s' :
  limiter_inv s → admitted_by s rq a free s' →
  active (gate s) + 1 <= observed_peak_active (counters s') → limiter_inv s'.
Proof.
  intros [Hg Hp Hl He Hpk] (_ & _ & _ & Eg & Ep & El & Hn & Hest & Hadm) Hpeak.
  split; rewrite ?Eg, ?Ep, ?El; [by apply gate_admit_inv|done|done|..]; simpl; [|lia].
  intros H. destruct (Hadm H) as [Hlt _]. destruct Hp as [Hp _]. lia.
Qed.

Lemma attempt_spec rq raw now s q r s' q' :
  limiter_inv s → attempt c rq raw now (s, q) = (r, (s', q')) →
  limiter_inv s' ∧ queued s' - Z.b2z q' = queued s - Z.b2z q ∧
  effective_limit (pacing s') <= effective_limit (pacing s) ∧
  potential (pacing s') <= potential (pacing s) ∧
  match r with
  | Ok (Some a) => q' = false ∧ admitted_by s rq a (Z.max 0 <$> raw) s'
  | Ok None => q' = true
  | Exn _ => q' = q
  end.
Proof.
  intros Hs. unfold attempt, dmem. destruct (dget (admissions (gate s)) (rq_id rq)) eqn:Ed.
  { intros [= <- <- <-]. split_and!; done. }
  rewrite policy_decision_spec.
  destruct (request_estimate c s (rq_workload rq) (rq_payload rq)) as [n|e] eqn:En.
  2:{ intros [= <- <- <-]. split_and!; done. }
  apply request_estimate_nonneg in En; [|apply Hs].
  set (free := Z.max 0 <$> raw). set (would := _ && _ && _).
  destruct (shadow_mode c || would) eqn:Ew.
  - destruct (admit_call c rq would n free now _) as [a s3] eqn:Ea. intros [= <- <- <-].
    assert (admitted_by s rq a free s3 ∧ active (gate s) + 1 <= observed_peak_active (counters s3) ∧
      queued s3 = queued s - Z.b2z q) as (Hadm & Hpk & Hq).
    { unfold admit_call in Ea. destruct q; injection Ea as <- <-; simpl; (split; [|split; [lia|simpl; lia]]);
        (unfold admitted_by; simpl; split_and!; try done); intros Hsh; rewrite Hsh in Ew;
        unfold would in Ew; simpl in Ew; apply andb_prop in Ew as [[Ew1%Z.ltb_lt Ew2]%andb_prop Ew3];
        (split_and!; [done| |done]);
        (apply orb_prop in Ew2 as [Ew2%bool_decide_eq_true|Ew2%Z.eqb_eq]; auto). }
    split_and!; [by eapply admit_inv|simpl; lia|..|done|done];
      destruct Hadm as (_ & _ & _ & _ & -> & _); done.
  - set (s2 := set_counters _ _). assert (limiter_inv s2) as Hs2 by (by destruct Hs).
    destruct (memory_available c s2 n free).
    + simpl. intros [= <- <- <-]. split_and!; [|by destruct q; simpl; lia|by destruct q..|done].
      destruct q; [done|by destruct Hs].
    + rewrite record_memory_pressure_spec by apply Hs.
      destruct (halved_limit (pacing s) (fadd now (scale_up_cooldown_seconds c)) (li_pacing _ Hs)) as (H1 & H2 & H3).
      simpl in H2. destruct (memory_pressure_active (pacing s2) && negb false); simpl.
      * intros [= <- <- <-]. split_and!; [|by destruct q; simpl; lia|by destruct q..|done].
        destruct q; [done|by destruct Hs].
      * simpl. intros [= <- <- <-]. split_and!; [|by destruct q; simpl; lia|destruct q; simpl; lia|by destruct q|done].
        destruct q; [by destruct Hs|by destruct Hs].
Qed.

Lemma poll_spec rq raw now loop_now s q r s' q' :
  limiter_inv s → poll c rq raw now loop_now (s, q) = (r, (s', q')) →
  limiter_inv s' ∧ queued s' - Z.b2z q' = queued s - Z.b2z q ∧
  effective_limit (pacing s') <= effective_limit (pacing s) ∧
  potential (pacing s') <= potential (pacing s) ∧
  match r with
  | Ok (Some a) => q' = false ∧ admitted_by s rq a (Z.max 0 <$> raw) s'
  | _ => True
  end.
Proof.
  intros Hs. unfold poll, mbind, stM_bind, smod, sraise.
  destruct (attempt c rq raw now (s, q)) as [r1 [s1 q1]] eqn:Ea.
  destruct (attempt_spec _ _ _ _ _ _ _ _ Hs Ea) as (H1 & H2 & H3 & H4 & H5).
  destruct r1 as [[a|]|e]; [by intros [= <- <- <-]| |by intros [= <- <- <-]]. subst.
  case_match; [|by intros [= <- <- <-]]. intros [= <- <- <-]. simpl in *.
  split_and!; [by destruct H1|lia|done..].
Qed.

(** ** The system *)
Definition waiting (p : phase) : Z :=
  match p with Polling _ q => Z.b2z q | Leaving => 1 | Ended abandoned => Z.b2z abandoned end.

Definition sys_inv (st : sys) : Prop :=
  limiter_inv st.1 ∧ queued st.1 = total (waiting <$> st.2).

Lemma waiting_insert ps i p p' :
  ps !! i = Some p → total (waiting <$> <[i := p']> ps) = total (waiting <$> ps) - waiting p + waiting p'.
Proof. intros H. rewrite list_fmap_insert. apply total_insert. by rewrite list_lookup_fmap, H. Qed.

Lemma initial_inv now : sys_inv (initial c now).
Proof.
  pose proof post_init_bounds. split; [|done]. split; simpl; [|split; simpl; lia| |lia|lia].
  - split; simpl; [apply dict_wf_nil|done|done|done|lia].
  - split; [done|]. simpl. set_solver.
Qed.

Lemma step_inv st ev st' :
  sys_inv st → step c st ev st' →
  sys_inv st' ∧
  potential (pacing st'.1) <= potential (pacing st.1)
    + match ev with Released true false => 2 | _ => 0 end.
Proof.
  intros [Hs Hq] Hstep. destruct Hstep; simpl in Hs, Hq |- *; unfold sys_inv; simpl.
  - split; [|lia]. split; [done|]. rewrite fmap_app, total_app. simpl. lia.
  - destruct (poll_spec _ _ _ _ _ _ _ _ _ Hs H0) as (H1 & H2 & _ & H3 & H4). split.
    + split; [done|]. rewrite (waiting_insert _ _ _ _ H). simpl.
      destruct r as [[a|]|e]; simpl; [destruct H4 as [-> _]; simpl in *; lia|lia|destruct q'; simpl in *; lia].
    + destruct r as [[]|]; simpl; lia.
  - split; [|lia]. split; [done|]. rewrite (waiting_insert _ _ _ _ H). destruct q; simpl; lia.
  - split; [|lia]. split; [by destruct Hs|]. rewrite (waiting_insert _ _ _ _ H). simpl. lia.
  - split; [|lia]. split; [done|]. rewrite (waiting_insert _ _ _ _ H). simpl. lia.
  - destruct (release_spec a reported success memory_pressure raw gpu now s Hs) as (H1 & H2 & H3 & _).
    split; [split; [done|lia]|]. by destruct success, memory_pressure.
  - split; [|unfold potential; simpl; lia]. split; [by destruct Hs|done].
  - unfold sample_active_memory. destruct (dmem _ _); [|split; [done|lia]].
    destruct (Z.max 0 <$> raw); simpl; (split; [|lia]); (split; [|done]);
      by destruct Hs as [[] ? ? ? ?]; split; [split|..].
  - assert (∃ r v, can_accept c workload payload raw s = (r, s) ∨
                   can_accept c workload payload raw s = (r, set_last_free v s)) as (r & v & [E|E]).
    { unfold can_accept. case_match; [by exists (Ok false), None; left|]. unfold mbind, stM_bind.
      rewrite policy_decision_spec.
      destruct (request_estimate c s workload payload) as [n|e]; [by eexists _, _; right|by exists (Exn e), None; left]. }
    all: rewrite E; simpl; (split; [|lia]); (split; [by destruct Hs|done]).
Qed.

Lemma run_preserves st evs st' : sys_inv st → run c st evs st' → sys_inv st'.
Proof.
  intros Hi. induction 1 as [|st evs st1 ev st2 Hr IH Hs]; [done|].
  by apply (step_inv st1 ev st2 (IH Hi)).
Qed.

(** The releases of a run that count for raising the limit. *)
Definition successes (evs : list event) : Z :=
  total ((λ ev, match ev with Released true false => 1 | _ => 0 end) <$> evs).

Lemma run_potential st evs st' :
  sys_inv st → run c st evs st' →
  potential (pacing st'.1) <= potential (pacing st.1) + 2 * successes evs.
Proof.
  intros Hi. induction 1 as [|st evs st1 ev st2 Hr IH Hs]; [unfold successes; simpl; lia|].
  pose proof (run_preserves _ _ _ Hi Hr) as Hi1.
  destruct (step_inv _ _ _ Hi1 Hs) as [_ Hp]. specialize (IH Hi).
  unfold successes in *. rewrite fmap_app, total_app. simpl.
  destruct ev as [| |[] []]; simpl; lia.
Qed.

(** ** A call ends *)

(** The changes of others keep the invariant and their own places in the queue. *)
Definition fair_turn (t : turn) : Prop :=
  ∀ s, limiter_inv s → limiter_inv (tn_before t s) ∧ queued (tn_before t s) = queued s.

Definition expired_turn (rq : request) (t : turn) : Prop :=
  fle (fsub (rq_deadline rq) (tn_loop_now t)) f0 = true.

Lemma acquire_loop_ends rq turns s q :
  Forall fair_turn turns → Exists (expired_turn rq) turns → limiter_inv s →
  ∃ r s', acquire_loop c rq turns s q = Some (r, s') ∧ limiter_inv s' ∧ queued s' = queued s - Z.b2z q.
Proof.
  intros Hf He. revert s q. induction Hf as [|t turns Ht Hf IH]; intros s q Hs; [by inversion He|].
  simpl. destruct (Ht s Hs) as [Hb Hq].
  destruct (poll c rq _ _ _ (tn_before t s, q)) as [r [s' q']] eqn:E.
  destruct (poll_spec _ _ _ _ _ _ _ _ _ Hb E) as (H1 & H2 & _ & _ & H3).
  destruct r as [[a|]|e].
  - destruct H3 as [-> _]. simpl in H2. exists (Ok a), s'. split_and!; [done|done|lia].
  - apply Exists_cons in He as [Hx|Hx].
    + exfalso. revert E. unfold poll, mbind, stM_bind.
      destruct (attempt _ _ _ _ _) as [[[]|] []]; [done| |done]. unfold expired_turn in Hx. by rewrite Hx.
    + destruct (IH Hx s' q' H1) as (r & s2 & E2 & H4 & H5). exists r, s2. split_and!; [done..|lia].
  - exists (Exn e), (if q' then leave_queue s' else s').
    split; [done|]. destruct q'; simpl in *; (split; [by destruct H1|lia]).
Qed.
End invariant.

(** A configuration the constructor accepts, with a canonical float and a
    worker count floats can halve exactly. *)
Definition config_ok (c : AdaptivePreprocessConfig) : Prop :=
  post_init c = Ok tt ∧ max_workers c < 2 ^ 53 ∧
  valid_binary prec emax (estimate_ewma_alpha c) = true.

(** C11. Whatever calls of the limiter interleave, cancellations and exceptions
    included: the active count is the number of admissions, the reserved memory
    is the sum of their estimates, the limit stays in the configured range, the
    queue count is the number of calls that queue or were abandoned on their way
    out, in enforcing mode there are never more active requests than workers,
    and of two concurrent requests each is marked as overlapped. *)
Theorem limiter_invariant c now evs s ps :
  config_ok c → run c (initial c now) evs (s, ps) →
  active (gate s) = Z.of_nat (length (admissions (gate s))) ∧
  pending_reserved_mb (gate s) = reserved (admissions (gate s)) ∧
  min_workers c <= effective_limit (pacing s) <= max_workers c ∧
  queued s = total (waiting <$> ps) ∧
  (shadow_mode c = false → active (gate s) <= max_workers c) ∧
  (2 <= active (gate s) →
   ∀ id, id ∈ dkeys (admissions (gate s)) → id ∈ overlapped_request_ids (gate s)).
Proof.
  intros (H1 & H2 & H3) Hr.
  destruct (run_preserves c H1 H2 H3 _ _ _ (initial_inv c H1 H2 H3 now) Hr) as [[Hg [Hp _] _ He _] Hq].
  destruct Hg. split_and!; try done; apply Hp.
Qed.

(** C12. An admission in enforcing mode never overcommits the free memory it
    was decided on: with it, everything reserved and the headroom fit; it is
    within the current limit; and a request is admitted beside others only if
    its own workload was measured alone at least the required number of times.
    Requests of measured workloads may still join one of a workload that was
    not ([joins_unmeasured]). *)
Theorem no_overcommit c now evs st a free st' :
  config_ok c → shadow_mode c = false →
  run c (initial c now) evs st → step c st (Entered a free) st' →
  ∃ f, free = Some f ∧
    reserved (admissions (gate st'.1)) + gpu_headroom_mb c <= f ∧
    active (gate st'.1) <= effective_limit (pacing st'.1) ∧
    (active (gate st'.1) = 1 ∨
     ∃ n, dget (calibration_samples_by_workload (learning st'.1)) (workload_key a) = Some n ∧
          calibration_samples_required c <= n).
Proof.
  intros (H1 & H2 & H3) Hsh Hr Hs.
  pose proof (run_preserves c H1 H2 H3 _ _ _ (initial_inv c H1 H2 H3 now) Hr) as [Hi _].
  inversion Hs as [|s ps i rq q raw t lt r s' q' Hps Hpoll Hst Hev Hst'| | | | | | |]; subst.
  destruct r as [[a'|]|]; [|done..]. injection Hev as -> <-.
  destruct (poll_spec c H1 H2 H3 _ _ _ _ _ _ _ _ _ Hi Hpoll) as (_ & _ & _ & _ & _ & Had).
  destruct Had as (Eid & Ekey & _ & Eg & Ep & El & Hn & _ & Hok). simpl in *.
  destruct (Hok Hsh) as (Hlt & Hcal & Hmem). unfold memory_available in Hmem.
  destruct (Z.max 0 <$> raw) as [f|]; [|done]. bool_lia. exists f. split; [done|].
  rewrite Eg, Ep, El. simpl. rewrite reserved_fresh by done.
  destruct (li_gate _ _ Hi) as [_ _ Hres _ _]. split_and!; [lia..|].
  destruct Hcal as [Hcal| ->]; [|by left]. right. rewrite Ekey. by apply (li_learning _ _ Hi).
Qed.

(** The limit grows slowly: to have come from the configured minimum to
    a limit [l], a run had at least [k * (min + ... + (l - 1))] successful
    releases without memory pressure, [k] being the configured number of healthy
    completions. *)
Theorem growth_bounded c now evs s ps :
  config_ok c → run c (initial c now) evs (s, ps) →
  let k := healthy_completions_for_increase c in
  let l := effective_limit (pacing s) in
  k * (l * (l - 1) - min_workers c * (min_workers c - 1)) <= 2 * successes evs.
Proof.
  intros (H1 & H2 & H3) Hr k l.
  pose proof (run_preserves c H1 H2 H3 _ _ _ (initial_inv c H1 H2 H3 now) Hr) as [[_ [_ Hh] _ _ _] _].
  pose proof (run_potential c H1 H2 H3 _ _ _ (initial_inv c H1 H2 H3 now) Hr) as Hp.
  unfold potential in Hp. simpl in Hp, Hh. fold k l in Hp. nia.
Qed.

(** A release raises the limit by at most one, and only if it was
    successful and without memory pressure, upstream work was waiting, pressure
    had cleared, the cooldown was over, enough completions were counted, and two
    further estimates of the request fit beside what stays reserved. *)
Theorem release_raises_carefully c a reported success memory_pressure raw gpu now s :
  config_ok c → limiter_inv c s →
  let s' := (release c a reported success memory_pressure raw gpu now s).2 in
  effective_limit (pacing s) < effective_limit (pacing s') →
  effective_limit (pacing s') = effective_limit (pacing s) + 1 ∧
  success = true ∧ memory_pressure = false ∧
  backpressure_observed (pacing s) = true ∧ memory_pressure_active (pacing s) = false ∧
  flt now (next_scale_up_at (pacing s)) = false ∧
  healthy_completions_for_increase c * effective_limit (pacing s) <= healthy_completions (pacing s) + 1 ∧
  ∃ current f, dget (admissions (gate s)) (request_id a) = Some current ∧ Z.max 0 <$> raw = Some f ∧
    reserved (ddel (admissions (gate s)) (request_id a)) + gpu_headroom_mb c
      + 2 * estimated_mb current <= f.
Proof.
  intros (H1 & H2 & H3) Hi s' Hlt.
  destruct (release_spec c H1 H2 H3 a reported success memory_pressure raw gpu now s Hi) as (_ & _ & _ & [?|Hr]).
  { unfold s' in Hlt. lia. }
  destruct Hr as (current & s1 & Hcur & Eg & Ep & Hm & Ep').
  fold s' in Ep'. destruct Hm as (-> & -> & Ha & Hb & Hc & Hd & He & Hf). rewrite Ep in *.
  rewrite Ep'. split_and!; try done. exists current.
  unfold memory_available in Hf. destruct (Z.max 0 <$> raw) as [f|]; [|done].
  exists f. split_and!; [done|done|]. bool_lia. rewrite Eg in Hf. simpl in Hf.
  pose proof (gi_reserved _ (gate_remove_inv _ _ _ (li_gate _ _ Hi) Hcur)) as E. simpl in E. lia.
Qed.

(** A call of [acquire] ends once its deadline has passed: if some turn of
    its loop reads a time past the deadline, the call has returned or raised by
    then, whatever others do in between, and its place in the queue is given back. *)
Theorem acquire_ends c rq turns s :
  config_ok c → limiter_inv c s →
  Forall (fair_turn c) turns → Exists (expired_turn rq) turns →
  ∃ r s', acquire_loop c rq turns s false = Some (r, s') ∧ queued s' = queued s.
Proof.
  intros (H1 & H2 & H3) Hi Hf He.
  destruct (acquire_loop_ends c H1 H2 H3 rq turns s false Hf He Hi) as (r & s' & E & _ & Hq).
  exists r, s'. split; [done|]. simpl in Hq. lia.
Qed.

(** ** Concrete runs *)
Definition enforcing : AdaptivePreprocessConfig := {|
  enabled := true; shadow_mode := false; min_workers := 1; max_workers := 16;
  gpu_headroom_mb := 1024; initial_estimated_request_mb := 512;
  estimate_safety_factor := lit 125 2; admission_timeout_seconds := lit 30 0;
  healthy_completions_for_increase := 3; scale_up_cooldown_seconds := lit 30 0;
  scale_up_gpu_utilization_threshold_percent := lit 90 0; calibration_samples_required := 3;
  estimate_ewma_alpha := lit 25 2; poll_interval_seconds := lit 5 2 |}.

Lemma enforcing_ok : config_ok enforcing.
Proof. split_and!; by vm_compute. Qed.

Example default_ok : post_init default_config = Ok tt.
Proof. by vm_compute. Qed.

Definition call1 : request := mk_request "r1" "video" 600 f0 (lit 30 0).
Definition admission1 : PreprocessAdmission :=
  mk_Admission "r1" "video" 600 750 (Some 8192) f0 true true true f0.

(** A call that is admitted at once with 8 GiB free, and the state after it. *)
Definition waiting1 : sys := (new_Limiter enforcing f0, [Polling call1 false]).
Definition inside1 : sys :=
  ((poll enforcing call1 (Some 8192) f0 f0 (waiting1.1, false)).2.1, [Ended false]).

Lemma run_waiting1 : run enforcing (initial enforcing f0) [Other] waiting1.
Proof.
  apply (run_snoc _ _ [] _ Other _ (run_nil _ _)).
  by apply (step_start enforcing (new_Limiter enforcing f0) [] "r1" "video" 600 f0 f0 call1).
Qed.

Lemma step_inside1 : step enforcing waiting1 (Entered admission1 (Some 8192)) inside1.
Proof.
  exact (step_poll enforcing waiting1.1 waiting1.2 0 call1 false (Some 8192) f0 f0 (Ok (Some admission1))
    inside1.1 false eq_refl eq_refl).
Qed.

Lemma run_inside1 :
  run enforcing (initial enforcing f0) [Other; Entered admission1 (Some 8192)] inside1.
Proof. exact (run_snoc _ _ [Other] _ _ _ run_waiting1 step_inside1). Qed.

Lemma limiter_invariant_witness :
  active (gate inside1.1) = 1 ∧ queued inside1.1 = total (waiting <$> inside1.2).
Proof.
  destruct (limiter_invariant enforcing f0 [Other; Entered admission1 (Some 8192)] inside1.1 inside1.2
    enforcing_ok run_inside1) as (H & _ & _ & Hq & _).
  split; [exact H|exact Hq].
Defined.

Lemma no_overcommit_witness :
  ∃ f, Some 8192 = Some f ∧ reserved (admissions (gate inside1.1)) + 1024 <= f.
Proof.
  destruct (no_overcommit enforcing f0 [Other] waiting1 admission1 (Some 8192) inside1
    enforcing_ok eq_refl run_waiting1 step_inside1) as (f & Hf & Hr & _).
  exists f. split; [exact Hf|exact Hr].
Defined.

(** A first request of a workload never measured, alone inside; one of a
    measured workload is admitted beside it. *)
Definition measured_video : Learning := mk_Learning [("video", 400)] [("video", 3)] {[ "video" ]}.
Definition unmeasured_inside : L :=
  (poll enforcing (mk_request "r0" "image" 600 f0 (lit 30 0)) (Some 8192) f0 f0
     (set_pacing (mk_Pacing 2 0 false false f0)
        (set_learning measured_video (new_Limiter enforcing f0)), false)).2.1.
Example joins_unmeasured :
  active (gate unmeasured_inside) = 1 ∧
  let '(r, (s, _)) := poll enforcing call1 (Some 8192) f0 f0 (unmeasured_inside, false) in
  (workload_key <$> match r with Ok o => o | Exn _ => None end) = Some "video" ∧
  active (gate s) = 2.
Proof. by vm_compute. Qed.

Lemma growth_bounded_witness :
  3 * (1 * (1 - 1) - 1 * (1 - 1)) <= 2 * successes [Other; Entered admission1 (Some 8192)].
Proof.
  exact (growth_bounded enforcing f0 [Other; Entered admission1 (Some 8192)] inside1.1 inside1.2
    enforcing_ok run_inside1).
Defined.

(** The request above with two completions counted and work waiting. *)
Definition about_to_grow : L :=
  mk_Limiter (mk_Gate 1 750 [("r1", admission1)] [("r1", 8192)] ∅)
    (mk_Pacing 1 2 false true f0) (mk_Learning [] [] ∅) (mk_Counters 1 0 0 0 0 1) 0 None None.

Lemma about_to_grow_inv : limiter_inv enforcing about_to_grow.
Proof.
  split; [|done|split; [done|simpl; set_solver]|done|done].
  split; [|done|done| |done]; simpl.
  - unfold dict_wf. simpl. repeat constructor. by intros ?%elem_of_nil.
  - intros id a. case_decide; [|done]. intros [= <-]. by subst.
Qed.

Lemma release_raises_carefully_witness :
  effective_limit (pacing (release enforcing admission1 None true false (Some 8192) None (lit 40 0)
    about_to_grow).2) = 2.
Proof.
  destruct (release_raises_carefully enforcing admission1 None true false (Some 8192) None (lit 40 0)
    about_to_grow enforcing_ok about_to_grow_inv) as [H _]; [by vm_compute|]. exact H.
Defined.

Definition no_memory_turns : list turn :=
  [mk_turn id None f0 f0; mk_turn id None (lit 31 0) (lit 31 0)].

Lemma acquire_ends_witness :
  ∃ r s', acquire_loop enforcing call1 no_memory_turns (new_Limiter enforcing f0) false = Some (r, s') ∧
    queued s' = 0.
Proof.
  destruct (acquire_ends enforcing call1 no_memory_turns (new_Limiter enforcing f0) enforcing_ok
    (proj1 (initial_inv enforcing (proj1 enforcing_ok) (proj1 (proj2 enforcing_ok))
              (proj2 (proj2 enforcing_ok)) f0))) as (r & s' & E & Hq).
  - constructor; [|constructor; [|constructor]]; by intros s ?.
  - right. left. by vm_compute.
  - exists r, s'. split; [exact E|exact Hq].
Defined.

(** The place of a call that is cancelled again while it leaves is not given
    back. *)
Definition starved1 : sys :=
  ((poll enforcing call1 None f0 f0 (waiting1.1, false)).2.1, [Polling call1 true]).

Lemma abandoned_stays_queued :
  ∃ evs st, run enforcing (initial enforcing f0) evs st ∧ queued st.1 = 1 ∧ st.2 = [Ended true].
Proof.
  exists [Other; Other; Other; Other], (starved1.1, [Ended true]). split; [|done].
  assert (step enforcing waiting1 Other starved1) as H1
    by exact (step_poll enforcing waiting1.1 waiting1.2 0 call1 false None f0 f0 (Ok None) starved1.1 true eq_refl eq_refl).
  pose proof (step_cancel enforcing starved1.1 [Polling call1 true] 0 call1 true eq_refl : step enforcing starved1 _ _) as H2.
  pose proof (step_abandon enforcing starved1.1 [Leaving] 0 eq_refl) as H3.
  exact (run_snoc _ _ [Other; Other; Other] _ _ _
    (run_snoc _ _ [Other; Other] _ _ _ (run_snoc _ _ [Other] _ _ _ run_waiting1 H1) H2) H3).
Qed.
