(* ===== verification/Ranking.v ===== *)
(** * Ranking by a score

    [sorted(l, key=score, reverse=True)] on floats, the ranks that [enumerate]
    gives its elements, and [sum] of floats. Python keeps the order of elements
    with equal scores in both directions. Scores are numbers: with a NaN among
    them Python's result depends on its merge pattern and is not modelled. *)

From Stdlib Require Import ZArith Lia Sorting Permutation Floats.SpecFloat.
From stdpp Require Import base list sorting.
From S2P Require Import Prelude PyFloat PyNumber.
Open Scope Z_scope.

(** [sum(l)] of floats since Python 3.12: compensated summation, the
    correction is added at the end unless it is zero or not finite. *)
Fixpoint sum_loop (l : list float) (hi lo : float) : float * float :=
  match l with
  | [] => (hi, lo)
  | x :: l' =>
      let t := fadd hi x in
      let d := if fle (fabs x) (fabs hi) then fadd (fsub hi t) x else fadd (fsub x t) hi in
      sum_loop l' t (fadd lo d)
  end.
Definition py_sum (l : list float) : float :=
  let '(hi, lo) := sum_loop l f0 f0 in
  if negb (feq lo f0) && isfinite lo then fadd hi lo else hi.

Example sum_tenths : py_sum (replicate 10 (lit 1 1)) = Z2f 1.
Proof. by vm_compute. Qed.

Section ranking.
  Context {A : Type} (score : A → float).

Definition better_first (x y : A) : bool := fle (score y) (score x).

(** [sorted(l, key=score, reverse=True)] *)
Definition sort_desc (l : list A) : list A := sort_by better_first l.

(** [enumerate(l)] *)
Definition enumerate {B} (l : list B) : list (nat * B) := imap pair l.

(** Element [x] comes before [y]: a better score, or an equal one and earlier. *)
Definition ahead (x y : nat * A) : Prop :=
  flt (score y.2) (score x.2) = true ∨
  (feq (score x.2) (score y.2) = true ∧ (x.1 < y.1)%nat).
#[export] Instance ahead_dec x y : Decision (ahead x y).
Proof. unfold ahead. apply _. Defined.

(** The rank of the [i]-th element, by counting. *)
Definition rank_of (l : list A) (i : nat) (x : A) : Z :=
  1 + Z.of_nat (length (filter (λ y, ahead y (i, x)) (enumerate l))).

Definition numeric (l : list A) : Prop := Forall (λ x, is_nan (score x) = false) l.
End ranking.

(** ** Lemmas *)
Lemma feq_fle x y : feq x y = true ↔ fle x y = true ∧ fle y x = true.
Proof.
  unfold feq, fle, SFeqb, SFleb. destruct (is_nan x) eqn:Ex; [destruct x; naive_solver|].
  destruct (is_nan y) eqn:Ey; [destruct x, y; naive_solver|].
  rewrite !fcompare_rank by done. rewrite (lex_compare_antisym (frank x)).
  destruct (lex_compare (frank x) (frank y)); simpl; naive_solver.
Qed.

Lemma sort_desc_perm {A} (score : A → float) (l : list A) : sort_desc score l ≡ₚ l.
Proof. apply sort_by_perm. Qed.

Section lemmas.
  Context {A : Type} (score : A → float).

(** Sorting elements listed by increasing index orders them by [ahead]. *)
Lemma insert_ahead x (l : list (nat * A)) :
  is_nan (score x.2) = false → Forall (λ y, is_nan (score y.2) = false) l →
  Forall (λ y, (x.1 < y.1)%nat) l →
  StronglySorted (ahead score) l →
  StronglySorted (ahead score) (insert_by (better_first (λ y, score y.2)) x l).
Proof.
  intros Hx Hl Hi Hs. induction Hs as [|y l Hs IH Hy]; simpl; [by repeat constructor|].
  apply Forall_cons in Hl as [Hny Hl], Hi as [Hiy Hi]. unfold better_first at 1.
  destruct (fle (score y.2) (score x.2)) eqn:E.
  - constructor; [by constructor|]. constructor.
    + destruct (fle (score x.2) (score y.2)) eqn:E2.
      * right. split; [|done]. by apply feq_fle.
      * left. by apply fle_false_flt.
    + rewrite !Forall_forall in *. intros z Hz. specialize (Hy z Hz). destruct Hy as [Hy|[Hy _]].
      * left. by eapply flt_fle_trans.
      * apply feq_fle in Hy as [Hy1 Hy2]. destruct (fle (score x.2) (score z.2)) eqn:E2.
        -- right. split; [|by apply Hi]. apply feq_fle. split; [done|]. by eapply fle_trans.
        -- left. apply fle_false_flt; auto.
  - constructor; [by apply IH|]. rewrite (insert_by_perm _ x l). constructor; [|done].
    left. by apply fle_false_flt.
Qed.

Lemma sort_desc_ahead (l : list (nat * A)) :
  Forall (λ y, is_nan (score y.2) = false) l → StronglySorted (λ x y, (x.1 < y.1)%nat) l →
  StronglySorted (ahead score) (sort_desc (λ y, score y.2) l).
Proof.
  intros Hl Hs. induction Hs as [|x l Hs IH Hx]; [constructor|].
  apply Forall_cons in Hl as [Hnx Hl].
  apply (insert_ahead x (sort_desc (λ y, score y.2) l)); [done| | |by apply IH]; by rewrite sort_desc_perm.
Qed.

Lemma ahead_irrefl (x : nat * A) : ¬ ahead score x x.
Proof. intros [H|[_ H]]; [by rewrite flt_irrefl in H|lia]. Qed.

Lemma ahead_asym (x y : nat * A) : ahead score x y → ¬ ahead score y x.
Proof.
  intros [H|[H1 H2]] [H'|[H1' H2']]; [|apply feq_fle in H1' as [_ H1']|apply feq_fle in H1 as [_ H1]|lia].
  - pose proof (flt_fle_trans _ _ _ H (flt_le _ _ H')) as Hf. by rewrite flt_irrefl in Hf.
  - pose proof (flt_fle_trans _ _ _ H H1') as Hf. by rewrite flt_irrefl in Hf.
  - pose proof (flt_fle_trans _ _ _ H' H1) as Hf. by rewrite flt_irrefl in Hf.
Qed.

(** In a list ordered by [ahead], the position of an element counts those ahead of it. *)
Lemma ahead_position (s : list (nat * A)) p x :
  StronglySorted (ahead score) s → s !! p = Some x →
  length (filter (λ y, ahead score y x) s) = p.
Proof.
  intros Hs. revert p. induction Hs as [|y s Hs IH Hy]; intros p; [done|].
  rewrite Forall_forall in Hy. rewrite filter_cons. destruct p as [|p]; simpl.
  - intros [= ->]. rewrite decide_False by apply ahead_irrefl.
    rewrite list_filter_none; [done|]. intros z Hz. apply ahead_asym. auto.
  - intros Hp. rewrite decide_True by (apply Hy; by apply list_elem_of_lookup_2 in Hp).
    simpl. f_equal. by apply IH.
Qed.

Lemma enumerate_lookup (l : list A) i : enumerate l !! i = pair i <$> l !! i.
Proof. unfold enumerate. by rewrite list_lookup_imap. Qed.

Lemma enumerate_sorted (l : list A) : StronglySorted (λ x y, (x.1 < y.1)%nat) (enumerate l).
Proof.
  unfold enumerate. assert (∀ n, StronglySorted (λ x y, (x.1 < y.1)%nat) (imap (λ i, pair (n + i)%nat) l)) as H.
  { induction l as [|x l IH]; intros n; simpl; constructor.
    - specialize (IH (S n)). erewrite imap_ext; [exact IH|]. intros. simpl. f_equal. lia.
    - apply Forall_forall. intros y Hy. apply list_elem_of_lookup in Hy as [j Hj].
      rewrite list_lookup_imap in Hj. apply fmap_Some in Hj as (z & _ & ->). simpl. lia. }
  exact (H 0%nat).
Qed.

Lemma enumerate_numeric (l : list A) :
  numeric score l → Forall (λ y, is_nan (score y.2) = false) (enumerate l).
Proof.
  intros H. apply Forall_lookup. intros i y Hy. rewrite enumerate_lookup in Hy.
  apply fmap_Some in Hy as (x & Hx & ->). unfold numeric in H. by eapply Forall_lookup in H.
Qed.

(** The rank that sorting and enumerating gives is the rank by counting. *)
Lemma sorted_rank (l : list A) p i x :
  numeric score l →
  sort_desc (λ y, score y.2) (enumerate l) !! p = Some (i, x) →
  rank_of score l i x = Z.of_nat p + 1.
Proof.
  intros Hn Hp. unfold rank_of.
  rewrite <- (ahead_position _ p (i, x) (sort_desc_ahead _ (enumerate_numeric _ Hn) (enumerate_sorted l)) Hp).
  rewrite (sort_desc_perm (λ y, score y.2) (enumerate l)). lia.
Qed.
End lemmas.
