(* ===== verification/Fusion.v ===== *)
(** * Fusion of search results (agent)

    [agent/packages/vss_core/src/vss_core/search_core/primitives/_fusion.py]
    with the coercions of [_internal/coerce.py] and the timestamps of
    [_foundation/time.py]: scoring of the candidates of a search by their
    embedding and their attributes, merging of adjacent clips, and the filter on
    the best score.

    Records hold the fields the code reads; their types are those the models
    declare, so a coercion only replaces an absent value. Pydantic's validation
    of a payload that is not a result yet ([model_validate]) and
    [datetime.fromisoformat] are parameters. *)

From Stdlib Require Import ZArith Lia Sorting Permutation Floats.SpecFloat.
From stdpp Require Import base list strings gmap sorting.
From S2P Require Import Prelude PyDict PyFloat PyText PyNumber Ranking.
Open Scope Z_scope.

Record SearchResult := mk_SearchResult {
  video_name : string;
  description : string;
  start_time : string;
  end_time : string;
  sensor_id : string;
  screenshot_url : string;
  similarity : float;
  object_ids : list string;
}.

Record AttributeSearchMetadata := mk_Metadata {
  md_sensor_id : string;
  md_object_id : option string;
  md_frame_timestamp : option string;
  md_start_time : option string;
  md_end_time : option string;
  md_behavior_score : float;
  md_frame_score : option float;
  md_video_name : option string;
}.

Record AttributeSearchResult := mk_AttributeResult {
  ar_screenshot_url : option string;
  ar_metadata : AttributeSearchMetadata;
}.

Record FusionCandidate := mk_Candidate {
  embed_result : SearchResult;
  embed_score : float;
  normalised_attribute_score : float;
  fc_screenshot_url : string;
  fc_object_ids : list string;
}.

(** [_coerce_str] and [_coerce_float] on the declared types; [a or b]. *)
Definition coerce_str (v : option string) : string := default "" v.
Definition coerce_float (v : option float) : float := default f0 v.
Definition str_or (a b : string) : string := if String.eqb a "" then b else a.

(** Ids without blanks and repetitions, in order of first appearance. *)
Definition add_id (ids : list string) (oid : string) : list string :=
  if String.eqb oid "" then ids else if decide (oid ∈ ids) then ids else ids ++ [oid].

(** ** Candidates *)
Section candidates.
  Context {D : Type} (model_validate : D → option AttributeSearchResult).

(** An attribute payload: [None] where it is empty or no list. *)
Inductive item := IResult (r : AttributeSearchResult) | IRaw (d : D).
Definition payload : Type := option (list item).

Definition validate_attribute_results (p : payload) : list AttributeSearchResult :=
  match p with
  | None => []
  | Some items => omap (λ i, match i with IResult r => Some r | IRaw d => model_validate d end) items
  end.

Definition attribute_score (r : AttributeSearchResult) : float :=
  match md_frame_score (ar_metadata r) with
  | Some frame => if flt f0 frame then frame else md_behavior_score (ar_metadata r)
  | None => md_behavior_score (ar_metadata r)
  end.

Definition fusion_candidate (attribute_count : Z) (pair : SearchResult * payload) : FusionCandidate :=
  let embed := pair.1 in
  let validated := validate_attribute_results pair.2 in
  let scores := attribute_score <$> validated in
  let ids := foldl add_id [] ((λ r, coerce_str (md_object_id (ar_metadata r))) <$> validated) in
  let attribute_screenshot := match validated with
                              | r :: _ => coerce_str (ar_screenshot_url r)
                              | [] => ""
                              end in
  mk_Candidate embed (similarity embed)
    (if 0 <? attribute_count then fdiv (py_sum scores) (Z2f attribute_count) else f0)
    (str_or attribute_screenshot (screenshot_url embed)) ids.

Definition build_fusion_candidates (pairs : list (SearchResult * payload)) (attribute_count : Z)
    : list FusionCandidate :=
  fusion_candidate attribute_count <$> pairs.
End candidates.
Arguments IResult {D} r.
Arguments IRaw {D} d.

Definition result_from_candidate (c : FusionCandidate) (score : float) : SearchResult :=
  let e := embed_result c in
  mk_SearchResult (video_name e) (description e) (start_time e) (end_time e) (sensor_id e)
    (fc_screenshot_url c) score (fc_object_ids c).

(** ** Fusion *)

(** A scored candidate and its result; [scored.sort(...)] and the results. *)
Definition scored : Type := list (float * SearchResult).
Definition ranked (l : scored) : list SearchResult := (sort_desc fst l).*2.
Definition score_as (c : FusionCandidate) (score : float) : float * SearchResult :=
  (score, result_from_candidate c score).

Definition weighted_linear_fusion (candidates : list FusionCandidate) (w_embed w_attribute : float)
    : list SearchResult :=
  ranked ((λ c, score_as c (fadd (fmul w_embed (embed_score c))
                                 (fmul w_attribute (normalised_attribute_score c)))) <$> candidates).

(** [1.0 / (rank + rrf_k)] *)
Definition reciprocal (rank rrf_k : Z) : result float :=
  if rank + rrf_k =? 0 then Exn ZeroDivisionError
  else d ← float_of_int (rank + rrf_k); Ok (fdiv (Z2f 1) d).

Definition rrf_fusion (candidates : list FusionCandidate) (rrf_k : Z) (rrf_w : float)
    : result (list SearchResult) :=
  l ← mapM (λ ic : nat * FusionCandidate,
        r ← reciprocal (Z.of_nat ic.1 + 1) rrf_k;
        Ok (score_as ic.2 (fadd r (fmul rrf_w (normalised_attribute_score ic.2)))))
      (enumerate (sort_desc embed_score candidates));
  Ok (ranked l).

(** [{idx: rank for rank, (idx, _) in enumerate(order, start=1)}] *)
Definition ranks_dict (order : list (nat * FusionCandidate)) : dict nat Z :=
  dupdate [] ((λ x : nat * (nat * FusionCandidate), (x.2.1, Z.of_nat x.1 + 1)) <$> enumerate order).

Definition rrf_fusion_with_attribute_rank (candidates : list FusionCandidate) (rrf_k : Z)
    (rrf_w : float) : result (list SearchResult) :=
  let indexed := enumerate candidates in
  let embed_ranks := ranks_dict (sort_desc (λ p, embed_score p.2) indexed) in
  let attribute_ranks := ranks_dict (sort_desc (λ p, normalised_attribute_score p.2) indexed) in
  l ← mapM (λ ic : nat * FusionCandidate,
        rank_embed ← require (dget embed_ranks ic.1) KeyError;
        rank_attribute ← require (dget attribute_ranks ic.1) KeyError;
        re ← reciprocal rank_embed rrf_k;
        ra ← reciprocal rank_attribute rrf_k;
        Ok (score_as ic.2 (fadd re (fmul rrf_w ra)))) indexed;
  Ok (ranked l).

Definition InvalidInputError : pyexn := NamedError "InvalidInputError".

Definition apply_fusion (candidates : list FusionCandidate) (method : string) (rrf_k : Z)
    (rrf_w w_embed w_attribute : float) : result (list SearchResult) :=
  if String.eqb method "weighted_linear" then Ok (weighted_linear_fusion candidates w_embed w_attribute)
  else if String.eqb method "rrf" then rrf_fusion candidates rrf_k rrf_w
  else if String.eqb method "rrf_with_attribute_rank" then
    rrf_fusion_with_attribute_rank candidates rrf_k rrf_w
  else Exn InvalidInputError.

(** ** Timestamps *)

(** [dt.isoformat()] of a UTC datetime: microseconds only where there are any. *)
Definition isoformat_utc (dt : datetime) : string :=
  let '(y, m, d) := civil_from_days (dt / 86400000000) in
  let us := dt mod 86400000000 in
  let s := us / 1000000 in
  digits 4 y +:+ "-" +:+ digits 2 m +:+ "-" +:+ digits 2 d +:+ "T" +:+
  digits 2 (s / 3600) +:+ ":" +:+ digits 2 (s / 60 mod 60) +:+ ":" +:+ digits 2 (s mod 60)
  +:+ (if us mod 1000000 =? 0 then "" else "." +:+ digits 6 (us mod 1000000)) +:+ "+00:00".

Definition datetime_to_iso8601 (dt : datetime) : string :=
  py_join "Z" (py_split "+00:00" (isoformat_utc dt)).

Example iso8601_ex :
  datetime_to_iso8601 1756091155752000 = "2025-08-25T03:05:55.752000Z" ∧
  datetime_to_iso8601 1756091155000000 = "2025-08-25T03:05:55Z".
Proof. split; vm_compute; reflexivity. Qed.

(** ** Merging adjacent clips *)

(** A result with its parsed start and end. *)
Definition timed : Type := SearchResult * datetime * datetime.
Definition t_result (t : timed) : SearchResult := t.1.1.
Definition t_start (t : timed) : datetime := t.1.2.
Definition t_end (t : timed) : datetime := t.2.

(** A group of clips of one sensor: its first one and the others. *)
Definition group : Type := timed * list timed.
Definition chunks (g : group) : list timed := g.1 :: g.2.
Definition group_end (g : group) : datetime := foldl Z.max (t_end g.1) (t_end <$> g.2).

Definition average (g : group) : float :=
  fdiv (py_sum ((λ t, similarity (t_result t)) <$> chunks g)) (Z2f (Z.of_nat (length (chunks g)))).

Definition sim_compatible (avg sim : float) : bool :=
  let denominator := fmax (fabs avg) (fabs sim) in
  let difference := fabs (fsub avg sim) in
  feq denominator f0 || fle (fdiv difference denominator) (fsub (Z2f 1) (lit 9 1)).

(** The loop over the sorted clips of a sensor; [end_dt] is [group_end_dt]. *)
Fixpoint group_loop (l : list timed) (g : group) (end_dt : datetime) : list group :=
  match l with
  | [] => [g]
  | r :: l' =>
      if (t_start r <=? end_dt) && sim_compatible (average g) (similarity (t_result r))
      then group_loop l' (g.1, g.2 ++ [r]) (if end_dt <? t_end r then t_end r else end_dt)
      else g :: group_loop l' (r, []) (t_end r)
  end.

Definition groups_of (l : list timed) : list group :=
  match sort_key t_start l with
  | [] => []
  | r :: l' => group_loop l' (r, []) (t_end r)
  end.

Definition add_once (ids : list string) (oid : string) : list string :=
  if decide (oid ∈ ids) then ids else ids ++ [oid].

Definition merge_group (sensor : string) (g : group) : SearchResult :=
  let first := t_result g.1 in
  mk_SearchResult (video_name first) (description first) (start_time first)
    (datetime_to_iso8601 (group_end g)) sensor (screenshot_url first) (average g)
    (foldl add_once [] (mjoin ((λ t, object_ids (t_result t)) <$> chunks g))).

Section merge.
  Context (fromisoformat : string → result datetime).

Definition iso8601_to_datetime (timestamp : string) : result datetime :=
  fromisoformat (py_join "+00:00" (py_split "Z" timestamp)).

(** The start and end of a result, [None] where it goes to the results without
    timestamps. *)
Definition parse_times (r : SearchResult) : result (option timed) :=
  if String.eqb (start_time r) "" || String.eqb (end_time r) "" then Ok None
  else
    match (s ← iso8601_to_datetime (start_time r); e ← iso8601_to_datetime (end_time r);
           Ok (Some (r, s, e))) with
    | Exn (ValueError | TypeError) => Ok None
    | x => x
    end.

Definition merge_consecutive_results (results : list SearchResult) : result (list SearchResult) :=
  match results with
  | [] => Ok results
  | _ =>
      parsed ← mapM (λ r, t ← parse_times r; Ok (r, t)) results;
      let timestamped := omap snd parsed in
      let no_timestamp := omap (λ p, match p.2 with None => Some p.1 | Some _ => None end) parsed in
      let by_sensor := group_by (λ t, sensor_id (t_result t)) timestamped in
      let merged := mjoin ((λ kv, merge_group kv.1 <$> groups_of kv.2) <$> by_sensor) in
      Ok (sort_desc similarity (no_timestamp ++ merged))
  end.
End merge.

(** ** The filter on the best score *)

(** [max(...)] of floats: the first of the greatest. *)
Definition py_max (x : float) (l : list float) : float := foldl fmax x l.

Definition apply_top_percent_filter (results : list SearchResult) (top_pct : option float)
    : list SearchResult :=
  match results, top_pct with
  | r :: _, Some pct =>
      if negb (flt f0 pct && flt pct (Z2f 1)) then results
      else
        let max_sim := py_max (similarity r) (similarity <$> tail results) in
        if fle max_sim f0 then results
        else filter (λ r, fle (fmul max_sim pct) (similarity r) = true) results
  | _, _ => results
  end.

(** [embed_output_to_search_results]: hits without a name are skipped. *)
Definition embed_output_to_search_results (hits : list SearchResult) : list SearchResult :=
  (λ h, mk_SearchResult (video_name h) (description h) (start_time h) (end_time h) (sensor_id h)
          (screenshot_url h) (similarity h) []) <$>
  filter (λ h, video_name h ≠ "") hits.

(** ** Lemmas: ranks *)
Lemma result_mapM_ext {A B} (f g : A → result B) l :
  (∀ x, x ∈ l → f x = g x) → mapM f l = mapM g l.
Proof.
  induction l as [|x l IH]; intros H; [done|]. simpl. rewrite (H x) by left.
  assert (mapM f l = mapM g l) as E by (apply IH; intros y Hy; apply H; by right).
  destruct (g x); [|done]. unfold mapM, mbind, result_bind in E |- *. by rewrite E.
Qed.

(** Every index of the list gets its rank by counting. *)
Lemma ranks_dict_spec (key : FusionCandidate → float) cs i c :
  numeric key cs → cs !! i = Some c →
  dget (ranks_dict (sort_desc (λ p, key p.2) (enumerate cs))) i = Some (rank_of key cs i c).
Proof.
  intros Hn Hc. set (order := sort_desc _ _).
  assert ((i, c) ∈ order) as Hin.
  { unfold order. rewrite sort_desc_perm. apply list_elem_of_lookup. exists i.
    by rewrite enumerate_lookup, Hc. }
  apply list_elem_of_lookup in Hin as [p Hp].
  assert (∀ l : dict nat Z, NoDup l.*1 → (i, rank_of key cs i c) ∈ l → dget (dupdate [] l) i = Some (rank_of key cs i c)) as Hu
    by (intros l Hl Hi; apply dget_dupdate_in; [done|by apply elem_dget]).
  apply Hu.
  - assert (((λ x : nat * (nat * FusionCandidate), (x.2.1, Z.of_nat x.1 + 1)) <$> enumerate order).*1 =
      order.*1) as ->.
    { apply list_eq. intros j. rewrite !list_lookup_fmap, enumerate_lookup. by destruct (order !! j). }
    unfold order. rewrite sort_desc_perm. apply NoDup_alt. intros a b x.
    rewrite !list_lookup_fmap, !enumerate_lookup.
    intros H1 H2. destruct (cs !! a), (cs !! b); simplify_eq/=. done.
  - apply list_elem_of_lookup. exists p. rewrite list_lookup_fmap, enumerate_lookup, Hp. simpl.
    f_equal. f_equal. symmetry. by apply sorted_rank.
Qed.

(** [rrf_fusion_with_attribute_rank] with the ranks by counting. *)
Definition rrf_by_counting (cs : list FusionCandidate) (rrf_k : Z) (rrf_w : float)
    : result (list SearchResult) :=
  l ← mapM (λ ic : nat * FusionCandidate,
        re ← reciprocal (rank_of embed_score cs ic.1 ic.2) rrf_k;
        ra ← reciprocal (rank_of normalised_attribute_score cs ic.1 ic.2) rrf_k;
        Ok (score_as ic.2 (fadd re (fmul rrf_w ra)))) (enumerate cs);
  Ok (ranked l).

(** Reciprocal rank fusion by both ranks: ranking the indices by sorting
    and looking the ranks up computes, for every candidate, one more than the
    number of candidates ahead of it, a better score or an equal one at a smaller
    index; duplicate candidates keep ranks of their own. *)
Theorem rrf_ranks_by_counting cs rrf_k rrf_w :
  numeric embed_score cs → numeric normalised_attribute_score cs →
  rrf_fusion_with_attribute_rank cs rrf_k rrf_w = rrf_by_counting cs rrf_k rrf_w.
Proof.
  intros He Ha. unfold rrf_fusion_with_attribute_rank, rrf_by_counting.
  erewrite result_mapM_ext; [done|]. intros [i c] Hin. simpl.
  apply list_elem_of_lookup in Hin as [j Hj]. rewrite enumerate_lookup in Hj.
  destruct (cs !! j) as [c'|] eqn:Ec; simplify_eq/=.
  by rewrite (ranks_dict_spec _ _ _ _ He Ec), (ranks_dict_spec _ _ _ _ Ha Ec).
Qed.

(** ** Lemmas: groups *)

(** Each clip of a group after the first starts before the clips before it have
    all ended and is close to their average score. *)
Definition chained (g : group) : Prop :=
  ∀ l r l', g.2 = l ++ r :: l' →
    t_start r ≤ group_end (g.1, l) ∧ sim_compatible (average (g.1, l)) (similarity (t_result r)) = true.

Lemma group_end_snoc t l r : group_end (t, l ++ [r]) = Z.max (group_end (t, l)) (t_end r).
Proof. unfold group_end. simpl. by rewrite fmap_app, foldl_app. Qed.

Lemma group_end_ge g r : r ∈ chunks g → t_end r ≤ group_end g.
Proof.
  destruct g as [t l]. induction l as [|x l IH] using rev_ind; unfold chunks; simpl.
  - intros ->%list_elem_of_singleton. done.
  - rewrite group_end_snoc. intros [->|[Hr| ->%list_elem_of_singleton]%elem_of_app]%elem_of_cons.
    + specialize (IH ltac:(left)). lia.
    + specialize (IH ltac:(by right)). lia.
    + lia.
Qed.

Lemma chained_snoc t l r :
  chained (t, l) → t_start r ≤ group_end (t, l) →
  sim_compatible (average (t, l)) (similarity (t_result r)) = true → chained (t, l ++ [r]).
Proof.
  intros Hc H1 H2 l1 x l2. simpl. destruct l2 as [|y l2 _] using rev_ind.
  - intros [-> [= ->]]%app_inj_2; done.
  - rewrite app_comm_cons, (assoc_L (++)). intros [-> _]%app_inj_2; [|done]. by apply (Hc l1 x l2).
Qed.

Lemma group_loop_spec l g :
  chained g →
  mjoin (chunks <$> group_loop l g (group_end g)) = chunks g ++ l ∧
  Forall chained (group_loop l g (group_end g)).
Proof.
  revert g. induction l as [|r l IH]; intros [t k] Hg; simpl.
  { rewrite !app_nil_r. split; [done|by apply Forall_singleton]. }
  destruct (t_start r <=? group_end (t, k)) eqn:E1; simpl;
    [destruct (sim_compatible _ _) eqn:E2|].
  - assert ((if group_end (t, k) <? t_end r then t_end r else group_end (t, k)) =
      group_end (t, k ++ [r])) as -> by (rewrite group_end_snoc; case_match; bool_lia).
    destruct (IH (t, k ++ [r])) as [IH1 IH2]; [apply chained_snoc; [done|bool_lia|done]|].
    split; [|done]. rewrite IH1. unfold chunks. simpl. by rewrite <- (assoc_L (++)).
  - destruct (IH (r, [])) as [IH1 IH2]; [by intros [] ? ?|]. change (group_end (r, [])) with (t_end r) in *.
    split; [|by constructor]. exact (f_equal (λ x, t :: k ++ x) IH1).
  - destruct (IH (r, [])) as [IH1 IH2]; [by intros [] ? ?|]. change (group_end (r, [])) with (t_end r) in *.
    split; [|by constructor]. exact (f_equal (λ x, t :: k ++ x) IH1).
Qed.

(** The groups of a sensor cut its clips, in order of their starts. *)
Lemma groups_of_spec l :
  mjoin (chunks <$> groups_of l) = sort_key t_start l ∧ Forall chained (groups_of l).
Proof.
  unfold groups_of. destruct (sort_key t_start l) as [|r l']; [done|].
  change (t_end r) with (group_end (r, [])). apply (group_loop_spec l' (r, [])). by intros [] ? ?.
Qed.

Lemma StronglySorted_join {B} (R : B → B → Prop) (ls : list (list B)) l :
  StronglySorted R (mjoin ls) → l ∈ ls → StronglySorted R l.
Proof.
  induction ls as [|l' ls IH]; simpl; [by intros _ ?%elem_of_nil|]. intros Hs.
  intros [->|Hl]%elem_of_cons; [by apply StronglySorted_app_1_l in Hs|].
  apply IH; [by apply StronglySorted_app_1_r in Hs|done].
Qed.

(** The first clip of a group starts first. *)
Lemma group_first_start l g r :
  g ∈ groups_of l → r ∈ chunks g → t_start g.1 ≤ t_start r.
Proof.
  intros Hg Hr. destruct (groups_of_spec l) as [E _].
  pose proof (sort_key_sorted t_start l) as Hs. rewrite <- E in Hs.
  apply (StronglySorted_join _ _ (chunks g)) in Hs; [|by apply list_elem_of_fmap_2].
  apply StronglySorted_inv in Hs as [_ Hs]. rewrite Forall_forall in Hs.
  apply elem_of_cons in Hr as [->|Hr]; [lia|by apply Hs].
Qed.

Lemma add_once_elem ids x y : y ∈ add_once ids x ↔ y ∈ ids ∨ y = x.
Proof. unfold add_once. case_decide; set_solver. Qed.

Lemma fold_add_once_elem l ids x : x ∈ foldl add_once ids l ↔ x ∈ ids ∨ x ∈ l.
Proof.
  revert ids. induction l as [|y l IH]; intros ids; simpl; [set_solver|].
  rewrite IH, add_once_elem. set_solver.
Qed.

Lemma merge_group_ids sensor g oid :
  oid ∈ object_ids (merge_group sensor g) ↔ ∃ r, r ∈ chunks g ∧ oid ∈ object_ids (t_result r).
Proof.
  unfold merge_group. cbn [object_ids]. rewrite fold_add_once_elem, list_elem_of_join. setoid_rewrite list_elem_of_fmap.
  set_solver.
Qed.

Lemma omap_fmap {A B C} (f : B → option C) (g : A → B) (l : list A) :
  omap f (g <$> l) = omap (λ x, f (g x)) l.
Proof. induction l as [|x l IH]; csimpl; [done|]. by rewrite IH. Qed.

Section merge_lemmas.
  Context (fromisoformat : string → result datetime).

Definition times_of (r : SearchResult) : option timed :=
  match parse_times fromisoformat r with Ok t => t | Exn _ => None end.

Definition untimed (results : list SearchResult) : list SearchResult :=
  omap (λ r, match times_of r with None => Some r | Some _ => None end) results.

Lemma parse_all results parsed :
  mapM (λ r, t ← parse_times fromisoformat r; Ok (r, t)) results = Ok parsed →
  parsed = (λ r, (r, times_of r)) <$> results.
Proof.
  revert parsed. induction results as [|r results IH]; intros parsed; [by intros [= <-]|].
  simpl. intros (p & Hp & (ps & Hps & [= <-])%result_bind_Ok)%result_bind_Ok.
  apply result_bind_Ok in Hp as (t & Ht & [= <-]). csimpl.
  unfold times_of at 1. rewrite Ht. f_equal. by apply IH.
Qed.

Lemma times_of_result r t : times_of r = Some t → t_result t = r.
Proof.
  unfold times_of, parse_times, mbind, result_bind. repeat case_match; naive_solver.
Qed.

Lemma merge_spec results out :
  merge_consecutive_results fromisoformat results = Ok out →
  ∃ groups : list (string * group),
    out ≡ₚ untimed results ++ ((λ sg, merge_group sg.1 sg.2) <$> groups) ∧
    mjoin ((λ sg, chunks sg.2) <$> groups) ≡ₚ omap times_of results ∧
    ∀ sg, sg ∈ groups →
      chained sg.2 ∧
      Forall (λ t, sensor_id (t_result t) = sg.1 ∧ t_start sg.2.1 ≤ t_start t) (chunks sg.2).
Proof.
  unfold merge_consecutive_results. destruct results as [|r0 rs] eqn:Er.
  { intros [= <-]. exists []. split_and!; [done..|]. by intros ? ?%elem_of_nil. }
  rewrite <- Er. clear Er r0 rs. intros (parsed & Hp & H)%result_bind_Ok.
  apply parse_all in Hp as ->. cbv zeta in H. injection H as <-.
  rewrite !omap_fmap. cbn [fst snd]. change (omap _ results ++ _) with (untimed results ++ mjoin
    ((λ kv, merge_group kv.1 <$> groups_of kv.2) <$> group_by (λ t, sensor_id (t_result t))
       (omap times_of results))). set (ts := omap times_of results).
  destruct (group_by_spec (λ t, sensor_id (t_result t)) ts) as (_ & Hperm & Hkey).
  set (d := group_by _ ts) in *.
  exists (mjoin ((λ kv, pair kv.1 <$> groups_of kv.2) <$> d)). split_and!.
  - rewrite sort_desc_perm. apply Permutation_app_head, reflexive_eq.
    clear. induction d as [|kv d IH]; [done|]. csimpl. rewrite fmap_app, <- IH. f_equal.
    by rewrite <- list_fmap_compose.
  - rewrite <- Hperm. clear. induction d as [|kv d IH]; [done|]. csimpl.
    rewrite fmap_app, join_app, IH. f_equiv. rewrite <- list_fmap_compose.
    etrans; [exact (reflexive_eq _ _ (proj1 (groups_of_spec kv.2)))|apply sort_key_perm].
  - intros sg Hsg. apply list_elem_of_join in Hsg as (l & Hsg & Hl).
    apply list_elem_of_fmap in Hl as ([k v] & -> & Hkv).
    apply list_elem_of_fmap in Hsg as (g & -> & Hg). simpl in *.
    destruct (groups_of_spec v) as [Hj Hc]. split; [by eapply Forall_forall in Hc|].
    apply Forall_forall. intros t Ht. split; [|by eapply group_first_start].
    specialize (Hkey k v Hkv). rewrite Forall_forall in Hkey. apply Hkey.
    rewrite <- (sort_key_perm t_start v), <- Hj. apply list_elem_of_join.
    exists (chunks g). split; [done|]. by apply list_elem_of_fmap_2.
Qed.
End merge_lemmas.

(** Merging cuts the clips into groups: the output is the results without
    usable timestamps, unchanged, and one merged clip per group; the groups
    together are exactly the clips with timestamps, each once; a group has one
    sensor, starts with its earliest clip, and every further clip starts before
    the earlier ones have ended and is within a tenth of their average score. *)
Theorem merge_partitions (fromisoformat : string → result datetime) results out :
  merge_consecutive_results fromisoformat results = Ok out →
  ∃ groups : list (string * group),
    out ≡ₚ untimed fromisoformat results ++ ((λ sg, merge_group sg.1 sg.2) <$> groups) ∧
    mjoin ((λ sg, chunks sg.2) <$> groups) ≡ₚ omap (times_of fromisoformat) results ∧
    ∀ sg, sg ∈ groups →
      chained sg.2 ∧
      Forall (λ t, sensor_id (t_result t) = sg.1 ∧ t_start sg.2.1 ≤ t_start t) (chunks sg.2).
Proof. apply merge_spec. Qed.

(** Merging loses nothing: every clip with timestamps lies within a merged
    clip of its sensor that starts with a clip of the input and ends, in ISO 8601,
    with one, and that carries its object ids; every other result is kept. *)
Theorem merge_covers (fromisoformat : string → result datetime) results out r :
  merge_consecutive_results fromisoformat results = Ok out → r ∈ results →
  match times_of fromisoformat r with
  | None => r ∈ out
  | Some t =>
      ∃ m first last, m ∈ out ∧ first ∈ omap (times_of fromisoformat) results ∧
        sensor_id m = sensor_id r ∧
        start_time m = start_time (t_result first) ∧ t_start first ≤ t_start t ∧
        end_time m = datetime_to_iso8601 last ∧ t_end t ≤ last ∧
        object_ids r ⊆ object_ids m
  end.
Proof.
  intros Hm Hr. destruct (merge_spec fromisoformat results out Hm) as (groups & Hout & Hjoin & Hg).
  destruct (times_of fromisoformat r) as [t|] eqn:Et.
  2:{ rewrite Hout. apply elem_of_app. left. apply list_elem_of_omap. exists r. by rewrite Et. }
  assert (t ∈ omap (times_of fromisoformat) results) as Ht by (apply list_elem_of_omap; eauto).
  rewrite <- Hjoin in Ht. apply list_elem_of_join in Ht as (l & Ht & Hl).
  apply list_elem_of_fmap in Hl as (sg & -> & Hsg). destruct (Hg sg Hsg) as [_ Hall].
  rewrite Forall_forall in Hall. destruct (Hall t Ht) as [Hs Hst].
  rewrite (times_of_result _ _ _ Et) in Hs.
  exists (merge_group sg.1 sg.2), sg.2.1, (group_end sg.2). split_and!; try done.
  - rewrite Hout. apply elem_of_app. right. apply list_elem_of_fmap. eauto.
  - rewrite <- Hjoin. apply list_elem_of_join. exists (chunks sg.2).
    split; [by left|]. apply list_elem_of_fmap. eauto.
  - by apply group_end_ge.
  - intros oid Hoid. apply merge_group_ids. exists t. by rewrite (times_of_result _ _ _ Et).
Qed.

Definition with_score (score : float) (r : SearchResult) : SearchResult :=
  mk_SearchResult (video_name r) (description r) (start_time r) (end_time r) (sensor_id r)
    (screenshot_url r) score (object_ids r).

Lemma ranked_clips (l : scored) cs :
  (with_score f0 <$> l.*2) ≡ₚ ((λ c, result_from_candidate c f0) <$> cs) →
  (with_score f0 <$> ranked l) ≡ₚ ((λ c, result_from_candidate c f0) <$> cs).
Proof. intros <-. unfold ranked. by rewrite sort_desc_perm. Qed.

Lemma mapM_scored {B} (f : B → result (float * SearchResult)) (cand : B → FusionCandidate) l out :
  (∀ x y, f x = Ok y → with_score f0 y.2 = result_from_candidate (cand x) f0) →
  mapM f l = Ok out → with_score f0 <$> out.*2 = (λ x, result_from_candidate (cand x) f0) <$> l.
Proof.
  intros Hf. revert out. induction l as [|x l IH]; intros out; [by intros [= <-]|]. simpl.
  intros (y & Hy & (ys & Hys & [= <-])%result_bind_Ok)%result_bind_Ok. csimpl.
  rewrite (Hf _ _ Hy). f_equal. by apply IH.
Qed.

Lemma enumerate_snd {A} (l : list A) : (enumerate l).*2 = l.
Proof.
  apply list_eq. intros i. rewrite list_lookup_fmap, enumerate_lookup. by destruct (l !! i).
Qed.

Lemma enumerate_clips (l : list FusionCandidate) :
  (λ x, result_from_candidate x.2 f0) <$> enumerate l = (λ c, result_from_candidate c f0) <$> l.
Proof. rewrite <- (enumerate_snd l) at 2. by rewrite <- list_fmap_compose. Qed.

Lemma rrf_fusion_clips cs rrf_k rrf_w out :
  rrf_fusion cs rrf_k rrf_w = Ok out →
  (with_score f0 <$> out) ≡ₚ ((λ c, result_from_candidate c f0) <$> cs).
Proof.
  intros (l & Hl & [= <-])%result_bind_Ok. apply ranked_clips.
  assert (with_score f0 <$> l.*2 =
    (λ x, result_from_candidate x.2 f0) <$> enumerate (sort_desc embed_score cs)) as ->.
  { eapply mapM_scored, Hl. intros [i c] y. by intros (? & _ & [= <-])%result_bind_Ok. }
  rewrite enumerate_clips. by rewrite sort_desc_perm.
Qed.

Lemma rrf_both_clips cs rrf_k rrf_w out :
  rrf_fusion_with_attribute_rank cs rrf_k rrf_w = Ok out →
  (with_score f0 <$> out) ≡ₚ ((λ c, result_from_candidate c f0) <$> cs).
Proof.
  intros (l & Hl & [= <-])%result_bind_Ok. apply ranked_clips.
  assert (with_score f0 <$> l.*2 = (λ x, result_from_candidate x.2 f0) <$> enumerate cs) as ->.
  { eapply mapM_scored, Hl. intros [i c] y.
    intros (? & _ & (? & _ & (? & _ & (? & _ & [= <-])%result_bind_Ok)%result_bind_Ok)%result_bind_Ok)%result_bind_Ok.
    done. }
  by rewrite enumerate_clips.
Qed.

(** Every fusion method returns exactly the clips of its candidates, with
    the screenshots and object ids of the candidates and only new scores; any
    other method is invalid input. *)
Theorem fusion_keeps_clips cs method rrf_k rrf_w w_embed w_attribute :
  (∀ out, apply_fusion cs method rrf_k rrf_w w_embed w_attribute = Ok out →
     (with_score f0 <$> out) ≡ₚ ((λ c, result_from_candidate c f0) <$> cs)) ∧
  (method ∉ ["weighted_linear"; "rrf"; "rrf_with_attribute_rank"] →
   apply_fusion cs method rrf_k rrf_w w_embed w_attribute = Exn InvalidInputError).
Proof.
  unfold apply_fusion.
  destruct (String.eqb_spec method "weighted_linear"); [|destruct (String.eqb_spec method "rrf");
    [|destruct (String.eqb_spec method "rrf_with_attribute_rank")]];
    (split; [intros out|try set_solver]).
  - intros [= <-]. apply ranked_clips. by rewrite <- !list_fmap_compose.
  - apply rrf_fusion_clips.
  - apply rrf_both_clips.
  - done.
Qed.

(** ** A concrete search *)
Definition demo_time (s : string) : result datetime :=
  if String.eqb s "t0" then Ok 0
  else if String.eqb s "t4" then Ok 4000000
  else if String.eqb s "t6" then Ok 6000000
  else Exn ValueError.

Definition clip_a : SearchResult := mk_SearchResult "cam" "a" "t0" "t4" "s1" "a.jpg" (lit 80 2) ["1"].
Definition clip_b : SearchResult := mk_SearchResult "cam" "b" "t4" "t6" "s1" "b.jpg" (lit 82 2) ["2"; "1"].
Definition clip_c : SearchResult := mk_SearchResult "cam" "c" "" "t6" "s1" "c.jpg" (lit 90 2) [].

Definition demo_merged : list SearchResult :=
  [clip_c; mk_SearchResult "cam" "a" "t0" "1970-01-01T00:00:06Z" "s1" "a.jpg" (lit 81 2) ["1"; "2"]].

Example demo_merge : merge_consecutive_results demo_time [clip_b; clip_c; clip_a] = Ok demo_merged.
Proof. by vm_compute. Qed.

Lemma merge_partitions_witness :
  ∃ groups : list (string * group),
    demo_merged ≡ₚ untimed demo_time [clip_b; clip_c; clip_a]
                     ++ ((λ sg, merge_group sg.1 sg.2) <$> groups).
Proof.
  destruct (merge_partitions demo_time [clip_b; clip_c; clip_a] demo_merged) as (gs & H & _);
    [vm_compute; reflexivity|].
  exists gs. exact H.
Defined.

Lemma merge_covers_witness :
  ∃ m, m ∈ demo_merged ∧ object_ids clip_b ⊆ object_ids m.
Proof.
  destruct (merge_covers demo_time [clip_b; clip_c; clip_a] demo_merged clip_b)
    as (m & _ & _ & Hm & _ & _ & _ & _ & _ & _ & Hids);
    [vm_compute; reflexivity|left|]. exists m. split; [exact Hm|exact Hids].
Defined.

Definition demo_candidates : list FusionCandidate :=
  [mk_Candidate clip_a (lit 80 2) (lit 5 1) "a.jpg" ["1"];
   mk_Candidate clip_b (lit 82 2) (lit 5 1) "b.jpg" ["2"]].

Lemma rrf_ranks_by_counting_witness :
  rrf_fusion_with_attribute_rank demo_candidates 60 (lit 5 1) =
  rrf_by_counting demo_candidates 60 (lit 5 1).
Proof.
  apply (rrf_ranks_by_counting demo_candidates 60 (lit 5 1)); repeat constructor.
Defined.

Lemma fusion_keeps_clips_witness :
  apply_fusion demo_candidates "max" 60 f0 f0 f0 = Exn InvalidInputError.
Proof.
  apply (fusion_keeps_clips demo_candidates "max" 60 f0 f0 f0).
  intros [H|[H|[H|H%elem_of_nil]%elem_of_cons]%elem_of_cons]%elem_of_cons; done.
Defined.
