(* ===== verification/SearchCore.v ===== *)
(** * The search orchestrator (agent)

    [agent/packages/vss_core/src/vss_core/search_core/primitives]:
    [_search_helpers.py] (the routing of a request, the reranking of a fusion
    search, the conversion of attribute hits), [Search.run] and [Search.stream]
    of [search.py], and [SearchInput.validate_semantics] of [models/search.py].

    The two retrieval primitives, the search by object, its enrichment and the
    lookup of a sensor id call Elasticsearch and VST: they are the interface
    [Backends]. Calls awaited together by [asyncio.gather] raise the exception
    that surfaces first, [first_failure] of those raised. A chunk of the stream is
    its type; texts are left out. *)

From Stdlib Require Import ZArith Lia Sorting Permutation Floats.SpecFloat.
From stdpp Require Import base list strings gmap sorting.
From S2P Require Import Prelude PyDict PyFloat PyText PyNumber Ranking Fusion.
Open Scope Z_scope.

Inductive SearchMode := ModeEmbed | ModeAttribute | ModeFusion | ModeObject.
#[export] Instance SearchMode_eq_dec : EqDecision SearchMode.
Proof. solve_decision. Defined.

Record SearchInput := mk_SearchInput {
  query : string;
  source_type : string;
  video_sources : option (list string);
  in_description : option string;
  timestamp_start : option datetime;
  timestamp_end : option datetime;
  top_k : option Z;
  search_mode : SearchMode;
  attributes : list string;
  in_object_ids : option (list Z);
  min_cosine_similarity : float;
}.

(** The settings the orchestrator reads. *)
Record SearchConfig := mk_SearchConfig {
  default_max_results : Z;
  embed_confidence_threshold : float;
  merge_adjacent : bool;
  fusion_method : string;
  w_attribute : float;
  w_embed : float;
  cfg_rrf_k : Z;
  cfg_rrf_w : float;
  top_percent_filter : option float;
  vst_internal_url : string;
  behavior_es_endpoint : string;
}.

Record SearchOutput := mk_SearchOutput {
  data : list SearchResult;
  search_messages : list string;
}.

(** ** Errors *)
Definition ConfigurationError : pyexn := NamedError "ConfigurationError".
Definition BackendUnreachableError : pyexn := NamedError "BackendUnreachableError".

(** [isinstance(e, LibraryError)]: the class and its subclasses. *)
Definition is_library_error (e : pyexn) : bool :=
  match e with
  | NamedError n => bool_decide (n ∈ ["LibraryError"; "ConfigurationError"; "BackendUnreachableError";
      "VSTError"; "IndexNotFoundError"; "InvalidInputError"; "NoFinalResultError"])
  | _ => false
  end.

(** ** Validation *)
Definition blank (s : string) : bool := String.eqb (py_strip s) "".

(** [not self.object_ids] *)
Definition no_objects (o : option (list Z)) : bool :=
  match o with Some (_ :: _) => false | _ => true end.

Definition invalid (bad : bool) : result unit := if bad then Exn InvalidInputError else Ok tt.

Definition validate_semantics (i : SearchInput) : result unit :=
  let mode_in l := bool_decide (search_mode i ∈ l) in
  let has_attributes := existsb (λ a, negb (blank a)) (attributes i) in
  _ ← invalid (mode_in [ModeEmbed; ModeFusion] && blank (query i));
  _ ← invalid (match timestamp_start i, timestamp_end i with
               | Some s, Some e => e <? s
               | _, _ => false
               end);
  _ ← invalid (match top_k i with Some k => k <? 1 | None => false end);
  _ ← invalid (mode_in [ModeAttribute; ModeFusion] && negb has_attributes);
  _ ← invalid (mode_in [ModeEmbed] && has_attributes);
  _ ← invalid (mode_in [ModeObject] && no_objects (in_object_ids i));
  _ ← invalid (mode_in [ModeObject] && has_attributes);
  invalid (negb (no_objects (in_object_ids i)) && negb (mode_in [ModeObject])).

(** ** Conversion of attribute hits *)
Definition attribute_result_to_search_result (r : AttributeSearchResult) : SearchResult :=
  let md := ar_metadata r in
  let oid := coerce_str (md_object_id md) in
  let stamp := coerce_str (md_frame_timestamp md) in
  mk_SearchResult
    (str_or (coerce_str (md_video_name md)) (md_sensor_id md))
    ("Attribute match at " +:+ str_or stamp "unknown time")
    (str_or (coerce_str (md_start_time md)) stamp)
    (str_or (coerce_str (md_end_time md)) stamp)
    (md_sensor_id md) (coerce_str (ar_screenshot_url r))
    (attribute_score r)
    (if String.eqb oid "" then [] else [oid]).

Definition resolve_video_sources_for_search (sources : list string) (name_to_uuid : dict string string)
    (source : option string) : list string :=
  match sources, name_to_uuid with
  | [], _ | _, [] => sources
  | _, _ =>
      if decide (source = Some "rtsp") then
        let uuid_to_name := dupdate [] ((λ kv, (kv.2, kv.1)) <$> name_to_uuid) in
        (λ v, if String.eqb (coerce_str (dget name_to_uuid v)) "" then default v (dget uuid_to_name v)
              else v) <$> sources
      else (λ v, str_or (coerce_str (dget name_to_uuid v)) v) <$> sources
  end.

(** ** Objects *)

(** The best hit of each object, and the hits without an object. *)
Definition add_object_hit (st : dict string AttributeSearchResult * list AttributeSearchResult)
    (r : AttributeSearchResult) : dict string AttributeSearchResult * list AttributeSearchResult :=
  let '(seen, unmergeable) := st in
  let key := coerce_str (md_object_id (ar_metadata r)) in
  if String.eqb key "" || String.eqb key "unknown" then (seen, unmergeable ++ [r])
  else
    let better := match dget seen key with
                  | None => true
                  | Some old => flt (md_behavior_score (ar_metadata old)) (md_behavior_score (ar_metadata r))
                  end in
    (if better then dset seen key r else seen, unmergeable).

Definition rank_objects (hits : list AttributeSearchResult) (k : Z) : list AttributeSearchResult :=
  let '(seen, unmergeable) := foldl add_object_hit ([], []) hits in
  py_take k (sort_desc (λ r, md_behavior_score (ar_metadata r)) (dvals seen ++ unmergeable)).

(** ** The stream: chunks, then the outcome *)
Inductive chunk := THOUGHT | TOOL_CALL | ERROR_CHUNK.

Definition genM (A : Type) : Type := list chunk * result A.
#[export] Instance genM_ret : MRet genM := λ A a, ([], Ok a).
#[export] Instance genM_bind : MBind genM :=
  λ A B k m,
    match m with
    | (c1, Ok a) => let '(c2, r) := k a in (c1 ++ c2, r)
    | (c1, Exn e) => (c1, Exn e)
    end.
Definition emit (c : chunk) : genM unit := ([c], Ok tt).
Definition lift {A} (r : result A) : genM A := ([], r).

Section search.
  Context {D : Type} (model_validate : D → option AttributeSearchResult).
  Context (fromisoformat : string → result datetime).

(** The parameters of one attribute search. *)
Record AttributeParams := mk_AttributeParams {
  ap_query : list string;
  ap_source_type : string;
  ap_video_sources : option (list string);
  ap_start : option datetime;
  ap_end : option datetime;
  ap_top_k : Z;
  ap_min_similarity : float;
  ap_fuse : bool;
}.

Class Backends := {
  (** The embed search of a request with a fetch size: its hits. *)
  embed_search : SearchInput → Z → result (list SearchResult);
  attribute_search : AttributeParams → result (@payload D);
  object_search : SearchInput → Z → Z → result (list AttributeSearchResult);
  enrich_attribute_results : list AttributeSearchResult → list AttributeSearchResult;
  get_sensor_id_from_stream_id : string → result string;
  first_failure : list pyexn → pyexn;
}.

Context `{Backends} (cfg : SearchConfig).

(** [await asyncio.gather(...)] *)
Definition gather {A} (l : list (result A)) : result (list A) :=
  match omap (λ r, match r with Exn e => Some e | Ok _ => None end) l with
  | [] => Ok (omap (λ r, match r with Ok a => Some a | Exn _ => None end) l)
  | es => Exn (first_failure es)
  end.

(** [except LibraryError: raise; except Exception: dflt] *)
Definition best_effort_call {A} (r : result A) (dflt : A) : result A :=
  match r with
  | Exn e => if is_library_error e then Exn e else Ok dflt
  | Ok a => Ok a
  end.

(** [_run_attribute_only_search]: the results and the messages it adds. *)
Definition degraded_message : string :=
  "Attribute search degraded; returning partial/empty results.".

Definition validate_all (items : list (@item D)) : option (list AttributeSearchResult) :=
  mapM (λ i, match i with IResult r => Some r | IRaw d => model_validate d end) items.

Definition run_attribute_only_search (i : SearchInput) (attribute_list : list string) (k : Z)
    (min_similarity : float) : result (list SearchResult * list string) :=
  match attribute_search (mk_AttributeParams attribute_list (source_type i) (video_sources i)
          (timestamp_start i) (timestamp_end i) k min_similarity false) with
  | Exn e => if is_library_error e then Exn e else Ok ([], [degraded_message])
  | Ok None => Ok ([], [])
  | Ok (Some items) =>
      match validate_all items with
      | Some results => Ok (sort_desc similarity (attribute_result_to_search_result <$> results), [])
      | None => Ok ([], [degraded_message])
      end
  end.

(** ** Fusion *)
Definition safe_iso8601_to_datetime (s : string) : result (option datetime) :=
  if String.eqb s "" then Ok None
  else match iso8601_to_datetime fromisoformat s with
       | Ok d => Ok (Some d)
       | Exn (ValueError | TypeError) => Ok None
       | Exn e => Exn e
       end.

(** The sensor a clip's attributes are looked up for; the conversion of its id
    is best effort. *)
Definition filter_sensor (r : SearchResult) : string :=
  let converted :=
    if negb (String.eqb (sensor_id r) "") && negb (String.eqb (vst_internal_url cfg) "") then
      match get_sensor_id_from_stream_id (sensor_id r) with Ok s => s | Exn _ => "" end
    else "" in
  str_or converted (str_or (video_name r) (sensor_id r)).

(** The body of [_get_attribute_results] under its [try]. *)
Definition clip_attributes (i : SearchInput) (attribute_list : list string) (r : SearchResult)
    : result (@payload D) :=
  start ← safe_iso8601_to_datetime (start_time r);
  stop ← safe_iso8601_to_datetime (end_time r);
  match start, stop with
  | Some s, Some e =>
      let '(s, e) := if e <=? s then (s - 2500000, s + 2500000) else (s, e) in
      let sensor := filter_sensor r in
      attribute_search (mk_AttributeParams attribute_list (source_type i)
        (if String.eqb sensor "" then None else Some [sensor]) (Some s) (Some e) 1 (lit 4 1) true)
  | _, _ => Ok None
  end.

Definition get_attribute_results (i : SearchInput) (attribute_list : list string) (r : SearchResult)
    : result (SearchResult * @payload D) :=
  best_effort_call (p ← clip_attributes i attribute_list r; Ok (r, p)) (r, None).

Definition fusion_search_rerank (i : SearchInput) (embed_results : list SearchResult)
    (attribute_list : list string) : result (list SearchResult) :=
  pairs ← gather (get_attribute_results i attribute_list <$> embed_results);
  apply_fusion (build_fusion_candidates model_validate pairs (Z.of_nat (length attribute_list)))
    (fusion_method cfg) (cfg_rrf_k cfg) (cfg_rrf_w cfg) (w_embed cfg) (w_attribute cfg).

(** ** The routes *)
Definition max_top_k : Z := 1000.

Definition object_route (i : SearchInput) (oids : list Z) : genM SearchOutput :=
  if String.eqb (behavior_es_endpoint cfg) "" then lift (Exn ConfigurationError)
  else
    let k := default (default_max_results cfg) (top_k i) in
    _ ← emit TOOL_CALL;
    lists ← lift (gather ((λ oid, best_effort_call (object_search i oid k) []) <$> oids));
    let hits := enrich_attribute_results (rank_objects (mjoin lists) k) in
    _ ← emit THOUGHT;
    mret (mk_SearchOutput (attribute_result_to_search_result <$> hits) []).

Definition attribute_route (i : SearchInput) (attribute_list : list string) (k : Z)
    : genM (list SearchResult * list string) :=
  _ ← emit TOOL_CALL;
  r ← lift (run_attribute_only_search i attribute_list k f0);
  _ ← emit THOUGHT;
  mret r.

(** The reranking, whose library errors are announced before they propagate. *)
Definition rerank_route (i : SearchInput) (results : list SearchResult) (attribute_list : list string)
    : genM (list SearchResult) :=
  _ ← emit TOOL_CALL;
  match fusion_search_rerank i results attribute_list with
  | Ok reranked => _ ← emit THOUGHT; mret reranked
  | Exn e => if is_library_error e then _ ← emit ERROR_CHUNK; lift (Exn e) else lift (Exn e)
  end.

Definition no_candidates_message : string :=
  "Fusion search found no semantic candidates; attribute-only fallback was not used.".

Definition embed_route (i : SearchInput) (attribute_list : list string) (k : Z)
    : genM (list SearchResult * list string) :=
  _ ← emit TOOL_CALL;
  hits ← match embed_search i k with
         | Ok hits => mret hits
         | Exn e =>
             _ ← emit ERROR_CHUNK;
             lift (Exn (if is_library_error e then e else BackendUnreachableError))
         end;
  let results := embed_output_to_search_results hits in
  _ ← emit THOUGHT;
  match attribute_list with
  | [] => mret (results, [])
  | _ =>
      let max_embed_score := match results with
                             | [] => f0
                             | r :: rs => py_max (similarity r) (similarity <$> rs)
                             end in
      let fusion := bool_decide (search_mode i = ModeFusion) in
      match results with
      | [] =>
          if fusion then _ ← emit THOUGHT; mret ([], [no_candidates_message])
          else
            _ ← emit THOUGHT;
            r ← lift (run_attribute_only_search i attribute_list k f0);
            _ ← emit THOUGHT;
            mret r
      | _ =>
          if fusion then
            reranked ← rerank_route i results attribute_list;
            mret (reranked, [])
          else if flt max_embed_score (embed_confidence_threshold cfg) then
            _ ← emit THOUGHT;
            r ← lift (run_attribute_only_search i attribute_list k f0);
            _ ← emit THOUGHT;
            mret r
          else mret (results, [])
      end
  end.

Definition execute_core_search (i : SearchInput) : genM SearchOutput :=
  match search_mode i with
  | ModeObject =>
      match in_object_ids i with
      | None => lift (Exn AssertionError)
      | Some oids => object_route i oids
      end
  | mode =>
      let original_top_k := default (default_max_results cfg) (top_k i) in
      let k := Z.min (if merge_adjacent cfg then original_top_k * 2 else original_top_k) max_top_k in
      let attribute_list := py_strip <$> filter (λ a, blank a = false) (attributes i) in
      r ← match mode, attribute_list with
          | ModeAttribute, _ :: _ => attribute_route i attribute_list (Z.min original_top_k max_top_k)
          | _, _ => embed_route i attribute_list k
          end;
      let filtered := apply_top_percent_filter r.1 (top_percent_filter cfg) in
      merged ← lift (if merge_adjacent cfg then merge_consecutive_results fromisoformat filtered
                     else Ok filtered);
      _ ← emit THOUGHT;
      mret (mk_SearchOutput (py_take original_top_k merged) r.2)
  end.

(** [Search.run] *)
Definition run (i : SearchInput) : result SearchOutput :=
  _ ← validate_semantics i;
  (execute_core_search i).2.

(** [Search.stream]: an error event carries the class name of a library error. *)
Inductive event := StatusEvent (c : chunk) | FinalResultEvent (o : SearchOutput) | ErrorEvent (code : string).

Definition error_code (e : pyexn) : string :=
  match e with
  | NamedError n => if is_library_error e then n else "UnexpectedError"
  | _ => "UnexpectedError"
  end.

Definition stream (i : SearchInput) : list event :=
  match validate_semantics i with
  | Exn e => [ErrorEvent (error_code e)]
  | Ok _ =>
      let '(chunks, r) := execute_core_search i in
      (StatusEvent <$> chunks) ++
      [match r with Ok o => FinalResultEvent o | Exn e => ErrorEvent (error_code e) end]
  end.
End search.

(** ** Lemmas *)
Lemma py_take_length {A} (n : Z) (l : list A) : 0 ≤ n → Z.of_nat (length (py_take n l)) ≤ n.
Proof. intros Hn. unfold py_take. rewrite (proj2 (Z.leb_le 0 n)) by done. rewrite length_take. lia. Qed.

Lemma invalid_Ok b (m : result unit) : (_ ← invalid b; m) = Ok tt ↔ b = false ∧ m = Ok tt.
Proof. destruct b; naive_solver. Qed.

Lemma genM_bind_snd {A B} (m : genM A) (k : A → genM B) : (m ≫= k).2 = a ← m.2; (k a).2.
Proof. destruct m as [c [a|e]]; simpl; [|done]. unfold mbind, genM_bind, result_bind. by destruct (k a). Qed.

Lemma valid_top_k i k : validate_semantics i = Ok tt → top_k i = Some k → 1 ≤ k.
Proof.
  unfold validate_semantics. rewrite !invalid_Ok. intros (_ & _ & H & _) E. rewrite E in H. bool_lia.
Qed.

(** A valid embed request has no attributes left after stripping. *)
Lemma valid_embed_attributes i :
  validate_semantics i = Ok tt → search_mode i = ModeEmbed →
  filter (λ a, blank a = false) (attributes i) = [].
Proof.
  unfold validate_semantics. rewrite !invalid_Ok. intros (_ & _ & _ & _ & H & _) E.
  rewrite E in H. rewrite bool_decide_eq_true_2 in H by set_solver. simpl in H.
  induction (attributes i) as [|a l IH]; [done|]. simpl in H. apply orb_false_iff in H as [Ha Hl].
  rewrite filter_cons_False; [by apply IH|]. by destruct (blank a).
Qed.

Section search_lemmas.
  Context {D : Type} (model_validate : D → option AttributeSearchResult).
  Context (fromisoformat : string → result datetime) (cfg : SearchConfig).

Abbreviation run_on B := (@run D model_validate fromisoformat B cfg).
Abbreviation stream_on B := (@stream D model_validate fromisoformat B cfg).

Lemma object_route_length (B : @Backends D) i oids o :
  (∀ l, length (enrich_attribute_results l) = length l) →
  0 ≤ default (default_max_results cfg) (top_k i) →
  (object_route cfg i oids).2 = Ok o →
  Z.of_nat (length (data o)) ≤ default (default_max_results cfg) (top_k i).
Proof.
  intros He Hk. unfold object_route. case_match; [done|].
  rewrite !genM_bind_snd. simpl. destruct (gather _) as [lists|e]; simpl; [|done]. intros [= <-]. simpl.
  rewrite length_fmap, He. unfold rank_objects. destruct (foldl _ _ _) as [seen rest].
  by apply py_take_length.
Qed.

Lemma core_length (B : @Backends D) i o :
  (∀ l, length (enrich_attribute_results l) = length l) →
  0 ≤ default (default_max_results cfg) (top_k i) →
  (execute_core_search model_validate fromisoformat cfg i).2 = Ok o →
  Z.of_nat (length (data o)) ≤ default (default_max_results cfg) (top_k i).
Proof.
  intros He Hk. unfold execute_core_search.
  destruct (decide (search_mode i = ModeObject)) as [->|Hm].
  { destruct (in_object_ids i); [by apply object_route_length|done]. }
  destruct (search_mode i); [..|done];
    rewrite !genM_bind_snd; rewrite !result_bind_Ok; intros (r & _ & H); revert H;
    rewrite !genM_bind_snd, result_bind_Ok; intros (l & _ & [= <-]); by apply py_take_length.
Qed.

(** ** Library errors of the lookups *)

(** What [execute_core_search] fetches and looks up. *)
Definition fetch_size (i : SearchInput) : Z :=
  let n := default (default_max_results cfg) (top_k i) in
  Z.min (if merge_adjacent cfg then n * 2 else n) max_top_k.
Definition stripped_attributes (i : SearchInput) : list string :=
  py_strip <$> filter (λ a, blank a = false) (attributes i).

(** The library errors the lookups of the hits' clips raise. *)
Definition lookup_failures (B : @Backends D) i (hits : list SearchResult) : list pyexn :=
  omap (λ r, match @clip_attributes D fromisoformat B cfg i (stripped_attributes i) r with
             | Exn e => if is_library_error e then Some e else None
             | Ok _ => None
             end) (embed_output_to_search_results hits).

Lemma gather_aborts (B : @Backends D) {A} (l : list (result A)) :
  let es := omap (λ r, match r with Exn e => Some e | Ok _ => None end) l in
  es ≠ [] → @gather D B A l = Exn (first_failure es).
Proof. intros es Hes. unfold gather. fold es. by destruct es. Qed.

Lemma lookup_failures_gathered (B : @Backends D) i hits :
  omap (λ r, match r with Exn e => Some e | Ok _ => None end)
    (@get_attribute_results D fromisoformat B cfg i (stripped_attributes i) <$>
       embed_output_to_search_results hits) = lookup_failures B i hits.
Proof.
  unfold lookup_failures. induction (embed_output_to_search_results hits) as [|r rs IH]; [done|].
  csimpl. rewrite IH. unfold get_attribute_results at 1, best_effort_call, mbind, result_bind.
  destruct (clip_attributes _ _ _ _ r) as [p|e]; [done|]. by destruct (is_library_error e).
Qed.

Lemma rerank_aborts (B : @Backends D) i hits :
  lookup_failures B i hits ≠ [] →
  @fusion_search_rerank D model_validate fromisoformat B cfg i
    (embed_output_to_search_results hits) (stripped_attributes i) =
  Exn (first_failure (lookup_failures B i hits)).
Proof.
  intros Hf. unfold fusion_search_rerank. rewrite <-lookup_failures_gathered in *.
  by rewrite (gather_aborts B) by done.
Qed.

Lemma valid_fusion_attributes i :
  validate_semantics i = Ok tt → search_mode i = ModeFusion → stripped_attributes i ≠ [].
Proof.
  unfold validate_semantics. rewrite !invalid_Ok. intros (_ & _ & _ & H & _) E.
  rewrite E in H. rewrite bool_decide_eq_true_2 in H by set_solver. simpl in H.
  apply negb_false_iff, existsb_exists in H as (a & Hin & Ha). apply list_elem_of_In in Hin.
  unfold stripped_attributes. intros Hn%fmap_nil_inv.
  assert (a ∈ filter (λ a, blank a = false) (attributes i)) as Hf
    by (apply list_elem_of_filter; split; [by destruct (blank a)|done]).
  rewrite Hn in Hf. by apply elem_of_nil in Hf.
Qed.

Lemma embed_route_aborts (B : @Backends D) i k hits :
  search_mode i = ModeFusion → stripped_attributes i ≠ [] →
  @embed_search D B i k = Ok hits → lookup_failures B i hits ≠ [] →
  (@embed_route D model_validate fromisoformat B cfg i (stripped_attributes i) k).2 =
    Exn (first_failure (lookup_failures B i hits)).
Proof.
  intros Hm Ha Hh Hf. unfold embed_route. rewrite Hm, Hh, bool_decide_eq_true_2 by done.
  pose proof (rerank_aborts B i hits Hf) as Hr.
  destruct (stripped_attributes i) as [|a l]; [done|].
  rewrite !genM_bind_snd. simpl.
  destruct (embed_output_to_search_results hits) as [|r rs] eqn:Er.
  { unfold lookup_failures in Hf. by rewrite Er in Hf. }
  unfold rerank_route. rewrite Hr. unfold mbind, genM_bind, emit, lift.
  by destruct (is_library_error _).
Qed.

(** ** The attribute backend without its soft failures *)
Definition soften (B : @Backends D) : @Backends D := {|
  embed_search := embed_search;
  attribute_search p :=
    match attribute_search p with
    | Exn e => if is_library_error e then Exn e else Ok None
    | found => found
    end;
  object_search := object_search;
  enrich_attribute_results := enrich_attribute_results;
  get_sensor_id_from_stream_id := get_sensor_id_from_stream_id;
  first_failure := first_failure |}.

Lemma get_attribute_results_soft (B : @Backends D) i l r :
  @get_attribute_results D fromisoformat (soften B) cfg i l r =
  @get_attribute_results D fromisoformat B cfg i l r.
Proof.
  unfold get_attribute_results, clip_attributes, mbind, result_bind.
  destruct (safe_iso8601_to_datetime _ (start_time r)) as [[s|]|]; [|done..];
    destruct (safe_iso8601_to_datetime _ (end_time r)) as [[e|]|]; [|done..].
  destruct (if e <=? s then _ else _) as [s' e'].
  change (@filter_sensor D (soften B) cfg r) with (@filter_sensor D B cfg r).
  set (p := mk_AttributeParams _ _ _ _ _ _ _ _).
  unfold best_effort_call, soften at 1. simpl. destruct (@attribute_search D B p) as [a|ex]; [done|].
  by destruct (is_library_error ex) eqn:E; rewrite ?E.
Qed.

Lemma rerank_soft (B : @Backends D) i results l :
  @fusion_search_rerank D model_validate fromisoformat (soften B) cfg i results l =
  @fusion_search_rerank D model_validate fromisoformat B cfg i results l.
Proof.
  unfold fusion_search_rerank.
  assert (@get_attribute_results D fromisoformat (soften B) cfg i l <$> results =
          @get_attribute_results D fromisoformat B cfg i l <$> results) as ->
    by (apply list_fmap_ext; intros; apply get_attribute_results_soft).
  done.
Qed.

Lemma embed_route_soft (B : @Backends D) i l k :
  search_mode i = ModeFusion →
  @embed_route D model_validate fromisoformat (soften B) cfg i l k =
  @embed_route D model_validate fromisoformat B cfg i l k.
Proof.
  intros Hm. unfold embed_route. change (@embed_search D (soften B)) with (@embed_search D B).
  rewrite Hm, bool_decide_eq_true_2 by done. destruct (embed_search i k) as [hits|e]; [|done].
  destruct l as [|a l]; [done|]. unfold mbind, genM_bind, emit, mret, genM_ret. cbv beta iota zeta.
  destruct (embed_output_to_search_results hits) as [|r rs]; [done|].
  unfold rerank_route. by rewrite rerank_soft.
Qed.
End search_lemmas.

Section search_theorems.
  Context {D : Type} (model_validate : D → option AttributeSearchResult).
  Context (fromisoformat : string → result datetime) (cfg : SearchConfig).
  Abbreviation run_on B := (@run D model_validate fromisoformat B cfg).
  Abbreviation stream_on B := (@stream D model_validate fromisoformat B cfg).

(** [stream] and [run] agree: a stream is status events followed by
    exactly one terminal event, the output that [run] returns or the error code
    of the exception it raises. *)
Theorem stream_refines_run (B : @Backends D) i :
  ∃ chunks, stream_on B i =
    (StatusEvent <$> chunks) ++
    [match run_on B i with Ok o => FinalResultEvent o | Exn e => ErrorEvent (error_code e) end].
Proof.
  unfold stream, run. destruct (validate_semantics i); [|by exists []].
  simpl. destruct (execute_core_search _ _ _ i) as [c r]. by exists c.
Qed.

(** A search never returns more results than asked for, whatever the
    backends return and however much more was fetched for merging; the
    enrichment of hits keeps their number. *)
Theorem run_bounded (B : @Backends D) i o k :
  (∀ l, length (enrich_attribute_results l) = length l) →
  top_k i = Some k → run_on B i = Ok o → Z.of_nat (length (data o)) ≤ k.
Proof.
  intros He Hk. unfold run. destruct (validate_semantics i) as [[]|] eqn:Ev; [|done].
  intros Ho. pose proof (valid_top_k i k Ev Hk).
  pose proof (core_length model_validate fromisoformat cfg B i o He) as H1.
  rewrite Hk in H1. apply H1; [simpl; lia|done].
Qed.

(** An embed search never consults the attribute backend: two sets of
    backends with the same embed search give the same outcome. *)
Theorem embed_ignores_attributes (B1 B2 : @Backends D) i :
  search_mode i = ModeEmbed →
  (∀ k, @embed_search D B1 i k = @embed_search D B2 i k) →
  run_on B1 i = run_on B2 i.
Proof.
  intros Hm He. unfold run. destruct (validate_semantics i) as [[]|] eqn:Ev; [|done].
  simpl. unfold execute_core_search. rewrite (valid_embed_attributes i Ev Hm), Hm. simpl.
  unfold embed_route. by rewrite He.
Qed.

(** C13. In a fusion search the failure of an attribute lookup other than a
    library error costs that clip its attributes and nothing else: the outcome
    is the one of a backend that finds none for it. A library error of any
    clip's lookup aborts the search with it, with the first in time when there
    are several. *)
Theorem fusion_degrades_softly (B : @Backends D) i :
  search_mode i = ModeFusion →
  run_on (soften B) i = run_on B i ∧
  ∀ hits, validate_semantics i = Ok tt →
    @embed_search D B i (fetch_size cfg i) = Ok hits →
    let failures := @lookup_failures D fromisoformat cfg B i hits in
    failures ≠ [] → run_on B i = Exn (first_failure failures).
Proof.
  intros Hm. unfold run. destruct (validate_semantics i) as [[]|] eqn:Ev; [|done].
  simpl. unfold execute_core_search. rewrite Hm. split.
  { by rewrite (embed_route_soft _ _ _ B i _ _ Hm). }
  intros hits _ Hh Hf. pose proof (valid_fusion_attributes i Ev Hm) as Ha.
  fold (stripped_attributes i) (fetch_size cfg i).
  rewrite !genM_bind_snd.
  rewrite (embed_route_aborts model_validate fromisoformat cfg B i (fetch_size cfg i) hits) by done. done.
Qed.
End search_theorems.

(** ** A concrete search *)
Definition demo_embed (i : SearchInput) (k : Z) : result (list SearchResult) :=
  Ok (py_take k [clip_a; clip_b; clip_c]).

#[local] Instance demo_backends : @Backends unit := {|
  embed_search := demo_embed;
  attribute_search _ := Exn TypeError;
  object_search _ _ _ := Ok [];
  enrich_attribute_results l := l;
  get_sensor_id_from_stream_id s := Ok s;
  first_failure l := default ValueError (head l) |}.

Definition no_backends : @Backends unit := {|
  embed_search := demo_embed;
  attribute_search _ := Exn BackendUnreachableError;
  object_search _ _ _ := Exn BackendUnreachableError;
  enrich_attribute_results l := l;
  get_sensor_id_from_stream_id s := Exn ValueError;
  first_failure l := default ValueError (head l) |}.

Definition demo_config : SearchConfig :=
  mk_SearchConfig 10 (lit 1 1) true "rrf" (lit 55 2) (lit 35 2) 60 (lit 5 1) None "http://vst" "http://es".
Definition demo_input (mode : SearchMode) (attrs : list string) : SearchInput :=
  mk_SearchInput "a red car" "video_file" None None None None (Some 1) mode attrs None f0.

Lemma run_bounded_witness :
  ∃ o, run (λ _, None) demo_time demo_config (demo_input ModeEmbed []) = Ok o ∧
    Z.of_nat (length (data o)) ≤ 1.
Proof.
  eexists. split; [vm_compute; reflexivity|].
  apply (run_bounded (λ _, None) demo_time demo_config demo_backends (demo_input ModeEmbed []) _ 1);
    [reflexivity|reflexivity|vm_compute; reflexivity].
Defined.

Lemma embed_ignores_attributes_witness :
  @run unit (λ _, None) demo_time demo_backends demo_config (demo_input ModeEmbed []) =
  @run unit (λ _, None) demo_time no_backends demo_config (demo_input ModeEmbed []).
Proof.
  apply (embed_ignores_attributes (λ _, None) demo_time demo_config demo_backends no_backends);
    reflexivity.
Defined.

Lemma fusion_degrades_softly_witness :
  @run unit (λ _, None) demo_time (soften demo_backends) demo_config (demo_input ModeFusion ["red"]) =
    run (λ _, None) demo_time demo_config (demo_input ModeFusion ["red"]) ∧
  @run unit (λ _, None) demo_time no_backends demo_config (demo_input ModeFusion ["red"]) =
    Exn BackendUnreachableError.
Proof.
  split.
  - apply (fusion_degrades_softly (λ _, None) demo_time demo_config demo_backends). reflexivity.
  - apply (proj2 (fusion_degrades_softly (λ _, None) demo_time demo_config no_backends
      (demo_input ModeFusion ["red"]) eq_refl) [clip_a; clip_b]); [reflexivity..|].
    intros H. vm_compute in H. discriminate H.
Defined.

(** Every lookup fails; the two clips fetched for one result merge into it. *)
Example fusion_ex :
  (λ o, description <$> data o) <$> (match run (λ _, None) demo_time demo_config
     (demo_input ModeFusion ["red"]) with Ok o => Some o | Exn _ => None end) = Some ["a"].
Proof. by vm_compute. Qed.

(** Under rank fusion the merged scores are those of the ranks, which are close
    for any similarities: a strong and a weak hit are merged. *)
Definition weak_clip : SearchResult :=
  mk_SearchResult "cam" "weak" "t4" "t6" "s1" "w.jpg" (lit 1 1) [].

Example rrf_merges_weak_hits :
  (λ o, length (data o)) <$>
    (match @run unit (λ _, None) demo_time
       {| embed_search _ _ := Ok [clip_a; weak_clip]; attribute_search _ := Ok None;
          object_search _ _ _ := Ok []; enrich_attribute_results l := l;
          get_sensor_id_from_stream_id s := Ok s; first_failure l := ValueError |}
       demo_config (mk_SearchInput "a red car" "video_file" None None None None (Some 10) ModeFusion
         ["red"] None f0) with Ok o => Some o | Exn _ => None end) = Some 1%nat ∧
  merge_consecutive_results demo_time [clip_a; weak_clip] =
    Ok [mk_SearchResult "cam" "a" "t0" "1970-01-01T00:00:04Z" "s1" "a.jpg" (lit 80 2) ["1"];
        mk_SearchResult "cam" "weak" "t4" "1970-01-01T00:00:06Z" "s1" "w.jpg" (lit 1 1) []].
Proof. split; vm_compute; reflexivity. Qed.
