(* ===== verification/Proc.v ===== *)
(** * Interleaved processes

    Code that several threads and coroutines run at once, over one shared
    state: a process is a sequence of atomic actions, each chosen by the results
    of those before it. A section under a lock, or the code between two awaits,
    is one action. A pool of processes runs in any order; a coroutine waiting at
    an [await] may also be cancelled, which raises [CancelledError] there. A
    process may wait for a condition, such as an event being set or a lock being
    free, and cannot move before it holds; it goes on with an action in the same
    step, such as taking the lock.

    [wp] is the logic: the processes of a pool hold resources (reservations),
    the state satisfies an invariant that mentions everything held, and every
    action keeps the invariant for any resources of the others. Beside it, [wp]
    checks that every action stays within a guarantee, a relation between the
    states before and after it. [pool_sound] and [pool_guarantee] transfer both
    to every interleaving. A process waits only while it holds nothing that others wait
    for, and for what is certain once nobody holds such a thing, so a pool is
    never stuck ([pool_no_deadlock]). *)

From Stdlib Require Import ZArith.
From stdpp Require Import base list strings relations.
From S2P Require Import Prelude.

(** What a cancelled [await] raises; [except Exception] does not catch it. *)
Definition cancelled : pyexn := NamedError "CancelledError".
Definition is_Exception (e : pyexn) : bool := bool_decide (e ≠ cancelled).
Definition is_BaseException (e : pyexn) : bool := true.

Inductive proc (S A : Type) : Type :=
  | Done (r : result A)
  | Act {B : Type} (awaits : bool) (op : stM S B) (k : result B → proc S A)
  | Wait (ready : S → bool) (op : S → S) (k : result unit → proc S A).
Arguments Done {S A} r.
Arguments Act {S A B} awaits op k.
Arguments Wait {S A} ready op k.

Section proc.
Context {S : Type}.

Fixpoint pbind {A B} (f : A → proc S B) (m : proc S A) : proc S B :=
  match m with
  | Done (Ok a) => f a
  | Done (Exn e) => Done (Exn e)
  | Act aw op k => Act aw op (λ r, pbind f (k r))
  | Wait ready op k => Wait ready op (λ r, pbind f (k r))
  end.

#[export] Instance proc_ret : MRet (proc S) := λ A a, Done (Ok a).
#[export] Instance proc_bind : MBind (proc S) := λ A B f m, pbind f m.

(** [try: m except ...: handler] *)
Fixpoint ptry {A} (catches : pyexn → bool) (m : proc S A) (handler : pyexn → proc S A) : proc S A :=
  match m with
  | Done (Ok a) => Done (Ok a)
  | Done (Exn e) => if catches e then handler e else Done (Exn e)
  | Act aw op k => Act aw op (λ r, ptry catches (k r) handler)
  | Wait ready op k => Wait ready op (λ r, ptry catches (k r) handler)
  end.

(** [try: m finally: cleanup] *)
Definition pfinally {A} (m : proc S A) (cleanup : proc S unit) : proc S A :=
  a ← ptry is_BaseException m (λ e, _ ← cleanup; Done (Exn e));
  _ ← cleanup;
  mret a.

Definition atomic {A} (op : stM S A) : proc S A := Act false op Done.
Definition await {A} (op : stM S A) : proc S A := Act true op Done.
Definition praise {A} (e : pyexn) : proc S A := Done (Exn e).
Definition plift {A} (r : result A) : proc S A := Done r.

(** [for x in l: body] *)
Fixpoint pfor {A} (l : list A) (body : A → proc S unit) : proc S unit :=
  match l with
  | [] => mret tt
  | x :: l' => _ ← body x; pfor l' body
  end.

(** [[f(x) for x in l]] *)
Fixpoint pmap {A B} (f : A → proc S B) (l : list A) : proc S (list B) :=
  match l with
  | [] => mret []
  | x :: l' => y ← f x; ys ← pmap f l'; mret (y :: ys)
  end.

(** [asyncio.gather]: every process runs, then the first exception is raised *)
Definition gather {A} (ps : list (proc S A)) : proc S (list A) :=
  rs ← pmap (λ p, ptry is_Exception (a ← p; mret (Ok a)) (λ e, mret (Exn e))) ps;
  plift (foldr (λ r acc, a ← r; l ← acc; Ok (a :: l)) (Ok []) rs).

Definition wait_then (ready : S → bool) (op : S → S) : proc S unit := Wait ready op Done.
Definition wait (ready : S → bool) : proc S unit := wait_then ready id.

(** A process running alone; where nobody can end its wait it is cancelled. *)
Fixpoint exec {A} (p : proc S A) (s : S) : result A * S :=
  match p with
  | Done r => (r, s)
  | Act _ op k => let '(r, s') := op s in exec (k r) s'
  | Wait ready op k => if ready s then exec (k (Ok tt)) (op s) else exec (k (Exn cancelled)) s
  end.

(** ** Pools *)

(** The next action of a process, and its cancellation at an [await]. *)
Definition next {A} (p : proc S A) (s : S) : option (proc S A * S) :=
  match p with
  | Done _ => None
  | Act _ op k => let '(r, s') := op s in Some (k r, s')
  | Wait ready op k => if ready s then Some (k (Ok tt), op s) else None
  end.
Definition cancel {A} (p : proc S A) : option (proc S A) :=
  match p with
  | Act true _ k => Some (k (Exn cancelled))
  | Wait _ _ k => Some (k (Exn cancelled))
  | _ => None
  end.

Abbreviation pool := (list (proc S unit)).

Inductive pstep (spawns : proc S unit → Prop) (env : relation S) : relation (S * pool) :=
  | step_next s ps i p p' s' :
      ps !! i = Some p → next p s = Some (p', s') → pstep spawns env (s, ps) (s', <[i := p']> ps)
  | step_cancel s ps i p p' :
      ps !! i = Some p → cancel p = Some p' → pstep spawns env (s, ps) (s, <[i := p']> ps)
  | step_spawn s ps p : spawns p → pstep spawns env (s, ps) (s, ps ++ [p])
  | step_env s s' ps : env s s' → pstep spawns env (s, ps) (s', ps).

(** Run the actions a scheduler picks; [None] when it picks a process that
    cannot move. *)
Inductive choice := Go (i : nat) | Cancel (i : nat).
Definition choose (c : choice) (sp : S * pool) : option (S * pool) :=
  match c with
  | Go i => p ← sp.2 !! i; '(p', s') ← next p sp.1; Some (s', <[i := p']> sp.2)
  | Cancel i => p ← sp.2 !! i; p' ← cancel p; Some (sp.1, <[i := p']> sp.2)
  end.
Fixpoint schedule (cs : list choice) (sp : S * pool) : option (S * pool) :=
  match cs with
  | [] => Some sp
  | c :: cs' => sp' ← choose c sp; schedule cs' sp'
  end.

Definition is_done (p : proc S unit) : bool := match p with Done _ => true | Act _ _ _ | Wait _ _ _ => false end.

(** Follow a schedule; a schedule that cannot be followed does nothing. *)
Definition after (cs : list choice) (sp : S * pool) : S * pool := default sp (schedule cs sp).

Lemma pool_spawn_runs (spawns : proc S unit → Prop) (env : relation S) s ps l :
  Forall spawns l → rtc (pstep spawns env) (s, ps) (s, ps ++ l).
Proof.
  intros Hl. revert ps. induction Hl as [|p l Hp Hl IH]; intros ps; [by rewrite app_nil_r|].
  eapply rtc_l; [by apply (step_spawn _ _ s ps p)|]. rewrite (cons_middle p ps l), (assoc_L (++)). apply IH.
Qed.
Lemma pool_choose_step (spawns : proc S unit → Prop) (env : relation S) c s ps s' ps' :
  choose c (s, ps) = Some (s', ps') → pstep spawns env (s, ps) (s', ps').
Proof.
  intros Hc. destruct c as [i|i]; cbn [choose] in Hc; apply bind_Some in Hc as (p & Hi & Hc); simpl in Hi.
  - apply bind_Some in Hc as ([p' s1] & E & Hc). simplify_eq. by eapply step_next.
  - apply bind_Some in Hc as (p' & E & Hc). simplify_eq. by eapply step_cancel.
Qed.
Lemma pool_schedule_runs (spawns : proc S unit → Prop) (env : relation S) cs sp sp' :
  schedule cs sp = Some sp' → rtc (pstep spawns env) sp sp'.
Proof.
  revert sp. induction cs as [|c cs IH]; intros [s ps]; cbn [schedule]; [by intros [= ->]|].
  intros ([s1 ps1] & Hc & Hr)%bind_Some. eapply rtc_l; [by eapply pool_choose_step|by apply IH].
Qed.
Lemma pool_after (spawns : proc S unit → Prop) (env : relation S) cs sp : rtc (pstep spawns env) sp (after cs sp).
Proof. unfold after. destruct (schedule cs sp) eqn:E; [by eapply pool_schedule_runs|done]. Qed.
(** Processes started together, and a schedule of them *)
Lemma pool_after_runs (spawns : proc S unit → Prop) (env : relation S) cs s ps :
  Forall spawns ps → rtc (pstep spawns env) (s, []) ((after cs (s, ps)).1, (after cs (s, ps)).2).
Proof.
  intros Hps. rewrite <-surjective_pairing. etrans; [by apply (pool_spawn_runs spawns env s [] ps)|apply pool_after].
Qed.

Definition is_act (p : proc S unit) : bool := match p with Act _ _ _ => true | Done _ | Wait _ _ _ => false end.

(** ** The logic *)

Context {H : Type} (Inv : S → list H → Prop) (G : relation S).
(** What others may be waiting for *)
Context (blocks : H → Prop).
Abbreviation unblocking := (Forall (λ r, ¬ blocks r)).

Fixpoint wp {A} (h : list H) (p : proc S A) (Q : result A → list H → Prop) : Prop :=
  match p with
  | Done r => Q r h
  | Act aw op k =>
      (∀ s R, Inv s (h ++ R) →
        G s (op s).2 ∧ ∃ h', Inv (op s).2 (h' ++ R) ∧ wp h' (k (op s).1) Q) ∧
      (aw = true → wp h (k (Exn cancelled)) Q)
  | Wait ready op k =>
      unblocking h ∧ (∀ s R, Inv s R → unblocking R → ready s = true) ∧
      (∀ s R, Inv s (h ++ R) → ready s = true →
        G s (op s) ∧ ∃ h', Inv (op s) (h' ++ R) ∧ wp h' (k (Ok tt)) Q) ∧
      wp h (k (Exn cancelled)) Q
  end.

Lemma wp_mono {A} h (p : proc S A) (Q Q' : result A → list H → Prop) :
  (∀ r h', Q r h' → Q' r h') → wp h p Q → wp h p Q'.
Proof.
  intros HQ. revert h. induction p as [r|B aw op k IH|ready wop k IH]; intros h; simpl; [by auto| |intros (Hb & Hr & Hop & Hc); split_and!; [done|done| |by auto]; intros s R HI Hs; destruct (Hop s R HI Hs) as (HG & h' & HI' & Hk); eauto 6].
  intros [Hop Hc]. split; [|auto].
  intros s R HI. destruct (Hop s R HI) as (HG & h' & HI' & Hk). eauto 6.
Qed.

Lemma wp_bind {A B} h (m : proc S A) (f : A → proc S B) Q :
  wp h m (λ r h', match r with Ok a => wp h' (f a) Q | Exn e => Q (Exn e) h' end) →
  wp h (m ≫= f) Q.
Proof.
  unfold mbind, proc_bind. revert h.
  induction m as [[a|e]|C aw op k IH|ready wop k IH]; intros h; simpl; [done|done| |intros (Hb & Hr & Hop & Hc); split_and!; [done|done| |by auto]; intros s R HI Hs; destruct (Hop s R HI Hs) as (HG & h' & HI' & Hk); eauto 6].
  intros [Hop Hc]. split; [|auto].
  intros s R HI. destruct (Hop s R HI) as (HG & h' & HI' & Hk). eauto 6.
Qed.

Lemma wp_try {A} h (catches : pyexn → bool) (m : proc S A) handler Q :
  wp h m (λ r h', match r with
    | Ok a => Q (Ok a) h'
    | Exn e => if catches e then wp h' (handler e) Q else Q (Exn e) h' end) →
  wp h (ptry catches m handler) Q.
Proof.
  revert h. induction m as [[a|e]|C aw op k IH|ready wop k IH]; intros h; simpl; [done| | |intros (Hb & Hr & Hop & Hc); split_and!; [done|done| |by auto]; intros s R HI Hs; destruct (Hop s R HI Hs) as (HG & h' & HI' & Hk); eauto 6].
  - by case_match.
  - intros [Hop Hc]. split; [|auto].
    intros s R HI. destruct (Hop s R HI) as (HG & h' & HI' & Hk). eauto 6.
Qed.

Lemma wp_finally {A} h (m : proc S A) cleanup Q :
  wp h m (λ r h', wp h' cleanup (λ c h'', Q match c with Ok _ => r | Exn e => Exn e end h'')) →
  wp h (pfinally m cleanup) Q.
Proof.
  intros Hm. apply wp_bind, wp_try. eapply wp_mono; [|exact Hm].
  intros [a|e] h' Hc; simpl; apply wp_bind; (eapply wp_mono; [|exact Hc]); by intros [[]|e'] h''.
Qed.

(** Processes that hold [h] throughout. *)
Definition keeps {A} (h : list H) (p : proc S A) : Prop := wp h p (λ _ h', h' = h).

Lemma keeps_bind {A B} h (m : proc S A) (f : A → proc S B) :
  keeps h m → (∀ a, keeps h (f a)) → keeps h (m ≫= f).
Proof.
  intros Hm Hf. apply wp_bind. eapply wp_mono; [|exact Hm].
  intros [a|e] h' ->; [apply Hf|done].
Qed.

Lemma keeps_ret {A} h (r : result A) : keeps h (Done r).
Proof. done. Qed.

Lemma keeps_try {A} h catches (m : proc S A) handler :
  keeps h m → (∀ e, keeps h (handler e)) → keeps h (ptry catches m handler).
Proof.
  intros Hm Hf. apply wp_try. eapply wp_mono; [|exact Hm].
  intros [a|e] h' ->; [done|]. case_match; [apply Hf|done].
Qed.

Lemma keeps_finally {A} h (m : proc S A) cleanup : keeps h m → keeps h cleanup → keeps h (pfinally m cleanup).
Proof. intros Hm Hc. apply wp_finally. eapply wp_mono; [|exact Hm]. intros r h' ->. eapply wp_mono; [|exact Hc]. by intros [] h'' ->. Qed.

Lemma keeps_for {A} h l (body : A → proc S unit) : (∀ x, keeps h (body x)) → keeps h (pfor l body).
Proof. intros Hb. induction l as [|x l IH]; cbn [pfor]; [done|]. by apply keeps_bind. Qed.

Lemma keeps_act {A} h (aw : bool) (op : stM S A) :
  (∀ s R, Inv s (h ++ R) → G s (op s).2 ∧ Inv (op s).2 (h ++ R)) →
  keeps h (Act aw op Done).
Proof. intros Hop. split; [|done]. intros s R HI. destruct (Hop s R HI). split; [done|]. by exists h. Qed.

(** Waiting, for what is certain once nobody holds what blocks *)
Lemma keeps_wait `{!Reflexive G} h (ready : S → bool) :
  unblocking h → (∀ s R, Inv s R → unblocking R → ready s = true) → keeps h (wait ready).
Proof. intros Hh Hr. split_and!; [done|done| |done]. intros s R HI _. split; [done|]. by exists h. Qed.

Lemma keeps_map_in {A B} h (f : A → proc S B) l : (∀ x, x ∈ l → keeps h (f x)) → keeps h (pmap f l).
Proof.
  induction l as [|x l IH]; intros Hf; simpl; [done|].
  apply keeps_bind; [apply Hf; left|]. intros y. apply keeps_bind; [|done]. apply IH. intros z Hz. apply Hf. by right.
Qed.
Lemma keeps_map {A B} h (f : A → proc S B) l : (∀ x, keeps h (f x)) → keeps h (pmap f l).
Proof. intros Hf. by apply keeps_map_in. Qed.

Lemma keeps_gather {A} h (ps : list (proc S A)) : (∀ p, p ∈ ps → keeps h p) → keeps h (gather ps).
Proof.
  intros Hps. apply keeps_bind; [|intros rs; apply keeps_ret]. apply keeps_map_in. intros p Hp.
  apply keeps_try; [|done]. apply keeps_bind; [by apply Hps|done].
Qed.

(** Everything held may be waited for. *)
Definition all_block (_ : H) : Prop := True.
Lemma unblocking_all (h : list H) : Forall (λ r, ¬ all_block r) h ↔ h = [].
Proof. split; [|by intros ->]. destruct h as [|x h]; [done|]. by intros [[] _]%Forall_cons. Qed.

(** ** Soundness *)

Context `{!∀ s, Proper ((≡ₚ) ==> iff) (Inv s)}.

Definition pool_ok (sp : S * pool) : Prop :=
  ∃ hs, Forall2 (λ h p, wp h p (λ _ h', h' = [])) hs sp.2 ∧ Inv sp.1 (concat hs).

Lemma concat_insert (hs : list (list H)) i h h' :
  hs !! i = Some h → ∃ R, concat hs ≡ₚ h ++ R ∧ concat (<[i := h']> hs) ≡ₚ h' ++ R.
Proof.
  revert i. induction hs as [|h0 hs IH]; intros [|i]; simpl; [done|done| |].
  - intros [= ->]. by exists (concat hs).
  - intros (R & E1 & E2)%IH. exists (h0 ++ R). rewrite E1, E2. split; solve_Permutation.
Qed.

Context (spawns : proc S unit → Prop) (env : relation S).
Context (spawn_ok : ∀ p, spawns p → wp [] p (λ _ h', h' = [])).
Context (env_ok : ∀ s s' R, env s s' → Inv s R → Inv s' R).

Lemma pool_ok_move hs ps i h (p' : proc S unit) s s' :
  Forall2 (λ h p, wp h p (λ _ h', h' = [])) hs ps → hs !! i = Some h → Inv s (concat hs) →
  (∀ R, Inv s (h ++ R) → ∃ h', Inv s' (h' ++ R) ∧ wp h' p' (λ _ h', h' = [])) →
  pool_ok (s', <[i := p']> ps).
Proof.
  intros Hps Hh HI Hm. destruct (concat_insert hs i h h Hh) as (R & ER & _). rewrite ER in HI.
  destruct (Hm R HI) as (h' & HI' & Hk). exists (<[i := h']> hs). split; [by apply Forall2_insert|]. simpl.
  destruct (concat_insert hs i h h' Hh) as (R' & ER' & ->).
  assert (R ≡ₚ R') as <- by (apply (Permutation_app_inv_l h); by rewrite <-ER, <-ER'). done.
Qed.

Lemma pstep_ok sp sp' : pool_ok sp → pstep spawns env sp sp' → pool_ok sp'.
Proof.
  intros (hs & Hps & HI) Hstep. destruct Hstep as [s ps i p p' s' Hi Hn|s ps i p p' Hi Hc|s ps p Hp|s s' ps Hs];
    simpl in *.
  - destruct (Forall2_lookup_r _ _ _ _ _ Hps Hi) as (h & Hh & Hwp). eapply pool_ok_move; [done..|]. intros R HR.
    destruct p as [|B aw op k|ready wop k]; [done| |]; simpl in Hn, Hwp.
    + destruct (op s) as [r s1] eqn:Eop. simplify_eq. destruct Hwp as [Hop _].
      destruct (Hop s R HR) as (_ & h' & HI' & Hk). rewrite Eop in HI', Hk. eauto.
    + destruct Hwp as (_ & _ & Hop & _). destruct (ready s) eqn:Er; [|done]. simplify_eq.
      destruct (Hop s R HR Er) as (_ & h' & ?). eauto.
  - destruct (Forall2_lookup_r _ _ _ _ _ Hps Hi) as (h & Hh & Hwp).
    exists hs. split; [|done]. rewrite <-(list_insert_id hs i h) by done. apply Forall2_insert; [done|].
    destruct p as [|B [] op k|ready wop k]; try done; simpl in Hc, Hwp; simplify_eq; [by apply Hwp|].
    apply Hwp.
  - exists (hs ++ [[]]). split; [apply Forall2_app; [done|by repeat constructor; apply spawn_ok]|].
    simpl. by rewrite concat_app, app_nil_r.
  - exists hs. eauto.
Qed.

Lemma pool_sound sp sp' : pool_ok sp → rtc (pstep spawns env) sp sp' → pool_ok sp'.
Proof. intros Hok Hr. revert Hok. induction Hr; eauto using pstep_ok. Qed.

(** Every step of a sound pool stays within the guarantee. *)
Lemma pool_guarantee `{!Reflexive G} s ps s' ps' :
  (∀ a b, env a b → G a b) →
  pool_ok (s, ps) → pstep spawns env (s, ps) (s', ps') → G s s'.
Proof.
  intros HeG (hs & Hps & HI) Hstep.
  inversion Hstep as [? ? i p p' ? Hi Hn|? ? i p p' Hi Hc|? ? p Hp|? ? ? Hs]; simplify_eq/=; auto.
  destruct (Forall2_lookup_r _ _ _ _ _ Hps Hi) as (h & Hh & Hwp).
  destruct (concat_insert hs i h h Hh) as (R & ER & _). rewrite ER in HI.
  destruct p as [|B aw op k|ready wop k]; [done| |]; simpl in Hn, Hwp.
  - destruct (op s) as [r s1] eqn:Eop. simplify_eq.
    destruct Hwp as [Hop _]. destruct (Hop s R HI) as (HG & _). by rewrite Eop in HG.
  - destruct Hwp as (_ & _ & Hop & _). destruct (ready s) eqn:Er; [|done]. simplify_eq. by destruct (Hop s R HI Er).
Qed.

(** When every process has returned, nothing is held. *)
Lemma pool_done_held s ps : pool_ok (s, ps) → Forall is_done ps → Inv s [].
Proof.
  intros (hs & Hps & HI) Hd. simpl in *.
  assert (concat hs = []) as E; [|by rewrite E in HI].
  clear HI. induction Hps as [|h p hs ps Hp _ IH]; simpl; [done|].
  apply Forall_cons in Hd as [Hd1 Hd]. destruct p; [|done..]. simpl in Hp. subst. auto.
Qed.

(** As long as a process has not returned, some process can move. *)
Lemma pool_no_deadlock s ps :
  pool_ok (s, ps) → ¬ Forall is_done ps → ∃ i p p' s', ps !! i = Some p ∧ next p s = Some (p', s').
Proof.
  intros (hs & Hps & HI) Hd. simpl in *.
  destruct (decide (Exists (λ p, is_act p) ps)) as [(p & [i Hi]%list_elem_of_lookup & Ha)%Exists_exists|Hno].
  { destruct p as [|B aw op k|]; [done| |done]. exists i, (Act aw op k). simpl. destruct (op s) as [r s1]. eauto. }
  assert (unblocking (concat hs)) as Hb.
  { clear HI Hd. induction Hps as [|h p hs ps Hp _ IH]; [by constructor|]. simpl. apply Forall_app.
    split; [|apply IH; intros He; apply Hno; by right].
    destruct p as [r|B aw op k|ready wop k]; simpl in Hp; [by subst; constructor|by destruct Hno; left|apply Hp]. }
  apply not_Forall_Exists in Hd; [|intros; apply _]. apply Exists_exists in Hd as (p & [i Hi]%list_elem_of_lookup & Hp).
  destruct (Forall2_lookup_r _ _ _ _ _ Hps Hi) as (h & Hh & Hwp).
  destruct p as [r|B aw op k|ready wop k]; [by destruct Hp| |].
  - destruct Hno. apply Exists_exists. exists (Act aw op k). split; [by eapply list_elem_of_lookup_2|done].
  - exists i, (Wait ready wop k). simpl in *. destruct Hwp as (_ & Hr & _). erewrite Hr by done. eauto.
Qed.

(** A process running alone keeps the invariant. *)
Lemma exec_wp {A} h (p : proc S A) Q s R :
  wp h p Q → Inv s (h ++ R) →
  ∃ h', Q (exec p s).1 h' ∧ Inv (exec p s).2 (h' ++ R).
Proof.
  revert h s. induction p as [r|B aw op k IH|ready wop k IH]; intros h s; simpl; [eauto| |].
  - intros [Hop _] HI. destruct (Hop s R HI) as (_ & h' & HI' & Hk).
    destruct (op s) as [r s1]. eauto.
  - intros (_ & _ & Hop & Hc) HI. destruct (ready s) eqn:Er; [|by eauto].
    destruct (Hop s R HI Er) as (_ & h' & HI' & Hk). eauto.
Qed.

End proc.

(** ** Running alone *)
Section exec.
Context {S : Type}.

Lemma exec_bind {A B} (m : proc S A) (f : A → proc S B) s :
  exec (m ≫= f) s =
  match exec m s with (Ok a, s') => exec (f a) s' | (Exn e, s') => (Exn e, s') end.
Proof.
  unfold mbind, proc_bind. revert s.
  induction m as [[a|e]|C aw op k IH|ready wop k IH]; intros s; simpl; [done|done| |by destruct (ready s)].
  by destruct (op s).
Qed.

Lemma exec_try {A} catches (m : proc S A) handler s :
  exec (ptry catches m handler) s =
  match exec m s with
  | (Ok a, s') => (Ok a, s')
  | (Exn e, s') => if catches e then exec (handler e) s' else (Exn e, s')
  end.
Proof.
  revert s. induction m as [[a|e]|C aw op k IH|ready wop k IH]; intros s; simpl; [done|by case_match| |by destruct (ready s)].
  by destruct (op s).
Qed.

Lemma exec_lift {A B} (r : result A) (f : A → proc S B) s :
  exec (plift r ≫= f) s = match r with Ok a => exec (f a) s | Exn e => (Exn e, s) end.
Proof. by destruct r. Qed.

Lemma exec_act {A} aw (op : stM S A) s : exec (Act aw op Done) s = op s.
Proof. simpl. by destruct (op s). Qed.

Lemma exec_finally {A} (m : proc S A) cleanup s :
  exec (pfinally m cleanup) s =
  match exec m s with
  | (r, s') => match exec cleanup s' with (Ok _, s'') => (r, s'') | (Exn e, s'') => (Exn e, s'') end
  end.
Proof.
  unfold pfinally. rewrite exec_bind, exec_try. destruct (exec m s) as [[a|e] s']; simpl; rewrite exec_bind;
    by destruct (exec cleanup s') as [[[]|e'] s''].
Qed.

(** What a process running alone does to the state, and how it ends: rules for the
    relations between the states before and after that compose. *)
Context (R : relation S) `{!PreOrder R}.
Definition stays {A} (p : proc S A) : Prop := ∀ s, R s (exec p s).2.

Lemma stays_ret {A} (r : result A) : stays (Done r).
Proof. intros s. simpl. reflexivity. Qed.
Lemma stays_bind {A B} (m : proc S A) (f : A → proc S B) : stays m → (∀ a, stays (f a)) → stays (m ≫= f).
Proof.
  intros Hm Hf s. rewrite exec_bind. specialize (Hm s). destruct (exec m s) as [[a|e] s']; [|done].
  etrans; [exact Hm|apply Hf].
Qed.
Lemma stays_try {A} catches (m : proc S A) handler : stays m → (∀ e, stays (handler e)) → stays (ptry catches m handler).
Proof.
  intros Hm Hf s. rewrite exec_try. specialize (Hm s). destruct (exec m s) as [[a|e] s']; [done|].
  case_match; [|done]. etrans; [exact Hm|apply Hf].
Qed.
Lemma stays_finally {A} (m : proc S A) cleanup : stays m → stays cleanup → stays (pfinally m cleanup).
Proof.
  intros Hm Hc s. rewrite exec_finally. specialize (Hm s). destruct (exec m s) as [r s']. specialize (Hc s').
  destruct (exec cleanup s') as [[]]; by etrans.
Qed.
Lemma stays_act {A} aw (op : stM S A) : (∀ s, R s (op s).2) → stays (Act aw op Done).
Proof. intros Hop s. rewrite exec_act. apply Hop. Qed.
Lemma stays_map {A B} (f : A → proc S B) l : (∀ x, x ∈ l → stays (f x)) → stays (pmap f l).
Proof.
  induction l as [|x l IH]; intros Hf; cbn [pmap]; [apply stays_ret|].
  apply stays_bind; [apply Hf; by left|]. intros y. apply stays_bind; [|intros; apply stays_ret].
  apply IH. intros z Hz. apply Hf. by right.
Qed.
Lemma stays_for {A} l (body : A → proc S unit) : (∀ x, x ∈ l → stays (body x)) → stays (pfor l body).
Proof.
  induction l as [|x l IH]; intros Hf; cbn [pfor]; [apply stays_ret|]. apply stays_bind; [apply Hf; by left|].
  intros _. apply IH. intros y Hy. apply Hf. by right.
Qed.
Lemma stays_gather {A} (ps : list (proc S A)) : (∀ p, p ∈ ps → stays p) → stays (gather ps).
Proof.
  intros Hps. apply stays_bind; [|intros; apply stays_ret]. apply stays_map. intros p Hp.
  apply stays_try; [|intros; apply stays_ret]. apply stays_bind; [by apply Hps|intros; apply stays_ret].
Qed.

End exec.
