(* ===== verification/AssetStore.v ===== *)
(** * The asset store of the inference services

    [Asset] and [AssetManager] of [rtvi/rt-vlm/src/utils/asset_manager.py] (the
    file of [rtvi/rt-embed] is the same): media files and live streams under
    unique ids, with an optional camera id each, a storage limit, and eviction
    of old files.

    Coroutines of the event loop, worker threads and the eviction thread run the
    methods at the same time, so a method is a process ([Proc]): a section under
    [_asset_lock], a file-system call, or the code between two awaits is one
    action. Assets are objects shared by reference (a request locks the asset it
    uses), so they live on a heap and the tables hold addresses.

    Arguments of the model: the storage directory and limits of the
    constructor, the removal callback (which does not touch the store), what
    [du] prints for a set of directories, which directories the file system lets
    the service create and remove, and the values [uuid4] draws. Messages, logs
    and metrics are left out. *)

From Stdlib Require Import ZArith Lia Floats.SpecFloat.
From stdpp Require Import base list strings gmap sets relations pretty.
From S2P Require Import Prelude PyDict PyFloat PyNumber PyText Proc.
Open Scope string_scope.
Open Scope list_scope.
Open Scope Z_scope.

(** [ServiceException(message, code, status)] *)
Definition service_exception (code : string) (status : Z) : pyexn :=
  NamedError ("ServiceException " +:+ code +:+ " " +:+ str_Z status).
Definition FileExistsError : pyexn := NamedError "FileExistsError".
Definition FileNotFoundError : pyexn := NamedError "FileNotFoundError".
Definition PermissionError : pyexn := NamedError "PermissionError".

Record Place := {
  place_name : string;
  place_type : string;
  place_lat : option float;
  place_lon : option float;
  place_alt : option float;
  place_coordinate_x : option float;
  place_coordinate_y : option float;
}.
Definition no_place : Place := {|
  place_name := ""; place_type := ""; place_lat := None; place_lon := None; place_alt := None;
  place_coordinate_x := None; place_coordinate_y := None |}.

Record Asset := mk_Asset {
  asset_id : string;
  filename : string;
  purpose : string;
  media_type : string;
  path : string;
  use_count : Z;
  asset_dir : string;
  description : string;
  username : string;
  password : string;
  video_fps : option float;
  place : Place;
  creation_time : option string;
  url : option string;
  sensor_name : string;
  camera_id : option string;
}.

Definition with_use_count (n : Z) (a : Asset) : Asset :=
  mk_Asset (asset_id a) (filename a) (purpose a) (media_type a) (path a) n (asset_dir a)
    (description a) (username a) (password a) (video_fps a) (place a) (creation_time a) (url a)
    (sensor_name a) (camera_id a).
Definition update_video_fps (fps : float) (a : Asset) : Asset :=
  mk_Asset (asset_id a) (filename a) (purpose a) (media_type a) (path a) (use_count a) (asset_dir a)
    (description a) (username a) (password a) (Some fps) (place a) (creation_time a) (url a)
    (sensor_name a) (camera_id a).
Definition is_live (a : Asset) : bool := String.prefix "rtsp://" (path a).

(** The tables under [_asset_lock]; [asset_map] holds addresses of the heap. *)
Record Registry := mk_Registry {
  asset_map : dict string nat;
  camera_id_map : gmap string string;
  asset_id_reservations : gset string;
  camera_id_reservations : gmap string string;
}.

(** A directory of the file system. *)
Record Dir := mk_Dir { mtime : float; dir_size : Z }.

(** What the store shares with the machine: the asset directories by path, the
    wall clock, the removals handed to an executor, the uuids drawn. *)
Record Host := mk_Host {
  dirs : gmap string Dir;
  now : float;
  submitted : list string;
  uuids_drawn : nat;
}.

Record State := mk_State {
  heap : list Asset;
  registry : Registry;
  aged_out_assets : list string;
  storage_usage_cache : option float;
  storage_usage_cache_time : float;
  host : Host;
}.

Definition set_heap (h : list Asset) (s : State) : State :=
  mk_State h (registry s) (aged_out_assets s) (storage_usage_cache s) (storage_usage_cache_time s) (host s).
Definition set_registry (r : Registry) (s : State) : State :=
  mk_State (heap s) r (aged_out_assets s) (storage_usage_cache s) (storage_usage_cache_time s) (host s).
Definition set_aged_out (l : list string) (s : State) : State :=
  mk_State (heap s) (registry s) l (storage_usage_cache s) (storage_usage_cache_time s) (host s).
Definition set_cache (c : option float) (s : State) : State :=
  mk_State (heap s) (registry s) (aged_out_assets s) c (storage_usage_cache_time s) (host s).
Definition set_cache_at (c : option float) (t : float) (s : State) : State :=
  mk_State (heap s) (registry s) (aged_out_assets s) c t (host s).
Definition set_host (h : Host) (s : State) : State :=
  mk_State (heap s) (registry s) (aged_out_assets s) (storage_usage_cache s) (storage_usage_cache_time s) h.
Definition set_dirs (d : gmap string Dir) (s : State) : State :=
  set_host (mk_Host d (now (host s)) (submitted (host s)) (uuids_drawn (host s))) s.
Definition set_submitted (l : list string) (s : State) : State :=
  set_host (mk_Host (dirs (host s)) (now (host s)) l (uuids_drawn (host s))) s.
Definition set_drawn (n : nat) (s : State) : State :=
  set_host (mk_Host (dirs (host s)) (now (host s)) (submitted (host s)) n) s.

Definition assets (s : State) : dict string nat := asset_map (registry s).

(** The asset an id names. *)
Definition asset_of (s : State) (id : string) : option Asset := dget (assets s) id ≫= (heap s !!.).

(** [if x:] for an optional string. *)
Definition nonempty (x : option string) : option string :=
  match x with Some "" => None | _ => x end.

(** [os.path.join(a, b)] *)
Definition path_join (a b : string) : string :=
  if String.prefix "/" b then b
  else if String.eqb a "" || ends_with a "/" then a +:+ b
  else a +:+ "/" +:+ b.

(** [os.path.basename(p)] *)
Definition basename (p : string) : string := default "" (last (py_split "/" p)).

Definition AGE_OUT_THRESHOLD : float := lit 9 1.
Definition GB : positive := 1073741824.
Definition cache_ttl : float := lit 2 0.

(** [__init__] *)
Definition init (h : Host) : State :=
  mk_State [] (mk_Registry [] ∅ ∅ ∅) [] None f0 h.

(** ** Sections under the lock *)

Definition taken (id : string) (s : State) : bool :=
  dmem (assets s) id || bool_decide (id ∈ asset_id_reservations (registry s)).

(** [asset_id = str(uuid.uuid4()); while taken: draw again] *)
Fixpoint draw_uuid (uuid4 : nat → string) (fuel : nat) (s : State) : option (string * State) :=
  match fuel with
  | O => None
  | S fuel' =>
      let n := uuids_drawn (host s) in
      let s' := set_drawn (S n) s in
      if taken (uuid4 n) s then draw_uuid uuid4 fuel' s' else Some (uuid4 n, s')
  end.

Definition draws_enough (s : State) : nat :=
  S (length (assets s) + size (asset_id_reservations (registry s))).

Definition reserve_camera (id : string) (cam : option string) (r : Registry) : result Registry :=
  match nonempty cam with
  | None => Ok r
  | Some c =>
      let existing := nonempty (camera_id_map r !! c) in
      if bool_decide (is_Some (camera_id_reservations r !! c)) ||
         match existing with Some e => dmem (asset_map r) e | None => false end
      then Exn (service_exception "DuplicateCameraId" 409)
      else Ok (mk_Registry (asset_map r)
                 (match existing with Some _ => delete c (camera_id_map r) | None => camera_id_map r end)
                 (asset_id_reservations r) (<[c := id]> (camera_id_reservations r)))
  end.

Definition reserve_id (id : string) (r : Registry) : Registry :=
  mk_Registry (asset_map r) (camera_id_map r) ({[id]} ∪ asset_id_reservations r)
    (camera_id_reservations r).

Definition choose_id (uuid4 : nat → string) (requested : option string) (duplicate_code : string) :
    stM State string := λ s,
  match nonempty requested with
  | Some id => if taken id s then (Exn (service_exception duplicate_code 409), s) else (Ok id, s)
  | None =>
      match draw_uuid uuid4 (draws_enough s) s with
      | Some (id, s') => (Ok id, s')
      | None => (Exn (NamedError "out of fuel"), s)
      end
  end.

Definition reserve_asset_slot (uuid4 : nat → string) (requested cam : option string)
    (duplicate_code : string) : stM State string :=
  id ← choose_id uuid4 requested duplicate_code;
  s ← sget;
  r ← slift (reserve_camera id cam (registry s));
  _ ← sput (set_registry (reserve_id id r) s);
  mret id.

Definition release_asset_slot (id : string) (cam : option string) : stM State unit :=
  smod (λ s, let r := registry s in
    set_registry (mk_Registry (asset_map r) (camera_id_map r)
      (asset_id_reservations r ∖ {[id]})
      (match nonempty cam with
       | Some c => if bool_decide (camera_id_reservations r !! c = Some id)
                   then delete c (camera_id_reservations r) else camera_id_reservations r
       | None => camera_id_reservations r
       end)) s).

(** The [Asset] object is created and entered into the map. *)
Definition publish_asset (a : Asset) : stM State unit :=
  smod (λ s, let r := registry s in
    set_cache None
      (set_registry (mk_Registry
         (dset (asset_map r) (asset_id a) (length (heap s)))
         (match nonempty (camera_id a) with
          | Some c => <[c := asset_id a]> (camera_id_map r) | None => camera_id_map r end)
         (asset_id_reservations r ∖ {[asset_id a]})
         (match nonempty (camera_id a) with
          | Some c => delete c (camera_id_reservations r) | None => camera_id_reservations r end))
        (set_heap (heap s ++ [a]) s))).

Definition get_asset (id : string) : stM State nat := λ s,
  if bool_decide (id ∈ aged_out_assets s) then (Exn (service_exception "BadParameter" 400), s)
  else match dget (assets s) id with
       | Some addr => (Ok addr, s)
       | None => (Exn (service_exception "BadParameter" 400), s)
       end.

Definition deref (addr : nat) (s : State) : result Asset := require (heap s !! addr) AttributeError.

Definition get_asset_id_by_camera_id (c : string) (s : State) : option string :=
  camera_id_map (registry s) !! c.

(** [asset.lock()] and [asset.unlock()], which take no lock of the store *)
Definition add_use (n : Z) (addr : nat) : stM State unit :=
  smod (λ s, set_heap (alter (λ a, with_use_count (use_count a + n) a) addr (heap s)) s).
Definition lock : nat → stM State unit := add_use 1.
Definition unlock : nat → stM State unit := add_use (-1).

(** [_get_asset_id_for_file] *)
Definition get_asset_id_for_file (filepath : string) (s : State) : option Asset :=
  list_find (λ a, path a = filepath) (omap (λ kv, heap s !! kv.2) (assets s)) ≫= λ ia, Some ia.2.

(** ** The file system *)

Definition exists_dir (d : string) (s : State) : bool := bool_decide (is_Some (dirs (host s) !! d)).

(** [asset.asset_dir and os.path.exists(asset.asset_dir)] *)
Definition has_dir (s : State) (a : Asset) : bool :=
  negb (String.eqb (asset_dir a) "") && exists_dir (asset_dir a) s.

(** [os.path.getmtime(d)] *)
Definition getmtime (d : string) : stM State float := λ s,
  (x ← require (dirs (host s) !! d) FileNotFoundError; Ok (mtime x), s).

(** Opening a file for writing in [d]; its name is a plain file name. *)
Definition open_wb (d : string) : stM State unit := λ s,
  match dirs (host s) !! d with
  | Some x => (Ok tt, set_dirs (<[d := mk_Dir (now (host s)) (dir_size x)]> (dirs (host s))) s)
  | None => (Exn FileNotFoundError, s)
  end.

(** A chunk written through the open file; without effect on [du] once the
    directory is gone. *)
Definition write_chunk (d : string) (n : Z) : stM State unit :=
  smod (λ s, set_dirs (alter (λ x, mk_Dir (mtime x) (dir_size x + n)) d (dirs (host s))) s).

Section store.
Context (root : string) (max_storage_usage_gb : option float) (max_asset_age_hours : float).
Context (removal_callback : option (Asset → result bool)).
Context (du : gmap string Dir → result Z) (fs_allows : string → bool) (uuid4 : nat → string).

(** [os.makedirs(d)] *)
Definition makedirs (d : string) : stM State unit := λ s,
  if exists_dir d s then (Exn FileExistsError, s)
  else if negb (fs_allows d) then (Exn PermissionError, s)
  else (Ok tt, set_dirs (<[d := mk_Dir (now (host s)) 0]> (dirs (host s))) s).

(** [shutil.rmtree(d)] *)
Definition rmtree (d : string) : stM State unit := λ s,
  if negb (exists_dir d s) then (Exn FileNotFoundError, s)
  else if negb (fs_allows d) then (Exn PermissionError, s)
  else (Ok tt, set_dirs (delete d (dirs (host s))) s).

Definition do_rmtree (d : string) : stM State unit := scatch (rmtree d) (λ _, mret tt).

(** ** Storage usage *)

Definition ftruthy (x : float) : bool := negb (feq x f0).

(** [self._max_storage_usage_gb] when it is truthy *)
Definition limit : option float :=
  match max_storage_usage_gb with
  | Some m => if ftruthy m then Some m else None
  | None => None
  end.

Definition cached_usage (s : State) : option float :=
  match storage_usage_cache s with
  | Some u => if flt (fsub (now (host s)) (storage_usage_cache_time s)) cache_ttl then Some u else None
  | None => None
  end.

Definition get_storage_usage : proc State float :=
  '(t, cached) ← atomic (λ s, (Ok (now (host s), cached_usage s), s));
  match cached with
  | Some u => mret u
  | None =>
      output ← await (λ s, (du (dirs (host s)), s));
      usage ← plift (true_div output GB);
      _ ← atomic (smod (set_cache_at (Some usage) t));
      mret usage
  end.

Definition is_storage_above_threshold : proc State bool :=
  match limit with
  | None => mret false
  | Some m => u ← get_storage_usage; mret (flt (fmul m AGE_OUT_THRESHOLD) u)
  end.

(** ** Removal *)

Definition cleanup_check (id : string) : stM State nat := λ s,
  if bool_decide (id ∈ aged_out_assets s) then (Exn (service_exception "BadParameter" 400), s)
  else match dget (assets s) id with
       | None => (Exn (service_exception "BadParameter" 400), s)
       | Some addr =>
           match heap s !! addr with
           | Some a => if 0 <? use_count a then (Exn (service_exception "ResourceInUse" 409), s)
                       else (Ok addr, s)
           | None => (Exn AttributeError, s)
           end
       end.

Definition cleanup_remove (id : string) (a : Asset) : stM State unit :=
  smod (λ s, let r := registry s in
    set_cache None
      (set_registry (mk_Registry (ddel (asset_map r) id)
         (match nonempty (camera_id a) with
          | Some c => if bool_decide (camera_id_map r !! c = Some id)
                      then delete c (camera_id_map r) else camera_id_map r
          | None => camera_id_map r
          end)
         (asset_id_reservations r) (camera_id_reservations r)) s)).

Definition read_asset (addr : nat) : proc State Asset := atomic (λ s, (deref addr s, s)).

(** The check and the removal are two sections; the directory is deleted
    between them, by this thread or by the [executor]. *)
Definition cleanup_asset (id : string) (executor : bool) : proc State unit :=
  addr ← atomic (cleanup_check id);
  a ← read_asset addr;
  let d := asset_dir a in
  there ← atomic (λ s, (Ok (has_dir s a), s));
  _ ← (if there : bool
       then if executor
            then atomic (smod (λ s, set_submitted (submitted (host s) ++ [d]) s))
            else atomic (do_rmtree d)
       else mret tt);
  atomic (cleanup_remove id a).

(** A worker of the executor takes the next directory. *)
Definition run_submitted : proc State unit :=
  atomic (λ s, match submitted (host s) with
               | [] => (Ok tt, s)
               | d :: l => do_rmtree d (set_submitted l s)
               end).

(** ** Eviction *)

Definition ask_removal (addr : nat) : proc State bool :=
  match removal_callback with
  | None => mret true
  | Some cb => a ← read_asset addr; await (λ s, (cb a, s))
  end.

(** The [try] block of both evictions: whether the asset went. *)
Definition evict (id : string) (addr : nat) : proc State bool :=
  ptry is_Exception
    (ok ← ask_removal addr;
     if ok : bool then
       _ ← cleanup_asset id false;
       _ ← atomic (smod (λ s, set_aged_out (aged_out_assets s ++ [id]) s));
       mret true
     else mret false)
    (λ _, mret false).

Definition assets_with_dirs (s : State) : list (string * nat) :=
  filter (λ kv, Is_true (default false (has_dir s <$> heap s !! kv.2))) (assets s).

(** The order of [sorted] on pairs of a time and an id. *)
Definition older_first (x y : float * string) : bool :=
  if feq x.1 y.1 then String.leb x.2 y.2 else fle x.1 y.1.

Fixpoint age_out_loop (ids : list string) : proc State unit :=
  above ← is_storage_above_threshold;
  match ids with
  | [] => mret tt
  | id :: ids' =>
      if negb above then mret tt
      else
        addr ← atomic (get_asset id);
        a ← read_asset addr;
        if negb (use_count a =? 0) then age_out_loop ids'
        else
          _ ← get_storage_usage;
          gone ← evict id addr;
          if gone : bool then _ ← get_storage_usage; age_out_loop ids'
          else age_out_loop ids'
  end.

Definition mtime_of (kv : string * nat) : proc State float :=
  a ← read_asset kv.2; await (getmtime (asset_dir a)).

Definition age_out_assets : proc State unit :=
  match limit with
  | None => mret tt
  | Some _ =>
      _ ← get_storage_usage;
      above ← is_storage_above_threshold;
      if negb above then mret tt
      else
        _ ← get_storage_usage;
        l ← atomic (λ s, (Ok (assets_with_dirs s), s));
        match l with
        | [] => mret tt
        | _ =>
            mtimes ← pmap mtime_of l;
            _ ← age_out_loop (sort_by older_first (zip mtimes l.*1)).*2;
            above ← is_storage_above_threshold;
            if above : bool then _ ← get_storage_usage; mret tt else mret tt
        end
  end.

Definition is_OSError (e : pyexn) : bool :=
  bool_decide (e ∈ [FileExistsError; FileNotFoundError; PermissionError]).

Definition ttl_expire_one (t : float) (kv : string * nat) : proc State unit :=
  a ← read_asset kv.2;
  if negb (use_count a =? 0) then mret tt
  else
    m ← ptry is_OSError (m ← await (getmtime (asset_dir a)); mret (Some m)) (λ _, mret None);
    match m with
    | None => mret tt
    | Some m =>
        if fle (fsub t m) (fmul max_asset_age_hours (Z2f 3600)) then mret tt
        else _ ← evict kv.1 kv.2; mret tt
    end.

Definition ttl_expire_assets : proc State unit :=
  if negb (ftruthy max_asset_age_hours) then mret tt
  else
    t ← atomic (λ s, (Ok (now (host s)), s));
    l ← atomic (λ s, (Ok (assets_with_dirs s), s));
    pfor l (ttl_expire_one t).

(** One turn of the eviction thread. *)
Definition age_out_turn : proc State unit := _ ← age_out_assets; ttl_expire_assets.

(** ** Adding assets *)

(** [current_storage_size + current_file_size / (1024.0**3) > bound] *)
Definition exceeds (current_storage_size : float) (current_file_size : Z) (bound : float → float) :
    result bool :=
  match limit with
  | None => Ok false
  | Some m =>
      f ← float_of_int current_file_size;
      Ok (flt (bound m) (fadd current_storage_size (fdiv f (Z2f (Zpos GB)))))
  end.

(** The chunks [file.read] returns, by their sizes; an empty chunk ends the
    file, and so does the end of the list. *)
Fixpoint write_chunks (d : string) (chunks : list (result Z)) (current_storage_size : float)
    (current_file_size : Z) : proc State unit :=
  match chunks with
  | [] => await (mret tt)
  | c :: chunks' =>
      n ← await (slift c);
      if n =? 0 then mret tt
      else
        let read := current_file_size + n in
        over ← plift (exceeds current_storage_size read (λ m, fmul AGE_OUT_THRESHOLD m));
        '(storage, read) ←
          (if over : bool
           then _ ← age_out_assets; u ← get_storage_usage; mret (u, 0)
           else mret (current_storage_size, read));
        full ← plift (exceeds storage read (λ m, m));
        if full : bool then
          _ ← await (mret tt);
          _ ← ptry is_Exception (await (rmtree d)) (λ _, mret tt);
          praise (service_exception "ServerBusy" 503)
        else
          _ ← await (write_chunk d n);
          write_chunks d chunks' storage read
  end.

(** [try: body except BaseException: release; raise] *)
Definition releasing {A} (id : string) (cam : option string) (body : proc State A) : proc State A :=
  ptry is_BaseException body (λ e, _ ← atomic (release_asset_slot id cam); praise e).

Definition save_file (chunks : list (result Z)) (file_name purpose media_type : string)
    (creation_time file_id url : option string) (sensor_name : string) (cam : option string) :
    proc State string :=
  id ← atomic (reserve_asset_slot uuid4 file_id cam "DuplicateAssetId");
  let d := path_join root id in
  _ ← releasing id cam (
    _ ← ptry is_Exception (await (makedirs d))
          (λ e, praise (if bool_decide (e = FileExistsError)
                        then service_exception "BadParameter" 400
                        else service_exception "InternalServerError" 500));
    current_storage_size ← get_storage_usage;
    _ ← await (open_wb d);
    _ ← write_chunks d chunks current_storage_size 0;
    _ ← await (mret tt);
    atomic (publish_asset {|
      asset_id := id; filename := file_name; purpose := purpose; media_type := media_type;
      path := path_join d file_name; use_count := 0; asset_dir := d; description := "";
      username := ""; password := ""; video_fps := None; place := no_place;
      creation_time := creation_time; url := url; sensor_name := sensor_name; camera_id := cam |}));
  mret id.

(** [is_file] is [os.path.isfile(file_path)]. *)
Definition add_file (is_file : bool) (file_path purpose media_type : string) (reuse_asset : bool)
    (creation_time file_id : option string) (sensor_name : string) (cam : option string) :
    proc State string :=
  if negb is_file then praise (service_exception "InvalidParameters" 400)
  else
    id ← atomic (reserve_asset_slot uuid4 file_id cam "DuplicateAssetId");
    releasing id cam (
      reused ← (if reuse_asset
                then atomic (λ s, (Ok (get_asset_id_for_file file_path s), s)) else mret None);
      match reused with
      | Some a => _ ← atomic (release_asset_slot id cam); mret (asset_id a)
      | None =>
          _ ← atomic (publish_asset {|
            asset_id := id; filename := basename file_path; purpose := purpose;
            media_type := media_type; path := file_path; use_count := 0; asset_dir := "";
            description := ""; username := ""; password := ""; video_fps := None;
            place := no_place; creation_time := creation_time; url := None;
            sensor_name := sensor_name; camera_id := cam |});
          mret id
      end).

Definition add_live_stream (stream_url description username password : string) (p : Place)
    (stream_id : option string) (sensor_name : string) (cam : option string) : proc State string :=
  id ← atomic (reserve_asset_slot uuid4 stream_id cam "DuplicateStreamId");
  _ ← releasing id cam (
    atomic (publish_asset {|
      asset_id := id; filename := stream_url; purpose := ""; media_type := "";
      path := stream_url; use_count := 0; asset_dir := ""; description := description;
      username := username; password := password; video_fps := None; place := p;
      creation_time := None; url := None; sensor_name := sensor_name; camera_id := cam |}));
  mret id.

(** The end of [save_from_base64], once [n] bytes are decoded to be stored as
    [file_name]: the asset enters the map without a reservation. *)
Definition save_decoded (max_size : Z) (n : Z) (file_name media_type : string)
    (creation_time : option string) (id : string) : proc State string :=
  if max_size <? n then praise (service_exception "FileTooLarge" 413)
  else
    let d := path_join root id in
    _ ← ptry (λ e, bool_decide (e = FileExistsError)) (await (makedirs d))
          (λ _, praise (service_exception "BadParameter" 400));
    _ ← await (open_wb d);
    _ ← await (write_chunk d n);
    _ ← await (mret tt);
    _ ← atomic (smod (λ s, let r := registry s in
          set_cache None
            (set_registry (mk_Registry (dset (asset_map r) id (length (heap s))) (camera_id_map r)
               (asset_id_reservations r) (camera_id_reservations r))
              (set_heap (heap s ++ [{|
                 asset_id := id; filename := file_name; purpose := "vision"; media_type := media_type;
                 path := path_join d file_name; use_count := 0; asset_dir := d; description := "";
                 username := ""; password := ""; video_fps := None; place := no_place;
                 creation_time := creation_time; url := None; sensor_name := ""; camera_id := None |}]) s))));
    mret id.

(** A request that uses an asset locks it first. *)
Definition lock_asset (id : string) : proc State unit :=
  addr ← atomic (get_asset id); atomic (lock addr).

(** ** The calls that may run at once *)

Definition forget {A} (p : proc State A) : proc State unit := _ ← p; mret tt.

Inductive request : proc State unit → Prop :=
  | req_save_file chunks file_name purpose media_type ct file_id url sensor cam :
      request (forget (save_file chunks file_name purpose media_type ct file_id url sensor cam))
  | req_add_file is_file file_path purpose media_type reuse ct file_id sensor cam :
      request (forget (add_file is_file file_path purpose media_type reuse ct file_id sensor cam))
  | req_add_live_stream u descr user pass p stream_id sensor cam :
      request (forget (add_live_stream u descr user pass p stream_id sensor cam))
  | req_cleanup id executor : request (cleanup_asset id executor)
  | req_submitted : request run_submitted
  | req_age_out : request age_out_turn
  | req_lock id : request (lock_asset id)
  | req_unlock addr : request (atomic (unlock addr))
  | req_fps addr fps :
      request (atomic (smod (λ s, set_heap (alter (update_video_fps fps) addr (heap s)) s))).

(** Outside the store, time passes and directories change. *)
Inductive outside : relation State :=
  | outside_host s h : outside s (set_host h s).

Abbreviation runs := (rtc (pstep request outside)).

(** ** The invariant

    [held] lists the slots the running processes hold: an id, and the camera id
    reserved with it. *)

Abbreviation slot := (string * option string)%type.

Definition id_at (s : State) (addr : nat) : option string := asset_id <$> heap s !! addr.
Definition camera_at (s : State) (addr : nat) : option string :=
  heap s !! addr ≫= λ a, nonempty (camera_id a).

Record store_inv (s : State) (held : list slot) : Prop := {
  inv_wf : dict_wf (assets s);
  inv_obj : ∀ id addr, dget (assets s) id = Some addr → id_at s addr = Some id;
  inv_named : dget (assets s) "" = None ∧ "" ∉ held.*1;
  inv_nodup : NoDup held.*1;
  inv_reserved : ∀ id, id ∈ asset_id_reservations (registry s) ↔ id ∈ held.*1;
  inv_free : ∀ id, id ∈ held.*1 → dget (assets s) id = None;
  inv_cameras : ∀ c id, camera_id_reservations (registry s) !! c = Some id ↔ (id, Some c) ∈ held;
  inv_pending : ∀ c id id' addr, (id', Some c) ∈ held → dget (assets s) id = Some addr →
    camera_at s addr ≠ Some c;
  inv_lookup : ∀ c id addr, dget (assets s) id = Some addr → camera_at s addr = Some c →
    camera_id_map (registry s) !! c = Some id;
}.

#[export] Instance store_inv_perm s : Proper ((≡ₚ) ==> iff) (store_inv s).
Proof.
  assert (∀ h h', h ≡ₚ h' → store_inv s h → store_inv s h') as Himp.
  { intros h h' E [? ? ? Hn Hr Hf Hc Hp ?]. split; [done|done| | | | | | |done].
    - by rewrite <-E.
    - by rewrite <-E.
    - intros id. by rewrite <-E.
    - intros id. rewrite <-E. apply Hf.
    - intros c id. by rewrite <-E.
    - intros c id id' addr. rewrite <-E. apply Hp. }
  intros h h' E. split; apply Himp; [done|by symmetry].
Qed.

(** What a step may do to what others see: an id keeps its asset until it is
    removed, an asset keeps its identity, a removed id is remembered. *)
Record evolves (s s' : State) : Prop := {
  ev_bound : ∀ id addr, dget (assets s) id = Some addr →
    dget (assets s') id = Some addr ∨ dget (assets s') id = None;
  ev_heap : ∀ addr a, heap s !! addr = Some a → ∃ a', heap s' !! addr = Some a' ∧
    asset_id a' = asset_id a ∧ path a' = path a ∧ asset_dir a' = asset_dir a ∧ camera_id a' = camera_id a;
  ev_aged : aged_out_assets s `prefix_of` aged_out_assets s';
}.

#[export] Instance evolves_refl : Reflexive evolves.
Proof. intros s. split; eauto 7. Qed.

(** Actions that leave the tables alone. *)
Definition quiet {A} (op : stM State A) : Prop :=
  ∀ s, registry (op s).2 = registry s ∧ evolves s (op s).2.

Lemma quiet_inv s s' held :
  registry s' = registry s → evolves s s' → store_inv s held → store_inv s' held.
Proof.
  intros Er [_ Hh _] [Hwf Hobj Hnm Hn Hr Hf Hc Hp Hl].
  assert (assets s' = assets s) as Ea by (unfold assets; by rewrite Er).
  assert (∀ id addr, dget (assets s) id = Some addr →
    id_at s' addr = id_at s addr ∧ camera_at s' addr = camera_at s addr) as Hat.
  { intros id addr Hd. apply Hobj in Hd as Hi. unfold id_at, camera_at in *.
    destruct (heap s !! addr) as [a|] eqn:E; [|done].
    destruct (Hh addr a E) as (a' & E' & Hid & _ & _ & Hcam). rewrite E'. simpl. by rewrite Hid, Hcam. }
  split; rewrite ?Ea, ?Er; try done.
  - intros id addr Hd. rewrite (proj1 (Hat _ _ Hd)). auto.
  - intros c id id' addr Hh' Hd. rewrite (proj2 (Hat _ _ Hd)). eauto.
  - intros c id addr Hd. rewrite (proj2 (Hat _ _ Hd)). eauto.
Qed.

Lemma keeps_quiet {A} h (aw : bool) (op : stM State A) :
  quiet op → keeps store_inv evolves all_block h (Act aw op Done).
Proof.
  intros Hq. apply keeps_act. intros s R HI. destruct (Hq s) as [Er He].
  split; [done|]. by apply (quiet_inv s).
Qed.

Lemma quiet_read {A} (f : State → result A) : quiet (λ s, (f s, s)).
Proof. intros s. split; [done|reflexivity]. Qed.

Lemma quiet_mod f :
  (∀ s, registry (f s) = registry s ∧ heap (f s) = heap s ∧ aged_out_assets s `prefix_of` aged_out_assets (f s)) →
  quiet (smod f).
Proof.
  intros Hf s. simpl. destruct (Hf s) as (Er & Eh & Ha). split; [done|].
  split; [|rewrite Eh; eauto 7|done]. intros id addr Hd. left. unfold assets in *. by rewrite Er.
Qed.

Lemma quiet_host {A} (f : State → result A * State) :
  (∀ s, ∃ h, (f s).2 = set_host h s) → quiet f.
Proof.
  intros Hf s. destruct (Hf s) as (h & ->). split; [done|].
  split; [by left|simpl; eauto 7|done].
Qed.

Lemma quiet_alter f addr :
  (∀ a, asset_id (f a) = asset_id a ∧ path (f a) = path a ∧ asset_dir (f a) = asset_dir a ∧
        camera_id (f a) = camera_id a) →
  quiet (smod (λ s, set_heap (alter f addr (heap s)) s)).
Proof.
  intros Hf s. split; [done|]. split; [by left| |done].
  intros addr' a E. simpl. destruct (decide (addr = addr')) as [->|Hne].
  - exists (f a). split; [by rewrite list_lookup_alter_eq, E|apply Hf].
  - exists a. by rewrite list_lookup_alter_ne.
Qed.

Lemma quiet_rmtree d : quiet (rmtree d).
Proof.
  apply quiet_host. intros s. unfold rmtree, set_dirs. repeat case_match; simpl; eauto.
  all: exists (host s); by destruct s.
Qed.

Lemma quiet_do_rmtree d : quiet (do_rmtree d).
Proof.
  intros s. unfold do_rmtree, scatch. pose proof (quiet_rmtree d s) as Hq.
  by destruct (rmtree d s) as [[]].
Qed.

Lemma quiet_makedirs d : quiet (makedirs d).
Proof.
  apply quiet_host. intros s. unfold makedirs, set_dirs. repeat case_match; simpl; eauto.
  all: exists (host s); by destruct s.
Qed.

Lemma quiet_open d : quiet (open_wb d).
Proof.
  apply quiet_host. intros s. unfold open_wb, set_dirs. repeat case_match; simpl; eauto.
  exists (host s). by destruct s.
Qed.

Lemma quiet_cleanup_check id : quiet (cleanup_check id).
Proof. intros s. unfold cleanup_check. repeat case_match; split; done || reflexivity. Qed.

Lemma quiet_get_asset id : quiet (get_asset id).
Proof. intros s. unfold get_asset. repeat case_match; split; done || reflexivity. Qed.

Lemma quiet_submitted :
  quiet (λ s, match submitted (host s) with
              | [] => (Ok tt, s)
              | d :: l => do_rmtree d (set_submitted l s)
              end).
Proof.
  apply quiet_host. intros s. case_match; simpl.
  - exists (host s). by destruct s.
  - unfold do_rmtree, scatch, rmtree, set_submitted, set_dirs. repeat case_match; simplify_eq/=; eauto.
Qed.

Lemma cleanup_remove_keeps h id a :
  keeps store_inv evolves all_block h (atomic (cleanup_remove id a)).
Proof.
  apply keeps_act. intros s R [Hwf Hobj Hnm Hn Hr Hf Hc Hp Hl]. simpl.
  assert (∀ i addr, dget (ddel (assets s) id) i = Some addr → i ≠ id ∧ dget (assets s) i = Some addr) as Hsub.
  { intros i addr. rewrite dget_ddel. case_decide; [done|auto]. }
  split; [split|split]; simpl; unfold assets in *; simpl in *.
  - intros i addr Hd. rewrite dget_ddel. case_decide; auto.
  - eauto 7.
  - done.
  - by apply dict_wf_ddel.
  - intros i addr [_ Hd]%Hsub. by apply Hobj.
  - split; [|apply Hnm]. rewrite dget_ddel. case_decide; [done|apply Hnm].
  - done.
  - done.
  - intros i Hi. rewrite dget_ddel. case_decide; auto.
  - done.
  - intros c i i' addr Hh [_ Hd]%Hsub. by apply (Hp c i i' addr).
  - intros c i addr [Hne Hd]%Hsub Hcam. specialize (Hl c i addr Hd Hcam).
    repeat case_match; [|done|done].
    rewrite bool_decide_eq_true in *. rewrite lookup_delete_ne; [done|]. intros ->. congruence.
Qed.

(** ** Reservations *)

Lemma nonempty_Some x c : nonempty x = Some c → x = Some c ∧ c ≠ "".
Proof. destruct x as [[]|]; simpl; naive_solver. Qed.

Lemma taken_false id s :
  taken id s = false ↔ dget (assets s) id = None ∧ id ∉ asset_id_reservations (registry s).
Proof.
  unfold taken. rewrite orb_false_iff, bool_decide_eq_false. unfold dmem.
  destruct (dget (assets s) id); naive_solver.
Qed.

Lemma taken_drawn id n s : taken id (set_drawn n s) = taken id s.
Proof. done. Qed.

Lemma draw_uuid_spec fuel s id s' :
  draw_uuid uuid4 fuel s = Some (id, s') →
  taken id s = false ∧ ∃ n, id = uuid4 n ∧ s' = set_drawn (S n) s.
Proof.
  revert s. induction fuel as [|fuel IH]; intros s; simpl; [done|].
  destruct (taken _ s) eqn:E.
  - intros (Ht & n & -> & ->)%IH. rewrite taken_drawn in Ht. eauto.
  - intros [= <- <-]. eauto.
Qed.

(** The text of a uuid. *)
Context (uuid4_text : ∀ n, uuid4 n ≠ "").

Lemma choose_id_spec requested code s :
  (∃ e s', choose_id uuid4 requested code s = (Exn e, s')) ∨
  ∃ id n, choose_id uuid4 requested code s = (Ok id, set_drawn n s) ∧ taken id s = false ∧ id ≠ "".
Proof.
  unfold choose_id. destruct (nonempty requested) as [id|] eqn:Er.
  - apply nonempty_Some in Er as [_ ?]. destruct (taken id s) eqn:E; [eauto|right].
    exists id, (uuids_drawn (host s)). split; [|done]. by destruct s as [? ? ? ? ? []].
  - destruct (draw_uuid _ _ s) as [[id s']|] eqn:E; [right|eauto].
    apply draw_uuid_spec in E as (Ht & n & -> & ->). eauto.
Qed.

Lemma reserve_camera_spec id cam s R r :
  store_inv s R → reserve_camera id cam (registry s) = Ok r →
  asset_map r = assets s ∧ asset_id_reservations r = asset_id_reservations (registry s) ∧
  (∀ c i, camera_id_reservations r !! c = Some i ↔
     (nonempty cam = Some c ∧ i = id) ∨ (nonempty cam ≠ Some c ∧ camera_id_reservations (registry s) !! c = Some i)) ∧
  (∀ c, nonempty cam = Some c → camera_id_reservations (registry s) !! c = None ∧
     ∀ i addr, dget (assets s) i = Some addr → camera_at s addr ≠ Some c) ∧
  (∀ c, nonempty cam ≠ Some c → camera_id_map r !! c = camera_id_map (registry s) !! c).
Proof.
  intros [_ _ Hnm _ _ _ _ _ Hl] Hcam. unfold reserve_camera in Hcam.
  destruct (nonempty cam) as [c|] eqn:Ecam;
    [|simplify_eq; split_and!; try done; intros c i; split; [by right|by intros [[]|[]]]].
  case_match eqn:Et; [done|]. apply orb_false_iff in Et as [Et1%bool_decide_eq_false Et2].
  simplify_eq/=. rewrite <-eq_None_not_Some in Et1.
  split_and!; [done|done| | |].
  - intros c' i. rewrite lookup_insert_Some. split.
    + intros [[-> ->]|[Hne ?]]; [by left|right]. split; [congruence|done].
    + intros [[[= ->] ->]|[Hne ?]]; [by left|right]. split; [congruence|done].
  - intros c' [= <-]. split; [done|]. intros i addr Hd Ha. rewrite (Hl c i addr Hd Ha) in Et2.
    unfold assets, dmem in *. destruct Hnm as [Hnm _].
    destruct i; simpl in *; [congruence|]. by rewrite Hd in Et2.
  - intros c' Hne. case_match; [|done]. rewrite lookup_delete_ne; [done|]. congruence.
Qed.

Lemma reserve_inv s R id cam r :
  taken id s = false → id ≠ "" → reserve_camera id cam (registry s) = Ok r →
  store_inv s R → store_inv (set_registry (reserve_id id r) s) ((id, nonempty cam) :: R).
Proof.
  intros [Hfree Hnr]%taken_false Hid Hcam HI.
  destruct (reserve_camera_spec id cam s R r HI Hcam) as (Em & Ei & Ec & Hno & Ek).
  destruct HI as [Hwf Hobj Hnm Hn Hr Hf Hc Hp Hl].
  split; unfold assets; simpl; rewrite ?Em, ?Ei; csimpl.
  - done.
  - done.
  - split; [apply Hnm|]. rewrite not_elem_of_cons. by split; [|apply Hnm].
  - apply NoDup_cons. by rewrite <-Hr.
  - intros i. rewrite elem_of_union, elem_of_singleton, elem_of_cons. by rewrite Hr.
  - intros i [->|Hi]%elem_of_cons; [done|auto].
  - intros c i. rewrite Ec, elem_of_cons, <-Hc.
    split; [intros [[E ->]|[_ ?]]; [left; by rewrite E|by right]|].
    intros [[= -> E]|E]; [by left|right]. split; [|done]. intros Ecam.
    destruct (Hno c Ecam) as [Hnone _]. congruence.
  - intros c i i' addr [[= -> E]|E]%elem_of_cons Hd; [by eapply Hno|by eapply Hp].
  - intros c i addr Hd Ha. rewrite Ek; [by eapply Hl|]. intros Ecam. by eapply Hno.
Qed.

Abbreviation swp := (wp store_inv evolves all_block).
Abbreviation skeeps := (keeps store_inv evolves all_block).

Lemma evolves_same s s' :
  assets s' = assets s → heap s' = heap s → aged_out_assets s' = aged_out_assets s → evolves s s'.
Proof. intros Ea Eh Eo. split; rewrite ?Ea, ?Eh, ?Eo; eauto 7. Qed.

Lemma reserve_wp requested cam code :
  swp [] (atomic (reserve_asset_slot uuid4 requested cam code))
    (λ r h, match r with Ok id => h = [(id, nonempty cam)] | Exn _ => h = [] end).
Proof.
  split; [|done]. intros s R HI. unfold reserve_asset_slot. unfold mbind, stM_bind.
  destruct (choose_id_spec requested code s) as [(e & s' & E)|(id & n & E & Ht & Hid)].
  - assert (s' = s) as ->.
    { unfold choose_id in E. by repeat case_match; simplify_eq. }
    rewrite E. simpl. split; [reflexivity|]. by exists [].
  - rewrite E. simpl. set (s1 := set_drawn n s).
    assert (store_inv s1 R) as HI1 by (by apply (quiet_inv s); [|apply evolves_same|]).
    unfold slift. destruct (reserve_camera id cam (registry s)) as [r|e] eqn:Er; simpl.
    + destruct (reserve_camera_spec id cam s1 R r HI1 Er) as (Em & _).
      split; [by apply evolves_same|]. exists [(id, nonempty cam)]. split; [|done].
      by apply reserve_inv.
    + split; [by apply evolves_same|]. by exists [].
Qed.

Lemma release_inv s R id cam :
  store_inv s ((id, nonempty cam) :: R) → store_inv (release_asset_slot id cam s).2 R.
Proof.
  intros [Hwf Hobj Hnm Hn Hr Hf Hc Hp Hl]. csimpl in *.
  apply NoDup_cons in Hn as [HnR Hn]. rewrite not_elem_of_cons in Hnm.
  split; unfold assets; simpl.
  - done.
  - done.
  - naive_solver.
  - done.
  - intros i. rewrite elem_of_difference, elem_of_singleton, Hr, elem_of_cons.
    split; [naive_solver|]. intros Hi. split; [by right|]. by intros ->.
  - intros i Hi. apply Hf. by right.
  - intros c i. destruct (nonempty cam) as [c0|].
    + assert (camera_id_reservations (registry s) !! c0 = Some id) as Hown by (apply Hc; by left).
      rewrite bool_decide_true, lookup_delete_Some, Hc, elem_of_cons by done. split.
      * intros [Hne [[= -> ->]|Hi]]; [done|done].
      * intros Hi. split; [|by right]. intros <-. apply HnR, list_elem_of_fmap.
        exists (i, Some c0). split; [|done]. simpl.
        assert (camera_id_reservations (registry s) !! c0 = Some i) by (apply Hc; by right). congruence.
    + rewrite Hc, elem_of_cons. split; [by intros [|]|by right].
  - intros c i i' addr Hi. apply (Hp c i i'). by right.
  - done.
Qed.

Lemma release_wp id cam :
  swp [(id, nonempty cam)] (atomic (release_asset_slot id cam)) (λ r h, is_ok r = true ∧ h = []).
Proof.
  split; [|done]. intros s R HI. split; [by apply evolves_same|]. exists [].
  split; [by apply (release_inv s R id cam)|done].
Qed.

Lemma publish_inv s R a :
  store_inv s ((asset_id a, nonempty (camera_id a)) :: R) →
  store_inv (publish_asset a s).2 R ∧ evolves s (publish_asset a s).2.
Proof.
  intros HI. pose proof HI as [Hwf Hobj Hnm Hn Hr Hf Hc Hp Hl]. csimpl in *.
  apply NoDup_cons in Hn as [HnR Hn]. rewrite not_elem_of_cons in Hnm.
  assert (dget (assets s) (asset_id a) = None) as Hnew by (apply Hf; by left).
  assert (∀ i addr, dget (dset (assets s) (asset_id a) (length (heap s))) i = Some addr →
    (i = asset_id a ∧ addr = length (heap s)) ∨
    (i ≠ asset_id a ∧ dget (assets s) i = Some addr ∧ ∃ b, heap s !! addr = Some b)) as Hinv.
  { intros i addr. rewrite dget_dset. case_decide; [intros [= <-]; by left|].
    intros Hd. right. split_and!; [done|done|]. apply Hobj in Hd. unfold id_at in Hd.
    destruct (heap s !! addr); [eauto|done]. }
  assert (∀ (b : Asset) (addr : nat), heap s !! addr = Some b → (heap s ++ [a]) !! addr = Some b) as Hold
    by (intros; by apply lookup_app_l_Some).
  assert ((heap s ++ [a]) !! length (heap s) = Some a) as Hat.
  { rewrite lookup_app_r, Nat.sub_diag by lia. done. }
  assert (store_inv (release_asset_slot (asset_id a) (camera_id a) s).2 R) as HR by (by apply release_inv).
  destruct HR as [_ _ HRnm _ HRr HRf HRc _ _]. unfold assets in *. simpl in *.
  split; [split; unfold assets; simpl|].
  - by apply dict_wf_dset.
  - unfold id_at. simpl. intros i addr [[-> ->]|(_ & Hd & b & Hb)]%Hinv; [by rewrite Hat|].
    rewrite (Hold b addr Hb). specialize (Hobj i addr Hd). unfold id_at in Hobj. by rewrite Hb in Hobj.
  - split; [|apply HRnm]. rewrite dget_dset, decide_False; [apply Hnm|]. destruct Hnm as (_ & ? & _). congruence.
  - done.
  - done.
  - intros i Hi. rewrite dget_dset. case_decide; [by subst|auto].
  - intros c i. rewrite <-HRc. destruct (nonempty (camera_id a)) as [c0|]; [|done].
    rewrite bool_decide_true; [done|]. apply Hc. by left.
  - unfold camera_at. simpl. intros c i i' addr Hi [[-> ->]|(_ & Hd & b & Hb)]%Hinv.
    + rewrite Hat. simpl. intros E. rewrite E in Hc.
      assert (camera_id_reservations (registry s) !! c = Some (asset_id a)) by (apply Hc; by left).
      assert (camera_id_reservations (registry s) !! c = Some i') by (apply Hc; by right).
      apply HnR, list_elem_of_fmap. exists (i', Some c). split; [simpl; congruence|done].
    + rewrite (Hold b addr Hb). simpl. intros E. apply (Hp c i i' addr); [by right|done|].
      unfold camera_at. by rewrite Hb.
  - unfold camera_at. simpl. intros c i addr [[-> ->]|(Hne & Hd & b & Hb)]%Hinv.
    + rewrite Hat. simpl. intros ->. by rewrite lookup_insert_eq.
    + rewrite (Hold b addr Hb). simpl. intros E.
      assert (camera_at s addr = Some c) as Hcam by (unfold camera_at; by rewrite Hb).
      destruct (nonempty (camera_id a)) as [c0|] eqn:Ea; [|by eapply Hl].
      rewrite lookup_insert_ne; [by eapply Hl|]. intros ->.
      apply (Hp c i (asset_id a) addr); [by left|done|done].
  - split; simpl; [|eauto 7|done].
    intros i addr Hd. unfold assets in *. simpl. rewrite dget_dset. case_decide; [subst; congruence|by left].
Qed.

Lemma publish_wp a id cam :
  asset_id a = id → camera_id a = cam →
  swp [(id, nonempty cam)] (atomic (publish_asset a)) (λ r h, is_ok r = true ∧ h = []).
Proof.
  intros <- <-. split; [|done]. intros s R HI. destruct (publish_inv s R a HI) as [HI' He].
  split; [done|]. by exists [].
Qed.

(** ** Every method keeps what it holds, and gives it back *)

Lemma quiet_skip : quiet (mret tt : stM State unit).
Proof. intros s. by split. Qed.

Lemma quiet_write d n : quiet (write_chunk d n).
Proof. by apply quiet_mod. Qed.

Lemma quiet_aged id : quiet (smod (λ s, set_aged_out (aged_out_assets s ++ [id]) s)).
Proof. apply quiet_mod. intros s. split_and!; [done|done|]. by apply prefix_app_r. Qed.

Lemma quiet_add_use n addr : quiet (add_use n addr).
Proof. by apply quiet_alter. Qed.

Ltac solve_quiet := first
  [ apply quiet_read | apply quiet_skip | apply quiet_write | apply quiet_aged | apply quiet_add_use
  | apply quiet_do_rmtree | apply quiet_rmtree | apply quiet_makedirs | apply quiet_open
  | apply quiet_cleanup_check | apply quiet_get_asset | apply quiet_submitted
  | by apply quiet_mod | by apply quiet_alter ].

Create HintDb pkeep.
Ltac pkeep := repeat first
  [ progress intros
  | solve [auto with pkeep nocore]
  | apply keeps_ret
  | apply cleanup_remove_keeps
  | apply keeps_quiet; solve_quiet
  | apply keeps_bind
  | apply keeps_try
  | apply keeps_map
  | match goal with
    | |- keeps _ _ _ _ (match ?x with _ => _ end) => destruct x
    end ].

Lemma get_storage_usage_keeps h : skeeps h get_storage_usage.
Proof. unfold get_storage_usage. pkeep. Qed.
Hint Resolve get_storage_usage_keeps : pkeep.

Lemma above_keeps h : skeeps h is_storage_above_threshold.
Proof. unfold is_storage_above_threshold. pkeep. Qed.
Hint Resolve above_keeps : pkeep.

Lemma cleanup_keeps h id executor : skeeps h (cleanup_asset id executor).
Proof. unfold cleanup_asset, read_asset. pkeep. Qed.
Hint Resolve cleanup_keeps : pkeep.

Lemma evict_keeps h id addr : skeeps h (evict id addr).
Proof. unfold evict, ask_removal, read_asset. pkeep. Qed.
Hint Resolve evict_keeps : pkeep.

Lemma age_out_loop_keeps h ids : skeeps h (age_out_loop ids).
Proof. induction ids as [|id ids IH]; cbn [age_out_loop]; unfold read_asset; pkeep. Qed.
Hint Resolve age_out_loop_keeps : pkeep.

Lemma age_out_keeps h : skeeps h age_out_assets.
Proof. unfold age_out_assets, mtime_of, read_asset. pkeep. Qed.
Hint Resolve age_out_keeps : pkeep.

Lemma ttl_one_keeps h t kv : skeeps h (ttl_expire_one t kv).
Proof. unfold ttl_expire_one, read_asset. pkeep. Qed.
Hint Resolve ttl_one_keeps : pkeep.

Lemma ttl_keeps h : skeeps h ttl_expire_assets.
Proof. unfold ttl_expire_assets. pkeep. apply keeps_for. pkeep. Qed.
Hint Resolve ttl_keeps : pkeep.

Lemma write_chunks_keeps h d chunks u n : skeeps h (write_chunks d chunks u n).
Proof. revert u n. induction chunks as [|c chunks IH]; intros u n; cbn [write_chunks]; pkeep. Qed.
Hint Resolve write_chunks_keeps : pkeep.

(** A slot is given back by publishing or, when an exception ends the method,
    by [release_asset_slot]. *)
Definition settles {A} (id : string) (cam : option string) (r : result A) (h : list slot) : Prop :=
  h = match r with Ok _ => [] | Exn _ => [(id, nonempty cam)] end.

Lemma settles_bind {A B} id cam (m : proc State A) (f : A → proc State B) :
  skeeps [(id, nonempty cam)] m → (∀ a, swp [(id, nonempty cam)] (f a) (settles id cam)) →
  swp [(id, nonempty cam)] (m ≫= f) (settles id cam).
Proof.
  intros Hm Hf. apply wp_bind. eapply wp_mono; [|exact Hm]. intros [a|e] h ->; [apply Hf|done].
Qed.

Lemma releasing_wp {A} id cam (body : proc State A) :
  swp [(id, nonempty cam)] body (settles id cam) →
  swp [(id, nonempty cam)] (releasing id cam body) (λ _ h, h = []).
Proof.
  intros Hb. apply wp_try. eapply wp_mono; [|exact Hb]. intros [a|e] h ->; [done|].
  simpl is_BaseException. apply wp_bind. eapply wp_mono; [|apply release_wp].
  by intros [a|e'] h' [? ->].
Qed.

Lemma publish_settles a id cam :
  asset_id a = id → camera_id a = cam →
  swp [(id, nonempty cam)] (atomic (publish_asset a)) (settles id cam).
Proof. intros. eapply wp_mono; [|by apply publish_wp]. by intros [] h [? ->]. Qed.

Lemma reserving_wp {A} requested cam code (body : string → proc State A) :
  (∀ id, swp [(id, nonempty cam)] (body id) (λ _ h, h = [])) →
  swp [] (id ← atomic (reserve_asset_slot uuid4 requested cam code); body id) (λ _ h, h = []).
Proof.
  intros Hb. apply wp_bind. eapply wp_mono; [|apply reserve_wp].
  intros [id|e] h ->; [apply Hb|done].
Qed.

Lemma returning_wp {A B} h (m : proc State A) (v : B) :
  swp h m (λ _ h, h = []) → swp h (_ ← m; mret v) (λ _ h, h = []).
Proof. intros Hm. apply wp_bind. eapply wp_mono; [|exact Hm]. by intros [a|e] h'. Qed.

Lemma save_file_wp chunks file_name purpose media_type ct file_id u sensor cam :
  swp [] (save_file chunks file_name purpose media_type ct file_id u sensor cam) (λ _ h, h = []).
Proof.
  apply reserving_wp. intros id. apply returning_wp, releasing_wp.
  repeat (apply settles_bind; [pkeep|intros ?]). by apply publish_settles.
Qed.

Lemma add_file_wp is_file file_path purpose media_type reuse ct file_id sensor cam :
  swp [] (add_file is_file file_path purpose media_type reuse ct file_id sensor cam) (λ _ h, h = []).
Proof.
  unfold add_file. destruct is_file; [|done]. apply reserving_wp. intros id. apply releasing_wp.
  apply settles_bind; [pkeep|]. intros [a|]; apply wp_bind.
  - eapply wp_mono; [|apply release_wp]. by intros [u|e] h [? ->].
  - eapply wp_mono; [|by apply publish_wp]. by intros [u|e] h [? ->].
Qed.

Lemma add_live_stream_wp u descr user pass p stream_id sensor cam :
  swp [] (add_live_stream u descr user pass p stream_id sensor cam) (λ _ h, h = []).
Proof.
  apply reserving_wp. intros id. apply returning_wp, releasing_wp. by apply publish_settles.
Qed.

Lemma request_wp p : request p → swp [] p (λ _ h, h = []).
Proof.
  intros Hp. destruct Hp; try (apply returning_wp);
    auto using save_file_wp, add_file_wp, add_live_stream_wp.
  - apply cleanup_keeps.
  - apply keeps_quiet, quiet_submitted.
  - unfold age_out_turn. apply keeps_bind; pkeep.
  - unfold lock_asset. apply keeps_bind; pkeep.
  - apply keeps_quiet, quiet_add_use.
  - apply keeps_quiet. by apply quiet_alter.
Qed.

(** ** What holds in every interleaving *)

Lemma outside_evolves s s' : outside s s' → evolves s s'.
Proof. intros []. by apply evolves_same. Qed.

Lemma outside_inv s s' held : outside s s' → store_inv s held → store_inv s' held.
Proof. intros Ho. apply quiet_inv; [by destruct Ho|by apply outside_evolves]. Qed.

Lemma init_inv h : store_inv (init h) [].
Proof.
  split; simpl; try done.
  - apply dict_wf_nil.
  - split; [done|apply not_elem_of_nil].
  - constructor.
  - set_solver.
  - intros c id. split; [by rewrite lookup_empty|by intros ?%elem_of_nil].
Qed.

Lemma reachable_ok h sp : runs (init h, []) sp → pool_ok store_inv evolves all_block sp.
Proof.
  intros Hr. eapply pool_sound; [apply _|exact request_wp|apply outside_inv| |exact Hr].
  exists []. split; [constructor|apply init_inv].
Qed.

Lemma store_reachable_inv h s ps : runs (init h, []) (s, ps) → ∃ held, store_inv s held.
Proof. intros (hs & _ & HI)%reachable_ok. eauto. Qed.

(** C14. Under every interleaving of uploads, registrations, deletions and
    evictions, cancellations included, no two assets of the store share a camera
    id, and looking a camera id up gives the asset that has it. *)
Theorem camera_ids_unique h s ps id1 id2 a1 a2 c :
  runs (init h, []) (s, ps) →
  asset_of s id1 = Some a1 → asset_of s id2 = Some a2 →
  nonempty (camera_id a1) = Some c → nonempty (camera_id a2) = Some c →
  id1 = id2 ∧ get_asset_id_by_camera_id c s = Some id1.
Proof.
  intros (held & HI)%store_reachable_inv H1 H2 Hc1 Hc2. unfold asset_of in *.
  apply bind_Some in H1 as (addr1 & H1 & E1). apply bind_Some in H2 as (addr2 & H2 & E2).
  assert (camera_id_map (registry s) !! c = Some id1) as Hm1.
  { apply (inv_lookup s held HI c id1 addr1 H1). unfold camera_at. by rewrite E1. }
  assert (camera_id_map (registry s) !! c = Some id2) as Hm2.
  { apply (inv_lookup s held HI c id2 addr2 H2). unfold camera_at. by rewrite E2. }
  split; [congruence|done].
Qed.

(** Under every interleaving an asset is never replaced: one step later its
    id names the same object, with the same path, directory and camera id, or
    nothing. *)
Theorem ids_never_rebound h s ps s' ps' id addr :
  runs (init h, []) (s, ps) → pstep request outside (s, ps) (s', ps') →
  dget (assets s) id = Some addr →
  (dget (assets s') id = Some addr ∨ dget (assets s') id = None) ∧
  ∃ a a', heap s !! addr = Some a ∧ heap s' !! addr = Some a' ∧
    asset_id a = id ∧ asset_id a' = id ∧ path a' = path a ∧ asset_dir a' = asset_dir a ∧
    camera_id a' = camera_id a.
Proof.
  intros Hr Hs Hd. pose proof (reachable_ok h _ Hr) as Hok.
  assert (evolves s s') as [Hb Hh _].
  { eapply (pool_guarantee store_inv evolves all_block request outside);
      eauto using outside_evolves, request_wp, outside_inv, evolves_refl. }
  split; [auto|]. destruct Hok as (hs & _ & HI).
  pose proof (inv_obj _ _ HI id addr Hd) as Hid. unfold id_at in Hid. simpl in Hid.
  destruct (heap s !! addr) as [a|] eqn:E; simpl in Hid; [|done]. simplify_eq.
  destruct (Hh addr a E) as (a' & E' & ? & ? & ? & ?). by exists a, a'.
Qed.

(** C15. When every method has returned or raised, even by cancellation, no
    reservation is left: the tables hold exactly the slots of the methods that
    are still running. *)
Theorem slots_given_back h s ps :
  runs (init h, []) (s, ps) → Forall is_done ps →
  asset_id_reservations (registry s) = ∅ ∧ camera_id_reservations (registry s) = ∅.
Proof.
  intros Hok%reachable_ok Hd. destruct (pool_done_held _ _ _ _ _ Hok Hd) as [_ _ _ _ Hr _ Hc _ _].
  split.
  - apply set_eq. intros id. rewrite Hr. set_solver.
  - apply map_empty. intros c. destruct (_ !! c) as [id|] eqn:E; [|done].
    by apply Hc, elem_of_nil in E.
Qed.

Lemma aged_out_grows s ps s' ps' h :
  runs (init h, []) (s, ps) → runs (s, ps) (s', ps') → aged_out_assets s `prefix_of` aged_out_assets s'.
Proof.
  intros Hr Hr'. remember (s, ps) as sp eqn:E. remember (s', ps') as sp' eqn:E'.
  revert s ps Hr E. induction Hr' as [sp|sp sp1 sp2 Hs Hr' IH]; intros s ps Hr ->; simplify_eq; [done|].
  destruct sp1 as [s1 ps1]. etrans; [|apply (IH eq_refl s1 ps1); [by eapply rtc_r|done]].
  eapply ev_aged, (pool_guarantee store_inv evolves all_block request outside);
    eauto using outside_evolves, request_wp, outside_inv, reachable_ok, evolves_refl.
Qed.

(** An id that was evicted is dead for good: whatever runs afterwards,
    fetching the asset of that id and deleting it raise, even once a new asset
    was added under it. *)
Theorem evicted_id_dead h s ps s' ps' id :
  runs (init h, []) (s, ps) → id ∈ aged_out_assets s → runs (s, ps) (s', ps') →
  (get_asset id s').1 = Exn (service_exception "BadParameter" 400) ∧
  ∀ executor, exec (cleanup_asset id executor) s' = (Exn (service_exception "BadParameter" 400), s').
Proof.
  intros Hr Hin Hr'.
  assert (id ∈ aged_out_assets s') as Hin'.
  { destruct (aged_out_grows s ps s' ps' h Hr Hr') as [k ->]. set_solver. }
  unfold get_asset. rewrite bool_decide_true by done. split; [done|]. intros executor.
  unfold cleanup_asset. rewrite exec_bind. unfold atomic. rewrite exec_act. unfold cleanup_check.
  by rewrite bool_decide_true.
Qed.

(** ** Fresh ids *)

Lemma draw_uuid_None fuel s i :
  draw_uuid uuid4 fuel s = None → (i < fuel)%nat →
  uuid4 (uuids_drawn (host s) + i) ∈ dkeys (assets s) ++ elements (asset_id_reservations (registry s)).
Proof.
  revert s i. induction fuel as [|fuel IH]; intros s i; simpl; [lia|].
  destruct (taken _ s) eqn:E; [|done]. intros Hn Hi. destruct i as [|i].
  - rewrite Nat.add_0_r. apply elem_of_app. unfold taken in E.
    apply orb_true_iff in E as [E|E%bool_decide_eq_true]; [left; by apply dmem_true|right; set_solver].
  - replace (uuids_drawn (host s) + S i)%nat with (uuids_drawn (host (set_drawn (S (uuids_drawn (host s))) s)) + i)%nat
      by (simpl; lia). apply (IH _ i Hn). lia.
Qed.

(** How many draws [draw_uuid] makes. *)
Lemma draw_uuid_draws fuel s id s' :
  draw_uuid uuid4 fuel s = Some (id, s') →
  ∃ n, s' = set_drawn n s ∧ (n <= uuids_drawn (host s) + fuel)%nat.
Proof.
  revert s. induction fuel as [|fuel IH]; intros s; simpl; [done|].
  destruct (taken _ s).
  - intros (n & -> & Hn)%IH. simpl in Hn. exists n. split; [done|lia].
  - intros [= <- <-]. eexists. split; [done|lia].
Qed.

Lemma draw_uuid_enough s :
  Inj (=) (=) uuid4 → draw_uuid uuid4 (draws_enough s) s ≠ None.
Proof.
  intros Hinj Hn. set (n := uuids_drawn (host s)).
  set (used := dkeys (assets s) ++ elements (asset_id_reservations (registry s))).
  set (draws := (λ i, uuid4 (n + i)) <$> seq 0 (draws_enough s)).
  assert (draws ⊆+ used) as Hsub.
  { apply NoDup_submseteq.
    - apply NoDup_fmap_2; [intros i j ?%Hinj; lia|apply NoDup_seq].
    - intros x (i & -> & [_ Hi]%elem_of_seq)%list_elem_of_fmap. by eapply draw_uuid_None. }
  apply submseteq_length in Hsub. unfold draws, used, draws_enough, dkeys in Hsub.
  rewrite length_fmap, length_seq, length_app, length_fmap in Hsub.
  unfold size, set_size in Hsub. simpl in Hsub. lia.
Qed.

(** When [uuid4] does not repeat itself the search for a fresh id ends,
    within one draw more than there are ids in use, with an id that is neither in
    the store nor reserved. *)
Theorem fresh_id_found code s :
  Inj (=) (=) uuid4 →
  ∃ id n, choose_id uuid4 None code s = (Ok id, set_drawn n s) ∧
    dget (assets s) id = None ∧ (id ∉ asset_id_reservations (registry s)) ∧
    (n <= uuids_drawn (host s) + draws_enough s)%nat.
Proof.
  intros Hinj. unfold choose_id. simpl nonempty.
  destruct (draw_uuid _ _ s) as [[id s']|] eqn:E; [|by apply draw_uuid_enough in E].
  destruct (draw_uuid_draws _ _ _ _ E) as (n & -> & Hn).
  apply draw_uuid_spec in E as [[? ?]%taken_false _]. exists id, n. done.
Qed.

(** ** Running pools *)

End store.

(** ** A store at work *)

Definition uuid_ex (n : nat) : string := "u" +:+ pretty n.
Definition du_ex (d : gmap string Dir) : result Z := Ok (map_fold (λ _ x n, n + dir_size x) 0 d).
Definition host_ex : Host := mk_Host ∅ (lit 1000 0) [] 0.
Definition allow_all (d : string) : bool := true.

Definition upload_ex (id cam : option string) : proc State unit :=
  forget (save_file "/a" None None du_ex allow_all uuid_ex [Ok 5; Ok 7] "v.mp4" "vision" "video"
            None id None "" cam).
Definition stream_ex (id cam : option string) : proc State unit :=
  forget (add_live_stream uuid_ex "rtsp://cam" "" "" "" no_place id "" cam).

Abbreviation request_ex := (request "/a" None f0 None du_ex allow_all uuid_ex).
Abbreviation runs_ex := (rtc (pstep request_ex outside)).

Lemma uuid_ex_text n : uuid_ex n ≠ "".
Proof. done. Qed.

(** A stream and an upload start together; the upload draws its id. *)
Definition pool_ex : list (proc State unit) := [upload_ex None (Some "c2"); stream_ex (Some "s") (Some "c1")].
Definition reach (cs : list choice) (ps : list (proc State unit)) : State * list (proc State unit) :=
  after cs (init host_ex, ps).
Definition half_ex := reach ([Go 0; Go 1; Go 1] ++ replicate 11 (Go 0)) pool_ex.
Definition full_ex := default half_ex (choose (Go 0) half_ex).

Lemma reach_runs cs ps : Forall request_ex ps → runs_ex (init host_ex, []) ((reach cs ps).1, (reach cs ps).2).
Proof. apply pool_after_runs. Qed.

Lemma pool_ex_requests : Forall request_ex pool_ex.
Proof. apply Forall_cons_2; [constructor|]. apply Forall_singleton. constructor. Qed.

(** The last action of the upload publishes it. *)
Lemma full_ex_step : pstep request_ex outside (half_ex.1, half_ex.2) (full_ex.1, full_ex.2).
Proof.
  apply (pool_choose_step _ _ (Go 0)). rewrite <-!surjective_pairing.
  unfold full_ex. destruct (choose _ _) eqn:E; [done|]. by vm_compute in E.
Qed.

Lemma full_ex_runs : runs_ex (init host_ex, []) (full_ex.1, full_ex.2).
Proof. eapply rtc_r; [apply reach_runs, pool_ex_requests|apply full_ex_step]. Qed.

Lemma camera_ids_unique_witness :
  runs_ex (init host_ex, []) (full_ex.1, full_ex.2) ∧
  dkeys (assets full_ex.1) = ["s"; "u0"] ∧
  get_asset_id_by_camera_id "c2" full_ex.1 = Some "u0".
Proof.
  split; [exact full_ex_runs|]. split; [vm_compute; reflexivity|].
  destruct (asset_of full_ex.1 "u0") as [a|] eqn:E; [|vm_compute in E; discriminate].
  assert (nonempty (camera_id a) = Some "c2") as Ec by (vm_compute in E; by injection E as <-).
  apply (camera_ids_unique "/a" None f0 None du_ex allow_all uuid_ex uuid_ex_text host_ex full_ex.1 full_ex.2
           "u0" "u0" a a "c2"); [exact full_ex_runs|exact E|exact E|exact Ec|exact Ec].
Defined.

Lemma ids_never_rebound_witness :
  runs_ex (init host_ex, []) (half_ex.1, half_ex.2) ∧
  dget (assets half_ex.1) "s" = Some 0%nat ∧
  (dget (assets full_ex.1) "s" = Some 0%nat ∨ dget (assets full_ex.1) "s" = None).
Proof.
  assert (dget (assets half_ex.1) "s" = Some 0%nat) as Hs by (vm_compute; reflexivity).
  assert (runs_ex (init host_ex, []) (half_ex.1, half_ex.2)) as Hr by apply reach_runs, pool_ex_requests.
  split; [exact Hr|]. split; [exact Hs|].
  exact (proj1 (ids_never_rebound "/a" None f0 None du_ex allow_all uuid_ex uuid_ex_text host_ex
    half_ex.1 half_ex.2 full_ex.1 full_ex.2 "s" 0%nat Hr full_ex_step Hs)).
Defined.

(** A cancelled upload gives its slot back. *)
Definition cancelled_ex := reach [Go 0; Go 0; Go 0; Cancel 0; Go 0; Go 1; Go 1] pool_ex.

Lemma slots_given_back_witness :
  runs_ex (init host_ex, []) (cancelled_ex.1, cancelled_ex.2) ∧ Forall is_done cancelled_ex.2 ∧
  asset_id_reservations (registry cancelled_ex.1) = ∅ ∧
  camera_id_reservations (registry cancelled_ex.1) = ∅.
Proof.
  assert (runs_ex (init host_ex, []) (cancelled_ex.1, cancelled_ex.2)) as Hr by apply reach_runs, pool_ex_requests.
  assert (Forall is_done cancelled_ex.2) as Hd
    by (apply forallb_True; vm_compute; exact I).
  split; [exact Hr|]. split; [exact Hd|].
  exact (slots_given_back "/a" None f0 None du_ex allow_all uuid_ex uuid_ex_text host_ex
    cancelled_ex.1 cancelled_ex.2 Hr Hd).
Defined.

Lemma fresh_id_found_witness :
  Inj (=) (=) uuid_ex ∧
  ∃ id n, choose_id uuid_ex None "DuplicateAssetId" full_ex.1 = (Ok id, set_drawn n full_ex.1) ∧
    dget (assets full_ex.1) id = None ∧ (id ∉ asset_id_reservations (registry full_ex.1)) ∧
    (n <= uuids_drawn (host full_ex.1) + draws_enough full_ex.1)%nat.
Proof.
  assert (Inj (=) (=) uuid_ex) as Hinj by (intros m n E; unfold uuid_ex in E; simplify_eq; done).
  split; [exact Hinj|]. exact (fresh_id_found allow_all uuid_ex uuid_ex_text "DuplicateAssetId" full_ex.1 Hinj).
Defined.

(** With a limit of one hour: a file is uploaded, two hours pass, it is evicted,
    and it is uploaded again under its old id. *)
Definition ttl_upload_ex : proc State unit :=
  forget (save_file "/a" None None du_ex allow_all uuid_ex [Ok 5] "v.mp4" "vision" "video"
            None (Some "v") None "" None).
Definition evicting_ex : list (proc State unit) :=
  [ttl_upload_ex; age_out_turn None (lit 1 0) None du_ex allow_all; ttl_upload_ex].
Definition old_ex := after (replicate 11 (Go 0)) (init host_ex, evicting_ex).
Definition later_ex : State * list (proc State unit) :=
  (set_host (mk_Host (dirs (host old_ex.1)) (lit 8200 0) [] 0) old_ex.1, old_ex.2).
Definition evicted_ex := after (replicate 10 (Go 1)) later_ex.
Definition again_ex := after (replicate 11 (Go 2)) evicted_ex.

Example evicted_ex_runs :
  aged_out_assets evicted_ex.1 = ["v"] ∧ assets evicted_ex.1 = [] ∧
  dkeys (assets again_ex.1) = ["v"] ∧ forallb is_done again_ex.2 = true.
Proof. vm_compute. auto. Qed.

Abbreviation ttl_request := (request "/a" None (lit 1 0) None du_ex allow_all uuid_ex).
Abbreviation ttl_runs := (rtc (pstep ttl_request outside)).

Lemma evicted_runs : ttl_runs (init host_ex, []) (evicted_ex.1, evicted_ex.2).
Proof.
  rewrite <-surjective_pairing.
  assert (Forall ttl_request evicting_ex) as Hq
    by (repeat (apply Forall_cons_2; [constructor|]); apply Forall_nil_2).
  etrans; [exact (pool_spawn_runs _ _ (init host_ex) [] _ Hq)|].
  simpl app. etrans; [apply (pool_after _ _ (replicate 11 (Go 0)))|].
  change (ttl_runs old_ex evicted_ex).
  etrans; [|apply (pool_after _ _ (replicate 10 (Go 1)) later_ex)].
  apply rtc_once. unfold later_ex. rewrite (surjective_pairing old_ex) at 1. apply step_env. constructor.
Qed.

Lemma evicted_id_dead_witness :
  ttl_runs (init host_ex, []) (evicted_ex.1, evicted_ex.2) ∧ "v" ∈ aged_out_assets evicted_ex.1 ∧
  dkeys (assets again_ex.1) = ["v"] ∧
  (get_asset "v" again_ex.1).1 = Exn (service_exception "BadParameter" 400).
Proof.
  assert ("v" ∈ aged_out_assets evicted_ex.1) as Hin by (vm_compute; constructor).
  assert (ttl_runs (evicted_ex.1, evicted_ex.2) (again_ex.1, again_ex.2)) as Hr.
  { rewrite <-!surjective_pairing. apply pool_after. }
  split; [exact evicted_runs|]. split; [exact Hin|]. split; [vm_compute; reflexivity|].
  exact (proj1 (evicted_id_dead "/a" None (lit 1 0) None du_ex allow_all uuid_ex uuid_ex_text host_ex
    evicted_ex.1 evicted_ex.2 again_ex.1 again_ex.2 "v" evicted_runs Hin Hr)).
Defined.
