(* ===== verification/AssetEviction.v ===== *)
(** * Eviction in the asset store

    What [_age_out_assets] and [_ttl_expire_assets] of
    [rtvi/rt-vlm/src/utils/asset_manager.py] ([AssetStore]) achieve when they run
    undisturbed: [age_out_plan] and [expired_ids] say which assets must go, in
    which order, and the methods evict exactly those. The examples at the end are
    runs in which other calls interfere, or the bookkeeping falls short. *)

From Stdlib Require Import ZArith Lia Floats.SpecFloat.
From stdpp Require Import base list strings gmap sets relations.
From S2P Require Import Prelude PyDict PyFloat PyNumber Proc AssetStore.
Open Scope string_scope.
Open Scope list_scope.
Open Scope Z_scope.

Section eviction.
Context (max_gb : option float) (max_hours : float) (callback : option (Asset → result bool)).
Context (du : gmap string Dir → result Z) (fs_allows : string → bool).

(** What [du] measures, in gigabytes. *)
Definition measure (d : gmap string Dir) : float :=
  match du d with Ok n => match true_div n GB with Ok u => u | Exn _ => f0 end | Exn _ => f0 end.

(** [du] works, on directories whose size is a float. *)
Definition du_works : Prop := ∀ d, ∃ n u, du d = Ok n ∧ true_div n GB = Ok u.

(** The callback answers and the wait for it is not cancelled. *)
Definition callback_answers : Prop :=
  match callback with Some cb => ∀ a, cb a ≠ Exn cancelled | None => True end.
Definition accepts (a : Asset) : bool :=
  match callback with
  | None => true
  | Some cb => match cb a with Ok b => b | Exn _ => false end
  end.

(** The usage the store reads: a fresh measurement is kept for two seconds. *)
Definition reading (s : State) : float := default (measure (dirs (host s))) (cached_usage s).

(** An asset that may go: nobody uses it and the callback lets it go. *)
Definition evictable (s : State) (id : string) : bool :=
  match asset_of s id with Some a => (use_count a =? 0) && accepts a | None => false end.

(** The directories left when the assets [gone] are removed. *)
Definition remove_dir_of (s : State) (d : gmap string Dir) (id : string) : gmap string Dir :=
  match asset_of s id with
  | Some a => if negb (String.eqb (asset_dir a) "") && fs_allows (asset_dir a)
              then delete (asset_dir a) d else d
  | None => d
  end.
Definition dirs_without (s : State) (gone : list string) : gmap string Dir :=
  foldl (remove_dir_of s) (dirs (host s)) gone.

(** The usage read once [gone] are removed. *)
Definition reading_without (s : State) (gone : list string) : float :=
  match gone with [] => reading s | _ => measure (dirs_without s gone) end.
Definition above_without (m : float) (s : State) (gone : list string) : bool :=
  flt (fmul m AGE_OUT_THRESHOLD) (reading_without s gone).

(** The assets with a directory, oldest first. *)
Definition mtime_in (s : State) (id : string) : float :=
  match asset_of s id with
  | Some a => match dirs (host s) !! asset_dir a with Some x => mtime x | None => f0 end
  | None => f0
  end.
Definition eviction_order (s : State) : list string :=
  (sort_by older_first ((λ kv, (mtime_in s kv.1, kv.1)) <$> assets_with_dirs s)).*2.

(** Walk the assets from the oldest on, as long as the usage is above the
    threshold, and let every asset go that may. *)
Fixpoint plan_from (m : float) (s : State) (gone ids : list string) : list string :=
  match ids with
  | [] => gone
  | id :: ids' =>
      if above_without m s gone
      then plan_from m s (if evictable s id then gone ++ [id] else gone) ids'
      else gone
  end.
Definition age_out_plan (m : float) (s : State) : list string := plan_from m s [] (eviction_order s).

(** The assets whose directory is older than the limit and that may go; an id
    that was evicted before is stuck. *)
Definition expired (s : State) (id : string) : bool :=
  evictable s id && bool_decide (id ∉ aged_out_assets s) &&
  negb (fle (fsub (now (host s)) (mtime_in s id)) (fmul max_hours (Z2f 3600))).
Definition expired_ids (s : State) : list string :=
  filter (λ id, Is_true (expired s id)) (dkeys (assets_with_dirs s)).

(** [s'] is [s] without the assets [gone]. *)
Record without (s : State) (gone : list string) (s' : State) : Prop := {
  wo_heap : heap s' = heap s;
  wo_assets : assets s' = filter (λ kv, kv.1 ∉ gone) (assets s);
  wo_aged : aged_out_assets s' = aged_out_assets s ++ gone;
  wo_dirs : dirs (host s') = dirs_without s gone;
  wo_now : now (host s') = now (host s);
  wo_cameras : ∀ c id, camera_id_map (registry s') !! c = Some id → camera_id_map (registry s) !! c = Some id;
}.

(** ** Reading the usage *)

Lemma fsub_diag x : isfinite x = true → fsub x x = f0.
Proof.
  unfold fsub, SFsub. destruct x as [[]|[]| |s m e]; try done. intros _.
  by rewrite Z.min_id, Z.sub_diag.
Qed.

Lemma just_now_fresh x : isfinite x = true → flt (fsub x x) cache_ttl = true.
Proof. intros. by rewrite fsub_diag by done. Qed.

Record same_but_cache (s s' : State) : Prop := {
  sb_heap : heap s' = heap s;
  sb_registry : registry s' = registry s;
  sb_aged : aged_out_assets s' = aged_out_assets s;
  sb_host : host s' = host s;
}.

#[export] Instance same_but_cache_equiv : Equivalence same_but_cache.
Proof. split; [done|intros ?? []; split; congruence|intros ??? [] []; split; congruence]. Qed.

Lemma get_storage_usage_exec s :
  du_works → isfinite (now (host s)) = true →
  ∃ s', exec (get_storage_usage du) s = (Ok (reading s), s') ∧
    same_but_cache s s' ∧ reading s' = reading s.
Proof.
  intros Hdu Hnow. unfold get_storage_usage. rewrite exec_bind. unfold atomic. rewrite exec_act.
  unfold reading at 1. destruct (cached_usage s) as [u|] eqn:Ec; simpl.
  - by exists s.
  - destruct (Hdu (dirs (host s))) as (n & u & En & Eu). unfold measure. rewrite En. simpl. rewrite Eu. simpl.
    eexists. split; [done|]. split; [done|]. unfold reading, measure. rewrite Ec. simpl.
    unfold cached_usage. simpl. rewrite just_now_fresh by done. simpl. by rewrite En, Eu.
Qed.

(** ** Removing one asset *)

Definition evicted (id : string) (a : Asset) (s : State) : State :=
  let s1 := if has_dir s a then (do_rmtree fs_allows (asset_dir a) s).2 else s in
  let s2 := (cleanup_remove id a s1).2 in
  set_aged_out (aged_out_assets s2 ++ [id]) s2.

Lemma do_rmtree_ok d s : (do_rmtree fs_allows d s).1 = Ok tt.
Proof. unfold do_rmtree, scatch. by destruct (rmtree fs_allows d s) as [[[]|]]. Qed.

(** Run the next action of a process. *)
Ltac exec_step := (rewrite exec_bind || rewrite exec_act); cbv beta iota zeta.
Ltac exec_steps := unfold read_asset, atomic, await in *; repeat exec_step.

Lemma cleanup_exec s id addr a :
  dget (assets s) id = Some addr → heap s !! addr = Some a → id ∉ aged_out_assets s →
  (0 <? use_count a) = false →
  exec (cleanup_asset fs_allows id false) s =
    (Ok tt, (cleanup_remove id a (if has_dir s a then (do_rmtree fs_allows (asset_dir a) s).2 else s)).2).
Proof.
  intros Hd Ha Hni Hu. unfold cleanup_asset. exec_steps. unfold cleanup_check.
  rewrite bool_decide_false, Hd, Ha, Hu by done. exec_steps. unfold deref. rewrite Ha. simpl require.
  exec_steps. destruct (has_dir s a); [|done].
  exec_steps. pose proof (do_rmtree_ok (asset_dir a) s) as Hok.
  destruct (do_rmtree _ _ s) as [r s1]. simpl in Hok. subst. by exec_steps.
Qed.

Lemma evict_exec s id addr a :
  callback_answers → dget (assets s) id = Some addr → heap s !! addr = Some a →
  id ∉ aged_out_assets s → (0 <? use_count a) = false →
  exec (evict callback fs_allows id addr) s =
    if accepts a then (Ok true, evicted id a s) else (Ok false, s).
Proof.
  intros Hcb Hd Ha Hni Hu. unfold evict. rewrite exec_try, exec_bind.
  assert (exec (_ ← cleanup_asset fs_allows id false;
      _ ← atomic (smod (λ s, set_aged_out (aged_out_assets s ++ [id]) s)); mret true) s =
    (Ok true, evicted id a s)) as Hgo.
  { rewrite exec_bind, (cleanup_exec s id addr a) by done. by rewrite exec_bind. }
  unfold ask_removal, accepts, callback_answers, read_asset in *. destruct callback as [cb|].
  - exec_steps. unfold deref. rewrite Ha. simpl require. exec_steps.
    specialize (Hcb a). destruct (cb a) as [[]|e]; [by rewrite Hgo|done|].
    unfold is_Exception. rewrite bool_decide_true; [done|]. congruence.
  - cbn [exec mret proc_ret]. by rewrite Hgo.
Qed.

Lemma without_nil s : without s [] s.
Proof.
  split; try done.
  - rewrite list_filter_all; [done|]. by intros x _ ?%elem_of_nil.
  - by rewrite app_nil_r.
Qed.

Lemma without_asset s gone s1 id addr a :
  without s gone s1 → id ∉ gone → dget (assets s) id = Some addr → heap s !! addr = Some a →
  dget (assets s1) id = Some addr ∧ heap s1 !! addr = Some a.
Proof.
  intros [-> -> _ _ _ _] Hni Hd Ha. split; [|done].
  by rewrite (dget_filter_key (K:=string) (V:=nat) (λ k : string, k ∉ gone)).
Qed.

Lemma without_snoc s gone s1 id addr a :
  without s gone s1 → id ∉ gone → dget (assets s) id = Some addr → heap s !! addr = Some a →
  without s (gone ++ [id]) (evicted id a s1).
Proof.
  intros Hw Hni Hd Ha. pose proof Hw as [Hh Has Hag Hdi Hn Hca].
  set (s2 := if has_dir s1 a then (do_rmtree fs_allows (asset_dir a) s1).2 else s1).
  assert (heap s2 = heap s1 ∧ registry s2 = registry s1 ∧ aged_out_assets s2 = aged_out_assets s1 ∧
    now (host s2) = now (host s1) ∧ dirs (host s2) = remove_dir_of s (dirs (host s1)) id) as (E1 & E2 & E3 & E4 & E5).
  { unfold remove_dir_of, asset_of. rewrite Hd. simpl. rewrite Ha. subst s2. unfold has_dir, exists_dir.
    destruct (String.eqb (asset_dir a) ""); [done|]. simpl.
    destruct (dirs (host s1) !! asset_dir a) as [x|] eqn:Ex.
    - rewrite bool_decide_true by eauto. unfold do_rmtree, scatch, rmtree, exists_dir.
      rewrite Ex. rewrite bool_decide_true by eauto. simpl. by destruct (fs_allows _).
    - rewrite bool_decide_false by (by intros []). destruct (fs_allows _); [|done].
      by rewrite delete_id. }
  unfold evicted. fold s2. clearbody s2.
  split; simpl; rewrite ?E1, ?E2, ?E3, ?E4, ?E5; try done.
  - unfold assets in *. simpl. rewrite ?E2, Has. unfold ddel. rewrite list_filter_filter.
    apply list_filter_iff. intros kv. rewrite elem_of_app, list_elem_of_singleton. tauto.
  - by rewrite Hag, (assoc_L (++)).
  - unfold dirs_without in *. by rewrite foldl_app, Hdi.
  - intros c i Hc. apply Hca. repeat case_match; try done. by apply lookup_delete_Some in Hc as [_ ?].
Qed.

(** ** The age-out loop follows the plan *)

(** The state in the middle of an eviction: [gone] removed, the usage known. *)
Record at_plan (s : State) (gone : list string) (s1 : State) : Prop := {
  ap_without : without s gone s1;
  ap_reading : reading s1 = reading_without s gone;
}.

Lemma without_cache s gone s1 s2 : without s gone s1 → same_but_cache s1 s2 → without s gone s2.
Proof.
  intros [Hh Has Hag Hd Hn Hc] [E1 E2 E3 E4]. unfold assets in *.
  split; unfold assets; rewrite ?E1, ?E2, ?E3, ?E4; done.
Qed.

Lemma usage_at_plan s gone s1 :
  du_works → isfinite (now (host s)) = true → at_plan s gone s1 →
  ∃ s2, exec (get_storage_usage du) s1 = (Ok (reading_without s gone), s2) ∧ at_plan s gone s2.
Proof.
  intros Hdu Hnow [Hw Hr]. destruct (get_storage_usage_exec s1 Hdu) as (s2 & E & Hsb & Er).
  { by rewrite (wo_now _ _ _ Hw). }
  exists s2. rewrite E, Hr. split; [done|]. split; [by eapply without_cache|congruence].
Qed.

Lemma above_at_plan m s gone s1 :
  du_works → isfinite (now (host s)) = true → limit max_gb = Some m → at_plan s gone s1 →
  ∃ s2, exec (is_storage_above_threshold max_gb du) s1 = (Ok (above_without m s gone), s2) ∧
    at_plan s gone s2.
Proof.
  intros Hdu Hnow Hm Hp. destruct (usage_at_plan s gone s1 Hdu Hnow Hp) as (s2 & E & Hp2).
  exists s2. unfold is_storage_above_threshold. rewrite Hm, exec_bind, E. done.
Qed.

Lemma evicted_reading s gone s1 id a :
  dirs (host (evicted id a s1)) = dirs_without s (gone ++ [id]) →
  reading (evicted id a s1) = reading_without s (gone ++ [id]).
Proof.
  intros E. unfold reading, reading_without. destruct (gone ++ [id]) eqn:Eg; [by destruct gone|].
  rewrite E. done.
Qed.

(** The assets an eviction may meet are those of the start. *)
Definition listed (s : State) (ids : list string) : Prop :=
  Forall (λ id, is_Some (asset_of s id) ∧ id ∉ aged_out_assets s) ids.

Lemma age_out_loop_plan m s ids gone s1 :
  du_works → callback_answers → isfinite (now (host s)) = true → limit max_gb = Some m →
  NoDup (ids ++ gone) → listed s ids → at_plan s gone s1 →
  ∃ s2, exec (age_out_loop max_gb callback du fs_allows ids) s1 = (Ok tt, s2) ∧
    at_plan s (plan_from m s gone ids) s2.
Proof.
  intros Hdu Hcb Hnow Hm. revert gone s1.
  induction ids as [|id ids IH]; intros gone s1 Hnd Hl Hp; cbn [age_out_loop plan_from];
    destruct (above_at_plan m s gone s1 Hdu Hnow Hm Hp) as (s2 & E & Hp2); rewrite exec_bind, E.
  { by exists s2. }
  apply Forall_cons in Hl as [([a Ha] & Hni) Hl]. unfold asset_of in Ha.
  apply bind_Some in Ha as (addr & Hd & Ha).
  simpl app in Hnd. apply NoDup_cons in Hnd as [Hng Hnd].
  assert (id ∉ gone) as Hg by (intros Hin; apply Hng, elem_of_app; by right).
  assert (∀ s', without s gone s' → id ∉ aged_out_assets s') as Hnia
    by (intros s' Hw; rewrite (wo_aged _ _ _ Hw); by intros [?|?]%elem_of_app).
  destruct (above_without m s gone); cbn [negb]; [|by exists s2].
  destruct (without_asset s gone s2 id addr a (ap_without _ _ _ Hp2) Hg Hd Ha) as [Hd2 Ha2].
  pose proof (Hnia s2 (ap_without _ _ _ Hp2)) as Hni2.
  exec_steps. unfold get_asset. rewrite bool_decide_false, Hd2 by done. exec_steps.
  unfold deref. rewrite Ha2. simpl require. cbv beta iota.
  assert (evictable s id = (use_count a =? 0) && accepts a) as Ee.
  { unfold evictable, asset_of. rewrite Hd. simpl. by rewrite Ha. }
  rewrite Ee. destruct (use_count a =? 0) eqn:Eu; cbn [negb andb].
  2: { by apply IH. }
  destruct (usage_at_plan s gone s2 Hdu Hnow Hp2) as (s3 & E3 & Hp3). rewrite exec_bind, E3.
  destruct (without_asset s gone s3 id addr a (ap_without _ _ _ Hp3) Hg Hd Ha) as [Hd3 Ha3].
  pose proof (Hnia s3 (ap_without _ _ _ Hp3)) as Hni3.
  rewrite exec_bind, (evict_exec s3 id addr a) by (done || apply Z.ltb_ge; apply Z.eqb_eq in Eu; lia).
  destruct (accepts a); [|by apply IH].
  assert (at_plan s (gone ++ [id]) (evicted id a s3)) as Hp4.
  { assert (without s (gone ++ [id]) (evicted id a s3)) as Hw
      by (eapply without_snoc; [apply Hp3|done..]).
    split; [done|]. apply evicted_reading, Hw. }
  destruct (usage_at_plan s _ _ Hdu Hnow Hp4) as (s5 & E5 & Hp5). rewrite exec_bind, E5.
  apply IH; [|done|done]. rewrite (assoc_L (++)), (Permutation_app_comm _ [id]). by apply NoDup_cons.
Qed.

Lemma plan_nil m s ids : above_without m s [] = false → plan_from m s [] ids = [].
Proof. intros E. destruct ids; simpl; [done|]. by rewrite E. Qed.

(** What the plan evicts, and when it stops. *)
Lemma plan_spec m s gone ids :
  ∃ k, plan_from m s gone ids = gone ++ filter (λ id, Is_true (evictable s id)) (take k ids) ∧
    ((length ids ≤ k)%nat ∨ above_without m s (plan_from m s gone ids) = false).
Proof.
  revert gone. induction ids as [|id ids IH]; intros gone; simpl.
  - exists 0%nat. rewrite app_nil_r. split; [done|by left; simpl].
  - destruct (above_without m s gone) eqn:E.
    + destruct (IH (if evictable s id then gone ++ [id] else gone)) as (k & -> & Hk).
      exists (S k). simpl. rewrite filter_cons. split; [|destruct Hk; [left; lia|by right]].
      destruct (evictable s id); simpl; [by rewrite <-(assoc_L (++))|done].
    + exists 0%nat. rewrite app_nil_r. split; [done|by right].
Qed.

Lemma assets_with_dirs_elem s kv :
  kv ∈ assets_with_dirs s → kv ∈ assets s ∧ ∃ a, heap s !! kv.2 = Some a ∧ has_dir s a = true.
Proof.
  unfold assets_with_dirs. rewrite list_elem_of_filter. intros [Hd Hin]. split; [done|].
  destruct (heap s !! kv.2) as [a|]; simpl in Hd; [|done]. exists a. split; [done|]. by destruct (has_dir s a).
Qed.

Lemma mtime_exec s s1 kv a :
  dget (assets s) kv.1 = Some kv.2 → heap s !! kv.2 = Some a → has_dir s a = true →
  heap s1 = heap s → dirs (host s1) = dirs (host s) →
  exec (mtime_of kv) s1 = (Ok (mtime_in s kv.1), s1).
Proof.
  intros Hd Ha Hdir Eh Ed. unfold mtime_of. exec_steps. unfold deref. rewrite Eh, Ha. simpl require. exec_steps.
  apply andb_true_iff in Hdir as [_ Hdir%bool_decide_eq_true]. destruct Hdir as [x Hx].
  unfold getmtime. rewrite Ed, Hx. simpl. unfold mtime_in, asset_of. rewrite Hd. simpl. by rewrite Ha, Hx.
Qed.

Lemma mtimes_exec s s1 l :
  (∀ kv, kv ∈ l → ∃ a, dget (assets s) kv.1 = Some kv.2 ∧ heap s !! kv.2 = Some a ∧ has_dir s a = true) →
  heap s1 = heap s → dirs (host s1) = dirs (host s) →
  exec (pmap mtime_of l) s1 = (Ok ((λ kv, mtime_in s kv.1) <$> l), s1).
Proof.
  intros Hl Eh Ed. induction l as [|kv l IH]; [done|]. cbn [pmap].
  destruct (Hl kv) as (a & Hd & Ha & Hdir); [by left|].
  rewrite exec_bind, (mtime_exec s s1 kv a), exec_bind, IH by (done || intros; apply Hl; by right). done.
Qed.

Lemma eviction_order_perm s : eviction_order s ≡ₚ (assets_with_dirs s).*1.
Proof.
  unfold eviction_order. rewrite sort_by_perm. rewrite <-list_fmap_compose. done.
Qed.

Lemma assets_with_dirs_wf s : dict_wf (assets s) → NoDup (assets_with_dirs s).*1.
Proof. intros Hwf. by apply dict_wf_filter. Qed.

Lemma at_plan_dirs s s1 :
  at_plan s [] s1 → heap s1 = heap s ∧ dirs (host s1) = dirs (host s) ∧ assets_with_dirs s1 = assets_with_dirs s.
Proof.
  intros [[Hh Ha _ Hd _ _] _]. rewrite list_filter_all in Ha by (by intros x _ ?%elem_of_nil).
  split_and!; [done|done|]. unfold assets_with_dirs, has_dir, exists_dir. rewrite Hh, Ha. apply list_filter_iff.
  intros kv. destruct (heap s !! kv.2); simpl; [|done]. by rewrite Hd.
Qed.

Lemma zip_fst {A B} (f : A → B) (l : list (A * nat)) :
  zip ((λ kv, f kv.1) <$> l) l.*1 = (λ kv, (f kv.1, kv.1)) <$> l.
Proof. induction l as [|kv l IH]; [done|]. csimpl. by f_equal. Qed.

Lemma listed_lookup s :
  dict_wf (assets s) → ∀ kv, kv ∈ assets_with_dirs s →
  ∃ a, dget (assets s) kv.1 = Some kv.2 ∧ heap s !! kv.2 = Some a ∧ has_dir s a = true.
Proof.
  intros Hwf [i addr] [Hin (a & Ha & Hdir)]%assets_with_dirs_elem. exists a. split; [|done].
  by apply elem_dget.
Qed.

(** C16. Left alone, [_age_out_assets] removes exactly the planned assets and
    remembers their ids: the unused ones the callback lets go, from the oldest
    directory on, until the usage read is no longer above the threshold or every
    asset with a directory was considered. *)
Theorem age_out_exact m s :
  du_works → callback_answers → isfinite (now (host s)) = true → limit max_gb = Some m →
  dict_wf (assets s) → (∀ id, id ∈ eviction_order s → id ∉ aged_out_assets s) →
  ∃ s' k, exec (age_out_assets max_gb callback du fs_allows) s = (Ok tt, s') ∧
    without s (age_out_plan m s) s' ∧
    age_out_plan m s = filter (λ id, Is_true (evictable s id)) (take k (eviction_order s)) ∧
    ((length (eviction_order s) ≤ k)%nat ∨ above_without m s (age_out_plan m s) = false).
Proof.
  intros Hdu Hcb Hnow Hm Hwf Haged.
  destruct (plan_spec m s [] (eviction_order s)) as (k & Hk & Hstop).
  enough (∃ s', exec (age_out_assets max_gb callback du fs_allows) s = (Ok tt, s') ∧
    without s (age_out_plan m s) s') as (s' & E & Hw) by (exists s', k; done).
  assert (at_plan s [] s) as Hp0 by (split; [apply without_nil|done]).
  unfold age_out_assets, age_out_plan. rewrite Hm.
  destruct (usage_at_plan s [] s Hdu Hnow Hp0) as (s1 & E1 & Hp1). rewrite exec_bind, E1.
  destruct (above_at_plan m s [] s1 Hdu Hnow Hm Hp1) as (s2 & E2 & Hp2). rewrite exec_bind, E2.
  destruct (above_without m s []) eqn:Ea; cbn [negb].
  2: { exists s2. rewrite plan_nil by done. split; [done|apply Hp2]. }
  destruct (usage_at_plan s [] s2 Hdu Hnow Hp2) as (s3 & E3 & Hp3). rewrite exec_bind, E3.
  destruct (at_plan_dirs s s3 Hp3) as (Eh & Ed & El). exec_steps. rewrite El.
  destruct (assets_with_dirs s) as [|kv l] eqn:Ewd.
  { exists s3. unfold eviction_order. rewrite Ewd. split; [done|apply Hp3]. }
  rewrite <-Ewd, exec_bind, (mtimes_exec s s3); [|exact (listed_lookup s Hwf)|done|done].
  rewrite (zip_fst (mtime_in s)).
  destruct (age_out_loop_plan m s (eviction_order s) [] s3) as (s4 & E4 & Hp4); try done.
  { rewrite app_nil_r, eviction_order_perm. by apply assets_with_dirs_wf. }
  { apply Forall_forall. intros id Hid. split; [|by apply Haged].
    rewrite eviction_order_perm in Hid. apply list_elem_of_fmap in Hid as (kv' & -> & Hkv').
    destruct (listed_lookup s Hwf kv' Hkv') as (a & Hd & Ha & _). unfold asset_of. rewrite Hd. simpl. by rewrite Ha. }
  unfold eviction_order in E4. rewrite exec_bind, E4.
  destruct (above_at_plan m s _ s4 Hdu Hnow Hm Hp4) as (s5 & E5 & Hp5). rewrite exec_bind, E5.
  destruct (above_without m s _); [|exists s5; split; [done|apply Hp5]].
  destruct (usage_at_plan s _ s5 Hdu Hnow Hp5) as (s6 & E6 & Hp6). rewrite exec_bind, E6.
  exists s6. split; [done|apply Hp6].
Qed.

(** ** Expiry follows the rule *)

(** Two assets never share a directory. *)
Definition own_dirs (s : State) : Prop :=
  ∀ id1 id2 a1 a2, asset_of s id1 = Some a1 → asset_of s id2 = Some a2 → asset_dir a1 ≠ "" →
    asset_dir a1 = asset_dir a2 → id1 = id2.

Lemma dirs_without_other s gone d :
  (∀ id a, id ∈ gone → asset_of s id = Some a → asset_dir a ≠ d) →
  dirs_without s gone !! d = dirs (host s) !! d.
Proof.
  unfold dirs_without. generalize (dirs (host s)) as ds. induction gone as [|id gone IH]; intros ds Hne; [done|].
  simpl. rewrite IH by (intros; eapply Hne; [by right|done]).
  unfold remove_dir_of. destruct (asset_of s id) as [a|] eqn:E; [|done].
  case_match; [|done]. rewrite lookup_delete_ne; [done|]. eapply Hne; [by left|done].
Qed.

(** An id that was evicted before cannot be evicted again. *)
Lemma evict_stuck s id addr a :
  callback_answers → heap s !! addr = Some a → id ∈ aged_out_assets s →
  exec (evict callback fs_allows id addr) s = (Ok false, s).
Proof.
  intros Hcb Ha Hin. unfold evict. rewrite exec_try, exec_bind.
  assert (∀ k : unit → proc State bool, exec (cleanup_asset fs_allows id false ≫= k) s =
    (Exn (service_exception "BadParameter" 400), s)) as Hno.
  { intros k. rewrite exec_bind. unfold cleanup_asset. exec_steps. unfold cleanup_check.
    by rewrite bool_decide_true. }
  unfold ask_removal, callback_answers in *. destruct callback as [cb|].
  - exec_steps. unfold deref. rewrite Ha. simpl require. exec_steps.
    specialize (Hcb a). destruct (cb a) as [[]|e]; [by rewrite Hno|done|].
    unfold is_Exception. rewrite bool_decide_true; [done|]. congruence.
  - cbn [exec mret proc_ret]. by rewrite Hno.
Qed.

Lemma ttl_one_exec s gone s1 kv a :
  callback_answers → own_dirs s → without s gone s1 → kv.1 ∉ gone →
  dget (assets s) kv.1 = Some kv.2 → heap s !! kv.2 = Some a → has_dir s a = true →
  ∃ s2, exec (ttl_expire_one max_hours callback fs_allows (now (host s)) kv) s1 = (Ok tt, s2) ∧
    without s (if expired s kv.1 then gone ++ [kv.1] else gone) s2.
Proof.
  intros Hcb Hown Hw Hng Hd Ha Hdir. destruct kv as [id addr]. cbn [fst snd] in *.
  destruct (without_asset s gone s1 id addr a Hw Hng Hd Ha) as [Hd1 Ha1].
  assert (asset_of s id = Some a) as Hof by (unfold asset_of; by rewrite Hd).
  unfold ttl_expire_one. cbn [fst snd]. exec_steps. unfold deref. rewrite Ha1. simpl require. cbv beta iota.
  unfold expired, evictable. rewrite Hof.
  destruct (use_count a =? 0) eqn:Eu; cbn [negb andb]; [|by exists s1].
  apply andb_true_iff in Hdir as [Hne%negb_true_iff [x Hx]%bool_decide_eq_true].
  apply String.eqb_neq in Hne.
  assert (dirs (host s1) !! asset_dir a = Some x) as Hx1.
  { rewrite (wo_dirs _ _ _ Hw), dirs_without_other; [done|]. intros id' a' Hin Ha' E.
    apply Hng. by rewrite (Hown id id' a a'). }
  rewrite exec_bind, exec_try. exec_steps. unfold getmtime. rewrite Hx1. cbn [require mbind result_bind].
  exec_steps. cbn [exec mret proc_ret].
  unfold mtime_in. rewrite Hof, Hx.
  destruct (fle (fsub _ _) _); cbn [negb]; [rewrite andb_false_r; by exists s1|rewrite andb_true_r].
  rewrite exec_bind. destruct (decide (id ∈ aged_out_assets s)) as [Hin|Hni].
  - rewrite (bool_decide_false (id ∉ _)) by tauto. rewrite andb_false_r.
    rewrite (evict_stuck s1 id addr a); [by exists s1|done|done|].
    rewrite (wo_aged _ _ _ Hw). apply elem_of_app. by left.
  - rewrite (bool_decide_true (id ∉ _)) by done. rewrite andb_true_r.
    rewrite (evict_exec s1 id addr a); try done.
    + destruct (accepts a); [|by exists s1]. eexists. split; [done|]. by eapply without_snoc.
    + rewrite (wo_aged _ _ _ Hw). by intros [?|?]%elem_of_app.
    + apply Z.ltb_ge. apply Z.eqb_eq in Eu. lia.
Qed.

Lemma ttl_loop_exec s gone s1 l :
  callback_answers → own_dirs s → without s gone s1 → NoDup l.*1 → (∀ id, id ∈ l.*1 → id ∉ gone) →
  (∀ kv, kv ∈ l → ∃ a, dget (assets s) kv.1 = Some kv.2 ∧ heap s !! kv.2 = Some a ∧ has_dir s a = true) →
  ∃ s2, exec (pfor l (ttl_expire_one max_hours callback fs_allows (now (host s)))) s1 = (Ok tt, s2) ∧
    without s (gone ++ filter (λ id, Is_true (expired s id)) l.*1) s2.
Proof.
  intros Hcb Hown. revert gone s1. induction l as [|kv l IH]; intros gone s1 Hw Hnd Hdis Hl; cbn [pfor].
  { exists s1. rewrite app_nil_r. done. }
  change ((kv :: l).*1) with (kv.1 :: l.*1) in *. apply NoDup_cons in Hnd as [Hni Hnd].
  destruct (Hl kv) as (a & Hd & Ha & Hdir); [by left|].
  destruct (ttl_one_exec s gone s1 kv a) as (s2 & E & Hw2); try done; [apply Hdis; by left|].
  rewrite exec_bind, E. rewrite filter_cons. destruct (expired s kv.1); cbn [Is_true decide Is_true_dec].
  - destruct (IH _ _ Hw2 Hnd) as (s3 & E3 & Hw3).
    + intros id Hid [Hg| ->%list_elem_of_singleton]%elem_of_app; [|done]. eapply Hdis; [by right|done].
    + intros; apply Hl; by right.
    + exists s3. split; [done|]. by rewrite <-(assoc_L (++)) in Hw3.
  - destruct (IH _ _ Hw2 Hnd) as (s3 & E3 & Hw3).
    + intros id Hid. apply Hdis. by right.
    + intros; apply Hl; by right.
    + by exists s3.
Qed.

(** Left alone, [_ttl_expire_assets] removes exactly the assets whose
    directory is older than the limit, that nobody uses, that the callback lets
    go and whose id was never evicted before. *)
Theorem ttl_exact s :
  callback_answers → ftruthy max_hours = true → dict_wf (assets s) → own_dirs s →
  ∃ s', exec (ttl_expire_assets max_hours callback fs_allows) s = (Ok tt, s') ∧
    without s (expired_ids s) s'.
Proof.
  intros Hcb Hh Hwf Hown. unfold ttl_expire_assets. rewrite Hh. cbn [negb]. exec_steps.
  destruct (ttl_loop_exec s [] s (assets_with_dirs s)) as (s2 & E & Hw); try done.
  - apply without_nil.
  - by apply assets_with_dirs_wf.
  - intros id _. apply not_elem_of_nil.
  - by apply listed_lookup.
  - by exists s2.
Qed.

End eviction.

(** ** Evictions at work *)

(** Two uploads of 600 MB each, with a limit of 1 GB. *)
Definition du_steps (d : gmap string Dir) : result Z :=
  Ok (match size d with O => 0 | 1%nat => 600000000 | _ => 1200000000 end).
Definition upload_big (id : string) : proc State unit :=
  forget (save_file "/a" None None du_ex allow_all uuid_ex [Ok 600000000] "v.mp4" "vision" "video"
            None (Some id) None "" None).
Definition two_ex : State :=
  (after (replicate 11 (Go 1) ++ replicate 11 (Go 0)) (init host_ex, [upload_big "a"; upload_big "b"])).1.

Lemma du_steps_works : du_works du_steps.
Proof.
  intros d. unfold du_steps. destruct (size d) as [|[|]]; eexists _, _; (split; [reflexivity|vm_compute; reflexivity]).
Qed.

Lemma two_ex_wf : dict_wf (assets two_ex).
Proof. unfold dict_wf. apply (bool_decide_unpack (NoDup _)). vm_compute. exact I. Qed.

Lemma age_out_exact_witness :
  dkeys (assets two_ex) = ["b"; "a"] ∧ age_out_plan None du_steps allow_all (lit 1 0) two_ex = ["a"] ∧
  ∃ s' k, exec (age_out_assets (Some (lit 1 0)) None du_steps allow_all) two_ex = (Ok tt, s') ∧
    without allow_all two_ex (age_out_plan None du_steps allow_all (lit 1 0) two_ex) s' ∧
    age_out_plan None du_steps allow_all (lit 1 0) two_ex =
      filter (λ id, Is_true (evictable None two_ex id)) (take k (eviction_order two_ex)) ∧
    ((length (eviction_order two_ex) ≤ k)%nat ∨
     above_without du_steps allow_all (lit 1 0) two_ex
       (age_out_plan None du_steps allow_all (lit 1 0) two_ex) = false).
Proof.
  split; [vm_compute; reflexivity|]. split; [vm_compute; reflexivity|].
  apply (age_out_exact (Some (lit 1 0)) None du_steps allow_all (lit 1 0) two_ex du_steps_works I);
    [vm_compute; reflexivity|vm_compute; reflexivity|exact two_ex_wf|].
  intros id _ Hin. vm_compute in Hin. by apply elem_of_nil in Hin.
Defined.

(** Two hours later, with a limit of one hour. *)
Definition old_two : State := set_host (mk_Host (dirs (host two_ex)) (lit 8200 0) [] 0) two_ex.

Lemma old_two_wf : dict_wf (assets old_two).
Proof. unfold dict_wf. apply (bool_decide_unpack (NoDup _)). vm_compute. exact I. Qed.

Lemma old_two_own : own_dirs old_two.
Proof.
  intros id1 id2 a1 a2 H1 H2 _. unfold asset_of in *.
  apply bind_Some in H1 as (x1 & H1 & E1). apply bind_Some in H2 as (x2 & H2 & E2).
  apply dget_elem in H1, H2.
  assert (assets old_two = [("b", 0%nat); ("a", 1%nat)]) as Ea by (vm_compute; reflexivity).
  assert (asset_dir <$> heap old_two = ["/a/b"; "/a/a"]) as Eh by (vm_compute; reflexivity).
  apply (f_equal (fmap asset_dir)) in E1, E2. rewrite <-list_lookup_fmap, Eh in E1, E2.
  rewrite Ea in H1, H2. clear Ea Eh. set_unfold in H1. set_unfold in H2.
  destruct H1 as [H1|[H1|[]]], H2 as [H2|[H2|[]]]; injection H1 as -> ->; injection H2 as -> ->;
    simpl in E1, E2; congruence.
Qed.

Lemma ttl_exact_witness :
  expired_ids (lit 1 0) None old_two = ["b"; "a"] ∧
  ∃ s', exec (ttl_expire_assets (lit 1 0) None allow_all) old_two = (Ok tt, s') ∧
    without allow_all old_two (expired_ids (lit 1 0) None old_two) s'.
Proof.
  split; [vm_compute; reflexivity|].
  apply (ttl_exact (lit 1 0) None allow_all old_two I); [vm_compute; reflexivity|exact old_two_wf|exact old_two_own].
Defined.

(** ** Where the bookkeeping falls short *)

(** The limit does not bound the store. After an age-out the size of the file so
    far is forgotten, while the usage read is up to two seconds old: 3 GB are
    saved under a limit of 1 GB. *)
Example upload_over_limit :
  let '(r, s) := exec (save_file "/a" (Some (lit 1 0)) None du_ex allow_all uuid_ex
                         (replicate 30 (Ok 100000000)) "v.mp4" "vision" "video" None (Some "v") None "" None)
                      (init host_ex) in
  r = Ok "v" ∧ du_ex (dirs (host s)) = Ok 3000000000.
Proof. vm_compute. auto. Qed.

(** The use count is checked in one section and the asset removed in another: an
    asset locked between the two is deleted while it is in use. *)
Definition published_ex (others : list (proc State unit)) :=
  after [Go 0; Go 0] (init host_ex, stream_ex (Some "s") (Some "c1") :: others).

Example in_use_removed :
  let s := (after [Go 1; Go 2; Go 2; Go 1; Go 1; Go 1]
              (published_ex [cleanup_asset allow_all "s" false; lock_asset "s"])).1 in
  assets s = [] ∧ use_count <$> heap s !! 0%nat = Some 1.
Proof. vm_compute. auto. Qed.

(** Two deletions of one id both pass the check; the second removes the asset
    that was added under the id in between, and its camera id keeps naming it. *)
Example new_asset_removed :
  let s := (after ([Go 1; Go 2; Go 1; Go 1; Go 1; Go 3; Go 3; Go 2; Go 2; Go 2])
              (published_ex [cleanup_asset allow_all "s" false; cleanup_asset allow_all "s" false;
                             stream_ex (Some "s") (Some "c9")])).1 in
  assets s = [] ∧ length (heap s) = 2%nat ∧ get_asset_id_by_camera_id "c9" s = Some "s".
Proof. vm_compute. auto. Qed.

(** [save_from_base64] enters its asset without a reservation: a stream added
    under the id while the file is written is replaced, and looking the stream's
    camera id up gives the file. *)
Example stream_overwritten :
  let s := (after [Go 0; Go 1; Go 1; Go 0; Go 0; Go 0; Go 0]
              (init host_ex, [forget (save_decoded "/a" allow_all 1000 10 "base64_media.mp4" "video" None "s");
                              stream_ex (Some "s") (Some "c1")])).1 in
  (path <$> asset_of s "s") = Some "/a/s/base64_media.mp4" ∧ get_asset_id_by_camera_id "c1" s = Some "s".
Proof. vm_compute. auto. Qed.

(** Once an evicted id is used again, the next age-out that reaches it raises,
    which ends the eviction thread and fails the uploads that trigger it. *)
Example eviction_thread_dies :
  (exec (age_out_turn (Some (div_ints 1 1000000000)) (lit 1 0) None du_ex allow_all) again_ex.1).1 =
    Exn (service_exception "BadParameter" 400).
Proof. vm_compute. reflexivity. Qed.
