(* ===== verification/AssetDownload.v ===== *)
(** * Fetching remote media into the asset store

    [validate_url_ssrf_runtime_async] and [AssetManager._download_file] of
    [rtvi/rt-vlm/src/utils/asset_manager.py]: which hosts may be contacted, the
    redirect loop, the headers each request carries, and the size limit. The
    bytes then go through [AssetStore.save_file].

    Arguments of the model: the name resolution ([resolve], which may answer
    differently at every lookup; an address [ip_address] cannot read is [None]),
    [urljoin], and the answers of the servers. [urlsplit] is the part of the
    standard library's parser that gives scheme and host. File names, timeouts,
    logs and metrics are left out. *)

From Stdlib Require Import ZArith Lia Ascii.
From stdpp Require Import base list strings.
From S2P Require Import Prelude PyDict PyVal AssetStore.
Open Scope string_scope.
Open Scope list_scope.
Open Scope Z_scope.

(** ** URLs *)

(** Cut at the first character that satisfies [p]; it starts the second part. *)
Fixpoint span_until (p : ascii → bool) (s : string) : string * string :=
  match s with
  | EmptyString => ("", "")
  | String c s' => if p c then ("", s) else let '(a, b) := span_until p s' in (String c a, b)
  end.

(** [s.partition(c)]: before, whether [c] occurs, after *)
Definition partition (c : ascii) (s : string) : string * bool * string :=
  match span_until (Ascii.eqb c) s with
  | (a, String _ b) => (a, true, b)
  | (a, EmptyString) => (a, false, "")
  end.

(** [s.rpartition(c)[2]] *)
Fixpoint after_last (c : ascii) (s : string) : string :=
  match s with
  | EmptyString => ""
  | String _ s' => match partition c s with (_, false, _) => s | (_, true, _) => after_last c s' end
  end.

Definition is_alpha (c : ascii) : bool :=
  let n := nat_of_ascii (lower_ascii c) in ((97 <=? n) && (n <=? 122))%nat.
Definition scheme_char (c : ascii) : bool :=
  let n := nat_of_ascii c in
  is_alpha c || ((48 <=? n) && (n <=? 57))%nat || has_char c "+-.".

Fixpoint all_chars (p : ascii → bool) (s : string) : bool :=
  match s with EmptyString => true | String c s' => p c && all_chars p s' end.
Fixpoint drop_chars (p : ascii → bool) (s : string) : string :=
  match s with
  | EmptyString => EmptyString
  | String c s' => if p c then drop_chars p s' else String c (drop_chars p s')
  end.
Fixpoint lstrip_control (s : string) : string :=
  match s with
  | String c s' => if (nat_of_ascii c <=? 32)%nat then lstrip_control s' else s
  | EmptyString => s
  end.

Record Url := mk_Url { scheme : string; netloc : string }.

(** [urlparse(url)]; brackets that do not match raise. *)
Definition urlsplit (url : string) : result Url :=
  let clean := drop_chars (λ c, has_char c (String (ascii_of_nat 9) (String (ascii_of_nat 10) (String (ascii_of_nat 13) EmptyString))))
                 (lstrip_control url) in
  let '(sch, rest) :=
    match partition ":"%char clean with
    | (String c a, true, b) =>
        if is_alpha c && all_chars scheme_char (String c a) then (py_lower (String c a), b) else ("", clean)
    | _ => ("", clean)
    end in
  let loc := if String.prefix "//" rest
             then (span_until (λ c, has_char c "/?#") (String.substring 2 (String.length rest - 2) rest)).1
             else "" in
  if bool_decide (has_char "["%char loc ≠ has_char "]"%char loc) then Exn ValueError else Ok (mk_Url sch loc).

(** [parsed.hostname], with [None] as the empty string *)
Definition hostname (u : Url) : string :=
  let info := after_last "@"%char (netloc u) in
  let h := match partition "["%char info with
           | (_, true, b) => (partition "]"%char b).1.1
           | (_, false, _) => (partition ":"%char info).1.1
           end in
  match partition "%"%char h with
  | (a, true, zone) => py_lower a +:+ "%" +:+ zone
  | (a, false, _) => py_lower a
  end.

Example urlsplit_ex :
  (u ← urlsplit " HTTPS://user:pw@Cam.Example.com:8443/clip.mp4?x=1"; Ok (scheme u, hostname u)) =
    Ok ("https", "cam.example.com").
Proof. reflexivity. Qed.
Example urlsplit_v6 : (u ← urlsplit "http://[::1]:80/a"; Ok (hostname u)) = Ok "::1".
Proof. reflexivity. Qed.

(** ** Addresses *)

Inductive ip := V4 (n : Z) | V6 (n : Z).
Record network := mk_network { net_base : ip; net_prefix : Z }.

(** [address in network]: never across versions *)
Definition in_network (a : ip) (net : network) : bool :=
  match a, net_base net with
  | V4 n, V4 b => Z.shiftr n (32 - net_prefix net) =? Z.shiftr b (32 - net_prefix net)
  | V6 n, V6 b => Z.shiftr n (128 - net_prefix net) =? Z.shiftr b (128 - net_prefix net)
  | _, _ => false
  end.

Definition quad (a b c d : Z) : ip := V4 (a * 2 ^ 24 + b * 2 ^ 16 + c * 2 ^ 8 + d).

Definition BLOCKED_IP_RANGES : list network := [
  mk_network (quad 127 0 0 0) 8;
  mk_network (V6 1) 128;
  mk_network (quad 169 254 0 0) 16;
  mk_network (V6 (65152 * 2 ^ 112)) 10;
  mk_network (V6 (64512 * 2 ^ 112)) 7;
  mk_network (quad 0 0 0 0) 8;
  mk_network (quad 224 0 0 0) 4;
  mk_network (quad 240 0 0 0) 4 ].

Definition is_loopback (a : ip) : bool :=
  match a with V4 _ => in_network a (mk_network (quad 127 0 0 0) 8) | V6 n => n =? 1 end.
Definition is_link_local (a : ip) : bool :=
  match a with
  | V4 _ => in_network a (mk_network (quad 169 254 0 0) 16)
  | V6 _ => in_network a (mk_network (V6 (65152 * 2 ^ 112)) 10)
  end.

Definition invalid_parameters : pyexn := service_exception "InvalidParameters" 422.
Definition gaierror : pyexn := NamedError "gaierror".

(** The checks on one resolved address. *)
Definition check_ip (a : ip) : result unit :=
  if existsb (in_network a) BLOCKED_IP_RANGES then Exn invalid_parameters
  else if is_loopback a then Exn invalid_parameters
  else if is_link_local a then Exn invalid_parameters
  else Ok tt.

Fixpoint check_all (answers : list (option ip)) : result unit :=
  match answers with
  | [] => Ok tt
  | None :: l => check_all l
  | Some a :: l => _ ← check_ip a; check_all l
  end.

(** [validate_url_ssrf_runtime] and its async twin; [resolve] is
    [getaddrinfo]. *)
Definition validate_url_ssrf_runtime (resolve : string → result (list (option ip))) (url : string) :
    result unit :=
  u ← urlsplit url;
  if negb (String.eqb (scheme u) "http" || String.eqb (scheme u) "https") then Ok tt
  else if String.eqb (hostname u) "" then Exn invalid_parameters
  else match resolve (hostname u) with
       | Exn e => Exn (if bool_decide (e = gaierror) then invalid_parameters else e)
       | Ok answers => check_all answers
       end.

(** ** The request *)

Record Settings := {
  ssl_skip_verify_domains : string;
  max_redirects_text : string;
  auth_tokens : string;
}.

Definition ssl_skip_domains (c : Settings) : list string :=
  filter (.≠ "") ((λ d, py_lower (py_strip d)) <$> py_split "," (ssl_skip_verify_domains c)).

(** Clamped to 0-10; a text [int] refuses means 0. *)
Definition max_redirects (c : Settings) : nat :=
  match parse_int (max_redirects_text c) with
  | Some n => Z.to_nat (Z.max 0 (Z.min n 10))
  | None => 0
  end.

Definition ALLOWED_URL_HEADERS : list string :=
  ["authorization"; "x-api-key"; "x-jfrog-art-api"; "cookie"; "accept"; "accept-language"].
Definition user_agent : dict string string := [("User-Agent", "NVIDIA-RTVI/1.0")].

(** The entry of [ASSET_DOWNLOAD_AUTH_TOKENS] for a host *)
Definition token_entry (host entry : string) : option string :=
  match partition "="%char (py_strip entry) with
  | (domain, true, token) =>
      if String.eqb (py_lower (py_strip domain)) host then Some (py_strip token) else None
  | (_, false, _) => None
  end.
Definition token_for (c : Settings) (host : string) : option string :=
  if String.eqb (auth_tokens c) "" then None
  else head (omap (token_entry host) (py_split ";" (auth_tokens c))).

Definition add_allowed (h : dict string string) (kv : string * string) : dict string string :=
  if bool_decide (py_lower kv.1 ∈ ALLOWED_URL_HEADERS) then dset h kv.1 kv.2 else h.

(** [(urlparse(url).hostname or "").lower()] *)
Definition host_of (u : Url) : string := py_lower (hostname u).

(** [_auth_headers_for_url] *)
Definition auth_headers_for_url (c : Settings) (url_headers : dict string string) (original_host : string)
    (u : Url) : dict string string :=
  if negb (String.eqb (scheme u) "https") then user_agent
  else if negb (bool_decide (url_headers = [])) && String.eqb (host_of u) original_host
  then foldl add_allowed user_agent url_headers
  else match token_for c (host_of u) with
       | Some t => dset user_agent "Authorization" t
       | None => user_agent
       end.

Record Request := mk_Request { req_url : string; req_headers : dict string string; skip_verify : bool }.

(** A server's answer: the body is the sizes of its chunks. *)
Record Response := mk_Response { status : Z; location : option string; body : list Z }.

Definition is_redirect (r : Response) : bool := bool_decide (status r ∈ [301; 302; 303; 307; 308]).

Section download.
Context (c : Settings) (url_headers : dict string string) (max_size : Z).
Context (resolve : nat → string → result (list (option ip))).
Context (urljoin : string → string → string).
Context (respond : nat → Request → result Response).

(** The request for a URL, whose parse may raise *)
Definition request_for (original_host current : string) : result Request :=
  u ← urlsplit current;
  Ok (mk_Request current (auth_headers_for_url c url_headers original_host u)
        (bool_decide (host_of u ∈ ssl_skip_domains c))).

(** The redirect loop, with the requests it sends: [left] hops remain after the
    current one. *)
Fixpoint hops (original_host : string) (left hop : nat) (current : string) :
    list Request * result Response :=
  match request_for original_host current with
  | Exn e => ([], Exn e)
  | Ok req =>
      match respond hop req with
      | Exn e => ([req], Exn e)
      | Ok r =>
          if is_redirect r then
            match nonempty (location r) with
            | None => ([req], Exn (service_exception "DownloadFailed" 502))
            | Some loc =>
                match left with
                | O => ([req], Exn (service_exception "RedirectNotAllowed" 422))
                | S left' =>
                    let next := urljoin current loc in
                    match validate_url_ssrf_runtime (resolve (S hop)) next with
                    | Exn e => ([req], Exn e)
                    | Ok _ => let '(reqs, res) := hops original_host left' (S hop) next in (req :: reqs, res)
                    end
                end
            end
          else ([req], Ok r)
      end
  end.

(** Receive the body within the limit; the size received. *)
Fixpoint receive (chunks : list Z) (total_size : Z) : result Z :=
  match chunks with
  | [] => Ok total_size
  | n :: chunks' =>
      if n =? 0 then receive chunks' total_size
      else if max_size <? total_size + n then Exn (service_exception "FileTooLarge" 413)
      else receive chunks' (total_size + n)
  end.

(** [_download_file] up to [save_file]: the requests sent, the bytes stored in
    the temporary file. *)
Definition download_file (url : string) : list Request * result Z :=
  match validate_url_ssrf_runtime (resolve 0) url with
  | Exn e => ([], Exn e)
  | Ok _ =>
      match urlsplit url with
      | Exn e => ([], Exn e)
      | Ok u =>
          let '(reqs, res) := hops (host_of u) (max_redirects c) 0 url in
          (reqs, r ← res;
                 if negb (status r =? 200) then Exn (service_exception "DownloadFailed" 502)
                 else receive (body r) 0)
      end
  end.

(** ** What a download may do *)

(** The credentials a request may carry. *)
Definition headers_safe (original_host : string) (req : Request) : Prop :=
  ∃ u, urlsplit (req_url req) = Ok u ∧
    (req_headers req = user_agent ∨
     scheme u = "https" ∧
       (host_of u = original_host ∧
          (∀ k v, (k, v) ∈ req_headers req →
             (k, v) ∈ user_agent ∨ (k, v) ∈ url_headers ∧ py_lower k ∈ ALLOWED_URL_HEADERS) ∨
        ∃ t, token_for c (host_of u) = Some t ∧
          req_headers req = user_agent ++ [("Authorization", t)])).

(** Every address a host was resolved to lies outside the blocked ranges. *)
Definition vetted (hop : nat) (url : string) : Prop :=
  ∃ u, urlsplit url = Ok u ∧
    (scheme u = "http" ∨ scheme u = "https" →
     ∃ answers, hostname u ≠ "" ∧ resolve hop (hostname u) = Ok answers ∧
       ∀ a net, Some a ∈ answers → net ∈ BLOCKED_IP_RANGES → in_network a net = false).

Lemma check_all_vetted answers a net :
  check_all answers = Ok tt → Some a ∈ answers → net ∈ BLOCKED_IP_RANGES → in_network a net = false.
Proof.
  induction answers as [|[b|] answers IH]; simpl; [by intros _ ?%elem_of_nil| |].
  - intros Hc Hin Hnet. apply elem_of_cons in Hin. apply result_bind_Ok in Hc as ([] & Hb & Hc).
    destruct Hin as [[= <-]|Hin]; [|by apply IH].
    unfold check_ip in Hb. destruct (existsb _ _) eqn:E; [done|].
    destruct (in_network a net) eqn:En; [|done].
    assert (existsb (in_network a) BLOCKED_IP_RANGES = true); [|congruence].
    apply existsb_exists. exists net. split; [by apply list_elem_of_In|done].
  - intros Hc Hin Hnet. apply elem_of_cons in Hin as [?|?]; [done|by apply IH].
Qed.

Lemma validate_vetted hop url : validate_url_ssrf_runtime (resolve hop) url = Ok tt → vetted hop url.
Proof.
  unfold validate_url_ssrf_runtime. intros (u & Hu & Hv)%result_bind_Ok. exists u. split; [done|].
  intros Hs. case_match eqn:Es.
  { apply negb_true_iff, orb_false_iff in Es as [?%String.eqb_neq ?%String.eqb_neq]. tauto. }
  destruct (String.eqb (hostname u) "") eqn:Eh; [done|]. apply String.eqb_neq in Eh.
  destruct (resolve hop (hostname u)) as [answers|e]; [|done].
  exists answers. split_and!; [done|done|]. intros a net. by apply check_all_vetted.
Qed.

Lemma add_allowed_safe (h0 l h : dict string string) :
  (∀ k v, (k, v) ∈ h → (k, v) ∈ user_agent ∨ (k, v) ∈ h0 ∧ py_lower k ∈ ALLOWED_URL_HEADERS) →
  (∀ kv, kv ∈ l → kv ∈ h0) →
  ∀ k v, (k, v) ∈ foldl add_allowed h l →
    (k, v) ∈ user_agent ∨ (k, v) ∈ h0 ∧ py_lower k ∈ ALLOWED_URL_HEADERS.
Proof.
  revert h. induction l as [|[k' v'] l IH]; intros h Hh Hl; [done|]. cbn [foldl]. apply IH.
  - intros k v. unfold add_allowed. simpl. case_bool_decide as Ha; [|apply Hh].
    intros [[-> ->]|Hin]%dset_elem_1; [right|by apply Hh].
    split; [apply Hl; by left|done].
  - intros kv Hin. apply Hl. by right.
Qed.

Lemma request_for_safe original_host current req :
  request_for original_host current = Ok req →
  req_url req = current ∧ headers_safe original_host req.
Proof.
  unfold request_for. intros (u & Hu & [= <-])%result_bind_Ok. split; [done|].
  exists u. split; [done|]. simpl. unfold auth_headers_for_url.
  destruct (String.eqb (scheme u) "https") eqn:Es; simpl; [|by left].
  apply String.eqb_eq in Es. case_match eqn:Eh.
  - apply andb_true_iff in Eh as [_ Eh%String.eqb_eq]. right. split; [done|]. left. split; [done|].
    apply add_allowed_safe; [by left|done].
  - destruct (token_for c (host_of u)) as [t|] eqn:Et; [|by left].
    right. split; [done|]. right. by exists t.
Qed.

Lemma hops_ok original_host left hop current i req :
  (hops original_host left hop current).1 !! i = Some req → vetted hop current →
  vetted (hop + i) (req_url req) ∧ headers_safe original_host req.
Proof.
  revert hop current i. induction left as [|left IH]; intros hop current i; simpl;
    destruct (request_for original_host current) as [req0|e] eqn:Er; try done;
    apply request_for_safe in Er as [Hurl Hsafe]; subst;
    (assert ([req0] !! i = Some req → vetted hop (req_url req0) →
       vetted (hop + i) (req_url req) ∧ headers_safe original_host req) as Hone
     by (destruct i as [|i]; [intros [= <-] ?; by rewrite Nat.add_0_r|done]));
    destruct (respond hop req0) as [r|e]; try exact Hone;
    (destruct (is_redirect r); [|exact Hone]);
    (destruct (nonempty (location r)) as [loc|]; [|exact Hone]); [exact Hone|].
  destruct (validate_url_ssrf_runtime _ _) as [[]|e] eqn:Ev; [|exact Hone].
  apply validate_vetted in Ev. specialize (IH (S hop) (urljoin (req_url req0) loc)).
  destruct (hops _ left _ _) as [reqs res]. simpl in *. destruct i as [|i]; [exact Hone|].
  intros Hi _. rewrite Nat.add_succ_r. by apply (IH i).
Qed.

Lemma hops_length original_host left hop current :
  (length (hops original_host left hop current).1 ≤ S left)%nat.
Proof.
  revert hop current. induction left as [|left IH]; intros hop current; simpl.
  - repeat case_match; simpl; lia.
  - destruct (request_for _ _) as [req|]; [|simpl; lia].
    destruct (respond hop req) as [r|]; [|simpl; lia].
    destruct (is_redirect r); [|simpl; lia]. destruct (nonempty _) as [loc|]; [|simpl; lia].
    destruct (validate_url_ssrf_runtime _ _); [|simpl; lia].
    specialize (IH (S hop) (urljoin current loc)). destruct (hops _ left _ _). simpl in *. lia.
Qed.

Lemma receive_bounded chunks t n : t ≤ max_size → receive chunks t = Ok n → n ≤ max_size.
Proof.
  revert t. induction chunks as [|k chunks IH]; intros t Ht; simpl; [by intros [= <-]|].
  repeat case_match; try done; intros; bool_lia; eapply IH; try done; lia.
Qed.

Lemma receive_all chunks t : (∀ n, n ∈ chunks → 0 ≤ n) → t + foldr Z.add 0 chunks ≤ max_size →
  receive chunks t = Ok (t + foldr Z.add 0 chunks).
Proof.
  revert t. induction chunks as [|k chunks IH]; intros t Hpos Ht; simpl in *; [by rewrite Z.add_0_r|].
  assert (0 ≤ k) by (apply Hpos; by left).
  assert (0 ≤ foldr Z.add 0 chunks) as Hs.
  { clear -Hpos. induction chunks as [|x chunks IH]; simpl; [lia|].
    assert (0 ≤ x) by (apply Hpos; right; by left).
    assert (0 ≤ foldr Z.add 0 chunks); [|lia]. apply IH. intros n Hn. apply Hpos.
    apply elem_of_cons in Hn as [->|?]; [by left|by do 2 right]. }
  destruct (k =? 0) eqn:Ek; [apply Z.eqb_eq in Ek; subst; by apply IH; [intros; apply Hpos; by right|]|].
  destruct (max_size <? t + k) eqn:El; [apply Z.ltb_lt in El; lia|].
  rewrite IH; [f_equal; lia|intros; apply Hpos; by right|lia].
Qed.

Lemma download_requests url i req :
  (download_file url).1 !! i = Some req →
  ∃ u, urlsplit url = Ok u ∧ vetted i (req_url req) ∧ headers_safe (host_of u) req.
Proof.
  unfold download_file. destruct (validate_url_ssrf_runtime _ _) as [[]|] eqn:Ev; [|done].
  destruct (urlsplit url) as [u|] eqn:Eu; [|done].
  destruct (hops _ _ _ _) as [reqs res] eqn:Eh. simpl. intros Hi. exists u. split; [done|].
  apply validate_vetted in Ev.
  apply (hops_ok (host_of u) (max_redirects c) 0 url i req); [by rewrite Eh|done].
Qed.

(** C17. Every request of a download, redirects included, goes to a URL that was
    resolved and vetted just before it: no address its host was resolved to lies in
    a blocked range. *)
Theorem requests_vetted url i req :
  (download_file url).1 !! i = Some req → vetted i (req_url req).
Proof. intros (u & _ & Hv & _)%download_requests. exact Hv. Qed.

(** C18. Credentials travel over https only: those of the caller, filtered by the
    allowlist, to the host of the original URL; those of the server configuration
    to the host they are configured for; every other request carries the user agent
    alone. *)
Theorem credentials_scoped url i req :
  (download_file url).1 !! i = Some req →
  ∃ u, urlsplit url = Ok u ∧ headers_safe (host_of u) req.
Proof. intros (u & Hu & _ & Hs)%download_requests. by exists u. Qed.

(** A download sends at most eleven requests, one more than the redirects
    allowed, and what it stores is within the size limit. *)
Theorem download_bounded url :
  0 ≤ max_size →
  (length (download_file url).1 ≤ S (max_redirects c))%nat ∧ (max_redirects c ≤ 10)%nat ∧
  ∀ n, (download_file url).2 = Ok n → n ≤ max_size.
Proof.
  intros Hmax. unfold download_file. destruct (validate_url_ssrf_runtime _ _) as [[]|]; simpl;
    (assert (max_redirects c ≤ 10)%nat as Hten by (unfold max_redirects; case_match; lia));
    [|split_and!; [lia|done|done]].
  destruct (urlsplit url) as [u|]; simpl; [|split_and!; [lia|done|done]].
  pose proof (hops_length (host_of u) (max_redirects c) 0 url) as Hl.
  destruct (hops _ _ _ _) as [reqs res]. simpl in *. split_and!; [done|done|].
  intros n (r & _ & Hn)%result_bind_Ok. case_match; [done|]. by eapply receive_bounded.
Qed.

End download.

(** [_download_file_from_s3] reads the object to its end, without a limit. *)
Fixpoint receive_s3 (chunks : list Z) (bytes_written : Z) : Z :=
  match chunks with
  | [] => bytes_written
  | n :: chunks' => if n =? 0 then bytes_written else receive_s3 chunks' (bytes_written + n)
  end.

(** The temporary file is handed to [save_file], which reads it 10 MB at a time. *)
Definition CHUNK : Z := 1024 * 1024 * 10.
Definition file_chunks (n : Z) : list Z :=
  replicate (Z.to_nat (n / CHUNK)) CHUNK ++ (if n mod CHUNK =? 0 then [] else [n mod CHUNK]).

Lemma file_chunks_total n : 0 ≤ n → foldr Z.add 0 (file_chunks n) = n.
Proof.
  intros Hn. assert (∀ k l, foldr Z.add 0 (replicate k CHUNK ++ l) = Z.of_nat k * CHUNK + foldr Z.add 0 l) as Hrep.
  { intros k l. induction k as [|k IH]; simpl; [done|]. rewrite IH. lia. }
  unfold file_chunks. rewrite Hrep, Z2Nat.id by (apply Z.div_pos; unfold CHUNK; lia).
  assert (n = CHUNK * (n / CHUNK) + n mod CHUNK) by (apply Z.div_mod; unfold CHUNK; lia).
  destruct (n mod CHUNK =? 0) eqn:E; simpl; [apply Z.eqb_eq in E|]; lia.
Qed.

(** ** A download at work *)

Definition settings_ex : Settings := {|
  ssl_skip_verify_domains := ""; max_redirects_text := "2";
  auth_tokens := "cdn.example.com = Bearer cdn; other=x" |}.
Definition resolve_ex (hop : nat) (host : string) : result (list (option ip)) :=
  if String.eqb host "localhost" then Ok [Some (quad 127 0 0 1)]
  else if String.eqb host "mapped" then Ok [Some (V6 (65535 * 2 ^ 32 + 2130706433))]
  else Ok [Some (quad 93 184 216 34); None].
Definition urljoin_ex (base loc : string) : string := loc.
Definition respond_ex (hop : nat) (req : Request) : result Response :=
  Ok (match hop with
      | O => mk_Response 302 (Some "https://cdn.example.com/v.mp4") []
      | _ => mk_Response 200 None [7; 0; 5]
      end).
Definition caller_headers : dict string string := [("X-Api-Key", "k"); ("Host", "evil")].
Definition download_ex (url : string) :=
  download_file settings_ex caller_headers 100 resolve_ex urljoin_ex respond_ex url.

Lemma requests_vetted_witness :
  req_url <$> (download_ex "https://cams.example.com/v.mp4").1 =
    ["https://cams.example.com/v.mp4"; "https://cdn.example.com/v.mp4"] ∧
  vetted resolve_ex 1 "https://cdn.example.com/v.mp4".
Proof.
  split; [vm_compute; reflexivity|].
  exact (requests_vetted settings_ex caller_headers 100 resolve_ex urljoin_ex respond_ex
    "https://cams.example.com/v.mp4" 1
    (mk_Request "https://cdn.example.com/v.mp4"
      [("User-Agent", "NVIDIA-RTVI/1.0"); ("Authorization", "Bearer cdn")] false)
    ltac:(vm_compute; reflexivity)).
Defined.

Lemma credentials_scoped_witness :
  req_headers <$> (download_ex "https://cams.example.com/v.mp4").1 =
    [[("User-Agent", "NVIDIA-RTVI/1.0"); ("X-Api-Key", "k")];
     [("User-Agent", "NVIDIA-RTVI/1.0"); ("Authorization", "Bearer cdn")]] ∧
  ∃ u, urlsplit "https://cams.example.com/v.mp4" = Ok u ∧
    headers_safe settings_ex caller_headers (host_of u)
      (mk_Request "https://cams.example.com/v.mp4"
        [("User-Agent", "NVIDIA-RTVI/1.0"); ("X-Api-Key", "k")] false).
Proof.
  split; [vm_compute; reflexivity|].
  exact (credentials_scoped settings_ex caller_headers 100 resolve_ex urljoin_ex respond_ex
    "https://cams.example.com/v.mp4" 0
    (mk_Request "https://cams.example.com/v.mp4"
      [("User-Agent", "NVIDIA-RTVI/1.0"); ("X-Api-Key", "k")] false)
    ltac:(vm_compute; reflexivity)).
Defined.

Lemma download_bounded_witness :
  (download_ex "https://cams.example.com/v.mp4").2 = Ok 12 ∧ 12 ≤ 100.
Proof.
  split; [vm_compute; reflexivity|].
  apply (proj2 (proj2 (download_bounded settings_ex caller_headers 100 resolve_ex urljoin_ex respond_ex
    "https://cams.example.com/v.mp4" ltac:(lia)))). vm_compute. reflexivity.
Defined.

Example loopback_refused : download_ex "http://localhost:8080/admin" = ([], Exn invalid_parameters).
Proof. vm_compute. reflexivity. Qed.

(** The IPv6 form of an IPv4 loopback address is not in the blocked ranges. *)
Example mapped_loopback_passes :
  validate_url_ssrf_runtime (resolve_ex 0) "http://mapped/admin" = Ok tt.
Proof. vm_compute. reflexivity. Qed.

(** The caller's headers go to any port of the host: the origin is not compared. *)
Example other_port_gets_credentials :
  auth_headers_for_url settings_ex caller_headers "cams.example.com" (mk_Url "https" "cams.example.com:9999") =
    [("User-Agent", "NVIDIA-RTVI/1.0"); ("X-Api-Key", "k")].
Proof. vm_compute. reflexivity. Qed.

(** The loopback and link-local checks after the blocked ranges never decide. *)
Lemma extra_checks_subsumed a :
  is_loopback a || is_link_local a = true → existsb (in_network a) BLOCKED_IP_RANGES = true.
Proof.
  destruct a as [n|n]; unfold is_loopback, is_link_local; intros [H|H]%orb_true_iff; apply existsb_exists.
  - exists (mk_network (quad 127 0 0 0) 8). split; [by left|done].
  - exists (mk_network (quad 169 254 0 0) 16). split; [simpl; tauto|done].
  - apply Z.eqb_eq in H as ->. exists (mk_network (V6 1) 128). split; [simpl; tauto|done].
  - exists (mk_network (V6 (65152 * 2 ^ 112)) 10). split; [simpl; tauto|done].
Qed.
