(* ===== verification/PyIso.v ===== *)
(** * ISO 8601 texts and the calendar

    [datetime.fromtimestamp(x, tz=utc)], [isoformat], the millisecond texts of
    [strftime], and [HMAC] over SHA-1. What [datetime.fromisoformat] accepts is an
    interface ([IsoParser]) with the law CPython documents: it reads back what
    [isoformat] writes. [iso_parse] is an instance, for extended texts; that it
    satisfies the law rests on the calendar being invertible ([civil_inverse]). *)

From Stdlib Require Import ZArith Lia Floats.SpecFloat.
From stdpp Require Import base list strings.
From S2P Require Import Prelude PyFloat PyText Sha1.
Open Scope string_scope.
Open Scope Z_scope.

Definition day_us : Z := 86400000000.

(** ** The calendar *)

(** The day number of a civil date. *)
Definition days_from_civil (y m d : Z) : Z :=
  let y' := y - (if m <=? 2 then 1 else 0) in
  let yoe := y' mod 400 in
  let doy := (153 * (if m <=? 2 then m + 9 else m - 3) + 2) / 5 + d - 1 in
  y' / 400 * 146097 + (yoe * 365 + yoe / 4 - yoe / 100 + doy) - 719468.

Lemma div_bounds a b : 0 < b → b * (a / b) <= a < b * (a / b) + b.
Proof. intros. pose proof (Z.mul_div_le a b). pose proof (Z.mul_succ_div_gt a b). lia. Qed.

(** The year of a day of the 400-year era, and the day of that year. *)
Lemma year_of_era_day doe yoe :
  0 <= doe < 146097 → yoe = (doe - doe / 1460 + doe / 36524 - doe / 146096) / 365 →
  0 <= yoe < 400 ∧ 0 <= doe - (365 * yoe + yoe / 4 - yoe / 100) <= 366.
Proof.
  intros H E.
  pose proof (div_bounds doe 1460 ltac:(lia)). pose proof (div_bounds doe 36524 ltac:(lia)).
  pose proof (div_bounds doe 146096 ltac:(lia)).
  pose proof (div_bounds (doe - doe / 1460 + doe / 36524 - doe / 146096) 365 ltac:(lia)). rewrite <-E in *.
  pose proof (div_bounds yoe 4 ltac:(lia)). pose proof (div_bounds yoe 100 ltac:(lia)).
  generalize dependent (doe / 1460). generalize dependent (doe / 36524). generalize dependent (doe / 146096).
  generalize dependent (yoe / 4). generalize dependent (yoe / 100). intros. lia.
Qed.

(** The month and day of a day of the year that starts in March. *)
Lemma month_of_year_day doy mp :
  0 <= doy <= 366 → mp = (5 * doy + 2) / 153 →
  0 <= mp <= 11 ∧ 1 <= doy - (153 * mp + 2) / 5 + 1 <= 31.
Proof.
  intros H E. pose proof (div_bounds (5 * doy + 2) 153 ltac:(lia)). rewrite <-E in *.
  pose proof (div_bounds (153 * mp + 2) 5 ltac:(lia)). lia.
Qed.

Lemma civil_inverse n y m d :
  civil_from_days n = (y, m, d) → days_from_civil y m d = n ∧ 1 <= m <= 12 ∧ 1 <= d <= 31.
Proof.
  unfold civil_from_days. intros [= <- <- <-].
  set (z := n + 719468). set (doe := z mod 146097).
  set (yoe := (doe - doe / 1460 + doe / 36524 - doe / 146096) / 365) in *.
  set (doy := doe - (365 * yoe + yoe / 4 - yoe / 100)) in *.
  set (mp := (5 * doy + 2) / 153) in *.
  destruct (year_of_era_day doe yoe) as [Hyoe Hdoy]; [unfold doe; apply Z.mod_pos_bound; lia|done|].
  destruct (month_of_year_day doy mp Hdoy eq_refl) as [Hmp Hd].
  unfold days_from_civil.
  assert (z = 146097 * (z / 146097) + doe) as Hz by (apply Z.div_mod; lia).
  assert (yoe mod 400 = yoe ∧ (yoe + z / 146097 * 400) / 400 = z / 146097 ∧
          (yoe + z / 146097 * 400) mod 400 = yoe) as (_ & Hq & Hr).
  { rewrite Z.div_add, Z.mod_add, Z.div_small, Z.mod_small by lia. lia. }
  destruct (mp <? 10) eqn:Em; [apply Z.ltb_lt in Em|apply Z.ltb_ge in Em].
  - replace (mp + 3 <=? 2) with false by (symmetry; apply Z.leb_gt; lia).
    rewrite Z.sub_0_r, Z.add_0_r, Hq, Hr. replace (mp + 3 - 3) with mp by lia. split; lia.
  - replace (mp - 9 <=? 2) with true by (symmetry; apply Z.leb_le; lia).
    replace (yoe + z / 146097 * 400 + 1 - 1) with (yoe + z / 146097 * 400) by lia.
    rewrite Hq, Hr. replace (mp - 9 + 9) with mp by lia. split; lia.
Qed.

(** ** Texts of a datetime *)

(** The date and time of day, to the second. *)
Definition iso_seconds (dt : datetime) : string :=
  let '(y, m, d) := civil_from_days (dt / day_us) in
  let s := dt mod day_us / 1000000 in
  digits 4 y +:+ "-" +:+ digits 2 m +:+ "-" +:+ digits 2 d +:+ "T" +:+
  digits 2 (s / 3600) +:+ ":" +:+ digits 2 (s / 60 mod 60) +:+ ":" +:+ digits 2 (s mod 60).

(** With [k] digits of the second's fraction, truncated. *)
Definition fraction (k : nat) (dt : datetime) : string :=
  match k with O => "" | _ => "." +:+ digits k (dt mod 1000000 / 10 ^ (6 - Z.of_nat k)) end.
Definition iso_text (k : nat) (dt : datetime) : string := iso_seconds dt +:+ fraction k dt +:+ "+00:00".

(** [dt.isoformat()] of a UTC datetime *)
Definition isoformat_utc (dt : datetime) : string :=
  iso_text (if dt mod 1000000 =? 0 then 0 else 6) dt.

(** [dt.strftime(f"%Y-%m-%dT%H:%M:%S.{dt.microsecond // 1000:03d}Z")]; [%Y] is
    not padded by the C library. *)
Definition strftime_ms (dt : datetime) : string :=
  let '(y, m, d) := civil_from_days (dt / day_us) in
  let s := dt mod day_us / 1000000 in
  str_Z y +:+ "-" +:+ digits 2 m +:+ "-" +:+ digits 2 d +:+ "T" +:+
  digits 2 (s / 3600) +:+ ":" +:+ digits 2 (s / 60 mod 60) +:+ ":" +:+ digits 2 (s mod 60)
  +:+ "." +:+ digits 3 (dt mod 1000000 / 1000) +:+ "Z".

(** The years with four digits. *)
Definition four_digit_year (dt : datetime) : Prop :=
  1000 <= (civil_from_days (dt / day_us)).1.1 <= 9999.

Definition truncate (k : nat) (dt : datetime) : datetime := dt - dt mod 10 ^ (6 - Z.of_nat k).

(** ** Reading *)

(** [datetime.fromisoformat(s)]: the wall clock, and the offset from UTC unless
    the text has none. *)
Class IsoParser := fromisoformat : string → option (datetime * option timedelta).

Class IsoParserLaws `{IsoParser} : Prop := {
  reads_isoformat k dt : k ∈ [0%nat; 3%nat; 6%nat] → four_digit_year dt →
    fromisoformat (iso_text k dt) = Some (truncate k dt, Some 0);
  refuses_empty : fromisoformat "" = None;
}.

Fixpoint take_digits (n : nat) (s : string) (acc : Z) : option (Z * string) :=
  match n, s with
  | O, _ => Some (acc, s)
  | S n', String c s' =>
      let b := byte_of c in
      if (48 <=? b) && (b <=? 57) then take_digits n' s' (acc * 10 + (b - 48)) else None
  | S _, EmptyString => None
  end.

Definition expect (c : Ascii.ascii) (s : string) : option string :=
  match s with String c' s' => if Ascii.eqb c c' then Some s' else None | EmptyString => None end.

(** Digits of a fraction, in microseconds. *)
Definition read_fraction (s : string) : option (Z * string) :=
  match expect (Ascii.ascii_of_nat 46) s with
  | None => Some (0, s)
  | Some s' =>
      match take_digits 6 s' 0 with
      | Some r => Some r
      | None => '(ms, s'') ← take_digits 3 s' 0; Some (ms * 1000, s'')
      end
  end.

Definition read_offset (s : string) : option (option timedelta) :=
  let clock (sign : Z) (s : string) :=
    '(h, s) ← take_digits 2 s 0; s ← expect (Ascii.ascii_of_nat 58) s; '(m, s) ← take_digits 2 s 0;
    if String.eqb s "" && (h <? 24) && (m <? 60) then Some (Some (sign * (h * 60 + m) * 60000000)) else None in
  match s with
  | EmptyString => Some None
  | String c s' =>
      match Ascii.nat_of_ascii c with
      | 43%nat => clock 1 s'
      | 45%nat => clock (-1) s'
      | 90%nat => if String.eqb s' "" then Some (Some 0) else None
      | _ => None
      end
  end.

(** Extended texts: date, [T], time, a fraction of three or six digits, offset. *)
Definition iso_parse (s : string) : option (datetime * option timedelta) :=
  '(y, s) ← take_digits 4 s 0; s ← expect (Ascii.ascii_of_nat 45) s;
  '(m, s) ← take_digits 2 s 0; s ← expect (Ascii.ascii_of_nat 45) s;
  '(d, s) ← take_digits 2 s 0; s ← expect (Ascii.ascii_of_nat 84) s;
  '(h, s) ← take_digits 2 s 0; s ← expect (Ascii.ascii_of_nat 58) s;
  '(mi, s) ← take_digits 2 s 0; s ← expect (Ascii.ascii_of_nat 58) s;
  '(sec, s) ← take_digits 2 s 0; '(us, s) ← read_fraction s; off ← read_offset s;
  if bool_decide (civil_from_days (days_from_civil y m d) = (y, m, d)) &&
     (1 <=? y) && (h <? 24) && (mi <? 60) && (sec <? 60)
  then Some (days_from_civil y m d * day_us + ((h * 60 + mi) * 60 + sec) * 1000000 + us, off)
  else None.

Example iso_parse_ex :
  iso_parse "2024-03-14T12:00:00.123+05:30" = Some (1710417600123000, Some 19800000000) ∧
  iso_parse "2024-02-30T00:00:00" = None ∧ iso_parse "now" = None.
Proof. split_and!; vm_compute; reflexivity. Qed.

(** ** The parser reads back what is written *)

Lemma string_app_assoc (a b c : string) : (a +:+ b) +:+ c = a +:+ (b +:+ c).
Proof.
  induction a as [|x a IH]; [done|].
  change (String x ((a +:+ b) +:+ c) = String x (a +:+ b +:+ c)). by rewrite IH.
Qed.

Lemma take_digits_snoc n s acc :
  take_digits (S n) s acc = '(a, s') ← take_digits n s acc; take_digits 1 s' a.
Proof.
  revert s acc. induction n as [|n IH]; intros s acc; [done|].
  destruct s as [|c s]; [done|]. cbn [take_digits]. case_match; [|done]. apply IH.
Qed.

Lemma byte_of_digit d : 0 <= d < 10 → byte_of (digit d) = 48 + d.
Proof.
  intros Hd. unfold byte_of, digit. rewrite Ascii.N_ascii_embedding by lia. lia.
Qed.

Lemma take_digits_digits n k rest acc :
  take_digits n (digits n k +:+ rest) acc = Some (acc * 10 ^ Z.of_nat n + k mod 10 ^ Z.of_nat n, rest).
Proof.
  revert k rest. induction n as [|n IH]; intros k rest.
  - simpl. rewrite Z.mod_1_r. do 2 f_equal. lia.
  - rewrite take_digits_snoc. cbn [digits]. rewrite string_app_assoc, IH. simpl.
    rewrite byte_of_digit by (apply Z.mod_pos_bound; lia).
    pose proof (Z.mod_pos_bound k 10 ltac:(lia)).
    replace ((48 <=? 48 + k mod 10) && (48 + k mod 10 <=? 57)) with true by bool_lia.
    do 2 f_equal. rewrite Nat2Z.inj_succ, Z.pow_succ_r by lia.
    pose proof (Z.pow_pos_nonneg 10 (Z.of_nat n) ltac:(lia) ltac:(lia)).
    rewrite Z.rem_mul_r by lia. lia.
Qed.

Lemma take_digits_value n k rest : 0 <= k < 10 ^ Z.of_nat n → take_digits n (digits n k +:+ rest) 0 = Some (k, rest).
Proof. intros Hk. rewrite take_digits_digits, Z.mod_small by done. by rewrite Z.mul_0_l. Qed.

Lemma expect_char c s : expect c (String c EmptyString +:+ s) = Some s.
Proof. change (expect c (String c s) = Some s). simpl. by rewrite Ascii.eqb_refl. Qed.

(** The seconds of the day and their parts. *)
Lemma time_of_day dt :
  let s := dt mod day_us / 1000000 in
  0 <= s / 3600 < 24 ∧ 0 <= s / 60 mod 60 < 60 ∧ 0 <= s mod 60 < 60 ∧
  dt = dt / day_us * day_us + ((s / 3600 * 60 + s / 60 mod 60) * 60 + s mod 60) * 1000000 + dt mod 1000000.
Proof.
  unfold day_us. cbv zeta. set (t := dt mod 86400000000).
  assert (dt = 86400000000 * (dt / 86400000000) + t) as E by (apply Z.div_mod; lia).
  assert (0 <= t < 86400000000) by (apply Z.mod_pos_bound; lia).
  assert (dt mod 1000000 = t mod 1000000) as -> by (unfold t; Z.to_euclidean_division_equations; lia).
  clearbody t. Z.to_euclidean_division_equations; lia.
Qed.

Lemma expect_lit c lit s : lit = String c "" → expect c (lit +:+ s) = Some s.
Proof. intros ->. apply expect_char. Qed.

Lemma read_offset_utc : read_offset "+00:00" = Some (Some 0).
Proof. reflexivity. Qed.

Lemma take_digits_short n k c rest :
  (k < n)%nat → (48 <=? byte_of c) && (byte_of c <=? 57) = false →
  ∀ x acc, take_digits n (digits k x +:+ String c rest) acc = None.
Proof.
  intros Hk Hc x acc.
  assert (∀ j s acc, take_digits (k + S j) (digits k x +:+ s) acc =
    take_digits (S j) s (acc * 10 ^ Z.of_nat k + x mod 10 ^ Z.of_nat k)) as Hplus.
  { clear n Hk acc. intros j s acc.
    assert (∀ i s acc, take_digits (i + S j) s acc = '(a, s') ← take_digits i s acc; take_digits (S j) s' a) as Hsplit.
    { clear. induction i as [|i IH]; intros s acc; [done|]. cbn [take_digits Nat.add].
      destruct s as [|c s]; [done|]. case_match; [|done]. apply IH. }
    by rewrite Hsplit, take_digits_digits. }
  replace n with (k + S (n - k - 1))%nat by lia. rewrite Hplus. cbn [take_digits]. by rewrite Hc.
Qed.

Lemma read_fraction_text k dt :
  k ∈ [0%nat; 3%nat; 6%nat] →
  read_fraction (fraction k dt +:+ "+00:00") = Some (dt mod 1000000 - dt mod 10 ^ (6 - Z.of_nat k), "+00:00").
Proof.
  pose proof (Z.mod_pos_bound dt 1000000 ltac:(lia)) as Hus. unfold read_fraction.
  rewrite !elem_of_cons. intros [->|[->|[->|[]%elem_of_nil]]].
  - change (6 - Z.of_nat 0) with 6. change (10 ^ 6) with 1000000. rewrite Z.sub_diag. reflexivity.
  - cbn [fraction]. rewrite string_app_assoc, (expect_lit _ ".") by done.
    change (6 - Z.of_nat 3) with 3. change (10 ^ 3) with 1000.
    rewrite (take_digits_short 6 3) by (done || lia).
    rewrite take_digits_value; [|change (10 ^ Z.of_nat 3) with 1000; Z.to_euclidean_division_equations; lia].
    cbn [mbind option_bind]. do 2 f_equal. Z.to_euclidean_division_equations; lia.
  - cbn [fraction]. rewrite string_app_assoc, (expect_lit _ ".") by done.
    change (6 - Z.of_nat 6) with 0. change (10 ^ 0) with 1. rewrite Z.div_1_r.
    rewrite take_digits_value by (change (10 ^ Z.of_nat 6) with 1000000; lia).
    do 2 f_equal. rewrite Z.mod_1_r. lia.
Qed.

Ltac read_digits := rewrite take_digits_value by
  (change (10 ^ Z.of_nat 4) with 10000 || change (10 ^ Z.of_nat 2) with 100; lia); cbn [mbind option_bind].
Ltac read_char := rewrite expect_lit by reflexivity; cbn [mbind option_bind].

Lemma iso_parse_laws : @IsoParserLaws iso_parse.
Proof.
  split; [|done]. intros k dt Hk Hyear. unfold fromisoformat, iso_text, iso_seconds, four_digit_year in *.
  pose proof (time_of_day dt) as (Hh & Hm & Hs & Hdt). cbv zeta in *.
  destruct (civil_from_days (dt / day_us)) as [[y m] d] eqn:Ec. simpl in Hyear.
  destruct (civil_inverse _ _ _ _ Ec) as (Hinv & Hmo & Hd).
  set (s := dt mod day_us / 1000000) in *. clearbody s.
  unfold iso_parse. rewrite !string_app_assoc.
  read_digits. read_char. read_digits. read_char. read_digits. read_char.
  read_digits. read_char. read_digits. read_char. read_digits.
  rewrite read_fraction_text by done. cbn [mbind option_bind]. rewrite read_offset_utc. cbn [mbind option_bind].
  rewrite Hinv, Ec. rewrite bool_decide_true by done.
  replace (1 <=? y) with true by (symmetry; apply Z.leb_le; lia).
  rewrite !(proj2 (Z.ltb_lt _ _)) by lia. cbn [andb]. unfold truncate. do 2 f_equal. lia.
Qed.

(** ** Writing then replacing the offset *)

(** [s.replace(old, new)] *)
Definition py_replace (old new s : string) : string := py_join new (py_split old s).

Fixpoint no_char (c : Ascii.ascii) (s : string) : bool :=
  match s with EmptyString => true | String x s' => negb (Ascii.eqb c x) && no_char c s' end.

Lemma no_char_app c s t : no_char c (s +:+ t) = no_char c s && no_char c t.
Proof.
  induction s as [|x s IH]; [done|].
  change (negb (Ascii.eqb c x) && no_char c (s +:+ t) = negb (Ascii.eqb c x) && no_char c s && no_char c t).
  by rewrite IH, andb_assoc.
Qed.

Lemma app_empty_r s : s +:+ "" = s.
Proof. induction s as [|x s IH]; [done|]. change (String x (s +:+ "") = String x s). by rewrite IH. Qed.

Lemma split_loop_skip sep s acc : split_loop sep s (String.length s) acc = [acc].
Proof. induction s as [|c s IH]; [done|]. apply IH. Qed.

Lemma prefix_refl s : String.prefix s s = true.
Proof. induction s as [|c s IH]; [done|]. simpl. by case_match. Qed.

Lemma split_loop_once c sep s acc :
  no_char c s = true →
  split_loop (String c sep) (s +:+ String c sep) 0 acc = [acc +:+ s; ""].
Proof.
  revert acc. induction s as [|x s IH]; intros acc Hn.
  - change (split_loop (String c sep) (String c sep) 0 acc = [acc +:+ ""; ""]).
    cbn [split_loop]. rewrite prefix_refl. rewrite app_empty_r.
    replace (String.length (String c sep) - 1)%nat with (String.length sep) by (simpl; lia).
    by rewrite split_loop_skip.
  - apply andb_true_iff in Hn as [Hc Hn]. apply negb_true_iff, Ascii.eqb_neq in Hc.
    change (split_loop (String c sep) (String x (s +:+ String c sep)) 0 acc = [acc +:+ String x s; ""]).
    cbn [split_loop]. replace (String.prefix (String c sep) (String x (s +:+ String c sep))) with false.
    + rewrite IH by done. by rewrite string_app_assoc.
    + symmetry. simpl. by destruct (Ascii.ascii_dec c x).
Qed.

Lemma replace_suffix c sep new s :
  no_char c s = true → py_replace (String c sep) new (s +:+ String c sep) = s +:+ new.
Proof.
  intros Hn. unfold py_replace, py_split, py_join. rewrite split_loop_once by done.
  change (s +:+ new +:+ "" = s +:+ new). by rewrite app_empty_r.
Qed.

Lemma no_char_digits c n k :
  (48 <=? byte_of c) && (byte_of c <=? 57) = false → no_char c (digits n k) = true.
Proof.
  intros Hc. revert k. induction n as [|n IH]; intros k; [done|]. cbn [digits]. rewrite no_char_app, IH.
  simpl. rewrite andb_true_r. apply negb_true_iff, Ascii.eqb_neq. intros ->.
  pose proof (Z.mod_pos_bound k 10 ltac:(lia)). rewrite byte_of_digit in Hc by done. bool_lia.
Qed.

(** The texts hold only digits and the separators. *)
Lemma no_char_iso c k dt :
  (48 <=? byte_of c) && (byte_of c <=? 57) = false → no_char c "-T:." = true →
  no_char c (iso_seconds dt +:+ fraction k dt) = true.
Proof.
  intros Hc Hsep. simpl in Hsep. repeat (apply andb_true_iff in Hsep as [? Hsep]).
  unfold iso_seconds. destruct (civil_from_days _) as [[y m] d].
  assert (no_char c (fraction k dt) = true) as Hf.
  { unfold fraction. destruct k; [done|]. rewrite no_char_app, no_char_digits by done. simpl. by rewrite H2. }
  rewrite !no_char_app, !no_char_digits, Hf by done. simpl. by rewrite H, H0, H1.
Qed.

Definition plus : Ascii.ascii := Ascii.ascii_of_nat 43.
Definition zed : Ascii.ascii := Ascii.ascii_of_nat 90.

(** [isoformat().replace("+00:00", "Z")], and back *)
Lemma replace_utc k dt : py_replace "+00:00" "Z" (iso_text k dt) = iso_seconds dt +:+ fraction k dt +:+ "Z".
Proof.
  unfold iso_text. rewrite <-!string_app_assoc. apply (replace_suffix plus "00:00").
  by apply no_char_iso.
Qed.

Lemma replace_zed k dt : py_replace "Z" "+00:00" (iso_seconds dt +:+ fraction k dt +:+ "Z") = iso_text k dt.
Proof.
  unfold iso_text. rewrite <-!string_app_assoc. apply (replace_suffix zed "").
  by apply no_char_iso.
Qed.

Lemma str_Z_four y : 1000 <= y <= 9999 → str_Z y = digits 4 y.
Proof.
  intros Hy. unfold str_Z. rewrite Z.abs_eq by lia. replace (y <? 0) with false by (symmetry; apply Z.ltb_ge; lia).
  pose proof (Z.log2_up_le_mono 1001 (y + 1) ltac:(lia)) as Hl. change (Z.log2_up 1001) with 10 in Hl.
  replace (digit_count _ y) with 4%nat; [done|].
  destruct (Z.to_nat (Z.log2_up (y + 1)) + 1)%nat as [|[|[|[|f]]]] eqn:Ef; try lia.
  cbn [digit_count].
  replace (y <? 10) with false by (symmetry; apply Z.ltb_ge; lia).
  replace (y / 10 <? 10) with false by (symmetry; apply Z.ltb_ge; Z.to_euclidean_division_equations; lia).
  replace (y / 10 / 10 <? 10) with false by (symmetry; apply Z.ltb_ge; Z.to_euclidean_division_equations; lia).
  replace (y / 10 / 10 / 10 <? 10) with true by (symmetry; apply Z.ltb_lt; Z.to_euclidean_division_equations; lia).
  done.
Qed.

Lemma strftime_ms_text dt :
  four_digit_year dt → strftime_ms dt = iso_seconds dt +:+ fraction 3 dt +:+ "Z".
Proof.
  unfold four_digit_year, strftime_ms, iso_seconds. destruct (civil_from_days _) as [[y m] d]. simpl fst.
  intros Hy. rewrite str_Z_four by done. by rewrite !string_app_assoc.
Qed.

Lemma strftime_ms_truncate dt : strftime_ms (truncate 3 dt) = strftime_ms dt.
Proof.
  unfold truncate. change (10 ^ (6 - Z.of_nat 3)) with 1000. unfold strftime_ms, day_us.
  assert ((dt - dt mod 1000) / 86400000000 = dt / 86400000000) as ->
    by (Z.to_euclidean_division_equations; lia).
  assert ((dt - dt mod 1000) mod 86400000000 / 1000000 = dt mod 86400000000 / 1000000) as ->
    by (Z.to_euclidean_division_equations; lia).
  assert ((dt - dt mod 1000) mod 1000000 / 1000 = dt mod 1000000 / 1000) as ->
    by (Z.to_euclidean_division_equations; lia).
  done.
Qed.

Lemma iso_length k dt : iso_seconds dt +:+ fraction k dt +:+ "Z" ≠ "".
Proof.
  intros E. apply (f_equal String.length) in E. unfold iso_seconds in E.
  destruct (civil_from_days _) as [[y m] d]. rewrite !string_app_assoc, !string_length_app in E. simpl in E. lia.
Qed.

Lemma truncate_isoformat dt :
  let k := if dt mod 1000000 =? 0 then 0%nat else 6%nat in truncate k dt = dt ∧ k ∈ [0%nat; 3%nat; 6%nat].
Proof.
  cbv zeta. destruct (dt mod 1000000 =? 0) eqn:E; unfold truncate.
  - apply Z.eqb_eq in E. change (10 ^ (6 - Z.of_nat 0)) with 1000000. split; [lia|by left].
  - change (10 ^ (6 - Z.of_nat 6)) with 1. rewrite Z.mod_1_r. split; [lia|by right; right; left].
Qed.

Section laws.
Context `{IsoParserLaws}.

(** What the services write is read back. *)
Lemma read_strftime_ms dt :
  four_digit_year dt →
  fromisoformat (py_replace "Z" "+00:00" (strftime_ms dt)) = Some (truncate 3 dt, Some 0).
Proof.
  intros Hy. rewrite strftime_ms_text, replace_zed by done. apply reads_isoformat; [by right; left|done].
Qed.

Lemma read_isoformat dt :
  four_digit_year dt →
  fromisoformat (py_replace "Z" "+00:00" (py_replace "+00:00" "Z" (isoformat_utc dt))) = Some (dt, Some 0).
Proof.
  intros Hy. unfold isoformat_utc. rewrite replace_utc, replace_zed.
  destruct (truncate_isoformat dt) as [Ht Hk]. rewrite reads_isoformat by done. by rewrite Ht.
Qed.
End laws.

(** ** Instants *)

Definition OSError : pyexn := NamedError "OSError".

(** [datetime.fromtimestamp(x, tz=timezone.utc)]: microseconds to the nearest,
    ties to even; the year must lie within 1-9999. *)
Definition fromtimestamp (x : float) : result datetime :=
  match x with
  | S754_nan => Exn ValueError
  | S754_infinity _ => Exn OverflowError
  | _ =>
      match modf x with
      | None => Exn ValueError
      | Some (ip, fp) =>
          let us := ip * 1000000 + round_with 0 (fmul fp (Z2f 1000000)) in
          let secs := us / 1000000 in
          if (secs <? - 2 ^ 63) || (2 ^ 63 <=? secs) then Exn OverflowError
          else
            let y := (civil_from_days (us / day_us)).1.1 in
            if (y <? - 2 ^ 31) || (2 ^ 31 <=? y) then Exn OSError
            else if (1 <=? y) && (y <=? 9999) then Ok us else Exn ValueError
      end
  end.

Example fromtimestamp_ex : fromtimestamp (lit 17104176001235 4) = Ok 1710417600123500.
Proof. vm_compute. reflexivity. Qed.
Example fromtimestamp_far : fromtimestamp f0 = Ok 0 ∧ fromtimestamp (Z2f 253402300800) = Exn ValueError.
Proof. vm_compute. auto. Qed.
