(* ===== verification/EventDocs.v ===== *)
(** * Event documents of the alert service

    [alert/src/mdx/utils/elastic_ready.py]: alerts and incidents are rewritten
    in the form Logstash gave them before they are stored in Elasticsearch, and a
    keyed hash of a few of their fields is the id of the document.

    An event is what [json.loads] returned, so its parts are not shared and the
    functions that change it in place return the new event. [sha1] is that of
    [hashlib]; texts are their UTF-8 bytes. *)

From Stdlib Require Import ZArith Lia Floats.SpecFloat.
From stdpp Require Import base sets list strings.
From S2P Require Import Prelude PyDict PyFloat PyNumber PyText PyVal Sha1 PyIso.
Open Scope string_scope.
Open Scope list_scope.
Open Scope Z_scope.

Abbreviation event := (dict string pyval).

(** [d.get(key)] *)
Definition get (d : event) (key : string) : pyval := default VNone (dget d key).

(** ** [hmac.new(key, msg, hashlib.sha1).hexdigest()] *)

Definition sha1_bytes (data : list Z) : list Z :=
  let m := pad data in
  let h := blocks (length m / 64) hash_init m in
  be_bytes 4 (ha h) ++ be_bytes 4 (hb h) ++ be_bytes 4 (hc h) ++ be_bytes 4 (hd h) ++ be_bytes 4 (he h).

Definition hmac_sha1 (key msg : string) : string :=
  let k0 := bytes_of key in
  let k := if (64 <? length k0)%nat then sha1_bytes k0 else k0 in
  let block := k ++ replicate (64 - length k) 0 in
  hex_of (sha1_bytes ((Z.lxor 92 <$> block) ++ sha1_bytes ((Z.lxor 54 <$> block) ++ bytes_of msg))).

Example hmac_ex :
  hmac_sha1 "key" "The quick brown fox jumps over the lazy dog" = "de7c9b85b8b78aa6bc8a7a36f70a90701c9db4d9".
Proof. vm_compute. reflexivity. Qed.

Definition HMAC_KEY : string := "HMAC".

Section docs.
Context `{FT : FloatText} `{IP : IsoParser}.

(** ** Timestamps *)

(** [int(nano / 1_000_000)] *)
Definition millis_of_nanos (nano : Z) : result Z := q ← true_div nano 1000000; py_int (VFloat q).

(** [except (TypeError, ValueError): return None] *)
Definition int_or_none (v : pyval) : result (option Z) :=
  match py_int v with
  | Ok z => Ok (Some z)
  | Exn TypeError | Exn ValueError => Ok None
  | Exn e => Exn e
  end.

Definition extract_epoch_millis (d : event) : result (option Z) :=
  let seconds := get d "seconds" in
  let nanos := get d "nanos" in
  match seconds, nanos with
  | VNone, VNone => Ok None
  | _, _ =>
      sec ← int_or_none (vor seconds (VInt 0));
      match sec with
      | None => Ok None
      | Some sec =>
          nano ← int_or_none (vor nanos (VInt 0));
          match nano with
          | None => Ok None
          | Some nano => ms ← millis_of_nanos nano; Ok (Some (sec * 1000 + ms))
          end
      end
  end.

(** The instant of [milliseconds / 1000], and of [epoch_ms / 1000.0]. *)
Definition instant_of_millis (ms : Z) : result datetime := x ← true_div ms 1000; fromtimestamp x.
Definition instant_of_float_millis (ms : Z) : result datetime :=
  x ← float_of_int ms; fromtimestamp (fdiv x (Z2f 1000)).

Definition coerce_epoch_field (e : event) (field : string) : result event :=
  match get e field with
  | VDict d =>
      ms ← extract_epoch_millis d;
      match ms with
      | None => Ok e
      | Some ms => dt ← instant_of_millis ms; Ok (dset e field (VStr (py_replace "+00:00" "Z" (isoformat_utc dt))))
      end
  | _ => Ok e
  end.
Fixpoint coerce_epoch_fields (e : event) (fields : list string) : result event :=
  match fields with
  | [] => Ok e
  | f :: fields' => e' ← coerce_epoch_field e f; coerce_epoch_fields e' fields'
  end.

(** [None] leaves the field alone; a text that cannot be read is kept. *)
Definition normalize_ts_to_millis (ts : pyval) : result (option string) :=
  match ts with
  | VDict d =>
      ms ← extract_epoch_millis d;
      match ms with
      | None => Ok None
      | Some ms => dt ← instant_of_float_millis ms; Ok (Some (strftime_ms dt))
      end
  | VStr s =>
      match fromisoformat (py_replace "Z" "+00:00" s) with
      | Some (wall, _) => Ok (Some (strftime_ms wall))
      | None => Ok (Some s)
      end
  | _ => Ok None
  end.

Definition normalize_timestamp_field (e : event) (field : string) : result event :=
  n ← normalize_ts_to_millis (get e field);
  Ok (match n with Some s => dset e field (VStr s) | None => e end).
Fixpoint normalize_timestamp_fields_to_millis (e : event) (fields : list string) : result event :=
  match fields with
  | [] => Ok e
  | f :: fields' => e' ← normalize_timestamp_field e f; normalize_timestamp_fields_to_millis e' fields'
  end.

(** ** Other fields *)

Definition strip_embeddings (e : event) : event :=
  let e := ddel e "embeddings" in
  match get e "object" with
  | VDict obj =>
      match get obj "bbox3d" with
      | VDict bbox => dset e "object" (VDict (dset obj "bbox3d" (VDict (ddel bbox "embeddings"))))
      | _ => e
      end
  | _ => e
  end.

(** [entry["point"]] of a wrapped point, any other entry itself *)
Definition unwrap_point (entry : pyval) : pyval :=
  match entry with VDict d => default entry (dget d "point") | _ => entry end.

Definition flatten_coordinate_collection (c : event) : event :=
  match py_iter (get c "coordinates") with
  | Exn _ => c
  | Ok entries =>
      let c := dset c "coordinates" (VList (unwrap_point <$> entries)) in
      match get c "type" with
      | VStr t => if String.eqb (py_lower t) "linestring" then dset c "type" (VStr "LineString") else c
      | _ => c
      end
  end.

Definition normalize_location_field (e : event) (field : string) : event :=
  match get e field with
  | VDict c => dset e field (VDict (flatten_coordinate_collection c))
  | _ => e
  end.
Definition normalize_location_fields (e : event) : event :=
  normalize_location_field (normalize_location_field e "locations") "smoothLocations".

Definition ARTIFACTS : list string := ["kafka"; "message"; "@timestamp"; "@version"].
Definition remove_logstash_artifacts (e : event) : event := foldl ddel e ARTIFACTS.

Definition TIME_FIELDS : list string := ["timestamp"; "end"].

Definition normalize_alert_event (e : event) : result event :=
  e ← coerce_epoch_fields e TIME_FIELDS;
  e ← normalize_timestamp_fields_to_millis e TIME_FIELDS;
  Ok (remove_logstash_artifacts (normalize_location_fields (strip_embeddings e))).

Definition normalize_incident_event (e : event) : result event :=
  e ← coerce_epoch_fields e TIME_FIELDS;
  e ← normalize_timestamp_fields_to_millis e TIME_FIELDS;
  Ok (remove_logstash_artifacts (strip_embeddings e)).

(** ** Fingerprints *)

Fixpoint nested_get (container : pyval) (path : list string) : pyval :=
  match path with
  | [] => container
  | key :: path' =>
      match container with
      | VDict d => match get d key with VNone => VNone | v => nested_get v path' end
      | _ => VNone
      end
  end.

(** [str(_normalize_ts_to_millis(value))] *)
Definition timestamp_text (v : pyval) : result string :=
  n ← normalize_ts_to_millis v;
  Ok (match n with Some s => s | None => py_str VNone end).

Definition field_map : dict string (list string) := [
  ("[analyticsModule][id]", ["analyticsModule"; "id"]); ("[object][id]", ["object"; "id"]);
  ("[place][name]", ["place"; "name"]); ("[sensor][id]", ["sensor"; "id"]); ("timestamp", ["timestamp"]) ].

Definition alert_segment (e : event) (name : string) : result (option string) :=
  match nested_get (VDict e) (default [] (dget field_map name)) with
  | VNone => Ok None
  | v =>
      t ← (if String.eqb name "timestamp" then timestamp_text v else Ok (py_str v));
      Ok (Some ("|" +:+ name +:+ "|" +:+ t))
  end.

Fixpoint all_segments (f : string → result (option string)) (names : list string) : result (list string) :=
  match names with
  | [] => Ok []
  | n :: names' => s ← f n; rest ← all_segments f names'; Ok (match s with Some s => s :: rest | None => rest end)
  end.

Definition digest_of (segments : list string) : option string :=
  match segments with
  | [] => None
  | _ => Some (hmac_sha1 HMAC_KEY (py_join "" segments +:+ "|"))
  end.

Definition generate_alert_fingerprint (e : event) : result (option string) :=
  segments ← all_segments (alert_segment e) (sort_strings (dkeys field_map));
  Ok (digest_of segments).

(** [value is not None and value != ""] *)
Definition given (v : pyval) : bool :=
  match v with VNone => false | VStr s => negb (String.eqb s "") | _ => true end.

Definition incident_pair (e : event) (key : string) : result (option (string * string)) :=
  let v := get e key in
  if given v
  then t ← (if String.eqb key "timestamp" then timestamp_text v else Ok (py_str v)); Ok (Some (key, t))
  else Ok None.

Fixpoint all_pairs (e : event) (keys : list string) : result (list (string * string)) :=
  match keys with
  | [] => Ok []
  | k :: keys' => p ← incident_pair e k; rest ← all_pairs e keys'; Ok (match p with Some p => p :: rest | None => rest end)
  end.

Definition primary_pair (e : event) : list (string * string) :=
  match get e "info" with
  | VDict info =>
      let v := get info "primaryObjectId" in
      if given v then [("[info][primaryObjectId]", py_str v)] else []
  | _ => []
  end.

Definition generate_incident_fingerprint (e : event) : result (option string) :=
  pairs ← all_pairs e ["category"; "sensorId"; "timestamp"];
  let kv_pairs := primary_pair e ++ pairs in
  Ok (digest_of ((λ kv, "|" +:+ kv.1 +:+ "|" +:+ kv.2) <$> sort_by (λ p q, String.leb p.1 q.1) kv_pairs)).

(** ** One field

    What the two passes make of the value of one time field. *)

Definition coerced (v : pyval) : result pyval :=
  match v with
  | VDict d =>
      ms ← extract_epoch_millis d;
      match ms with
      | None => Ok v
      | Some ms => dt ← instant_of_millis ms; Ok (VStr (py_replace "+00:00" "Z" (isoformat_utc dt)))
      end
  | _ => Ok v
  end.
Definition normalized (v : pyval) : result pyval :=
  n ← normalize_ts_to_millis v; Ok (match n with Some s => VStr s | None => v end).

(** The years the C library prints with four digits, and the epochs a [float]
    holds exactly. *)
Definition time_ok (v : pyval) : Prop :=
  match v with
  | VDict d => ∀ ms, extract_epoch_millis d = Ok (Some ms) →
      Z.abs ms < 2 ^ 53 ∧ ∀ dt, instant_of_millis ms = Ok dt → four_digit_year dt
  | VStr s => ∀ wall off, fromisoformat (py_replace "Z" "+00:00" s) = Some (wall, off) → four_digit_year wall
  | _ => True
  end.

(** A value that both passes leave alone. *)
Definition settled (v : pyval) : Prop := coerced v = Ok v ∧ normalized v = Ok v.

(** Both ways to divide give the same instant. *)
Lemma instants_agree ms : Z.abs ms < 2 ^ 53 → instant_of_float_millis ms = instant_of_millis ms.
Proof.
  intros Hms. unfold instant_of_float_millis, instant_of_millis, true_div.
  rewrite float_of_int_exact by done.
  change (fromtimestamp (fdiv (Z2f ms) (Z2f 1000)) =
    x ← (if isfinite (div_ints ms 1000) then Ok (div_ints ms 1000) else Exn OverflowError); fromtimestamp x).
  rewrite fdiv_ints by done. destruct (isfinite _) eqn:Hf; [done|].
  pose proof (div_ints_not_nan ms 1000). by destruct (div_ints ms 1000).
Qed.

Lemma get_dset e f g v : get (dset e f v) g = if decide (f = g) then v else get e g.
Proof. unfold get. rewrite dget_dset. by case_decide. Qed.
Lemma get_ddel e f g : get (ddel e f) g = if decide (f = g) then VNone else get e g.
Proof. unfold get. rewrite dget_ddel. by case_decide. Qed.
Lemma get_present e f v : get e f = v → v ≠ VNone → dget e f = Some v.
Proof. unfold get. destruct (dget e f); simpl; congruence. Qed.

(** The passes change only their field. *)
Lemma coerce_field_get e f e' :
  coerce_epoch_field e f = Ok e' →
  coerced (get e f) = Ok (get e' f) ∧ ∀ g, g ≠ f → get e' g = get e g.
Proof.
  unfold coerce_epoch_field, coerced. destruct (get e f) eqn:Ev; [intros [= <-]; by rewrite Ev..|].
  intros ([ms|] & -> & H)%result_bind_Ok; cbn [mbind result_bind].
  - apply result_bind_Ok in H as (dt & -> & [= <-]). cbn [mbind result_bind].
    setoid_rewrite get_dset. split; [by rewrite decide_True|]. intros. by rewrite decide_False.
  - injection H as <-. by rewrite Ev.
Qed.
Lemma normalize_field_get e f e' :
  normalize_timestamp_field e f = Ok e' →
  normalized (get e f) = Ok (get e' f) ∧ ∀ g, g ≠ f → get e' g = get e g.
Proof.
  unfold normalize_timestamp_field, normalized.
  intros ([s|] & -> & [= <-])%result_bind_Ok; cbn [mbind result_bind]; [|done].
  setoid_rewrite get_dset. split; [by rewrite decide_True|]. intros. by rewrite decide_False.
Qed.

(** A settled field is not touched. *)
Lemma coerce_field_settled e f : settled (get e f) → coerce_epoch_field e f = Ok e.
Proof.
  unfold coerce_epoch_field, settled, coerced. intros [H _]. destruct (get e f) as [| | | | | |d]; try done.
  destruct (extract_epoch_millis d) as [[ms|]|]; cbn [mbind result_bind] in *; [|done..].
  by destruct (instant_of_millis ms).
Qed.
Lemma normalize_field_settled e f : settled (get e f) → normalize_timestamp_field e f = Ok e.
Proof.
  unfold normalize_timestamp_field, settled, normalized. intros [_ H].
  destruct (normalize_ts_to_millis (get e f)) as [[s|]|]; cbn [mbind result_bind] in *; try done.
  injection H as H. f_equal. by apply dset_id, get_present.
Qed.

(** ** The passes settle a field and keep its text *)

Section times.
Context `{IL : !IsoParserLaws}.

Lemma normalize_strftime dt :
  four_digit_year dt → normalize_ts_to_millis (VStr (strftime_ms dt)) = Ok (Some (strftime_ms dt)).
Proof. intros Hy. cbn [normalize_ts_to_millis]. by rewrite read_strftime_ms, strftime_ms_truncate. Qed.

Lemma strftime_nonempty dt : strftime_ms dt ≠ "".
Proof.
  intros E. apply (f_equal String.length) in E. unfold strftime_ms in E.
  destruct (civil_from_days _) as [[y m] d]. rewrite !string_length_app in E. simpl in E. lia.
Qed.

Lemma settled_text s : normalize_ts_to_millis (VStr s) = Ok (Some s) → settled (VStr s).
Proof. intros H. split; [done|]. unfold normalized. by rewrite H. Qed.

(** What [_normalize_ts_to_millis] makes of a value is kept by both passes. *)
Lemma settle v v1 v2 :
  time_ok v → coerced v = Ok v1 → normalized v1 = Ok v2 →
  settled v2 ∧ normalize_ts_to_millis v2 = normalize_ts_to_millis v ∧ given v2 = given v ∧
  (v2 = VNone ↔ v = VNone).
Proof.
  intros Hok. destruct v as [| | | |s| |d]; try (intros [= <-] [= <-]; by split_and!).
  - intros [= <-]. unfold normalized. cbn [normalize_ts_to_millis time_ok] in *.
    destruct (fromisoformat _) as [[wall off]|] eqn:Er; cbn [mbind result_bind]; intros [= <-].
    + rewrite normalize_strftime by eauto.
      split_and!; [apply settled_text, normalize_strftime; eauto|done| |done].
      cbn [given]. destruct (String.eqb_spec (strftime_ms wall) ""); [by destruct (strftime_nonempty wall)|].
      destruct (String.eqb_spec s ""); [|done]. subst s.
      change (py_replace "Z" "+00:00" "") with "" in Er. by rewrite refuses_empty in Er.
    + split_and!; [apply settled_text|..]; cbn [normalize_ts_to_millis]; by rewrite ?Er.
  - unfold coerced. cbn [time_ok] in Hok. cbn [normalize_ts_to_millis].
    destruct (extract_epoch_millis d) as [[ms|]|] eqn:Ex; cbn [mbind result_bind]; [..|done].
    + destruct (Hok ms eq_refl) as [Hms Hy]. rewrite instants_agree by done.
      destruct (instant_of_millis ms) as [dt|] eqn:Ei; cbn [mbind result_bind]; [|done].
      intros [= <-]. unfold normalized. cbn [normalize_ts_to_millis]. rewrite read_isoformat by auto.
      cbn [mbind result_bind]. intros [= <-].
      rewrite normalize_strftime by auto.
      split_and!; [apply settled_text, normalize_strftime; auto|done| |done].
      cbn [given]. by destruct (String.eqb_spec (strftime_ms dt) ""); [destruct (strftime_nonempty dt)|].
    + intros [= <-]. unfold normalized. cbn [normalize_ts_to_millis]. rewrite Ex. cbn [mbind result_bind].
      intros [= <-]. unfold settled, coerced, normalized. cbn [normalize_ts_to_millis]. rewrite Ex. by split_and!.
Qed.

(** ** The whole passes *)

Lemma time_passes e e1 e2 :
  coerce_epoch_fields e TIME_FIELDS = Ok e1 → normalize_timestamp_fields_to_millis e1 TIME_FIELDS = Ok e2 →
  (∀ f, f ∈ TIME_FIELDS → ∃ v1, coerced (get e f) = Ok v1 ∧ normalized v1 = Ok (get e2 f)) ∧
  (∀ g, g ∉ TIME_FIELDS → get e2 g = get e g).
Proof.
  unfold TIME_FIELDS. cbn [coerce_epoch_fields normalize_timestamp_fields_to_millis].
  intros (ea & [Ca Oa]%coerce_field_get & (eb & [Cb Ob]%coerce_field_get & [= <-])%result_bind_Ok)%result_bind_Ok.
  intros (ec & [Na Pa]%normalize_field_get & (ed & [Nb Pb]%normalize_field_get & [= <-])%result_bind_Ok)%result_bind_Ok.
  rewrite Oa in Cb by done. rewrite Pa in Nb by done.
  split.
  - intros f [->|[->|[]%elem_of_nil]%elem_of_cons]%elem_of_cons.
    + exists (get ea "timestamp"). split; [done|]. rewrite Pb, <-Ob by done. done.
    + by exists (get eb "end").
  - intros g [Ht [He _]%not_elem_of_cons]%not_elem_of_cons. by rewrite Pb, Pa, Ob, Oa.
Qed.

Lemma time_passes_settled e :
  (∀ f, f ∈ TIME_FIELDS → settled (get e f)) →
  coerce_epoch_fields e TIME_FIELDS = Ok e ∧ normalize_timestamp_fields_to_millis e TIME_FIELDS = Ok e.
Proof.
  intros Hs. pose proof (Hs "timestamp" ltac:(by left)) as H1. pose proof (Hs "end" ltac:(by right; left)) as H2.
  unfold TIME_FIELDS. cbn [coerce_epoch_fields normalize_timestamp_fields_to_millis].
  rewrite !coerce_field_settled by done. cbn [mbind result_bind]. rewrite !coerce_field_settled by done.
  cbn [mbind result_bind]. rewrite !normalize_field_settled by done. cbn [mbind result_bind].
  by rewrite !normalize_field_settled.
Qed.

(** ** The cleanups, field by field *)

Definition stripped_object (v : pyval) : pyval :=
  match v with
  | VDict obj =>
      match get obj "bbox3d" with
      | VDict bbox => VDict (dset obj "bbox3d" (VDict (ddel bbox "embeddings")))
      | _ => v
      end
  | _ => v
  end.
Definition flattened (v : pyval) : pyval :=
  match v with VDict c => VDict (flatten_coordinate_collection c) | _ => v end.
Definition LOCATIONS : list string := ["locations"; "smoothLocations"].

(** The value of a field without its embeddings, flattened, or dropped. *)
Definition cleaned (alert : bool) (g : string) (v : pyval) : pyval :=
  if decide (g ∈ "embeddings" :: ARTIFACTS) then VNone
  else if decide (g = "object") then stripped_object v
  else if decide (alert = true ∧ g ∈ LOCATIONS) then flattened v
  else v.

Lemma get_artifacts e g : get (remove_logstash_artifacts e) g = if decide (g ∈ ARTIFACTS) then VNone else get e g.
Proof.
  unfold remove_logstash_artifacts. generalize ARTIFACTS. intros fs. revert e. induction fs as [|f fs IH]; intros e.
  - by rewrite decide_False by apply not_elem_of_nil.
  - cbn [foldl]. rewrite IH, get_ddel. destruct (decide (f = g)) as [<-|Hf].
    + rewrite (decide_True (P := f ∈ f :: fs)) by (by left). by case_decide.
    + destruct (decide (g ∈ fs)) as [Hg|Hg].
      * by rewrite decide_True by (by right).
      * rewrite decide_False; [done|]. by intros [->|?]%elem_of_cons.
Qed.

Lemma get_strip e g :
  get (strip_embeddings e) g =
    if decide (g = "embeddings") then VNone
    else if decide (g = "object") then stripped_object (get e g) else get e g.
Proof.
  unfold strip_embeddings, stripped_object.
  assert (∀ h, get (ddel e "embeddings") h = if decide (h = "embeddings") then VNone else get e h) as Hd.
  { intros h. rewrite get_ddel. destruct (decide (h = "embeddings")) as [->|]; [by rewrite decide_True|by rewrite decide_False]. }
  rewrite (Hd "object"), decide_False by done.
  destruct (decide (g = "object")) as [->|Hg].
  - rewrite (decide_False (P := "object" = "embeddings")) by done. destruct (get e "object") as [| | | | | |obj] eqn:Eo;
      try (by rewrite Hd, decide_False).
    destruct (get obj "bbox3d"); [by rewrite Hd, decide_False..|]. by rewrite get_dset, decide_True.
  - destruct (get e "object") as [| | | | | |obj]; [by rewrite Hd..|].
    destruct (get obj "bbox3d"); [by rewrite Hd..|]. rewrite get_dset, decide_False by done. by rewrite Hd.
Qed.

Lemma get_location_field e f g :
  get (normalize_location_field e f) g = if decide (g = f) then flattened (get e f) else get e g.
Proof.
  unfold normalize_location_field, flattened. destruct (get e f) as [| | | | | |c] eqn:Ef.
  1-6: by case_decide; [subst g|].
  rewrite get_dset. destruct (decide (g = f)) as [->|]; [by rewrite decide_True|by rewrite decide_False].
Qed.
Lemma get_locations e g :
  get (normalize_location_fields e) g = if decide (g ∈ LOCATIONS) then flattened (get e g) else get e g.
Proof.
  unfold normalize_location_fields. rewrite !get_location_field.
  destruct (decide (g = "smoothLocations")) as [->|H1]; [done|].
  destruct (decide (g = "locations")) as [->|H2]; [done|].
  rewrite decide_False; [done|]. unfold LOCATIONS. by rewrite !elem_of_cons, elem_of_nil; intuition.
Qed.

(** ** Both kinds of event, as [_prepare_event_document] picks *)

Definition normalize_event (alert : bool) : event → result event :=
  if alert then normalize_alert_event else normalize_incident_event.
Definition event_fingerprint (alert : bool) : event → result (option string) :=
  if alert then generate_alert_fingerprint else generate_incident_fingerprint.

Lemma cleaned_time alert f v : f ∈ TIME_FIELDS → cleaned alert f v = v.
Proof.
  intros [->|[->|[]%elem_of_nil]%elem_of_cons]%elem_of_cons; by destruct alert.
Qed.

Lemma normalize_event_fields alert e e' :
  normalize_event alert e = Ok e' →
  (∀ f, f ∈ TIME_FIELDS → ∃ v1, coerced (get e f) = Ok v1 ∧ normalized v1 = Ok (get e' f)) ∧
  (∀ g, g ∉ TIME_FIELDS → get e' g = cleaned alert g (get e g)).
Proof.
  assert (∀ e1 e2 e3, coerce_epoch_fields e TIME_FIELDS = Ok e1 →
    normalize_timestamp_fields_to_millis e1 TIME_FIELDS = Ok e2 →
    (∀ g, get e3 g = cleaned alert g (get e2 g)) →
    (∀ f, f ∈ TIME_FIELDS → ∃ v1, coerced (get e f) = Ok v1 ∧ normalized v1 = Ok (get e3 f)) ∧
    (∀ g, g ∉ TIME_FIELDS → get e3 g = cleaned alert g (get e g))) as Hpass.
  { intros e1 e2 e3 H1 H2 Hg. destruct (time_passes e e1 e2 H1 H2) as [Ht Ho]. split.
    - intros f Hf. destruct (Ht f Hf) as (v1 & Hc & Hn). exists v1. by rewrite Hg, cleaned_time.
    - intros g Hg'. by rewrite Hg, Ho. }
  destruct alert; intros (e1 & H1 & (e2 & H2 & [= <-])%result_bind_Ok)%result_bind_Ok; apply (Hpass e1 e2); try done;
    intros g; rewrite get_artifacts, ?get_locations, !get_strip; unfold cleaned.
  all: destruct (decide (g ∈ ARTIFACTS)) as [Ha|Ha]; [by rewrite decide_True by (by right)|].
  all: destruct (decide (g = "embeddings")) as [->|He]; [done|].
  all: rewrite (decide_False (P := g ∈ "embeddings" :: ARTIFACTS)) by (by intros [?|?]%elem_of_cons).
  all: destruct (decide (g = "object")) as [->|Hob]; [done|].
  - destruct (decide (g ∈ LOCATIONS)) as [Hl|Hl]; [by rewrite decide_True|]. rewrite decide_False; [done|]. by intros [_ ?].
  - rewrite decide_False; [done|]. by intros [? _].
Qed.

(** ** Fingerprints of normalized events *)

Lemma timestamp_kept alert e e' :
  time_ok (get e "timestamp") → normalize_event alert e = Ok e' →
  timestamp_text (get e' "timestamp") = timestamp_text (get e "timestamp") ∧
  given (get e' "timestamp") = given (get e "timestamp") ∧
  (get e' "timestamp" = VNone ↔ get e "timestamp" = VNone).
Proof.
  intros Hok [Ht _]%normalize_event_fields. destruct (Ht "timestamp") as (v1 & Hc & Hn); [by left|].
  destruct (settle _ _ _ Hok Hc Hn) as (_ & Htext & Hg & Hnone). unfold timestamp_text. by rewrite Htext.
Qed.

Lemma all_segments_ext f g names :
  (∀ n, n ∈ names → f n = g n) → all_segments f names = all_segments g names.
Proof.
  induction names as [|n names IH]; intros Hfg; [done|]. cbn [all_segments].
  rewrite (Hfg n) by (by left). rewrite IH; [done|]. intros m Hm. apply Hfg. by right.
Qed.

Lemma field_cleaned alert e e' g :
  normalize_event alert e = Ok e' → bool_decide (g ∈ TIME_FIELDS) = false → get e' g = cleaned alert g (get e g).
Proof. intros Hn Hg. apply (normalize_event_fields _ _ _ Hn). by apply bool_decide_eq_false in Hg. Qed.

Lemma alert_segment_path e n path :
  dget field_map n = Some path → n ≠ "timestamp" →
  alert_segment e n =
    match nested_get (VDict e) path with VNone => Ok None | v => Ok (Some ("|" +:+ n +:+ "|" +:+ py_str v)) end.
Proof.
  intros Hp Hn. unfold alert_segment. rewrite Hp. cbn [default]. apply String.eqb_neq in Hn. rewrite Hn.
  by destruct (nested_get _ _).
Qed.

Lemma alert_segments_kept e e' n :
  time_ok (get e "timestamp") → normalize_event true e = Ok e' →
  n ∈ sort_strings (dkeys field_map) → alert_segment e' n = alert_segment e n.
Proof.
  intros Hok Hn Hin.
  assert (n ∈ ["[analyticsModule][id]"; "[object][id]"; "[place][name]"; "[sensor][id]"; "timestamp"]) as H by exact Hin.
  destruct (timestamp_kept _ _ _ Hok Hn) as (Htext & _ & Hnone).
  pose proof (field_cleaned _ _ _ "analyticsModule" Hn eq_refl) as H1. pose proof (field_cleaned _ _ _ "object" Hn eq_refl) as H2.
  pose proof (field_cleaned _ _ _ "place" Hn eq_refl) as H3. pose proof (field_cleaned _ _ _ "sensor" Hn eq_refl) as H4.
  repeat (apply elem_of_cons in H as [->|H]); [..|by apply elem_of_nil in H].
  - rewrite !(alert_segment_path _ _ ["analyticsModule"; "id"]) by done. cbn [nested_get]. by rewrite H1.
  - rewrite !(alert_segment_path _ _ ["object"; "id"]) by done. cbn [nested_get]. rewrite H2.
    change (cleaned true "object" (get e "object")) with (stripped_object (get e "object")).
    unfold stripped_object. destruct (get e "object") as [| | | | | |obj]; [done..|].
    destruct (get obj "bbox3d"); [done..|]. by rewrite get_dset, decide_False.
  - rewrite !(alert_segment_path _ _ ["place"; "name"]) by done. cbn [nested_get]. by rewrite H3.
  - rewrite !(alert_segment_path _ _ ["sensor"; "id"]) by done. cbn [nested_get]. by rewrite H4.
  - unfold alert_segment. change (default [] (dget field_map "timestamp")) with ["timestamp"]. cbn [nested_get].
    change ("timestamp" =? "timestamp")%string with true. cbn match.
    destruct (get e' "timestamp") eqn:E1, (get e "timestamp") eqn:E2; try done;
      try (by destruct Hnone as [Ha Hb]; (discriminate (Ha eq_refl) || discriminate (Hb eq_refl)));
      by rewrite Htext.
Qed.

Lemma incident_pairs_kept e e' k :
  time_ok (get e "timestamp") → normalize_event false e = Ok e' →
  k ∈ ["category"; "sensorId"; "timestamp"] → incident_pair e' k = incident_pair e k.
Proof.
  intros Hok Hn H. destruct (timestamp_kept _ _ _ Hok Hn) as (Htext & Hg & _).
  pose proof (field_cleaned _ _ _ "category" Hn eq_refl) as H1. pose proof (field_cleaned _ _ _ "sensorId" Hn eq_refl) as H2.
  unfold incident_pair. repeat (apply elem_of_cons in H as [->|H]); [..|by apply elem_of_nil in H].
  - by rewrite H1.
  - by rewrite H2.
  - change ("timestamp" =? "timestamp")%string with true. cbn match. by rewrite Hg, Htext.
Qed.

Lemma all_pairs_ext e e' keys :
  (∀ k, k ∈ keys → incident_pair e' k = incident_pair e k) → all_pairs e' keys = all_pairs e keys.
Proof.
  induction keys as [|k keys IH]; intros Hk; [done|]. cbn [all_pairs].
  rewrite Hk by (by left). rewrite IH; [done|]. intros m Hm. apply Hk. by right.
Qed.

(** Rewriting the event, its timestamp included, does not change the fingerprint,
    for alerts and for incidents. *)
Lemma fingerprint_kept alert e e' :
  time_ok (get e "timestamp") → normalize_event alert e = Ok e' →
  event_fingerprint alert e' = event_fingerprint alert e.
Proof.
  intros Hok Hn. destruct alert; cbn [event_fingerprint].
  - unfold generate_alert_fingerprint. erewrite all_segments_ext; [done|].
    intros n Hin. by apply alert_segments_kept.
  - unfold generate_incident_fingerprint, primary_pair.
    rewrite (field_cleaned _ _ _ "info" Hn eq_refl).
    rewrite (all_pairs_ext e e'); [done|]. intros k Hk. by apply incident_pairs_kept.
Qed.

(** ** The form of a stored event *)

Definition flat (c : event) : Prop :=
  match py_iter (get c "coordinates") with
  | Ok _ => (∃ l, get c "coordinates" = VList l) ∧
            ∀ t, get c "type" = VStr t → py_lower t = "linestring" → t = "LineString"
  | Exn _ => True
  end.

Record event_ok (alert : bool) (e : event) : Prop := {
  ok_dropped f : f ∈ "embeddings" :: ARTIFACTS → dget e f = None;
  ok_bbox obj bbox : get e "object" = VDict obj → get obj "bbox3d" = VDict bbox → dget bbox "embeddings" = None;
  ok_times f : f ∈ TIME_FIELDS → settled (get e f);
  ok_locations f c : alert = true → f ∈ LOCATIONS → get e f = VDict c → flat c;
}.

Lemma dget_artifacts e f : f ∈ ARTIFACTS ∨ dget e f = None → dget (remove_logstash_artifacts e) f = None.
Proof.
  unfold remove_logstash_artifacts. generalize ARTIFACTS. intros fs. revert e.
  induction fs as [|a fs IH]; intros e [H|H]; cbn [foldl]; [by apply elem_of_nil in H|done|..].
  - apply IH. apply elem_of_cons in H as [->|]; [right; apply dget_ddel_eq|by left].
  - apply IH. right. rewrite dget_ddel. by case_decide.
Qed.
Lemma dget_strip e : dget (strip_embeddings e) "embeddings" = None.
Proof.
  unfold strip_embeddings. destruct (get _ "object") as [| | | | | |obj]; [apply dget_ddel_eq..|].
  destruct (get obj "bbox3d"); [apply dget_ddel_eq..|]. rewrite dget_dset_ne by done. apply dget_ddel_eq.
Qed.
Lemma dget_location_field e f g : f ≠ g → dget (normalize_location_field e f) g = dget e g.
Proof. intros. unfold normalize_location_field. destruct (get e f); [done..|]. by apply dget_dset_ne. Qed.

Lemma flatten_flat c : flat (flatten_coordinate_collection c).
Proof.
  unfold flatten_coordinate_collection. destruct (py_iter (get c "coordinates")) as [entries|x] eqn:Ei;
    [|unfold flat; by rewrite Ei].
  set (c1 := dset c "coordinates" _).
  assert (get c1 "coordinates" = VList (unwrap_point <$> entries)) as Hc by (unfold c1; by rewrite get_dset, decide_True).
  assert (∀ t, get c1 "type" = VStr t → py_lower t ≠ "linestring" → flat c1) as Hkeep.
  { intros t Ht Hl. unfold flat. rewrite Hc. cbn [py_iter]. split; [eauto|]. intros t'. rewrite Ht. by intros [= ->]. }
  destruct (get c1 "type") as [| | | |t| |] eqn:Et;
    try (unfold flat; rewrite Hc, Et; cbn [py_iter]; split; [eauto|done]).
  destruct (String.eqb_spec (py_lower t) "linestring") as [Hl|Hl]; [|eauto].
  unfold flat. rewrite !get_dset, decide_False, Hc by done. rewrite decide_True by done. cbn [py_iter].
  split; [eauto|]. by intros t' [= <-].
Qed.

(** Normalization establishes the form it leaves alone. *)
Lemma normalized_event_ok alert e e' :
  (∀ f, f ∈ TIME_FIELDS → time_ok (get e f)) → normalize_event alert e = Ok e' → event_ok alert e'.
Proof.
  intros Hok Hn. destruct (normalize_event_fields _ _ _ Hn) as [Ht Ho]. split.
  - intros f Hf. assert (f = "embeddings" ∨ f ∈ ARTIFACTS) as Hf' by by apply elem_of_cons.
    destruct alert; apply result_bind_Ok in Hn as (e1 & _ & (e2 & _ & [= <-])%result_bind_Ok);
      apply dget_artifacts; (destruct Hf' as [->|]; [right|by left]); [|apply dget_strip].
    unfold normalize_location_fields. rewrite !dget_location_field by done. apply dget_strip.
  - intros obj bbox. rewrite (field_cleaned _ _ _ "object" Hn eq_refl).
    change (cleaned alert "object" (get e "object")) with (stripped_object (get e "object")). unfold stripped_object.
    destruct (get e "object") as [| | | | | |o]; [done..|].
    destruct (get o "bbox3d") eqn:Eb; intros [= <-]; rewrite ?Eb; try done.
    rewrite get_dset, decide_True by done. intros [= <-]. apply dget_ddel_eq.
  - intros f Hf. destruct (Ht f Hf) as (v1 & Hc & Hv). apply (settle (get e f) v1 (get e' f)); auto.
  - intros f c -> Hf. assert (get e' f = flattened (get e f)) as ->.
    { apply elem_of_cons in Hf as [->|Hf]; [by rewrite (field_cleaned _ _ _ "locations" Hn eq_refl)|].
      apply list_elem_of_singleton in Hf as ->. by rewrite (field_cleaned _ _ _ "smoothLocations" Hn eq_refl). }
    unfold flattened. destruct (get e f); intros [= <-]. apply flatten_flat.
Qed.

(** ** What the document of an event says

    A specification by its fields, from the values of the event alone. *)

(** [{"seconds": s, "nanos": n}] states an instant in milliseconds: both read
    by [int], one that is missing or falsy as zero, but not both [None]. *)
Definition states_epoch (d : event) (ms : Z) : Prop :=
  ¬ (get d "seconds" = VNone ∧ get d "nanos" = VNone) ∧
  ∃ s n q k, py_int (vor (get d "seconds") (VInt 0)) = Ok s ∧
    py_int (vor (get d "nanos") (VInt 0)) = Ok n ∧
    true_div n 1000000 = Ok q ∧ py_int (VFloat q) = Ok k ∧ ms = s * 1000 + k.

(** The ISO text of a wall time, to the millisecond and with the suffix of UTC. *)
Definition zulu (dt : datetime) : string := iso_seconds dt +:+ fraction 3 dt +:+ "Z".

Definition read_time (s : string) : option datetime := fst <$> fromisoformat (py_replace "Z" "+00:00" s).

Inductive time_form : pyval → pyval → Prop :=
  | time_epoch d ms x dt :
      states_epoch d ms → true_div ms 1000 = Ok x → fromtimestamp x = Ok dt →
      time_form (VDict d) (VStr (zulu dt))
  | time_text s wall : read_time s = Some wall → time_form (VStr s) (VStr (zulu wall))
  | time_other v : (∀ d, v = VDict d → ¬ ∃ ms, states_epoch d ms) →
      (∀ s, v = VStr s → read_time s = None) → time_form v v.

(** Epochs a [float] holds exactly and years of four digits. *)
Definition time_plain (v : pyval) : Prop :=
  (∀ d ms, v = VDict d → states_epoch d ms → Z.abs ms < 2 ^ 53 ∧
     ∀ x dt, true_div ms 1000 = Ok x → fromtimestamp x = Ok dt → four_digit_year dt) ∧
  (∀ s wall, v = VStr s → read_time s = Some wall → four_digit_year wall).

(** [d'] is [d] but for the field [f]. *)
Definition same_but (f : string) (d d' : event) : Prop := ∀ g, g ≠ f → dget d' g = dget d g.

Inductive object_form : pyval → pyval → Prop :=
  | object_boxed obj bbox obj' bbox' :
      dget obj "bbox3d" = Some (VDict bbox) → dget obj' "bbox3d" = Some (VDict bbox') →
      dget bbox' "embeddings" = None → same_but "embeddings" bbox bbox' → same_but "bbox3d" obj obj' →
      object_form (VDict obj) (VDict obj')
  | object_other v : (∀ obj bbox, v = VDict obj → dget obj "bbox3d" ≠ Some (VDict bbox)) → object_form v v.

(** A wrapped point [{"point": p}] stands for [p], any other entry for itself. *)
Inductive point_of : pyval → pyval → Prop :=
  | point_wrapped d p : dget d "point" = Some p → point_of (VDict d) p
  | point_plain v : (∀ d, v = VDict d → dget d "point" = None) → point_of v v.

Definition is_linestring (v : option pyval) : Prop := ∃ t, v = Some (VStr t) ∧ py_lower t = "linestring".

Inductive location_form : pyval → pyval → Prop :=
  | location_flat c entries c' points :
      py_iter (get c "coordinates") = Ok entries →
      dget c' "coordinates" = Some (VList points) → Forall2 point_of entries points →
      (is_linestring (dget c "type") → dget c' "type" = Some (VStr "LineString")) →
      (¬ is_linestring (dget c "type") → dget c' "type" = dget c "type") →
      (∀ g, g ∉ ["coordinates"; "type"] → dget c' g = dget c g) →
      location_form (VDict c) (VDict c')
  | location_other v : (∀ c entries, v = VDict c → py_iter (get c "coordinates") ≠ Ok entries) →
      location_form v v.

Record document_of (alert : bool) (e e' : event) : Prop := mk_document_of {
  doc_dropped f : f ∈ ["embeddings"; "kafka"; "message"; "@timestamp"; "@version"] → dget e' f = None;
  doc_times f : f ∈ ["timestamp"; "end"] → time_form (get e f) (get e' f);
  doc_object : object_form (get e "object") (get e' "object");
  doc_locations f : f ∈ ["locations"; "smoothLocations"] →
    if alert then location_form (get e f) (get e' f) else dget e' f = dget e f;
  doc_others f : f ∉ ["embeddings"; "kafka"; "message"; "@timestamp"; "@version"; "timestamp"; "end";
                      "object"; "locations"; "smoothLocations"] → dget e' f = dget e f;
}.

Lemma int_or_none_Ok v o :
  int_or_none v = Ok o → match o with Some z => py_int v = Ok z | None => ∀ z, py_int v ≠ Ok z end.
Proof. unfold int_or_none. destruct (py_int v) as [z|[]]; try done; by intros [= <-]. Qed.

Lemma extract_states d o :
  extract_epoch_millis d = Ok o →
  match o with Some ms => states_epoch d ms | None => ¬ ∃ ms, states_epoch d ms end.
Proof.
  intros H. assert (get d "seconds" = VNone ∧ get d "nanos" = VNone ∨
    ¬ (get d "seconds" = VNone ∧ get d "nanos" = VNone)) as [[Es En]|Hne].
  { destruct (get d "seconds"), (get d "nanos"); (by left) || (by right; intros []). }
  { unfold extract_epoch_millis in H. rewrite Es, En in H. injection H as <-. by intros (ms & [] & _). }
  assert (extract_epoch_millis d =
    (sec ← int_or_none (vor (get d "seconds") (VInt 0));
     match sec with
     | None => Ok None
     | Some sec =>
         nano ← int_or_none (vor (get d "nanos") (VInt 0));
         match nano with
         | None => Ok None
         | Some nano => ms ← millis_of_nanos nano; Ok (Some (sec * 1000 + ms))
         end
     end)) as E.
  { unfold extract_epoch_millis. destruct (get d "seconds"), (get d "nanos"); try done. by destruct Hne. }
  rewrite E in H. apply result_bind_Ok in H as (sec & Hs%int_or_none_Ok & H).
  destruct sec as [sec|]; [|injection H as <-; intros (ms & _ & s & n & q & k & Hs' & _); by eapply Hs].
  apply result_bind_Ok in H as (nano & Hn%int_or_none_Ok & H).
  destruct nano as [nano|]; [|injection H as <-; intros (ms & _ & s & n & q & k & _ & Hn' & _); by eapply Hn].
  apply result_bind_Ok in H as (k & (q & Hq & Hk)%result_bind_Ok & [= <-]).
  split; [done|]. by exists sec, nano, q, k.
Qed.

Lemma time_plain_ok v : time_plain v → time_ok v.
Proof.
  intros [Hd Hs]. destruct v as [| | | |s| |d]; try done; cbn [time_ok].
  - intros wall off H. eapply Hs; [done|]. unfold read_time. by rewrite H.
  - intros ms H%extract_states. destruct (Hd d ms eq_refl H) as [Hms Hy]. split; [done|].
    intros dt (x & Hx & Hdt)%result_bind_Ok. by eapply Hy.
Qed.

Lemma strftime_zulu dt : four_digit_year dt → strftime_ms dt = zulu dt.
Proof. apply strftime_ms_text. Qed.
Lemma zulu_truncate dt : four_digit_year dt → strftime_ms (truncate 3 dt) = zulu dt.
Proof. intros. by rewrite strftime_ms_truncate, strftime_zulu. Qed.

(** Both passes together. *)
Lemma passes_time_form v v1 v2 :
  time_plain v → coerced v = Ok v1 → normalized v1 = Ok v2 → time_form v v2.
Proof.
  intros Hp. pose proof (time_plain_ok v Hp) as Hok. destruct Hp as [Hd Hs].
  destruct v as [| | | |s| |d]; try (intros [= <-] [= <-]; by apply time_other).
  - intros [= <-]. unfold normalized. cbn [normalize_ts_to_millis].
    destruct (fromisoformat _) as [[wall off]|] eqn:Er; cbn [mbind result_bind]; intros [= <-].
    + assert (read_time s = Some wall) as Hr by (unfold read_time; by rewrite Er).
      rewrite strftime_zulu by eauto. by apply time_text.
    + apply time_other; [done|]. intros s' [= <-]. unfold read_time. by rewrite Er.
  - unfold coerced. destruct (extract_epoch_millis d) as [[ms|]|] eqn:Ex; cbn [mbind result_bind]; [..|done].
    + pose proof (extract_states _ _ Ex) as Hst. destruct (Hd d ms eq_refl Hst) as [Hms Hy].
      destruct (instant_of_millis ms) as [dt|] eqn:Ei; cbn [mbind result_bind]; [|done].
      apply result_bind_Ok in Ei as (x & Hx & Hdt). specialize (Hy x dt Hx Hdt).
      intros [= <-]. unfold normalized. cbn [normalize_ts_to_millis]. rewrite read_isoformat by auto.
      cbn [mbind result_bind]. intros [= <-]. rewrite strftime_zulu by done. exact (time_epoch d ms x dt Hst Hx Hdt).
    + pose proof (extract_states _ _ Ex) as Hst. intros [= <-]. unfold normalized.
      cbn [normalize_ts_to_millis]. rewrite Ex. cbn [mbind result_bind]. intros [= <-].
      apply time_other; [|done]. by intros d' [= <-].
Qed.

Lemma stripped_object_form v : object_form v (stripped_object v).
Proof.
  destruct v as [| | | | | |obj]; try by apply object_other. cbn [stripped_object].
  destruct (get obj "bbox3d") as [| | | | | |bbox] eqn:Eb.
  1-6: apply object_other; intros obj' bbox' [= <-] Ho; unfold get in Eb; by rewrite Ho in Eb.
  eapply object_boxed; [by apply get_present|apply dget_dset_eq|apply dget_ddel_eq|..]; intros g Hg.
  - by apply dget_ddel_ne.
  - by apply dget_dset_ne.
Qed.

Lemma unwrap_point_of entries : Forall2 point_of entries (unwrap_point <$> entries).
Proof.
  induction entries as [|v entries IH]; constructor; [|done].
  destruct v as [| | | | | |d]; try by apply point_plain. cbn [unwrap_point].
  destruct (dget d "point") as [p|] eqn:Ep; [by apply point_wrapped|].
  apply point_plain. by intros d' [= <-].
Qed.

Lemma flattened_form v : location_form v (flattened v).
Proof.
  destruct v as [| | | | | |c]; try by apply location_other. cbn [flattened].
  unfold flatten_coordinate_collection. destruct (py_iter (get c "coordinates")) as [entries|x] eqn:Ei.
  2: { apply location_other. intros c' en [= <-]. by rewrite Ei. }
  set (c1 := dset c "coordinates" _).
  assert (dget c1 "coordinates" = Some (VList (unwrap_point <$> entries))) as Hc by apply dget_dset_eq.
  assert (∀ g, g ≠ "coordinates" → dget c1 g = dget c g) as Ho by (intros; by apply dget_dset_ne).
  assert (get c1 "type" = get c "type") as Ht by (unfold get; by rewrite Ho).
  rewrite Ht. assert (is_linestring (dget c "type") ∨ ¬ is_linestring (dget c "type")) as [Hl|Hl].
  { destruct (dget c "type") as [[| | | |t| |]|]; try (right; by intros (? & ? & _)).
    destruct (decide (py_lower t = "linestring")); [left; by exists t|right].
    by intros (t' & [= <-] & ?). }
  - destruct Hl as (t & Hty & Hlow). unfold get. rewrite Hty. cbn [default from_option id].
    rewrite Hlow, String.eqb_refl.
    eapply location_flat; [done|rewrite dget_dset_ne by done; exact Hc|apply unwrap_point_of|..].
    + intros _. apply dget_dset_eq.
    + intros Hn. destruct Hn. by exists t.
    + intros g Hg. rewrite dget_dset_ne by (intros <-; apply Hg; by right; left). apply Ho. set_solver.
  - assert (match get c "type" with
            | VStr t => if (py_lower t =? "linestring")%string then dset c1 "type" (VStr "LineString") else c1
            | _ => c1 end = c1) as ->.
    { destruct (get c "type") as [| | | |t| |] eqn:Et; try done.
      destruct (String.eqb_spec (py_lower t) "linestring"); [|done].
      destruct Hl. exists t. split; [by apply get_present|done]. }
    eapply location_flat; [done|exact Hc|apply unwrap_point_of|done|intros _; by apply Ho|].
    intros g Hg. apply Ho. set_solver.
Qed.

(** Fields no step is about. *)
Lemma coerce_others fs e e' f : coerce_epoch_fields e fs = Ok e' → f ∉ fs → dget e' f = dget e f.
Proof.
  revert e. induction fs as [|g fs IH]; intros e; cbn [coerce_epoch_fields]; [by intros [= <-]|].
  intros (e1 & H1 & H)%result_bind_Ok [Hg Hf]%not_elem_of_cons. rewrite (IH _ H Hf).
  unfold coerce_epoch_field in H1. destruct (get e g); try by injection H1 as <-.
  apply result_bind_Ok in H1 as ([ms|] & _ & H1); [|by injection H1 as <-].
  apply result_bind_Ok in H1 as (dt & _ & [= <-]). by apply dget_dset_ne.
Qed.
Lemma normalize_ts_others fs e e' f :
  normalize_timestamp_fields_to_millis e fs = Ok e' → f ∉ fs → dget e' f = dget e f.
Proof.
  revert e. induction fs as [|g fs IH]; intros e; cbn [normalize_timestamp_fields_to_millis];
    [by intros [= <-]|].
  intros (e1 & H1 & H)%result_bind_Ok [Hg Hf]%not_elem_of_cons. rewrite (IH _ H Hf).
  apply result_bind_Ok in H1 as ([t|] & _ & [= <-]); [by apply dget_dset_ne|done].
Qed.
Lemma strip_others e f : f ≠ "embeddings" → f ≠ "object" → dget (strip_embeddings e) f = dget e f.
Proof.
  intros H1 H2. unfold strip_embeddings. destruct (get _ "object") as [| | | | | |obj];
    try by apply dget_ddel_ne. destruct (get obj "bbox3d"); try by apply dget_ddel_ne.
  rewrite dget_dset_ne by done. by apply dget_ddel_ne.
Qed.
Lemma artifacts_others e f : f ∉ ARTIFACTS → dget (remove_logstash_artifacts e) f = dget e f.
Proof.
  unfold remove_logstash_artifacts. generalize ARTIFACTS. intros fs. revert e.
  induction fs as [|g fs IH]; intros e; [done|]. intros [Hg Hf]%not_elem_of_cons. cbn [foldl].
  rewrite IH by done. by apply dget_ddel_ne.
Qed.

Lemma normalize_event_others alert e e' f :
  normalize_event alert e = Ok e' → f ∉ TIME_FIELDS → f ∉ "embeddings" :: ARTIFACTS → f ≠ "object" →
  (alert = true → f ∉ LOCATIONS) → dget e' f = dget e f.
Proof.
  intros Hn Ht [He Ha]%not_elem_of_cons Ho Hl.
  destruct alert; apply result_bind_Ok in Hn as (e1 & H1 & (e2 & H2 & [= <-])%result_bind_Ok);
    rewrite artifacts_others by done.
  - unfold normalize_location_fields. specialize (Hl eq_refl).
    rewrite !dget_location_field by (intros <-; apply Hl; unfold LOCATIONS; set_solver).
    rewrite strip_others by done. rewrite (normalize_ts_others _ _ _ _ H2 Ht). by eapply coerce_others.
  - rewrite strip_others by done. rewrite (normalize_ts_others _ _ _ _ H2 Ht). by eapply coerce_others.
Qed.

(** C19. The document an event is normalized to, field by field: the
    embeddings and the Logstash fields are gone; a time stated as an epoch or in
    a readable text is the ISO text of its instant or wall time, to the
    millisecond and with the suffix of UTC, and any other time as it was; the
    object is as it was but for its box's embeddings; the locations of an alert
    have their points unwrapped and the type in the GeoJSON spelling; and every
    other field is as it was. The times are such that a [float] holds them and
    their year has four digits. *)
Theorem normalized_form alert e e' :
  (∀ f, f ∈ ["timestamp"; "end"] → time_plain (get e f)) →
  normalize_event alert e = Ok e' → document_of alert e e'.
Proof.
  intros Hp Hn. destruct (normalize_event_fields _ _ _ Hn) as [Ht Ho].
  pose proof (normalized_event_ok alert e e' (λ f Hf, time_plain_ok _ (Hp f Hf)) Hn) as Hok.
  split.
  - apply (ok_dropped _ _ Hok).
  - intros f Hf. destruct (Ht f Hf) as (v1 & Hc & Hv). eapply passes_time_form; eauto.
  - rewrite (field_cleaned _ _ _ "object" Hn eq_refl). apply stripped_object_form.
  - intros f Hf. destruct alert.
    + assert (get e' f = flattened (get e f)) as ->; [|apply flattened_form].
      repeat (apply elem_of_cons in Hf as [->|Hf]); [..|by apply elem_of_nil in Hf];
        match goal with |- get _ ?g = _ => by rewrite (field_cleaned _ _ _ g Hn eq_refl) end.
    + apply (normalize_event_others false e e' f Hn); [..|done].
      all: repeat (apply elem_of_cons in Hf as [->|Hf]); [..|by apply elem_of_nil in Hf].
      all: try done; unfold TIME_FIELDS, ARTIFACTS; set_solver.
  - intros f Hf. apply (normalize_event_others alert e e' f Hn); unfold TIME_FIELDS, ARTIFACTS, LOCATIONS; set_solver.
Qed.

(** Coordinates whose points are not themselves wrapped. *)
Definition unwrapped (v : pyval) : Prop :=
  match v with VDict c => match get c "coordinates" with VList l => unwrap_point <$> l = l | _ => True end | _ => True end.

Lemma flatten_id c : flat c → unwrapped (VDict c) → flatten_coordinate_collection c = c.
Proof.
  unfold flat, unwrapped, flatten_coordinate_collection. destruct (py_iter _) as [l|] eqn:Ei; [|done].
  intros [[l' Hl] Ht]. rewrite Hl in *. injection Ei as ->. intros Hu. cbn match. rewrite Hu.
  rewrite (dset_id c) by by apply get_present.
  destruct (get c "type") as [| | | |t| |] eqn:Ety; try done.
  destruct (String.eqb_spec (py_lower t) "linestring") as [El|]; [|done].
  rewrite <-(Ht t) by done. by apply dset_id, get_present.
Qed.

Lemma location_field_id e f :
  (∀ c, get e f = VDict c → flat c) → unwrapped (get e f) → normalize_location_field e f = e.
Proof.
  intros Hf Hu. unfold normalize_location_field. destruct (get e f) as [| | | | | |c] eqn:Ec; try done.
  rewrite flatten_id by auto. by apply dset_id, get_present.
Qed.

Lemma strip_id e alert : event_ok alert e → strip_embeddings e = e.
Proof.
  intros [Hd Hb _ _]. unfold strip_embeddings. rewrite ddel_absent by (apply Hd; by left).
  destruct (get e "object") as [| | | | | |obj] eqn:Eo; try done.
  destruct (get obj "bbox3d") as [| | | | | |bbox] eqn:Eb; try done.
  rewrite (ddel_absent bbox) by eauto. rewrite (dset_id obj) by by apply get_present.
  by apply dset_id, get_present.
Qed.

Lemma artifacts_id e alert : event_ok alert e → remove_logstash_artifacts e = e.
Proof.
  intros [Hd _ _ _]. assert (∀ f, f ∈ ARTIFACTS → dget e f = None) as H by (intros f ?; apply Hd; by right).
  unfold remove_logstash_artifacts. revert H. generalize ARTIFACTS. intros fs H.
  induction fs as [|f fs IH]; [done|]. cbn [foldl]. rewrite ddel_absent by (apply H; by left).
  apply IH. intros g Hg. apply H. by right.
Qed.

(** Normalization changes nothing in an event that has the stored form. *)
Theorem normalize_stored_form alert e :
  event_ok alert e → (alert = true → ∀ f, f ∈ LOCATIONS → unwrapped (get e f)) → normalize_event alert e = Ok e.
Proof.
  intros Hok Hu. destruct (time_passes_settled e (ok_times _ _ Hok)) as [H1 H2].
  destruct alert; cbn [normalize_event]; unfold normalize_alert_event, normalize_incident_event;
    rewrite H1; cbn [mbind result_bind]; rewrite H2; cbn [mbind result_bind]; f_equal;
    rewrite (strip_id _ _ Hok); [|by eapply artifacts_id].
  unfold normalize_location_fields.
  assert (∀ f, f ∈ LOCATIONS → normalize_location_field e f = e) as Hl.
  { intros f Hf. apply location_field_id; [|by apply Hu]. intros c. by apply (ok_locations _ _ Hok). }
  rewrite !Hl by (by left || (by right; left)). by eapply artifacts_id.
Qed.
End times.

Lemma time_ok_epoch d ms dt :
  extract_epoch_millis d = Ok (Some ms) → Z.abs ms < 2 ^ 53 → instant_of_millis ms = Ok dt → four_digit_year dt →
  time_ok (VDict d).
Proof. intros Hd Hms Hi Hy ms'. rewrite Hd. intros [= <-]. split; [done|]. intros dt'. rewrite Hi. by intros [= <-]. Qed.
End docs.

(** ** Concrete events *)

Definition epoch_event : event := [
  ("timestamp", VDict [("seconds", VStr "1710417600"); ("nanos", VInt 123456789)]);
  ("end", VStr "2024-03-14T12:00:05.750Z"); ("category", VStr "collision"); ("sensorId", VStr "HWY_20");
  ("info", VDict [("primaryObjectId", VStr "obj_123")]); ("embeddings", VList [VInt 1]);
  ("object", VDict [("id", VStr "7"); ("bbox3d", VDict [("embeddings", VList []); ("confidence", VInt 1)])]);
  ("sensor", VDict [("id", VStr "HWY_20")]);
  ("locations", VDict [("type", VStr "linestring");
     ("coordinates", VList [VDict [("point", VList [VInt 1; VInt 2])]; VList [VInt 3; VInt 4]])]);
  ("@timestamp", VStr "2024-03-14T12:00:09Z") ].

Definition stored_event : event := [
  ("timestamp", VStr "2024-03-14T12:00:00.123Z"); ("end", VStr "2024-03-14T12:00:05.750Z");
  ("category", VStr "collision"); ("sensorId", VStr "HWY_20");
  ("info", VDict [("primaryObjectId", VStr "obj_123")]);
  ("object", VDict [("id", VStr "7"); ("bbox3d", VDict [("confidence", VInt 1)])]);
  ("sensor", VDict [("id", VStr "HWY_20")]);
  ("locations", VDict [("type", VStr "LineString");
     ("coordinates", VList [VList [VInt 1; VInt 2]; VList [VInt 3; VInt 4]])]) ].

Section concrete.
#[local] Existing Instance bits_text.
#[local] Instance iso_parser : IsoParser := iso_parse.
#[local] Instance iso_parser_laws : IsoParserLaws := iso_parse_laws.

Example normalized_ex : normalize_event true epoch_event = Ok stored_event.
Proof. vm_compute. reflexivity. Qed.

Lemma epoch_time_plain f : f ∈ ["timestamp"; "end"] → time_plain (get epoch_event f).
Proof.
  intros [->|Hf]%elem_of_cons; [|apply list_elem_of_singleton in Hf as ->]; (split; [|by intros]) || (split; [by intros|]).
  - intros d ms [= <-] (_ & s & n & q & k & Hs & Hn & Hq & Hk & ->).
    vm_compute in Hs, Hn. injection Hs as <-. injection Hn as <-.
    vm_compute in Hq. injection Hq as <-. vm_compute in Hk. injection Hk as <-.
    split; [lia|]. intros x dt Hx Hdt. vm_compute in Hx. injection Hx as <-.
    vm_compute in Hdt. injection Hdt as <-. unfold four_digit_year. vm_compute. split; discriminate.
  - intros t wall [= <-] Hr. vm_compute in Hr. injection Hr as <-.
    unfold four_digit_year. vm_compute. split; discriminate.
Qed.

Lemma normalized_form_witness : document_of true epoch_event stored_event.
Proof. apply (normalized_form true epoch_event stored_event epoch_time_plain normalized_ex). Defined.

Lemma stored_form : event_ok true stored_event.
Proof.
  split.
  - intros f Hf. by repeat (apply elem_of_cons in Hf as [->|Hf]); [..|apply elem_of_nil in Hf].
  - by intros obj bbox [= <-] [= <-].
  - intros f [->|Hf]%elem_of_cons; [|apply list_elem_of_singleton in Hf as ->];
      (split; [done|vm_compute; reflexivity]).
  - intros f c _ [->|Hf]%elem_of_cons; [|by apply list_elem_of_singleton in Hf as ->].
    intros [= <-]. split; [eauto|]. by intros t [= <-].
Qed.
Lemma normalize_stored_form_witness : normalize_event true stored_event = Ok stored_event.
Proof.
  apply (normalize_stored_form true stored_event); [exact stored_form|].
  intros _ f [->|Hf]%elem_of_cons; [done|by apply list_elem_of_singleton in Hf as ->].
Defined.

(** The document states the fingerprint of both. *)
Example fingerprint_ex :
  event_fingerprint false epoch_event = Ok (Some (hmac_sha1 HMAC_KEY
    "|[info][primaryObjectId]|obj_123|category|collision|sensorId|HWY_20|timestamp|2024-03-14T12:00:00.123Z|")).
Proof. vm_compute. reflexivity. Qed.

(** A local time is stored with the suffix of UTC, unconverted: two instants
    five and a half hours apart get one text, and one fingerprint. *)
Example offset_dropped :
  normalize_ts_to_millis (VStr "2024-03-14T12:00:00+05:30") = normalize_ts_to_millis (VStr "2024-03-14T12:00:00Z").
Proof. vm_compute. reflexivity. Qed.
End concrete.
