(* ===== verification/EventSink.v ===== *)
(** * The Elasticsearch sink of the alert service

    [alert/src/mdx/sink/vlm_enhanced_sink/sink_base.py] and [sink_elastic.py]:
    publishing a verified event, marking its verdict, adding its enrichment;
    the event documents of [alert/src/clients/elastic.py]
    ([_prepare_event_document], [write_event_response]) and the helpers of
    [alert/src/utils/event_utils.py].

    The sink is put together from parts modelled elsewhere: the client of
    [Persistence], the live configuration store of [AlertConfig], the verdict
    marks of [Dedup] and the documents of [EventDocs]. [copy.deepcopy] needs
    no counterpart, since a document is a value here. *)

From Stdlib Require Import ZArith Lia Floats.SpecFloat.
From stdpp Require Import base list strings gmap.
From S2P Require Import Prelude PyDict PyFloat PyText PyVal PyIso TtlCache Dedup Persistence AlertConfig EventDocs.
Open Scope string_scope.
Open Scope list_scope.
Open Scope Z_scope.

(** ** [event_utils.py] *)

Definition is_alert (message : event) : bool :=
  match get message "notification_type" with VStr s => String.eqb s "alert" | _ => false end.
Definition get_notification_type (message : event) : string := if is_alert message then "alert" else "incident".

(** [x if isinstance(x, dict) else None], falsy for an empty dict too *)
Definition part (message : event) (key : string) : option event :=
  match get message key with VDict ((_ :: _) as d) => Some d | _ => None end.
Definition part_id (d : option event) : pyval := match d with Some d => get d "id" | None => VNone end.

(** Add a helper field that is missing and has a value. *)
Definition add_field (acc : event * list string) (key : string) (id v : pyval) : event * list string :=
  if truthy id && negb (dmem acc.1 key) then (dset acc.1 key v, acc.2 ++ [key]) else acc.

Definition hashable (v : pyval) : bool := match v with VList _ | VDict _ => false | _ => true end.

Section helpers.
(** [list({*existing, *added})]: the distinct elements in some order *)
Context (list_of_set : list pyval → list pyval).

Definition track_added (updated : event) (added : list string) : result event :=
  match added with
  | [] => Ok updated
  | _ =>
      existing ← py_iter (vor (get updated "_normalized_added_fields") (VList []));
      if forallb hashable existing
      then Ok (dset updated "_normalized_added_fields" (VList (list_of_set (existing ++ (VStr <$> added)))))
      else Exn TypeError
  end.

Definition normalize_alert_message (message : event) : result event :=
  let sensor := part message "sensor" in
  let am := part message "analyticsModule" in
  let obj := part message "object" in
  match sensor, am, obj with
  | None, None, None => Ok message
  | _, _, _ =>
      let sensor_id := part_id sensor in
      let category := part_id am in
      let object_id := part_id obj in
      if negb (truthy sensor_id) && negb (truthy category) && negb (truthy object_id) then Ok message
      else
        let acc := add_field (message, []) "sensorId" sensor_id sensor_id in
        let acc := add_field acc "category" category category in
        let '(updated, added) := add_field acc "objectIds" object_id (VList [object_id]) in
        let updated :=
          if dmem updated "notification_type" then updated else dset updated "notification_type" (VStr "alert") in
        track_added updated added
  end.
End helpers.

(** [doc.pop(fld, None)] *)
Definition pop_field (doc : event) (fld : pyval) : result event :=
  match fld with
  | VStr s => Ok (ddel doc s)
  | _ => if hashable fld then Ok doc else Exn TypeError
  end.
Fixpoint pop_fields (doc : event) (flds : list pyval) : result event :=
  match flds with
  | [] => Ok doc
  | fld :: flds' => doc' ← pop_field doc fld; pop_fields doc' flds'
  end.

Definition strip_normalization_fields (message : event) : result event :=
  flds ← py_iter (vor (default (VList []) (dget message "_normalized_added_fields")) (VList []));
  doc ← pop_fields message flds;
  Ok (ddel doc "_normalized_added_fields").

(** ** Event documents of [ElasticClient] *)

(** [dt.strftime('%Y-%m-%d')] *)
Definition strftime_date (dt : datetime) : string :=
  let '(y, m, d) := civil_from_days (dt / day_us) in
  str_Z y +:+ "-" +:+ digits 2 m +:+ "-" +:+ digits 2 d.

(** [key in m] and [m[key]] for any value: unhashable keys raise. *)
Definition lookup_key {V} (m : dict string V) (key : pyval) : result (option V) :=
  match key with
  | VStr s => Ok (dget m s)
  | _ => if hashable key then Ok None else Exn TypeError
  end.

(** [document.get("info", {}).get(key)] *)
Definition info_get (document : event) (key : string) : result pyval :=
  vget (default (VDict []) (dget document "info")) key.
(** [(document.get("info", {}).get("verdict") or "").lower()] *)
Definition verdict_of (document : event) : result string :=
  v ← info_get document "verdict"; s ← as_str (vor v (VStr "")); Ok (py_lower s).

(** [document.setdefault("analyticsModule", {})["description"] = text] *)
Definition describe (document : event) (text : pyval) : result event :=
  let document := if dmem document "analyticsModule" then document
                  else dset document "analyticsModule" (VDict []) in
  match get document "analyticsModule" with
  | VDict am => Ok (dset document "analyticsModule" (VDict (dset am "description" text)))
  | _ => Exn TypeError
  end.

Definition override_description (mapping : dict string (dict string pyval)) (document : event) : result event :=
  match mapping, dget document "category" with
  | [], _ | _, None => Ok document
  | _, Some original_category =>
      desc ← lookup_key mapping original_category;
      match desc with
      | None => Ok document
      | Some desc_mapping =>
          verdict ← verdict_of document;
          match dget desc_mapping verdict with
          | None => Ok document
          | Some text => describe document text
          end
      end
  end.

Definition override_category (mapping : dict string pyval) (document : event) : result event :=
  match mapping, dget document "category" with
  | [], _ | _, None => Ok document
  | _, Some original_category =>
      c ← lookup_key mapping original_category;
      Ok (match c with Some c => dset document "category" c | None => document end)
  end.

Section documents.
Context `{FT : FloatText} `{IP : IsoParser}.

(** The day of the text, today's where it cannot be read. *)
Definition generate_daily_index_name (now : datetime) (base_name timestamp_iso : string) : string :=
  let text := if ends_with timestamp_iso "Z" then py_replace "Z" "+00:00" timestamp_iso else timestamp_iso in
  base_name +:+ "-" +:+ strftime_date (match fromisoformat text with Some (wall, _) => wall | None => now end).

(** [document.get("timestamp", "")], as a text *)
Definition timestamp_value (document : event) : string := py_str (default (VStr "") (dget document "timestamp")).

Definition document_is_alert (message : event) : bool :=
  String.eqb (py_lower (py_str (default (VStr "") (dget message "notification_type")))) "alert".

Definition prepare_event_document (now : datetime) (message : event) (index : string)
    (category_mapping : dict string pyval) (verdict_description_mapping : dict string (dict string pyval))
    : result (string * option string * event) :=
  let alert := document_is_alert message in
  document ← normalize_event alert message;
  doc_id ← event_fingerprint alert document;
  let document := match doc_id with Some id => dset document "Id" (VStr id) | None => document end in
  document ← override_description verdict_description_mapping document;
  document ← override_category category_mapping document;
  Ok (generate_daily_index_name now index (timestamp_value document), doc_id, document).
End documents.

(** ** The sink *)

(** [client.index], which replaces the document of the id, and
    [datetime.now(timezone.utc)]. *)
Class EsIndexing (W : Type) := {
  srv_index : string → option string → event → W → reply unit * W;
  now_utc : W → datetime;
}.

Section sink.
Context `{FT : FloatText} `{IP : IsoParser}.
Context {W : Type} `{ES : EsServer W} `{EI : EsIndexing W}.
Context {S : Type} `{CS : ConfigStore S}.
Context {Cl V : Type} `{EL : Elastic Cl V}.
(** The settings of the verdict handler, and the clock readings of a mark. *)
Context (dedup_config : DedupConfig) (clock_now clock_later clock_time : float) (created_at : string).

Definition write_json (index : string) (json_doc : event) (doc_id : option string) : stM (EsClient W) unit :=
  r ← call (srv_index index doc_id json_doc);
  match r with Answer _ => mret tt | _ => raise_reply r end.

Definition write_event_response (message : event) (index : string) (category_mapping : dict string pyval)
    (verdict_description_mapping : dict string (dict string pyval)) : stM (EsClient W) unit :=
  c ← sget;
  '(daily_index, doc_id, document) ←
    slift (prepare_event_document (now_utc (server c)) message index category_mapping verdict_description_mapping);
  _ ← ensure_json_index daily_index 1 0;
  write_json daily_index document doc_id.

Record Sink := mk_Sink {
  incident_index : string;
  alert_index : string;
  category_mapping : dict string pyval;
  verdict_description_mapping : dict string (dict string pyval);
  has_config_store : bool;
  has_redis_handler : bool;
}.

(** The client, the configurations and the verdict handler. *)
Record SinkState := mk_SinkState {
  elastic : EsClient W;
  alert_config_store : Shared * S;
  redis_handler : @Handler Cl V;
}.
Abbreviation sinkM := (stM SinkState).
Definition on_elastic {A} : stM (EsClient W) A → sinkM A :=
  zoom elastic (λ c s, mk_SinkState c (alert_config_store s) (redis_handler s)).
Definition on_config {A} : stM (Shared * S) A → sinkM A :=
  zoom alert_config_store (λ c s, mk_SinkState (elastic s) c (redis_handler s)).
Definition on_handler {A} : stM (@Handler Cl V) A → sinkM A :=
  zoom redis_handler (λ h s, mk_SinkState (elastic s) (alert_config_store s) h).

Context (sink : Sink).

(** [self._alert_config_store.get(original_category)], [None] where it raises:
    every store raises on what is not a text, since it has no [lower]. *)
Definition stored_config (original_category : pyval) : sinkM (option document) :=
  match original_category with
  | VStr alert_type =>
      if has_config_store sink
      then scatch (on_config (r ← cs_get alert_type true;
                              match r with Some r => d ← load r; mret (Some d) | None => mret None end))
             (λ _, mret None)
      else mret None
  | _ => mret None
  end.

Definition resolve_output_category (original_category : pyval) : sinkM pyval :=
  if negb (truthy original_category) then mret VNone
  else
    config ← stored_config original_category;
    match config ≫= λ d, dget d "output_category" with
    | Some v => mret (vor v VNone)
    | None => c ← slift (lookup_key (category_mapping sink) original_category); mret (default VNone c)
    end.

(** Only texts have a resolved category. *)
Definition build_runtime_category_mapping (document : event) : sinkM (dict string pyval) :=
  let original := get document "category" in
  resolved ← resolve_output_category original;
  mret (match original, resolved with
        | VStr o, VStr r => if String.eqb r "" || String.eqb r o then [] else [(o, VStr r)]
        | VStr o, v => if truthy v then [(o, v)] else []
        | _, _ => []
        end).

Definition index_of (alert : bool) : string := if alert then alert_index sink else incident_index sink.

(** [try: ... except Exception: log]: whether it got through *)
Definition attempt (m : sinkM unit) : sinkM bool := scatch (_ ← m; mret true) (λ _, mret false).

Definition write_event (alert : bool) (document : event) : sinkM unit :=
  mapping ← build_runtime_category_mapping document;
  on_elastic (write_event_response document (index_of alert) mapping (verdict_description_mapping sink)).

(** Mark a confirmed verdict. The [Id] of a message is the text of its
    fingerprint, or missing. *)
Definition mark_confirmed (document : event) : sinkM unit :=
  verdict ← slift (verdict_of document);
  match get document "Id" with
  | VStr fingerprint =>
      if has_redis_handler sink && negb (String.eqb fingerprint "") && String.eqb verdict "confirmed"
      then _ ← on_handler (mark_verdict_confirmed dedup_config clock_now clock_later clock_time created_at fingerprint);
           mret tt
      else mret tt
  | _ => mret tt
  end.

Definition store_success (alert : bool) (document : event) : sinkM unit :=
  written ← attempt (write_event alert document);
  if negb written then mret tt else mark_confirmed document.

(** The prompt is read from the document before it is written. *)
Definition store_error (alert : bool) (document : event) : sinkM unit :=
  _ ← attempt (_ ← slift (info_get document "user_prompt"); write_event alert document);
  mret tt.

(** The kind and the message, which is given its type in place. *)
Definition prepare_publish (message : event) : bool * event :=
  let alert := is_alert message in
  (alert, (dsetdefault message "type" (VStr (if alert then "mdx-vlm-alerts" else "mdx-vlm-incidents"))).2).

Definition publish_success (message : event) : sinkM event :=
  let '(alert, enriched) := prepare_publish message in _ ← store_success alert enriched; mret enriched.
Definition publish_error (message : event) : sinkM event :=
  let '(alert, enriched) := prepare_publish message in _ ← store_error alert enriched; mret enriched.

(** [enrichment] is the text of the response. *)
Definition update_enrichment (document : event) (enrichment : string) : sinkM unit :=
  let base_index := index_of (is_alert document) in
  match get document "Id" with
  | VStr doc_id =>
      if String.eqb doc_id "" then mret tt
      else
        _ ← attempt (on_elastic (
          c ← sget;
          update_document (generate_daily_index_name (now_utc (server c)) base_index (timestamp_value document)) doc_id
            [("info", VDict [("enrichment", VStr enrichment)])] None None));
        mret tt
  | _ => mret tt
  end.
End sink.

(** ** Helper fields come and go *)

Lemma pop_texts doc ss :
  ∃ doc', pop_fields doc (VStr <$> ss) = Ok doc' ∧ ∀ k, dget doc' k = if decide (k ∈ ss) then None else dget doc k.
Proof.
  revert doc. induction ss as [|s ss IH]; intros doc.
  - exists doc. split; [done|]. intros k. rewrite decide_False; [done|]. apply not_elem_of_nil.
  - destruct (IH (ddel doc s)) as (doc' & Hd & Hget). exists doc'. split; [done|]. intros k.
    rewrite Hget, dget_ddel. destruct (decide (k ∈ ss)) as [Hk|Hk]; [by rewrite decide_True by (by right)|].
    destruct (decide (s = k)) as [->|Hsk]; [by rewrite decide_True by (by left)|].
    rewrite decide_False; [done|]. by intros [->|?]%elem_of_cons.
Qed.

Lemma texts_of (flds : list pyval) : (∀ v, v ∈ flds → ∃ s, v = VStr s) → ∃ ss, flds = VStr <$> ss.
Proof.
  induction flds as [|v flds IH]; intros Hs; [by exists []|].
  destruct (Hs v) as [s ->]; [by left|]. destruct IH as [ss ->]; [intros w Hw; apply Hs; by right|].
  by exists (s :: ss).
Qed.

Definition TRACKER : string := "_normalized_added_fields".

(** The fields added so far are new helper fields, the others are those of [m]. *)
Record extends (m : event) (acc : event * list string) : Prop := {
  ext_new k : k ∈ acc.2 → dget m k = None;
  ext_old k : k ∉ acc.2 → dget acc.1 k = dget m k;
  ext_names k : k ∈ acc.2 → k ∈ ["sensorId"; "category"; "objectIds"];
}.

Lemma add_field_extends m acc key id v :
  key ∈ ["sensorId"; "category"; "objectIds"] → extends m acc → extends m (add_field acc key id v).
Proof.
  intros Hkey [Hin Hout Hn]. unfold add_field. destruct (truthy id && negb (dmem acc.1 key)) eqn:E; [|done].
  apply andb_true_iff in E as [_ Hm%negb_true_iff].
  assert (dget acc.1 key = None) as Hk by (unfold dmem in Hm; by destruct (dget acc.1 key)).
  split; cbn [fst snd].
  - intros k [Hk'|Hk']%elem_of_app; [by apply Hin|]. apply list_elem_of_singleton in Hk' as ->.
    destruct (decide (key ∈ acc.2)); [by apply Hin|]. by rewrite <-Hout.
  - intros k [Hk1 Hk2]%not_elem_of_app. rewrite dget_dset_ne; [by apply Hout|]. intros ->. apply Hk2. by left.
  - intros k [Hk'|Hk']%elem_of_app; [by apply Hn|]. by apply list_elem_of_singleton in Hk' as ->.
Qed.

Lemma normalize_message_shape list_of_set m m1 :
  normalize_alert_message list_of_set m = Ok m1 →
  m1 = m ∨ ∃ acc, extends m acc ∧
    track_added list_of_set (if dmem acc.1 "notification_type" then acc.1
                             else dset acc.1 "notification_type" (VStr "alert")) acc.2 = Ok m1.
Proof.
  unfold normalize_alert_message. intros Hn.
  set (si := part_id (part m "sensor")) in *. set (ci := part_id (part m "analyticsModule")) in *.
  set (oi := part_id (part m "object")) in *.
  assert (extends m (add_field (add_field (add_field (m, []) "sensorId" si si) "category" ci ci) "objectIds" oi (VList [oi]))) as Hext.
  { do 3 (apply add_field_extends; [set_solver|]). split; [by intros k ?%elem_of_nil|done|by intros k ?%elem_of_nil]. }
  destruct (add_field _ "objectIds" oi _) as [u added] eqn:Ea.
  assert ((if negb (truthy si) && negb (truthy ci) && negb (truthy oi) then Ok m
           else track_added list_of_set (if dmem u "notification_type" then u else dset u "notification_type" (VStr "alert")) added)
          = Ok m1 ∨ Ok m = Ok m1) as [H|[= ->]]; [|case_match; [left; by injection H|right]|by left].
  - destruct (part m "sensor"), (part m "analyticsModule"), (part m "object"); by (left + right).
  - by exists (u, added).
Qed.

(** Removing the helper fields undoes the normalization of an alert: the
    event comes back field by field, but for its [notification_type], which
    normalization sets when it is missing and nothing removes. *)
Theorem strip_after_normalize list_of_set m m1 :
  (∀ l v, v ∈ list_of_set l ↔ v ∈ l) → dget m TRACKER = None →
  normalize_alert_message list_of_set m = Ok m1 →
  ∃ m2, strip_normalization_fields m1 = Ok m2 ∧
    (∀ k, k ≠ "notification_type" → dget m2 k = dget m k) ∧ dget m2 "notification_type" = dget m1 "notification_type".
Proof.
  intros Hset Hm Hn.
  assert (∀ u, dget u TRACKER = None → strip_normalization_fields u = Ok u) as Hid.
  { intros u Hu. unfold strip_normalization_fields. fold TRACKER. rewrite Hu. cbn. f_equal. by apply ddel_absent. }
  apply normalize_message_shape in Hn as [->|([u added] & [Hnew Hold Hnames] & Ht)]; [exists m; by rewrite Hid|].
  cbn [fst snd] in *. set (u' := if dmem u "notification_type" then u else _) in *.
  assert (∀ k, k ≠ "notification_type" → dget u' k = dget u k) as Hu'.
  { intros k Hk. unfold u'. destruct (dmem u _); [done|]. by rewrite dget_dset_ne. }
  assert ((TRACKER ∉ added) ∧ ("notification_type" ∉ added)) as [Hta Hna].
  { split; intros H%Hnames; by repeat (apply elem_of_cons in H as [H|H]); [..|apply elem_of_nil in H]. }
  assert (dget u' TRACKER = None) as Hut by (rewrite Hu', Hold by done; done).
  destruct added as [|a added]; cbn [track_added] in Ht.
  { injection Ht as <-. exists u'. rewrite Hid by done. split_and!; [done| |done].
    intros k Hk. rewrite Hu', Hold by done || apply not_elem_of_nil. done. }
  fold TRACKER in Ht. unfold get in Ht. rewrite Hut in Ht.
  change (Ok (dset u' TRACKER (VList (list_of_set (VStr <$> (a :: added))))) = Ok m1) in Ht.
  assert (m1 = dset u' TRACKER (VList (list_of_set (VStr <$> (a :: added))))) as -> by congruence.
  destruct (texts_of (list_of_set (VStr <$> (a :: added)))) as [ss Hss].
  { intros v (s & -> & _)%Hset%list_elem_of_fmap. by exists s. }
  assert (∀ k, k ∈ ss ↔ k ∈ a :: added) as Hin.
  { intros k. pose proof (Hset (VStr <$> (a :: added)) (VStr k)) as H. rewrite Hss in H.
    rewrite !list_elem_of_fmap in H. split; intros Hk.
    - destruct (proj1 H) as (? & [= ->] & ?); [by exists k|done].
    - destruct (proj2 H) as (? & [= ->] & ?); [by exists k|done]. }
  rewrite Hss. set (w := dset u' TRACKER (VList (VStr <$> ss))).
  destruct (pop_texts w ss) as (doc' & Hp & Hg).
  exists (ddel doc' TRACKER). split_and!.
  - unfold strip_normalization_fields. fold TRACKER.
    assert (dget w TRACKER = Some (VList (VStr <$> ss))) as -> by apply dget_dset_eq. cbn [default].
    destruct ss as [|s0 ss0]; [exfalso; apply (not_elem_of_nil a), Hin; by left|].
    change ((doc ← pop_fields w (VStr <$> (s0 :: ss0)); Ok (ddel doc TRACKER)) = Ok (ddel doc' TRACKER)). by rewrite Hp.
  - intros k Hk. rewrite dget_ddel. destruct (decide (TRACKER = k)) as [<-|Htk]; [done|].
    rewrite Hg. destruct (decide (k ∈ ss)) as [Hks|Hks].
    + symmetry. by apply Hnew, Hin.
    + unfold w. rewrite dget_dset_ne, Hu' by done. apply Hold. by rewrite <-Hin.
  - rewrite dget_ddel, decide_False, Hg by done. rewrite decide_False by (by rewrite Hin). done.
Qed.

(** ** Where a document goes *)

Lemma substring_skip s t : String.substring (String.length s) (String.length t) (s +:+ t) = t.
Proof.
  induction s as [|c s IH].
  - change (String.substring 0 (String.length t) t = t). induction t as [|c t IH]; [done|]. simpl. by rewrite IH.
  - exact IH.
Qed.
Lemma ends_with_app s t : ends_with (s +:+ t) t = true.
Proof.
  unfold ends_with. rewrite string_length_app.
  replace (String.length s + String.length t - String.length t)%nat with (String.length s) by lia.
  rewrite substring_skip, String.eqb_refl. apply andb_true_iff. split; [|done]. apply Nat.leb_le. lia.
Qed.

Lemma split_loop_none c s acc : no_char c s = true → split_loop (String c "") s 0 acc = [acc +:+ s].
Proof.
  revert acc. induction s as [|x s IH]; intros acc Hn.
  - cbn [split_loop]. by rewrite app_empty_r.
  - apply andb_true_iff in Hn as [Hc Hn]. apply negb_true_iff, Ascii.eqb_neq in Hc.
    cbn [split_loop]. replace (String.prefix (String c "") (String x s)) with false
      by (symmetry; simpl; by destruct (Ascii.ascii_dec c x)).
    rewrite IH by done. by rewrite string_app_assoc.
Qed.
Lemma replace_none c new s : no_char c s = true → py_replace (String c "") new s = s.
Proof. intros Hn. unfold py_replace, py_split. by rewrite split_loop_none. Qed.

Lemma strftime_date_truncate dt : strftime_date (truncate 3 dt) = strftime_date dt.
Proof.
  unfold truncate, strftime_date, day_us. change (10 ^ (6 - Z.of_nat 3)) with 1000.
  replace ((dt - dt mod 1000) / 86400000000) with (dt / 86400000000); [done|].
  Z.to_euclidean_division_equations; lia.
Qed.

Section address.
Context `{FT : FloatText} `{IP : IsoParser} `{IL : !IsoParserLaws}.

Lemma index_of_text now base s wall off :
  ends_with s "Z" = true ∨ no_char zed s = true →
  fromisoformat (py_replace "Z" "+00:00" s) = Some (wall, off) →
  generate_daily_index_name now base s = base +:+ "-" +:+ strftime_date wall.
Proof.
  intros Hz Hs. unfold generate_daily_index_name. destruct (ends_with s "Z") eqn:E; [by rewrite Hs|].
  destruct Hz as [|Hz]; [done|]. rewrite (replace_none zed) in Hs by done. by rewrite Hs.
Qed.

Lemma index_of_strftime now base dt :
  four_digit_year dt → generate_daily_index_name now base (strftime_ms dt) = base +:+ "-" +:+ strftime_date dt.
Proof.
  intros Hy. rewrite (index_of_text _ _ _ (truncate 3 dt) (Some 0)); [by rewrite strftime_date_truncate|left|by apply read_strftime_ms].
  rewrite strftime_ms_text by done. rewrite <-string_app_assoc. apply ends_with_app.
Qed.

(** The instant a time field names. *)
Definition instant_of (v : pyval) : result (option datetime) :=
  match v with
  | VStr s => Ok (fst <$> fromisoformat (py_replace "Z" "+00:00" s))
  | VDict d =>
      ms ← extract_epoch_millis d;
      match ms with Some ms => dt ← instant_of_millis ms; Ok (Some dt) | None => Ok None end
  | _ => Ok None
  end.

Lemma normalized_instant v v1 v2 dt :
  time_ok v → instant_of v = Ok (Some dt) → coerced v = Ok v1 → normalized v1 = Ok v2 →
  four_digit_year dt ∧ v2 = VStr (strftime_ms dt).
Proof.
  intros Hok Hi Hc Hn. destruct v as [| | | |s| |d]; try done; cbn [time_ok instant_of] in *.
  - injection Hc as <-. destruct (fromisoformat _) as [[wall off]|] eqn:Er; [|done]. injection Hi as <-.
    unfold normalized in Hn. cbn [normalize_ts_to_millis] in Hn. rewrite Er in Hn. injection Hn as <-. split; [eauto|done].
  - unfold coerced in Hc. destruct (extract_epoch_millis d) as [[ms|]|]; cbn [mbind result_bind] in *; try done.
    destruct (Hok ms eq_refl) as [Hms Hy]. destruct (instant_of_millis ms) as [dt'|]; cbn [mbind result_bind] in *; [|done].
    injection Hi as ->. injection Hc as <-. specialize (Hy dt eq_refl). split; [done|].
    unfold normalized in Hn. cbn [normalize_ts_to_millis] in Hn. rewrite read_isoformat in Hn by done. by injection Hn as <-.
Qed.

(** The overrides touch neither the time nor the id. *)
Lemma describe_get d text d' k : describe d text = Ok d' → k ≠ "analyticsModule" → get d' k = get d k.
Proof.
  unfold describe. set (d1 := if dmem _ _ then _ else _). intros Hd Hk.
  assert (get d1 k = get d k) as <- by (unfold d1; destruct (dmem d _); [done|]; by rewrite get_dset, decide_False).
  destruct (get d1 "analyticsModule"); try done. injection Hd as <-. by rewrite get_dset, decide_False.
Qed.
Lemma override_description_get m d d' k :
  override_description m d = Ok d' → k ≠ "analyticsModule" → get d' k = get d k.
Proof.
  unfold override_description. destruct m as [|kv m], (dget d "category"); try by intros [= <-].
  intros ([desc|] & _ & H)%result_bind_Ok Hk; [|by injection H as <-].
  apply result_bind_Ok in H as (v & _ & H). destruct (dget desc v); [by eapply describe_get|by injection H as <-].
Qed.
Lemma override_category_get m d d' k : override_category m d = Ok d' → k ≠ "category" → get d' k = get d k.
Proof.
  unfold override_category. destruct m as [|kv m], (dget d "category"); try by intros [= <-].
  intros ([c|] & _ & [= <-])%result_bind_Ok Hk; [|done]. by rewrite get_dset, decide_False.
Qed.

Lemma prepare_inv now m index cm vdm daily id doc :
  prepare_event_document now m index cm vdm = Ok (daily, id, doc) →
  ∃ e, normalize_event (document_is_alert m) m = Ok e ∧ event_fingerprint (document_is_alert m) e = Ok id ∧
    daily = generate_daily_index_name now index (timestamp_value doc) ∧
    get doc "timestamp" = get e "timestamp" ∧ (∀ i, id = Some i → get doc "Id" = VStr i).
Proof.
  intros (e & He & (i & Hf & (d1 & H1 & (d2 & H2 & [= <- <- <-])%result_bind_Ok)%result_bind_Ok)%result_bind_Ok)%result_bind_Ok.
  exists e. split_and!; [done..| |].
  - rewrite (override_category_get _ _ _ _ H2), (override_description_get _ _ _ _ H1) by done.
    destruct i; [by rewrite get_dset, decide_False|done].
  - intros j ->. rewrite (override_category_get _ _ _ _ H2), (override_description_get _ _ _ _ H1) by done.
    by rewrite get_dset, decide_True.
Qed.

(** The address of an event document, for a message whose timestamp names
    an instant of a year with four digits, as a text or as an epoch: the index is
    that of the instant's day, the id is the fingerprint of the message as it came
    in, not of the rewritten document, and the document holds the id and the
    instant as a text of milliseconds, whatever descriptions and categories are
    overridden. *)
Theorem document_address now m index cm vdm daily id doc dt :
  time_ok (get m "timestamp") → instant_of (get m "timestamp") = Ok (Some dt) →
  prepare_event_document now m index cm vdm = Ok (daily, id, doc) →
  daily = index +:+ "-" +:+ strftime_date dt ∧
  event_fingerprint (document_is_alert m) m = Ok id ∧
  (∀ i, id = Some i → get doc "Id" = VStr i) ∧ get doc "timestamp" = VStr (strftime_ms dt).
Proof.
  intros Hok Hi (e & He & Hf & -> & Ht & Hid)%prepare_inv.
  destruct (proj1 (normalize_event_fields _ _ _ He) "timestamp") as (v1 & Hc & Hn); [by left|].
  destruct (normalized_instant _ _ _ _ Hok Hi Hc Hn) as [Hy Hv]. rewrite Hv in Ht. split_and!; [|..|done|done].
  - unfold timestamp_value. rewrite (get_present _ _ _ Ht) by done. cbn [default py_str]. by apply index_of_strftime.
  - by rewrite <-(fingerprint_kept _ _ _ Hok He).
Qed.

(** An enrichment is added where the event was stored: for a message whose
    timestamp is a text, at whatever times the two happen, [update_enrichment]
    derives the index the document was written to. *)
Theorem enrichment_finds_document now later m index cm vdm daily id doc s wall off :
  get m "timestamp" = VStr s → ends_with s "Z" = true ∨ no_char zed s = true →
  fromisoformat (py_replace "Z" "+00:00" s) = Some (wall, off) → four_digit_year wall →
  prepare_event_document now m index cm vdm = Ok (daily, id, doc) →
  generate_daily_index_name later index (timestamp_value m) = daily.
Proof.
  intros Hs Hz Hr Hy (e & He & Hf & -> & Ht & Hid)%prepare_inv.
  destruct (proj1 (normalize_event_fields _ _ _ He) "timestamp") as (v1 & Hc & Hn); [by left|]. rewrite Hs in Hc.
  destruct (normalized_instant (VStr s) v1 (get e "timestamp") wall) as [_ Hv]; [|by cbn [instant_of]; rewrite Hr|done..|].
  { cbn [time_ok]. intros w o. rewrite Hr. by intros [= <- <-]. }
  unfold timestamp_value. rewrite (get_present _ _ _ Hs) by done. rewrite Hv in Ht.
  rewrite (get_present _ _ _ Ht) by done.
  change (generate_daily_index_name later index s = generate_daily_index_name now index (strftime_ms wall)).
  rewrite index_of_strftime by done. by eapply index_of_text.
Qed.
End address.

(** ** What publishing leaves behind *)
Section publishing.
Context `{FT : FloatText} `{IP : IsoParser}.
Context {W : Type} `{ES : EsServer W} `{EI : EsIndexing W}.
Context {S : Type} `{CS : ConfigStore S}.
Context {Cl V : Type} `{EL : Elastic Cl V}.
Context (dedup_config : DedupConfig) (clock_now clock_later clock_time : float) (created_at : string) (sink : Sink).

(** Steps that leave the verdict handler alone. *)
Definition spares_handler {A} (m : stM (@SinkState W S Cl V) A) : Prop :=
  ∀ s r s', m s = (r, s') → redis_handler s' = redis_handler s.

Lemma spares_ret {A} (a : A) : spares_handler (mret a).
Proof. by intros s r s' [= <- <-]. Qed.
Lemma spares_lift {A} (r : result A) : spares_handler (slift r).
Proof. by intros s r' s' [= <- <-]. Qed.
Lemma spares_bind {A B} (m : stM _ A) (k : A → stM _ B) :
  spares_handler m → (∀ a, spares_handler (k a)) → spares_handler (m ≫= k).
Proof.
  intros Hm Hk s r s'. unfold mbind, stM_bind. destruct (m s) as [[a|e] s1] eqn:E.
  - intros Hr. rewrite (Hk a _ _ _ Hr). by apply Hm in E.
  - intros [= <- <-]. by apply Hm in E.
Qed.
Lemma spares_catch {A} (m : stM _ A) h :
  spares_handler m → (∀ e, spares_handler (h e)) → spares_handler (scatch m h).
Proof.
  intros Hm Hh s r s'. unfold scatch. destruct (m s) as [[a|e] s1] eqn:E.
  - intros [= <- <-]. by apply Hm in E.
  - intros Hr. rewrite (Hh e _ _ _ Hr). by apply Hm in E.
Qed.
Lemma spares_elastic {A} (m : stM _ A) : spares_handler (on_elastic m).
Proof. intros s r s'. unfold on_elastic, zoom. destruct (m _). by intros [= <- <-]. Qed.
Lemma spares_config {A} (m : stM _ A) : spares_handler (on_config m).
Proof. intros s r s'. unfold on_config, zoom. destruct (m _). by intros [= <- <-]. Qed.

Lemma spares_write alert d : spares_handler (write_event sink alert d).
Proof.
  unfold write_event, build_runtime_category_mapping, resolve_output_category, stored_config.
  repeat first [apply spares_bind; [|intros] | apply spares_ret | apply spares_lift | apply spares_elastic
    | apply spares_catch; [apply spares_config|intros] | case_match].
Qed.

Lemma store_success_run alert d (s : @SinkState W S Cl V) :
  store_success dedup_config clock_now clock_later clock_time created_at sink alert d s =
    match write_event sink alert d s with
    | (Ok _, s1) => mark_confirmed dedup_config clock_now clock_later clock_time created_at sink d s1
    | (Exn _, s1) => (Ok tt, s1)
    end.
Proof.
  unfold store_success, attempt, scatch. unfold mbind at 1, stM_bind at 1. unfold mbind at 1, stM_bind at 1.
  by destruct (write_event sink alert d s) as [[[]|e] s1].
Qed.

Lemma mark_handler d (s : @SinkState W S Cl V) r s' :
  mark_confirmed dedup_config clock_now clock_later clock_time created_at sink d s = (r, s') →
  elastic s' = elastic s ∧
  (redis_handler s' ≠ redis_handler s → verdict_of d = Ok "confirmed" ∧ has_redis_handler sink = true).
Proof.
  unfold mark_confirmed. unfold mbind at 1, stM_bind at 1, slift.
  destruct (verdict_of d) as [v|e]; [|by intros [= <- <-]].
  destruct (get d "Id") as [| | | |fp| |]; try by intros [= <- <-].
  destruct (has_redis_handler sink && _ && _) eqn:E; [|by intros [= <- <-]].
  apply andb_true_iff in E as [[Hh _]%andb_true_iff Hv%String.eqb_eq]. rewrite Hv.
  unfold mbind, stM_bind, on_handler, zoom. destruct (mark_verdict_confirmed _ _ _ _ _ fp _) as [[b|e] h];
    by intros [= <- <-].
Qed.

(** Nothing follows a write that failed: if publishing a verified event
    raises, or touches the verdict handler at all, the document was written
    first, the Elasticsearch client does nothing after it, and the handler is
    touched only for a confirmed verdict. *)
Theorem publish_after_write alert d (s : @SinkState W S Cl V) r s' :
  store_success dedup_config clock_now clock_later clock_time created_at sink alert d s = (r, s') →
  r ≠ Ok tt ∨ redis_handler s' ≠ redis_handler s →
  ∃ s1, write_event sink alert d s = (Ok tt, s1) ∧ elastic s' = elastic s1 ∧
    (redis_handler s' ≠ redis_handler s → verdict_of d = Ok "confirmed" ∧ has_redis_handler sink = true).
Proof.
  rewrite store_success_run. destruct (write_event sink alert d s) as [[[]|e] s1] eqn:Ew;
    rewrite <-(spares_write _ _ _ _ _ Ew).
  - intros Hrun _. exists s1. destruct (mark_handler _ _ _ _ Hrun). by split_and!.
  - intros [= <- <-] [|]; congruence.
Qed.
End publishing.

(** ** Concrete runs *)
Section concrete.
#[local] Existing Instance bits_text.
#[local] Instance iso_parser : IsoParser := iso_parse.
#[local] Instance iso_parser_laws : IsoParserLaws := iso_parse_laws.

(** A server that indexes: what it was given, the latest first. *)
Record Cluster := mk_Cluster { indexed : list (string * option string * event); day : datetime }.
#[local] Instance cluster_server : EsServer Cluster := {|
  srv_get _ _ w := (Failure, w); srv_create _ _ _ w := (Failure, w); srv_update _ _ _ _ w := (Failure, w);
  srv_delete _ _ w := (Failure, w); srv_search _ _ w := (Failure, w); srv_exists _ w := (Answer true, w);
  srv_create_index _ _ _ w := (Failure, w); srv_ping w := (Answer true, w); utc_now _ := "";
|}.
#[local] Instance cluster_indexing : EsIndexing Cluster := {|
  srv_index i id d w := (Answer tt, mk_Cluster ((i, id, d) :: indexed w) (day w)); now_utc := day;
|}.
#[local] Instance sink_configs : ConfigStore MemStore := mem_store ticking.

(** A collision's display name is configured; its descriptions are in the file. *)
Definition sink_ex : Sink :=
  mk_Sink "mdx-vlm-incidents" "mdx-vlm-alerts" [] [("collision", [("confirmed", VStr "Two vehicles collided")])] true true.
Definition state_ex : @SinkState Cluster MemStore unit Store :=
  mk_SinkState (mk_EsClient ∅ (mk_Cluster [] 0))
    (mk_Shared {[ 0%nat := [("output_category", VStr "Vehicle collision")] ]} 1 0,
     mk_MemStore None [("collision", (0%nat, None))])
    (handler_ex (mk_Store true [])).
Definition publish_ex (e : event) : result unit * @SinkState Cluster MemStore unit Store :=
  store_success Dedup.cfg_ex (Z2f 1000) (Z2f 1000) (Z2f 1000) "" sink_ex false e state_ex.

Definition verified_event : event := [
  ("timestamp", VDict [("seconds", VInt 1710417600); ("nanos", VInt 0)]); ("category", VStr "collision");
  ("sensorId", VStr "HWY_20"); ("info", VDict [("verdict", VStr "Confirmed")]); ("Id", VStr "f1") ].

(** A confirmed event is stored under the day of its timestamp and its verdict
    marked; description and category are the configured ones. *)
Example published_ex :
  let '(r, s) := publish_ex verified_event in
  r = Ok tt ∧ dkeys (docs (world (redis_handler s))) = [("ab-confirmed-verdicts", "f1")] ∧
  (λ x, (x.1.1, get x.2 "category", get x.2 "analyticsModule", get x.2 "timestamp")) <$> indexed (server (elastic s)) =
    [("mdx-vlm-incidents-2024-03-14", VStr "Vehicle collision",
      VDict [("description", VStr "Two vehicles collided")], VStr "2024-03-14T12:00:00.000Z")].
Proof. vm_compute. split_and!; reflexivity. Qed.

Lemma verified_time_ok : time_ok (get verified_event "timestamp").
Proof.
  apply (time_ok_epoch _ 1710417600000 1710417600000000); [vm_compute; reflexivity|lia|vm_compute; reflexivity|].
  unfold four_digit_year. vm_compute. split; discriminate.
Qed.

Lemma document_address_witness :
  ∃ daily id doc, prepare_event_document 0 verified_event "mdx" [] [] = Ok (daily, id, doc) ∧
    daily = "mdx-2024-03-14" ∧ get doc "timestamp" = VStr "2024-03-14T12:00:00.000Z".
Proof.
  destruct (prepare_event_document 0 verified_event "mdx" [] []) as [[[daily id] doc]|] eqn:E; [|vm_compute in E; discriminate].
  exists daily, id, doc. split; [reflexivity|].
  destruct (document_address 0 verified_event "mdx" [] [] daily id doc 1710417600000000) as (-> & _ & _ & ->);
    [exact verified_time_ok|vm_compute; reflexivity|exact E|]. split; vm_compute; reflexivity.
Defined.

Definition text_event : event := [("timestamp", VStr "2024-03-14T23:59:59.500+00:00"); ("notification_type", VStr "alert")].
Lemma enrichment_finds_document_witness :
  ∃ daily id doc, prepare_event_document 0 text_event "mdx" [] [] = Ok (daily, id, doc) ∧
    generate_daily_index_name 86400000000 "mdx" (timestamp_value text_event) = daily.
Proof.
  destruct (prepare_event_document 0 text_event "mdx" [] []) as [[[daily id] doc]|] eqn:E; [|vm_compute in E; discriminate].
  exists daily, id, doc. split; [reflexivity|].
  apply (enrichment_finds_document 0 86400000000 text_event "mdx" [] [] daily id doc
    "2024-03-14T23:59:59.500+00:00" 1710460799500000 (Some 0)); try exact E.
  - reflexivity.
  - right. reflexivity.
  - vm_compute. reflexivity.
  - unfold four_digit_year. vm_compute. split; discriminate.
Defined.

(** An epoch is stored under its own day, but its enrichment is sent to today's
    index. *)
Example enrichment_misses_epoch :
  (document ← prepare_event_document 0 verified_event "mdx" [] []; Ok document.1.1) = Ok "mdx-2024-03-14" ∧
  generate_daily_index_name 0 "mdx" (timestamp_value verified_event) = "mdx-1970-01-01".
Proof. split; vm_compute; reflexivity. Qed.

(** The document is rewritten as an alert, but kept with the incidents. *)
Example capital_alert :
  document_is_alert [("notification_type", VStr "Alert")] = true ∧
  (prepare_publish [("notification_type", VStr "Alert")]).1 = false.
Proof. done. Qed.

Definition no_info : event := [("info", VNone)].
(** Publishing a document without information raises after storing it. *)
Lemma publish_after_write_witness :
  ∃ s1, write_event sink_ex false no_info state_ex = (Ok tt, s1) ∧ elastic (publish_ex no_info).2 = elastic s1.
Proof.
  destruct (publish_after_write Dedup.cfg_ex (Z2f 1000) (Z2f 1000) (Z2f 1000) "" sink_ex false no_info state_ex
    (Exn AttributeError) (publish_ex no_info).2) as (s1 & Hw & He & _).
  - vm_compute. reflexivity.
  - left. discriminate.
  - exists s1. split; [exact Hw|exact He].
Defined.

Definition helpers_event : event := [("sensor", VDict [("id", VStr "cam1")]); ("object", VDict [("id", VStr "7")])].
Definition helpers_added : event := [
  ("sensor", VDict [("id", VStr "cam1")]); ("object", VDict [("id", VStr "7")]); ("sensorId", VStr "cam1");
  ("objectIds", VList [VStr "7"]); ("notification_type", VStr "alert");
  ("_normalized_added_fields", VList [VStr "objectIds"; VStr "sensorId"]) ].
Lemma strip_after_normalize_witness :
  ∃ m2, strip_normalization_fields helpers_added = Ok m2 ∧ ∀ k, k ≠ "notification_type" → dget m2 k = dget helpers_event k.
Proof.
  destruct (strip_after_normalize (@rev pyval) helpers_event helpers_added) as (m2 & Hs & Hk & _).
  - intros l v. split; intros Hv%list_elem_of_In; apply list_elem_of_In; [apply in_rev|apply in_rev in Hv]; exact Hv.
  - reflexivity.
  - reflexivity.
  - exists m2. split; [exact Hs|exact Hk].
Defined.
End concrete.
