(* ===== verification/Events.v ===== *)
(** * Tripwire and region events (behavior analytics)

    [transform/event/base_event.py], [roi_event.py] and [tripwire_event.py]:
    which stretches of an object's trajectory enter or leave a region, or cross
    a tripwire; with [orientation] and [intersect] of [utils/distance_util.py]
    and the containment tests of [transform/calibration/calibration_base.py].

    Shapely's distances and matplotlib's polygons are interfaces ([Shapely],
    [Polygons]). The trajectories come from BehaviorState.v, which carries the
    last points of a batch over to the next. *)

From Stdlib Require Import ZArith Lia Floats.SpecFloat.
From stdpp Require Import base list strings.
From S2P Require Import Prelude PyDict PyFloat PyNumber PyText Crp Schema Sampling Stop BehaviorState.
Open Scope string_scope.
Open Scope list_scope.
Open Scope nat_scope.

Record Point2D := mk_Point2D { px : float; py : float }.
Record Line := mk_Line { p1 : Point2D; p2 : Point2D }.
Record Tripwire := mk_Tripwire { tw_id : string; wires : list Line; in_orientation : Z }.

(** ** Sides of a polyline *)

(** [LineString(coords).distance(point)], and the distance of the point to the
    polyline's parallel at an offset to the left or the right, if it has one. *)
Class Shapely := {
  line_distance : list Point2D → Point2D → float;
  offset_distance : list Point2D → float → bool → Point2D → option float;
}.

Definition ORIENTATION_OFFSET_RATIO : float := lit 1 1.
Definition ORIENTATION_MIN_OFFSET : float := div_ints 1 1000000.
Definition ORIENTATION_ON_LINE_TOLERANCE : float := div_ints 1 10000000000.

Definition same_point (a b : Point2D) : bool := feq (px a) (px b) && feq (py a) (py b).
Fixpoint connected (lines : list Line) : bool :=
  match lines with
  | l :: (l' :: _) as rest => same_point (p2 l) (p1 l') && connected rest
  | _ => true
  end.

Section geometry.
Context `{Shapely}.

(** 0 on the line, 1 to its right, 2 to its left *)
Definition orientation (lines : list Line) (r : Point2D) : result Z :=
  match lines with
  | [] => Exn ValueError
  | l0 :: _ =>
      if negb (connected lines) then Exn ValueError
      else
        let coords := p1 l0 :: (p2 <$> lines) in
        let distance := line_distance coords r in
        if flt distance ORIENTATION_ON_LINE_TOLERANCE then Ok 0%Z
        else
          let offset := fmax (fmul distance ORIENTATION_OFFSET_RATIO) ORIENTATION_MIN_OFFSET in
          let left_distance := default finf (offset_distance coords offset true r) in
          let right_distance := default finf (offset_distance coords offset false r) in
          Ok (if flt left_distance right_distance then 2%Z else 1%Z)
  end.

Definition on_segment (seg : Line) (q : Point2D) : bool :=
  fle (fmin (px (p1 seg)) (px (p2 seg))) (px q) && fle (px q) (fmax (px (p1 seg)) (px (p2 seg))) &&
  fle (fmin (py (p1 seg)) (py (p2 seg))) (py q) && fle (py q) (fmax (py (p1 seg)) (py (p2 seg))).

Definition line_intersect (line1 line2 : Line) : result bool :=
  o1 ← orientation [line1] (p1 line2);
  o2 ← orientation [line1] (p2 line2);
  o3 ← orientation [line2] (p1 line1);
  o4 ← orientation [line2] (p2 line1);
  Ok (negb (o1 =? o2)%Z && negb (o3 =? o4)%Z
      || (o1 =? 0)%Z && on_segment line1 (p1 line2) || (o2 =? 0)%Z && on_segment line1 (p2 line2)
      || (o3 =? 0)%Z && on_segment line2 (p1 line1) || (o4 =? 0)%Z && on_segment line2 (p2 line1)).

Fixpoint intersect (lines : list Line) (line : Line) : result bool :=
  match lines with
  | [] => Ok false
  | l :: lines' => b ← line_intersect l line; if (b : bool) then Ok true else intersect lines' line
  end.
End geometry.

(** ** The calibration's view of a sensor *)

(** [matplotlib.path.Path]: whether it has vertices, its inside, and its overlap
    with a box *)
Class Polygons (P : Type) := {
  path_nonempty : P → bool;
  contains_point : P → Point2D → bool;
  intersects_bbox : P → Bbox → bool;
}.

Record SensorGeometry (P : Type) := mk_SensorGeometry {
  sg_rois : list string;
  sg_polygons : dict string P;
  sg_tripwires : dict string Tripwire;
}.
Arguments mk_SensorGeometry {P}. Arguments sg_rois {P}. Arguments sg_polygons {P}. Arguments sg_tripwires {P}.

Section calibration.
Context `{Shapely} {P : Type} `{Polygons P}.

Definition point_in_tripwire (point : Point2D) (g : SensorGeometry P) (tripwire_id : string) : result bool :=
  tripwire ← require (dget (sg_tripwires g) tripwire_id) KeyError;
  o ← orientation (wires tripwire) point;
  Ok (in_orientation tripwire =? o)%Z.

(** [roiPolygons.get(roi_id)], of which a path without vertices is falsy *)
Definition polygon_of (g : SensorGeometry P) (roi_id : string) : option P :=
  match dget (sg_polygons g) roi_id with
  | Some p => if path_nonempty p then Some p else None
  | None => None
  end.

Definition point_in_polygon (point : Point2D) (g : SensorGeometry P) (roi_id : string) : bool :=
  match polygon_of g roi_id with Some p => contains_point p point | None => false end.

(** A box without extent is tested by its point. *)
Definition bbox_overlaps_polygon (bbox : Bbox) (g : SensorGeometry P) (roi_id : string) (point : Point2D) : bool :=
  match polygon_of g roi_id with
  | None => false
  | Some p =>
      if fle (fsub (rightX bbox) (leftX bbox)) f0 || fle (fsub (bottomY bbox) (topY bbox)) f0
      then point_in_polygon point g roi_id
      else intersects_bbox p bbox
  end.

(** ** Detectors: what the subclasses of [BaseEvent] define *)
Record Detector := mk_Detector {
  dir_in : string;
  dir_out : string;
  event_name : string;
  event_type : string;
  get_objects : SensorGeometry P → list string;
  is_inside : Point2D → SensorGeometry P → string → option Bbox → result bool;
  crosses : list Point2D → SensorGeometry P → string → list (option Bbox) → result bool;
}.

(** The ends of a trip; [trip[0]] raises on an empty one. *)
Definition ends {A} (trip : list A) : result (A * A) :=
  match head trip, last trip with Some a, Some b => Ok (a, b) | _, _ => Exn IndexError end.

Definition bbox_mode_enabled (mode : string) (calibration : CalibrationType) : bool :=
  String.eqb mode "bbox" && match calibration with IMAGE => true | _ => false end.

Definition roi_is_inside (mode : string) (calibration : CalibrationType)
    (point : Point2D) (g : SensorGeometry P) (obj_id : string) (bbox : option Bbox) : result bool :=
  Ok (match bbox with
      | Some bbox => if bbox_mode_enabled mode calibration then bbox_overlaps_polygon bbox g obj_id point
                     else point_in_polygon point g obj_id
      | None => point_in_polygon point g obj_id
      end).

Definition roi_crosses (mode : string) (calibration : CalibrationType)
    (trip : list Point2D) (g : SensorGeometry P) (obj_id : string) (bboxes : list (option Bbox)) : result bool :=
  let start_bbox := default None (head bboxes) in
  let end_bbox := default None (last bboxes) in
  '(first, final) ← ends trip;
  start_position ← roi_is_inside mode calibration first g obj_id start_bbox;
  end_position ← roi_is_inside mode calibration final g obj_id end_bbox;
  Ok (negb (eqb start_position end_position)).

Definition ROIEvent (mode : string) (calibration : CalibrationType) : Detector :=
  mk_Detector "ENTRY" "EXIT" "roi" "ROIEvent" sg_rois (roi_is_inside mode calibration) (roi_crosses mode calibration).

Definition trip_crosses (trip : list Point2D) (g : SensorGeometry P) (obj_id : string) (_ : list (option Bbox))
    : result bool :=
  tripwire ← require (dget (sg_tripwires g) obj_id) KeyError;
  '(first, final) ← ends trip;
  intersect (wires tripwire) (mk_Line first final).

Definition TripwireEvent : Detector :=
  mk_Detector "IN" "OUT" "tripwire" "TripEvent" (λ g, tw_id <$> dvals (sg_tripwires g))
    (λ point g obj_id _, point_in_tripwire point g obj_id) trip_crosses.

(** ** [get_events] *)

(** The trajectory-derived fields of a behavior, [point] being a list. *)
Record Moves := mk_Moves {
  mv_locations : list (list float);
  mv_distance : float;
  mv_speed : float;
  mv_speedOverTime : list float;
  mv_bearing : float;
  mv_direction : string;
}.
Abbreviation Behavior := (Schema.Behavior Moves).

(** The event as a behavior: its own fields, and the behavior whose id, speed,
    bearing, direction, object, sensor and place it copies. *)
Record EventBehavior := mk_EventBehavior {
  ev_of : Behavior;
  ev_timeInterval : float;
  ev_timestamp : datetime;
  ev_end : datetime;
  ev_length : nat;
  ev_distance : float;
  ev_id : string;
  ev_type : string;
  ev_class : string;
  ev_module : string;
  ev_description : string;
  ev_locations : list Point2D;
}.

(** [Point2D(x=coord.point[0], y=coord.point[1])] *)
Definition location_of (point : list float) : result Point2D :=
  match point with x :: y :: _ => Ok (mk_Point2D x y) | _ => Exn IndexError end.

Fixpoint result_map {A B} (f : A → result B) (l : list A) : result (list B) :=
  match l with
  | [] => Ok []
  | x :: l' => y ← f x; ys ← result_map f l'; Ok (y :: ys)
  end.

(** [[l[i : i + k] for i in range(len(l) - k + 1)]] *)
Definition windows {A} (k : nat) (l : list A) : list (list A) :=
  (λ i, take k (drop i l)) <$> seq 0 (length l + 1 - k).

(** [sum(1 for p in l if p)] *)
Definition count_true (l : list bool) : nat := length (filter (.= true) l).
Definition count_false (l : list bool) : nat := length (filter (.= false) l).

Section events.
Context (d : Detector) (tripwire_min_points : nat).
Let min_trip_length : nat := tripwire_min_points * 2.

Definition event_at (b : Behavior) (interval : float) (obj_id : string) (idx : nat) (trip : list Point2D)
    (starts_inside : bool) : result EventBehavior :=
  let at_ (i : nat) : result datetime :=
    t ← td_float (fmul (Z2f (Z.of_nat i)) interval); Ok (be_timestamp b + t)%Z in
  timestamp ← at_ idx;
  end_time ← at_ (idx + min_trip_length - 1);
  Ok (mk_EventBehavior b (total_seconds (end_time - timestamp)) timestamp end_time min_trip_length
        (fdiv (fmul (mv_distance (be_trajectory b)) (Z2f (Z.of_nat min_trip_length))) (Z2f (Z.of_nat (be_length b))))
        obj_id (if starts_inside then dir_out d else dir_in d) (event_name d) (event_type d)
        ("index = " +:+ str_Z (Z.of_nat idx)) trip).

(** One tracklet of the loop: its index, points, boxes and positions. *)
Definition tracklet_event (b : Behavior) (interval : float) (g : SensorGeometry P) (obj_id : string)
    (idx : nat) (trip : list Point2D) (boxes : list (option Bbox)) (positions : list bool)
    : result (option EventBehavior) :=
  let side1 := count_true positions in
  let side2 := count_false positions in
  c ← crosses d trip g obj_id boxes;
  if (c : bool) && (side1 =? side2) then
    starts_inside ← require (head positions) IndexError;
    e ← event_at b interval obj_id idx trip starts_inside;
    Ok (Some e)
  else Ok None.

Fixpoint tracklet_events (b : Behavior) (interval : float) (g : SensorGeometry P) (obj_id : string) (idx : nat)
    (trips : list (list Point2D)) (boxes : list (list (option Bbox))) (positions : list (list bool))
    : result (list EventBehavior) :=
  match trips, boxes, positions with
  | trip :: trips', bx :: boxes', ps :: positions' =>
      e ← tracklet_event b interval g obj_id idx trip bx ps;
      rest ← tracklet_events b interval g obj_id (S idx) trips' boxes' positions';
      Ok (match e with Some e => e :: rest | None => rest end)
  | _, _, _ => Ok []
  end.

(** The locations, each with its box where there is one for each location. *)
Definition located (b : Behavior) : result (list (Point2D * option Bbox)) :=
  locations ← result_map location_of (mv_locations (be_trajectory b));
  Ok (zip locations (if length (be_locationsBboxes b) =? length locations then Some <$> be_locationsBboxes b
                     else replicate (length locations) None)).

Definition positions_of (g : SensorGeometry P) (obj_id : string) : list (Point2D * option Bbox) → result (list bool) :=
  result_map (λ z, is_inside d z.1 g obj_id z.2).

Definition object_events (b : Behavior) (interval : float) (g : SensorGeometry P) (obj_id : string)
    : result (list EventBehavior) :=
  points ← located b;
  positions ← positions_of g obj_id points;
  tracklet_events b interval g obj_id 0 (windows min_trip_length points.*1)
    (windows min_trip_length points.*2) (windows min_trip_length positions).

Definition get_events (sensor_map : dict string (SensorGeometry P)) (behavior : option Behavior)
    : result (list EventBehavior) :=
  match behavior with
  | None => Ok []
  | Some b =>
      match dget sensor_map (se_id (be_sensor b)) with
      | None => Ok []
      | Some g =>
          match get_objects d g with
          | [] => Ok []
          | objects =>
              if be_length b <? 2 then Ok []
              else
                let interval := fdiv (be_timeInterval b) (Z2f (Z.of_nat (be_length b) - 1)) in
                events ← result_map (object_events b interval g) objects;
                Ok (concat events)
          end
      end
  end.
End events.
End calibration.

(** ** Windows *)

Lemma windows_length {A} k (l : list A) : length (windows k l) = length l + 1 - k.
Proof. unfold windows. by rewrite length_fmap, length_seq. Qed.

Lemma windows_fmap {A B} (f : A → B) k (l : list A) : windows k (f <$> l) = (λ w : list A, f <$> w) <$> windows k l.
Proof.
  unfold windows. rewrite length_fmap, <-list_fmap_compose. apply list_fmap_ext. intros i j _. simpl.
  by rewrite fmap_take, fmap_drop.
Qed.

Lemma windows_cons {A} k (x : A) l :
  windows k (x :: l) = if decide (k ≤ S (length l)) then take k (x :: l) :: windows k l else [].
Proof.
  unfold windows. cbn [length]. case_decide as Hk.
  - replace (S (length l) + 1 - k) with (S (length l + 1 - k)) by lia. cbn [seq fmap list_fmap].
    f_equal. rewrite <-seq_shift, <-list_fmap_compose. by apply list_fmap_ext.
  - by replace (S (length l) + 1 - k) with 0 by lia.
Qed.

Lemma windows_short {A} k (l : list A) : length l < k → windows k l = [].
Proof. intros Hk. unfold windows. by replace (length l + 1 - k) with 0 by lia. Qed.

(** The windows of a list that was extended: those of its old part, and those of
    what was added behind the last [k - 1] elements. *)
Lemma windows_app {A} k (l1 l2 : list A) :
  0 < k → windows k (l1 ++ l2) = windows k l1 ++ windows k (drop (length l1 - (k - 1)) l1 ++ l2).
Proof.
  intros Hk. destruct (decide (length l1 < k)) as [Hs|Hs].
  - rewrite (windows_short k l1) by done. by replace (length l1 - (k - 1)) with 0 by lia.
  - unfold windows. rewrite !length_app, length_drop.
    replace (length l1 + length l2 + 1 - k) with ((length l1 + 1 - k) + length l2) by lia.
    replace (length l1 - (length l1 - (k - 1)) + length l2 + 1 - k) with (length l2) by lia.
    rewrite seq_app, fmap_app. f_equal.
    + apply list_fmap_ext. intros i j Hj%lookup_seq. destruct Hj as [-> Hi]. simpl.
      rewrite drop_app_le, take_app_le by (rewrite ?length_drop; lia). done.
    + rewrite Nat.add_0_l. apply list_eq. intros i. rewrite !list_lookup_fmap.
      destruct (decide (i < length l2)) as [Hi|Hi].
      * rewrite !lookup_seq_lt by done. simpl. f_equal. f_equal.
        replace (length l1 - (k - 1)) with (length l1 + 1 - k) by lia.
        rewrite <-(drop_app_le l1 l2) by lia. by rewrite drop_drop.
      * by rewrite !lookup_seq_ge by lia.
Qed.

(** ** Trips across batches *)
Section trips.
Context (np_sum : vec → float) (cfg : BehaviorConfig).

(** An object's further batches: the trip of each, from the state the last left. *)
Inductive continues (mtl : Z) : ObjectState → list ObjectState → list ObjectState → Prop :=
  | cont_nil st : continues mtl st [] []
  | cont_step st key new_state os tol_os embeddings trip st' news trips :
      update_existing np_sum cfg key new_state os tol_os embeddings mtl st = (Ok trip, st') →
      continues mtl st' news trips →
      continues mtl st (new_state :: news) (trip :: trips).

Lemma update_existing_trip key new_state os tol_os embeddings mtl st trip st' :
  update_existing np_sum cfg key new_state os tol_os embeddings mtl st = (Ok trip, st') →
  os_points trip = os_lastXpoints st ++ os_points new_state ∧
  os_lastXpoints st' = py_tail (os_lastXpoints st ++ os_points new_state) mtl.
Proof.
  unfold update_existing. destruct (trip_start st new_state); [|done].
  destruct (update_object_state_model _ _ _ _) as [[]] eqn:E; intros [= <- <-].
  apply update_model_frame in E as [m ->]. by split.
Qed.

(** C21. Over all batches of an object's track every stretch of a trip's length is
    looked at exactly once, in the order of the track, whether it lies within a
    batch or across several: the stretches of the trips, one after the other, are
    those of all the points, without a gap and without a repetition. *)
Theorem trips_cover_once mtp key first last os news trips :
  (1 ≤ mtp)%Z → let mtl := (mtp * 2 - 1)%Z in let k := Z.to_nat (mtp * 2) in
  let st := new_object_state key first last os mtl in
  continues mtl st news trips →
  windows k (concat (os_points <$> (st :: news))) = concat (windows k <$> (os_points <$> (st :: trips))).
Proof.
  intros Hm mtl k st Hc.
  assert (∀ s news trips, continues mtl s news trips → ∀ pts, os_lastXpoints s = py_tail pts mtl →
    windows k (pts ++ concat (os_points <$> news)) = windows k pts ++ concat (windows k <$> (os_points <$> trips))) as Hgen.
  { clear st Hc. intros s ns0 ts0 Hc. induction Hc as [s|s key' ns os' tol embs trip s' news' trips' Hu _ IH]; intros pts Hp.
    - simpl. by rewrite !app_nil_r.
    - apply update_existing_trip in Hu as [Ht Hl]. rewrite Hp in Ht, Hl. cbn [fmap list_fmap concat].
      rewrite (app_assoc pts), IH by (rewrite Hl; apply py_tail_app; lia).
      rewrite windows_app, <-app_assoc, Ht by lia. do 3 f_equal.
      rewrite py_tail_pos by lia. do 2 f_equal. lia. }
  apply (Hgen st news trips Hc). done.
Qed.
End trips.

(** ** Balanced stretches *)

(** What a stretch of positions says: [Some true] enters, [Some false] leaves. *)
Definition verdict (w : list bool) : option bool :=
  if count_true w =? count_false w then
    match head w, last w with
    | Some a, Some b => if eqb a b then None else Some b
    | _, _ => None
    end
  else None.

Lemma count_sum l : count_true l + count_false l = length l.
Proof.
  unfold count_true, count_false. induction l as [|b l IH]; [done|].
  destruct b; [rewrite filter_cons_True, filter_cons_False by done|rewrite filter_cons_False, filter_cons_True by done];
    simpl; lia.
Qed.
Lemma count_true_cons b l : count_true (b :: l) = (if b then 1 else 0) + count_true l.
Proof. unfold count_true. destruct b; [by rewrite filter_cons_True|by rewrite filter_cons_False]. Qed.
Lemma count_true_app l1 l2 : count_true (l1 ++ l2) = count_true l1 + count_true l2.
Proof. unfold count_true. by rewrite filter_app, length_app. Qed.

(** After the event [b] and until the next one: more than half of the stretch is
    on the side of [b], or half of it, with the other side at its end. *)
Definition settled_on (m : nat) (b : bool) (w : list bool) : Prop :=
  if b then m < count_true w ∨ count_true w = m ∧ last w = Some false
  else count_true w < m ∨ count_true w = m ∧ last w = Some true.

Lemma verdict_balanced m w : length w = 2 * m → verdict w ≠ None → count_true w = m.
Proof.
  unfold verdict. intros Hl. pose proof (count_sum w). destruct (Nat.eqb_spec (count_true w) (count_false w)); [lia|done].
Qed.

(** A stretch that is not empty, and the next one. *)
Lemma verdict_step m a w x b :
  length (a :: w) = 2 * m → verdict (a :: w) = Some b → settled_on m b (w ++ [x]).
Proof.
  intros Hl Hv. assert (count_true (a :: w) = m) as Hc by (apply verdict_balanced; [done|by rewrite Hv]).
  unfold verdict in Hv. pose proof (count_sum (a :: w)). rewrite (proj2 (Nat.eqb_eq _ _)) in Hv by lia.
  change (head (a :: w)) with (Some a) in Hv. cbn iota beta in Hv. destruct (last (a :: w)) as [z|] eqn:Ez; [|done]. destruct (eqb a z) eqn:Eaz; [done|].
  injection Hv as ->. rewrite count_true_cons in Hc. unfold settled_on. rewrite count_true_app, last_snoc.
  assert (count_true [x] = if x then 1 else 0) as -> by by destruct x.
  destruct a, b; try done; destruct x; (left; lia) || (right; split; [lia|done]).
Qed.

Lemma settled_step m a w x b :
  length (a :: w) = 2 * m → settled_on m b (a :: w) → verdict (a :: w) = None → settled_on m b (w ++ [x]).
Proof.
  intros Hl Hs Hv. unfold verdict in Hv. pose proof (count_sum (a :: w)).
  unfold settled_on in *. rewrite count_true_app, last_snoc.
  assert (count_true [x] = if x then 1 else 0) as -> by by destruct x.
  destruct (decide (count_true (a :: w) = m)) as [Hm|Hm].
  - rewrite (proj2 (Nat.eqb_eq _ _)) in Hv by lia. change (head (a :: w)) with (Some a) in Hv. cbn iota beta in Hv.
    destruct b; (destruct Hs as [Hs|[_ Hs]]; [lia|]); rewrite Hs in Hv; destruct a; try done;
      rewrite count_true_cons in Hm; destruct x; (left; lia) || (right; split; [lia|done]).
  - rewrite count_true_cons in *. destruct b; (destruct Hs as [Hs|[Hs _]]; [|done]);
      destruct (decide (count_true w + (if x then 1 else 0) = m));
      destruct a, x; (left; lia) || (right; split; [lia|done]).
Qed.

Lemma settled_verdict m b w c :
  length w = 2 * m → settled_on m b w → verdict w = Some c → c = negb b.
Proof.
  intros Hl Hs Hv. assert (count_true w = m) as Hc by (apply verdict_balanced; [done|by rewrite Hv]).
  unfold verdict in Hv. case_match; [|done]. destruct (head w) as [a|]; [|done].
  unfold settled_on in Hs. destruct b; (destruct Hs as [|[_ Hs]]; [lia|]); rewrite Hs in Hv; destruct a; simpl in *; congruence.
Qed.

(** No two events in a row are the same. *)
Fixpoint alternating (prev : option bool) (l : list bool) : Prop :=
  match l with
  | [] => True
  | b :: l' => prev ≠ Some b ∧ alternating (Some b) l'
  end.

Lemma windows_next {A} k (x : A) l :
  0 < k → k ≤ length l → ∃ a w z, take k (x :: l) = a :: w ∧ take k l = w ++ [z].
Proof.
  intros Hk Hl. destruct k as [|k]; [lia|]. exists x, (take k l).
  destruct (lookup_lt_is_Some_2 l k) as [z Hz]; [lia|]. exists z. split; [done|]. by apply take_S_r.
Qed.

Lemma verdicts_alternate m l prev :
  0 < m → (∀ b, prev = Some b → 2 * m ≤ length l → settled_on m b (take (2 * m) l)) →
  alternating prev (omap verdict (windows (2 * m) l)).
Proof.
  intros Hm. revert prev. induction l as [|x l IH]; intros prev Hp; [by rewrite windows_short by (simpl; lia)|].
  rewrite windows_cons. case_decide as Hk; [|done]. cbn [omap list_omap].
  set (w := take (2 * m) (x :: l)).
  assert (length w = 2 * m) as Hw by (unfold w; rewrite length_take; simpl; lia).
  assert (2 * m ≤ length l → ∃ a w' z, w = a :: w' ∧ take (2 * m) l = w' ++ [z]) as Hnext
    by (intros; apply windows_next; lia).
  destruct (verdict w) as [b|] eqn:Ev.
  - split.
    + intros ->. assert (b = negb b) by (eapply settled_verdict; [done| |done]; apply (Hp b); [done|simpl; lia]).
      by destruct b.
    + apply IH. intros b' [= <-] Hl. destruct (Hnext Hl) as (a & w' & z & Hw' & ->). rewrite Hw' in *.
      by eapply verdict_step.
  - apply IH. intros b' -> Hl. destruct (Hnext Hl) as (a & w' & z & Hw' & ->).
    rewrite Hw' in *. eapply settled_step; [done| |done]. rewrite <-Hw'. apply (Hp b'); [done|simpl; lia].
Qed.

Lemma alternating_lookup prev l i a c :
  alternating prev l → l !! i = Some a → l !! S i = Some c → a ≠ c.
Proof.
  revert prev i. induction l as [|x l IH]; intros prev i Hl; [done|]. destruct Hl as [_ Hl].
  destruct i as [|i]; simpl; [|by eapply IH]. intros [= ->]. destruct l as [|y l]; [done|]. intros [= ->]. destruct Hl as [Hn _]. congruence.
Qed.

Lemma windows_lookup_2 {A} k (l : list A) i : i < length l + 1 - k → windows k l !! i = Some (take k (drop i l)).
Proof. intros Hi. unfold windows. by rewrite list_lookup_fmap, lookup_seq_lt. Qed.
Lemma windows_lookup {A} k (l : list A) i w :
  windows k l !! i = Some w → i < length l + 1 - k ∧ w = take k (drop i l).
Proof.
  intros Hw. assert (i < length l + 1 - k) as Hi by (rewrite <-windows_length; by eapply lookup_lt_Some).
  rewrite windows_lookup_2 in Hw by done. by injection Hw as <-.
Qed.

(** The elements with their indices. *)
Lemma lookup_indexed {A} (ws : list A) j : zip (seq 0 (length ws)) ws !! j = (λ w, (j, w)) <$> ws !! j.
Proof.
  rewrite lookup_zip_with. destruct (ws !! j) as [w|] eqn:E.
  - rewrite lookup_seq_lt by (by eapply lookup_lt_Some). done.
  - by destruct (seq 0 (length ws) !! j).
Qed.

Lemma omap_none {A B} (f : A → option B) l : (∀ x, x ∈ l → f x = None) → omap f l = [].
Proof.
  induction l as [|x l IH]; intros Hn; [done|]. cbn [omap list_omap]. rewrite (Hn x) by left. apply IH. intros; apply Hn. by right.
Qed.
Lemma omap_single {A B} (f : A → option B) l i x y :
  l !! i = Some x → f x = Some y → (∀ j x', l !! j = Some x' → j ≠ i → f x' = None) → omap f l = [y].
Proof.
  revert i. induction l as [|x0 l IH]; intros i Hi Hx Hn; [done|]. cbn [omap list_omap]. destruct i as [|i].
  - injection Hi as ->. rewrite Hx. f_equal. apply omap_none. intros z [j Hj]%list_elem_of_lookup. by apply (Hn (S j)).
  - rewrite (Hn 0 x0) by done. apply (IH i); [done..|]. intros j z Hz Hne. apply (Hn (S j)); [done|lia].
Qed.

(** A stretch of a track that changes side once. *)
Lemma replicates_window k i before after (s t : bool) :
  take k (drop i (replicate before s ++ replicate after t)) =
  replicate (k `min` (before - i)) s ++ replicate ((k - (before - i)) `min` (after - (i - before))) t.
Proof.
  rewrite drop_app, !drop_replicate, take_app, !take_replicate, !length_replicate. done.
Qed.
Lemma count_true_replicate n s : count_true (replicate n s) = if s then n else 0.
Proof. induction n as [|n IH]; [by destruct s|]. cbn [replicate]. rewrite count_true_cons, IH. by destruct s. Qed.
Lemma verdict_replicates x y s :
  0 < x + y → verdict (replicate x s ++ replicate y (negb s)) = if bool_decide (x = y) then Some (negb s) else None.
Proof.
  intros Hp. unfold verdict.
  pose proof (count_sum (replicate x s ++ replicate y (negb s))) as Hc.
  rewrite length_app, !length_replicate in Hc.
  assert (count_true (replicate x s ++ replicate y (negb s)) = if s then x else y) as Ht
    by (rewrite count_true_app, !count_true_replicate; destruct s; simpl; lia).
  case_bool_decide as Hx.
  - rewrite (proj2 (Nat.eqb_eq _ _)) by (rewrite Ht in *; destruct s; lia). subst y. destruct x as [|x]; [lia|].
    rewrite (replicate_S_end x (negb s)), app_assoc, last_snoc. cbn. by destruct s.
  - rewrite (proj2 (Nat.eqb_neq _ _)) by (rewrite Ht in *; destruct s; lia). done.
Qed.

(** ** Region events *)
Section roi_events.
Context {P : Type} `{Polygons P} (mode : string) (calibration : CalibrationType).
Context (m : nat) (b : Schema.Behavior Moves) (interval : float) (g : SensorGeometry P) (obj_id : string).

(** Whether a location is in the region. *)
Definition in_roi (z : Point2D * option Bbox) : bool :=
  match z.2 with
  | Some bbox => if bbox_mode_enabled mode calibration then bbox_overlaps_polygon bbox g obj_id z.1
                 else point_in_polygon z.1 g obj_id
  | None => point_in_polygon z.1 g obj_id
  end.

Lemma roi_positions zs : positions_of (ROIEvent mode calibration) g obj_id zs = Ok (in_roi <$> zs).
Proof. unfold positions_of. induction zs as [|z zs IH]; [done|]. cbn [result_map]. by rewrite IH. Qed.

(** What an event says of its stretch. *)
Definition event_row (e : EventBehavior) : list Point2D * string * string :=
  (ev_locations e, ev_description e, ev_type e).
Definition stretch_row (iw : nat * list (Point2D * option Bbox)) : option (list Point2D * string * string) :=
  (λ into, (iw.2.*1, "index = " +:+ str_Z (Z.of_nat iw.1), if into : bool then "ENTRY" else "EXIT")) <$>
    verdict (in_roi <$> iw.2).

Lemma roi_crosses_ends z w final :
  last (z :: w) = Some final →
  roi_crosses mode calibration (z :: w).*1 g obj_id (z :: w).*2 = Ok (negb (eqb (in_roi z) (in_roi final))).
Proof.
  intros Hl. unfold roi_crosses, ends. rewrite !fmap_last, Hl. done.
Qed.

Lemma roi_tracklet_rows idx ws evs :
  Forall (λ w, w ≠ []) ws →
  tracklet_events (ROIEvent mode calibration) m b interval g obj_id idx
    ((λ w : list (Point2D * option Bbox), w.*1) <$> ws) ((λ w : list (Point2D * option Bbox), w.*2) <$> ws)
    ((λ w : list (Point2D * option Bbox), in_roi <$> w) <$> ws) = Ok evs →
  event_row <$> evs = omap stretch_row (zip (seq idx (length ws)) ws).
Proof.
  intros Hne. revert idx evs. induction Hne as [|w ws Hw _ IH]; intros idx evs; [by intros [= <-]|].
  cbn [fmap list_fmap tracklet_events length seq zip zip_with omap list_omap].
  intros (e & He & (rest & Hr & [= <-])%result_bind_Ok)%result_bind_Ok. apply IH in Hr.
  destruct w as [|z w]; [done|]. destruct (last (z :: w)) as [final|] eqn:El; [|by apply last_None in El].
  unfold tracklet_event in He. cbn [crosses ROIEvent] in He. rewrite (roi_crosses_ends z w final El) in He.
  unfold stretch_row at 1, verdict. cbn [fst snd]. rewrite fmap_last, El.
  cbn [mbind result_bind fmap list_fmap head option_fmap option_map] in *.
  destruct (_ =? _); [rewrite andb_true_r in He|rewrite andb_false_r in He; by injection He as [= <-]].
  destruct (eqb (in_roi z) (in_roi final)) eqn:Ez; [by injection He as [= <-]|].
  cbn [negb] in He. 
  apply result_bind_Ok in He as (starts & [= <-] & (e' & He' & [= <-])%result_bind_Ok). cbn [fmap list_fmap]. rewrite Hr. f_equal.
  apply result_bind_Ok in He' as (t1 & _ & (t2 & _ & [= <-])%result_bind_Ok).
  unfold event_row. cbn [ev_locations ev_description ev_type dir_out dir_in ROIEvent].
  by destruct (in_roi z), (in_roi final).
Qed.

(** The events of one region, by the stretches of the points. *)
Lemma roi_object_rows evs :
  object_events (ROIEvent mode calibration) m b interval g obj_id = Ok evs →
  0 < m →
  ∃ zs, located b = Ok zs ∧
    event_row <$> evs = omap stretch_row (zip (seq 0 (length (windows (m * 2) zs))) (windows (m * 2) zs)).
Proof.
  intros (zs & Hz & (ps & Hp & He)%result_bind_Ok)%result_bind_Ok Hm. exists zs. split; [done|].
  rewrite roi_positions in Hp. injection Hp as <-. rewrite !windows_fmap in He.
  apply roi_tracklet_rows in He; [done|]. apply Forall_lookup. intros i w Hw.
  apply windows_lookup in Hw as [Hi ->]. intros Hnil%(f_equal length).
  rewrite length_take, length_drop in Hnil. simpl in Hnil. lia.
Qed.

(** The kinds of the events are the verdicts on the stretches. *)
Lemma rows_verdicts idx ws :
  snd <$> omap stretch_row (zip (seq idx (length ws)) ws) =
  (λ into : bool, if into then "ENTRY" else "EXIT") <$>
    omap verdict ((λ w : list (Point2D * option Bbox), in_roi <$> w) <$> ws).
Proof.
  revert idx. induction ws as [|w ws IH]; intros idx; [done|].
  cbn [length seq zip zip_with fmap list_fmap omap list_omap]. unfold stretch_row at 1. cbn [fst snd].
  destruct (verdict _); cbn [fmap option_fmap option_map list_fmap]; [by rewrite IH|apply IH].
Qed.

(** C20. The events a track has with a region alternate: between two entries there
    is an exit and between two exits an entry, whatever the track does on the
    region's boundary, since a stretch is reported only when it lies half in and
    half out. *)
Theorem roi_events_alternate evs i e1 e2 :
  1 ≤ m → object_events (ROIEvent mode calibration) m b interval g obj_id = Ok evs →
  evs !! i = Some e1 → evs !! S i = Some e2 → ev_type e1 ≠ ev_type e2.
Proof.
  intros Hm He H1 H2. apply roi_object_rows in He as (zs & _ & Hr); [|lia].
  apply (f_equal (fmap snd)) in Hr. rewrite rows_verdicts, <-windows_fmap, <-list_fmap_compose, Nat.mul_comm in Hr.
  apply (f_equal (lookup i)) in Hr as Hi. apply (f_equal (lookup (S i))) in Hr as Hj.
  rewrite !list_lookup_fmap, H1 in Hi. rewrite !list_lookup_fmap, H2 in Hj. cbn in Hi, Hj.
  assert (alternating None (omap verdict (windows (2 * m) (in_roi <$> zs)))) as Ha
    by (apply verdicts_alternate; [lia|done]).
  destruct (omap verdict _ !! i) as [v1|] eqn:E1; [|done]. destruct (omap verdict _ !! S i) as [v2|] eqn:E2; [|done].
  assert (v1 ≠ v2) by (by eapply alternating_lookup).
  injection Hi as ->. injection Hj as ->. by destruct v1, v2.
Qed.

(** A track that stays on one side of a region for half a stretch or more and
    then changes to the other for as long or longer makes one event, the entry or
    exit it is, at the stretch that has the change in its middle. *)
Theorem clean_crossing evs zs s before after :
  1 ≤ m → m ≤ before → m ≤ after →
  located b = Ok zs → in_roi <$> zs = replicate before s ++ replicate after (negb s) →
  object_events (ROIEvent mode calibration) m b interval g obj_id = Ok evs →
  event_row <$> evs =
    [(take (m * 2) (drop (before - m) zs.*1), "index = " +:+ str_Z (Z.of_nat (before - m)),
      if s then "EXIT" else "ENTRY")].
Proof.
  intros Hm Hb Ha Hz Hs He. apply roi_object_rows in He as (zs' & Hz' & ->); [|lia].
  rewrite Hz in Hz'. injection Hz' as <-.
  apply (f_equal length) in Hs as Hl. rewrite length_fmap, length_app, !length_replicate in Hl.
  apply (omap_single _ _ (before - m) (before - m, take (m * 2) (drop (before - m) zs))).
  - rewrite lookup_indexed, windows_lookup_2 by lia. done.
  - unfold stretch_row. cbn [fst snd]. rewrite !fmap_take, !fmap_drop, Hs, replicates_window, verdict_replicates by lia.
    rewrite bool_decide_true by lia. by destruct s.
  - intros j [j' w] Hj Hne. rewrite lookup_indexed in Hj.
    destruct (windows _ _ !! j) eqn:Hw; [|done]. cbn in Hj. injection Hj as <- ->.
    apply windows_lookup in Hw as [Hlt ->]. unfold stretch_row. cbn [fst snd].
    rewrite !fmap_take, !fmap_drop, Hs, replicates_window, verdict_replicates by lia. by rewrite bool_decide_false by lia.
Qed.
End roi_events.

(** ** Witnesses *)

(** A track that arrives in three batches; stretches of four points *)
Definition obs_at (x : Z) : obs := mk_obs (x * 1000000) (mk_Coordinate (Z2f x) f0 f0) (mk_Bbox f0 f0 f0 f0).
Definition batch_state (xs : list Z) : ObjectState :=
  let os := obs_at <$> xs in
  new_object_state "cam #-# 7" (default (obs_at 0) (head os)) (default (obs_at 0) (last os)) os 3.
Definition next_trip (ns : ObjectState) (st : ObjectState) : result ObjectState * ObjectState :=
  update_existing sum_left (cfg_ex true) "cam #-# 7" ns [] [] [] 3 st.
Definition st0_ex : ObjectState := batch_state [0; 1]%Z.
Definition new1_ex : ObjectState := batch_state [2]%Z.
Definition new2_ex : ObjectState := batch_state [3; 4; 5]%Z.
Definition trip1_ex : ObjectState := result_out st0_ex (next_trip new1_ex st0_ex).1.
Definition trip2_ex : ObjectState := result_out st0_ex (next_trip new2_ex (next_trip new1_ex st0_ex).2).1.

Lemma trips_cover_once_witness :
  windows 4 (concat (os_points <$> [st0_ex; new1_ex; new2_ex])) =
  concat (windows 4 <$> (os_points <$> [st0_ex; trip1_ex; trip2_ex])).
Proof.
  apply (trips_cover_once sum_left (cfg_ex true) 2 "cam #-# 7" (obs_at 0) (obs_at 1) [obs_at 0; obs_at 1]
           [new1_ex; new2_ex] [trip1_ex; trip2_ex]); [lia|].
  eapply (cont_step _ _ _ _ "cam #-# 7" new1_ex [] [] []); [vm_compute; reflexivity|].
  eapply (cont_step _ _ _ _ "cam #-# 7" new2_ex [] [] []); [vm_compute; reflexivity|]. apply cont_nil.
Defined.

(** A region that is a rectangle, with the box itself as matplotlib's polygon *)
#[export] Instance rectangles : Polygons Bbox := {|
  path_nonempty := λ _, true;
  contains_point := λ r q,
    fle (leftX r) (px q) && fle (px q) (rightX r) && fle (topY r) (py q) && fle (py q) (bottomY r);
  intersects_bbox := λ r o,
    fle (leftX r) (rightX o) && fle (leftX o) (rightX r) && fle (topY r) (bottomY o) && fle (topY o) (bottomY r);
|}.
Definition hall_roi : Bbox := mk_Bbox (Z2f 0) (Z2f 0) (Z2f 10) (Z2f 10).
Definition hall : SensorGeometry Bbox := mk_SensorGeometry ["roi"] [("roi", hall_roi)] [].
Definition walk (xs : list Z) : Schema.Behavior Moves :=
  mk_Behavior "cam #-# 7" 0 (Z.of_nat (length xs) * 1000000) (Z2f (Z.of_nat (length xs) - 1)) [] [] (length xs)
    (mk_Moves ((λ x, [Z2f x; Z2f 5]) <$> xs) (Z2f (Z.of_nat (length xs))) f0 [] f0 "") (mk_Sensor "cam")
    (ob_ex "7" 0) "hall" None "".
(** In, out, wavering on the boundary, and in again *)
Definition wavering : list Z := [-3; -2; 1; 2; 3; 12; 13; 9; 12; 9; 8; 7]%Z.
Definition wavering_events : list EventBehavior :=
  result_out [] (object_events (ROIEvent "coordinate" IMAGE) 2 (walk wavering) (Z2f 1) hall "roi").
Example wavering_types : (λ e, (ev_description e, ev_type e)) <$> wavering_events =
  [("index = 0", "ENTRY"); ("index = 3", "EXIT"); ("index = 6", "ENTRY")].
Proof. vm_compute. reflexivity. Qed.

Definition wavering_event (i : nat) : EventBehavior :=
  default (mk_EventBehavior (walk []) f0 0 0 0 f0 "" "" "" "" "" []) (wavering_events !! i).

Lemma roi_events_alternate_witness : ev_type (wavering_event 0) ≠ ev_type (wavering_event 1).
Proof.
  apply (roi_events_alternate "coordinate" IMAGE 2 (walk wavering) (Z2f 1) hall "roi" wavering_events 0);
    [lia|vm_compute; reflexivity..].
Defined.

(** Two points outside, then three inside; and the same by the boxes *)
Definition entering : list Z := [-2; -1; 1; 2; 3]%Z.
Definition entering_events (mode : string) : list EventBehavior :=
  result_out [] (object_events (ROIEvent mode IMAGE) 2 (walk entering) (Z2f 1) hall "roi").
Definition entering_points : list (Point2D * option Bbox) := result_out [] (located (walk entering)).

Lemma clean_crossing_witness :
  event_row <$> entering_events "coordinate" =
    [(take 4 (drop 0 entering_points.*1), "index = 0", "ENTRY")].
Proof.
  apply (clean_crossing "coordinate" IMAGE 2 (walk entering) (Z2f 1) hall "roi" (entering_events "coordinate")
           entering_points false 2 3); [lia..|vm_compute; reflexivity|vm_compute; reflexivity|vm_compute; reflexivity].
Defined.
(** Without a box for each point the box mode tests the points. *)
Example boxes_missing : entering_events "bbox" = entering_events "coordinate".
Proof. vm_compute. reflexivity. Qed.
