(* ===== verification/VideoEmbedding.v ===== *)
(** * Video embeddings (behavior analytics)

    [stream/state/video_embedding]: the two downsamplers and the manager that
    keeps one per sensor. numpy's vectors are lists of binary32 numbers; the
    order in which a dot product adds is a parameter ([dot]). A [VisionLLM] is
    its end in milliseconds, its embeddings and the rest. *)

From Stdlib Require Import ZArith Lia Floats.SpecFloat.
From stdpp Require Import base list strings sets.
From S2P Require Import Prelude PyDict PyFloat PyNumber.
Open Scope string_scope.
Open Scope list_scope.
Open Scope Z_scope.

(** ** numpy's single precision *)
Abbreviation float32 := spec_float.
Definition prec32 : Z := 24.
Definition emax32 : Z := 128.

(** [np.float32(x)], and [float(x)] of a single *)
Definition to32 (x : float) : float32 :=
  match x with S754_finite s m e => binary_round prec32 emax32 s m e | _ => x end.
Definition of32 (x : float32) : float :=
  match x with S754_finite s m e => binary_round prec emax s m e | _ => x end.

Definition fadd32 : float32 → float32 → float32 := SFadd prec32 emax32.
Definition fsub32 : float32 → float32 → float32 := SFsub prec32 emax32.
Definition fmul32 : float32 → float32 → float32 := SFmul prec32 emax32.
Definition fdiv32 : float32 → float32 → float32 := SFdiv prec32 emax32.
Definition fsqrt32 : float32 → float32 := SFsqrt prec32 emax32.

Abbreviation ndarray := (list float32).

(** An operation on two vectors; one of length 1 is broadcast. *)
Definition broadcast (op : float32 → float32 → float32) (v1 v2 : ndarray) : result ndarray :=
  if (length v1 =? length v2)%nat then Ok (zip_with op v1 v2)
  else match v1, v2 with
       | [a], _ => Ok (op a <$> v2)
       | _, [b] => Ok ((λ a, op a b) <$> v1)
       | _, _ => Exn ValueError
       end.

(** ** Messages and configuration *)
Record VisionLLM := mk_VisionLLM {
  ve_end : Z;
  ve_embeddings : list (list float);
  ve_rest : string;
}.

Record VideoEmbeddingConfig := mk_VideoEmbeddingConfig {
  enable_downsampling : bool;
  downsampler_type : string;
  sensor_ttl_sec : Z;
  downsample_tolerance_mode : string;
  downsample_similarity_threshold : float;
  downsample_distance_threshold : float;
  downsample_max_interval_sec : Z;
  downsample_window_size : Z;
  downsample_min_neighbours : Z;
}.

(** A stored point: its time, its normalized vector and its message *)
Record point := mk_point { pt_time : Z; pt_vector : ndarray; pt_record : VisionLLM }.

(** What a cosine similarity returns: Python's 0.0, or a numpy single. *)
Inductive scalar :=
  | PyFloat (x : float)
  | NpFloat32 (x : float32).

(** [s >= t] for a Python float [t], which a numpy single makes a single. *)
Definition scalar_ge (s : scalar) (t : float) : bool :=
  match s with PyFloat x => fle t x | NpFloat32 x => fle (to32 t) x end.

(** ** [EmbeddingDownsampler] *)
Section base.
Context (dot : ndarray → ndarray → float32) (cfg : VideoEmbeddingConfig).

Definition max_interval : Z := downsample_max_interval_sec cfg * 1000.

Definition norm (v : ndarray) : float32 := fsqrt32 (dot v v).
Definition tiny : float32 := to32 (div_ints 1 10000000000).

(** [_normalize] of an array, and of the list of a message *)
Definition normalize32 (v : ndarray) : ndarray :=
  let n := norm v in
  if flt n tiny then v else (λ x, fdiv32 x n) <$> v.
Definition normalize (v : list float) : ndarray := normalize32 (to32 <$> v).

Definition euclidean_distance (v1 v2 : ndarray) : result float :=
  d ← broadcast fsub32 v1 v2;
  Ok (of32 (norm d)).

(** [np.clip(x, -1.0, 1.0)] *)
Definition clip_unit (x : float32) : float32 :=
  let one := to32 (Z2f 1) in
  let minus_one := to32 (Z2f (-1)) in
  if flt x minus_one then minus_one else if flt one x then one else x.

Definition cosine_similarity (v1 v2 : ndarray) : result scalar :=
  if negb (length v1 =? length v2)%nat then Exn ValueError
  else
    let norm_v1 := norm v1 in
    let norm_v2 := norm v2 in
    if flt norm_v1 tiny || flt norm_v2 tiny then Ok (PyFloat f0)
    else Ok (NpFloat32 (clip_unit (fdiv32 (dot v1 v2) (fmul32 norm_v1 norm_v2)))).

(** The threshold attributes: the mode decides which of them exists. *)
Definition distance_threshold : option float :=
  if String.eqb (downsample_tolerance_mode cfg) "cosine" then None else Some (downsample_distance_threshold cfg).
Definition similarity_threshold : option float :=
  if String.eqb (downsample_tolerance_mode cfg) "cosine" then Some (downsample_similarity_threshold cfg) else None.

(** Whether a vector is within tolerance of another. *)
Definition within_tolerance (v1 v2 : ndarray) : result bool :=
  if String.eqb (downsample_tolerance_mode cfg) "distance" then
    distance ← euclidean_distance v1 v2;
    threshold ← require distance_threshold AttributeError;
    Ok (fle distance threshold)
  else
    similarity ← cosine_similarity v1 v2;
    threshold ← require similarity_threshold AttributeError;
    Ok (scalar_ge similarity threshold).

(** ** [SlidingWindowEmbeddingDownsampler] *)
Record WindowState := mk_WindowState { ws_window : list point; ws_last_saved_time : option Z }.

(** [deque(maxlen=n)] raises for a negative length; [append] evicts at the left. *)
Definition new_window : result WindowState :=
  if downsample_window_size cfg <? 0 then Exn ValueError else Ok (mk_WindowState [] None).
Definition window_append (p : point) (w : list point) : list point :=
  let w' := w ++ [p] in drop (length w' - Z.to_nat (downsample_window_size cfg)) w'.

Fixpoint count_neighbours (recent : list point) (v : ndarray) (num_neighbours : Z) : result Z :=
  match recent with
  | [] => Ok num_neighbours
  | p :: recent' =>
      similar ← within_tolerance v (pt_vector p);
      if (similar : bool) then
        if num_neighbours + 1 =? downsample_min_neighbours cfg then Ok (num_neighbours + 1)
        else count_neighbours recent' v (num_neighbours + 1)
      else Ok num_neighbours
  end.

Definition window_should_save (v : ndarray) (w : list point) : result bool :=
  num_neighbours ← count_neighbours (reverse w) v 0;
  Ok (num_neighbours <? downsample_min_neighbours cfg).

(** A last saved time of zero counts as none. *)
Definition window_due (timestamp : Z) (s : WindowState) : bool :=
  match ws_window s with
  | [] => true
  | _ :: _ =>
      negb (max_interval =? 0) &&
      match ws_last_saved_time s with
      | Some t => negb (t =? 0) && (max_interval <=? timestamp - t)
      | None => false
      end
  end.

Definition window_step (m : VisionLLM) : stM WindowState (list VisionLLM) := λ s,
  match ve_embeddings m with
  | [] => (Ok [], s)
  | vector :: _ =>
      let embedding_vector := normalize vector in
      let timestamp := ve_end m in
      let window' := window_append (mk_point timestamp embedding_vector m) (ws_window s) in
      let save := (Ok [m], mk_WindowState window' (Some timestamp)) in
      if window_due timestamp s then save
      else match window_should_save embedding_vector (ws_window s) with
           | Ok true => save
           | Ok false => (Ok [], mk_WindowState window' (ws_last_saved_time s))
           | Exn e => (Exn e, s)
           end
  end.

(** ** [SDTEmbeddingDownsampler] *)
Record SDTState := mk_SDTState { anchor : option point; candidate : option point }.
Definition new_sdt : SDTState := mk_SDTState None None.

(** [a / b] of ints; the quotient of zero and a negative number is -0.0. *)
Definition int_div (a b : Z) : result float :=
  match b with
  | Z0 => Exn ZeroDivisionError
  | Zpos p => true_div a p
  | Zneg p => if a =? 0 then Ok (fopp f0) else true_div (- a) p
  end.

(** Where the candidate should be, on the line from the anchor to the new point *)
Definition expected_vector (a c : point) (timestamp : Z) (v : ndarray) : result ndarray :=
  if timestamp =? pt_time a then Ok v
  else
    alpha ← int_div (pt_time c - pt_time a) (timestamp - pt_time a);
    difference ← broadcast fsub32 v (pt_vector a);
    interpolated ← broadcast fadd32 (pt_vector a) (fmul32 (to32 alpha) <$> difference);
    Ok (normalize32 interpolated).

Definition sdt_step (m : VisionLLM) : stM SDTState (list VisionLLM) := λ s,
  match ve_embeddings m with
  | [] => (Ok [], s)
  | vector :: _ =>
      let embedding_vector := normalize vector in
      let timestamp := ve_end m in
      let new := mk_point timestamp embedding_vector m in
      match anchor s, candidate s with
      | None, _ => (Ok [m], mk_SDTState (Some new) (candidate s))
      | Some a, None => (Ok [], mk_SDTState (Some a) (Some new))
      | Some a, Some c =>
          let save := (Ok [pt_record c], mk_SDTState (Some c) (Some new)) in
          if negb (max_interval =? 0) && (max_interval <=? timestamp - pt_time a) then save
          else
            match (expected_v ← expected_vector a c timestamp embedding_vector;
                   within_tolerance (pt_vector c) expected_v) with
            | Ok true => (Ok [], mk_SDTState (Some a) (Some new))
            | Ok false => save
            | Exn e => (Exn e, s)
            end
      end
  end.

Definition sdt_force_save (s : SDTState) : option VisionLLM * SDTState :=
  match candidate s with
  | Some c => (Some (pt_record c), mk_SDTState (Some c) None)
  | None => (None, s)
  end.

(** [resample]: the results of the messages in turn; an exception loses the
    results but not the state. *)
Fixpoint resample_with {D} (step : VisionLLM → stM D (list VisionLLM)) (l : list VisionLLM) : stM D (list VisionLLM) :=
  match l with
  | [] => mret []
  | m :: l' => out ← step m; rest ← resample_with step l'; mret (out ++ rest)
  end.
End base.

(** ** [EmbeddingDownsampler], the interface *)
Class EmbeddingDownsampler (D : Type) := {
  new_downsampler : result D;
  resample : list VisionLLM → stM D (list VisionLLM);
  force_save : D → option VisionLLM * D;
}.

(** What the manager may rely on: in its well-formed states a downsampler holds
    back some of what it was given, and gives out or holds, in order and once
    each, what it was given. *)
Class DownsamplerLaws (D : Type) `{EmbeddingDownsampler D} := {
  well_formed : D → Prop;
  held : D → list VisionLLM;
  new_held d : new_downsampler = Ok d → well_formed d ∧ held d = [];
  resample_held l d r d' : well_formed d → resample l d = (r, d') →
    well_formed d' ∧ match r with Ok out => out | Exn _ => [] end ++ held d' `sublist_of` held d ++ l;
  force_save_held d : well_formed d → well_formed (force_save d).2 ∧
    held d = option_list (force_save d).1 ∧ held (force_save d).2 = [];
}.

(** The two kinds, one of which the configuration chooses. *)
Inductive downsampler := SlidingWindow (s : WindowState) | SDT (s : SDTState).

Definition get_downsampler (cfg : VideoEmbeddingConfig) : result downsampler :=
  if String.eqb (downsampler_type cfg) "window" then s ← new_window cfg; Ok (SlidingWindow s)
  else Ok (SDT new_sdt).

Definition downsampler_resample (dot : ndarray → ndarray → float32) (cfg : VideoEmbeddingConfig)
    (l : list VisionLLM) : stM downsampler (list VisionLLM) := λ d,
  match d with
  | SlidingWindow s => let '(r, s') := resample_with (window_step dot cfg) l s in (r, SlidingWindow s')
  | SDT s => let '(r, s') := resample_with (sdt_step dot cfg) l s in (r, SDT s')
  end.

Definition downsampler_force_save (d : downsampler) : option VisionLLM * downsampler :=
  match d with
  | SlidingWindow _ => (None, d)
  | SDT s => let '(r, s') := sdt_force_save s in (r, SDT s')
  end.

#[export] Instance configured_downsampler dot cfg : EmbeddingDownsampler downsampler := {|
  new_downsampler := get_downsampler cfg;
  resample := downsampler_resample dot cfg;
  force_save := downsampler_force_save;
|}.

(** ** [VideoEmbeddingStateMgmt] *)
Section manager.
Context {D : Type} {ED : EmbeddingDownsampler D} (cfg : VideoEmbeddingConfig).

Record VideoEmbeddingStateMgmt := mk_VideoEmbeddingStateMgmt {
  downsamplers : dict string D;
  sensor_last_updated : dict string Z;
}.
Definition new_VideoEmbeddingStateMgmt : VideoEmbeddingStateMgmt := mk_VideoEmbeddingStateMgmt [] [].

Definition has_embeddings (m : VisionLLM) : bool := match ve_embeddings m with [] => false | _ => true end.

(** The defaultdict enters a new downsampler before anything is resampled. *)
Definition downsample (sensor_id : string) (video_embeddings : list VisionLLM)
    : stM VideoEmbeddingStateMgmt (list VisionLLM) := λ s,
  match (match dget (downsamplers s) sensor_id with Some d => Ok d | None => new_downsampler end) with
  | Exn e => (Exn e, s)
  | Ok d =>
      let '(r, d') := match filter has_embeddings video_embeddings with
                      | [] => (Ok [], d)
                      | l => resample l d
                      end in
      (r, mk_VideoEmbeddingStateMgmt (dset (downsamplers s) sensor_id d') (sensor_last_updated s))
  end.

Definition manage_sensors (sensor_id : string) (curr_time_sec : Z) (s : VideoEmbeddingStateMgmt)
    : VideoEmbeddingStateMgmt :=
  let updated := dset (sensor_last_updated s) sensor_id curr_time_sec in
  let to_purge := (filter (λ e, sensor_ttl_sec cfg < curr_time_sec - e.2) updated).*1 in
  mk_VideoEmbeddingStateMgmt (foldl (λ d s_id, ddel d s_id) (downsamplers s) to_purge)
    (foldl (λ d s_id, ddel d s_id) updated to_purge).

Definition update_video_embeddings (sensor_id : string) (video_embeddings : list VisionLLM) (curr_time_sec : Z)
    : stM VideoEmbeddingStateMgmt (list VisionLLM) :=
  if negb (enable_downsampling cfg) then mret video_embeddings
  else
    out ← downsample sensor_id video_embeddings;
    _ ← smod (manage_sensors sensor_id curr_time_sec);
    mret out.

Definition get_pending_video_embeddings : stM VideoEmbeddingStateMgmt (list VisionLLM) := λ s,
  if enable_downsampling cfg then
    (Ok (omap (λ d, (force_save d).1) (dvals (downsamplers s))),
     mk_VideoEmbeddingStateMgmt (dmap (λ d, (force_save d).2) (downsamplers s)) (sensor_last_updated s))
  else (Ok [], s).
End manager.

(** ** Downsamplers keep a subsequence *)
Lemma resample_with_held {D} (step : VisionLLM → stM D (list VisionLLM)) (wf : D → Prop) (held : D → list VisionLLM) :
  (∀ m d r d', wf d → step m d = (r, d') → match r with
     | Ok out => wf d' ∧ out ++ held d' `sublist_of` held d ++ [m]
     | Exn _ => d' = d
     end) →
  ∀ l d r d', wf d → resample_with step l d = (r, d') →
    wf d' ∧ match r with Ok out => out | Exn _ => [] end ++ held d' `sublist_of` held d ++ l.
Proof.
  intros Hs l. induction l as [|m l IH]; intros d r d' Hd; cbn [resample_with].
  - intros [= <- <-]. by rewrite app_nil_r.
  - unfold mbind, stM_bind. destruct (step m d) as [[out|e] d1] eqn:E; apply (Hs _ _ _ _ Hd) in E.
    + destruct E as [Hd1 E]. destruct (resample_with step l d1) as [[rest|e] d2] eqn:E2; intros [= <- <-];
        destruct (IH _ _ _ Hd1 E2) as [Hd2 E3]; (split; [done|]); rewrite (cons_middle m), app_assoc.
      * rewrite <-app_assoc. etrans; [by apply sublist_app|]. rewrite app_assoc. by apply sublist_app.
      * simpl in E3 |- *. etrans; [done|]. apply sublist_app; [|done]. etrans; [|done]. by apply sublist_inserts_l.
    + cbn in E. subst d1. intros [= <- <-]. split; [done|]. simpl. by apply sublist_inserts_r.
Qed.

Section laws.
Context (dot : ndarray → ndarray → float32) (cfg : VideoEmbeddingConfig).

Lemma window_step_held m s r s' :
  True → window_step dot cfg m s = (r, s') →
  match r with
  | Ok out => True ∧ out ++ [] `sublist_of` [] ++ [m]
  | Exn _ => s' = s
  end.
Proof.
  unfold window_step. destruct (ve_embeddings m) as [|v vs]; [intros _ [= <- <-]; split; [done|apply sublist_nil_l]|].
  destruct (window_due _ _ _); [intros _ [= <- <-]; done|].
  destruct (window_should_save _ _ _ _) as [[]|e]; intros _ [= <- <-]; try done. split; [done|apply sublist_nil_l].
Qed.

(** There is a candidate only after an anchor. *)
Definition sdt_well_formed (s : SDTState) : Prop := is_Some (candidate s) → is_Some (anchor s).
Definition sdt_held (s : SDTState) : list VisionLLM := option_list (pt_record <$> candidate s).

Lemma sdt_step_held m s r s' :
  sdt_well_formed s → sdt_step dot cfg m s = (r, s') →
  match r with
  | Ok out => sdt_well_formed s' ∧ out ++ sdt_held s' `sublist_of` sdt_held s ++ [m]
  | Exn _ => s' = s
  end.
Proof.
  unfold sdt_step, sdt_held, sdt_well_formed. intros Hw.
  destruct (ve_embeddings m) as [|v vs]; [intros [= <- <-]; split; [done|by apply sublist_inserts_r]|].
  destruct (anchor s) as [a|], (candidate s) as [c|] eqn:Ec; try (by destruct (Hw ltac:(done)));
    try (intros [= <- <-]; rewrite ?Ec; by simpl).
  cbv zeta. case_match; [by intros [= <- <-]|].
  match goal with |- context [match ?x with Ok _ => _ | Exn _ => _ end] => destruct x as [[]|e] end;
    intros [= <- <-]; [|done..]. split; [done|]. by apply sublist_inserts_l.
Qed.

#[export] Program Instance configured_laws : DownsamplerLaws (H := configured_downsampler dot cfg) downsampler := {|
  well_formed := λ d, match d with SlidingWindow _ => True | SDT s => sdt_well_formed s end;
  held := λ d, match d with SlidingWindow _ => [] | SDT s => sdt_held s end;
|}.
Next Obligation.
  intros d. cbn. unfold get_downsampler. case_match; [|by intros [= <-]; split; [intros []|]].
  by intros (s & _ & [= <-])%result_bind_Ok.
Qed.
Next Obligation.
  intros l [s|s] r d' Hw; cbn; destruct (resample_with _ _ _) as [r' s'] eqn:E; intros [= <- <-].
  - by apply (resample_with_held _ (λ _, True) (λ _, []) window_step_held) in E.
  - by apply (resample_with_held _ _ _ sdt_step_held) in E.
Qed.
Next Obligation.
  intros [s|s] Hw; cbn; [done|]. unfold sdt_force_save, sdt_held, sdt_well_formed in *.
  destruct (candidate s) eqn:E; simpl; rewrite ?E; (split; [by try intros []|done]).
Qed.
End laws.

(** ** The manager over any lawful downsampler *)
Section manager_laws.
Context {D : Type} {ED : EmbeddingDownsampler D} {DL : DownsamplerLaws D} (cfg : VideoEmbeddingConfig).

(** A call of [update_video_embeddings]: the sensor, its messages and the clock *)
Definition call : Type := string * list VisionLLM * Z.

(** A sequence of calls, with what each returned; nothing when it raised. *)
Fixpoint run (calls : list call) (s : VideoEmbeddingStateMgmt) : list (string * list VisionLLM) * VideoEmbeddingStateMgmt :=
  match calls with
  | [] => ([], s)
  | (sensor_id, l, now) :: calls' =>
      let '(r, s1) := update_video_embeddings cfg sensor_id l now s in
      let '(outs, s2) := run calls' s1 in
      ((sensor_id, match r with Ok out => out | Exn _ => [] end) :: outs, s2)
  end.

(** What the downsampler of a sensor holds back *)
Definition held_of (s : VideoEmbeddingStateMgmt) (k : string) : list VisionLLM :=
  match dget (downsamplers s) k with Some d => held d | None => [] end.

Record manager_ok (s : VideoEmbeddingStateMgmt) : Prop := {
  downsamplers_unique : dict_wf (downsamplers s);
  last_updated_unique : dict_wf (sensor_last_updated s);
  downsamplers_wf k d : dget (downsamplers s) k = Some d → well_formed d;
}.

Lemma new_manager_ok : manager_ok new_VideoEmbeddingStateMgmt.
Proof. split; [constructor..|done]. Qed.

Lemma expired_key {V} (P : string * V → Prop) `{∀ e, Decision (P e)} (d : dict string V) j :
  dict_wf d → j ∈ (filter P d).*1 ↔ ∃ v, dget d j = Some v ∧ P (j, v).
Proof.
  intros Hd. rewrite list_elem_of_fmap. split.
  - intros ([j' v] & -> & [Hp Hv]%list_elem_of_filter). exists v. split; [|done]. by apply elem_dget.
  - intros (v & Hv & Hp). exists (j, v). split; [done|]. apply list_elem_of_filter. split; [done|]. by apply dget_elem.
Qed.

Lemma downsample_spec k l s r s' :
  manager_ok s → downsample k l s = (r, s') →
  manager_ok s' ∧ sensor_last_updated s' = sensor_last_updated s ∧
  (∀ j, j ≠ k → dget (downsamplers s') j = dget (downsamplers s) j) ∧
  (∀ out, r = Ok out → is_Some (dget (downsamplers s') k)) ∧
  match r with Ok out => out | Exn _ => [] end ++ held_of s' k `sublist_of` held_of s k ++ l.
Proof.
  intros [Hu Hl Hw]. unfold downsample, held_of.
  destruct (match dget (downsamplers s) k with Some d => Ok d | None => new_downsampler end) as [d|e] eqn:Ed.
  - assert (well_formed d ∧ held d `sublist_of` held_of s k) as [Hd Hh].
    { unfold held_of. destruct (dget (downsamplers s) k) as [d0|] eqn:E0; [injection Ed as ->; split; [by eapply Hw|done]|].
      apply new_held in Ed as [? ->]. split; [done|apply sublist_nil_l]. }
    destruct (match filter has_embeddings l with [] => (Ok [], d) | l' => resample l' d end) as [r' d'] eqn:Er.
    assert (well_formed d' ∧ match r' with Ok out => out | Exn _ => [] end ++ held d' `sublist_of` held d ++ l) as [Hd' Hr].
    { assert (filter has_embeddings l `sublist_of` l) as Hf by apply sublist_filter.
      destruct (filter has_embeddings l) as [|m l'] eqn:El; [injection Er as <- <-; split; [done|by apply sublist_inserts_r]|].
      apply resample_held in Er as [? Hs]; [|done]. split; [done|]. etrans; [done|]. by apply sublist_app. }
    intros [= <- <-]. cbn [downsamplers sensor_last_updated]. rewrite dget_dset_eq. split_and!; try done.
    + split; cbn [downsamplers sensor_last_updated]; [by apply dict_wf_dset|done|].
      intros j dj. rewrite dget_dset. case_decide; [by intros [= <-]|apply Hw].
    + intros j Hj. by rewrite dget_dset_ne.
    + etrans; [done|]. by apply sublist_app.
  - intros [= <- <-]. split_and!; try done. by apply sublist_inserts_r.
Qed.

(** A purge of the sensors that were not updated for longer than the limit *)
Definition expired (s : VideoEmbeddingStateMgmt (D:=D)) (now : Z) (j : string) : bool :=
  match dget (sensor_last_updated s) j with Some t => bool_decide (sensor_ttl_sec cfg < now - t) | None => false end.

Lemma manage_sensors_spec k now s :
  0 ≤ sensor_ttl_sec cfg → manager_ok s →
  manager_ok (manage_sensors cfg k now s) ∧
  ∀ j, let keep {V} (v : option V) := if bool_decide (j ≠ k) && expired s now j then None else v in
    dget (downsamplers (manage_sensors cfg k now s)) j = keep (dget (downsamplers s) j) ∧
    dget (sensor_last_updated (manage_sensors cfg k now s)) j =
      if decide (k = j) then Some now else keep (dget (sensor_last_updated s) j).
Proof.
  intros Httl [Hu Hl Hw].
  assert (∀ j, j ∈ (filter (λ e, sensor_ttl_sec cfg < now - e.2) (dset (sensor_last_updated s) k now)).*1 ↔
            bool_decide (j ≠ k) && expired s now j = true) as Hk.
  { intros j. rewrite expired_key by by apply dict_wf_dset. rewrite dget_dset. unfold expired. case_decide as Hj.
    - subst. rewrite bool_decide_false by auto. split; [|done]. intros (v & [= <-] & Hv). simpl in Hv. lia.
    - rewrite bool_decide_true by done. destruct (dget _ j) as [t|]; simpl.
      + rewrite bool_decide_eq_true. split; [by intros (v & [= <-] & Hv)|eauto].
      + split; [by intros (v & ? & _)|done]. }
  split.
  - split; unfold manage_sensors; cbn [downsamplers sensor_last_updated].
    + by apply dict_wf_foldl_ddel.
    + by apply dict_wf_foldl_ddel, dict_wf_dset.
    + intros j d. rewrite dget_foldl_ddel. case_decide; [done|apply Hw].
  - intros j keep. subst keep. unfold manage_sensors. cbn [downsamplers sensor_last_updated].
    rewrite !dget_foldl_ddel, dget_dset.
    specialize (Hk j). destruct (bool_decide (j ≠ k) && expired s now j) eqn:Ek.
    + rewrite !decide_True by by apply Hk. split; [done|].
      assert (j ≠ k) as Hj by (intros ->; by rewrite bool_decide_false in Ek by auto). by destruct (decide (k = j)).
    + rewrite !decide_False by (intros Hd; by apply Hk in Hd). done.
Qed.

Lemma update_spec k l now s r s' :
  0 ≤ sensor_ttl_sec cfg → manager_ok s → enable_downsampling cfg = true →
  update_video_embeddings cfg k l now s = (r, s') →
  manager_ok s' ∧ ∃ s1, downsample k l s = (r, s1) ∧
    s' = match r with Ok _ => manage_sensors cfg k now s1 | Exn _ => s1 end.
Proof.
  intros Httl Hs He. unfold update_video_embeddings. rewrite He. cbn [negb]. unfold mbind, stM_bind, smod, mret, stM_ret.
  destruct (downsample k l s) as [[out|e] s1] eqn:E; intros [= <- <-]; apply downsample_spec in E as E'; try done;
    destruct E' as [Hs1 _]; (split; [|by eexists]); [by apply manage_sensors_spec|done].
Qed.

(** A sensor loses what it holds only to a purge, and gains only what it was given. *)
Lemma update_held k l now s r s' j :
  0 ≤ sensor_ttl_sec cfg → manager_ok s → enable_downsampling cfg = true →
  update_video_embeddings cfg k l now s = (r, s') →
  (if decide (k = j) then match r with Ok out => out | Exn _ => [] end else []) ++ held_of s' j
    `sublist_of` held_of s j ++ (if decide (k = j) then l else []).
Proof.
  intros Httl Hs He (_ & s1 & Hd & ->)%update_spec; try done.
  apply downsample_spec in Hd as (Hs1 & Hl1 & Hother & Hsome & Hsub); [|done].
  assert (held_of (match r with Ok _ => manage_sensors cfg k now s1 | Exn _ => s1 end) j `sublist_of` held_of s1 j) as Hm.
  { destruct r as [out|e]; [|done]. unfold held_of.
    destruct (manage_sensors_spec k now s1 Httl Hs1) as [_ Hk]. destruct (Hk j) as [-> _].
    destruct (_ && _); [apply sublist_nil_l|done]. }
  case_decide as Hj.
  - subst j. etrans; [|done]. by apply sublist_app.
  - rewrite app_nil_r. simpl. etrans; [done|]. unfold held_of. by rewrite Hother by congruence.
Qed.

(** What a sensor was given and gave out over a sequence of calls *)
Definition given_to (k : string) (calls : list call) : list VisionLLM :=
  concat ((λ c, if decide (c.1.1 = k) then c.1.2 else []) <$> calls).
Definition got_from (k : string) (outs : list (string * list VisionLLM)) : list VisionLLM :=
  concat ((λ o, if decide (o.1 = k) then o.2 else []) <$> outs).

Lemma run_held calls s outs s' k :
  0 ≤ sensor_ttl_sec cfg → manager_ok s → enable_downsampling cfg = true → run calls s = (outs, s') →
  manager_ok s' ∧ got_from k outs ++ held_of s' k `sublist_of` held_of s k ++ given_to k calls.
Proof.
  intros Httl Hs He. revert s Hs outs. induction calls as [|[[sid l] now] calls IH]; intros s Hs outs; cbn [run].
  - intros [= <- <-]. split; [done|]. by rewrite app_nil_r.
  - destruct (update_video_embeddings cfg sid l now s) as [r s1] eqn:E1.
    destruct (run calls s1) as [outs' s2] eqn:E2. intros [= <- <-].
    pose proof (update_held _ _ _ _ _ _ k Httl Hs He E1) as H1. apply update_spec in E1 as [Hs1 _]; try done.
    apply (IH _ Hs1) in E2 as [Hs2 H2]. split; [done|].
    unfold got_from, given_to in *. cbn [fmap list_fmap concat fst snd].
    rewrite <-app_assoc. etrans; [by apply sublist_app|]. rewrite !app_assoc. by apply sublist_app.
Qed.

(** Whatever the calls, what a sensor's messages give out, with what is still
    held back for it, is a subsequence of the messages it was given: in their
    order, none twice and none from another sensor; and flushing at shutdown
    gives out exactly what is held back, sensor by sensor. *)
Theorem stream_subsequence calls outs s :
  0 ≤ sensor_ttl_sec cfg → enable_downsampling cfg = true →
  run calls new_VideoEmbeddingStateMgmt = (outs, s) →
  (∀ k, got_from k outs ++ held_of s k `sublist_of` given_to k calls) ∧
  (get_pending_video_embeddings cfg s).1 = Ok (concat (held_of s <$> dkeys (downsamplers s))).
Proof.
  intros Httl He Hr. split; [intros k; by destruct (run_held _ _ _ _ k Httl new_manager_ok He Hr)|].
  destruct (run_held _ _ _ _ "" Httl new_manager_ok He Hr) as [[Hu _ Hw] _].
  unfold get_pending_video_embeddings. rewrite He. cbn [fst]. f_equal.
  assert (∀ d, (∀ k v, (k, v) ∈ d → dget (downsamplers s) k = Some v) →
    omap (λ v, (force_save v).1) (dvals d) = concat (held_of s <$> dkeys d)) as Hd; [|apply Hd; intros; by apply elem_dget].
  induction d as [|[k v] d IH]; intros Hd; [done|]. unfold dvals, dkeys in *. cbn [fmap list_fmap fst snd concat omap list_omap].
  assert (dget (downsamplers s) k = Some v) as Hk by (apply Hd; by left).
  rewrite <-IH by (intros; apply Hd; by right). unfold held_of at 1. rewrite Hk.
  destruct (force_save_held v) as (_ & -> & _); [by eapply Hw|]. by destruct (force_save v).1.
Qed.

(** An update leaves every other sensor alone, except that it drops those that
    were not updated for longer than the limit, downsampler and timestamp; the
    sensor itself has a downsampler and the present time. *)
Theorem purge_exact k l now s out s' :
  0 ≤ sensor_ttl_sec cfg → manager_ok s → enable_downsampling cfg = true →
  update_video_embeddings cfg k l now s = (Ok out, s') →
  is_Some (dget (downsamplers s') k) ∧ dget (sensor_last_updated s') k = Some now ∧
  ∀ j, j ≠ k →
    dget (downsamplers s') j = (if expired s now j then None else dget (downsamplers s) j) ∧
    dget (sensor_last_updated s') j = if expired s now j then None else dget (sensor_last_updated s) j.
Proof.
  intros Httl Hs He (_ & s1 & Hd & ->)%update_spec; try done.
  apply downsample_spec in Hd as (Hs1 & Hl1 & Hother & Hsome & _); [|done].
  destruct (manage_sensors_spec k now s1 Httl Hs1) as [_ Hm].
  assert (∀ j, expired s1 now j = expired s now j) as Hex by (intros j; unfold expired; by rewrite Hl1).
  split_and!.
  - destruct (Hm k) as [-> _]. rewrite bool_decide_false by auto. by eapply Hsome.
  - destruct (Hm k) as [_ ->]. by rewrite decide_True.
  - intros j Hj. destruct (Hm j) as [-> ->]. rewrite decide_False, bool_decide_true, Hex, Hl1, Hother by done. done.
Qed.
End manager_laws.

(** ** The sliding window: which messages are skipped *)
Section window.
Context (dot : ndarray → ndarray → float32) (cfg : VideoEmbeddingConfig).
Abbreviation similar v := (λ p, within_tolerance dot cfg v (pt_vector p) = Ok true).

(** The last [n] elements *)
Definition recent {A} (n : nat) (l : list A) : list A := drop (length l - n) l.

Lemma recent_push {A} n (l : list A) x : recent n (recent n l ++ [x]) = recent n (l ++ [x]).
Proof.
  unfold recent. rewrite !length_app, length_drop. simpl.
  destruct (decide (length l < n)%nat) as [Hn|Hn].
  - replace (length l - n)%nat with 0%nat by lia. by rewrite drop_0, Nat.sub_0_r.
  - rewrite <-(drop_app_le l [x]) by lia. rewrite drop_drop. f_equal. lia.
Qed.

(** The points of the messages that have embeddings *)
Definition to_point (m : VisionLLM) : option point :=
  match ve_embeddings m with
  | [] => None
  | vector :: _ => Some (mk_point (ve_end m) (normalize dot vector) m)
  end.

Definition window_of (seen : list point) (out : list VisionLLM) : WindowState :=
  mk_WindowState (recent (Z.to_nat (downsample_window_size cfg)) seen) (ve_end <$> last out).

Lemma window_append_recent p seen :
  window_append cfg p (recent (Z.to_nat (downsample_window_size cfg)) seen) =
  recent (Z.to_nat (downsample_window_size cfg)) (seen ++ [p]).
Proof. apply recent_push. Qed.

Lemma window_step_of m seen out r s' :
  window_step dot cfg m (window_of seen out) = (Ok r, s') →
  s' = window_of (seen ++ option_list (to_point m)) (out ++ r).
Proof.
  unfold window_step, to_point. destruct (ve_embeddings m) as [|v vs]; [intros [= <- <-]; by rewrite !app_nil_r|].
  unfold window_of. cbn [ws_window ws_last_saved_time option_list]. cbv zeta. rewrite window_append_recent.
  destruct (window_due _ _ _); [intros [= <- <-]; by rewrite last_snoc|].
  destruct (window_should_save _ _ _ _) as [[]|]; intros [= <- <-]; [by rewrite last_snoc|by rewrite app_nil_r].
Qed.

Lemma window_run l seen out r s' :
  resample_with (window_step dot cfg) l (window_of seen out) = (Ok r, s') →
  s' = window_of (seen ++ omap to_point l) (out ++ r).
Proof.
  revert seen out r. induction l as [|m l IH]; intros seen out r; cbn [resample_with].
  - intros [= <- <-]. cbn [omap list_omap]. by rewrite !app_nil_r.
  - intros (o & s1 & Hm%window_step_of & (rest & s2 & Hr & [= <- <-])%stM_bind_Ok)%stM_bind_Ok. subst s1.
    apply IH in Hr as ->. rewrite <-!app_assoc. f_equal. f_equal. cbn [omap list_omap]. by destruct (to_point m).
Qed.

(** The neighbours counted: a similar one is counted until there are enough, and
    the first that is not similar ends the count. *)
Lemma count_neighbours_spec ps v n k :
  0 ≤ n < downsample_min_neighbours cfg → count_neighbours dot cfg ps v n = Ok k →
  n ≤ k ∧ ((k <? downsample_min_neighbours cfg) = false ↔
    (Z.to_nat (downsample_min_neighbours cfg - n) ≤ length ps)%nat ∧
    Forall (similar v) (take (Z.to_nat (downsample_min_neighbours cfg - n)) ps)).
Proof.
  revert n. induction ps as [|p ps IH]; intros n Hn; cbn [count_neighbours].
  - intros [= <-]. split; [done|]. rewrite Z.ltb_ge. simpl. split; [lia|intros [? _]; lia].
  - intros (b & Hb & Hk)%result_bind_Ok.
    replace (Z.to_nat (downsample_min_neighbours cfg - n)) with (S (Z.to_nat (downsample_min_neighbours cfg - (n + 1)))) by lia.
    cbn [take length]. rewrite Forall_cons. destruct b.
    + case_match eqn:Em; bool_lia.
      * injection Hk as <-. split; [lia|]. rewrite Z.ltb_ge. replace (downsample_min_neighbours cfg - (n + 1)) with 0 by lia.
        split; [intros _; split_and!; [simpl; lia|done|constructor]|lia].
      * apply IH in Hk as [? ->]; [|lia]. split; [lia|]. split; [intros [? ?]; split_and!; [lia|done..]|intros (? & ? & ?); split; [lia|done]].
    + injection Hk as <-. split; [done|]. rewrite Z.ltb_ge. split; [lia|]. intros (_ & Hs & _). by rewrite Hb in Hs.
Qed.

Lemma window_should_save_spec v ps save :
  0 < downsample_min_neighbours cfg → window_should_save dot cfg v ps = Ok save →
  save = false ↔
    (Z.to_nat (downsample_min_neighbours cfg) ≤ length (reverse ps))%nat ∧
    Forall (similar v) (take (Z.to_nat (downsample_min_neighbours cfg)) (reverse ps)).
Proof.
  intros Hn (k & Hk & [= <-])%result_bind_Ok. apply count_neighbours_spec in Hk as [_ Hk]; [|lia].
  by rewrite Z.sub_0_r in Hk.
Qed.

Lemma window_due_spec t s :
  window_due cfg t s = false ↔
    ws_window s ≠ [] ∧
    (max_interval cfg = 0 ∨ ∀ t0, ws_last_saved_time s = Some t0 → t0 = 0 ∨ t - t0 < max_interval cfg).
Proof.
  unfold window_due. destruct (ws_window s); [by split; [|intros []]|].
  rewrite andb_false_iff, negb_false_iff, Z.eqb_eq. destruct (ws_last_saved_time s) as [t0|].
  - rewrite andb_false_iff, negb_false_iff, Z.eqb_eq, Z.leb_gt. naive_solver.
  - naive_solver.
Qed.

(** The sliding window skips a message exactly when it is not the first, the
    last message given out is less than the longest interval ago, and each of the
    required number of messages just before it, all of them within the window, is
    within tolerance of it. *)
Theorem window_skips_exact l out s m vector rest r s' :
  resample_with (window_step dot cfg) l (mk_WindowState [] None) = (Ok out, s) →
  ve_embeddings m = vector :: rest →
  0 < downsample_min_neighbours cfg →
  window_step dot cfg m s = (Ok r, s') →
  let before := take (Z.to_nat (downsample_window_size cfg)) (reverse (omap to_point l)) in
  let needed := Z.to_nat (downsample_min_neighbours cfg) in
  r = [] ↔
    before ≠ [] ∧
    (max_interval cfg = 0 ∨ ∀ m0, last out = Some m0 → ve_end m0 = 0 ∨ ve_end m - ve_end m0 < max_interval cfg) ∧
    (needed ≤ length before)%nat ∧ Forall (similar (normalize dot vector)) (take needed before).
Proof.
  intros Hl Hv Hn Hm before needed. apply (window_run l [] []) in Hl. simpl in Hl. subst s.
  unfold window_step in Hm. rewrite Hv in Hm. cbv zeta in Hm.
  pose proof (window_due_spec (ve_end m) (window_of (omap to_point l) out)) as Hdue.
  cbn [window_of ws_window ws_last_saved_time] in Hdue, Hm.
  assert (reverse (recent (Z.to_nat (downsample_window_size cfg)) (omap to_point l)) = before) as Hb
    by (unfold before; by rewrite take_reverse).
  assert (before ≠ [] ↔ recent (Z.to_nat (downsample_window_size cfg)) (omap to_point l) ≠ []) as Hne
    by (rewrite <-Hb; split; intros Hx Hnil; apply Hx; [by rewrite Hnil|by apply (inj reverse)]).
  assert (∀ P : Z → Prop, (∀ t0, ve_end <$> last out = Some t0 → P t0) ↔ ∀ m0, last out = Some m0 → P (ve_end m0)) as HP
    by (intros P; destruct (last out); naive_solver).
  rewrite Hne, <-(HP (λ t0, t0 = 0 ∨ ve_end m - t0 < max_interval cfg)), (assoc (∧)), <-Hdue.
  destruct (window_due _ _ _); [injection Hm as <- <-; naive_solver|].
  destruct (window_should_save _ _ _ _) as [save|] eqn:Es; [|done].
  apply window_should_save_spec in Es; [|done]. rewrite Hb in Es. unfold needed. rewrite <-Es.
  destruct save; injection Hm as <- <-; naive_solver.
Qed.
End window.

(** ** The swinging door: how far apart the messages given out are *)
Definition consecutive {A} (R : A → A → Prop) (l : list A) : Prop :=
  ∀ i a b, l !! i = Some a → l !! S i = Some b → R a b.

Lemma consecutive_snoc {A} (R : A → A → Prop) l x :
  consecutive R l → (∀ y, last l = Some y → R y x) → consecutive R (l ++ [x]).
Proof.
  intros Hl Hx i a b Ha Hb. destruct (decide (S i < length l)%nat) as [Hi|Hi].
  - rewrite lookup_app_l in Ha, Hb by lia. by eapply Hl.
  - assert (S i = length l) as Hi' by (apply lookup_lt_Some in Hb; rewrite length_app in Hb; simpl in Hb; lia).
    rewrite lookup_app_l in Ha by lia. rewrite Hi', lookup_app_r, Nat.sub_diag in Hb by done. injection Hb as <-.
    apply Hx. rewrite last_lookup. by replace (pred (length l)) with i by lia.
Qed.
Lemma consecutive_mono {A} (R R' : A → A → Prop) l : (∀ a b, R a b → R' a b) → consecutive R l → consecutive R' l.
Proof. intros HR Hl i a b Ha Hb. by apply HR, (Hl i). Qed.

Lemma consecutive_app_l {A} (R : A → A → Prop) l k : consecutive R (l ++ k) → consecutive R l.
Proof. intros Hl i a b Ha Hb. apply (Hl i); by apply lookup_app_l_Some. Qed.
Lemma head_app_ne {A} (l k : list A) : l ≠ [] → head (l ++ k) = head l.
Proof. by destruct l. Qed.

Section swinging_door.
Context (dot : ndarray → ndarray → float32) (cfg : VideoEmbeddingConfig).

(** [b] follows [a] directly in the stream, or less than the longest interval later. *)
Definition near (seen : list VisionLLM) (a b : VisionLLM) : Prop :=
  max_interval cfg = 0 ∨ ve_end b - ve_end a < max_interval cfg ∨ ∃ l1 l2, seen = l1 ++ a :: b :: l2.

Lemma near_snoc seen m a b : near seen a b → near (seen ++ [m]) a b.
Proof.
  intros [?|[?|(l1 & l2 & ->)]]; [by left|by right; left|right; right]. exists l1, (l2 ++ [m]). by rewrite <-app_assoc.
Qed.
Lemma near_last seen m a : last seen = Some a → near (seen ++ [m]) a m.
Proof. intros (l & ->)%last_Some. right; right. exists l, []. by rewrite <-app_assoc. Qed.

(** After the messages [seen], having given out [out] *)
Record sdt_inv (seen out : list VisionLLM) (s : SDTState) : Prop := {
  si_well_formed : sdt_well_formed s;
  si_anchor : pt_record <$> anchor s = last out;
  si_anchor_time a : anchor s = Some a → pt_time a = ve_end (pt_record a);
  si_candidate_time c : candidate s = Some c → pt_time c = ve_end (pt_record c);
  si_last : last (out ++ sdt_held s) = last seen;
  si_head : head out = head seen;
  si_near : consecutive (near seen) (out ++ sdt_held s);
}.

(** A message with embeddings becomes the candidate. *)
Lemma sdt_inv_new_candidate seen out a m v :
  seen ≠ [] → last out = Some (pt_record a) → head out = head seen → consecutive (near seen) out →
  pt_time a = ve_end (pt_record a) → near (seen ++ [m]) (pt_record a) m →
  sdt_inv (seen ++ [m]) out (mk_SDTState (Some a) (Some (mk_point (ve_end m) v m))).
Proof.
  intros Hne Hl Hh Hn Ht Hm. split; unfold sdt_well_formed, sdt_held; cbn; try done.
  - by intros c [= <-].
  - by intros c [= <-].
  - by rewrite !last_snoc.
  - by rewrite Hh, head_app_ne.
  - apply consecutive_snoc.
    + eapply consecutive_mono; [|done]. intros x y. apply near_snoc.
    + by rewrite Hl; intros y [= <-].
Qed.

Lemma sdt_inv_step m seen out s r s' :
  sdt_inv seen out s → sdt_step dot cfg m s = (Ok r, s') →
  sdt_inv (if has_embeddings m then seen ++ [m] else seen) (out ++ r) s'.
Proof.
  intros [Hw Ha Hta Htc Hl Hh Hn]. unfold sdt_step, has_embeddings.
  destruct (ve_embeddings m) as [|v vs]; [intros [= <- <-]; by rewrite app_nil_r|].
  destruct s as [an cand]. unfold sdt_held, sdt_well_formed in *. cbn [anchor candidate] in *.
  destruct an as [a|]; [|destruct cand; [by destruct (Hw ltac:(done))|]].
  - specialize (Hta a eq_refl). cbn in Ha. symmetry in Ha.
    assert (seen ≠ []) as Hne by (intros ->; by destruct out).
    destruct cand as [c|]; cbn in Hl, Hn.
    + assert (sdt_inv (seen ++ [m]) (out ++ [pt_record c])
                (mk_SDTState (Some c) (Some (mk_point (ve_end m) (normalize dot v) m)))) as Hsave.
      { rewrite last_snoc in Hl. apply sdt_inv_new_candidate; try done; [by rewrite last_snoc| |by apply Htc|by apply near_last].
        rewrite head_app_ne; [done|by intros ->]. }
      cbv zeta. destruct (negb _ && _) eqn:Hd; [by intros [= <- <-]|].
      match goal with |- context [match ?x with Ok _ => _ | Exn _ => _ end] => destruct x as [[]|e] end;
        [|by intros [= <- <-]|done]. intros [= <- <-]. rewrite app_nil_r. apply consecutive_app_l in Hn.
      apply sdt_inv_new_candidate; try done. unfold near.
      apply andb_false_iff in Hd as [Hd%negb_false_iff%Z.eqb_eq|Hd%Z.leb_gt]; [by left|right; left; lia].
    + intros [= <- <-]. rewrite app_nil_r in *. apply sdt_inv_new_candidate; try done.
      apply near_last. by rewrite <-Hl.
  - intros [= <- <-]. symmetry in Ha. apply last_None in Ha as ->. cbn in Hl. symmetry in Hl. apply last_None in Hl as ->.
    split; unfold sdt_well_formed, sdt_held; cbn; try done; by first [intros a [= <-]|intros [|i] x y [= <-]].
Qed.

Lemma sdt_run l seen out s r s' :
  sdt_inv seen out s → resample_with (sdt_step dot cfg) l s = (Ok r, s') →
  sdt_inv (seen ++ filter has_embeddings l) (out ++ r) s'.
Proof.
  revert seen out s r. induction l as [|m l IH]; intros seen out s r Hs; cbn [resample_with].
  - intros [= <- <-]. by rewrite !app_nil_r.
  - intros (o & s1 & Hm & (rest & s2 & Hr & [= <- <-])%stM_bind_Ok)%stM_bind_Ok.
    apply (sdt_inv_step _ _ _ _ _ _ Hs) in Hm. apply (IH _ _ _ _ Hm) in Hr. rewrite <-!app_assoc in *.
    rewrite filter_cons. destruct (has_embeddings m); cbn in Hr |- *; by rewrite <-?app_assoc in *.
Qed.

(** C22. The swinging door gives out the first message of a stream, and reaches its
    last one, given out or held back; and each message given out or held back
    follows the one before directly in the stream or within the longest interval. *)
Theorem sdt_covers_stream l out s :
  resample_with (sdt_step dot cfg) l new_sdt = (Ok out, s) →
  let seen := filter has_embeddings l in
  head out = head seen ∧ last (out ++ sdt_held s) = last seen ∧ consecutive (near seen) (out ++ sdt_held s).
Proof.
  intros Hl seen. apply (sdt_run l [] []) in Hl; [by destruct Hl|].
  split; try done. by intros [].
Qed.
End swinging_door.

(** ** Witnesses: two cameras, embeddings in the plane *)
Definition dot_left (v1 v2 : ndarray) : float32 := foldl fadd32 f0 (zip_with fmul32 v1 v2).
Definition config_ex (type : string) (ttl : Z) : VideoEmbeddingConfig :=
  mk_VideoEmbeddingConfig true type ttl "distance" (lit 9 1) (lit 2 1) 60 3 2.
Definition chunk (t x y : Z) : VisionLLM := mk_VisionLLM (t * 1000) [[Z2f x; Z2f y]] "".
Definition ok_of {A} (d : A) (r : result A) : A := match r with Ok a => a | Exn _ => d end.

(** The east three times, then the north, which is kept, and the north again *)
Definition turning : list VisionLLM := [chunk 1 1 0; chunk 2 1 0; chunk 3 1 0; chunk 4 0 1].
Definition window_ex : result (list VisionLLM) * WindowState :=
  resample_with (window_step dot_left (config_ex "window" 5)) turning (mk_WindowState [] None).
Example window_keeps : ve_end <$> ok_of [] window_ex.1 = [1000; 2000; 4000].
Proof. vm_compute. reflexivity. Qed.

(** The third chunk is skipped: the two before it are similar. *)
Definition window_ex2 : result (list VisionLLM) * WindowState :=
  resample_with (window_step dot_left (config_ex "window" 5)) (take 2 turning) (mk_WindowState [] None).
Lemma window_skips_exact_witness :
  Forall (λ p, within_tolerance dot_left (config_ex "window" 5) (normalize dot_left [Z2f 1; Z2f 0]) (pt_vector p) = Ok true)
    (take 2 (take 3 (reverse (omap (to_point dot_left) (take 2 turning))))).
Proof.
  refine (proj2 (proj2 (proj2 (proj1 (window_skips_exact dot_left (config_ex "window" 5) (take 2 turning)
    (ok_of [] window_ex2.1) window_ex2.2 (chunk 3 1 0) [Z2f 1; Z2f 0] [] []
    (window_step dot_left (config_ex "window" 5) (chunk 3 1 0) window_ex2.2).2 _ _ _ _) eq_refl))));
    [vm_compute; reflexivity|reflexivity|reflexivity|vm_compute; reflexivity].
Defined.

Definition sdt_ex : result (list VisionLLM) * SDTState :=
  resample_with (sdt_step dot_left (config_ex "sdt" 5)) turning new_sdt.
Example sdt_keeps : ve_end <$> ok_of [] sdt_ex.1 = [1000; 3000].
Proof. vm_compute. reflexivity. Qed.

Lemma sdt_covers_stream_witness :
  consecutive (near (config_ex "sdt" 5) turning) (ok_of [] sdt_ex.1 ++ sdt_held sdt_ex.2).
Proof. apply (sdt_covers_stream dot_left (config_ex "sdt" 5) turning). vm_compute. reflexivity. Defined.

(** The manager on a first camera that falls silent and a second *)
Definition calls_ex : list call :=
  [("a", [chunk 1 1 0; chunk 2 0 1], 10); ("b", [chunk 1 1 0; chunk 2 1 0], 12); ("b", [chunk 3 0 1], 20)].
Definition run_ex (ttl : Z) : list (string * list VisionLLM) * VideoEmbeddingStateMgmt (D:=downsampler) :=
  run (ED := configured_downsampler dot_left (config_ex "sdt" ttl)) (config_ex "sdt" ttl) calls_ex new_VideoEmbeddingStateMgmt.

Lemma stream_subsequence_witness :
  got_from "a" (run_ex 60).1 ++ held_of (DL := configured_laws dot_left (config_ex "sdt" 60)) (run_ex 60).2 "a"
    `sublist_of` given_to "a" calls_ex.
Proof.
  apply (stream_subsequence (DL := configured_laws dot_left (config_ex "sdt" 60)) (config_ex "sdt" 60) calls_ex
           (run_ex 60).1 (run_ex 60).2); [cbn; lia|reflexivity|vm_compute; reflexivity].
Defined.

(** Before the last call, which purges the first camera *)
Definition before_ex : VideoEmbeddingStateMgmt (D:=downsampler) :=
  (run (ED := configured_downsampler dot_left (config_ex "sdt" 5)) (config_ex "sdt" 5) (take 2 calls_ex) new_VideoEmbeddingStateMgmt).2.
Lemma before_ex_ok : manager_ok (DL := configured_laws dot_left (config_ex "sdt" 5)) before_ex.
Proof.
  unfold before_ex. destruct (run (config_ex "sdt" 5) (take 2 calls_ex) new_VideoEmbeddingStateMgmt) as [outs s] eqn:E.
  by apply (run_held (DL := configured_laws dot_left (config_ex "sdt" 5)) (config_ex "sdt" 5) _ _ _ _ "a") in E
    as [? _]; [| |apply new_manager_ok|].
Qed.
Definition update_ex : result (list VisionLLM) * VideoEmbeddingStateMgmt (D:=downsampler) :=
  update_video_embeddings (ED := configured_downsampler dot_left (config_ex "sdt" 5)) (config_ex "sdt" 5) "b" [chunk 3 0 1] 20 before_ex.
Lemma purge_exact_witness :
  dget (downsamplers update_ex.2) "a" = if expired (config_ex "sdt" 5) before_ex 20 "a" then None else dget (downsamplers before_ex) "a".
Proof.
  refine (proj1 (proj2 (proj2 (purge_exact (DL := configured_laws dot_left (config_ex "sdt" 5)) (config_ex "sdt" 5) "b"
    [chunk 3 0 1] 20 before_ex (ok_of [] update_ex.1) update_ex.2 _ before_ex_ok _ _)) "a" _));
    [cbn; lia|reflexivity|vm_compute; reflexivity|done].
Defined.

(** A camera whose purge is due loses its candidate: the last chunk of "a" is
    neither given out nor flushed, though nothing else of its scene was. *)
Example purge_loses_candidate :
  (ve_end <$> got_from "a" (run_ex 5).1, dkeys (downsamplers (run_ex 5).2)) = ([1000], ["b"]) ∧
  (ve_end <$> got_from "a" (run_ex 60).1, dkeys (downsamplers (run_ex 60).2)) = ([1000], ["a"; "b"]).
Proof. split; vm_compute; reflexivity. Qed.

(** Every candidate is within tolerance of the line to its successor, but what is
    skipped does not stay near the line between the messages given out: here
    nothing is given out until the end, and the 25th chunk, on the scene of
    the first, is more than twice the threshold from where the line puts it. *)
Definition drifting : list VisionLLM :=
  ((λ i, chunk (Z.of_nat i + 1) 20 0) <$> seq 0 25) ++ ((λ i, chunk (Z.of_nat i + 26) 20 (Z.of_nat i + 1)) <$> seq 0 34).
Definition drift_ex : result (list VisionLLM) * SDTState :=
  resample_with (sdt_step dot_left (config_ex "sdt" 5)) drifting new_sdt.
Definition drift_deviation : result bool :=
  still ← require ((drifting !! 24%nat) ≫= to_point dot_left) IndexError;
  a ← require (anchor drift_ex.2) IndexError;
  c ← require (candidate drift_ex.2) IndexError;
  expected ← expected_vector dot_left a still (pt_time c) (pt_vector c);
  deviation ← euclidean_distance dot_left (pt_vector still) expected;
  Ok (flt (fmul (Z2f 2) (downsample_distance_threshold (config_ex "sdt" 5))) deviation).
Example skipped_far_from_line :
  (ve_end <$> ok_of [] drift_ex.1, pt_time <$> candidate drift_ex.2) = ([1000], Some 59000) ∧ drift_deviation = Ok true.
Proof. split; vm_compute; reflexivity. Qed.
