(* ===== verification/AlwaysOn.v ===== *)
(** * Always-on alert rules (alert service)

    [AlwaysOnService] of [alert/src/realtime/services/always_on_service.py], the
    rules file it reads ([realtime/schemas/always_on_config.py]) and the route
    [always_on_realtime] of [web/api/realtime_routes.py]: a camera that starts
    streaming gets one realtime rule for each configured entry, and loses them
    when it is removed.

    The handlers are coroutines of one event loop, so each is a process
    ([Proc]). A section under [_lock] has no [await], which is why the lock is
    never waited for and the section is one action; the handlers can be
    interleaved, and cancelled, at the calls of the realtime service and where
    they wait for another handler's event. The realtime service
    ([RealtimeService]) is an interface: two calls with a state of their own. The
    calls that [asyncio.gather] starts together are made in the order of its
    arguments. *)

From Stdlib Require Import ZArith Lia.
From stdpp Require Import base list strings gmap sets relations.
From S2P Require Import Prelude PyDict PyText Proc.
Open Scope string_scope.
Open Scope list_scope.
Open Scope nat_scope.

(** ** The rules file *)
Record AlwaysOnRuleParams := mk_AlwaysOnRuleParams { prompt : string; other_params : string }.
Record AlwaysOnRuleEntry := mk_AlwaysOnRuleEntry {
  rule_id : string;
  alert_type : string;
  always_on_params : AlwaysOnRuleParams;
}.

Definition FileNotFoundError : pyexn := NamedError "FileNotFoundError".
Definition YAMLError : pyexn := NamedError "YAMLError".
Definition ValidationError : pyexn := NamedError "ValidationError".
Definition AlwaysOnRulesConfigError : pyexn := NamedError "AlwaysOnRulesConfigError".

Definition not_blank (v : string) : bool := negb (String.eqb (py_strip v) "").
Fixpoint unique_rule_ids (rules : list AlwaysOnRuleEntry) : bool :=
  match rules with
  | [] => true
  | r :: rules' => negb (existsb (λ r', String.eqb (rule_id r') (rule_id r)) rules') && unique_rule_ids rules'
  end.
(** The validators of [AlwaysOnRuleEntry] and [AlwaysOnRulesFile] *)
Definition valid_rules (rules : list AlwaysOnRuleEntry) : bool :=
  negb (bool_decide (rules = [])) &&
  forallb (λ r, not_blank (rule_id r) && not_blank (alert_type r)) rules && unique_rule_ids rules.

(** ** The realtime service *)
Record AlertRuleConfig := mk_AlertRuleConfig {
  live_stream_url : string;
  cfg_alert_type : string;
  sensor_name : string;
  sensor_id : string;
  cfg_params : AlwaysOnRuleParams;
}.
(** A response and its status: what [response_data.get("id")] answers, and the rest *)
Record Response := mk_Response { rsp_id : option string; rsp_body : string }.

Class RealtimeService (R : Type) := {
  start_alert : AlertRuleConfig → stM R (Response * Z);
  stop_alert : string → stM R (Response * Z);
}.

(** ** Results *)
Inductive outcome := success | error | already_active.
#[export] Instance outcome_eq_dec : EqDecision outcome.
Proof. solve_decision. Defined.

Record Entry := mk_Entry {
  en_rule_id : string;
  en_alert_type : option string;
  en_status : Z;
  en_result : outcome;
  en_alert_rule_id : option string;
}.
Record AlwaysOnResult := mk_AlwaysOnResult {
  status_code : Z;
  reason : string;
  details : option (list Entry);
}.

Section service.
Context {R : Type} {RT : RealtimeService R}.
Context (always_on : bool) (rules_file : result (list AlwaysOnRuleEntry)).

Record State := mk_State {
  camera_rules : dict string (dict string string);
  in_flight : gset string;
  flight_done : dict string nat;
  rules_cache : option (list AlwaysOnRuleEntry);
  unset_events : gset nat;
  next_event : nat;
  realtime : R;
}.
Definition new_State (r : R) : State := mk_State [] ∅ [] None ∅ 0 r.

Definition set_rules (d : dict string (dict string string)) (s : State) : State :=
  mk_State d (in_flight s) (flight_done s) (rules_cache s) (unset_events s) (next_event s) (realtime s).
Definition set_realtime (r : R) (s : State) : State :=
  mk_State (camera_rules s) (in_flight s) (flight_done s) (rules_cache s) (unset_events s) (next_event s) r.

(** [self._camera_rules.get(camera_id, {})] *)
Definition rules_of (s : State) (camera_id : string) : dict string string := default [] (dget (camera_rules s) camera_id).

(** An [OSError] other than a missing file is not caught. *)
Definition load_rules : stM State (list AlwaysOnRuleEntry) := λ s,
  match rules_cache s with
  | Some rules => (Ok rules, s)
  | None =>
      match rules_file with
      | Ok rules =>
          if valid_rules rules
          then (Ok rules, mk_State (camera_rules s) (in_flight s) (flight_done s) (Some rules) (unset_events s)
                            (next_event s) (realtime s))
          else (Exn AlwaysOnRulesConfigError, s)
      | Exn e =>
          (Exn (if bool_decide (e ∈ [FileNotFoundError; YAMLError; ValidationError]) then AlwaysOnRulesConfigError else e), s)
      end
  end.

(** [_on_realtime_rule_removed]: the first entry with the alert rule's id *)
Fixpoint find_rule (alert_rule_id : string) (rules : dict string string) : option string :=
  match rules with
  | [] => None
  | (rule, uid) :: rules' => if String.eqb uid alert_rule_id then Some rule else find_rule alert_rule_id rules'
  end.
Fixpoint find_camera (alert_rule_id : string) (cameras : dict string (dict string string)) : option (string * string) :=
  match cameras with
  | [] => None
  | (camera, rules) :: cameras' =>
      match find_rule alert_rule_id rules with
      | Some rule => Some (camera, rule)
      | None => find_camera alert_rule_id cameras'
      end
  end.
(** [pop] of rules from a camera's map, and of the map once it is empty *)
Definition drop_rules (camera_id : string) (ids : list string) (s : State) : State :=
  match dget (camera_rules s) camera_id with
  | None => s
  | Some inner =>
      match foldl (λ d r, ddel d r) inner ids with
      | [] => set_rules (ddel (camera_rules s) camera_id) s
      | inner' => set_rules (dset (camera_rules s) camera_id inner') s
      end
  end.
Definition on_realtime_rule_removed (alert_rule_id : string) : proc State unit :=
  atomic (smod (λ s, match find_camera alert_rule_id (camera_rules s) with
                     | Some (camera, rule) => drop_rules camera [rule] s
                     | None => s
                     end)).

(** ** Flights *)

(** Wait for the fan-out of a camera that is under way, if there is one. *)
Definition wait_for_flight (camera_id : string) : proc State unit :=
  flight_event ← atomic (λ s, (Ok (dget (flight_done s) camera_id), s));
  match flight_event with
  | Some e => wait (λ s, bool_decide (e ∉ unset_events s))
  | None => mret tt
  end.

(** The rules already active when a fan-out is to start; [None] when every rule
    is active or another fan-out of the camera is under way. *)
Definition reserve_flight (camera_id : string) (configured : list string) : stM State (option (list string)) := λ s,
  let active := dkeys (rules_of s camera_id) in
  if forallb (λ r, bool_decide (r ∈ active)) configured then (Ok None, s)
  else if bool_decide (camera_id ∈ in_flight s) then (Ok None, s)
  else (Ok (Some active),
        mk_State (camera_rules s) ({[camera_id]} ∪ in_flight s) (dset (flight_done s) camera_id (next_event s))
          (rules_cache s) ({[next_event s]} ∪ unset_events s) (S (next_event s)) (realtime s)).

Definition release_flight (camera_id : string) : stM State unit := smod (λ s,
  let event := dget (flight_done s) camera_id in
  mk_State (camera_rules s) (in_flight s ∖ {[camera_id]}) (ddel (flight_done s) camera_id) (rules_cache s)
    (match event with Some e => (unset_events s ∖ {[e]}) | None => unset_events s end) (next_event s) (realtime s)).

(** ** [_fan_out_add] *)
Definition call {A} (m : stM R A) : proc State A := await (zoom realtime set_realtime m).

Definition config_for (camera_id camera_url camera_name : string) (r : AlwaysOnRuleEntry) : AlertRuleConfig :=
  mk_AlertRuleConfig camera_url (alert_type r) camera_name camera_id (always_on_params r).

(** The entry of a rule that needs no call; the others are started. *)
Definition preflight_entry (camera_id : string) (already : list string) (s : State) (r : AlwaysOnRuleEntry) : option Entry :=
  if bool_decide (rule_id r ∈ already)
  then Some (mk_Entry (rule_id r) (Some (alert_type r)) 200 already_active (dget (rules_of s camera_id) (rule_id r)))
  else if String.eqb (prompt (always_on_params r)) ""
  then Some (mk_Entry (rule_id r) (Some (alert_type r)) 422 error None)
  else None.
Definition preflight (camera_id : string) (rules : list AlwaysOnRuleEntry) (already : list string) (s : State)
    : list Entry * list AlwaysOnRuleEntry :=
  (omap (preflight_entry camera_id already s) rules,
   filter (λ r, (rule_id r ∉ already) ∧ prompt (always_on_params r) ≠ "") rules).

Definition truthy (id : option string) : bool := match id with Some id => negb (String.eqb id "") | None => false end.
Definition start_entry (r : AlwaysOnRuleEntry) (res : Response * Z) : Entry :=
  let '(response_data, status) := res in
  if (status =? 201)%Z then mk_Entry (rule_id r) (Some (alert_type r)) status success (rsp_id response_data)
  else mk_Entry (rule_id r) (Some (alert_type r)) status error None.
Definition created_id (e : Entry) : option (string * string) :=
  if bool_decide (en_result e = success) && truthy (en_alert_rule_id e)
  then (λ id, (en_rule_id e, id)) <$> en_alert_rule_id e
  else None.
Definition created (entries : list Entry) : dict string string := omap created_id entries.

Definition merge_created (camera_id : string) (created_rules : dict string string) : stM State unit := smod (λ s,
  set_rules (dset (camera_rules s) camera_id (dupdate (rules_of s camera_id) created_rules)) s).

Definition count (o : outcome) (es : list Entry) : nat := length (filter (λ e, en_result e = o) es).
Definition classify_add (results : list Entry) : AlwaysOnResult :=
  let errors := count error results in
  let new_successes := count success results in
  let already := count already_active results in
  if (errors =? 0)%nat then
    mk_AlwaysOnResult 200 (if (0 <? new_successes)%nat then "STREAM_ADD_SUCCESS" else "STREAM_ADD_ALREADY_ACTIVE") (Some results)
  else if (0 <? new_successes + already)%nat then mk_AlwaysOnResult 200 "STREAM_ADD_PARTIAL_SUCCESS" (Some results)
  else mk_AlwaysOnResult 502 "STREAM_ADD_FAILED" (Some results).

Definition fan_out_add (camera_id camera_url camera_name : string) (rules : list AlwaysOnRuleEntry)
    (already : list string) : proc State AlwaysOnResult :=
  '(results, to_start) ← atomic (λ s, (Ok (preflight camera_id rules already s), s));
  start_results ← gather ((λ r, call (start_alert (config_for camera_id camera_url camera_name r))) <$> to_start);
  let started := zip_with start_entry to_start start_results in
  _ ← match created started with
      | [] => mret tt
      | created_rules => atomic (merge_created camera_id created_rules)
      end;
  mret (classify_add (results ++ started)).

(** ** [start_camera] and [stop_camera] *)
Definition start_camera (camera_id camera_url camera_name : string) : proc State AlwaysOnResult :=
  loaded ← ptry (λ e, bool_decide (e = AlwaysOnRulesConfigError)) (rules ← atomic load_rules; mret (Some rules)) (λ _, mret None);
  match loaded with
  | None => mret (mk_AlwaysOnResult 503 "CONFIG_ERROR" None)
  | Some rules =>
      _ ← wait_for_flight camera_id;
      reserved ← atomic (reserve_flight camera_id (rule_id <$> rules));
      match reserved with
      | None => mret (mk_AlwaysOnResult 200 "STREAM_ADD_ALREADY_ACTIVE" None)
      | Some already =>
          pfinally (fan_out_add camera_id camera_url camera_name rules already) (atomic (release_flight camera_id))
      end
  end.

Definition stop_entry (rule uid : string) (res : Response * Z) : Entry :=
  mk_Entry rule None res.2 (if (res.2 =? 200)%Z || (res.2 =? 404)%Z then success else error) (Some uid).

Definition classify_remove (es : list Entry) : AlwaysOnResult :=
  if (0 <? count error es)%nat then mk_AlwaysOnResult 502 "STREAM_REMOVE_FAILED" (Some es)
  else mk_AlwaysOnResult 200 "STREAM_REMOVE_SUCCESS" (Some es).

Definition stop_camera (camera_id : string) : proc State AlwaysOnResult :=
  _ ← wait_for_flight camera_id;
  tracked ← atomic (λ s, (Ok (rules_of s camera_id), s));
  remove_details ← pmap (λ x : string * string, res ← call (stop_alert x.2); mret (stop_entry x.1 x.2 res)) tracked;
  _ ← atomic (smod (drop_rules camera_id (en_rule_id <$> filter (λ e, en_result e = success) remove_details)));
  mret (classify_remove remove_details).

(** ** The route *)
Record AlwaysOnEvent := mk_AlwaysOnEvent {
  ev_camera_id : string;
  ev_camera_url : option string;
  ev_camera_name : option string;
  ev_remove : bool;
}.
(** The event of a payload, or [None] when the payload is not valid *)
Definition always_on_realtime (event : option AlwaysOnEvent) : proc State AlwaysOnResult :=
  if negb always_on then mret (mk_AlwaysOnResult 503 "ALWAYS_ON_DISABLED" None)
  else match event with
  | None => mret (mk_AlwaysOnResult 422 "INVALID_PAYLOAD" None)
  | Some ev =>
      if ev_remove ev then stop_camera (ev_camera_id ev)
      else if truthy (ev_camera_url ev) && truthy (ev_camera_name ev)
      then start_camera (ev_camera_id ev) (default "" (ev_camera_url ev)) (default "" (ev_camera_name ev))
      else mret (mk_AlwaysOnResult 422 "INVALID_PAYLOAD" None)
  end.
End service.

(** ** Every interleaving *)
Section interleavings.
Context {R : Type} {RT : RealtimeService R}.
Context (always_on : bool) (rules_file : result (list AlwaysOnRuleEntry)).
Abbreviation State := (State (R:=R)).

Definition tracked (s : State) (camera rule : string) : option string := dget (rules_of s camera) rule.

(** A fan-out under way: its camera, its event, and rules it may add *)
Record flight := mk_flight { fl_camera : string; fl_event : nat; fl_missing : list string }.

Record inv (s : State) (fs : list flight) : Prop := {
  inv_cameras : NoDup (fl_camera <$> fs);
  inv_events : NoDup (fl_event <$> fs);
  inv_in_flight c : c ∈ in_flight s ↔ c ∈ fl_camera <$> fs;
  inv_done : dict_wf (flight_done s);
  inv_flight_done c e : dget (flight_done s) c = Some e ↔ (c, e) ∈ (λ f, (fl_camera f, fl_event f)) <$> fs;
  inv_unset e : e ∈ unset_events s ↔ e ∈ fl_event <$> fs;
  inv_fresh e : e ∈ fl_event <$> fs → e < next_event s;
  inv_missing f r : f ∈ fs → r ∈ fl_missing f → tracked s (fl_camera f) r = None;
  inv_rules : dict_wf (camera_rules s);
  inv_rules_of c rules : dget (camera_rules s) c = Some rules → rules ≠ [] ∧ dict_wf rules;
  inv_cache rules : rules_cache s = Some rules → valid_rules rules = true;
}.

(** A rule that is tracked is never exchanged for another. *)
Definition keeps_rules : relation State := λ s s',
  ∀ c r u, tracked s c r = Some u → tracked s' c r = Some u ∨ tracked s' c r = None.

#[export] Instance keeps_rules_refl : Reflexive keeps_rules.
Proof. intros s c r u Hu. by left. Qed.

#[export] Instance inv_proper s : Proper ((≡ₚ) ==> iff) (inv s).
Proof.
  intros fs fs' E.
  assert (∀ A (g : flight → A), g <$> fs ≡ₚ g <$> fs') as Eg by (intros A g; by apply fmap_Permutation).
  split; intros [H1 H2 H3 H4 H5 H6 H7 H8 H9 H10 H11]; split; try done.
  - by rewrite <-Eg. - by rewrite <-Eg. - intros c. by rewrite <-Eg. - intros c e. by rewrite <-Eg.
  - intros e. by rewrite <-Eg. - intros e. rewrite <-Eg. apply H7. - intros f r. rewrite <-E. apply H8.
  - by rewrite Eg. - by rewrite Eg. - intros c. by rewrite Eg. - intros c e. by rewrite Eg.
  - intros e. by rewrite Eg. - intros e. rewrite Eg. apply H7. - intros f r. rewrite E. apply H8.
Qed.

(** *** The sidecar *)
Lemma inv_set_rules d (s : State) fs fs' :
  inv s fs → ((λ f, (fl_camera f, fl_event f)) <$> fs') = ((λ f, (fl_camera f, fl_event f)) <$> fs) →
  dict_wf d → (∀ c rules, dget d c = Some rules → rules ≠ [] ∧ dict_wf rules) →
  (∀ f r, f ∈ fs' → r ∈ fl_missing f → tracked (set_rules d s) (fl_camera f) r = None) →
  inv (set_rules d s) fs'.
Proof.
  intros [H1 H2 H3 H4 H5 H6 H7 H8 H9 H10 H11] Hf Hd Hr Hm.
  assert (fl_camera <$> fs' = fl_camera <$> fs) as Ec.
  { apply (f_equal (fmap fst)) in Hf. by rewrite <-!list_fmap_compose in Hf. }
  assert (fl_event <$> fs' = fl_event <$> fs) as Ee.
  { apply (f_equal (fmap snd)) in Hf. by rewrite <-!list_fmap_compose in Hf. }
  split; try done; rewrite ?Ec, ?Ee; try done. intros c e. by rewrite Hf.
Qed.

Lemma tracked_drop_rules c ids (s : State) c' r :
  tracked (drop_rules c ids s) c' r = if decide (c' = c ∧ r ∈ ids) then None else tracked s c' r.
Proof.
  unfold tracked, drop_rules, rules_of. destruct (dget (camera_rules s) c) as [inner|] eqn:E.
  - pose proof (dget_foldl_ddel inner ids r) as Hr. destruct (foldl _ inner ids) as [|x l]; cbn [camera_rules set_rules].
    + rewrite dget_ddel. destruct (decide (c = c')) as [->|Hc].
      * cbn. rewrite E. cbn in Hr |- *. destruct (decide (r ∈ ids)); [by rewrite decide_True|].
        by rewrite decide_False by (by intros [_ ?]).
      * by rewrite decide_False by (by intros [-> _]).
    + rewrite dget_dset. destruct (decide (c = c')) as [->|Hc].
      * rewrite E. cbn [default from_option id]. rewrite Hr. destruct (decide (r ∈ ids)); [by rewrite decide_True|].
        by rewrite decide_False by (by intros [_ ?]).
      * by rewrite decide_False by (by intros [-> _]).
  - case_decide as Hd; [|done]. destruct Hd as [-> _]. by rewrite E.
Qed.

Lemma drop_rules_eq c ids (s : State) : ∃ d, drop_rules c ids s = set_rules d s.
Proof.
  unfold drop_rules. destruct (dget (camera_rules s) c) as [inner|]; [|by exists (camera_rules s); destruct s].
  destruct (foldl _ inner ids); eauto.
Qed.

Lemma drop_rules_ok c ids (s : State) fs : inv s fs → keeps_rules s (drop_rules c ids s) ∧ inv (drop_rules c ids s) fs.
Proof.
  intros Hi. split.
  { intros c' r u Hu. rewrite tracked_drop_rules. case_decide; [by right|by left]. }
  pose proof (inv_rules _ _ Hi) as Hw. pose proof (inv_rules_of _ _ Hi) as Hwr.
  assert (∀ d, (∀ c' r, tracked (set_rules d s) c' r = tracked (drop_rules c ids s) c' r) →
    dict_wf d → (∀ c rules, dget d c = Some rules → rules ≠ [] ∧ dict_wf rules) → inv (set_rules d s) fs) as Hset.
  { intros d Ht Hd Hr. apply (inv_set_rules d s fs fs Hi); try done. intros f r Hf Hm.
    rewrite Ht, tracked_drop_rules, (inv_missing _ _ Hi f r) by done. by case_decide. }
  unfold drop_rules in *. destruct (dget (camera_rules s) c) as [inner|] eqn:E; [|done].
  destruct (Hwr _ _ E) as [Hne Hin]. apply (dict_wf_foldl_ddel _ ids) in Hin.
  destruct (foldl _ inner ids) as [|x l]; apply Hset; try done.
  - by apply dict_wf_ddel.
  - intros c' rules. rewrite dget_ddel. case_decide; [done|apply Hwr].
  - by apply dict_wf_dset.
  - intros c' rules. rewrite dget_dset. case_decide; [by intros [= <-]|apply Hwr].
Qed.

Lemma tracked_merge c cr (s : State) c' r s' :
  merge_created c cr s = (Ok tt, s') → dict_wf cr →
  tracked s' c' r = if decide (c' = c) then match dget cr r with Some u => Some u | None => tracked s c' r end
                    else tracked s c' r.
Proof.
  intros [= <-] Hcr. unfold tracked, rules_of. cbn [camera_rules set_rules]. rewrite dget_dset.
  destruct (decide (c = c')) as [->|]; [|by rewrite decide_False]. rewrite decide_True by done. cbn [default from_option id].
  destruct (dget cr r) as [u|] eqn:Er; [by apply dget_dupdate_in|by apply dget_dupdate_not, dget_None].
Qed.

Lemma merge_ok c e missing cr (s : State) fs :
  inv s (mk_flight c e missing :: fs) → cr ≠ [] → dict_wf cr → (∀ r, r ∈ dkeys cr → r ∈ missing) →
  keeps_rules s (merge_created c cr s).2 ∧ inv (merge_created c cr s).2 (mk_flight c e [] :: fs).
Proof.
  intros Hi Hne Hcr Hsub. pose proof (inv_rules _ _ Hi) as Hw. pose proof (inv_rules_of _ _ Hi) as Hwr.
  pose proof (λ c' r, tracked_merge c cr s c' r _ eq_refl Hcr) as Ht.
  assert (∀ r, r ∈ dkeys cr → tracked s c r = None) as Hnone.
  { intros r Hr. apply (inv_missing _ _ Hi (mk_flight c e missing)); [by left|by apply Hsub]. }
  split.
  - intros c' r u Hu. left. rewrite Ht. case_decide as Hc; [|done]. subst.
    destruct (dget cr r) eqn:Er; [|done]. rewrite Hnone in Hu; [done|]. apply dget_is_Some. by eexists.
  - cbn [merge_created smod snd]. eapply inv_set_rules; [exact Hi|done|by apply dict_wf_dset|..].
    + intros c' rules. rewrite dget_dset. case_decide; [|apply Hwr]. intros [= <-]. split.
      * destruct cr as [|[k v] cr]; [done|]. intros Hnil.
        assert (dget (dupdate (rules_of s c) ((k, v) :: cr)) k = Some v) as Hk
          by (apply dget_dupdate_in; [done|by cbn; rewrite decide_True]). by rewrite Hnil in Hk.
      * apply dict_wf_dupdate. unfold rules_of. destruct (dget (camera_rules s) c) eqn:E; [by eapply Hwr|constructor].
    + intros f r [->|Hf]%elem_of_cons Hm; [by apply elem_of_nil in Hm|].
      change (set_rules _ s) with (merge_created c cr s).2. rewrite Ht, decide_False.
      * eapply (inv_missing _ _ Hi); [by right|done].
      * intros Hc. pose proof (inv_cameras _ _ Hi) as Hn. apply NoDup_cons in Hn as [Hn _]. apply Hn. cbn.
        rewrite <-Hc. apply list_elem_of_fmap. eauto.
Qed.

(** *** Flights *)
Lemma reserve_ok c ids (s : State) fs :
  inv s fs →
  match reserve_flight c ids s with
  | (Ok (Some active), s') => inv s' (mk_flight c (next_event s) (filter (.∉ active) ids) :: fs) ∧ camera_rules s' = camera_rules s
  | (_, s') => s' = s
  end.
Proof.
  intros Hi. unfold reserve_flight. destruct (forallb _ _); [done|]. case_bool_decide as Hc; [done|].
  destruct Hi as [H1 H2 H3 H4 H5 H6 H7 H8 H9 H10 H11]. split; [|done].
  split; cbn [in_flight flight_done unset_events next_event camera_rules fmap list_fmap fl_camera fl_event]; try done.
  - apply NoDup_cons. by rewrite <-H3.
  - apply NoDup_cons. split; [|done]. intros He%H7. lia.
  - intros c'. rewrite elem_of_union, elem_of_singleton, H3, elem_of_cons. done.
  - by apply dict_wf_dset.
  - intros c' e. rewrite dget_dset, elem_of_cons. case_decide as Hcc.
    + subst. split; [intros [= <-]; by left|]. intros [[= <-]|Hin]; [done|]. destruct Hc. apply H3.
      apply list_elem_of_fmap in Hin as (f & [= -> _] & Hf). apply list_elem_of_fmap. eauto.
    + rewrite H5. split; [by right|]. intros [[= <- _]|]; done.
  - intros e. rewrite elem_of_union, elem_of_singleton, H6, elem_of_cons. done.
  - intros e [->|He%H7]%elem_of_cons; lia.
  - intros f r [->|Hf]%elem_of_cons Hr; [|by apply (H8 f r)]. cbn in Hr |- *.
    apply list_elem_of_filter in Hr as [Hr _]. by apply dget_None.
Qed.

Lemma release_ok c e missing (s : State) fs :
  inv s (mk_flight c e missing :: fs) →
  inv (release_flight c s).2 fs ∧ camera_rules (release_flight c s).2 = camera_rules s.
Proof.
  intros [H1 H2 H3 H4 H5 H6 H7 H8 H9 H10 H11]. split; [|done].
  assert (dget (flight_done s) c = Some e) as He by (apply H5; by left).
  apply NoDup_cons in H1 as [Hc1 H1]. apply NoDup_cons in H2 as [He1 H2]. cbn in Hc1, He1.
  unfold release_flight. cbn [smod snd]. rewrite He.
  split; cbn [in_flight flight_done unset_events next_event camera_rules]; try done.
  - intros c'. rewrite elem_of_difference, elem_of_singleton, H3. cbn. rewrite elem_of_cons.
    split; [by intros [[|] ?]|]. intros Hin. split; [by right|]. by intros ->.
  - by apply dict_wf_ddel.
  - intros c' e'. rewrite dget_ddel. case_decide as Hcc.
    + split; [done|]. intros (f & [= -> _] & Hf)%list_elem_of_fmap. destruct Hc1. subst c. apply list_elem_of_fmap. eauto.
    + rewrite H5. cbn. rewrite elem_of_cons. split; [|by right]. by intros [[= -> _]|].
  - intros e'. rewrite elem_of_difference, elem_of_singleton, H6. cbn. rewrite elem_of_cons.
    split; [by intros [[|] ?]|]. intros Hin. split; [by right|]. by intros ->.
  - intros e' He'. apply H7. by right.
  - intros f r Hf Hr. apply H8; [by right|done].
Qed.

(** *** The handlers *)
Abbreviation wp := (wp inv keeps_rules all_block).
Abbreviation keeps := (keeps inv keeps_rules all_block).

Lemma keeps_call {A} fs (m : stM R A) : keeps fs (call m).
Proof.
  apply keeps_act. intros s fs' Hi. unfold zoom. destruct (m (realtime s)) as [r b]. cbn [snd].
  split; [intros c rl u Hu; by left|]. by destruct Hi.
Qed.

Lemma keeps_read {A} fs (g : State → A) : keeps fs (atomic (λ s, (Ok (g s), s))).
Proof. by apply keeps_act. Qed.

Lemma load_rules_ok (s : State) fs :
  inv s fs → inv (load_rules rules_file s).2 fs ∧ camera_rules (load_rules rules_file s).2 = camera_rules s ∧
    ∀ rules, (load_rules rules_file s).1 = Ok rules → valid_rules rules = true.
Proof.
  intros Hi. unfold load_rules. destruct (rules_cache s) as [rules|] eqn:E.
  - split_and!; [done..|]. intros rules' [= <-]. by apply (inv_cache _ _ Hi).
  - destruct rules_file as [rules|e]; [|by split_and!]. destruct (valid_rules rules) eqn:Ev; [|by split_and!].
    split_and!; [|done|by intros ? [= <-]]. destruct Hi as [H1 H2 H3 H4 H5 H6 H7 H8 H9 H10 H11]. split; try done. by intros ? [= <-].
Qed.

Lemma keeps_wait_for_flight c : keeps [] (wait_for_flight c).
Proof.
  apply keeps_bind; [apply keeps_read|]. intros [e|]; [|apply keeps_ret].
  apply (keeps_wait inv keeps_rules all_block); [by constructor|]. intros s fs Hi ->%unblocking_all. apply bool_decide_eq_true. rewrite (inv_unset _ _ Hi). apply not_elem_of_nil.
Qed.

Lemma created_id_key e kv : created_id e = Some kv → kv.1 = en_rule_id e.
Proof. unfold created_id. case_match; [|done]. by destruct (en_alert_rule_id e); intros [= <-]. Qed.
Lemma start_entry_rule r x : en_rule_id (start_entry r x) = rule_id r.
Proof. destruct x as [rsp st]. cbn. by case_match. Qed.

Lemma created_keys to_start (rs : list (Response * Z)) :
  dkeys (created (zip_with start_entry to_start rs)) `sublist_of` rule_id <$> to_start.
Proof.
  revert rs. induction to_start as [|r to_start IH]; intros [|x rs]; cbn [zip_with created omap list_omap fmap list_fmap];
    [done|apply sublist_nil_l|apply sublist_nil_l|].
  specialize (IH rs). unfold created in IH. destruct (created_id (start_entry r x)) as [kv|] eqn:E.
  - apply created_id_key in E. rewrite start_entry_rule in E. unfold dkeys. cbn [fmap list_fmap]. rewrite E. by apply sublist_skip.
  - by apply sublist_cons.
Qed.

Lemma unique_rule_ids_NoDup rules : unique_rule_ids rules = true → NoDup (rule_id <$> rules).
Proof.
  induction rules as [|r rules IH]; [by constructor|]. intros [Hr Hu]%andb_true_iff. apply NoDup_cons. split; [|by apply IH].
  intros (r' & Hid & Hin)%list_elem_of_fmap. apply negb_true_iff, not_true_iff_false in Hr. apply Hr, existsb_exists.
  exists r'. split; [by apply list_elem_of_In|]. by rewrite Hid, String.eqb_refl.
Qed.

Lemma fan_out_wp c url name rules already e :
  valid_rules rules = true →
  wp [mk_flight c e (filter (.∉ already) (rule_id <$> rules))] (fan_out_add c url name rules already)
    (λ _ fs, ∃ missing, fs = [mk_flight c e missing]).
Proof.
  intros [[_ _]%andb_true_iff Hu%unique_rule_ids_NoDup]%andb_true_iff. set (F := mk_flight c e _).
  apply wp_bind. split; [|done]. intros s fs Hi. split; [done|]. exists [F]. split; [done|]. cbn.
  set (to_start := filter _ rules).
  apply wp_bind. eapply wp_mono; [|apply keeps_gather].
  2: { intros p (r & -> & _)%list_elem_of_fmap. apply keeps_call. }
  intros [rs|ex] fs' ->; [|by eexists]. apply wp_bind.
  pose proof (created_keys to_start rs) as Hkeys.
  assert (rule_id <$> to_start `sublist_of` rule_id <$> rules) as Hsub by (apply fmap_sublist, sublist_filter).
  assert (dict_wf (created (zip_with start_entry to_start rs))) as Hwf
    by (eapply sublist_NoDup; [exact Hu|by etrans]).
  assert (∀ r, r ∈ dkeys (created (zip_with start_entry to_start rs)) → r ∈ fl_missing F) as Hm.
  { intros r Hr. assert (r ∈ rule_id <$> to_start) as (r' & -> & Hr')%list_elem_of_fmap by (by eapply sublist_subseteq).
    apply list_elem_of_filter in Hr' as [[Hn _] Hr']. apply list_elem_of_filter. split; [done|].
    apply list_elem_of_fmap. eauto. }
  destruct (created (zip_with start_entry to_start rs)) as [|kv cr]; [by eexists|].
  split; [|done]. intros s' fs' Hi'.
  destruct (merge_ok c e _ (kv :: cr) s' fs' Hi' ltac:(done) Hwf Hm) as [HG Hi'']. split; [done|].
  exists [mk_flight c e []]. split; [done|]. by eexists.
Qed.

Lemma release_flight_wp c e missing : wp [mk_flight c e missing] (atomic (release_flight c)) (λ r fs, r = Ok tt ∧ fs = []).
Proof.
  split; [|done]. intros s fs Hi. destruct (release_ok c e missing s fs Hi) as [Hi' Hc]. split.
  - intros c' r u Hu. left. unfold tracked, rules_of in *. by rewrite Hc.
  - by exists [].
Qed.

Lemma start_camera_wp c url name : wp [] (start_camera rules_file c url name) (λ _ fs, fs = []).
Proof.
  apply wp_bind. apply (wp_mono _ _ _ _ _ (λ r fs, fs = [] ∧ ∀ rules, r = Ok (Some rules) → valid_rules rules = true)).
  2: { apply wp_try, wp_bind. split; [|done]. intros s fs Hi. destruct (load_rules_ok s fs Hi) as (Hi' & Hc & Hv). split.
       - intros c' r u Hu. left. unfold tracked, rules_of in *. by rewrite Hc.
       - exists []. split; [done|]. destruct (load_rules rules_file s) as [[rules|ex] s'] eqn:E; cbn.
         + split; [done|]. intros rules' [= <-]. by apply Hv.
         + case_match; [|by split]. by split. }
  intros [loaded|ex] fs [-> Hv]; [|done]. destruct loaded as [rules|]; [|done]. specialize (Hv rules eq_refl).
  apply wp_bind. eapply wp_mono; [|apply keeps_wait_for_flight]. intros [[]|ex] fs ->; [|done].
  apply wp_bind. split; [|done]. intros s fs Hi. pose proof (reserve_ok c (rule_id <$> rules) s fs Hi) as Hr.
  destruct (reserve_flight c (rule_id <$> rules) s) as [[[already|]|ex] s'].
  - destruct Hr as [Hi' Hc]. split.
    + intros c' r u Hu. left. unfold tracked, rules_of in *. cbn. by rewrite Hc.
    + eexists [_]. split; [exact Hi'|].
      change (wp [mk_flight c (next_event s) (filter (.∉ already) (rule_id <$> rules))]
        (pfinally (fan_out_add c url name rules already) (atomic (release_flight c))) (λ _ fs', fs' = [])).
      apply wp_finally. eapply wp_mono; [|by apply fan_out_wp].
      intros r fs' [missing ->]. eapply wp_mono; [|apply release_flight_wp]. by intros r' fs'' [_ ->].
  - cbn. subst s'. split; [done|]. exists []. by split.
  - cbn. subst s'. split; [done|]. exists []. by split.
Qed.

Lemma keeps_drop_rules fs c (f : list string) : keeps fs (atomic (smod (drop_rules c f))).
Proof. apply keeps_act. intros s fs' Hi. by apply drop_rules_ok. Qed.

Lemma stop_camera_keeps c : keeps [] (stop_camera c).
Proof.
  apply keeps_bind; [apply keeps_wait_for_flight|]. intros _. apply keeps_bind; [apply keeps_read|]. intros tr.
  apply keeps_bind; [apply keeps_map; intros x; apply keeps_bind; [apply keeps_call|done]|]. intros ds.
  apply keeps_bind; [apply keeps_drop_rules|]. done.
Qed.

(** The processes of the service: requests, and callbacks of the realtime service *)
Inductive handler : proc State unit → Prop :=
  | handler_route ev : handler (_ ← always_on_realtime always_on rules_file ev; mret tt)
  | handler_callback uid : handler (on_realtime_rule_removed uid).

Lemma handler_ok p : handler p → wp [] p (λ _ fs, fs = []).
Proof.
  intros [ev|uid].
  - apply wp_bind. apply (wp_mono _ _ _ _ _ (λ _ fs, fs = [])); [by intros [] fs ->|]. unfold always_on_realtime.
    destruct (negb always_on); [done|]. destruct ev as [ev|]; [|done]. destruct (ev_remove ev); [apply stop_camera_keeps|].
    destruct (_ && _); [apply start_camera_wp|done].
  - apply (wp_mono _ _ _ _ _ (λ _ fs, fs = [])); [done|]. apply keeps_act. intros s fs Hi.
    unfold smod. destruct (find_camera uid (camera_rules s)) as [[c r]|]; [by apply drop_rules_ok|done].
Qed.

(** The realtime service goes on by itself. *)
Definition realtime_moves : relation State := λ s s', ∃ r, s' = set_realtime r s.
Lemma realtime_moves_ok s s' fs : realtime_moves s s' → inv s fs → inv s' fs.
Proof. intros [r ->] Hi. by destruct Hi. Qed.
Lemma realtime_moves_keeps s s' : realtime_moves s s' → keeps_rules s s'.
Proof. intros [r ->] c rl u Hu. by left. Qed.

Lemma new_State_inv r : inv (new_State r) [].
Proof.
  split; try done; try apply NoDup_nil_2; try constructor; try set_solver.
Qed.

Lemma pool_reachable_ok r s ps :
  rtc (pstep handler realtime_moves) (new_State r, []) (s, ps) → pool_ok inv keeps_rules all_block (s, ps).
Proof.
  intros Hr. apply (pool_sound inv keeps_rules all_block handler realtime_moves handler_ok realtime_moves_ok _ _) in Hr; [done|].
  exists []. split; [constructor|apply new_State_inv].
Qed.

(** C23. Whatever requests, callbacks and cancellations are interleaved, a rule that
    is tracked for a camera is never exchanged for another one, which would leave
    the first running with nobody to stop it: no step of any process starts a rule
    for a camera that already has it. *)
Theorem rules_never_replaced r s ps s' ps' c rule u :
  rtc (pstep handler realtime_moves) (new_State r, []) (s, ps) →
  pstep handler realtime_moves (s, ps) (s', ps') →
  tracked s c rule = Some u → tracked s' c rule = Some u ∨ tracked s' c rule = None.
Proof.
  intros Hr Hs. revert c rule u. change (keeps_rules s s').
  apply (pool_guarantee inv keeps_rules all_block handler realtime_moves s ps s' ps'); [apply realtime_moves_keeps|by eapply pool_reachable_ok|done].
Qed.

(** C24. No interleaving gets stuck: as long as some request has not returned, some
    process can move, although requests wait for each other; and when all have
    returned, even by cancellation, no camera is left in flight and no event unset,
    so that nobody will wait for a fan-out that is over. *)
Theorem never_stuck r s ps :
  rtc (pstep handler realtime_moves) (new_State r, []) (s, ps) →
  (¬ Forall is_done ps → ∃ i p p' s', ps !! i = Some p ∧ next p s = Some (p', s')) ∧
  (Forall is_done ps → in_flight s = ∅ ∧ flight_done s = [] ∧ unset_events s = ∅).
Proof.
  intros Hr%pool_reachable_ok. split; [by apply (pool_no_deadlock inv keeps_rules all_block)|]. intros Hd.
  destruct (pool_done_held _ _ _ _ _ Hr Hd) as [_ _ H3 _ H5 H6 _ _ _ _ _]. split_and!.
  - apply set_eq. intros c. rewrite H3. set_solver.
  - destruct (flight_done s) as [|[c e] l]; [done|]. specialize (H5 c e). cbn in H5. rewrite decide_True in H5 by done.
    by apply proj1 in H5; specialize (H5 eq_refl); apply elem_of_nil in H5.
  - apply set_eq. intros e. rewrite H6. set_solver.
Qed.
End interleavings.

(** ** A request running alone *)
Section alone.
Context {R : Type} {RT : RealtimeService R}.
Context (rules_file : result (list AlwaysOnRuleEntry)).
Abbreviation State := (State (R:=R)).

Lemma exec_call {A} (m : stM R A) (s : State) : exec (call m) s = zoom realtime set_realtime m s.
Proof. apply exec_act. Qed.
Lemma zoom_camera_rules {A} (m : stM R A) (s : State) : camera_rules (zoom realtime set_realtime m s).2 = camera_rules s.
Proof. unfold zoom. by destruct (m (realtime s)). Qed.

(** A list of calls, each with something made of its answer *)
Lemma pmap_calls {B C} (p : B → proc State C) (Q : B → C → Prop) l (s : State) :
  (∀ x s, x ∈ l → camera_rules (exec (p x) s).2 = camera_rules s ∧ ∀ y, (exec (p x) s).1 = Ok y → Q x y) →
  camera_rules (exec (pmap p l) s).2 = camera_rules s ∧ ∀ ys, (exec (pmap p l) s).1 = Ok ys → Forall2 Q l ys.
Proof.
  revert s. induction l as [|x l IH]; intros s Hp; cbn [pmap]; [by split; [|intros ys [= <-]; constructor]|].
  rewrite exec_bind. destruct (Hp x s) as [Hc Hq]; [by left|]. destruct (exec (p x) s) as [[y|e] s1]; cbn in Hc, Hq; [|by split].
  rewrite exec_bind. destruct (IH s1) as [Hc' Hf]; [intros; apply Hp; by right|].
  destruct (exec (pmap p l) s1) as [[ys|e] s2]; cbn in *; (split; [congruence|]); [|done].
  intros ys' [= <-]. constructor; [by apply Hq|by apply Hf].
Qed.

Lemma gather_calls {B} (m : B → stM R (Response * Z)) l (s : State) :
  camera_rules (exec (gather ((λ x, call (m x)) <$> l)) s).2 = camera_rules s ∧
  ∀ rs, (exec (gather ((λ x, call (m x)) <$> l)) s).1 = Ok rs → length rs = length l.
Proof.
  unfold gather. rewrite exec_bind.
  destruct (pmap_calls (λ c : proc State (Response * Z), ptry is_Exception (a ← c; mret (Ok a)) (λ e, mret (Exn e))) (λ _ _, True)
    ((λ x, call (m x)) <$> l) s) as [Hc Hf].
  { intros p s0 (x & -> & _)%list_elem_of_fmap. split; [|done]. rewrite exec_try, exec_bind, exec_call.
    pose proof (zoom_camera_rules (m x) s0) as Hz. destruct (zoom _ _ _ s0) as [[y|e] s1]; cbn in *; [done|]. by case_match. }
  destruct (exec (pmap _ _) s) as [[ys|e] s1]; [|by split]. cbn in Hc |- *. split; [done|].
  specialize (Hf ys eq_refl). apply Forall2_length in Hf. rewrite length_fmap in Hf. intros rs Hrs.
  rewrite Hf. clear Hf Hc. revert rs Hrs. induction ys as [|y ys IH]; intros rs; cbn; [by intros [= <-]|].
  intros (a & _ & (rs' & Hrs' & [= <-])%result_bind_Ok)%result_bind_Ok. cbn. f_equal. by apply IH.
Qed.

Lemma exec_no_flight c (s : State) : dget (flight_done s) c = None → exec (wait_for_flight c) s = (Ok tt, s).
Proof. intros Hn. unfold wait_for_flight. rewrite exec_bind. cbn. by rewrite Hn. Qed.

Lemma count_pos o es : (0 <? count o es)%nat = false ↔ ∀ e, e ∈ es → en_result e ≠ o.
Proof.
  unfold count. rewrite Nat.ltb_ge, Nat.le_0_r. split.
  - intros Hl%nil_length_inv e He Ho. assert (e ∈ filter (λ e, en_result e = o) es) as Hin by by apply list_elem_of_filter.
    rewrite Hl in Hin. by apply elem_of_nil in Hin.
  - intros Hn. destruct (filter _ es) as [|e l] eqn:E; [done|].
    assert (e ∈ filter (λ e, en_result e = o) es) as [Ho He]%list_elem_of_filter by (rewrite E; by left). by apply Hn in He.
Qed.

(** One entry for each rule, that of a call that succeeded or failed *)
Definition reports : dict string string → list Entry → Prop :=
  Forall2 (λ x e, en_rule_id e = x.1 ∧ en_alert_rule_id e = Some x.2 ∧ en_result e ≠ already_active).

Lemma reports_keys rules es : reports rules es → en_rule_id <$> es = dkeys rules.
Proof. induction 1 as [|x e l es (H1 & _) _ IH]; cbn; [done|]. by rewrite H1, IH. Qed.

Lemma reports_failed rules es r u :
  dict_wf rules → reports rules es →
  (dget rules r = Some u ∧ (r ∉ en_rule_id <$> filter (λ e, en_result e = success) es)) ↔
  ∃ e, e ∈ es ∧ en_rule_id e = r ∧ en_alert_rule_id e = Some u ∧ en_result e = error.
Proof.
  intros Hwf Hf. pose proof (reports_keys _ _ Hf) as Hk. split.
  - intros [Hu Hr]. apply dget_elem, list_elem_of_lookup in Hu as (i & Hx).
    destruct (Forall2_lookup_l _ _ _ _ _ Hf Hx) as (e & He & H1 & H2 & H3). apply list_elem_of_lookup_2 in He.
    exists e. split_and!; try done. destruct (en_result e) eqn:Er; try done. destruct Hr. apply list_elem_of_fmap.
    exists e. split; [done|]. by apply list_elem_of_filter.
  - intros (e & (i & He)%list_elem_of_lookup & Hr & Hu & Herr).
    destruct (Forall2_lookup_r _ _ _ _ _ Hf He) as ([r' u'] & Hx & H1 & H2 & _). cbn in H1, H2. simplify_eq. split.
    + apply elem_dget; [done|]. by eapply list_elem_of_lookup_2.
    + intros (e' & Hid & [Hs (j & He')%list_elem_of_lookup]%list_elem_of_filter)%list_elem_of_fmap.
      assert (i = j) as <-.
      { eapply (NoDup_lookup (dkeys rules)); [exact Hwf| |]; rewrite <-Hk, list_lookup_fmap; [by rewrite He|by rewrite He', Hid]. }
      congruence.
Qed.

(** What the realtime service answers when it is asked to stop the rules in turn. *)
Fixpoint stop_answers (rules : dict string string) : stM R (list Z) :=
  match rules with
  | [] => mret []
  | (_, uid) :: rules => res ← stop_alert uid; codes ← stop_answers rules; mret (res.2 :: codes)
  end.

Lemma stop_answers_cons rule uid rules w :
  stop_answers ((rule, uid) :: rules) w =
    match stop_alert uid w with
    | (Exn e, w1) => (Exn e, w1)
    | (Ok res, w1) =>
        let '(answers, w2) := stop_answers rules w1 in
        (match answers with Ok codes => Ok (res.2 :: codes) | Exn e => Exn e end, w2)
    end.
Proof.
  cbn [stop_answers]. unfold mbind, stM_bind, mret, stM_ret. destruct (stop_alert uid w) as [[res|e] w1]; [|done].
  by destruct (stop_answers rules w1) as [[codes|e] w2].
Qed.

(** A rule has stopped when it is gone: now, or before. *)
Definition gone (code : Z) : bool := bool_decide (code ∈ [200; 404]%Z).

Definition stop_entries (rules : dict string string) (codes : list Z) : list Entry :=
  zip_with (λ x code, stop_entry x.1 x.2 (mk_Response None "", code)) rules codes.

Lemma stop_calls (rules : dict string string) (s : State) :
  let calls := pmap (λ x : string * string, res ← call (stop_alert x.2); mret (stop_entry x.1 x.2 res)) rules in
  exec calls s =
    let '(answers, w) := stop_answers rules (realtime s) in
    (match answers with Ok codes => Ok (stop_entries rules codes) | Exn e => Exn e end, set_realtime w s).
Proof.
  revert s. induction rules as [|[rule uid] rules IH]; intros s; cbn [pmap]; [by destruct s|].
  rewrite exec_bind, exec_bind, exec_call, stop_answers_cons. unfold zoom. cbn [snd].
  destruct (stop_alert uid (realtime s)) as [[res|e] w]; [|done]. cbn [exec mret proc_ret].
  rewrite exec_bind, IH. cbn [realtime set_realtime].
  by destruct (stop_answers rules w) as [[codes|e] w'].
Qed.

Lemma stop_answers_length rules w codes :
  (stop_answers rules w).1 = Ok codes → length codes = length rules.
Proof.
  revert w codes. induction rules as [|[rule uid] rules IH]; intros w codes; [by intros [= <-]|].
  rewrite stop_answers_cons. destruct (stop_alert uid w) as [[res|e] w1]; [|done].
  destruct (stop_answers rules w1) as [[cs|e] w2] eqn:E; [|done]. intros [= <-]. cbn. f_equal. apply (IH w1). by rewrite E.
Qed.

Lemma stop_entries_reports rules codes : length codes = length rules → reports rules (stop_entries rules codes).
Proof.
  revert codes. induction rules as [|x rules IH]; intros [|code codes] Hl; try done; cbn; constructor; [|by apply IH; injection Hl].
  cbn. split_and!; [done..|by case_match].
Qed.

(** The entries that failed are those whose code says so. *)
Lemma stop_entries_failed rules codes r u :
  (∃ e, e ∈ stop_entries rules codes ∧ en_rule_id e = r ∧ en_alert_rule_id e = Some u ∧ en_result e = error) ↔
  ∃ i code, rules !! i = Some (r, u) ∧ codes !! i = Some code ∧ code ∉ [200; 404]%Z.
Proof.
  assert (∀ code, (if (code =? 200)%Z || (code =? 404)%Z then success else error) = error ↔ code ∉ [200; 404]%Z) as Hc.
  { intros code. rewrite !not_elem_of_cons. destruct (Z.eqb_spec code 200), (Z.eqb_spec code 404); cbn; set_solver. }
  split.
  - intros (e & (i & He)%list_elem_of_lookup & Hr & Hu & Herr). unfold stop_entries in He.
    apply lookup_zip_with_Some in He as ([r' u'] & code & -> & H1 & H2). cbn in *. simplify_eq.
    exists i, code. split_and!; [done..|by apply Hc].
  - intros (i & code & H1 & H2 & Hn%Hc). exists (stop_entry r u (mk_Response None "", code)).
    split_and!; [|done..]. apply list_elem_of_lookup. exists i. apply lookup_zip_with_Some.
    by exists (r, u), code.
Qed.

Lemma stop_entries_count rules codes :
  length codes = length rules → (0 <? count error (stop_entries rules codes))%nat = negb (forallb gone codes).
Proof.
  revert codes. induction rules as [|x rules IH]; intros [|code codes] Hl; try done. cbn [forallb].
  injection Hl as Hl. specialize (IH codes Hl). unfold count, stop_entries in *. cbn [zip_with].
  unfold gone at 1. rewrite filter_cons. cbn [stop_entry en_result snd].
  destruct (Z.eqb_spec code 200) as [->|H1]; [exact IH|]. destruct (Z.eqb_spec code 404) as [->|H2]; [exact IH|].
  rewrite bool_decide_false by set_solver. done.
Qed.

(** Nothing of the camera is left when every stop succeeded. *)
Lemma stopped_all c (s : State) (rules : dict string string) codes :
  inv s [] → length codes = length rules →
  (∀ rule u, tracked s c rule = Some u ↔
     ∃ i code, rules !! i = Some (rule, u) ∧ codes !! i = Some code ∧ code ∉ [200; 404]%Z) →
  forallb gone codes = true ↔ dget (camera_rules s) c = None.
Proof.
  intros Hi Hlen Hkept. rewrite forallb_forall. split.
  - intros Hall. destruct (dget (camera_rules s) c) as [left|] eqn:E; [|done].
    destruct (inv_rules_of _ _ Hi _ _ E) as [Hne _]. destruct left as [|[r u] left]; [done|].
    destruct (proj1 (Hkept r u)) as (i & code & _ & Hcode & Hn).
    { unfold tracked, rules_of. rewrite E. cbn. by rewrite decide_True. }
    specialize (Hall code). destruct Hn.
    apply (bool_decide_eq_true_1 (code ∈ [200; 404]%Z)), Hall, list_elem_of_In. by eapply list_elem_of_lookup_2.
  - intros Hnone code (i & Hcode)%list_elem_of_In%list_elem_of_lookup.
    apply bool_decide_eq_true_2. destruct (decide (code ∈ [200; 404]%Z)) as [|Hn]; [done|].
    destruct (lookup_lt_is_Some_2 rules i) as [[r u] Hx]; [rewrite <-Hlen; by eapply lookup_lt_Some|].
    assert (tracked s c r = Some u) as Ht by (apply Hkept; by exists i, code).
    unfold tracked, rules_of in Ht. by rewrite Hnone in Ht.
Qed.

(** C25. A removal that runs alone asks the realtime service to stop every rule
    of the camera, in turn. When it gets an answer to each, it reports rule and
    answer one by one, keeps exactly the rules whose answer was neither 200 nor
    404, so that a retry finds them, and leaves the other cameras alone; it
    answers 200 if nothing of the camera is left and 502 otherwise. When a stop
    raises, so does the removal, and every rule is kept. *)
Theorem stop_exact c (s : State) :
  inv s [] →
  let rules := rules_of s c in
  let '(answers, w) := stop_answers rules (realtime s) in
  let '(r, s') := exec (stop_camera c) s in
  realtime s' = w ∧
  match answers with
  | Exn e => r = Exn e ∧ ∀ c' rule, tracked s' c' rule = tracked s c' rule
  | Ok codes =>
      (∃ res es, r = Ok res ∧ details res = Some es ∧
         ((λ e, (en_rule_id e, en_alert_rule_id e, en_status e, en_result e)) <$> es) =
           zip_with (λ x code, (x.1, Some x.2, code, if gone code then success else error)) rules codes ∧
         status_code res = if forallb gone codes then 200%Z else 502%Z) ∧
      (∀ rule u, tracked s' c rule = Some u ↔
         ∃ i code, rules !! i = Some (rule, u) ∧ codes !! i = Some code ∧ code ∉ [200; 404]%Z) ∧
      (∀ c' rule, c' ≠ c → tracked s' c' rule = tracked s c' rule) ∧
      (forallb gone codes = true ↔ dget (camera_rules s') c = None)
  end.
Proof.
  intros Hi rules. destruct (exec_wp inv keeps_rules all_block [] _ _ s [] (stop_camera_keeps c) Hi) as (h & -> & Hi').
  revert Hi'. unfold stop_camera. rewrite exec_bind, exec_no_flight.
  2: { destruct (dget (flight_done s) c) as [e|] eqn:E; [|done]. by apply (inv_flight_done _ _ Hi), elem_of_nil in E. }
  rewrite exec_bind. cbn [exec atomic]. rewrite exec_bind. fold rules. rewrite stop_calls.
  pose proof (stop_answers_length rules (realtime s)) as Hlen.
  destruct (stop_answers rules (realtime s)) as [[codes|e] w]; [|done]. specialize (Hlen codes eq_refl).
  rewrite exec_bind. cbn [exec atomic smod mret proc_ret].
  pose proof (stop_entries_reports rules codes Hlen) as Hf. set (es := stop_entries rules codes) in *.
  set (s' := drop_rules _ _ _). intros Hi'. cbn [snd] in Hi'.
  assert (dict_wf rules) as Hwf.
  { unfold rules, rules_of. destruct (dget (camera_rules s) c) eqn:E; [by eapply (inv_rules_of _ _ Hi)|constructor]. }
  assert (∀ r u, tracked s' c r = Some u ↔ ∃ e, e ∈ es ∧ en_rule_id e = r ∧ en_alert_rule_id e = Some u ∧ en_result e = error) as Hfail.
  { intros r u. rewrite <-(reports_failed _ _ _ _ Hwf Hf). unfold s'. rewrite tracked_drop_rules. unfold tracked. case_decide; naive_solver. }
  assert (∀ r u, tracked s' c r = Some u ↔
    ∃ i code, rules !! i = Some (r, u) ∧ codes !! i = Some code ∧ code ∉ [200; 404]%Z) as Hkept.
  { intros r u. rewrite Hfail. apply stop_entries_failed. }
  split; [by unfold s', drop_rules; repeat case_match|]. split_and!.
  - exists (classify_remove es), es. split_and!; [done|by unfold classify_remove; case_match| |].
    + unfold es, stop_entries. clear. revert codes. induction rules as [|x rs IH]; intros [|code codes]; try done.
      cbn. rewrite IH. f_equal. f_equal. unfold gone. destruct (Z.eqb_spec code 200) as [->|]; [done|].
      destruct (Z.eqb_spec code 404) as [->|]; [done|]. by rewrite bool_decide_false by set_solver.
    + unfold classify_remove, es. rewrite stop_entries_count by done. by destruct (forallb gone codes).
  - exact Hkept.
  - intros c' r Hne. unfold s'. rewrite tracked_drop_rules. case_decide; naive_solver.
  - by apply (stopped_all c s' rules).
Qed.

Lemma created_id_spec e r u :
  created_id e = Some (r, u) ↔ en_rule_id e = r ∧ en_alert_rule_id e = Some u ∧ u ≠ "" ∧ en_result e = success.
Proof.
  unfold created_id. destruct e as [r' t st o [id|]]; cbn; [|case_match; naive_solver].
  destruct (String.eqb_spec id ""); case_bool_decide; cbn; naive_solver.
Qed.
Lemma created_get es r u :
  dict_wf (created es) →
  dget (created es) r = Some u ↔
    ∃ e, e ∈ es ∧ en_rule_id e = r ∧ en_alert_rule_id e = Some u ∧ u ≠ "" ∧ en_result e = success.
Proof.
  intros Hwf. transitivity ((r, u) ∈ created es); [by split; [apply dget_elem|apply elem_dget]|].
  unfold created. rewrite list_elem_of_omap. by setoid_rewrite created_id_spec.
Qed.

Lemma preflight_entry_spec c already (s : State) r :
  match preflight_entry c already s r with
  | Some e => en_rule_id e = rule_id r ∧ en_result e ≠ success ∧ (en_result e = already_active ↔ rule_id r ∈ already)
  | None => (rule_id r ∉ already) ∧ prompt (always_on_params r) ≠ ""
  end.
Proof.
  unfold preflight_entry. case_bool_decide; [done|]. destruct (String.eqb_spec (prompt (always_on_params r)) ""); [|done].
  by split_and!.
Qed.

(** Every rule gets an entry, before the calls or from its call. *)
Lemma preflight_entries c rules already (s : State) results to_start (rs : list (Response * Z)) :
  preflight c rules already s = (results, to_start) → length rs = length to_start →
  (∀ e, e ∈ results → en_result e ≠ success) ∧
  ∀ rule, rule ∈ rules → ∃ e, e ∈ results ++ zip_with start_entry to_start rs ∧ en_rule_id e = rule_id rule.
Proof.
  intros [= <- <-] Hlen. split.
  - intros e (r & _ & Hr)%list_elem_of_omap. pose proof (preflight_entry_spec c already s r) as He. rewrite Hr in He. tauto.
  - intros rule Hrule. setoid_rewrite elem_of_app. pose proof (preflight_entry_spec c already s rule) as He.
    destruct (preflight_entry c already s rule) as [e|] eqn:E.
    + exists e. split; [left|tauto]. apply list_elem_of_omap. eauto.
    + assert (rule ∈ filter (λ r, (rule_id r ∉ already) ∧ prompt (always_on_params r) ≠ "") rules) as (i & Hi)%list_elem_of_lookup
        by by apply list_elem_of_filter.
      destruct (lookup_lt_is_Some_2 rs i) as [x Hx]; [rewrite Hlen; by eapply lookup_lt_Some|].
      exists (start_entry rule x). split; [right|apply start_entry_rule]. apply list_elem_of_lookup. exists i.
      by rewrite lookup_zip_with, Hi, Hx.
Qed.

(** The sidecar after the merge, where nothing was created too *)
Lemma merge_tracked c cr (s s' : State) :
  dict_wf cr → exec (match cr with [] => mret tt | kv :: cr' => atomic (merge_created c (kv :: cr')) end) s = (Ok tt, s') →
  ∀ c' r, tracked s' c' r = if decide (c' = c) then match dget cr r with Some u => Some u | None => tracked s c' r end
                            else tracked s c' r.
Proof.
  intros Hwf He c' r. destruct cr as [|kv cr]; [injection He as <-; by case_decide|]. by apply tracked_merge.
Qed.

Lemma fan_out_exact c url name rules (s s' : State) res :
  valid_rules rules = true → exec (fan_out_add c url name rules (dkeys (rules_of s c))) s = (Ok res, s') →
  ∃ es, res = classify_add es ∧
    (∀ c' r, c' ≠ c → tracked s' c' r = tracked s c' r) ∧
    (∀ r u, tracked s' c r = Some u ↔ tracked s c r = Some u ∨
       ∃ e, e ∈ es ∧ en_rule_id e = r ∧ en_alert_rule_id e = Some u ∧ u ≠ "" ∧ en_result e = success) ∧
    (∀ rule, rule ∈ rules → ∃ e, e ∈ es ∧ en_rule_id e = rule_id rule).
Proof.
  intros [_ Hu%unique_rule_ids_NoDup]%andb_true_iff. unfold fan_out_add. rewrite exec_bind. cbn [exec atomic].
  destruct (preflight c rules (dkeys (rules_of s c)) s) as [results to_start] eqn:Ep.
  rewrite exec_bind. destruct (gather_calls (λ r, start_alert (config_for c url name r)) to_start s) as [Hc Hlen].
  destruct (exec (gather _) s) as [[rs|e] s1]; [|done]. cbn in Hc. specialize (Hlen rs eq_refl).
  destruct (preflight_entries _ _ _ _ _ _ _ Ep Hlen) as [Hres Hall]. injection Ep as <- <-.
  set (to_start := filter _ rules) in *. set (results := omap _ rules) in *. set (started := zip_with start_entry to_start rs) in *.
  pose proof (created_keys to_start rs) as Hkeys. fold started in Hkeys. cbv zeta. rewrite exec_bind.
  assert (dict_wf (created started)) as Hwf by (eapply sublist_NoDup; [exact Hu|]; etrans; [done|]; apply fmap_sublist, sublist_filter).
  destruct (exec (match created started with [] => mret tt | _ => _ end) s1) as [[[]|e] s2] eqn:Em; [|done].
  pose proof (merge_tracked c _ _ _ Hwf Em) as Ht. intros [= <- <-].
  assert (∀ c' r, tracked s1 c' r = tracked s c' r) as Hs1 by (intros; unfold tracked, rules_of; by rewrite Hc).
  exists (results ++ started). split_and!; [done| | |exact Hall].
  - intros c' r Hne. by rewrite Ht, decide_False, Hs1.
  - intros r u. rewrite Ht, decide_True, Hs1 by done.
    transitivity (tracked s c r = Some u ∨ dget (created started) r = Some u).
    + destruct (dget (created started) r) as [u'|] eqn:Eu; [|naive_solver].
      assert (tracked s c r = None) as ->; [|naive_solver]. apply dget_None.
      assert (r ∈ dkeys (created started)) as Hk by (apply dget_is_Some; by eexists).
      eapply sublist_subseteq in Hk; [|exact Hkeys]. apply list_elem_of_fmap in Hk as (r' & -> & Hr').
      apply list_elem_of_filter in Hr' as [[? _] _]. done.
    + rewrite created_get by done. setoid_rewrite elem_of_app. naive_solver.
Qed.

Lemma classify_502 es : es ≠ [] → status_code (classify_add es) = 502%Z ↔ ∀ e, e ∈ es → en_result e = error.
Proof.
  intros Hne. pose proof (count_pos success es) as Hs. pose proof (count_pos already_active es) as Ha.
  pose proof (count_pos error es) as He. unfold classify_add.
  assert ((count error es =? 0)%nat = negb (0 <? count error es)%nat) as -> by by destruct (count error es).
  assert ((0 <? count success es + count already_active es)%nat =
    (0 <? count success es)%nat || (0 <? count already_active es)%nat) as -> by by destruct (count success es).
  destruct es as [|e0 es]; [done|].
  destruct (0 <? count error (e0 :: es))%nat eqn:E1; cbn [negb]; [|].
  - destruct (_ || _) eqn:E2; cbn [status_code].
    + split; [done|]. intros Hall. exfalso. apply orb_true_iff in E2 as [E|E]; apply not_false_iff_true in E; apply E.
      * apply Hs. intros e Hin. by rewrite Hall. * apply Ha. intros e Hin. by rewrite Hall.
    + split; [|done]. intros _ e Hin. apply orb_false_iff in E2 as [E2 E3].
      pose proof (proj1 Hs E2 e Hin). pose proof (proj1 Ha E3 e Hin). by destruct (en_result e).
  - cbn [status_code]. split; [done|]. intros Hall. destruct (proj1 He eq_refl e0); [by left|]. apply Hall. by left.
Qed.

(** C26. A start that runs alone changes no other camera, and for its own tracks
    exactly what was tracked before and what its report says was created; every
    configured rule is in the report, and the answer is 502 exactly when all of
    them failed. Without a report nothing was changed. *)
Theorem start_exact c url name (s s' : State) res :
  inv s [] → exec (start_camera rules_file c url name) s = (Ok res, s') →
  match details res with
  | None => camera_rules s' = camera_rules s
  | Some es =>
      (∀ c' r, c' ≠ c → tracked s' c' r = tracked s c' r) ∧
      (∀ r u, tracked s' c r = Some u ↔ tracked s c r = Some u ∨
         ∃ e, e ∈ es ∧ en_rule_id e = r ∧ en_alert_rule_id e = Some u ∧ u ≠ "" ∧ en_result e = success) ∧
      (∀ rules rule, (load_rules rules_file s).1 = Ok rules → rule ∈ rules → ∃ e, e ∈ es ∧ en_rule_id e = rule_id rule) ∧
      (status_code res = 502%Z ↔ ∀ e, e ∈ es → en_result e = error)
  end.
Proof.
  intros Hi. unfold start_camera. rewrite exec_bind, exec_try, exec_bind. cbn [exec atomic].
  destruct (load_rules_ok rules_file s [] Hi) as (Hi1 & Hc1 & Hv).
  destruct (load_rules rules_file s) as [[rules|e] s1]; cbn in Hi1, Hc1; cbn [exec mret proc_ret]; [|destruct (bool_decide (e = AlwaysOnRulesConfigError)); cbn; [by intros [= <- <-]|done]].
  specialize (Hv rules eq_refl). rewrite exec_bind, exec_no_flight.
  2: { destruct (dget (flight_done s1) c) as [e|] eqn:E; [|done]. by apply (inv_flight_done _ _ Hi1), elem_of_nil in E. }
  rewrite exec_bind. cbn [exec atomic]. pose proof (reserve_ok c (rule_id <$> rules) s1 [] Hi1) as Hr.
  destruct (reserve_flight c (rule_id <$> rules) s1) as [[[already|]|e] s2] eqn:Er; [|subst; by intros [= <- <-]|done].
  destruct Hr as [_ Hc2]. assert (already = dkeys (rules_of s2 c)) as ->.
  { revert Er. unfold reserve_flight, rules_of. destruct (forallb _ _); [done|]. case_bool_decide; [done|]. by intros [= <- <-]. }
  unfold pfinally. rewrite exec_bind, exec_try.
  destruct (exec (fan_out_add _ _ _ _ _) s2) as [[res'|e] s3] eqn:Ef; [|cbn; done].
  apply fan_out_exact in Ef as (es & -> & Ho & Ht & Hall); [|done]. cbn [exec atomic]. rewrite exec_bind. cbn [exec atomic release_flight smod].
  intros [= <- <-]. assert (∀ c' r, tracked s2 c' r = tracked s c' r) as Hs by (intros; unfold tracked, rules_of; by rewrite Hc2, Hc1).
  assert (details (classify_add es) = Some es) as -> by (unfold classify_add; by repeat case_match).
  split_and!.
  - intros c' r Hne. rewrite <-Hs. by apply Ho.
  - intros r u. rewrite <-Hs. apply Ht.
  - intros rules' rule [= <-]. apply Hall.
  - apply classify_502. intros ->. destruct rules as [|rule rules]; [done|].
    destruct (Hall rule) as (e & He & _); [by left|]. by apply elem_of_nil in He.
Qed.
End alone.

(** ** Witnesses: a realtime service that numbers its rules *)
Record Log := mk_Log { lg_calls : nat; lg_alive : list string }.
(** Its second call fails when it is for the alert type "flaky". *)
#[export] Instance logging_service : RealtimeService Log := {|
  start_alert := λ cfg l,
    if String.eqb (cfg_alert_type cfg) "flaky" && (lg_calls l =? 1)%nat
    then (Ok (mk_Response None "unreachable", 502%Z), mk_Log (S (lg_calls l)) (lg_alive l))
    else let id := "uid-" +:+ str_Z (Z.of_nat (lg_calls l)) in
         (Ok (mk_Response (Some id) "created", 201%Z), mk_Log (S (lg_calls l)) (lg_alive l ++ [id]));
  stop_alert := λ uid l,
    if bool_decide (uid ∈ lg_alive l) then (Ok (mk_Response None "", 200%Z), mk_Log (lg_calls l) (filter (.≠ uid) (lg_alive l)))
    else (Ok (mk_Response None "", 404%Z), l);
|}.
Definition file_ex : result (list AlwaysOnRuleEntry) :=
  Ok [mk_AlwaysOnRuleEntry "fire" "fire" (mk_AlwaysOnRuleParams "is there a fire?" "");
      mk_AlwaysOnRuleEntry "smoke" "flaky" (mk_AlwaysOnRuleParams "is there smoke?" "")].
Definition streaming : option AlwaysOnEvent := Some (mk_AlwaysOnEvent "cam" (Some "rtsp://cam") (Some "hall") false).
Definition removal : option AlwaysOnEvent := Some (mk_AlwaysOnEvent "cam" None None true).
Definition start0 : State (R:=Log) := new_State (mk_Log 0 []).
Definition request (ev : option AlwaysOnEvent) : proc (State (R:=Log)) unit :=
  _ ← always_on_realtime true file_ex ev; mret tt.
Definition exec_state {A} (p : proc (State (R:=Log)) A) (s : State (R:=Log)) : State (R:=Log) := (exec p s).2.
(** One rule of two started, then both *)
Definition partial_ex : State (R:=Log) := exec_state (request streaming) start0.
Definition both_ex : State (R:=Log) := exec_state (request streaming) partial_ex.
Example partial_then_both :
  (camera_rules partial_ex, camera_rules both_ex) =
  ([("cam", [("fire", "uid-0")])], [("cam", [("fire", "uid-0"); ("smoke", "uid-2")])]).
Proof. vm_compute. reflexivity. Qed.

(** Run some processes in a given order, from a state. *)
Definition run_in_order (s : State (R:=Log)) (ps : list (proc (State (R:=Log)) unit)) (order : list nat) :
    option (State (R:=Log) * bool) :=
  (λ sp, (sp.1, forallb is_done sp.2)) <$> schedule (Go <$> order) (s, ps).
Definition seen (o : option (State (R:=Log) * bool)) : option (dict string (dict string string) * list string * bool) :=
  (λ x, (camera_rules x.1, lg_alive (realtime x.1), x.2)) <$> o.

(** A camera comes back while it is being removed: the start finds its rules still
    tracked and reports them active, then the removal stops them, and the camera
    is left without rules although both requests were answered with 200. *)
Example start_during_removal :
  seen (run_in_order both_ex [request removal; request streaming] [0; 0; 1; 1; 1; 0; 0; 0]%nat) = Some ([], [], true).
Proof. vm_compute. reflexivity. Qed.

(** Two starts and a removal: the removal waits for the first start only; the
    second, which waited too, starts the rule the first could not, and the rule
    runs for a camera whose removal was answered with 200. *)
Example start_outlives_removal :
  seen (run_in_order start0 [request streaming; request streaming; request removal]
          [0; 0; 0; 0; 0; 0; 1; 1; 2; 0; 0; 1; 1; 1; 2; 2; 2; 2; 1; 1; 1]%nat) =
  Some ([("cam", [("smoke", "uid-2")])], ["uid-2"], true).
Proof. vm_compute. reflexivity. Qed.

(** The realtime service drops a rule it has just created, before the other rules
    of the camera have started: its callback finds nothing to remove, and the
    rule is then tracked as active for ever. *)
Example dropped_rule_stays_tracked :
  seen (run_in_order start0 [request streaming; on_realtime_rule_removed "uid-0"] [0; 0; 0; 0; 0; 1; 0; 0; 0]%nat) =
  Some ([("cam", [("fire", "uid-0")])], ["uid-0"], true).
Proof. vm_compute. reflexivity. Qed.

Abbreviation handler_ex := (handler true file_ex).
Abbreviation runs_ex := (rtc (pstep handler_ex realtime_moves)).
Lemma requests_are_handlers evs : Forall handler_ex (request <$> evs).
Proof. apply Forall_fmap, Forall_true. intros ev. apply handler_route. Qed.

(** A start and a removal of the camera, the start just about to merge its rule *)
Definition pool_ex : list (proc (State (R:=Log)) unit) := request <$> [streaming; removal; streaming].
Definition before_merge : State (R:=Log) * list (proc (State (R:=Log)) unit) :=
  after (Go <$> [0; 0; 0; 0; 0; 0; 1]) (start0, pool_ex).
Definition after_merge : State (R:=Log) * list (proc (State (R:=Log)) unit) := after (Go <$> [0; 0]) before_merge.
Definition after_second : State (R:=Log) * list (proc (State (R:=Log)) unit) :=
  after (Go <$> [2; 2; 2; 2; 2]) after_merge.

Lemma after_second_runs : runs_ex (start0, []) (after_second.1, after_second.2).
Proof.
  rewrite <-surjective_pairing. etrans; [apply (pool_spawn_runs handler_ex realtime_moves start0 [] pool_ex), requests_are_handlers|].
  etrans; [apply pool_after|]. etrans; apply pool_after.
Qed.

(** The second start merges the rule that the first could not start. *)
Lemma rules_never_replaced_witness :
  tracked (after (Go <$> [2]) after_second).1 "cam" "fire" = Some "uid-0" ∨
  tracked (after (Go <$> [2]) after_second).1 "cam" "fire" = None.
Proof.
  apply (rules_never_replaced true file_ex (mk_Log 0 []) after_second.1 after_second.2
           (after (Go <$> [2]) after_second).1 (after (Go <$> [2]) after_second).2 "cam" "fire" "uid-0").
  - exact after_second_runs.
  - apply (pool_choose_step _ _ (Go 2)). rewrite <-!surjective_pairing. unfold after, schedule. cbn [fmap list_fmap].
    destruct (choose (Go 2) after_second) as [sp|] eqn:E; [done|]. by vm_compute in E.
  - vm_compute. reflexivity.
Defined.
Example second_start_merges :
  camera_rules (after (Go <$> [2]) after_second).1 = [("cam", [("fire", "uid-0"); ("smoke", "uid-2")])].
Proof. vm_compute. reflexivity. Qed.

(** While the removal waits for the first start, that start can move. *)
Lemma never_stuck_witness :
  ∃ i p p' s', before_merge.2 !! i = Some p ∧ next p before_merge.1 = Some (p', s').
Proof.
  apply (never_stuck true file_ex (mk_Log 0 []) before_merge.1 before_merge.2).
  - exact (pool_after_runs handler_ex realtime_moves (Go <$> [0; 0; 0; 0; 0; 0; 1]) start0 pool_ex (requests_are_handlers _)).
  - intros Hd. apply Forall_lookup_1 with (i := 1) (x := default (request None) (before_merge.2 !! 1)) in Hd; [|vm_compute; reflexivity].
    by vm_compute in Hd.
Defined.

Lemma both_ex_inv : inv both_ex [].
Proof.
  assert (∀ s, inv s [] → inv (exec_state (request streaming) s) []) as Hs.
  { intros s Hi. destruct (exec_wp inv keeps_rules all_block [] (request streaming) _ s [] (handler_ok true file_ex _ (handler_route _ _ _)) Hi)
      as (h & -> & Hi'). exact Hi'. }
  apply Hs, Hs, new_State_inv.
Qed.

(** A service that cannot stop the second of the two rules *)
Definition stubborn_service : RealtimeService Log := {|
  start_alert := start_alert;
  stop_alert := λ uid l,
    if String.eqb uid "uid-2" then (Ok (mk_Response None "", 500%Z), l) else stop_alert uid l;
|}.
Definition stopped_ex : result AlwaysOnResult * State (R:=Log) :=
  exec (@stop_camera Log stubborn_service "cam") both_ex.
Definition result_ex (r : result AlwaysOnResult) : AlwaysOnResult :=
  match r with Ok res => res | Exn _ => mk_AlwaysOnResult 0 "" None end.
Lemma stop_exact_witness :
  status_code (result_ex stopped_ex.1) = 502%Z ∧
  tracked stopped_ex.2 "cam" "smoke" = Some "uid-2" ∧ tracked stopped_ex.2 "cam" "fire" = None.
Proof.
  pose proof (@stop_exact Log stubborn_service "cam" both_ex both_ex_inv) as Hs.
  cbv zeta in Hs. unfold stopped_ex.
  assert (@stop_answers Log stubborn_service (rules_of both_ex "cam") (realtime both_ex) =
    (Ok [200%Z; 500%Z], mk_Log 3 ["uid-2"])) as E by (vm_compute; reflexivity).
  rewrite E in Hs. destruct (exec (@stop_camera Log stubborn_service "cam") both_ex) as [r s'].
  destruct Hs as (_ & (res & es & -> & _ & _ & Hcode) & Hkept & _). split; [exact Hcode|].
  split.
  - apply Hkept. exists 1, 500%Z. split; [reflexivity|]. split; [reflexivity|].
    by apply not_elem_of_cons; split; [|apply not_elem_of_cons; split; [|apply not_elem_of_nil]].
  - destruct (tracked s' "cam" "fire") as [u|] eqn:Et; [|exact Et].
    apply Hkept in Et as (i & code & Hr & Hc & Hn). destruct i as [|[|i]]; cbn in Hc; try discriminate Hc.
    + injection Hc as <-. destruct Hn. by left.
    + vm_compute in Hr. discriminate Hr.
Defined.

Definition second_ex : result AlwaysOnResult * State (R:=Log) := exec (start_camera file_ex "cam2" "rtsp://cam2" "gate") both_ex.
Lemma start_exact_witness :
  match details (result_ex second_ex.1) with
  | None => camera_rules second_ex.2 = camera_rules both_ex
  | Some es => ∀ c' r, c' ≠ "cam2" → tracked second_ex.2 c' r = tracked both_ex c' r
  end.
Proof.
  assert (exec (start_camera file_ex "cam2" "rtsp://cam2" "gate") both_ex = (Ok (result_ex second_ex.1), second_ex.2)) as He
    by (vm_compute; reflexivity).
  pose proof (start_exact file_ex "cam2" "rtsp://cam2" "gate" both_ex second_ex.2 (result_ex second_ex.1) both_ex_inv He) as Hs.
  destruct (details (result_ex second_ex.1)); [exact (proj1 Hs)|exact Hs].
Defined.
