(* ===== verification/RtviClient.v ===== *)
(** * The inference service as the alert service sees it

    [RTVIVLMClient] of [alert/src/realtime/services/rtvi_client.py]: the HTTP
    requests that add, list and remove live streams and run captions on them.
    The server ([RtviServer]) is an interface; the caption request is answered
    only once its stream ends, so it is left running and its answer looked up.
    Paths are relative to the base URL; log texts and the masking of
    credentials in them are left out. *)

From Stdlib Require Import ZArith Lia Strings.String.
From stdpp Require Import base list strings.
From S2P Require Import Prelude PyDict PyFloat PyText PyVal.
Open Scope Z_scope.

(** ** Exceptions of httpx: those below [httpx.HTTPError] carry its name. *)
Definition HTTPError (name : string) : pyexn := NamedError ("httpx.HTTPError." +:+ name).
Definition is_HTTPError (e : pyexn) : bool :=
  match e with NamedError n => String.prefix "httpx.HTTPError." n | _ => false end.
Definition HTTPStatusError : pyexn := HTTPError "HTTPStatusError".

(** A response: [json()], which raises [ValueError] when the body is no JSON *)
Record HttpResponse := mk_HttpResponse {
  rsp_status : Z;
  rsp_json : result pyval;
  rsp_blank : bool;
}.

Class RtviServer (V : Type) := {
  (** method, path and JSON body *)
  http : string → string → option pyval → stM V HttpResponse;
  (** a request left running, and its answer or what it raised, once there is one *)
  post_request : string → pyval → V → nat * V;
  answer : V → nat → option (result HttpResponse);
}.

(** [resp.raise_for_status()] *)
Definition raise_for_status (r : HttpResponse) : result unit :=
  if (200 <=? rsp_status r) && (rsp_status r <? 300) then Ok tt else Exn HTTPStatusError.

Definition EXTENDED_OPTIONAL_FIELDS : list string :=
  ["api_type"; "response_format"; "stream_options"; "max_tokens"; "temperature"; "top_p"; "top_k"; "ignore_eos";
   "seed"; "media_info"; "enable_audio"; "mm_processor_kwargs"].

(** The fields of [d] named in [fields] that are there and not [None] *)
Definition set_fields (fields : list string) (d : dict string pyval) : dict string pyval :=
  omap (λ f, match default VNone (dget d f) with VNone => None | v => Some (f, v) end) fields.

Definition json_get (d : dict string pyval) (f : string) : pyval := default VNone (dget d f).

Section client.
Context {V : Type} {RTVI : RtviServer V}.

Definition stream_entry (payload : dict string pyval) : dict string pyval :=
  [("id", json_get payload "id");
   ("liveStreamUrl", vor (json_get payload "liveStreamUrl") (json_get payload "rtsp_url"));
   ("description", vor (json_get payload "description") (VStr ""))] ++
  set_fields ["sensor_name"; "username"; "password"; "place_name"; "place_type"; "place_lat"; "place_lon"; "place_alt";
              "place_coordinate_x"; "place_coordinate_y"] payload.

(** A request whose response must be a success *)
Definition request (method path : string) (body : option pyval) : stM V HttpResponse :=
  resp ← http method path body;
  _ ← slift (raise_for_status resp);
  mret resp.

Definition start_stream (payload : dict string pyval) : stM V pyval :=
  resp ← request "POST" "/streams/add" (Some (VDict [("streams", VList [VDict (stream_entry payload)])]));
  slift (rsp_json resp).

(** The three envelopes, and an unexpected shape *)
Fixpoint first_list (keys : list string) (body : dict string pyval) : option (list pyval) :=
  match keys with
  | [] => None
  | key :: keys' => match dget body key with Some (VList l) => Some l | _ => first_list keys' body end
  end.
Definition stream_list (body : pyval) : list pyval :=
  match body with
  | VList l => l
  | VDict d => default [] (first_list ["results"; "streams"; "items"; "data"] d)
  | _ => []
  end.
Definition get_stream_info : stM V (list pyval) :=
  resp ← request "GET" "/streams/get-stream-info" None;
  body ← slift (rsp_json resp);
  mret (stream_list body).

(** A deletion: the body, if there is one, must be JSON. *)
Definition delete_path (path : string) : stM V unit :=
  resp ← request "DELETE" path None;
  if rsp_blank resp then mret tt else (_ ← slift (rsp_json resp); mret tt).
Definition stop_stream (rtvi_stream_id : string) : stM V unit := delete_path ("/streams/delete/" +:+ rtvi_stream_id).
Definition stop_captions (stream_id : string) : stM V unit := delete_path ("/generate_captions/" +:+ stream_id).

Definition captions_payload (stream_id : string) (args : dict string pyval) : dict string pyval :=
  [("id", VStr stream_id); ("prompt", json_get args "prompt"); ("model", json_get args "model");
   ("system_prompt", json_get args "system_prompt"); ("chunk_duration", json_get args "chunk_duration");
   ("chunk_overlap_duration", json_get args "chunk_overlap_duration"); ("stream", VBool true);
   ("num_frames_per_second_or_fixed_frames_chunk", json_get args "num_frames_per_second_or_fixed_frames_chunk");
   ("use_fps_for_chunking", json_get args "use_fps_for_chunking"); ("vlm_input_width", json_get args "vlm_input_width");
   ("vlm_input_height", json_get args "vlm_input_height"); ("enable_reasoning", json_get args "enable_reasoning")] ++
  (if truthy (json_get args "alert_category") then [("alert_category", json_get args "alert_category")] else []) ++
  set_fields EXTENDED_OPTIONAL_FIELDS args.

(** The running request, and the outcome of the task that awaits it *)
Definition generate_captions (stream_id : string) (args : dict string pyval) : V → nat * V :=
  post_request "/generate_captions" (VDict (captions_payload stream_id args)).
Definition captions_outcome (task : nat) (v : V) : option (result unit) :=
  (λ r, match r with Ok resp => raise_for_status resp | Exn e => Exn e end) <$> answer v task.

Definition health : stM V bool := λ v,
  match http "GET" "/ready" None v with
  | (Ok resp, v') => (Ok ((200 <=? rsp_status resp) && (rsp_status resp <? 300)), v')
  | (Exn e, v') => (if is_HTTPError e then Ok false else Exn e, v')
  end.
End client.
