(* ===== verification/RuleDocs.v ===== *)
(** * Real-time rules: configuration, documents and their store (alert service)

    [AlertRuleConfig] of [alert/src/realtime/schemas/alert_config.py], the
    documents [RealtimeAlertService] makes of it
    ([alert/src/realtime/services/realtime_service.py]: what is persisted, sent
    to the inference service, kept in memory and shown), and [RuleStore] with
    its Elasticsearch implementation ([services/rule_store.py]) over
    Persistence.v. A dataclass is the dict of its attributes. *)

From Stdlib Require Import ZArith Lia Strings.String.
From stdpp Require Import base list strings gmap sets.
From S2P Require Import Prelude PyDict PyFloat PyText PyVal Persistence RtviClient.
Open Scope Z_scope.

(** ** Configuration *)
Definition STREAM_IDENTITY_OPTIONAL_FIELDS : list string :=
  ["description"; "username"; "password"; "place_name"; "place_type"; "place_lat"; "place_lon"; "place_alt";
   "place_coordinate_x"; "place_coordinate_y"].

(** The fields in order, with their defaults *)
Definition config_fields : list (string * option pyval) :=
  [("live_stream_url", None); ("alert_type", None); ("prompt", None)] ++
  ((λ f, (f, Some VNone)) <$> ["sensor_id"; "sensor_name"]) ++
  ((λ f, (f, Some VNone)) <$> STREAM_IDENTITY_OPTIONAL_FIELDS) ++
  [("system_prompt", Some (VStr "")); ("model", Some (VStr "")); ("chunk_duration", Some (VInt 30));
   ("chunk_overlap_duration", Some (VInt 5)); ("num_frames_per_second_or_fixed_frames_chunk", Some (VInt 10));
   ("use_fps_for_chunking", Some (VBool true)); ("vlm_input_width", Some (VInt 256)); ("vlm_input_height", Some (VInt 256));
   ("enable_reasoning", Some (VBool true))] ++
  ((λ f, (f, Some VNone)) <$> EXTENDED_OPTIONAL_FIELDS).
Definition field_names : list string := config_fields.*1.

Abbreviation AlertRuleConfig := (dict string pyval).

(** The constructor of the dataclass, on keyword arguments *)
Definition new_config (kwargs : dict string pyval) : result AlertRuleConfig :=
  if existsb (λ k, negb (bool_decide (k ∈ field_names))) (dkeys kwargs) then Exn TypeError
  else mapM (λ fd : string * option pyval,
         match dget kwargs fd.1, fd.2 with
         | Some v, _ | None, Some v => Ok (fd.1, v)
         | None, None => Exn TypeError
         end) config_fields.

(** ** Documents *)
Definition build_start_stream_payload (config : AlertRuleConfig) : dict string pyval :=
  [("id", json_get config "sensor_id"); ("liveStreamUrl", json_get config "live_stream_url");
   ("sensor_name", json_get config "sensor_name")] ++
  ((λ f, (f, json_get config f)) <$> STREAM_IDENTITY_OPTIONAL_FIELDS).

(** The fields of a rule that are always written, the model apart *)
Definition RULE_FIELDS : list string :=
  ["live_stream_url"; "alert_type"; "sensor_id"; "sensor_name"; "prompt"; "system_prompt"].
Definition CHUNK_FIELDS : list string :=
  ["chunk_duration"; "chunk_overlap_duration"; "num_frames_per_second_or_fixed_frames_chunk"; "use_fps_for_chunking";
   "vlm_input_width"; "vlm_input_height"; "enable_reasoning"].
Definition copy_fields (fields : list string) (config : AlertRuleConfig) : dict string pyval :=
  (λ f, (f, json_get config f)) <$> fields.

Definition build_rule_doc (config : AlertRuleConfig) (model : pyval) (created_at : string) : document :=
  copy_fields RULE_FIELDS config ++ [("model", model)] ++ copy_fields CHUNK_FIELDS config ++
  [("status", VStr "pending"); ("owns_rtvi_stream", VBool true); ("created_at", VStr created_at)] ++
  set_fields STREAM_IDENTITY_OPTIONAL_FIELDS config ++ set_fields EXTENDED_OPTIONAL_FIELDS config.

(** A rule of the in-memory registry; a created rule and a replayed one have their
    first fields in different orders. *)
Definition CREATED_FIELDS : list string :=
  ["sensor_id"; "sensor_name"; "live_stream_url"; "alert_type"; "prompt"; "system_prompt"].
Definition registry_entry (fields : list string) (rule_id rtvi_stream_id : string) (owns_stream : bool) (config : AlertRuleConfig) (model created_at : pyval)
    : dict string pyval :=
  [("id", VStr rule_id); ("rtvi_stream_id", VStr rtvi_stream_id); ("owns_rtvi_stream", VBool owns_stream)] ++
  copy_fields fields config ++ [("model", model)] ++ copy_fields CHUNK_FIELDS config ++
  [("status", VStr "active"); ("created_at", created_at)] ++
  set_fields STREAM_IDENTITY_OPTIONAL_FIELDS config ++ set_fields EXTENDED_OPTIONAL_FIELDS config.

(** The arguments of [generate_captions] *)
Definition captions_args (config : AlertRuleConfig) (model : pyval) : dict string pyval :=
  [("prompt", json_get config "prompt"); ("model", model); ("system_prompt", json_get config "system_prompt");
   ("alert_category", json_get config "alert_type")] ++
  copy_fields CHUNK_FIELDS config ++ copy_fields EXTENDED_OPTIONAL_FIELDS config.

(** The configuration [_re_onboard_rule] reads from a stored rule *)
Definition doc_model (default_model : string) (rule_doc : document) : pyval :=
  vor (json_get rule_doc "model") (VStr default_model).
Definition config_of_doc (default_model : string) (rule_doc : document) : result AlertRuleConfig :=
  mapM (λ fd : string * option pyval,
    if String.eqb fd.1 "model" then Ok (fd.1, doc_model default_model rule_doc)
    else match fd.2 with
         | None => v ← require (dget rule_doc fd.1) KeyError; Ok (fd.1, v)
         | Some dflt => Ok (fd.1, default dflt (dget rule_doc fd.1))
         end) config_fields.

Definition INTERNAL_FIELDS : list string :=
  ["rtvi_stream_id"; "previous_rtvi_stream_id"; "owns_rtvi_stream"; "_id"; "_index"; "_seq_no"; "_primary_term"].
Definition public_fields (rule : dict string pyval) : dict string pyval := filter (λ kv, kv.1 ∉ INTERNAL_FIELDS) rule.
Definition rule_to_public (rule_doc : document) : dict string pyval :=
  dset (public_fields rule_doc) "id"
    (match dget rule_doc "_id" with Some v => v | None => default (VStr "") (dget rule_doc "id") end).

(** The stream id of a response to [/streams/add]; stream ids are strings. *)
Definition extract_stream_id (rtvi_resp : pyval) : result pyval :=
  results ← vget rtvi_resp "results";
  match results with
  | VList (first :: _) =>
      stream_id ← vget first "id";
      if truthy stream_id then Ok stream_id
      else (a ← vget rtvi_resp "stream_id"; b ← vget rtvi_resp "id"; Ok (vor a b))
  | _ => a ← vget rtvi_resp "stream_id"; b ← vget rtvi_resp "id"; Ok (vor a b)
  end.

(** ** Responses: a body and a status; the texts of messages are left out. *)
Abbreviation response := (dict string pyval * Z)%type.
Definition error_response (code : Z) (error : string) : response := ([("status", VStr "error"); ("error", VStr error)], code).
Definition success_response (code : Z) (fields : dict string pyval) : response := (("status", VStr "success") :: fields, code).

(** ** The store *)
Record RuleStore (E : Type) := mk_RuleStore {
  rs_create : string → document → stM E document;
  rs_get : string → stM E (option document);
  rs_list : document → Z → Z → stM E (list document * Z);
  rs_update : string → document → stM E document;
  rs_delete : string → stM E bool;
}.
Arguments mk_RuleStore {E}. Arguments rs_create {E}. Arguments rs_get {E}. Arguments rs_list {E}.
Arguments rs_update {E}. Arguments rs_delete {E}.

Definition DEFAULT_RULES_COLLECTION : string := "alert-realtime-rules".
(** A missing document is an answer, not an exception. *)
Definition absent_as {E A} (dflt : A) (m : stM E A) : stM E A :=
  scatch m (λ e, if bool_decide (e = DocumentNotFoundError) then mret dflt else sraise e).
Definition ESRuleStore {W} `{EsServer W} (st : PersistenceConfig) (collection : string) : RuleStore (EsClient W) := {|
  rs_create := λ rule_id document, create st collection rule_id document;
  rs_get := λ rule_id, absent_as None (doc ← read st collection rule_id; mret (Some doc));
  rs_list := λ filters size from_, list_documents st collection filters size from_;
  rs_update := λ rule_id partial, update st collection rule_id partial;
  rs_delete := λ rule_id, absent_as false (delete st collection rule_id);
|}.

(** ** Reading back what was written *)
Lemma set_fields_get fields d f :
  dget (set_fields fields d) f =
  if decide (f ∈ fields) then match json_get d f with VNone => None | v => Some v end else None.
Proof.
  unfold set_fields. induction fields as [|g fields IH]; [done|]. cbn [omap list_omap].
  change (default VNone (dget d g)) with (json_get d g).
  destruct (decide (f = g)) as [<-|Hne].
  - rewrite (decide_True (P := f ∈ f :: fields)) by by left.
    destruct (json_get d f) eqn:E; cbn [dget]; rewrite ?decide_True by done; try done.
    rewrite IH. by case_decide.
  - assert (∀ v l, dget ((g, v) :: l) f = dget l f) as Eg by (intros v l; cbn; by rewrite decide_False).
    transitivity (if decide (f ∈ fields) then match json_get d f with VNone => None | v => Some v end else None).
    + rewrite <-IH. destruct (json_get d g); cbn; by rewrite ?decide_False.
    + destruct (decide (f ∈ fields)); [by rewrite decide_True by by right|].
      by rewrite decide_False by (intros [->|]%elem_of_cons; done).
Qed.

Lemma optional_field cfg f :
  f ∈ STREAM_IDENTITY_OPTIONAL_FIELDS ++ EXTENDED_OPTIONAL_FIELDS →
  default VNone (dget (set_fields STREAM_IDENTITY_OPTIONAL_FIELDS cfg ++ set_fields EXTENDED_OPTIONAL_FIELDS cfg) f) = json_get cfg f.
Proof.
  intros Hf. rewrite dget_app, !set_fields_get.
  destruct (decide (f ∈ STREAM_IDENTITY_OPTIONAL_FIELDS)), (decide (f ∈ EXTENDED_OPTIONAL_FIELDS)); try (by destruct (json_get cfg f)).
  by apply elem_of_app in Hf as [|].
Qed.

(** A field written by a rule document, read back *)
Definition written_field (cfg : AlertRuleConfig) (doc : document) (fd : string * option pyval) : Prop :=
  match fd.2 with
  | None => dget doc fd.1 = Some (json_get cfg fd.1)
  | Some dflt => default dflt (dget doc fd.1) = json_get cfg fd.1
  end.
Lemma rule_doc_fields cfg model created_at :
  Forall (λ fd, fd.1 = "model" ∨ written_field cfg (build_rule_doc cfg model created_at) fd) config_fields.
Proof.
  let l := eval vm_compute in config_fields in change config_fields with l.
  repeat (apply Forall_cons; split);
    first [apply Forall_nil_2 | by left | right; first [reflexivity |
      match goal with |- written_field _ _ (?f, _) =>
        refine (optional_field cfg f _); by apply (bool_decide_unpack _); vm_compute end]].
Qed.

Lemma result_mapM_Ok {A B} (f : A → result B) (g : A → B) l :
  Forall (λ x, f x = Ok (g x)) l → mapM f l = Ok (g <$> l).
Proof.
  induction 1 as [|x l Hx _ IH]; [done|]. simpl. by rewrite Hx, IH.
Qed.

(** A configuration as the values of its fields *)
Lemma config_eta (cfg : AlertRuleConfig) :
  dkeys cfg = field_names → cfg = (λ fd : string * option pyval, (fd.1, json_get cfg fd.1)) <$> config_fields.
Proof.
  intros Hk. assert (NoDup field_names) as Hn by (apply (bool_decide_unpack _); by vm_compute).
  assert (cfg = (λ f, (f, json_get cfg f)) <$> field_names) as E.
  { rewrite <-Hk in Hn |- *. unfold dkeys. rewrite <-list_fmap_compose. symmetry.
    transitivity (id <$> cfg); [|apply list_fmap_id]. apply list_fmap_ext. intros i [k v] Hi. cbn. f_equal.
    unfold json_get. erewrite elem_dget; [done|exact Hn|by eapply list_elem_of_lookup_2]. }
  rewrite E at 1. unfold field_names. by rewrite <-list_fmap_compose.
Qed.

Lemma new_config_fields kwargs cfg : new_config kwargs = Ok cfg → dkeys cfg = field_names.
Proof.
  unfold new_config, field_names. destruct (existsb _ _); [done|]. revert cfg.
  induction config_fields as [|fd fds IH]; simpl; intros cfg; [by intros [= <-]|].
  intros ([f v] & Hf & (cfg' & Hc & [= <-])%result_bind_Ok)%result_bind_Ok. cbn. f_equal; [|by apply IH].
  destruct (dget kwargs fd.1), fd.2; by simplify_eq.
Qed.

(** C31. A rule is replayed as it was created: whatever was changed in its document
    besides its configuration, the configuration read back from it is the one it was
    created with, the model having been resolved. *)
Theorem replayed_config kwargs cfg model created_at default_model doc :
  new_config kwargs = Ok cfg → truthy model = true →
  (∀ f, f ∈ field_names → dget doc f = dget (build_rule_doc cfg model created_at) f) →
  config_of_doc default_model doc = Ok (dset cfg "model" model).
Proof.
  intros Hk%new_config_fields Hm Hdoc. unfold config_of_doc.
  rewrite (result_mapM_Ok _ (λ fd, (fd.1, if String.eqb fd.1 "model" then model else json_get cfg fd.1))).
  - f_equal. transitivity (dset ((λ fd : string * option pyval, (fd.1, json_get cfg fd.1)) <$> config_fields) "model" model);
      [reflexivity|by rewrite <-config_eta].
  - apply Forall_forall. intros fd Hfd. pose proof (rule_doc_fields cfg model created_at) as Hw.
    rewrite Forall_forall in Hw. specialize (Hw fd Hfd).
    assert (dget doc fd.1 = dget (build_rule_doc cfg model created_at) fd.1) as E
      by (apply Hdoc, list_elem_of_fmap; eauto).
    destruct (String.eqb_spec fd.1 "model") as [Em|Em].
    + rewrite Em in E. unfold doc_model, json_get. rewrite E.
      change (Ok (fd.1, vor model (VStr default_model)) = Ok (fd.1, model)). unfold vor. by rewrite Hm.
    + destruct Hw as [|Hw]; [done|]. unfold written_field in Hw. rewrite E. destruct fd as [f [d|]]; cbn in *; by rewrite Hw.
Qed.

(** A stored rule, activated, with another writer's note *)
Definition kwargs_ex : dict string pyval :=
  [("live_stream_url", VStr "rtsp://cam"); ("alert_type", VStr "fire"); ("prompt", VStr "is there a fire?");
   ("sensor_id", VStr "cam"); ("place_name", VStr "hall"); ("top_k", VInt 5)].
Definition config_ex : AlertRuleConfig := match new_config kwargs_ex with Ok cfg => cfg | Exn _ => [] end.
Definition doc_ex : document :=
  dupdate (build_rule_doc config_ex (VStr "cosmos") "2025-01-01T00:00:00Z")
    [("status", VStr "active"); ("rtvi_stream_id", VStr "cam"); ("note", VStr "checked")].
Lemma replayed_config_witness : config_of_doc "other" doc_ex = Ok (dset config_ex "model" (VStr "cosmos")).
Proof.
  apply (replayed_config kwargs_ex config_ex (VStr "cosmos") "2025-01-01T00:00:00Z" "other" doc_ex); [reflexivity|reflexivity|].
  apply Forall_forall. let l := eval vm_compute in field_names in change field_names with l.
  repeat (apply Forall_cons; split); [vm_compute; reflexivity..|apply Forall_nil_2].
Defined.
