(* ===== verification/Realtime.v ===== *)
(** * Real-time alert rules (alert service)

    [RealtimeAlertService] of [alert/src/realtime/services/realtime_service.py]:
    a rule is a live stream of the inference service with a caption request on
    it, and several rules of a camera share the stream. The service keeps the
    rules in memory and, when it has a store, in Elasticsearch; it stops a stream
    with its last reader, undoes a creation that fails, and replays the stored
    rules after a restart.

    Every request is a process ([Proc]); what runs between two awaits is one
    action or several, which only adds interleavings. The caption request is
    left running at the inference service ([RtviServer]), its task is done when
    the service has answered it. Tasks the code creates (the cleanup after a late
    failure, the callbacks of the always-on rules) are entered in
    [created_tasks] and run as processes of their own. The number of times the
    readiness loop finds its deadline ahead is an argument ([polls], see
    [first_expired]), as are the fresh id and the clock readings of a request. *)

From Stdlib Require Import ZArith Lia.
From stdpp Require Import base list strings gmap sets relations.
From S2P Require Import Prelude PyDict PyText PyVal Persistence RtviClient RuleDocs Proc.
Open Scope string_scope.
Open Scope list_scope.
Open Scope nat_scope.

Definition StreamReadinessError : pyexn := NamedError "_StreamReadinessError".
Definition StreamIdentityConflict : pyexn := NamedError "_StreamIdentityConflict".
Definition RuntimeError : pyexn := NamedError "RuntimeError".
Definition TimeoutError : pyexn := NamedError "TimeoutError".

(** Tasks created and not awaited *)
Inductive background :=
  | RuleRemoved (alert_rule_id : string)
  | CleanupFailedRule (rtvi_stream_id alert_rule_id : string).

(** How often [clock () >= deadline] is false before it is true, the readings in
    order; [fuel] bounds it when each is at least [interval] after the one before. *)
Fixpoint first_expired (deadline : Z) (clock : nat → Z) (fuel : nat) : nat :=
  match fuel with
  | O => O
  | S fuel => if (deadline <=? clock 0%nat)%Z then O else S (first_expired deadline (λ n, clock (S n)) fuel)
  end.

(** Enough fuel is what the waiting time and the interval allow, so the loop ends. *)
Lemma first_expired_exact deadline clock fuel interval :
  (∀ n, clock n + interval <= clock (S n))%Z → (deadline <= clock 0%nat + interval * Z.of_nat fuel)%Z →
  (deadline <= clock (first_expired deadline clock fuel))%Z ∧ ∀ k, k < first_expired deadline clock fuel → (clock k < deadline)%Z.
Proof.
  revert clock. induction fuel as [|fuel IH]; intros clock Hc Hd; cbn [first_expired]; [split; lia|].
  destruct (Z.leb_spec deadline (clock 0%nat)); [split; [done|lia]|].
  destruct (IH (λ n, clock (S n))) as [H1 H2]; [intros n; apply Hc|specialize (Hc 0%nat); nia|].
  split; [exact H1|]. intros [|k] Hk; [lia|]. apply H2. lia.
Qed.

Definition is_str (v : pyval) (s : string) : bool := match v with VStr s' => String.eqb s' s | _ => false end.

Lemma is_str_spec v s : is_str v s = true ↔ v = VStr s.
Proof. destruct v; cbn; rewrite ?String.eqb_eq; split; congruence. Qed.

(** The first of the streams whose id is given *)
Fixpoint find_stream (sensor_id : string) (streams : list pyval) : result (option pyval) :=
  match streams with
  | [] => Ok None
  | s :: streams' => id ← vget s "id"; if is_str id sensor_id then Ok (Some s) else find_stream sensor_id streams'
  end.
Definition has_stream (sid : string) (streams : list pyval) : result bool :=
  s ← find_stream sid streams; Ok (match s with Some _ => true | None => false end).

Section service.
Context {V : Type} {RTVI : RtviServer V} {E : Type}.
Context (rule_store : option (RuleStore E)) (default_model : string).

Record State := mk_State {
  rules : dict string (dict string pyval);
  caption_tasks : list (nat * string * string);
  readiness_cleaned_streams : gset string;
  readiness_failed_ids : gset string;
  pending_stream_refs : dict string (gset string);
  sensor_locks : gset string;
  replaying : bool;
  created_tasks : list background;
  rtvi : V;
  store : E;
}.
Definition new_State (v : V) (e : E) : State := mk_State [] [] ∅ ∅ [] ∅ false [] v e.

Definition set_rules d s := mk_State d (caption_tasks s) (readiness_cleaned_streams s) (readiness_failed_ids s)
  (pending_stream_refs s) (sensor_locks s) (replaying s) (created_tasks s) (rtvi s) (store s).
Definition set_caption_tasks l s := mk_State (rules s) l (readiness_cleaned_streams s) (readiness_failed_ids s)
  (pending_stream_refs s) (sensor_locks s) (replaying s) (created_tasks s) (rtvi s) (store s).
Definition set_cleaned c s := mk_State (rules s) (caption_tasks s) c (readiness_failed_ids s)
  (pending_stream_refs s) (sensor_locks s) (replaying s) (created_tasks s) (rtvi s) (store s).
Definition set_failed f s := mk_State (rules s) (caption_tasks s) (readiness_cleaned_streams s) f
  (pending_stream_refs s) (sensor_locks s) (replaying s) (created_tasks s) (rtvi s) (store s).
Definition set_refs d s := mk_State (rules s) (caption_tasks s) (readiness_cleaned_streams s) (readiness_failed_ids s)
  d (sensor_locks s) (replaying s) (created_tasks s) (rtvi s) (store s).
Definition set_locks l s := mk_State (rules s) (caption_tasks s) (readiness_cleaned_streams s) (readiness_failed_ids s)
  (pending_stream_refs s) l (replaying s) (created_tasks s) (rtvi s) (store s).
Definition set_replaying b s := mk_State (rules s) (caption_tasks s) (readiness_cleaned_streams s) (readiness_failed_ids s)
  (pending_stream_refs s) (sensor_locks s) b (created_tasks s) (rtvi s) (store s).
Definition set_created l s := mk_State (rules s) (caption_tasks s) (readiness_cleaned_streams s) (readiness_failed_ids s)
  (pending_stream_refs s) (sensor_locks s) (replaying s) l (rtvi s) (store s).
Definition set_rtvi v s := mk_State (rules s) (caption_tasks s) (readiness_cleaned_streams s) (readiness_failed_ids s)
  (pending_stream_refs s) (sensor_locks s) (replaying s) (created_tasks s) v (store s).
Definition set_store e s := mk_State (rules s) (caption_tasks s) (readiness_cleaned_streams s) (readiness_failed_ids s)
  (pending_stream_refs s) (sensor_locks s) (replaying s) (created_tasks s) (rtvi s) e.

Definition read {A} (f : State → A) : proc State A := atomic (λ s, (Ok (f s), s)).
Definition modify (f : State → State) : proc State unit := atomic (smod f).
Definition rtvi_call {A} (m : stM V A) : proc State A := await (zoom rtvi set_rtvi m).
Definition store_call {A} (m : stM E A) : proc State A := await (zoom store set_store m).

(** [try: m except Exception: pass] *)
Definition best_effort {A} (m : proc State A) : proc State unit :=
  ptry is_Exception (_ ← m; mret tt) (λ _, mret tt).

(** ** In-flight readers of a stream *)
Definition register_pending_stream_ref (rtvi_stream_id alert_rule_id : string) : proc State unit := modify (λ s,
  set_refs (dset (pending_stream_refs s) rtvi_stream_id
    ({[alert_rule_id]} ∪ default ∅ (dget (pending_stream_refs s) rtvi_stream_id))) s).
Definition unregister_pending_stream_ref (rtvi_stream_id alert_rule_id : string) : proc State unit := modify (λ s,
  match dget (pending_stream_refs s) rtvi_stream_id with
  | None => s
  | Some refs =>
      let refs' := refs ∖ {[alert_rule_id]} in
      set_refs (if bool_decide (refs' = ∅) then ddel (pending_stream_refs s) rtvi_stream_id
                else dset (pending_stream_refs s) rtvi_stream_id refs') s
  end).

(** ** Streams *)

Definition add_stream (config : AlertRuleConfig) : proc State (string * bool) :=
  rtvi_resp ← rtvi_call (start_stream (build_start_stream_payload config));
  stream_id ← plift (extract_stream_id rtvi_resp);
  match stream_id with
  | VStr id => if String.eqb id "" then praise RuntimeError else mret (id, true)
  | _ => praise RuntimeError
  end.

(** A stream that is registered under the sensor's id, unless for another URL *)
Definition reuse_stream (sensor_id : string) (config : AlertRuleConfig) (existing : pyval) : proc State (string * bool) :=
  requested_url ← plift (as_str (vor (json_get config "live_stream_url") (VStr "")));
  url ← plift (vget existing "liveStreamUrl");
  existing_url ← plift (as_str (vor url (VStr "")));
  let requested_url := py_strip requested_url in
  let existing_url := py_strip existing_url in
  if negb (String.eqb requested_url "") && negb (String.eqb existing_url "") && negb (String.eqb existing_url requested_url)
  then praise StreamIdentityConflict
  else mret (sensor_id, false).

Definition resolve_locked (sensor_id : string) (config : AlertRuleConfig) : proc State (string * bool) :=
  streams ← ptry is_HTTPError (l ← rtvi_call get_stream_info; mret (Some l)) (λ _, mret None);
  match streams with
  | None => add_stream config
  | Some streams =>
      existing ← plift (find_stream sensor_id streams);
      match existing with
      | Some existing => reuse_stream sensor_id config existing
      | None => add_stream config
      end
  end.

Definition acquire_sensor (sensor_id : string) : proc State unit :=
  wait_then (λ s, bool_decide (sensor_id ∉ sensor_locks s)) (λ s, set_locks ({[sensor_id]} ∪ sensor_locks s) s).
Definition release_sensor (sensor_id : string) : proc State unit :=
  modify (λ s, set_locks (sensor_locks s ∖ {[sensor_id]}) s).

Definition resolve_or_add_stream (config : AlertRuleConfig) : proc State (string * bool) :=
  match json_get config "sensor_id" with
  | VStr sensor_id =>
      _ ← acquire_sensor sensor_id;
      pfinally (resolve_locked sensor_id config) (release_sensor sensor_id)
  | _ => add_stream config
  end.

(** ** Readiness *)
Definition task_outcome (task : nat) (s : State) : option (result unit) := captions_outcome task (rtvi s).

Definition final_check (task : nat) : proc State unit :=
  r ← read (task_outcome task);
  match r with Some (Exn _) => praise StreamReadinessError | _ => mret tt end.

Fixpoint readiness_loop (polls : nat) (task : nat) (rtvi_stream_id : string) (visible : bool) : proc State unit :=
  r ← read (task_outcome task);
  match r with
  | Some (Ok _) => mret tt
  | Some (Exn _) => praise StreamReadinessError
  | None =>
      visible ← (if visible then mret true
                 else ptry is_HTTPError (streams ← rtvi_call get_stream_info; plift (has_stream rtvi_stream_id streams))
                        (λ _, mret false));
      match polls with
      | O => final_check task
      | S polls => _ ← await (mret tt); readiness_loop polls task rtvi_stream_id visible
      end
  end.

Definition wait_stream_ready (polls task : nat) (rtvi_stream_id : string) (owns_stream : bool) : proc State unit :=
  acknowledged ← await (λ s, match task_outcome task s with
                             | Some (Ok _) => (Ok true, s)
                             | Some (Exn e) => (if bool_decide (e = TimeoutError) then Ok false else Exn e, s)
                             | None => (Ok false, s)
                             end);
  if (acknowledged : bool) || negb owns_stream then mret tt
  else readiness_loop polls task rtvi_stream_id false.

(** ** Stopping streams *)
Definition safe_stop_stream (rtvi_stream_id : string) : proc State unit :=
  ptry is_HTTPError (rtvi_call (stop_stream rtvi_stream_id)) (λ _, mret tt).
Definition safe_stop_captions (rtvi_stream_id : string) : proc State unit :=
  ptry is_HTTPError (rtvi_call (stop_captions rtvi_stream_id)) (λ _, mret tt).
Definition safe_teardown_rtvi (rtvi_stream_id : string) (stop_stream : bool) : proc State unit :=
  _ ← gather (safe_stop_captions rtvi_stream_id :: if stop_stream then [safe_stop_stream rtvi_stream_id] else []);
  mret tt.

(** A call that reports whether it went well *)
Definition succeeds (m : stM V unit) : proc State bool := ptry is_HTTPError (_ ← rtvi_call m; mret true) (λ _, mret false).
Definition safe_teardown_rtvi_with_outcome (rtvi_stream_id : string) (stop_stream : bool) : proc State bool :=
  oks ← gather (succeeds (stop_captions rtvi_stream_id) ::
                if stop_stream then [succeeds (RtviClient.stop_stream rtvi_stream_id)] else []);
  mret (forallb id oks).

(** ** Counting readers *)
Definition text_of (v : pyval) : string := match v with VStr s => s | _ => "" end.
Definition item_id (item : document) : string := text_of (vor (json_get item "_id") (json_get item "id")).
Definition other_ids (exclude_rule_id : string) (items : list document) : list string :=
  filter (λ id, id ≠ "" ∧ id ≠ exclude_rule_id) (item_id <$> items).
Definition rules_on (rtvi_stream_id exclude_rule_id : string) (s : State) : list string :=
  dkeys (filter (λ x : string * dict string pyval, x.1 ≠ exclude_rule_id ∧ is_str (json_get x.2 "rtvi_stream_id") rtvi_stream_id) (rules s)).

Definition count_other_rules_for_stream (rtvi_stream_id exclude_rule_id : string) (statuses : list string)
    (include_pending_refs : bool) : proc State nat :=
  seen ← match rule_store with
         | Some st =>
             pmap (λ status, ptry is_Exception
               (result ← store_call (rs_list st [("rtvi_stream_id", VStr rtvi_stream_id); ("status", VStr status)] 200 0);
                mret (other_ids exclude_rule_id result.1)) (λ _, mret [])) statuses
         | None => ids ← read (rules_on rtvi_stream_id exclude_rule_id); mret [ids]
         end;
  let seen : gset string := list_to_set (concat seen) in
  if include_pending_refs
  then refs ← read (λ s, default ∅ (dget (pending_stream_refs s) rtvi_stream_id));
       mret (size (seen ∪ (refs ∖ {[exclude_rule_id]})))
  else mret (size seen).

(** ** Undoing a creation *)
Definition failed_fields : document := [("status", VStr "failed"); ("rtvi_stream_id", VNone)].
Definition with_store (f : RuleStore E → proc State unit) : proc State unit :=
  match rule_store with Some st => f st | None => mret tt end.
Definition rollback_rule (alert_rule_id : string) : proc State unit :=
  with_store (λ st, best_effort (store_call (rs_delete st alert_rule_id))).
Definition mark_rule_failed (alert_rule_id : string) : proc State unit :=
  with_store (λ st, best_effort (store_call (rs_update st alert_rule_id failed_fields))).

Definition maybe_stop_stream_on_rollback (rtvi_stream_id alert_rule_id : string) (owns_stream : bool) : proc State unit :=
  if negb owns_stream then mret tt
  else other_count ← count_other_rules_for_stream rtvi_stream_id alert_rule_id ["active"; "pending"] true;
       if (other_count =? 0)%nat then safe_stop_stream rtvi_stream_id else mret tt.

(** ** [start_alert] *)

(** The outcome of the first steps: what to go on with, or the response *)
Definition persist_rule (alert_rule_id : string) (rule_doc : document) : proc State bool :=
  match rule_store with
  | None => mret true
  | Some st => ptry is_Exception (_ ← store_call (rs_create st alert_rule_id rule_doc); mret true) (λ _, mret false)
  end.

Definition resolve_error (e : pyexn) : response :=
  if is_HTTPError e then error_response 502 "rtvi_vlm_unavailable"
  else if bool_decide (e = StreamIdentityConflict) then error_response 409 "rtvi_stream_conflict"
  else error_response 502 "rtvi_invalid_response".
Definition resolve_or_rollback (config : AlertRuleConfig) (alert_rule_id : string) : proc State ((string * bool) + response) :=
  ptry (λ e, is_HTTPError e || bool_decide (e ∈ [StreamIdentityConflict; RuntimeError]))
    (x ← resolve_or_add_stream config; mret (inl x))
    (λ e, _ ← rollback_rule alert_rule_id; mret (inr (resolve_error e))).

Definition ready_or_rollback (polls task : nat) (rtvi_stream_id alert_rule_id : string) (owns_stream : bool)
    : proc State (option response) :=
  ptry (λ e, is_HTTPError e || bool_decide (e = StreamReadinessError))
    (_ ← wait_stream_ready polls task rtvi_stream_id owns_stream; mret None)
    (λ e,
      if is_HTTPError e then
        _ ← rollback_rule alert_rule_id;
        _ ← maybe_stop_stream_on_rollback rtvi_stream_id alert_rule_id owns_stream;
        mret (Some (error_response 502 "rtvi_vlm_unavailable"))
      else
        _ ← modify (λ s, set_cleaned ({[rtvi_stream_id]} ∪ readiness_cleaned_streams s) s);
        _ ← mark_rule_failed alert_rule_id;
        _ ← maybe_stop_stream_on_rollback rtvi_stream_id alert_rule_id owns_stream;
        mret (Some (error_response 502 "rtvi_stream_not_readable"))).

(** A task that is still running is watched for a late failure. *)
Definition watch_task (task : nat) (rtvi_stream_id alert_rule_id : string) : proc State unit := modify (λ s,
  match task_outcome task s with
  | Some _ => s
  | None => set_caption_tasks (caption_tasks s ++ [(task, rtvi_stream_id, alert_rule_id)]) s
  end).

Definition active_fields (rtvi_stream_id : string) (owns_stream : bool) : document :=
  [("rtvi_stream_id", VStr rtvi_stream_id); ("status", VStr "active"); ("owns_rtvi_stream", VBool owns_stream)].
Definition activate_or_rollback (rtvi_stream_id alert_rule_id : string) (owns_stream : bool) : proc State (option response) :=
  match rule_store with
  | None => mret None
  | Some st =>
      ptry is_Exception
        (_ ← store_call (rs_update st alert_rule_id (active_fields rtvi_stream_id owns_stream)); mret None)
        (λ _, _ ← rollback_rule alert_rule_id;
              _ ← maybe_stop_stream_on_rollback rtvi_stream_id alert_rule_id owns_stream;
              mret (Some (error_response 502 "elasticsearch_write_failed")))
  end.

(** The readiness guard and the registry: [false] when the task failed meanwhile *)
Definition commit_rule (alert_rule_id : string) (rule : dict string pyval) : proc State bool := atomic (λ s,
  if bool_decide (alert_rule_id ∈ readiness_failed_ids s)
  then (Ok false, set_failed (readiness_failed_ids s ∖ {[alert_rule_id]}) s)
  else (Ok true, set_rules (dset (rules s) alert_rule_id rule) s)).

Definition create_on_stream (polls : nat) (config : AlertRuleConfig) (model : pyval) (alert_rule_id created_at rtvi_stream_id : string)
    (owns_stream : bool) : proc State response :=
  task ← atomic (zoom rtvi set_rtvi (λ v, let '(task, v') := generate_captions rtvi_stream_id (captions_args config model) v in (Ok task, v')));
  failed ← ready_or_rollback polls task rtvi_stream_id alert_rule_id owns_stream;
  match failed with Some r => mret r | None =>
  _ ← watch_task task rtvi_stream_id alert_rule_id;
  failed ← activate_or_rollback rtvi_stream_id alert_rule_id owns_stream;
  match failed with Some r => mret r | None =>
  committed ← commit_rule alert_rule_id (registry_entry CREATED_FIELDS alert_rule_id rtvi_stream_id owns_stream config model (VStr created_at));
  if (committed : bool) then
    mret (success_response 201 [("id", VStr alert_rule_id); ("created_at", VStr created_at)])
  else
    _ ← mark_rule_failed alert_rule_id;
    mret (error_response 502 "rtvi_stream_not_readable")
  end end.

Definition start_alert (polls : nat) (alert_rule_id created_at : string) (config : AlertRuleConfig) : proc State response :=
  busy ← read replaying;
  if (busy : bool) then mret (error_response 503 "replay_in_progress")
  else
  let model := vor (json_get config "model") (VStr default_model) in
  if negb (truthy model) then mret (error_response 422 "validation_failed") else
  persisted ← persist_rule alert_rule_id (build_rule_doc config model created_at);
  if negb persisted then mret (error_response 502 "elasticsearch_write_failed") else
  resolved ← resolve_or_rollback config alert_rule_id;
  match resolved with
  | inr r => mret r
  | inl (rtvi_stream_id, owns_stream) =>
      _ ← register_pending_stream_ref rtvi_stream_id alert_rule_id;
      pfinally (create_on_stream polls config model alert_rule_id created_at rtvi_stream_id owns_stream)
        (unregister_pending_stream_ref rtvi_stream_id alert_rule_id)
  end.

(** ** [stop_alert] *)
Definition drop_rule (alert_rule_id : string) : proc State unit := modify (λ s, set_rules (ddel (rules s) alert_rule_id) s).
Definition deleted_response (alert_rule_id : string) : response := success_response 200 [("id", VStr alert_rule_id)].

Definition stop_alert_memory (alert_rule_id : string) : proc State response :=
  rule ← read (λ s, dget (rules s) alert_rule_id);
  match rule with
  | None => mret (error_response 404 "not_found")
  | Some rule =>
      _ ← drop_rule alert_rule_id;
      let rtvi_stream_id := text_of (json_get rule "rtvi_stream_id") in
      _ ← (if String.eqb rtvi_stream_id "" then mret tt
           else other_count ← count_other_rules_for_stream rtvi_stream_id alert_rule_id ["active"] false;
                safe_teardown_rtvi rtvi_stream_id (other_count =? 0));
      mret (deleted_response alert_rule_id)
  end.

Definition stop_alert_persistent (st : RuleStore E) (alert_rule_id : string) : proc State response :=
  rule ← ptry is_Exception (r ← store_call (rs_get st alert_rule_id); mret (inl r)) (λ _, mret (inr tt));
  match rule with
  | inr _ => mret (error_response 502 "elasticsearch_query_failed")
  | inl None => mret (error_response 404 "not_found")
  | inl (Some rule) =>
      deleted ← ptry is_Exception (d ← store_call (rs_delete st alert_rule_id); mret (Some d)) (λ _, mret None);
      match deleted with
      | None => mret (error_response 502 "elasticsearch_write_failed")
      | Some false => _ ← drop_rule alert_rule_id; mret (error_response 404 "not_found")
      | Some true =>
          _ ← drop_rule alert_rule_id;
          let rtvi_stream_id := text_of (json_get rule "rtvi_stream_id") in
          _ ← (if String.eqb rtvi_stream_id "" then mret true
               else other_count ← count_other_rules_for_stream rtvi_stream_id alert_rule_id ["active"] false;
                    safe_teardown_rtvi_with_outcome rtvi_stream_id (other_count =? 0));
          mret (deleted_response alert_rule_id)
      end
  end.

Definition stop_alert (alert_rule_id : string) : proc State response :=
  busy ← read replaying;
  if (busy : bool) then mret (error_response 503 "replay_in_progress")
  else match rule_store with
       | Some st => stop_alert_persistent st alert_rule_id
       | None => stop_alert_memory alert_rule_id
       end.

(** ** Late failures *)
Definition create_task (t : background) : proc State unit := modify (λ s, set_created (created_tasks s ++ [t]) s).

Definition first_rule_on (rtvi_stream_id : string) (s : State) : option string :=
  head (dkeys (filter (λ x : string * dict string pyval, is_str (json_get x.2 "rtvi_stream_id") rtvi_stream_id) (rules s))).
Definition the_rule (rtvi_stream_id : string) (alert_rule_id : option string) : proc State (option string) :=
  match alert_rule_id with Some id => mret (Some id) | None => read (first_rule_on rtvi_stream_id) end.

Definition cleanup_failed_rule (rtvi_stream_id : string) (alert_rule_id : option string) : proc State unit :=
  target ← the_rule rtvi_stream_id alert_rule_id;
  match target with
  | None => safe_stop_stream rtvi_stream_id
  | Some id =>
      _ ← modify (λ s, set_failed ({[id]} ∪ readiness_failed_ids s) s);
      other_count ← count_other_rules_for_stream rtvi_stream_id id ["active"; "pending"] true;
      _ ← (if (other_count =? 0)%nat then safe_stop_stream rtvi_stream_id else mret tt);
      _ ← drop_rule id;
      _ ← mark_rule_failed id;
      create_task (RuleRemoved id)
  end.

(** The callback of a watched task that is done *)
Definition log_caption_task_result (task : nat) (rtvi_stream_id alert_rule_id : string) : proc State unit := modify (λ s,
  if bool_decide ((task, rtvi_stream_id, alert_rule_id) ∈ caption_tasks s) then
    match task_outcome task s with
    | None => s
    | Some r =>
        let s := set_caption_tasks (filter (.≠ (task, rtvi_stream_id, alert_rule_id)) (caption_tasks s)) s in
        match r with
        | Ok _ => s
        | Exn _ =>
            if bool_decide (rtvi_stream_id ∈ readiness_cleaned_streams s)
            then set_cleaned (readiness_cleaned_streams s ∖ {[rtvi_stream_id]}) s
            else set_created (created_tasks s ++ [CleanupFailedRule rtvi_stream_id alert_rule_id])
                   (set_failed ({[alert_rule_id]} ∪ readiness_failed_ids s) s)
        end
    end
  else s).

(** ** Replay *)
Definition try_list (st : RuleStore E) (filters : document) (size from_ : Z) : proc State (option (list document * Z)) :=
  ptry is_Exception (r ← store_call (rs_list st filters size from_); mret (Some r)) (λ _, mret None).

(** A step of a replay; when it fails the rule is marked and the callbacks run. *)
Definition or_fail {A} (m : proc State A) (undo : proc State unit) (rule_id : string) : proc State A :=
  ptry is_Exception m
    (λ e, _ ← undo; _ ← mark_rule_failed rule_id; _ ← create_task (RuleRemoved rule_id); praise e).

Definition re_onboard_on_stream (st : RuleStore E) (polls : nat) (now rule_id : string) (rule_doc : document) (config : AlertRuleConfig)
    (rtvi_stream_id : string) (owns_stream : bool) : proc State string :=
  let model := doc_model default_model rule_doc in
  let undo := maybe_stop_stream_on_rollback rtvi_stream_id rule_id owns_stream in
  task ← atomic (zoom rtvi set_rtvi (λ v, let '(task, v') := generate_captions rtvi_stream_id (captions_args config model) v in (Ok task, v')));
  _ ← or_fail (wait_stream_ready polls task rtvi_stream_id owns_stream)
        (_ ← modify (λ s, set_cleaned ({[rtvi_stream_id]} ∪ readiness_cleaned_streams s) s); undo) rule_id;
  _ ← watch_task task rtvi_stream_id rule_id;
  _ ← or_fail (store_call (rs_update st rule_id
        [("rtvi_stream_id", VStr rtvi_stream_id); ("last_replay_at", VStr now); ("status", VStr "active");
         ("owns_rtvi_stream", VBool owns_stream)])) undo rule_id;
  let created_at := default (VStr "") (dget rule_doc "created_at") in
  _ ← modify (λ s, set_rules (dset (rules s) rule_id
        (registry_entry RULE_FIELDS rule_id rtvi_stream_id owns_stream config model created_at)) s);
  mret rtvi_stream_id.

Definition re_onboard_rule (st : RuleStore E) (polls : nat) (now rule_id : string) (rule_doc : document) : proc State string :=
  config ← plift (config_of_doc default_model rule_doc);
  '(rtvi_stream_id, owns_stream) ← or_fail (resolve_or_add_stream config) (mret tt) rule_id;
  _ ← register_pending_stream_ref rtvi_stream_id rule_id;
  pfinally (re_onboard_on_stream st polls now rule_id rule_doc config rtvi_stream_id owns_stream)
    (unregister_pending_stream_ref rtvi_stream_id rule_id).

(** The entry of a rule in the report: its id and whether it went well *)
Definition replay_one (st : RuleStore E) (polls : nat) (now : string) (rule_doc : document) : proc State (string * bool) :=
  let rule_id := text_of (json_get rule_doc "_id") in
  ptry is_Exception (_ ← re_onboard_rule st polls now rule_id rule_doc; mret (rule_id, true)) (λ _, mret (rule_id, false)).

Definition replayable (rule_doc : document) : bool :=
  existsb (is_str (json_get rule_doc "status")) ["active"; "failed"; "pending"].
Definition replay_response (details : list (string * bool)) : response :=
  success_response 200
    [("replayed", VInt (Z.of_nat (length (filter (λ d : string * bool, d.2 = true) details))));
     ("failed", VInt (Z.of_nat (length (filter (λ d : string * bool, d.2 = false) details))));
     ("total", VInt (Z.of_nat (length details)))].

Definition do_replay (st : RuleStore E) (polls : nat) (now : string) : proc State response :=
  found ← try_list st [] 10000 0;
  match found with
  | None => mret (error_response 502 "elasticsearch_query_failed")
  | Some (items, _) =>
      details ← gather (replay_one st polls now <$> filter replayable items);
      mret (replay_response details)
  end.

Definition replay (polls : nat) (now : string) : proc State response :=
  match rule_store with
  | None => mret (error_response 501 "persistence_disabled")
  | Some st =>
      free ← atomic (λ s, if replaying s then (Ok false, s) else (Ok true, set_replaying true s));
      if (free : bool) then pfinally (do_replay st polls now) (modify (set_replaying false))
      else mret (error_response 409 "replay_in_flight")
  end.

(** ** Reading *)
Definition list_response (found : option (list document * Z)) : response :=
  match found with
  | None => error_response 502 "elasticsearch_query_failed"
  | Some (items, total) =>
      success_response 200 [("rules", VList ((λ item, VDict (rule_to_public item)) <$> items));
                            ("count", VInt (Z.of_nat (length items))); ("total", VInt total)]
  end.
Definition memory_list (s : State) : list pyval := (λ rule, VDict (public_fields rule)) <$> dvals (rules s).
Definition list_alerts (filters : document) (size from_ : Z) : proc State response :=
  match rule_store with
  | None =>
      l ← read memory_list;
      mret (success_response 200 [("rules", VList l); ("count", VInt (Z.of_nat (length l)))])
  | Some st =>
      let filters := if dmem filters "status" then filters else dset filters "status" (VStr "active") in
      found ← try_list st filters size from_;
      mret (list_response found)
  end.
Definition get_alert (alert_rule_id : string) : proc State response :=
  match rule_store with
  | None =>
      rule ← read (λ s, dget (rules s) alert_rule_id);
      mret (match rule with
            | None => error_response 404 "not_found"
            | Some rule => success_response 200 [("rule", VDict (public_fields rule))]
            end)
  | Some st =>
      rule ← ptry is_Exception (r ← store_call (rs_get st alert_rule_id); mret (inl r)) (λ _, mret (inr tt));
      mret (match rule with
            | inr _ => error_response 502 "elasticsearch_query_failed"
            | inl None => error_response 404 "not_found"
            | inl (Some rule) => success_response 200 [("rule", VDict (rule_to_public rule))]
            end)
  end.
End service.

(** ** Every interleaving *)

(** The live streams registered at the inference service, and how many of its
    listings it has failed to answer. Ids it makes up itself are recognisable
    ([minted]); a stream is only added under the id asked for. The laws hold for
    no streams at all too, when nothing is to be said about them. *)
Class RtviLaws (V : Type) `{RtviServer V} (registry : V → list string) (unanswered : V → nat)
    (minted : string → bool) : Prop := {
  info_registry v : registry (get_stream_info v).2 = registry v;
  info_complete v l x : (get_stream_info v).1 = Ok l → find_stream x l = Ok None → x ∉ registry v;
  info_unanswered v :
    match get_stream_info v with
    | (Ok _, v') => unanswered v ≤ unanswered v'
    | (Exn e, v') => unanswered v ≤ unanswered v' ∧
        (is_HTTPError e = true → unanswered v < unanswered v' ∨ ∀ v, registry v = [])
    end;
  add_registry payload v :
    registry (start_stream payload v).2 = registry v ∨
    ∃ x, registry (start_stream payload v).2 = registry v ++ [x] ∧
      match json_get payload "id" with VStr id => x = id | _ => minted x = true end;
  add_unanswered payload v : unanswered v ≤ unanswered (start_stream payload v).2;
  stop_registry x v : registry (stop_stream x v).2 `sublist_of` registry v ∧ unanswered v ≤ unanswered (stop_stream x v).2;
  captions_registry x v :
    registry (stop_captions x v).2 `sublist_of` registry v ∧ unanswered v ≤ unanswered (stop_captions x v).2;
  generate_registry x args v :
    registry (generate_captions x args v).2 `sublist_of` registry v ∧ unanswered v ≤ unanswered (generate_captions x args v).2;
}.

Section interleavings.
Context {V : Type} {RTVI : RtviServer V} {registry : V → list string} {unanswered : V → nat} {minted : string → bool} {LAWS : RtviLaws V registry unanswered minted}.
Context {E : Type} (rule_store : option (RuleStore E)) (default_model : string).
Abbreviation State := (State (V:=V) (E:=E)).
Implicit Types (s : State).

(** What a process holds: the lock of a sensor, after a probe that did not find
    its stream or was not answered if so marked; a reference to a stream; the
    replay flag *)
Inductive held := Lock (sensor_id : string) (absent : bool) | Ref (rtvi_stream_id alert_rule_id : string) | Replaying.
Definition blocks (r : held) : Prop := match r with Lock _ _ => True | _ => False end.
Definition locks (hs : list held) : list string := omap (λ r, match r with Lock x _ => Some x | _ => None end) hs.
Definition replays (hs : list held) : list unit := omap (λ r, match r with Replaying => Some tt | _ => None end) hs.
Definition times (x : string) (v : V) : nat := length (filter (.= x) (registry v)).
(** Each camera is there once, or once more for every listing not answered. *)
Definition cameras_once (v : V) : Prop := ∀ x, minted x = false → times x v ≤ S (unanswered v).

Record inv s (hs : list held) : Prop := {
  inv_locks x : x ∈ sensor_locks s ↔ x ∈ locks hs;
  inv_excl : NoDup (locks hs);
  inv_refs sid refs rid : dget (pending_stream_refs s) sid = Some refs → rid ∈ refs → Ref sid rid ∈ hs;
  inv_refs_ne sid refs : dget (pending_stream_refs s) sid = Some refs → refs ≠ ∅;
  inv_replaying : replaying s = true ↔ Replaying ∈ hs;
  inv_one : (length (replays hs) ≤ 1)%nat;
  inv_cameras : cameras_once (rtvi s);
  inv_absent x : Lock x true ∈ hs → minted x = false → times x (rtvi s) ≤ unanswered (rtvi s);
}.

#[export] Instance inv_proper s : Proper ((≡ₚ) ==> iff) (inv s).
Proof.
  intros hs hs' E'. assert (locks hs ≡ₚ locks hs') as El by (unfold locks; by rewrite E').
  assert (replays hs ≡ₚ replays hs') as Er by (unfold replays; by rewrite E').
  split; intros [H1 H2 H3 H4 H5 H6 H7 H8]; split; try done.
  - intros x. by rewrite <-El. - by rewrite <-El. - intros sid refs rid. rewrite <-E'. apply H3.
  - by rewrite <-E'. - by rewrite <-Er. - intros x. rewrite <-E'. apply H8.
  - intros x. by rewrite El. - by rewrite El. - intros sid refs rid. rewrite E'. apply H3.
  - by rewrite E'. - by rewrite Er. - intros x. rewrite E'. apply H8.
Qed.

Definition any_step : relation State := λ _ _, True.
Abbreviation wp := (wp inv any_step blocks).
Abbreviation keeps := (keeps inv any_step blocks).
Abbreviation unblocking := (Forall (λ r, ¬ blocks r)).

(** *** Steps that concern nobody *)
Definition quiet_step s s' : Prop :=
  sensor_locks s' = sensor_locks s ∧ pending_stream_refs s' = pending_stream_refs s ∧ replaying s' = replaying s ∧
  registry (rtvi s') `sublist_of` registry (rtvi s) ∧ unanswered (rtvi s) ≤ unanswered (rtvi s').

Lemma times_sublist x v v' : registry v' `sublist_of` registry v → times x v' ≤ times x v.
Proof.
  unfold times. induction 1 as [|y l l' _ IH|y l l' _ IH]; rewrite ?filter_cons; [done| |];
    destruct (decide _); cbn [length]; lia.
Qed.
Lemma times_added x y v v' :
  registry v' = registry v ++ [y] → times x v' = times x v + if decide (y = x) then 1 else 0.
Proof.
  unfold times. intros ->. rewrite filter_app, length_app, filter_cons. by destruct (decide (y = x)).
Qed.
Lemma times_absent x v : x ∉ registry v → times x v = 0.
Proof.
  intros Hx. unfold times. rewrite list_filter_none; [done|]. by intros y Hy ->.
Qed.

Lemma rt_quiet_inv s s' hs : quiet_step s s' → inv s hs → inv s' hs.
Proof.
  intros (E1 & E2 & E3 & E4 & E5) [H1 H2 H3 H4 H5 H6 H7 H8]. split; rewrite ?E1, ?E2, ?E3; try done.
  - intros x Hm. specialize (H7 x Hm). pose proof (times_sublist x _ _ E4). lia.
  - intros x Hx Hm. specialize (H8 x Hx Hm). pose proof (times_sublist x _ _ E4). lia.
Qed.

Lemma rt_keeps_quiet {A} h (aw : bool) (op : stM State A) :
  (∀ s, quiet_step s (op s).2) → keeps h (Act aw op Done).
Proof. intros Hq. apply keeps_act. intros s R HI. split; [done|]. by eapply rt_quiet_inv. Qed.

Lemma quiet_registry v s :
  registry v `sublist_of` registry (rtvi s) ∧ unanswered (rtvi s) ≤ unanswered v → quiet_step s (set_rtvi v s).
Proof. intros [Hv Hu]. by split_and!. Qed.
Lemma quiet_set (f : State → State) :
  (∀ s, sensor_locks (f s) = sensor_locks s ∧ pending_stream_refs (f s) = pending_stream_refs s ∧
        replaying (f s) = replaying s ∧ rtvi (f s) = rtvi s) →
  ∀ s, quiet_step s (f s).
Proof. intros Hf s. destruct (Hf s) as (E1 & E2 & E3 & E4). split_and!; [done..|by rewrite E4|by rewrite E4]. Qed.

Lemma rt_keeps_read {A} h (f : State → A) : keeps h (read f).
Proof. apply rt_keeps_quiet. intros s. by split_and!. Qed.
Lemma keeps_modify h (f : State → State) :
  (∀ s, sensor_locks (f s) = sensor_locks s ∧ pending_stream_refs (f s) = pending_stream_refs s ∧
        replaying (f s) = replaying s ∧ rtvi (f s) = rtvi s) → keeps h (modify f).
Proof. intros Hf. apply rt_keeps_quiet. intros s. by apply quiet_set. Qed.
Lemma keeps_rtvi_call {A} h (m : stM V A) :
  (∀ v, registry (m v).2 `sublist_of` registry v ∧ unanswered v ≤ unanswered (m v).2) → keeps h (rtvi_call m).
Proof.
  intros Hm. apply rt_keeps_quiet. intros s. unfold zoom. specialize (Hm (rtvi s)). destruct (m (rtvi s)) as [r v].
  by apply quiet_registry.
Qed.
Lemma keeps_store_call {A} h (m : stM E A) : keeps h (store_call m).
Proof. apply rt_keeps_quiet. intros s. unfold zoom. destruct (m (store s)) as [r e]. by split_and!. Qed.
Lemma keeps_task h x args :
  keeps h (atomic (zoom rtvi set_rtvi (λ v, let '(task, v') := generate_captions x args v in (Ok task, v')))).
Proof.
  apply rt_keeps_quiet. intros s. unfold zoom. pose proof (generate_registry x args (rtvi s)) as Hg.
  destruct (generate_captions x args (rtvi s)) as [task v]. by apply quiet_registry.
Qed.

(** Programs made of such steps *)
Create HintDb rkeep.
Ltac rkeep := repeat first
  [ progress intros
  | solve [auto with rkeep nocore]
  | apply keeps_ret
  | apply keeps_bind
  | apply keeps_try
  | apply keeps_map
  | apply rt_keeps_read
  | apply keeps_store_call
  | apply keeps_task
  | apply keeps_modify; by intros ?; split_and!
  | apply keeps_gather
  | match goal with
    | H : _ ∈ [] |- _ => by apply elem_of_nil in H
    | H : _ ∈ _ :: _ |- _ => apply elem_of_cons in H as [->|H]
    | |- Proc.keeps _ _ _ _ (match ?x with _ => _ end) => destruct x
    end ].

Lemma keeps_get_stream_info h : keeps h (rtvi_call get_stream_info).
Proof.
  apply keeps_rtvi_call. intros v. rewrite info_registry. split; [done|]. pose proof (info_unanswered v) as Hu.
  destruct (get_stream_info v) as [[l|e] v']; [done|]. apply Hu.
Qed.
Lemma keeps_stop_stream h x : keeps h (rtvi_call (stop_stream x)).
Proof. apply keeps_rtvi_call. apply stop_registry. Qed.
Lemma keeps_stop_captions h x : keeps h (rtvi_call (stop_captions x)).
Proof. apply keeps_rtvi_call. apply captions_registry. Qed.
Hint Resolve keeps_get_stream_info keeps_stop_stream keeps_stop_captions : rkeep.

Lemma keeps_count rs h x id statuses pending : keeps h (count_other_rules_for_stream rs x id statuses pending).
Proof. unfold count_other_rules_for_stream. rkeep. Qed.
Hint Resolve keeps_count : rkeep.
Lemma keeps_safe_stop_stream h x : keeps h (safe_stop_stream x).
Proof. unfold safe_stop_stream. rkeep. Qed.
Lemma keeps_safe_teardown h x b : keeps h (safe_teardown_rtvi x b).
Proof. unfold safe_teardown_rtvi, safe_stop_captions, safe_stop_stream. destruct b; rkeep. Qed.
Lemma keeps_safe_outcome h x b : keeps h (safe_teardown_rtvi_with_outcome x b).
Proof. unfold safe_teardown_rtvi_with_outcome, succeeds. destruct b; rkeep. Qed.
Lemma keeps_rollback_rule rs h id : keeps h (rollback_rule rs id).
Proof. unfold rollback_rule, with_store, best_effort. rkeep. Qed.
Lemma keeps_mark_rule_failed rs h id : keeps h (mark_rule_failed rs id).
Proof. unfold mark_rule_failed, with_store, best_effort. rkeep. Qed.
Hint Resolve keeps_safe_stop_stream keeps_safe_teardown keeps_safe_outcome keeps_rollback_rule keeps_mark_rule_failed : rkeep.
Lemma keeps_maybe_stop rs h x id owns : keeps h (maybe_stop_stream_on_rollback rs x id owns).
Proof. unfold maybe_stop_stream_on_rollback. rkeep. Qed.
Hint Resolve keeps_maybe_stop : rkeep.
Lemma keeps_sleep h : keeps h (await (mret tt)).
Proof. apply rt_keeps_quiet. intros s. by split_and!. Qed.
Hint Resolve keeps_sleep : rkeep.
Lemma keeps_readiness_loop h polls task x visible : keeps h (readiness_loop polls task x visible).
Proof. revert visible. induction polls as [|polls IH]; intros visible; cbn [readiness_loop]; unfold final_check; rkeep. Qed.
Hint Resolve keeps_readiness_loop : rkeep.
Lemma keeps_wait_stream_ready h polls task x owns : keeps h (wait_stream_ready polls task x owns).
Proof.
  unfold wait_stream_ready. apply keeps_bind; [|rkeep]. apply rt_keeps_quiet. intros s. by repeat case_match.
Qed.
Hint Resolve keeps_wait_stream_ready : rkeep.

(** *** The lock of a sensor *)
Lemma acquire_wp h x :
  unblocking h → wp h (acquire_sensor x) (λ r h', match r with Ok _ => h' = Lock x false :: h | Exn _ => h' = h end).
Proof.
  intros Hh. split_and!; [done| | |done].
  - intros s R HI HR. apply bool_decide_eq_true. rewrite (inv_locks _ _ HI). intros Hx.
    apply list_elem_of_omap in Hx as (r & Hr & Hl). rewrite Forall_forall in HR. apply HR in Hr. by destruct r.
  - intros s R HI Hr%bool_decide_eq_true. split; [done|]. exists (Lock x false :: h). split; [|done].
    destruct HI as [H1 H2 H3 H4 H5 H6 H7 H8]. split; cbn [sensor_locks set_locks pending_stream_refs replaying rtvi app].
    + intros y. cbn. rewrite elem_of_union, elem_of_singleton, elem_of_cons, H1. done.
    + cbn. apply NoDup_cons. by rewrite <-H1.
    + intros sid refs rid Hd Hin. right. by eapply H3.
    + done. + rewrite H5, elem_of_cons. naive_solver. + done. + done.
    + intros y [|Hy]%elem_of_cons; [done|by apply H8].
Qed.

Lemma lock_dropped x b b' s hs : inv s (Lock x b :: hs) → (b' = true → b = true) → inv s (Lock x b' :: hs).
Proof.
  intros [H1 H2 H3 H4 H5 H6 H7 H8] Hb. split; try done.
  - intros sid refs rid Hd Hin. apply elem_of_cons. right. specialize (H3 _ _ _ Hd Hin).
    by apply elem_of_cons in H3 as [|].
  - rewrite H5, !elem_of_cons. naive_solver.
  - intros y [[= -> E']|Hy]%elem_of_cons; apply H8; [|by right]. rewrite (Hb (eq_sym E')). by left.
Qed.

Lemma release_wp_lock h x b : wp (Lock x b :: h) (release_sensor x) (λ _ h', h' = h).
Proof.
  split; [|done]. intros s R [H1 H2 H3 H4 H5 H6 H7 H8]. split; [done|]. exists h. split; [|done].
  cbn in H2. apply NoDup_cons in H2 as [Hx H2].
  split; cbn [modify smod snd sensor_locks set_locks pending_stream_refs replaying rtvi]; try done.
  - intros y. rewrite elem_of_difference, elem_of_singleton, H1. cbn. rewrite elem_of_cons. naive_solver.
  - intros sid refs rid Hd Hin. specialize (H3 _ _ _ Hd Hin). by apply elem_of_cons in H3 as [|].
  - rewrite H5. cbn. rewrite elem_of_cons. naive_solver.
  - intros y Hy. apply H8. by right.
Qed.

(** A stream is added by a request that has no sensor, or whose probe did not find
    it or was not answered. *)
Lemma added_ok config x b s hs :
  inv s (Lock x b :: hs) → json_get config "sensor_id" = VStr x → (b = true ∨ ∀ v, registry v = []) →
  inv (set_rtvi (start_stream (build_start_stream_payload config) (rtvi s)).2 s) (Lock x false :: hs).
Proof.
  intros HI Hx Hb. pose proof (add_unanswered (build_start_stream_payload config) (rtvi s)) as Hu.
  destruct (add_registry (build_start_stream_payload config) (rtvi s)) as [E1|(y & E1 & Hy)].
  { eapply (lock_dropped x b); [|done]. eapply rt_quiet_inv; [|done]. apply quiet_registry. by rewrite E1. }
  destruct Hb as [->|Hb]; [|rewrite Hb in E1; by destruct (registry (rtvi s))].
  change (json_get (build_start_stream_payload config) "id") with (json_get config "sensor_id") in Hy. rewrite Hx in Hy. subst y.
  pose proof (inv_absent _ _ HI x ltac:(by left)) as Hn. apply (lock_dropped x true false) in HI; [|done].
  destruct HI as [H1 H2 H3 H4 H5 H6 H7 H8]. split; try done; cbn [rtvi set_rtvi].
  - intros z Hz. rewrite (times_added z x _ _ E1). specialize (H7 z Hz). destruct (decide (x = z)) as [->|]; [|lia].
    specialize (Hn Hz). lia.
  - intros z Hz Hm. rewrite (times_added z x _ _ E1). specialize (H8 z Hz Hm).
    apply elem_of_cons in Hz as [|Hz]; [done|]. cbn in H2. apply NoDup_cons in H2 as [Hnx _].
    rewrite decide_False; [lia|]. intros ->. apply Hnx. apply list_elem_of_omap. by exists (Lock z true).
Qed.

Lemma minted_ok config s hs :
  inv s hs → (∀ x, json_get config "sensor_id" ≠ VStr x) →
  inv (set_rtvi (start_stream (build_start_stream_payload config) (rtvi s)).2 s) hs.
Proof.
  intros HI Hx. pose proof (add_unanswered (build_start_stream_payload config) (rtvi s)) as Hu.
  destruct (add_registry (build_start_stream_payload config) (rtvi s)) as [E1|(y & E1 & Hy)].
  { eapply rt_quiet_inv; [|done]. apply quiet_registry. by rewrite E1. }
  change (json_get (build_start_stream_payload config) "id") with (json_get config "sensor_id") in Hy.
  assert (minted y = true) as Hm by (by destruct (json_get config "sensor_id") eqn:Ej; try done; destruct (Hx s0)).
  assert (∀ z, minted z = false → y ≠ z) as Hne by congruence.
  destruct HI as [H1 H2 H3 H4 H5 H6 H7 H8]. split; try done; cbn [rtvi set_rtvi].
  - intros z Hz. rewrite (times_added z y _ _ E1), decide_False by auto. specialize (H7 z Hz). lia.
  - intros z Hz Hn. rewrite (times_added z y _ _ E1), decide_False by auto. specialize (H8 z Hz Hn). lia.
Qed.

(** What is made of the response keeps everything. *)
Lemma add_stream_wp config h h' :
  (∀ s R, inv s (h ++ R) → inv (set_rtvi (start_stream (build_start_stream_payload config) (rtvi s)).2 s) (h' ++ R)) →
  (∀ s R, inv s (h ++ R) → inv s (h' ++ R)) →
  wp h (add_stream config) (λ _ h'', h'' = h ∨ h'' = h').
Proof.
  intros Hadd Hweak. unfold add_stream. apply wp_bind. split; [|by left].
  intros s R HI. split; [done|]. exists h'. specialize (Hadd s R HI). unfold zoom.
  destruct (start_stream _ (rtvi s)) as [r v]. split; [done|].
  destruct r as [resp|e]; [|by right]. simpl. destruct (extract_stream_id resp) as [[]|e]; simpl; try by right.
  case_match; by right.
Qed.

Lemma keeps_add_minted config h : (∀ x, json_get config "sensor_id" ≠ VStr x) → keeps h (add_stream config).
Proof.
  intros Hx. eapply wp_mono; [|apply (add_stream_wp config h h)]; [by intros r h' [->| ->]| |done].
  intros s R HI. by apply minted_ok.
Qed.

Lemma keeps_reuse h x config existing : keeps h (reuse_stream x config existing).
Proof. unfold reuse_stream. rkeep. Qed.
Hint Resolve keeps_reuse : rkeep.

Lemma resolve_locked_wp x config h :
  json_get config "sensor_id" = VStr x →
  wp (Lock x false :: h) (resolve_locked x config) (λ _ h', ∃ b, h' = Lock x b :: h).
Proof.
  intros Hx. unfold resolve_locked. apply wp_bind.
  assert (∀ b, b = true ∨ (∀ v, registry v = []) →
    wp (Lock x b :: h) (add_stream config) (λ _ h', ∃ b, h' = Lock x b :: h)) as Hadd.
  { intros b Hb. eapply wp_mono; [|apply (add_stream_wp config _ (Lock x false :: h))]; [intros r h' [->| ->]; by eexists|..].
    - intros s R HI. by apply (added_ok config x b).
    - intros s R HI. by eapply lock_dropped. }
  apply (wp_mono _ _ _ _ _ (λ r h', match r with
    | Ok (Some l) => h' = Lock x (match find_stream x l with Ok None => true | _ => false end) :: h
    | Ok None => ∃ b, h' = Lock x b :: h ∧ (b = true ∨ ∀ v, registry v = [])
    | Exn _ => h' = Lock x false :: h end)).
  - intros [[l|]|e] h'; [intros ->|intros (b & -> & Hb); by apply Hadd|intros ->; by eexists].
    unfold plift. destruct (find_stream x l) as [[existing|]|e]; [|by apply Hadd; left|by eexists].
    change (wp (Lock x false :: h) (reuse_stream x config existing) (λ _ h', ∃ b, h' = Lock x b :: h)).
    eapply wp_mono; [|apply keeps_reuse]. intros r h' ->. by eexists.
  - apply wp_try, wp_bind. split; [|done]. intros s R HI. split; [done|]. unfold zoom.
    pose proof (info_registry (rtvi s)) as Hi. pose proof (info_complete (rtvi s)) as Hc.
    pose proof (info_unanswered (rtvi s)) as Hw.
    destruct (get_stream_info (rtvi s)) as [r v] eqn:Eg. cbn [fst snd] in Hi, Hc.
    assert (unanswered (rtvi s) ≤ unanswered v) as Hu by (by destruct r; [|apply Hw]).
    assert (inv (set_rtvi v s) (Lock x false :: h ++ R)) as HI'
      by (eapply rt_quiet_inv; [apply quiet_registry; by rewrite Hi|done]).
    assert (times x (rtvi s) ≤ unanswered v ∨ minted x = true → inv (set_rtvi v s) (Lock x true :: h ++ R)) as Hmark.
    { intros Ht. destruct HI' as [H1 H2 H3 H4 H5 H6 H7 H8]. split; try done.
      - intros sid refs rid Hd Hin. specialize (H3 _ _ _ Hd Hin). apply elem_of_cons in H3 as [|]; [done|by right].
      - rewrite H5. cbn. rewrite !elem_of_cons. naive_solver.
      - intros y [[= ->]|Hy]%elem_of_cons Hm; [|apply H8; [by right|done]]. cbn [rtvi set_rtvi].
        destruct Ht as [Ht|Ht]; [|congruence]. unfold times in *. by rewrite Hi. }
    destruct r as [l|e].
    + exists (Lock x (match find_stream x l with Ok None => true | _ => false end) :: h). split; [|done].
      destruct (find_stream x l) as [[?|]|?] eqn:Ef; try done. apply Hmark. left.
      rewrite times_absent by (by eapply Hc). lia.
    + destruct Hw as [_ Hw]. destruct (is_HTTPError e) eqn:Ee.
      2: { exists (Lock x false :: h). split; [done|]. simpl. by rewrite Ee. }
      specialize (Hw eq_refl). destruct Hw as [Hw|Hw].
      * exists (Lock x true :: h). split; [|simpl; rewrite Ee; simpl; by eauto].
        destruct (minted x) eqn:Em; [apply Hmark; by right|]. apply Hmark. left.
        pose proof (inv_cameras _ _ HI x Em). lia.
      * exists (Lock x false :: h). split; [done|]. simpl. rewrite Ee. simpl. eauto.
Qed.

Lemma keeps_resolve h config : unblocking h → keeps h (resolve_or_add_stream config).
Proof.
  intros Hh. unfold resolve_or_add_stream. destruct (json_get config "sensor_id") eqn:Hx;
    try (apply keeps_add_minted; intros y; by rewrite Hx).
  apply wp_bind. eapply wp_mono; [|by apply acquire_wp]. intros [[]|e] h' ->; [|done].
  apply wp_finally. eapply wp_mono; [|by apply resolve_locked_wp]. intros r h' [b ->].
  eapply wp_mono; [|apply release_wp_lock]. by intros [] h' ->.
Qed.

(** *** References *)
Lemma register_wp h sid rid : wp h (register_pending_stream_ref sid rid) (λ r h', r = Ok tt ∧ h' = Ref sid rid :: h).
Proof.
  split; [|done]. intros s R [H1 H2 H3 H4 H5 H6 H7 H8]. split; [done|]. exists (Ref sid rid :: h). split; [|done].
  split; cbn [modify smod snd sensor_locks set_refs pending_stream_refs replaying rtvi app]; try done.
  - intros sid' refs rid'. rewrite dget_dset. case_decide as Hd.
    + subst. intros [= <-] [->%elem_of_singleton|Hin]%elem_of_union; [by left|]. right.
      destruct (dget (pending_stream_refs s) sid') as [refs|] eqn:Er; [by eapply H3|by apply elem_of_empty in Hin].
    + intros Hr Hin. right. by eapply H3.
  - intros sid' refs. rewrite dget_dset. case_decide; [intros [= <-]; set_solver|apply H4].
  - rewrite H5, elem_of_cons. naive_solver.
  - intros x [|Hx]%elem_of_cons; [done|by apply H8].
Qed.

Lemma unregister_wp h sid rid : wp (Ref sid rid :: h) (unregister_pending_stream_ref sid rid) (λ _ h', h' = h).
Proof.
  split; [|done]. intros s R [H1 H2 H3 H4 H5 H6 H7 H8]. split; [done|]. exists h. split; [|done].
  set (s' := snd _). assert (sensor_locks s' = sensor_locks s ∧ replaying s' = replaying s ∧ rtvi s' = rtvi s ∧
    ∀ sid' refs, dget (pending_stream_refs s') sid' = Some refs →
      refs ≠ ∅ ∧ ∀ rid', rid' ∈ refs → Ref sid' rid' ∈ h ++ R) as (E1 & E2 & E3 & E4).
  { unfold s', unregister_pending_stream_ref, modify, smod. cbn [snd].
    assert (∀ sid' refs, dget (pending_stream_refs s) sid' = Some refs → sid' ≠ sid →
      refs ≠ ∅ ∧ ∀ rid', rid' ∈ refs → Ref sid' rid' ∈ h ++ R) as Hother.
    { intros sid' refs Hd Hne. split; [by eapply H4|]. intros rid' Hin. specialize (H3 _ _ _ Hd Hin).
      by apply elem_of_cons in H3 as [[=]|]. }
    destruct (dget (pending_stream_refs s) sid) as [refs0|] eqn:E0; split_and!; try done.
    - cbn [pending_stream_refs set_refs]. intros sid' refs. case_bool_decide as He.
      + rewrite dget_ddel. case_decide; [done|]. intros Hd. by apply Hother.
      + rewrite dget_dset. case_decide as Hs; [|intros Hd; by apply Hother]. subst. intros [= <-]. split; [done|].
        intros rid' [Hin Hr]%elem_of_difference. specialize (H3 _ _ _ E0 Hin). apply elem_of_cons in H3 as [[= ->]|]; [|done].
        by destruct Hr; apply elem_of_singleton.
    - intros sid' refs Hd. apply Hother; [done|]. intros ->. by rewrite E0 in Hd. }
  split; rewrite ?E1, ?E2, ?E3; try done.
  - intros sid' refs rid' Hd. by apply E4. - intros sid' refs Hd. by apply E4 in Hd as [? _].
  - rewrite H5. cbn. rewrite elem_of_cons. naive_solver.
  - intros x Hx. apply H8. by right.
Qed.

(** The body of a creation, between the two *)
Lemma referenced {A} h sid rid (m : proc State A) :
  keeps (Ref sid rid :: h) m →
  keeps h (_ ← register_pending_stream_ref sid rid; pfinally m (unregister_pending_stream_ref sid rid)).
Proof.
  intros Hm. apply wp_bind. eapply wp_mono; [|apply register_wp]. intros r h' [-> ->].
  apply wp_finally. eapply wp_mono; [|exact Hm]. intros r h' ->.
  eapply wp_mono; [|apply unregister_wp]. by intros [] h' ->.
Qed.

(** *** Requests *)
Lemma keeps_commit h id rule : keeps h (commit_rule id rule).
Proof. apply rt_keeps_quiet. intros s. simpl. by case_bool_decide. Qed.
Hint Resolve keeps_commit keeps_wait_stream_ready : rkeep.

Lemma keeps_ready_or_rollback rs h polls task sid rid owns : keeps h (ready_or_rollback rs polls task sid rid owns).
Proof. unfold ready_or_rollback. rkeep. Qed.
Lemma keeps_watch h task sid rid : keeps h (watch_task task sid rid).
Proof. apply keeps_modify. intros s. by destruct (task_outcome task s). Qed.
Lemma keeps_activate rs h sid rid owns : keeps h (activate_or_rollback rs sid rid owns).
Proof. unfold activate_or_rollback. rkeep. Qed.
Hint Resolve keeps_ready_or_rollback keeps_watch keeps_activate : rkeep.

Lemma keeps_start rs h polls id created config :
  unblocking h → keeps h (start_alert rs default_model polls id created config).
Proof.
  intros Hh. unfold start_alert. apply keeps_bind; [apply rt_keeps_read|]. intros [|]; [done|].
  destruct (negb _); [done|]. apply keeps_bind; [unfold persist_rule; rkeep|]. intros persisted. destruct (negb _); [done|].
  apply keeps_bind; [|intros [[sid owns]|r]; [|done]].
  - unfold resolve_or_rollback. apply keeps_try; [|rkeep]. apply keeps_bind; [by apply keeps_resolve|done].
  - apply referenced. unfold create_on_stream. rkeep.
Qed.

Lemma keeps_stop rs h id : keeps h (stop_alert rs id).
Proof. unfold stop_alert, stop_alert_persistent, stop_alert_memory. rkeep. Qed.

Lemma keeps_cleanup rs h sid rid : keeps h (cleanup_failed_rule rs sid rid).
Proof. unfold cleanup_failed_rule, the_rule. rkeep. Qed.

Lemma keeps_log h task sid rid : keeps h (log_caption_task_result task sid rid).
Proof.
  apply keeps_modify. intros s. case_bool_decide; [|done]. destruct (task_outcome task s) as [[u|e]|]; [done| |done].
  cbn [readiness_cleaned_streams set_caption_tasks]. by case_bool_decide.
Qed.

Lemma keeps_or_fail {A} rs h (m : proc State A) undo rid :
  keeps h m → keeps h undo → keeps h (or_fail rs m undo rid).
Proof. intros Hm Hu. unfold or_fail. apply keeps_try; [done|]. intros e. apply keeps_bind; [done|]. unfold create_task. rkeep. Qed.

Lemma keeps_replay_one rs h st polls now doc :
  unblocking h → keeps h (replay_one rs default_model st polls now doc).
Proof.
  intros Hh. unfold replay_one, re_onboard_rule. apply keeps_try; [|done]. apply keeps_bind; [|done].
  apply keeps_bind; [done|]. intros config. apply keeps_bind; [by apply keeps_or_fail; [apply keeps_resolve|]|].
  intros [sid owns]. apply referenced. unfold re_onboard_on_stream. apply keeps_bind; [apply keeps_task|]. intros task.
  apply keeps_bind; [apply keeps_or_fail; rkeep|]. intros _. apply keeps_bind; [rkeep|]. intros _.
  apply keeps_bind; [apply keeps_or_fail; rkeep|]. rkeep.
Qed.

Lemma keeps_do_replay rs h st polls now : unblocking h → keeps h (do_replay rs default_model st polls now).
Proof.
  intros Hh. unfold do_replay, try_list. apply keeps_bind; [rkeep|]. intros [[items ?]|]; [|done].
  apply keeps_bind; [|done]. apply keeps_gather. intros p (doc & -> & _)%list_elem_of_fmap. by apply keeps_replay_one.
Qed.

Lemma replay_wp rs polls now : keeps [] (replay rs default_model polls now).
Proof.
  unfold replay. destruct rs as [st|]; [|done]. apply wp_bind. split; [|done]. intros s R HI. split; [done|].
  destruct (replaying s) eqn:Er; [by exists []|]. exists [Replaying]. split.
  - destruct HI as [H1 H2 H3 H4 H5 H6 H7 H8].
    assert (Replaying ∉ R) as Hn by (intros Hin; apply H5 in Hin; by rewrite Hin in Er).
    split; cbn [snd sensor_locks set_replaying pending_stream_refs replaying rtvi app]; try done.
    + intros sid refs rid Hd Hin. right. by eapply H3.
    + split; [by left|done].
    + assert (replays R = []) as E'; [|change (S (length (replays R)) <= 1)%nat; by rewrite E'].
      destruct (replays R) as [|u l] eqn:E'; [done|]. assert (u ∈ replays R) as Hu by (rewrite E'; by left).
      apply list_elem_of_omap in Hu as ([] & Hr & Hu'); by simplify_eq.
    + intros x [|Hx]%elem_of_cons; [done|by apply H8].
  - change (wp [Replaying] (pfinally (do_replay (Some st) default_model st polls now) (modify (set_replaying false))) (λ _ h', h' = [])).
    apply wp_finally. eapply wp_mono; [|apply keeps_do_replay; repeat constructor; by intros []].
    intros r h' ->. clear s R HI Er. split; [|done]. intros s R [H1 H2 H3 H4 H5 H6 H7 H8]. split; [done|]. exists []. split; [|done].
    split; cbn [modify smod snd sensor_locks set_replaying pending_stream_refs replaying rtvi app]; try done.
    + intros sid refs rid Hd Hin. specialize (H3 _ _ _ Hd Hin). by apply elem_of_cons in H3 as [|].
    + split; [done|]. intros Hin. exfalso. assert (tt ∈ replays R) as Hr by (apply list_elem_of_omap; by exists Replaying).
      change (S (length (replays R)) <= 1)%nat in H6. destruct (replays R); [by apply elem_of_nil in Hr|simpl in H6; lia].
    + change (S (length (replays R)) <= 1)%nat in H6. lia.
    + intros x Hx. apply H8. by right.
Qed.

(** The processes of the service: requests, and the tasks it creates. The rules of
    a replay are replayed at once, so each is a process too. *)
Inductive handler : proc State unit → Prop :=
  | handler_start polls id created config : handler (_ ← start_alert rule_store default_model polls id created config; mret tt)
  | handler_stop id : handler (_ ← stop_alert rule_store id; mret tt)
  | handler_replay polls now : handler (_ ← replay rule_store default_model polls now; mret tt)
  | handler_replay_one st polls now doc :
      rule_store = Some st → handler (_ ← replay_one rule_store default_model st polls now doc; mret tt)
  | handler_cleanup sid rid : handler (cleanup_failed_rule rule_store sid rid)
  | handler_log task sid rid : handler (log_caption_task_result task sid rid)
  | handler_list filters size from_ : handler (_ ← list_alerts rule_store filters size from_; mret tt)
  | handler_get id : handler (_ ← get_alert rule_store id; mret tt).

Lemma keeps_discard {A} (m : proc State A) : keeps [] m → keeps [] (_ ← m; mret tt).
Proof. intros Hm. by apply keeps_bind. Qed.

Lemma handler_keeps p : handler p → keeps [] p.
Proof.
  intros [polls id created config|id|polls now|st polls now doc _|sid rid|task sid rid|filters size from_|id]; try apply keeps_discard.
  - by apply keeps_start. - apply keeps_stop. - apply replay_wp. - by apply keeps_replay_one. - apply keeps_cleanup. - apply keeps_log.
  - unfold list_alerts, try_list. rkeep. - unfold get_alert. rkeep.
Qed.

(** Meanwhile the inference service drops streams and answers caption requests, its
    other clients add no camera's, and other replicas write to the store. *)
Definition outside_moves : relation State := λ s s',
  ∃ v e, s' = set_store e (set_rtvi v s) ∧ registry v `sublist_of` registry (rtvi s) ∧ unanswered (rtvi s) ≤ unanswered v.
Lemma rt_outside_inv s s' hs : outside_moves s s' → inv s hs → inv s' hs.
Proof. intros (v & e & -> & Hr). by apply rt_quiet_inv, quiet_registry. Qed.

Lemma new_State_ok v e : cameras_once v → inv (new_State v e) [].
Proof.
  intros Hn. split; cbn [sensor_locks pending_stream_refs replaying rtvi new_State]; try done; try by constructor.
  - intros x. split; [by intros ?%elem_of_empty|by intros ?%elem_of_nil]. - split; [done|by intros ?%elem_of_nil].
  - by intros x ?%elem_of_nil.
Qed.

Abbreviation runs := (rtc (pstep handler outside_moves)).
Lemma requests_ok v e s ps :
  cameras_once v → runs (new_State v e, []) (s, ps) → pool_ok inv any_step blocks (s, ps).
Proof.
  intros Hn Hr. apply (pool_sound inv any_step blocks handler outside_moves handler_keeps rt_outside_inv _ _) in Hr; [done|].
  exists []. split; [constructor|by apply new_State_ok].
Qed.
End interleavings.

(** Nothing is said about streams. *)
#[export] Instance no_streams {V} `{RtviServer V} : RtviLaws V (λ _, []) (λ _, 0) (λ _, false).
Proof.
  split; try done; try (by intros; apply not_elem_of_nil); [|by left].
  intros v. destruct (get_stream_info v) as [[l|e] v']; [done|]. by eauto.
Qed.

(** C27. Whatever requests, late failures, replays and cancellations are interleaved,
    no request waits for ever for the lock of a sensor, also while a replay is under
    way; and when all have returned, even by cancellation, no lock is held, no
    reference to a stream is left and no replay keeps others out. *)
Theorem requests_give_back {V} `{RtviServer V} {E} (rule_store : option (RuleStore E)) default_model (v : V) (e : E) s ps :
  rtc (pstep (handler rule_store default_model) (outside_moves (registry := λ _, []) (unanswered := λ _, 0)))
    (new_State v e, []) (s, ps) →
  (¬ Forall is_done ps → ∃ i p p' s', ps !! i = Some p ∧ next p s = Some (p', s')) ∧
  (Forall is_done ps → sensor_locks s = ∅ ∧ pending_stream_refs s = [] ∧ replaying s = false).
Proof.
  intros Hr%(requests_ok (registry := λ _, []) (unanswered := λ _, 0) (minted := λ _, false)); [|intros x _; unfold times; cbn; lia]. split; [by eapply pool_no_deadlock|].
  intros Hd. destruct (pool_done_held _ _ _ _ _ Hr Hd) as [H1 _ H3 H4 H5 _ _ _]. split_and!.
  - apply set_eq. intros x. rewrite H1. split; [by intros ?%elem_of_nil|by intros ?%elem_of_empty].
  - destruct (pending_stream_refs s) as [|[sid refs] l] eqn:Ep; [done|]. specialize (H3 sid refs). specialize (H4 sid refs).
    cbn in H3, H4. rewrite decide_True in H3, H4 by done. specialize (H4 eq_refl).
    apply set_choose_L in H4 as [rid Hrid]. specialize (H3 rid eq_refl Hrid). by apply elem_of_nil in H3.
  - destruct (replaying s); [|done]. by apply proj1 in H5; specialize (H5 eq_refl); apply elem_of_nil in H5.
Qed.

(** C28. However requests, late failures, replays and cancellations are
    interleaved, the stream of a camera is registered at the inference service
    once, and once more at most for every listing the service did not answer:
    the rules of a camera are created at once and each looks for the stream
    before it adds it, under the lock of the sensor; a rule whose listing fails
    adds the stream all the same. *)
Theorem camera_added_once {V} `{RtviServer V} registry unanswered minted `{!RtviLaws V registry unanswered minted} {E}
    (rule_store : option (RuleStore E)) default_model (v : V) (e : E) s ps x :
  (∀ y, minted y = false → times (registry := registry) y v ≤ 1 + unanswered v) →
  rtc (pstep (handler rule_store default_model) (outside_moves (registry := registry) (unanswered := unanswered)))
    (new_State v e, []) (s, ps) →
  minted x = false → times (registry := registry) x (rtvi s) ≤ 1 + unanswered (rtvi s).
Proof. intros Hn (hs & _ & HI)%(requests_ok (minted := minted)); [|exact Hn]. apply (inv_cameras _ _ HI). Qed.

(** ** A request running alone, without a store *)

(** An inference service whose answers can be relied on, as far as its streams
    go, and which nobody else uses meanwhile: an addition answered with an id has
    added that stream, one answered without an id none; a stop answered with a
    success has removed the stream; the listing only names streams that are there.
    Any request may fail. [strays] counts the failures that left a stream: an
    addition whose stream was added all the same, and a stop whose stream stays. *)
Class RtviWorks (V : Type) `{RtviServer V} (registry : V → list string) (strays : V → nat) : Prop := {
  works_info v : registry (get_stream_info v).2 = registry v ∧ strays (get_stream_info v).2 = strays v;
  works_listed v l x : (get_stream_info v).1 = Ok l → (∃ found, find_stream x l = Ok (Some found)) → x ∈ registry v;
  works_add payload v :
    match start_stream payload v with
    | (Ok resp, v') =>
        strays v' = strays v ∧
        ((∃ x, extract_stream_id resp = Ok (VStr x) ∧ x ≠ "" ∧ (x ∉ registry v) ∧ registry v' = registry v ++ [x]) ∨
         (∀ x, extract_stream_id resp = Ok (VStr x) → x = "") ∧ registry v' = registry v)
    | (Exn _, v') =>
        registry v' = registry v ∧ strays v' = strays v ∨
        ∃ x, (x ∉ registry v) ∧ registry v' = registry v ++ [x] ∧ strays v < strays v'
    end;
  works_stop x v :
    (stop_stream x v).1 ≠ Exn cancelled ∧
    (registry (stop_stream x v).2 = filter (λ y, y ≠ x) (registry v) ∧ strays (stop_stream x v).2 = strays v ∨
     (stop_stream x v).1 ≠ Ok tt ∧ registry (stop_stream x v).2 = registry v ∧ strays v < strays (stop_stream x v).2);
  works_captions x v :
    registry (stop_captions x v).2 = registry v ∧ strays (stop_captions x v).2 = strays v ∧
    (stop_captions x v).1 ≠ Exn cancelled;
  works_generate x args v :
    registry (generate_captions x args v).2 = registry v ∧ strays (generate_captions x args v).2 = strays v;
}.

Section alone.
Context {V : Type} {RTVI : RtviServer V} {registry : V → list string} {strays : V → nat} {WORKS : RtviWorks V registry strays}.
Context {E : Type} (default_model : string).
Abbreviation State := (State (V:=V) (E:=E)).
Implicit Types (s : State).

(** Steps that leave the rules, the references and the streams alone *)
Definition frame : relation State := λ s s',
  rules s' = rules s ∧ pending_stream_refs s' = pending_stream_refs s ∧ sensor_locks s' = sensor_locks s ∧
  readiness_failed_ids s' = readiness_failed_ids s ∧ registry (rtvi s') = registry (rtvi s) ∧
  strays (rtvi s') = strays (rtvi s).
#[export] Instance frame_preorder : PreOrder frame.
Proof.
  split; [by intros s; split_and!|]. intros s1 s2 s3 (A1 & A2 & A3 & A4 & A5 & A6) (B1 & B2 & B3 & B4 & B5 & B6).
  split_and!; congruence.
Qed.
Abbreviation stays := (stays frame).

Lemma stays_rtvi_call {A} (m : stM V A) :
  (∀ v, registry (m v).2 = registry v ∧ strays (m v).2 = strays v) → stays (rtvi_call m).
Proof. intros Hm. apply (stays_act frame). intros s. unfold zoom. destruct (Hm (rtvi s)). destruct (m (rtvi s)). by split_and!. Qed.
Lemma stays_read {A} (f : State → A) : stays (read f).
Proof. apply (stays_act frame). intros s. by split_and!. Qed.

Ltac rstay := repeat first
  [ progress intros
  | apply (stays_ret frame)
  | apply (stays_bind frame)
  | apply (stays_try frame)
  | apply stays_read
  | apply (stays_act frame); by intros ?; split_and!
  | apply stays_rtvi_call; intros ?; apply works_info
  | match goal with
    | |- Proc.stays _ (match ?x with _ => _ end) => destruct x
    end ].

Lemma stays_readiness_loop polls task x visible : stays (readiness_loop polls task x visible).
Proof. revert visible. induction polls as [|polls IH]; intros visible; cbn [readiness_loop]; unfold final_check; rstay; apply IH. Qed.
Lemma stays_wait_stream_ready polls task x owns : stays (wait_stream_ready polls task x owns).
Proof.
  unfold wait_stream_ready. apply (stays_bind frame); [|intros; destruct (_ || _); [apply (stays_ret frame)|apply stays_readiness_loop]].
  apply (stays_act frame). intros s. by repeat case_match.
Qed.
Lemma stays_watch task sid rid : stays (watch_task task sid rid).
Proof. apply (stays_act frame). intros s. simpl. by destruct (task_outcome task s). Qed.

Lemma exec_read {A B} (f : State → A) (k : A → proc State B) s : exec (read f ≫= k) s = exec (k (f s)) s.
Proof. done. Qed.
Lemma exec_modify {B} (f : State → State) (k : unit → proc State B) s : exec (modify f ≫= k) s = exec (k tt) (f s).
Proof. done. Qed.
Lemma exec_ret {A B} (a : A) (k : A → proc State B) s : exec (mret a ≫= k) s = exec (k a) s.
Proof. done. Qed.

(** *** Resolving the stream *)

(** No stream is added but one that a failed addition has left. *)
Definition maybe_stray s s' : Prop :=
  registry (rtvi s') = registry (rtvi s) ∧ strays (rtvi s') = strays (rtvi s) ∨
  ∃ x, (x ∉ registry (rtvi s)) ∧ registry (rtvi s') = registry (rtvi s) ++ [x] ∧ strays (rtvi s) < strays (rtvi s').

Definition resolved (s s' : State) (r : result (string * bool)) : Prop :=
  rules s' = rules s ∧ pending_stream_refs s' = pending_stream_refs s ∧ sensor_locks s' = sensor_locks s ∧
  readiness_failed_ids s' = readiness_failed_ids s ∧
  match r with
  | Ok (sid, true) => registry (rtvi s') = registry (rtvi s) ++ [sid] ∧ (sid ∉ registry (rtvi s)) ∧ strays (rtvi s') = strays (rtvi s)
  | Ok (sid, false) => registry (rtvi s') = registry (rtvi s) ∧ sid ∈ registry (rtvi s) ∧ strays (rtvi s') = strays (rtvi s)
  | Exn _ => maybe_stray s s'
  end.

Lemma add_stream_alone config s : resolved s (exec (add_stream config) s).2 (exec (add_stream config) s).1.
Proof.
  unfold add_stream, rtvi_call. rewrite exec_bind. change (exec (await ?m) s) with (exec (Act true m Done) s). rewrite exec_act.
  unfold zoom. pose proof (works_add (build_start_stream_payload config) (rtvi s)) as Ha.
  destruct (start_stream _ (rtvi s)) as [[resp|e] v]; [|by split_and!].
  destruct Ha as [Hs [(x & Ex & Hne & Hx & Er)|[Hno Er]]]; rewrite exec_bind; unfold plift.
  - rewrite Ex. cbn [exec]. apply String.eqb_neq in Hne. rewrite Hne. by split_and!.
  - destruct (extract_stream_id resp) as [[| | | |x| |]|e]; cbn [exec].
    5: { rewrite (Hno x eq_refl). split_and!; try done. by left. }
    all: split_and!; try done; by left.
Qed.

Lemma resolved_frame s s1 s2 r : frame s s1 → resolved s1 s2 r → resolved s s2 r.
Proof.
  intros (A1 & A2 & A3 & A4 & A5 & A6) (B1 & B2 & B3 & B4 & B5). unfold resolved, maybe_stray in *.
  rewrite <-A1, <-A2, <-A3, <-A4, <-A5, <-A6. by split_and!.
Qed.
Lemma frame_failed s s' e : frame s s' → resolved s s' (Exn e).
Proof. intros (A1 & A2 & A3 & A4 & A5 & A6). split_and!; try done. by left. Qed.

Lemma reuse_alone x config existing s :
  x ∈ registry (rtvi s) → resolved s (exec (reuse_stream x config existing) s).2 (exec (reuse_stream x config existing) s).1.
Proof.
  intros Hx. unfold reuse_stream.
  rewrite exec_lift. destruct (as_str (vor (json_get config _) _)) as [u|e]; [|by apply frame_failed].
  rewrite exec_lift. destruct (vget existing _) as [v|e]; [|by apply frame_failed].
  rewrite exec_lift. destruct (as_str (vor v _)) as [w|e]; [|by apply frame_failed].
  cbv zeta. destruct (_ && _); [by apply frame_failed|by split_and!].
Qed.

Lemma resolve_locked_alone x config s :
  resolved s (exec (resolve_locked x config) s).2 (exec (resolve_locked x config) s).1.
Proof.
  unfold resolve_locked. rewrite exec_bind, exec_try, exec_bind. unfold rtvi_call, await. rewrite exec_act. unfold zoom.
  pose proof (works_info (rtvi s)) as [Hi Hi']. pose proof (λ l x, works_listed (rtvi s) l x) as Hl.
  destruct (get_stream_info (rtvi s)) as [[l|e] v]; cbn [fst snd exec mret proc_ret] in *.
  - assert (frame s (set_rtvi v s)) as Hf by by split_and!.
    rewrite exec_bind. unfold plift. cbn [exec].
    destruct (find_stream x l) as [[existing|]|e] eqn:Ef; [..|by apply frame_failed].
    + eapply resolved_frame; [exact Hf|]. apply reuse_alone. cbn [rtvi set_rtvi]. rewrite Hi. apply (Hl l x); eauto.
    + eapply resolved_frame; [exact Hf|]. apply add_stream_alone.
  - assert (frame s (set_rtvi v s)) as Hf by by split_and!.
    destruct (is_HTTPError e); [|by apply frame_failed]. eapply resolved_frame; [exact Hf|]. apply add_stream_alone.
Qed.

Lemma resolve_alone config s :
  sensor_locks s = ∅ → resolved s (exec (resolve_or_add_stream config) s).2 (exec (resolve_or_add_stream config) s).1.
Proof.
  intros Hs. unfold resolve_or_add_stream. destruct (json_get config "sensor_id") as [| | | |x| |]; try apply add_stream_alone.
  rewrite exec_bind. cbn [exec acquire_sensor wait_then]. rewrite bool_decide_true by by (rewrite Hs; apply not_elem_of_empty).
  rewrite exec_finally. set (s1 := set_locks _ s). pose proof (resolve_locked_alone x config s1) as (A1 & A2 & A3 & A4 & A5).
  destruct (exec (resolve_locked x config) s1) as [r s2]. cbn [release_sensor modify exec atomic smod fst snd] in *.
  split_and!; [exact A1|exact A2| |exact A4|exact A5]. cbn [sensor_locks set_locks]. rewrite A3. unfold s1. cbn [sensor_locks set_locks].
  rewrite Hs. set_solver.
Qed.

(** *** Undoing *)

(** A stream that was to be stopped is gone, or a failed stop has left it. *)
Definition maybe_stopped x s s' : Prop :=
  registry (rtvi s') = filter (λ y, y ≠ x) (registry (rtvi s)) ∧ strays (rtvi s') = strays (rtvi s) ∨
  registry (rtvi s') = registry (rtvi s) ∧ strays (rtvi s) < strays (rtvi s').

Lemma stop_alone x s :
  ∃ r s', exec (safe_stop_stream x) s = (r, s') ∧ r ≠ Exn cancelled ∧ rules s' = rules s ∧
    pending_stream_refs s' = pending_stream_refs s ∧ sensor_locks s' = sensor_locks s ∧
    readiness_failed_ids s' = readiness_failed_ids s ∧ maybe_stopped x s s'.
Proof.
  unfold safe_stop_stream. rewrite exec_try. unfold rtvi_call, await. rewrite exec_act. unfold zoom.
  destruct (works_stop x (rtvi s)) as [H1 H2]. destruct (stop_stream x (rtvi s)) as [r v]. cbn [fst snd] in H1, H2.
  assert (maybe_stopped x s (set_rtvi v s)) as Hm by (destruct H2 as [H2|(_ & H2)]; [by left|by right]).
  destruct r as [[]|e]; [|destruct (is_HTTPError e)]; eexists _, _; by split_and!.
Qed.

(** Counting the readers, with nobody else about *)
Lemma count_alone x id statuses pending s :
  (∀ refs, dget (pending_stream_refs s) x = Some refs → refs ⊆ {[id]}) →
  ∃ n s', exec (count_other_rules_for_stream (E := E) None x id statuses pending) s = (Ok n, s') ∧ s' = s ∧
    (n = 0%nat ↔ rules_on x id s = []).
Proof.
  intros Hr. unfold count_other_rules_for_stream. rewrite exec_bind, exec_read. cbn [exec mret proc_ret].
  assert (∀ l : list string, size (list_to_set l : gset string) = 0%nat ↔ l = []) as Hsize.
  { intros l. rewrite size_empty_iff. split; [|by intros ->]. destruct l as [|a l]; [done|]. set_solver. }
  destruct pending.
  - rewrite exec_read. cbn [exec mret proc_ret]. eexists _, _. split_and!; [done|done|].
    assert (default ∅ (dget (pending_stream_refs s) x) ∖ {[id]} = ∅) as ->.
    { destruct (dget (pending_stream_refs s) x) as [refs|] eqn:E'; cbn; [specialize (Hr refs eq_refl)|]; set_solver. }
    rewrite (right_id_L ∅ (∪)), Hsize. cbn [concat]. by rewrite app_nil_r.
  - eexists _, _. split_and!; [done|done|]. rewrite Hsize. cbn [concat]. by rewrite app_nil_r.
Qed.

Lemma undo_alone x id s :
  rules_on x id s = [] → (∀ refs, dget (pending_stream_refs s) x = Some refs → refs ⊆ {[id]}) →
  ∃ r s', exec (maybe_stop_stream_on_rollback None x id true) s = (r, s') ∧ rules s' = rules s ∧
    pending_stream_refs s' = pending_stream_refs s ∧ sensor_locks s' = sensor_locks s ∧ maybe_stopped x s s'.
Proof.
  intros Hn Hr. unfold maybe_stop_stream_on_rollback. cbn [negb]. rewrite exec_bind.
  destruct (count_alone x id ["active"; "pending"] true s Hr) as (n & s' & -> & -> & Hz).
  apply Hz in Hn as ->. destruct (stop_alone x s) as (r & s' & E' & _ & H1 & H2 & H3 & _ & H4). exists r, s'. by split_and!.
Qed.

(** *** Creating *)

(** Every rule in the registry runs on a stream that is there. *)
Definition consistent s : Prop :=
  ∀ id rule x, (id, rule) ∈ rules s → json_get rule "rtvi_stream_id" = VStr x → x ∈ registry (rtvi s).

Lemma no_rules_on x id s : consistent s → (x ∉ registry (rtvi s)) → rules_on x id s = [].
Proof.
  intros Hc Hx. unfold rules_on. destruct (filter _ (rules s)) as [|[id' rule] l] eqn:E'; [done|].
  assert ((id', rule) ∈ filter (λ x0 : string * dict string pyval, x0.1 ≠ id ∧ is_str (json_get x0.2 "rtvi_stream_id") x) (rules s))
    as [[_ Hs] Hin]%list_elem_of_filter by (rewrite E'; by left).
  destruct Hx. apply (Hc id' rule x Hin). by apply is_str_spec, Is_true_true.
Qed.

Lemma filter_added x (l : list string) : x ∉ l → filter (λ y, y ≠ x) (l ++ [x]) = l.
Proof.
  intros Hx. rewrite filter_app, filter_cons, decide_False by (by intros Hn). rewrite filter_nil, app_nil_r.
  apply list_filter_all. intros y Hy ->. done.
Qed.

(** What a creation on a stream leaves: the rule, or nothing and, where it had added
    the stream, the stream stopped *)
Definition undone sid (owns : bool) s s' : Prop :=
  if owns then maybe_stopped sid s s'
  else registry (rtvi s') = registry (rtvi s) ∧ strays (rtvi s') = strays (rtvi s).
Definition created_on sid (owns : bool) id rule s s' (r : result response) : Prop :=
  pending_stream_refs s' = pending_stream_refs s ∧ sensor_locks s' = sensor_locks s ∧
  match r with
  | Ok r => if (r.2 =? 201)%Z then rules s' = dset (rules s) id rule ∧ registry (rtvi s') = registry (rtvi s)
            else rules s' = rules s ∧ undone sid owns s s'
  | Exn _ => rules s' = rules s ∧ (registry (rtvi s') = registry (rtvi s) ∨ undone sid owns s s')
  end.

Lemma rollback_alone sid id (owns : bool) s :
  (owns = true → rules_on sid id s = []) → (∀ refs, dget (pending_stream_refs s) sid = Some refs → refs ⊆ {[id]}) →
  ∃ r s', exec (maybe_stop_stream_on_rollback None sid id owns) s = (r, s') ∧ rules s' = rules s ∧
    pending_stream_refs s' = pending_stream_refs s ∧ sensor_locks s' = sensor_locks s ∧ undone sid owns s s'.
Proof. intros Hn Hr. destruct owns; [by apply undo_alone; auto|]. by exists (Ok tt), s. Qed.

Lemma created_on_frame sid owns id rule s s1 s' r : frame s s1 → created_on sid owns id rule s1 s' r → created_on sid owns id rule s s' r.
Proof.
  intros (F1 & F2 & F3 & F4 & F5 & F6) (C1 & C2 & C3). unfold created_on, undone, maybe_stopped in *.
  rewrite <-F1, <-F2, <-F3, <-F5, <-F6. by split_and!.
Qed.
Lemma created_on_raised sid owns id rule s s' e : frame s s' → created_on sid owns id rule s s' (Exn e).
Proof. intros (F1 & F2 & F3 & F4 & F5 & F6). split_and!; try done. by left. Qed.

Lemma ready_alone polls task sid id owns s :
  (owns = true → rules_on sid id s = []) → (∀ refs, dget (pending_stream_refs s) sid = Some refs → refs ⊆ {[id]}) →
  match exec (ready_or_rollback None polls task sid id owns) s with
  | (Ok None, s') => frame s s'
  | (Ok (Some r), s') => ∀ rule, created_on sid owns id rule s s' (Ok r)
  | (Exn e, s') => ∀ rule, created_on sid owns id rule s s' (Exn e)
  end.
Proof.
  intros Hn Hr. unfold ready_or_rollback. rewrite exec_try, exec_bind.
  pose proof (stays_wait_stream_ready polls task sid owns s) as Hf.
  destruct (exec (wait_stream_ready polls task sid owns) s) as [[u|e] s1]; [exact Hf|]. cbn [snd] in Hf.
  destruct (_ || _); [|intros rule; by apply created_on_raised]. 
  assert (∀ s2, frame s s2 → ∀ err,
    match exec (_ ← maybe_stop_stream_on_rollback (E := E) None sid id owns; mret (Some (error_response 502 err))) s2 with
    | (Ok None, s') => frame s s'
    | (Ok (Some r), s') => ∀ rule, created_on sid owns id rule s s' (Ok r)
    | (Exn e, s') => ∀ rule, created_on sid owns id rule s s' (Exn e)
    end) as Hstop.
  { intros s2 Hf2 err. pose proof Hf2 as (E1 & E2 & E3 & _). rewrite exec_bind.
    destruct (rollback_alone sid id owns s2) as (r & s3 & -> & G1 & G2 & G3 & G4);
      [unfold rules_on in *; by rewrite E1|by rewrite E2|].
    destruct r as [[]|e2]; cbn [exec mret proc_ret]; intros rule; apply (created_on_frame _ _ _ _ _ s2); try done;
      split_and!; try done. by right. }
  destruct (is_HTTPError e).
  - by apply Hstop.
  - rewrite exec_modify. by apply Hstop.
Qed.

Lemma create_alone polls config model id created sid owns s s' r :
  (owns = true → rules_on sid id s = []) → (∀ refs, dget (pending_stream_refs s) sid = Some refs → refs ⊆ {[id]}) →
  (id ∉ readiness_failed_ids s) →
  exec (create_on_stream None polls config model id created sid owns) s = (r, s') →
  created_on sid owns id (registry_entry CREATED_FIELDS id sid owns config model (VStr created)) s s' r.
Proof.
  intros Hn Hr Hid. unfold create_on_stream. rewrite exec_bind. change (exec (atomic ?m) s) with (exec (Act false m Done) s).
  rewrite exec_act. unfold zoom. pose proof (works_generate sid (captions_args config model) (rtvi s)) as [Hg Hg'].
  destruct (generate_captions sid _ (rtvi s)) as [task v]. cbn [snd] in Hg, Hg'.
  assert (frame s (set_rtvi v s)) as Hf by by split_and!. revert Hf. generalize (set_rtvi v s) as s1. intros s1 Hf.
  pose proof Hf as (F1 & F2 & F3 & F4 & F5 & F6). rewrite exec_bind.
  pose proof (ready_alone polls task sid id owns s1) as Ha.
  destruct (exec (ready_or_rollback None polls task sid id owns) s1) as [[[r'|]|e] s2].
  - intros [= <- <-]. eapply created_on_frame; [exact Hf|]. apply Ha; [unfold rules_on in *; by rewrite F1|by rewrite F2].
  - assert (frame s1 s2) as Hf2 by (apply Ha; [unfold rules_on in *; by rewrite F1|by rewrite F2]).
    rewrite exec_bind. pose proof (stays_watch task sid id s2) as Hw.
    assert (frame s (exec (watch_task task sid id) s2).2) as Hf3 by (by do 2 (etrans; [done|])).
    destruct (exec (watch_task task sid id) s2) as [[u|e] s3]; cbn [snd] in Hf3; clear Hw Hf2 Hf.
    2: { intros [= <- <-]. by apply created_on_raised. }
    unfold activate_or_rollback. rewrite exec_ret. unfold commit_rule. rewrite exec_bind. cbn [exec atomic].
    pose proof Hf3 as (G1 & G2 & G3 & G4 & G5 & G6). rewrite bool_decide_false by by rewrite G4.
    cbn [exec mret proc_ret]. intros [= <- <-]. eapply created_on_frame; [exact Hf3|]. by split_and!.
  - intros [= <- <-]. eapply created_on_frame; [exact Hf|]. apply Ha; [unfold rules_on in *; by rewrite F1|by rewrite F2].
Qed.

(** What a creation that has resolved its stream comes to, from what it leaves
    ([created_on], told from the state before the stream was resolved) *)
Definition left_over s s' : Prop :=
  registry (rtvi s') = registry (rtvi s) ∨
  strays (rtvi s) < strays (rtvi s') ∧ ∃ x, registry (rtvi s') = registry (rtvi s) ++ [x].

Lemma undone_left sid (owns : bool) s s1 s' :
  (owns = true → sid ∉ registry (rtvi s)) →
  registry (rtvi s1) = registry (rtvi s) ++ (if owns then [sid] else []) → strays (rtvi s1) = strays (rtvi s) →
  undone sid owns s1 s' → left_over s s'.
Proof.
  intros Hf Hreg Hst. unfold undone, maybe_stopped, left_over. rewrite Hreg, Hst.
  destruct owns; [|rewrite app_nil_r; by intros [-> _]; left].
  rewrite (filter_added _ _ (Hf eq_refl)). intros [[-> _]|[-> ?]]; eauto.
Qed.

Lemma consistent_grows s s' l :
  consistent s → rules s' = rules s → registry (rtvi s') = registry (rtvi s) ++ l → consistent s'.
Proof. intros Hc Er Eg id rule x. rewrite Er, Eg. intros Hin Hx. apply elem_of_app. left. by eapply Hc. Qed.
Lemma left_over_consistent s s' : consistent s → rules s' = rules s → left_over s s' → consistent s'.
Proof.
  intros Hc Er [Eg|[_ [x Eg]]]; [apply (consistent_grows s s' []); [done..|by rewrite app_nil_r]|by eapply consistent_grows].
Qed.

Lemma created_end sid (owns : bool) id rule s s1 s' r :
  consistent s → (owns = true → sid ∉ registry (rtvi s)) → (owns = false → sid ∈ registry (rtvi s)) →
  rules s1 = rules s → registry (rtvi s1) = registry (rtvi s) ++ (if owns then [sid] else []) →
  strays (rtvi s1) = strays (rtvi s) → json_get rule "rtvi_stream_id" = VStr sid →
  created_on sid owns id rule s1 s' r →
  consistent s' ∧
  match r with
  | Ok r =>
      if (r.2 =? 201)%Z
      then sid ∈ registry (rtvi s') ∧ registry (rtvi s') = registry (rtvi s) ++ (if owns then [sid] else []) ∧
        rules s' = dset (rules s) id rule
      else rules s' = rules s ∧ left_over s s'
  | Exn _ => rules s' = rules s ∧
      (registry (rtvi s') = registry (rtvi s) ∨ ∃ x, registry (rtvi s') = registry (rtvi s) ++ [x])
  end.
Proof.
  intros Hc Hnew Hold Er Hreg Hst Hrule (_ & _ & C3). rewrite Er in C3.
  pose proof (undone_left sid owns s s1 s' Hnew Hreg Hst) as Hun.
  assert (sid ∈ registry (rtvi s1)) as Hsid.
  { rewrite Hreg. apply elem_of_app. destruct owns; [right; by left|left; by apply Hold]. }
  destruct r as [r|e]; [destruct (r.2 =? 201)%Z|]; destruct C3 as [E1 E2].
  - rewrite E2, E1, <-Hreg. split; [|by split_and!]. intros id' rule' x. rewrite E1, E2.
    intros [[-> ->]|Hin]%dset_elem_1; [rewrite Hrule; by intros [= <-]|].
    intros Hx. rewrite Hreg. apply elem_of_app. left. by eapply Hc.
  - split; [|split; auto]. apply (left_over_consistent s); auto.
  - assert (registry (rtvi s') = registry (rtvi s1) ∨ left_over s s') as [Es|Es] by (destruct E2; auto).
    + split; [exact (consistent_grows s s' _ Hc E1 (eq_trans Es Hreg))|]. split; [done|]. rewrite Es, Hreg.
      destruct owns; [right; eauto|left; apply app_nil_r].
    + split; [by apply (left_over_consistent s)|]. split; [done|]. destruct Es as [|[_ ?]]; auto.
Qed.

(** C29. Without a store, a creation that runs alone registers the rule, on a
    stream that is there, exactly when it answers 201; otherwise it leaves the
    rules and the streams of the inference service as they were, whichever of its
    steps failed and whenever the captions did, but for its own stream where
    the service failed to stop it, or failed to add it and added it all the same.
    When it raises, the rules are as they were and no stream but its own is new.
    In no case a reference or a lock is left. *)
Theorem create_exact polls id created config s s' r :
  sensor_locks s = ∅ → pending_stream_refs s = [] → (id ∉ readiness_failed_ids s) → consistent s →
  exec (start_alert (E := E) None default_model polls id created config) s = (r, s') →
  sensor_locks s' = ∅ ∧ pending_stream_refs s' = [] ∧ consistent s' ∧
  match r with
  | Ok r =>
      if (r.2 =? 201)%Z
      then ∃ sid (owns : bool), sid ∈ registry (rtvi s') ∧
        registry (rtvi s') = registry (rtvi s) ++ (if owns then [sid] else []) ∧
        rules s' = dset (rules s) id (registry_entry CREATED_FIELDS id sid owns config (vor (json_get config "model") (VStr default_model)) (VStr created))
      else rules s' = rules s ∧ left_over s s'
  | Exn _ => rules s' = rules s ∧
      (registry (rtvi s') = registry (rtvi s) ∨ ∃ x, registry (rtvi s') = registry (rtvi s) ++ [x])
  end.
Proof.
  intros Hl Hp Hid Hc. unfold start_alert. rewrite exec_read.
  destruct (replaying s); [intros [= <- <-]; do 3 (split; [done|]); split; [done|by left]|]. cbv zeta.
  set (model := vor _ _). destruct (negb (truthy model)); [intros [= <- <-]; do 3 (split; [done|]); split; [done|by left]|].
  unfold persist_rule. rewrite exec_ret. cbn [negb]. rewrite exec_bind. unfold resolve_or_rollback. rewrite exec_try, exec_bind.
  pose proof (resolve_alone config s Hl) as (R1 & R2 & R3 & R4 & R5).
  destruct (exec (resolve_or_add_stream config) s) as [[[sid owns]|e] s1]; cbn [fst snd] in *.
  2: { assert (left_over s s1) as Hleft by (destruct R5 as [[? _]|(y & _ & ? & ?)]; [by left|right; eauto]).
       pose proof (left_over_consistent s s1 Hc R1 Hleft) as Hc1. destruct (_ || _).
       - cbn [rollback_rule with_store]. rewrite exec_ret. cbn [exec mret proc_ret]. intros [= <- <-]. rewrite R3, R2.
         split_and!; [done..|]. unfold resolve_error. repeat case_match; done.
       - intros [= <- <-]. rewrite R3, R2. split_and!; try done. destruct Hleft as [|[_ ?]]; auto. }
  cbn [exec mret proc_ret]. unfold register_pending_stream_ref. rewrite exec_modify. set (s2 := set_refs _ s1).
  assert (pending_stream_refs s2 = [(sid, {[id]} ∪ ∅)]) as P2 by (unfold s2; cbn [pending_stream_refs set_refs]; by rewrite R2, Hp).
  rewrite exec_finally. destruct (exec (create_on_stream None polls config model id created sid owns) s2) as [r' s3] eqn:Ec.
  unfold unregister_pending_stream_ref, modify, atomic, smod. cbn [exec]. set (s4 := match dget _ _ with Some _ => _ | None => _ end).
  intros Hend. assert (r' = r ∧ s4 = s') as [-> <-] by (by destruct r'; injection Hend). clear Hend.
  assert (owns = true → sid ∉ registry (rtvi s)) as Hnew by (intros ->; apply R5).
  apply create_alone in Ec as Hcreated.
  2: { intros ->. rewrite <-(no_rules_on sid id s Hc (Hnew eq_refl)). unfold rules_on. f_equal. f_equal. exact R1. }
  2: { rewrite P2. cbn. rewrite decide_True by done. intros refs [= <-]. set_solver. }
  2: { unfold s2. cbn [readiness_failed_ids set_refs]. by rewrite R4. }
  pose proof Hcreated as (C1 & C2 & _).
  assert (pending_stream_refs s4 = [] ∧ sensor_locks s4 = sensor_locks s3 ∧ rules s4 = rules s3 ∧ rtvi s4 = rtvi s3) as (Q1 & Q2 & Q3 & Q4).
  { unfold s4. rewrite C1, P2. cbn [dget]. rewrite decide_True by done. rewrite bool_decide_true by set_solver.
    split_and!; try done. cbn [pending_stream_refs set_refs]. unfold ddel. rewrite filter_cons, decide_False; [done|].
    by intros Hne. }
  unfold consistent, left_over. rewrite Q1, Q2, Q3, Q4, C2. change (sensor_locks s2) with (sensor_locks s1). rewrite R3.
  split; [done|]. split; [done|].
  apply (created_end sid owns id _ s s2 s3 r) in Hcreated as [Hc3 Hres]; try done; [|by intros ->; apply R5|..].
  - split; [exact Hc3|]. destruct r as [r|e]; [|exact Hres]. destruct (r.2 =? 201)%Z; [|exact Hres]. by exists sid, owns.
  - destruct owns; destruct R5 as [E1 _]; unfold s2; cbn [rtvi set_refs]; [exact E1|by rewrite app_nil_r].
  - destruct owns; apply R5.
Qed.

Lemma teardown_alone x (stop : bool) s :
  ∃ r s', exec (safe_teardown_rtvi x stop) s = (r, s') ∧ rules s' = rules s ∧
    if stop then maybe_stopped x s s' else registry (rtvi s') = registry (rtvi s) ∧ strays (rtvi s') = strays (rtvi s).
Proof.
  unfold safe_teardown_rtvi, gather. rewrite !exec_bind.
  assert (∃ (r1 : result unit) s1, exec (ptry is_Exception (a ← safe_stop_captions x; mret (Ok a)) (λ e, mret (Exn e))) s = (Ok r1, s1) ∧
    rules s1 = rules s ∧ registry (rtvi s1) = registry (rtvi s) ∧ strays (rtvi s1) = strays (rtvi s)) as (r1 & s1 & E1 & F1 & F2 & F3).
  { rewrite exec_try, exec_bind. unfold safe_stop_captions. rewrite exec_try. unfold rtvi_call, await. rewrite exec_act. unfold zoom.
    destruct (works_captions x (rtvi s)) as (Hr & Hr' & Hn). destruct (stop_captions x (rtvi s)) as [[u|e] v]; cbn [fst snd] in Hr, Hr', Hn.
    - eexists _, _. by split_and!.
    - destruct (is_HTTPError e); [eexists _, _; by split_and!|]. unfold is_Exception.
      rewrite bool_decide_true by congruence. eexists _, _. by split_and!. }
  destruct stop; cbn [pmap]; rewrite exec_bind, E1; cbn iota beta.
  - rewrite exec_bind, exec_bind, exec_try, exec_bind. destruct (stop_alone x s1) as (r2 & s2 & -> & Hn & G1 & _ & _ & _ & G2).
    assert (maybe_stopped x s s2) as Hm by (unfold maybe_stopped in *; by rewrite F2, F3 in G2).
    destruct r2 as [[]|e]; [|unfold is_Exception; rewrite bool_decide_true by congruence]; cbn [exec mret proc_ret];
      destruct r1; eexists _, s2; (split; [reflexivity|]); (split; [congruence|done]).
  - rewrite exec_ret. cbn [exec mret proc_ret]. destruct r1; eexists _, s1; (split; [reflexivity|by split_and!]).
Qed.

Lemma rules_on_nil x id s :
  rules_on x id s = [] ↔ ∀ id' rule', (id', rule') ∈ rules s → id' ≠ id → json_get rule' "rtvi_stream_id" ≠ VStr x.
Proof.
  unfold rules_on, dkeys. split.
  - intros Hn%fmap_nil_inv id' rule' Hin Hne Hx.
    apply (filter_nil_not_elem_of (λ y : string * dict string pyval, y.1 ≠ id ∧ is_str (json_get y.2 "rtvi_stream_id") x) _ (id', rule') Hn);
      [|done]. split; [done|]. by apply Is_true_true, is_str_spec.
  - intros Hn. rewrite list_filter_none; [done|]. intros [id' rule'] Hin [Hne Hx%Is_true_true%is_str_spec]. by eapply Hn.
Qed.

(** No other rule is on the stream. *)
Definition last_reader (id sid : string) s : bool :=
  negb (String.eqb sid "") &&
  forallb (λ y : string * dict string pyval,
    String.eqb y.1 id || negb (is_str (json_get y.2 "rtvi_stream_id") sid)) (rules s).

Lemma last_reader_spec id sid s :
  sid ≠ "" →
  last_reader id sid s = true ↔
    ∀ id' rule', (id', rule') ∈ rules s → id' ≠ id → json_get rule' "rtvi_stream_id" ≠ VStr sid.
Proof.
  intros Hne. unfold last_reader. apply String.eqb_neq in Hne. rewrite Hne. cbn [negb andb].
  rewrite forallb_forall. split.
  - intros Hall id' rule' Hi%list_elem_of_In Hid Hs%is_str_spec. specialize (Hall _ Hi). cbn [fst snd] in Hall.
    rewrite Hs in Hall. apply String.eqb_neq in Hid. by rewrite Hid in Hall.
  - intros Hno [id' rule'] Hi%list_elem_of_In. cbn [fst snd]. destruct (String.eqb_spec id' id) as [|Hid]; [done|]. cbn [orb].
    apply negb_true_iff, not_true_is_false. rewrite is_str_spec. by eapply Hno.
Qed.

(** C30. Without a store, a deletion that runs alone takes the rule out of the
    registry whatever the inference service answers, also when it raises. It
    asks to stop the rule's stream exactly when no other rule is on it: the
    stream is then gone unless the stop failed, and else it stays; other
    streams are left alone, and every rule left runs on a stream that is there. *)
Theorem delete_exact id s s' r :
  pending_stream_refs s = [] → replaying s = false → dict_wf (rules s) → consistent s →
  exec (stop_alert (E := E) None id) s = (r, s') →
  match dget (rules s) id with
  | None => r = Ok (error_response 404 "not_found") ∧ s' = s
  | Some rule =>
      (∀ resp, r = Ok resp → resp = deleted_response id) ∧ rules s' = ddel (rules s) id ∧ consistent s' ∧
      let sid := text_of (json_get rule "rtvi_stream_id") in
      if last_reader id sid s
      then registry (rtvi s') = filter (λ y, y ≠ sid) (registry (rtvi s)) ∧ strays (rtvi s') = strays (rtvi s) ∨
           registry (rtvi s') = registry (rtvi s) ∧ strays (rtvi s) < strays (rtvi s')
      else registry (rtvi s') = registry (rtvi s)
  end.
Proof.
  intros Hp Hrep Hwf Hc. unfold stop_alert. rewrite exec_read, Hrep. unfold stop_alert_memory. rewrite exec_read.
  destruct (dget (rules s) id) as [rule|] eqn:Ed; [|by intros [= <- <-]].
  unfold drop_rule. rewrite exec_modify. set (s1 := set_rules _ s). cbv zeta. set (sid := text_of _).
  assert (∀ id' rule', (id', rule') ∈ rules s1 ↔ id' ≠ id ∧ (id', rule') ∈ rules s) as Hin
    by (intros; unfold s1, ddel; cbn [rules set_rules]; by rewrite list_elem_of_filter).
  assert (∀ s2, rules s2 = rules s1 → registry (rtvi s2) = registry (rtvi s) → consistent s2) as Hc2.
  { intros s2 E2 R2 id' rule' x. rewrite E2, R2, Hin. intros [_ Hi]. by eapply Hc. }
  destruct (String.eqb_spec sid "") as [Et|Et].
  { rewrite exec_ret. intros [= <- <-]. assert (last_reader id sid s = false) as -> by (unfold last_reader; by rewrite Et).
    split_and!; [by intros resp [= <-]|done|by apply Hc2|done]. }
  rewrite !exec_bind.
  destruct (count_alone sid id ["active"] false s1) as (n & s2 & -> & -> & Hz); [unfold s1; cbn; by rewrite Hp|].
  destruct (teardown_alone sid (n =? 0)%nat s1) as (r1 & s2 & -> & F1 & F2). intros Hend.
  assert (s2 = s' ∧ ∀ resp, r = Ok resp → resp = deleted_response id) as [-> Hresp].
  { destruct r1; injection Hend as <- <-; (split; [done|]); [by intros resp [= <-]|done]. }
  clear Hend. split; [exact Hresp|]. split; [done|]. rewrite rules_on_nil in Hz.
  assert (n = 0 ↔ last_reader id sid s = true) as Hz'.
  { rewrite Hz, (last_reader_spec _ _ _ Et). setoid_rewrite Hin. naive_solver. }
  destruct (Nat.eqb_spec n 0) as [Hn0|Hn0].
  - apply Hz' in Hn0. rewrite Hn0. pose proof (proj1 (last_reader_spec id sid s Et) Hn0) as Hno. split; [|exact F2].
    destruct F2 as [[F2 _]|[F2 _]]; [|by apply Hc2].
    intros id' rule' x. rewrite F1, F2. intros [Hne Hi]%Hin Hx. apply list_elem_of_filter. split; [|by eapply Hc].
    intros ->. by eapply Hno.
  - destruct (last_reader id sid s); [by destruct Hn0; apply Hz'|]. destruct F2 as [F2 _].
    split; [by apply Hc2|exact F2].
Qed.
End alone.
