(* ===== verification/RealtimeRuns.v ===== *)
(** * Real-time alert rules: runs over a concrete inference service

    Two inference services that keep a list of streams, one that does what it is
    asked and one that fails to answer listings and to stop streams: they
    discharge the interfaces of Realtime.v and carry the witnesses of its theorems. The examples are schedules in which the service of Realtime.v
    loses a stream, a rule or a failure. *)

From Stdlib Require Import ZArith Lia.
From stdpp Require Import base list strings gmap sets relations.
From S2P Require Import Prelude PyDict PyText PyVal Persistence RtviClient RuleDocs Proc Realtime.
Open Scope string_scope.
Open Scope list_scope.
Open Scope nat_scope.

(** ** The service *)

(** Its streams with their URLs, its calls so far, the caption requests it got, and
    after how many calls each of them fails, if it does *)
Record Server := mk_Server {
  sv_streams : list (string * string);
  sv_calls : nat;
  sv_requests : list string;
  sv_fails : list (option nat);
}.
Definition ids (v : Server) : list string := (sv_streams v).*1.
Definition set_streams (l : list (string * string)) (v : Server) : Server :=
  mk_Server l (S (sv_calls v)) (sv_requests v) (sv_fails v).
Definition minted (x : string) : bool := String.prefix "rtvi-" x.
Definition mint (l : list string) : string := "rtvi-" +:+ py_join "" l.

(** Behind a proxy that answers in HTML no body is JSON. *)
Section service.
Context (html : bool).
Definition json_response (status : Z) (body : pyval) : result HttpResponse :=
  Ok (mk_HttpResponse status (if html then Exn ValueError else Ok body) false).
Definition blank : result HttpResponse := Ok (mk_HttpResponse 200 (Ok VNone) true).
Definition stream_dict (x : string * string) : pyval := VDict [("id", VStr x.1); ("liveStreamUrl", VStr x.2)].

Definition asked (body : option pyval) : dict string pyval :=
  match body with
  | Some (VDict d) => match json_get d "streams" with VList [VDict e] => e | _ => [] end
  | _ => []
  end.
Definition add (entry : dict string pyval) (v : Server) : result HttpResponse * Server :=
  let url := text_of (json_get entry "liveStreamUrl") in
  let named := match json_get entry "id" with VStr x => x | _ => mint (ids v) end in
  if bool_decide (named = "") || bool_decide (named ∈ ids v)
  then (json_response 409 VNone, set_streams (sv_streams v) v)
  else (json_response 200 (VDict [("results", VList [VDict [("id", VStr named)]])]), set_streams (sv_streams v ++ [(named, url)]) v).
Definition remove (x : string) (v : Server) : Server := set_streams (filter (λ y, y.1 ≠ x) (sv_streams v)) v.

(** The rest of a path after a prefix *)
Definition after_prefix (p path : string) : option string :=
  if String.prefix p path then Some (String.substring (String.length p) (String.length path - String.length p) path) else None.

Definition serve (method path : string) (body : option pyval) : stM Server HttpResponse := λ v,
  if String.eqb method "POST" then add (asked body) v
  else if String.eqb method "GET" then
    (json_response 200 (VDict [("results", VList (stream_dict <$> sv_streams v))]), set_streams (sv_streams v) v)
  else match after_prefix "/streams/delete/" path with
       | Some x => (blank, remove x v)
       | None => (blank, set_streams (sv_streams v) v)
       end.

Definition server : RtviServer Server := {|
  http := serve;
  post_request := λ path body v,
    (length (sv_requests v),
     mk_Server (sv_streams v) (sv_calls v) (sv_requests v ++ [text_of (json_get (match body with VDict d => d | _ => [] end) "id")])
       (sv_fails v));
  answer := λ v n,
    if (n <? length (sv_requests v))
    then match sv_fails v !! n with
         | Some (Some k) => if k <=? sv_calls v then Some (json_response 500 VNone) else None
         | _ => None
         end
    else None;
|}.
End service.
#[export] Instance json_server : RtviServer Server := server false.

(** ** Its laws *)
Lemma after_prefix_app p s : after_prefix p (p +:+ s) = Some s.
Proof.
  unfold after_prefix. rewrite prefix_app. f_equal.
  assert (String.length (p +:+ s) - String.length p = String.length s) as ->; [|apply substring_app].
  rewrite string_length_app. lia.
Qed.

Lemma find_streams x (l : list (string * string)) :
  find_stream x (stream_dict <$> l) = Ok (stream_dict <$> head (filter (λ y, y.1 = x) l)).
Proof.
  induction l as [|[i u] l IH]; [done|]. cbn [fmap list_fmap find_stream stream_dict vget vget_or].
  change (default VNone (dget [("id", VStr i); ("liveStreamUrl", VStr u)] "id")) with (VStr i).
  rewrite filter_cons. cbn [fst]. simpl. destruct (String.eqb_spec i x) as [->|Hne]; [by rewrite decide_True|].
  rewrite decide_False by done. exact IH.
Qed.
Lemma find_streams_None x l : find_stream x (stream_dict <$> l) = Ok None → x ∉ l.*1.
Proof.
  rewrite find_streams. intros [= Hn] ([i u] & -> & Hin)%list_elem_of_fmap. cbn in Hn.
  destruct (filter (λ y : string * string, y.1 = i) l) as [|y l'] eqn:E; [|done].
  assert ((i, u) ∈ filter (λ y : string * string, y.1 = i) l) as H by (by apply list_elem_of_filter). rewrite E in H. by apply elem_of_nil in H.
Qed.
Lemma find_streams_Some x l f : find_stream x (stream_dict <$> l) = Ok (Some f) → x ∈ l.*1.
Proof.
  rewrite find_streams. intros [= Hn]. destruct (filter (λ y : string * string, y.1 = x) l) as [|[i u] l'] eqn:E; [done|].
  assert ((i, u) ∈ filter (λ y : string * string, y.1 = x) l) as [<- Hin]%list_elem_of_filter by (rewrite E; by left).
  apply list_elem_of_fmap. by exists (i, u).
Qed.

Lemma info_eq v : get_stream_info v = (Ok (stream_dict <$> sv_streams v), set_streams (sv_streams v) v).
Proof. reflexivity. Qed.
Lemma stop_eq x v : stop_stream x v = (Ok tt, remove x v).
Proof.
  assert (http "DELETE" ("/streams/delete/" +:+ x) None v = (blank, remove x v)) as E.
  { transitivity (match after_prefix "/streams/delete/" ("/streams/delete/" +:+ x) with
      Some y => (blank, remove y v) | None => (blank, set_streams (sv_streams v) v) end); [reflexivity|].
    by rewrite after_prefix_app. }
  unfold stop_stream, delete_path, request, mbind, stM_bind. by rewrite E.
Qed.
Lemma captions_eq x v : stop_captions x v = (Ok tt, set_streams (sv_streams v) v).
Proof. reflexivity. Qed.
Lemma start_eq payload v :
  start_stream payload v = 
  let named := match json_get payload "id" with VStr x => x | _ => mint (ids v) end in
  if bool_decide (named = "") || bool_decide (named ∈ ids v)
  then (Exn HTTPStatusError, set_streams (sv_streams v) v)
  else (Ok (VDict [("results", VList [VDict [("id", VStr named)]])]),
        set_streams (sv_streams v ++ [(named, text_of (json_get (stream_entry payload) "liveStreamUrl"))]) v).
Proof.
  unfold start_stream, request. set (entry := stream_entry payload).
  change (http "POST" "/streams/add" (Some (VDict [("streams", VList [VDict entry])]))) with (add false entry).
  unfold mbind, stM_bind, add. change (json_get entry "id") with (json_get payload "id"). cbv zeta.
  by destruct (_ || _).
Qed.

Lemma mint_fresh l : mint l ∉ l.
Proof.
  intros Hin. assert (∀ x, x ∈ l → String.length x <= String.length (py_join "" l)) as Hl.
  { clear Hin. induction l as [|y l IH]; intros x Hx; [by apply elem_of_nil in Hx|].
    assert (String.length y <= String.length (py_join "" (y :: l)) ∧ String.length (py_join "" l) <= String.length (py_join "" (y :: l))) as [H1 H2].
    { destruct l as [|z l]; [split; cbn; lia|].
      change (py_join "" (y :: z :: l)) with (y +:+ "" +:+ py_join "" (z :: l)). rewrite !string_length_app. lia. }
    apply elem_of_cons in Hx as [->|Hx]; [done|]. specialize (IH x Hx). lia. }
  apply Hl in Hin. unfold mint in Hin. rewrite string_length_app in Hin. cbn in Hin. lia.
Qed.
Lemma ids_streams l v : ids (set_streams l v) = l.*1.
Proof. done. Qed.
Lemma ids_remove x v : ids (remove x v) = filter (λ y, y ≠ x) (ids v).
Proof.
  unfold remove. rewrite ids_streams. unfold ids. induction (sv_streams v) as [|[i u] l IH]; [done|].
  cbn [fmap list_fmap]. rewrite !filter_cons. cbn [fst]. destruct (decide (i ≠ x)); [cbn [fmap list_fmap fst]; by f_equal|done].
Qed.

(** What an addition does to the ids *)
Lemma start_ids payload v :
  (start_stream payload v = (Exn HTTPStatusError, set_streams (sv_streams v) v)) ∨
  ∃ x url, start_stream payload v = (Ok (VDict [("results", VList [VDict [("id", VStr x)]])]), set_streams (sv_streams v ++ [(x, url)]) v) ∧
    x ≠ "" ∧ (x ∉ ids v) ∧ match json_get payload "id" with VStr y => x = y | _ => minted x = true end.
Proof.
  rewrite start_eq. cbv zeta. set (named := match json_get payload "id" with VStr x => x | _ => _ end).
  destruct (bool_decide (named = "") || bool_decide (named ∈ ids v)) eqn:E; [by left|right].
  apply orb_false_iff in E as [E1%bool_decide_eq_false E2%bool_decide_eq_false]. eexists _, _. split_and!; [done..|].
  unfold named. destruct (json_get payload "id"); try done; apply prefix_app.
Qed.

#[export] Instance server_laws : RtviLaws Server ids (λ _, 0) minted.
Proof.
  split.
  - done.
  - intros v l x. rewrite info_eq. intros [= <-]. apply find_streams_None.
  - intros v. by rewrite info_eq.
  - intros payload v. destruct (start_ids payload v) as [->|(x & url & -> & _ & _ & Hx)]; [by left|right].
    exists x. split; [|done]. cbn [snd]. rewrite ids_streams. unfold ids. by rewrite fmap_app.
  - done.
  - intros x v. rewrite stop_eq. cbn [snd]. rewrite ids_remove. split; [apply sublist_filter|done].
  - intros x v. by rewrite captions_eq.
  - done.
Qed.

#[export] Instance server_works : RtviWorks Server ids (λ _, 0).
Proof.
  split.
  - done.
  - intros v l x. rewrite info_eq. intros [= <-] [f Hf]. by eapply find_streams_Some.
  - intros payload v. destruct (start_ids payload v) as [->|(x & url & -> & Hne & Hx & _)]; [by left|].
    split; [done|left]. exists x. split_and!; [|done|done|].
    + apply String.eqb_neq in Hne.
      transitivity (if negb (String.eqb x "") then Ok (VStr x) else Ok (vor VNone VNone)); [reflexivity|by rewrite Hne].
    + rewrite ids_streams. unfold ids. by rewrite fmap_app.
  - intros x v. rewrite stop_eq. split; [done|]. left. split; [apply ids_remove|done].
  - intros x v. by rewrite captions_eq.
  - done.
Qed.

(** ** A faulty service

    It does not answer its next listings ([fy_deaf]), does not stop streams when it
    is stuck, and, where [doubles], adds a stream under an id it has already. *)
Record Faulty := mk_Faulty {
  fy_ids : list string;
  fy_deaf : nat;
  fy_stuck : bool;
  fy_unanswered : nat;
  fy_strays : nat;
  fy_requests : nat;
}.
Definition put_ids (l : list string) (v : Faulty) : Faulty :=
  mk_Faulty l (fy_deaf v) (fy_stuck v) (fy_unanswered v) (fy_strays v) (fy_requests v).

Section faulty.
Context (doubles : bool).
Definition faulty_add (entry : dict string pyval) (v : Faulty) : result HttpResponse * Faulty :=
  let named := match json_get entry "id" with VStr x => x | _ => mint (fy_ids v) end in
  if bool_decide (named = "") || negb doubles && bool_decide (named ∈ fy_ids v)
  then (json_response false 409 VNone, v)
  else (json_response false 200 (VDict [("results", VList [VDict [("id", VStr named)]])]), put_ids (fy_ids v ++ [named]) v).
Definition faulty_list (v : Faulty) : result HttpResponse * Faulty :=
  match fy_deaf v with
  | S n => (json_response false 503 VNone, mk_Faulty (fy_ids v) n (fy_stuck v) (S (fy_unanswered v)) (fy_strays v) (fy_requests v))
  | O => (json_response false 200 (VDict [("results", VList (stream_dict <$> ((λ x, (x, "")) <$> fy_ids v)))]), v)
  end.
Definition faulty_stop (x : string) (v : Faulty) : result HttpResponse * Faulty :=
  if fy_stuck v
  then (json_response false 400 VNone, mk_Faulty (fy_ids v) (fy_deaf v) true (fy_unanswered v) (S (fy_strays v)) (fy_requests v))
  else (blank, put_ids (filter (λ y, y ≠ x) (fy_ids v)) v).
Definition faulty_serve (method path : string) (body : option pyval) : stM Faulty HttpResponse := λ v,
  if String.eqb method "POST" then faulty_add (asked body) v
  else if String.eqb method "GET" then faulty_list v
  else match after_prefix "/streams/delete/" path with Some x => faulty_stop x v | None => (blank, v) end.
Definition faulty : RtviServer Faulty := {|
  http := faulty_serve;
  post_request := λ _ _ v, (fy_requests v, mk_Faulty (fy_ids v) (fy_deaf v) (fy_stuck v) (fy_unanswered v) (fy_strays v) (S (fy_requests v)));
  answer := λ _ _, None;
|}.
#[local] Existing Instance faulty.

Lemma faulty_info_eq v :
  get_stream_info v =
    match fy_deaf v with
    | S n => (Exn HTTPStatusError, (faulty_list v).2)
    | O => (Ok (stream_dict <$> ((λ x, (x, "")) <$> fy_ids v)), v)
    end.
Proof.
  unfold get_stream_info, request, mbind, stM_bind.
  change (http "GET" "/streams/get-stream-info" None v) with (faulty_list v). unfold faulty_list.
  by destruct (fy_deaf v).
Qed.
Lemma faulty_stop_eq x v :
  stop_stream x v = (if fy_stuck v then Exn HTTPStatusError else Ok tt, (faulty_stop x v).2).
Proof.
  assert (http "DELETE" ("/streams/delete/" +:+ x) None v = faulty_stop x v) as E.
  { transitivity (match after_prefix "/streams/delete/" ("/streams/delete/" +:+ x) with
      Some y => faulty_stop y v | None => (blank, v) end); [reflexivity|].
    by rewrite after_prefix_app. }
  unfold stop_stream, delete_path, request, mbind, stM_bind. rewrite E. unfold faulty_stop. by destruct (fy_stuck v).
Qed.
Lemma faulty_start payload v :
  (start_stream payload v = (Exn HTTPStatusError, v)) ∨
  ∃ x, start_stream payload v = (Ok (VDict [("results", VList [VDict [("id", VStr x)]])]), put_ids (fy_ids v ++ [x]) v) ∧
    x ≠ "" ∧ (doubles = false → x ∉ fy_ids v) ∧ match json_get payload "id" with VStr y => x = y | _ => minted x = true end.
Proof.
  unfold start_stream, request. set (entry := stream_entry payload).
  change (http "POST" "/streams/add" (Some (VDict [("streams", VList [VDict entry])]))) with (faulty_add entry).
  unfold mbind, stM_bind, faulty_add. change (json_get entry "id") with (json_get payload "id"). cbv zeta.
  set (named := match json_get payload "id" with VStr x => x | _ => _ end).
  destruct (_ || _) eqn:E; [by left|right]. exists named. split; [done|].
  apply orb_false_iff in E as [E1%bool_decide_eq_false E2]. split_and!; [done|..].
  - intros ->. by apply bool_decide_eq_false in E2.
  - unfold named. destruct (json_get payload "id"); try done; apply prefix_app.
Qed.

Lemma faulty_ids_None x (l : list string) : find_stream x (stream_dict <$> ((λ y, (y, "")) <$> l)) = Ok None → x ∉ l.
Proof.
  intros Hx%find_streams_None Hin. apply Hx. rewrite <-list_fmap_compose. apply list_elem_of_fmap. by exists x.
Qed.
Lemma faulty_ids_Some x (l : list string) f : find_stream x (stream_dict <$> ((λ y, (y, "")) <$> l)) = Ok (Some f) → x ∈ l.
Proof.
  intros Hx%find_streams_Some. rewrite <-list_fmap_compose in Hx. by apply list_elem_of_fmap in Hx as (y & -> & Hin).
Qed.

#[export] Instance faulty_laws : RtviLaws Faulty fy_ids fy_unanswered minted.
Proof.
  split.
  - intros v. rewrite faulty_info_eq. unfold faulty_list. by destruct (fy_deaf v).
  - intros v l x. rewrite faulty_info_eq. destruct (fy_deaf v); [intros [= <-]|done]. apply faulty_ids_None.
  - intros v. rewrite faulty_info_eq. unfold faulty_list. destruct (fy_deaf v); [done|]. cbn. split; [lia|]. intros _. left. lia.
  - intros payload v. destruct (faulty_start payload v) as [->|(x & -> & _ & _ & Hx)]; [by left|right]. by exists x.
  - intros payload v. by destruct (faulty_start payload v) as [->|(x & -> & _)].
  - intros x v. rewrite faulty_stop_eq. unfold faulty_stop. destruct (fy_stuck v); [done|]. split; [apply sublist_filter|done].
  - done.
  - done.
Qed.
End faulty.

#[export] Instance faulty_works : RtviWorks (H := faulty false) Faulty fy_ids fy_strays.
Proof.
  split.
  - intros v. rewrite faulty_info_eq. unfold faulty_list. by destruct (fy_deaf v).
  - intros v l x. rewrite faulty_info_eq. destruct (fy_deaf v); [intros [= <-] [f Hf]|done]. by eapply faulty_ids_Some.
  - intros payload v. destruct (faulty_start false payload v) as [->|(x & -> & Hne & Hx & _)]; [by left|].
    split; [done|left]. exists x. split_and!; [|done|by apply Hx|done].
    apply String.eqb_neq in Hne.
    transitivity (if negb (String.eqb x "") then Ok (VStr x) else Ok (vor VNone VNone)); [reflexivity|by rewrite Hne].
  - intros x v. rewrite faulty_stop_eq. unfold faulty_stop. destruct (fy_stuck v); [|by split; [|left]].
    split; [done|right]. split_and!; [done|done|cbn; lia].
  - done.
  - done.
Qed.

(** ** Runs *)
Definition Srv := Server.
Definition idle : Server := mk_Server [] 0 [] [].
Abbreviation State := (State (V:=Server) (E:=unit)).
Definition empty (fails : list (option nat)) : State := new_State (mk_Server [] 0 [] fails) tt.
Definition config_for (alert_type : string) : AlertRuleConfig :=
  match new_config [("live_stream_url", VStr "rtsp://cam"); ("alert_type", VStr alert_type); ("prompt", VStr "?"); ("sensor_id", VStr "cam")]
  with Ok cfg => cfg | Exn _ => [] end.
Definition create (polls : nat) (id : string) : proc State response :=
  start_alert None "cosmos" polls id "2025-01-01T00:00:00Z" (config_for id).
Definition discard {S A} (m : proc S A) : proc S unit := _ ← m; mret tt.
(** The rules, the streams, the references and the tasks created *)
Definition seen {E} (s : Realtime.State (V:=Server) (E:=E)) : list string * list string * list string * list background :=
  (dkeys (rules s), ids (rtvi s), dkeys (pending_stream_refs s), created_tasks s).
Definition ended (sp : State * list (proc State unit)) : State * bool := (sp.1, forallb is_done sp.2).

Example fire_then_smoke :
  let '(r1, s1) := exec (create 1 "fire") (empty []) in
  let '(r2, s2) := exec (create 1 "smoke") s1 in
  (seen s1, seen s2, ids (rtvi (exec (stop_alert None "fire") s2).2), ids (rtvi (exec (stop_alert None "smoke") s1).2)) =
  ((["fire"], ["cam"], [], []), (["fire"; "smoke"], ["cam"], [], []), ["cam"], ["cam"]).
Proof. vm_compute. reflexivity. Qed.

(** The inference service, so many calls later *)
Definition later (calls : nat) (s : State) : State :=
  set_rtvi (mk_Server (sv_streams (rtvi s)) calls (sv_requests (rtvi s)) (sv_fails (rtvi s))) s.
Definition final {A} (m : proc State A) (s : State) : State := (exec m s).2.
Definition status (x : result response * State) : option Z := match x.1 with Ok r => Some r.2 | Exn _ => None end.

(** The mark of a failed readiness check stays, since that task has no callback that
    would take it away; it then hides the late failure of the next rule of the same
    camera, which stays in the registry without captions. *)
Definition unreadable : State := final (create 1 "fire") (empty [Some 3; Some 20]).
Definition recovered : State := final (create 1 "smoke") unreadable.
Example late_failure_hidden :
  (status (exec (create 1 "fire") (empty [Some 3; Some 20])), status (exec (create 1 "smoke") unreadable),
   readiness_cleaned_streams recovered, caption_tasks recovered,
   seen (final (log_caption_task_result 1 "cam" "smoke") (later 20 recovered))) =
  (Some 502%Z, Some 201%Z, {["cam"]}, [(1, "cam", "smoke")], (["smoke"], ["cam"], [], [])).
Proof. vm_compute. reflexivity. Qed.
(** Without the mark the failure would be cleaned up. *)
Example late_failure_seen :
  seen (final (log_caption_task_result 1 "cam" "smoke") (set_cleaned ∅ (later 20 recovered))) =
  (["smoke"], ["cam"], [], [CleanupFailedRule "cam" "smoke"]).
Proof. vm_compute. reflexivity. Qed.

(** A deletion does not count a creation under way: it stops the stream the new rule
    has just been promised. *)
Definition one_rule : State := final (create 1 "fire") (empty []).
Definition ran (s : State) (ps : list (proc State unit)) (order : list nat) :=
  (λ sp : State * list (proc State unit), (seen sp.1, forallb is_done sp.2)) <$> schedule (Go <$> order) (s, ps).
Example deletion_stops_shared_stream :
  ran one_rule [discard (create 1 "smoke"); discard (stop_alert None "fire")]
    (replicate 6 0 ++ replicate 6 1 ++ replicate 4 0) = Some (("smoke" :: [], [], [], []), true).
Proof. vm_compute. reflexivity. Qed.

(** Two creations of a camera that cannot be read: the one that added the stream
    leaves it to the other, and the other to the one that added it. *)
Example unreadable_stream_left :
  ran (empty [Some 4; Some 4]) [discard (create 0 "fire"); discard (create 0 "smoke")]
    (replicate 7 0 ++ replicate 6 1 ++ replicate 8 0 ++ replicate 2 1) = Some (([], ["cam"], [], []), true).
Proof. vm_compute. reflexivity. Qed.

(** A response that is no JSON escapes the creation, which is said never to raise. *)
Example creation_raises :
  (exec (start_alert (RTVI := server true) (E := unit) None "cosmos" 0 "fire" "t" [("model", VStr "m")]) (empty [])).1 = Exn ValueError.
Proof. vm_compute. reflexivity. Qed.

(** A listing that is not answered: the rule adds its stream a second time, where
    the service lets it; and a stop that fails: the stream stays, without rules. *)
Abbreviation FaultyState := (Realtime.State (V:=Faulty) (E:=unit)).
Definition faulty_state (deaf : nat) (stuck : bool) : FaultyState := new_State (mk_Faulty [] deaf stuck 0 0 0) tt.
Definition create_faulty (doubles : bool) (id : string) : proc FaultyState response :=
  start_alert (RTVI := faulty doubles) None "cosmos" 0 id "2025-01-01T00:00:00Z" (config_for id).
Definition grow_deaf (s : FaultyState) : FaultyState :=
  set_rtvi (mk_Faulty (fy_ids (rtvi s)) 1 (fy_stuck (rtvi s)) (fy_unanswered (rtvi s)) (fy_strays (rtvi s)) (fy_requests (rtvi s))) s.
Definition stuck_rule : FaultyState := (exec (create_faulty false "fire") (faulty_state 0 true)).2.
Example camera_added_twice :
  let s := (exec (create_faulty true "smoke") (grow_deaf (exec (create_faulty true "fire") (faulty_state 0 false)).2)).2 in
  (dkeys (rules s), fy_ids (rtvi s), fy_unanswered (rtvi s)) = (["fire"; "smoke"], ["cam"; "cam"], 1).
Proof. vm_compute. reflexivity. Qed.
Example stream_left_behind :
  let s := (exec (stop_alert (RTVI := faulty false) None "fire") stuck_rule).2 in
  (rules s, fy_ids (rtvi s), fy_strays (rtvi s)) = ([], ["cam"], 1).
Proof. vm_compute. reflexivity. Qed.

(** ** With a store *)
Abbreviation docs := (dict string document).
Definition has_fields (filters : document) (doc : document) : bool :=
  forallb (λ kv, is_str (json_get doc kv.1) (text_of kv.2)) filters.
Definition dict_store : RuleStore docs := {|
  rs_create := λ id doc d, (Ok doc, dset d id doc);
  rs_get := λ id d, (Ok (dget d id), d);
  rs_list := λ filters size from_ d,
    let l := (λ x : string * document, dset x.2 "_id" (VStr x.1)) <$> filter (λ x : string * document, has_fields filters x.2) d in
    (Ok (l, Z.of_nat (length l)), d);
  rs_update := λ id partial d,
    match dget d id with
    | Some doc => (Ok doc, dset d id (dupdate doc partial))
    | None => (Exn DocumentNotFoundError, d)
    end;
  rs_delete := λ id d, (Ok (dmem d id), ddel d id);
|}.
Abbreviation StoredState := (Realtime.State (V:=Server) (E:=docs)).
Definition stored (fails : list (option nat)) : StoredState := new_State (mk_Server [] 0 [] fails) [].
Definition no_sensor : AlertRuleConfig :=
  match new_config [("live_stream_url", VStr "rtsp://cam"); ("alert_type", VStr "fire"); ("prompt", VStr "?")]
  with Ok cfg => cfg | Exn _ => [] end.
Definition create_stored : proc StoredState response :=
  start_alert (Some dict_store) "cosmos" 0 "fire" "2025-01-01T00:00:00Z" no_sensor.

(** A replay that starts while a rule is being created replays it too, its document
    being pending: the rule gets two streams, and one of them is left to nobody. *)
Definition half_created : StoredState * list (proc StoredState unit) :=
  after (Go <$> replicate 4 0) (stored [], [discard create_stored]).
Definition replayed : StoredState := (exec (replay (Some dict_store) "cosmos" 0 "2025-01-02T00:00:00Z") half_created.1).2.
Definition twice_created : StoredState := (exec (default (mret tt) (head half_created.2)) replayed).2.
Example replay_creates_twice :
  (seen half_created.1, seen replayed, seen twice_created,
   (λ x : string * dict string pyval, text_of (json_get x.2 "rtvi_stream_id")) <$> rules twice_created) =
  (([], ["rtvi-"], ["rtvi-"], []), (["fire"], ["rtvi-"; "rtvi-rtvi-"], ["rtvi-"], []),
   (["fire"], ["rtvi-"; "rtvi-rtvi-"], [], []), ["rtvi-"]).
Proof. vm_compute. reflexivity. Qed.

(** ** Witnesses *)

(** Two creations for a camera, the second waiting for the lock of the first *)
Definition two_creations : list (proc State unit) := [discard (create 1 "fire"); discard (create 1 "smoke")].
Definition contended : State * list (proc State unit) := after (Go <$> [0; 0; 0; 1]) (empty [], two_creations).
Lemma two_creations_handlers : Forall (handler None "cosmos") two_creations.
Proof. repeat constructor. Qed.

Lemma some_running {S} (ps : list (proc S unit)) : forallb is_done ps = false → ¬ Forall is_done ps.
Proof.
  intros Hf Hd. apply not_true_iff_false in Hf. apply Hf, forallb_forall. intros p Hp%list_elem_of_In.
  rewrite Forall_forall in Hd. by apply Is_true_true, Hd.
Qed.
Lemma contended_runs registry unanswered :
  rtc (pstep (handler None "cosmos") (outside_moves (registry := registry) (unanswered := unanswered)))
    (empty [], []) (contended.1, contended.2).
Proof. unfold contended. apply pool_after_runs, two_creations_handlers. Qed.

Lemma requests_give_back_witness : ∃ i p p' s', contended.2 !! i = Some p ∧ next p contended.1 = Some (p', s').
Proof.
  pose proof (requests_give_back None "cosmos" (mk_Server [] 0 [] []) tt) as Hr.
  specialize (Hr contended.1 contended.2 (contended_runs _ _)). destruct Hr as [Hr _]. apply Hr.
  apply some_running. vm_compute. reflexivity.
Defined.
Example contended_waits :
  match next (default (mret tt) (contended.2 !! 1)) contended.1 with Some _ => false | None => true end = true.
Proof. vm_compute. reflexivity. Qed.

(** The first listing of two creations is not answered. *)
Definition doubled : FaultyState * list (proc FaultyState unit) :=
  after (Go <$> replicate 14 0 ++ replicate 6 1)
    (faulty_state 1 false, [discard (create_faulty true "fire"); discard (create_faulty true "smoke")]).
Lemma camera_added_once_witness : times (registry := fy_ids) "cam" (rtvi doubled.1) ≤ 2.
Proof.
  pose proof (camera_added_once (H := faulty true) fy_ids fy_unanswered minted None "cosmos" (mk_Faulty [] 1 false 0 0 0) tt) as Hr.
  specialize (Hr doubled.1 doubled.2 "cam"). assert (fy_unanswered (rtvi doubled.1) = 1) as E by (vm_compute; reflexivity).
  rewrite E in Hr. apply Hr; [|unfold doubled|reflexivity].
  - intros y _. vm_compute. lia.
  - apply pool_after_runs. repeat constructor.
Defined.

Lemma one_rule_consistent : consistent (registry := ids) one_rule.
Proof.
  intros id rule x. assert (rules one_rule = [("fire", registry_entry CREATED_FIELDS "fire" "cam" true (config_for "fire") (VStr "cosmos") (VStr "2025-01-01T00:00:00Z"))]) as ->
    by (vm_compute; reflexivity).
  intros [= -> ->]%list_elem_of_singleton [= <-]. by left.
Qed.
Lemma create_exact_witness :
  ∃ sid owns, sid ∈ ids (rtvi (final (create 1 "smoke") one_rule)) ∧
    rules (final (create 1 "smoke") one_rule) =
    dset (rules one_rule) "smoke" (registry_entry CREATED_FIELDS "smoke" sid owns (config_for "smoke") (VStr "cosmos") (VStr "2025-01-01T00:00:00Z")).
Proof.
  pose proof (create_exact (registry := ids) "cosmos" 1 "smoke" "2025-01-01T00:00:00Z" (config_for "smoke") one_rule (final (create 1 "smoke") one_rule)
    (Ok (success_response 201 [("id", VStr "smoke"); ("created_at", VStr "2025-01-01T00:00:00Z")]))) as Hc.
  destruct Hc as (_ & _ & _ & sid & owns & H1 & _ & H2); [vm_compute; reflexivity|vm_compute; reflexivity|apply not_elem_of_empty|
    exact one_rule_consistent|vm_compute; reflexivity|]. exists sid, owns. split; [exact H1|exact H2].
Defined.
Lemma stuck_rule_consistent : consistent (registry := fy_ids) stuck_rule.
Proof.
  intros id rule x. assert (rules stuck_rule = [("fire", registry_entry CREATED_FIELDS "fire" "cam" true (config_for "fire") (VStr "cosmos") (VStr "2025-01-01T00:00:00Z"))]) as ->
    by (vm_compute; reflexivity).
  intros [= -> ->]%list_elem_of_singleton [= <-]. by left.
Qed.
(** On a service that is stuck: the rule goes all the same. *)
Lemma delete_exact_witness :
  rules (exec (stop_alert (RTVI := faulty false) None "fire") stuck_rule).2 = [] ∧
  fy_strays (rtvi (exec (stop_alert (RTVI := faulty false) None "fire") stuck_rule).2) = 1.
Proof.
  pose proof (delete_exact (RTVI := faulty false) (registry := fy_ids) (strays := fy_strays) "fire" stuck_rule
    (exec (stop_alert (RTVI := faulty false) None "fire") stuck_rule).2 (Ok (deleted_response "fire"))) as Hd.
  destruct (dget (rules stuck_rule) "fire") as [rule|] eqn:E; [|by vm_compute in E].
  destruct Hd as (_ & H1 & _ & H2); [vm_compute; reflexivity|vm_compute; reflexivity|apply (bool_decide_unpack _); vm_compute; exact I|
    exact stuck_rule_consistent|vm_compute; reflexivity|]. split; [rewrite H1; vm_compute; reflexivity|].
  vm_compute. reflexivity.
Defined.
