(* ===== verification/CollisionState.v ===== *)
(** * Collision states (behavior analytics)

    [CollisionState] of [schema/collision/collision_state.py]: a group of objects
    of one sensor that came close to a primary object, with their trajectories;
    and the frames ([ObjectData] and the frame dicts of
    [transform/detection/collision_detection.py]) it is fed from. The objects of
    a frame, keyed by id beside three metadata keys in the code, are a dict of
    their own here: no object is named like one of [METADATA_KEYS].

    A Python set is a duplicate-free list in the order of insertion. Merging
    makes two states share trajectory lists, but the state merged from is
    dropped before any list grows, so lists are values. *)

From Stdlib Require Import ZArith Lia.
From stdpp Require Import base list strings sets.
From S2P Require Import Prelude PyDict PyFloat Schema.
Open Scope Z_scope.

Record ObjectData := mk_ObjectData {
  od_x : float;
  od_y : float;
  od_bbox : Bbox;
  od_object_type : string;
  od_is_geo_coordinate : bool;
  od_bearing : float;
}.

Record FrameData := mk_FrameData {
  num_references : Z;
  fd_timestamp : Z;
  fd_id : string;
  fd_objects : dict string ObjectData;
}.

(** [set.add] *)
Definition set_add {A} `{EqDecision A} (x : A) (l : list A) : list A := if bool_decide (x ∈ l) then l else l ++ [x].

Record TrajectoryPoint := mk_TrajectoryPoint { tp_x : float; tp_y : float; tp_timestamp : Z }.

Record CollisionState (T : Type) := mk_CollisionState {
  cs_sensor_id : string;
  cs_object_ids : list string;
  cs_start_time : datetime;
  cs_frame_ids : list (string * Z);
  cs_trajectories : dict string (list TrajectoryPoint);
  cs_behaviors : dict string (option (Behavior T));
  cs_place : string;
  cs_location : Location;
  cs_trigger_modules : list string;
  cs_primary_object_id : string;
  cs_timeout : Z;
  cs_proximity_moments : dict string Z;
}.
Arguments mk_CollisionState {T}.
Arguments cs_sensor_id {T}. Arguments cs_object_ids {T}. Arguments cs_start_time {T}. Arguments cs_frame_ids {T}.
Arguments cs_trajectories {T}. Arguments cs_behaviors {T}. Arguments cs_place {T}. Arguments cs_location {T}.
Arguments cs_trigger_modules {T}. Arguments cs_primary_object_id {T}. Arguments cs_timeout {T}.
Arguments cs_proximity_moments {T}.

Section state.
Context {T : Type}.
Implicit Types (cs : CollisionState T) (object_id : string).

(** Attribute assignments *)
Definition set_object_ids (l : list string) cs : CollisionState T :=
  mk_CollisionState (cs_sensor_id cs) l (cs_start_time cs) (cs_frame_ids cs) (cs_trajectories cs) (cs_behaviors cs)
    (cs_place cs) (cs_location cs) (cs_trigger_modules cs) (cs_primary_object_id cs) (cs_timeout cs) (cs_proximity_moments cs).
Definition set_start_time (t : datetime) cs : CollisionState T :=
  mk_CollisionState (cs_sensor_id cs) (cs_object_ids cs) t (cs_frame_ids cs) (cs_trajectories cs) (cs_behaviors cs)
    (cs_place cs) (cs_location cs) (cs_trigger_modules cs) (cs_primary_object_id cs) (cs_timeout cs) (cs_proximity_moments cs).
Definition set_frame_ids (l : list (string * Z)) cs : CollisionState T :=
  mk_CollisionState (cs_sensor_id cs) (cs_object_ids cs) (cs_start_time cs) l (cs_trajectories cs) (cs_behaviors cs)
    (cs_place cs) (cs_location cs) (cs_trigger_modules cs) (cs_primary_object_id cs) (cs_timeout cs) (cs_proximity_moments cs).
Definition set_trajectories (d : dict string (list TrajectoryPoint)) cs : CollisionState T :=
  mk_CollisionState (cs_sensor_id cs) (cs_object_ids cs) (cs_start_time cs) (cs_frame_ids cs) d (cs_behaviors cs)
    (cs_place cs) (cs_location cs) (cs_trigger_modules cs) (cs_primary_object_id cs) (cs_timeout cs) (cs_proximity_moments cs).
Definition set_behaviors (d : dict string (option (Behavior T))) cs : CollisionState T :=
  mk_CollisionState (cs_sensor_id cs) (cs_object_ids cs) (cs_start_time cs) (cs_frame_ids cs) (cs_trajectories cs) d
    (cs_place cs) (cs_location cs) (cs_trigger_modules cs) (cs_primary_object_id cs) (cs_timeout cs) (cs_proximity_moments cs).
Definition set_proximity_moments (d : dict string Z) cs : CollisionState T :=
  mk_CollisionState (cs_sensor_id cs) (cs_object_ids cs) (cs_start_time cs) (cs_frame_ids cs) (cs_trajectories cs)
    (cs_behaviors cs) (cs_place cs) (cs_location cs) (cs_trigger_modules cs) (cs_primary_object_id cs) (cs_timeout cs) d.

(** ** Operations *)

Definition new_CollisionState (object_ids : list string) (sensor_id : string) (place : string) (location : Location)
    (start_time : datetime) (trigger_modules : list string) (timeout : Z) : result (CollisionState T) :=
  match object_ids with
  | [] => Exn IndexError
  | primary :: _ =>
      Ok (mk_CollisionState sensor_id (foldl (λ s o, set_add o s) [] object_ids) start_time []
            (foldl (λ d o, dset d o []) [] object_ids) [] place location trigger_modules primary timeout [])
  end.

Definition update_behavior object_id (behavior : option (Behavior T)) cs : CollisionState T :=
  set_behaviors (dset (cs_behaviors cs) object_id behavior) cs.
Definition get_behavior object_id cs : option (Behavior T) := default None (dget (cs_behaviors cs) object_id).

Definition update_trajectory_by_frame object_id (frame : FrameData) cs : result (CollisionState T) :=
  obj ← require (dget (fd_objects frame) object_id) KeyError;
  let trajectory := mk_TrajectoryPoint (od_x obj) (od_y obj) (fd_timestamp frame) in
  let known := default [] (dget (cs_trajectories cs) object_id) in
  Ok (set_trajectories (dset (cs_trajectories cs) object_id (known ++ [trajectory])) cs).
Definition update_trajectory_by_trajectory object_id (trajectory : list TrajectoryPoint) cs : CollisionState T :=
  set_trajectories (dset (cs_trajectories cs) object_id trajectory) cs.
Definition get_trajectory object_id cs : result (list TrajectoryPoint) := require (dget (cs_trajectories cs) object_id) KeyError.

Definition update_location (location : Location) cs : CollisionState T :=
  mk_CollisionState (cs_sensor_id cs) (cs_object_ids cs) (cs_start_time cs) (cs_frame_ids cs) (cs_trajectories cs)
    (cs_behaviors cs) (cs_place cs) location (cs_trigger_modules cs) (cs_primary_object_id cs) (cs_timeout cs) (cs_proximity_moments cs).

(** [if k not in d: d[k] = v] *)
Definition set_once {V} (d : dict string V) (k : string) (v : V) : dict string V := if dmem d k then d else dset d k v.

Definition add_object_id object_id (collision_timestamp : option Z) cs : CollisionState T :=
  let cs := set_object_ids (set_add object_id (cs_object_ids cs)) cs in
  let cs := set_trajectories (set_once (cs_trajectories cs) object_id []) cs in
  match collision_timestamp with
  | None => cs
  | Some t => set_proximity_moments (set_once (set_once (cs_proximity_moments cs) object_id t) (cs_primary_object_id cs) t) cs
  end.

Definition get_proximity_moment object_id cs : option Z := dget (cs_proximity_moments cs) object_id.

Definition add_frame_id (frame_id : string) (timestamp : Z) cs : CollisionState T :=
  set_frame_ids (set_add (frame_id, timestamp) (cs_frame_ids cs)) cs.
(** The order in which a set is iterated decides between equal timestamps. *)
Definition get_frame_ids (iterate : list (string * Z) → list (string * Z)) cs : list string :=
  (sort_key snd (iterate (cs_frame_ids cs))).*1.

Definition reset_time (now : datetime) cs : CollisionState T := set_start_time now cs.
Definition is_timeout (now : datetime) cs : bool := fgtZ (total_seconds (now - cs_start_time cs)) (cs_timeout cs).

(** ** Lemmas *)

(** A state kept under the key [p]: its primary object is in the group, and every
    object of the group has a trajectory. *)
Record state_ok (p : string) cs : Prop := {
  ok_primary : cs_primary_object_id cs = p;
  ok_member : p ∈ cs_object_ids cs;
  ok_ids : NoDup (cs_object_ids cs);
  ok_trajectories o : o ∈ cs_object_ids cs → is_Some (dget (cs_trajectories cs) o);
}.

Lemma set_add_elem {A} `{EqDecision A} (x y : A) l : y ∈ set_add x l ↔ y = x ∨ y ∈ l.
Proof. unfold set_add. case_bool_decide; set_solver. Qed.
Lemma set_add_NoDup {A} `{EqDecision A} (x : A) l : NoDup l → NoDup (set_add x l).
Proof.
  intros Hl. unfold set_add. case_bool_decide; [done|]. apply NoDup_app. split_and!; [done| |apply NoDup_singleton].
  set_solver.
Qed.

Lemma set_once_get {V} (d : dict string V) k v k' :
  dget (set_once d k v) k' = match dget d k' with Some v' => Some v' | None => if decide (k = k') then Some v else None end.
Proof.
  unfold set_once, dmem. destruct (dget d k) eqn:E; [destruct (dget d k') eqn:E'; [done|]; by rewrite decide_False by congruence|].
  rewrite dget_dset. case_decide; [subst; by rewrite E|by destruct (dget d k')].
Qed.
Lemma set_once_some {V} (d : dict string V) k v k' : is_Some (dget d k') ∨ k' = k → is_Some (dget (set_once d k v) k').
Proof. rewrite set_once_get. intros [[x ->]| ->]; [by eexists|]. destruct (dget d k); [by eexists|]. by rewrite decide_True. Qed.

Lemma new_state_ok p sensor place loc t modules timeout :
  ∃ cs, new_CollisionState [p] sensor place loc t modules timeout = Ok cs ∧ state_ok p cs ∧ cs_object_ids cs = [p] ∧
    cs_sensor_id cs = sensor ∧ cs_start_time cs = t ∧ cs_timeout cs = timeout ∧ cs_proximity_moments cs = [].
Proof.
  eexists. split; [done|]. split; [|done]. split; cbn; [done|by left|apply NoDup_singleton|].
  intros o ->%list_elem_of_singleton. by rewrite decide_True.
Qed.

Lemma add_object_ids o t cs : cs_object_ids (add_object_id o t cs) = set_add o (cs_object_ids cs).
Proof. by destruct t. Qed.
Lemma add_object_primary o t cs : cs_primary_object_id (add_object_id o t cs) = cs_primary_object_id cs.
Proof. by destruct t. Qed.

Lemma add_object_ok p o t cs : state_ok p cs → state_ok p (add_object_id o t cs).
Proof.
  intros [Hp Hm Hi Ht]. split.
  - by rewrite add_object_primary.
  - rewrite add_object_ids. apply set_add_elem. by right.
  - rewrite add_object_ids. by apply set_add_NoDup.
  - intros o'. rewrite add_object_ids, set_add_elem. intros Ho.
    assert (is_Some (dget (set_once (cs_trajectories cs) o []) o')) as H by (apply set_once_some; destruct Ho; [by right|left; auto]).
    by destruct t.
Qed.

Lemma set_trajectory_ok p o l cs : state_ok p cs → state_ok p (set_trajectories (dset (cs_trajectories cs) o l) cs).
Proof.
  intros [Hp Hm Hi Ht]. split; try done. intros o' Ho. cbn. rewrite dget_dset. case_decide; [by eexists|]. by apply Ht.
Qed.
End state.
