(* ===== verification/Closeness.v ===== *)
(** * When two objects are close (behavior analytics)

    The configuration of the collision detector ([CollisionDetectionConfig] of
    [schema/config.py]), the geometry of [transform/detection/collision_detection.py]
    on boxes and positions, and the vectorized haversine distance of
    [utils/distance_util.py]. The functions of numpy and [math] on angles are
    interfaces ([NumpyMath], [Degrees], [MathLib]); an array is the list of its
    elements, the order in which [np.sum] adds is [np_sum]. *)

From Stdlib Require Import ZArith Lia.
From stdpp Require Import base list strings.
From S2P Require Import Prelude PyDict PyFloat PyNumber Schema Crp Stop CollisionState.
Open Scope Z_scope.

Record CollisionDetectionConfig := mk_CollisionDetectionConfig {
  enable : bool;
  targetClasses : list string;
  distanceMetersThreshold : float;
  iouThreshold : float;
  alertTimeWindow : Z;
  alertListTimeoutThreshold : Z;
  maxNumberPastFrames : Z;
  ghostTimeThresholdMs : Z;
  ghostDistanceMetersThreshold : float;
  ghostDistancePixelsThreshold : float;
}.

Class NumpyMath := {
  np_radians : float → float;
  np_sin : float → float;
  np_cos : float → float;
  np_arctan2 : float → float → float;
}.
Class Degrees := degrees : float → float.

(** ** Boxes *)

Definition check_bbox_intersection (bbox1 bbox2 : Bbox) : bool :=
  if flt (rightX bbox1) (leftX bbox2) || flt (rightX bbox2) (leftX bbox1) then false
  else if flt (bottomY bbox1) (topY bbox2) || flt (bottomY bbox2) (topY bbox1) then false
  else true.

Definition area (bbox : Bbox) : float :=
  fmul (fmax f0 (fsub (rightX bbox) (leftX bbox))) (fmax f0 (fsub (bottomY bbox) (topY bbox))).

Definition calculate_iou (bbox1 bbox2 : Bbox) : float :=
  let inter_left := fmax (leftX bbox1) (leftX bbox2) in
  let inter_top := fmax (topY bbox1) (topY bbox2) in
  let inter_right := fmin (rightX bbox1) (rightX bbox2) in
  let inter_bottom := fmin (bottomY bbox1) (bottomY bbox2) in
  let inter_w := fmax f0 (fsub inter_right inter_left) in
  let inter_h := fmax f0 (fsub inter_bottom inter_top) in
  let inter_area := fmul inter_w inter_h in
  let union := fsub (fadd (area bbox1) (area bbox2)) inter_area in
  if fle union f0 then f0 else fdiv inter_area union.

Section distances.
Context `{NumpyMath} `{Degrees} `{MathLib} (cfg : CollisionDetectionConfig).

(** One element of [calculate_haversine_distance_vectorized] *)
Definition haversine (lat1 lon1 lat2 lon2 : float) : float :=
  let lat1 := np_radians lat1 in
  let lon1 := np_radians lon1 in
  let lat2 := np_radians lat2 in
  let lon2 := np_radians lon2 in
  let dlat := fsub lat2 lat1 in
  let dlon := fsub lon2 lon1 in
  let half x := np_sin (fdiv x (Z2f 2)) in
  let a := fadd (fmul (half dlat) (half dlat)) (fmul (fmul (fmul (np_cos lat1) (np_cos lat2)) (half dlon)) (half dlon)) in
  let c := fmul (Z2f 2) (np_arctan2 (fsqrt a) (fsqrt (fsub (Z2f 1) a))) in
  fmul (Z2f (6371 * 1000)) c.

Definition center (bbox : Bbox) : float * float :=
  (fdiv (fadd (leftX bbox) (rightX bbox)) (Z2f 2), fdiv (fadd (topY bbox) (bottomY bbox)) (Z2f 2)).

Definition distance_condition (calibration_type : CalibrationType) (distance dist_threshold iou_threshold : float)
    (bbox1 bbox2 : Bbox) (bearing_other : float) : bool :=
  match calibration_type with
  | IMAGE => flt iou_threshold (calculate_iou bbox1 bbox2)
  | GEO =>
      let '(x1, y1) := center bbox1 in
      let '(x2, y2) := center bbox2 in
      let angle := degrees (math_atan2 (fsub y2 y1) (fsub x2 x1)) in
      let diff := fabs (fsub angle bearing_other) in
      let angle_diff_other := if flt (Z2f 180) diff then fsub (Z2f 360) diff else diff in
      let lateral_distance := fabs (fmul distance (math_sin (radians angle_diff_other))) in
      flt distance dist_threshold && flt lateral_distance (fdiv (fmul (Z2f 3) dist_threshold) (Z2f 5)) &&
      check_bbox_intersection bbox1 bbox2
  | CARTESIAN => false
  end.


(** The bearing the other object is taken to have: opposite, unless both are known *)
Definition bearing_of_other (obj1 obj2 : ObjectData) : float :=
  if feq (od_bearing obj1) (Z2f (-1)) || feq (od_bearing obj2) (Z2f (-1)) then Z2f 180 else od_bearing obj2.

Definition close_pair (calibration_type : CalibrationType) (dist_threshold iou_threshold : float)
    (x : (ObjectData * ObjectData) * (string * string) * float) : option (string * float) :=
  let '((obj1, obj2), (_, object_id_a), distance) := x in
  if distance_condition calibration_type distance dist_threshold iou_threshold (od_bbox obj1) (od_bbox obj2) (bearing_of_other obj1 obj2)
  then Some (object_id_a, distance) else None.

(** No distances are computed for a Cartesian calibration. *)
Definition check_distances (calibration_type : CalibrationType) (pairs : list (ObjectData * ObjectData))
    (pair_ids : list (string * string)) : result (list (string * float)) :=
  match pairs with
  | [] => Ok []
  | _ =>
      match calibration_type with
      | GEO =>
          let distances := (λ p : ObjectData * ObjectData, haversine (od_x p.1) (od_y p.1) (od_x p.2) (od_y p.2)) <$> pairs in
          Ok (omap (close_pair GEO (distanceMetersThreshold cfg) f0) (zip (zip pairs pair_ids) distances))
      | IMAGE => Ok (omap (close_pair IMAGE f0 (iouThreshold cfg)) (zip (zip pairs pair_ids) (replicate (length pairs) f0)))
      | CARTESIAN => Exn UnboundLocalError
      end
  end.

(** The length of the path through the points of a trajectory *)
Definition steps_of (calibration_type : CalibrationType) (l : list TrajectoryPoint) : vec :=
  zip_with (λ p q,
    match calibration_type with
    | GEO => haversine (tp_x p) (tp_y p) (tp_x q) (tp_y q)
    | _ => let dx := fsub (tp_x q) (tp_x p) in let dy := fsub (tp_y q) (tp_y p) in fsqrt (fadd (fmul dx dx) (fmul dy dy))
    end) l (drop 1 l).

Context (np_sum : vec → float).

Definition is_ghost_object {T} (calibration_type : CalibrationType) (collision_state : CollisionState T) (object_id : string) : result bool :=
  trajectory ← get_trajectory object_id collision_state;
  let sorted_traj := sort_key tp_timestamp trajectory in
  match sorted_traj with
  | [] => Ok false
  | first :: _ =>
      match get_proximity_moment object_id collision_state with
      | None => Ok false
      | Some proximity_moment =>
          if ghostTimeThresholdMs cfg <? Z.abs (proximity_moment - tp_timestamp first) then Ok false
          else if (2 <=? length sorted_traj)%nat then
            let threshold := match calibration_type with
                             | GEO => ghostDistanceMetersThreshold cfg
                             | _ => ghostDistancePixelsThreshold cfg
                             end in
            Ok (negb (flt threshold (np_sum (steps_of calibration_type sorted_traj))))
          else Ok true
      end
  end.

(** ** Lemmas *)

(** For an image every pair is told apart by its boxes only. *)
Lemma check_distances_ok calibration pairs ids :
  calibration ≠ CARTESIAN → ∃ l : list (string * float), check_distances calibration pairs ids = Ok l ∧ ∀ x, x ∈ l → x.1 ∈ ids.*2.
Proof.
  intros Hc. assert (∀ f g h (l : list ((ObjectData * ObjectData) * (string * string) * float)), (∀ x : (ObjectData * ObjectData) * (string * string) * float, x ∈ l → x.1.2 ∈ ids) →
    ∀ y : string * float, y ∈ omap (close_pair f g h) l → y.1 ∈ ids.*2) as Hl.
  { intros f g h l Hin y ([[[o1 o2] [i a]] d] & Hx & Hy)%list_elem_of_omap. cbn in Hy.
    destruct (distance_condition _ _ _ _ _ _ _); [|done]. injection Hy as <-. apply list_elem_of_fmap. exists (i, a).
    split; [done|]. apply (Hin _ Hx). }
  assert (∀ A (l1 : list A) (l3 : list float) x, x ∈ zip (zip l1 ids) l3 → x.1.2 ∈ ids) as Hz.
  { intros A l1 l3 [[a b] c0] Hx%elem_of_zip_l. by apply elem_of_zip_r in Hx. }
  unfold check_distances. destruct pairs as [|p pairs]; [exists []; split; [done|intros x Hx%elem_of_nil; done]|].
  destruct calibration; [|done|]; (eexists; split; [done|]; apply Hl, Hz).
Qed.
End distances.
