(* ===== verification/Collision.v ===== *)
(** * Collision detection (behavior analytics)

    [CollisionDetection] of [transform/detection/collision_detection.py]: the
    frames of each sensor with the number of objects that still refer to them,
    groups of objects that came close to one under suspicion
    ([CollisionState]), merged when they meet, and the incidents the groups are
    reported as once their time is over.

    A [defaultdict] gets an entry when it is read. The order in which a set is
    iterated is an argument ([iter_set]); [clock] is what successive calls of
    [datetime.now] answer, in microseconds, without daylight saving changes.
    What the detector reads of a behavior's trajectory is its bearing. *)

From Stdlib Require Import ZArith Lia Floats.SpecFloat.
From stdpp Require Import base list strings sets.
From S2P Require Import Prelude PyDict PyFloat PyNumber PyText PyIso PyVal Schema Crp Stop CollisionState Closeness.
Open Scope string_scope.
Open Scope list_scope.
Open Scope Z_scope.

Record CollisionDetection (T : Type) := mk_CollisionDetection {
  potential_collision_map : dict string (dict string (CollisionState T));
  sensor_to_frames_map : dict string (dict Z FrameData);
  object_id_to_frames_map : dict string (dict string (list Z));
  timeout_counter_map : dict string (dict string datetime);
  frame_ids : dict string Z;
  alert_list : dict string (dict string datetime);
  object_id_to_behavior_map : dict string (dict string (Behavior T));
  calibration_type : CalibrationType;
  readings : nat;
}.
Arguments mk_CollisionDetection {T}.
Arguments potential_collision_map {T}. Arguments sensor_to_frames_map {T}. Arguments object_id_to_frames_map {T}.
Arguments timeout_counter_map {T}. Arguments frame_ids {T}. Arguments alert_list {T}.
Arguments object_id_to_behavior_map {T}. Arguments calibration_type {T}. Arguments readings {T}.

Definition TIMEOUT_THRESHOLD : Z := 5 * 60.
Definition FRAME_TIMEOUT_THRESHOLD : Z := 30 * 60.
Definition GEO_COORDINATE_INITIAL_LOCATION : Location := mk_Location f0 f0 f0.
Definition FRAME_ID_LIMIT : Z := 1000000.

(** [int(x)] of a float, and [iso_to_epoch] of a datetime: milliseconds *)
Definition int_of_float (x : float) : result Z :=
  match x with
  | S754_nan => Exn ValueError
  | S754_infinity _ => Exn OverflowError
  | _ => match modf x with Some (n, _) => Ok n | None => Exn ValueError end
  end.
Definition iso_to_epoch (timestamp : datetime) : result Z := int_of_float (fmul (timestamp_of timestamp) (Z2f 1000)).

Section collision.
Context {T : Type} (bearing : T → float).
Context `{NumpyMath} `{Degrees} `{MathLib} `{FloatText} (np_sum : vec → float).
Context (cfg : CollisionDetectionConfig) (clock : nat → datetime) (iter_set : list string → list string).

Abbreviation Detector := (CollisionDetection T).
Abbreviation State := (CollisionState T).
Implicit Types (d : Detector) (sensor_id object_id potential_object_id : string).

Definition new_CollisionDetection (calibration : CalibrationType) : Detector :=
  mk_CollisionDetection [] [] [] [] [] [] [] calibration 0.

(** Attribute assignments *)
Definition set_potential m d : Detector := mk_CollisionDetection m (sensor_to_frames_map d) (object_id_to_frames_map d)
  (timeout_counter_map d) (frame_ids d) (alert_list d) (object_id_to_behavior_map d) (calibration_type d) (readings d).
Definition set_frames m d : Detector := mk_CollisionDetection (potential_collision_map d) m (object_id_to_frames_map d)
  (timeout_counter_map d) (frame_ids d) (alert_list d) (object_id_to_behavior_map d) (calibration_type d) (readings d).
Definition set_refs m d : Detector := mk_CollisionDetection (potential_collision_map d) (sensor_to_frames_map d) m
  (timeout_counter_map d) (frame_ids d) (alert_list d) (object_id_to_behavior_map d) (calibration_type d) (readings d).
Definition set_timeouts m d : Detector := mk_CollisionDetection (potential_collision_map d) (sensor_to_frames_map d)
  (object_id_to_frames_map d) m (frame_ids d) (alert_list d) (object_id_to_behavior_map d) (calibration_type d) (readings d).
Definition set_counters m d : Detector := mk_CollisionDetection (potential_collision_map d) (sensor_to_frames_map d)
  (object_id_to_frames_map d) (timeout_counter_map d) m (alert_list d) (object_id_to_behavior_map d) (calibration_type d) (readings d).
Definition set_alerts m d : Detector := mk_CollisionDetection (potential_collision_map d) (sensor_to_frames_map d)
  (object_id_to_frames_map d) (timeout_counter_map d) (frame_ids d) m (object_id_to_behavior_map d) (calibration_type d) (readings d).
Definition set_behavior_map m d : Detector := mk_CollisionDetection (potential_collision_map d) (sensor_to_frames_map d)
  (object_id_to_frames_map d) (timeout_counter_map d) (frame_ids d) (alert_list d) m (calibration_type d) (readings d).
Definition set_calibration c d : Detector := mk_CollisionDetection (potential_collision_map d) (sensor_to_frames_map d)
  (object_id_to_frames_map d) (timeout_counter_map d) (frame_ids d) (alert_list d) (object_id_to_behavior_map d) c (readings d).

(** [datetime.now()] *)
Definition now : stM Detector datetime := λ d,
  (Ok (clock (readings d)),
   mk_CollisionDetection (potential_collision_map d) (sensor_to_frames_map d) (object_id_to_frames_map d)
     (timeout_counter_map d) (frame_ids d) (alert_list d) (object_id_to_behavior_map d) (calibration_type d) (S (readings d))).

(** [if k not in d.keys(): d[k] = v], and a [defaultdict(dict)] being read *)
Definition open_sensor {V} (m : dict string (dict string V)) sensor_id : dict string (dict string V) := set_once m sensor_id [].
Definition frames_of sensor_id : stM Detector (dict Z FrameData) := λ d,
  let '(frames, m) := dsetdefault (sensor_to_frames_map d) sensor_id [] in (Ok frames, set_frames m d).
Definition refs_of sensor_id : stM Detector (dict string (list Z)) := λ d,
  let '(refs, m) := dsetdefault (object_id_to_frames_map d) sensor_id [] in (Ok refs, set_refs m d).

(** [self.potential_collision_map[sensor_id][potential_object_id]], read and changed *)
Definition get_group sensor_id potential_object_id : stM Detector State :=
  d ← sget; slift (require (nget (potential_collision_map d) sensor_id potential_object_id) KeyError).
Definition on_group sensor_id potential_object_id (f : State → result State) : stM Detector unit :=
  collision_state ← get_group sensor_id potential_object_id;
  collision_state ← slift (f collision_state);
  smod (λ d, set_potential (nset (potential_collision_map d) sensor_id potential_object_id collision_state) d).
(** [self.potential_collision_map[sensor_id].pop(object_id)] *)
Definition pop_group sensor_id object_id : stM Detector unit :=
  _ ← get_group sensor_id object_id;
  smod (λ d, set_potential (ndel (potential_collision_map d) sensor_id object_id) d).

(** ** Groups *)

(** The primary object an object is tracked under; [None] for [(False, None)] *)
Fixpoint find_group object_id (groups : dict string State) : option string :=
  match groups with
  | [] => None
  | (object_id_i, collision_state) :: groups' =>
      if bool_decide (object_id ∈ cs_object_ids collision_state) then Some object_id_i else find_group object_id groups'
  end.
Definition check_is_in_potential_collision object_id sensor_id d : option string :=
  match dget (potential_collision_map d) sensor_id with
  | None => None
  | Some groups => if dmem groups object_id then Some object_id else find_group object_id groups
  end.

Definition initialize_potential_collision potential_object_id sensor_id (behavior : Behavior T) (trigger_modules : list string)
    : stM Detector bool :=
  _ ← smod (λ d, set_potential (open_sensor (potential_collision_map d) sensor_id) d);
  d ← sget;
  match check_is_in_potential_collision potential_object_id sensor_id d with
  | Some _ => mret false
  | None =>
      start_time ← now;
      collision_state ← slift (new_CollisionState [potential_object_id] sensor_id (be_place behavior)
                                 GEO_COORDINATE_INITIAL_LOCATION start_time trigger_modules (alertTimeWindow cfg));
      _ ← smod (λ d, set_potential (nset (potential_collision_map d) sensor_id potential_object_id collision_state) d);
      mret true
  end.

Definition update_from_past_frame sensor_id potential_object_id object_id (frame_id : Z) : stM Detector unit :=
  frames ← frames_of sensor_id;
  match dget frames frame_id with
  | None => mret tt
  | Some frame =>
      _ ← on_group sensor_id potential_object_id (update_trajectory_by_frame object_id frame);
      on_group sensor_id potential_object_id (λ cs, Ok (add_frame_id (fd_id frame) (fd_timestamp frame) cs))
  end.
Definition update_from_past_frames sensor_id potential_object_id object_id : stM Detector unit :=
  d ← sget;
  match nget (object_id_to_frames_map d) sensor_id object_id with
  | None => mret tt
  | Some ids => sfor ids (update_from_past_frame sensor_id potential_object_id object_id)
  end.

Definition starts_with_underscore (k : string) : bool := String.prefix "_" k.

Definition get_pairs (frame : FrameData) potential_object_id
    : result (list (ObjectData * ObjectData) * list (string * string) * bool) :=
  primary ← require (dget (fd_objects frame) potential_object_id) KeyError;
  let others := filter (λ x : string * ObjectData, starts_with_underscore x.1 = false ∧ x.1 ≠ potential_object_id) (fd_objects frame) in
  Ok ((λ x : string * ObjectData, (primary, x.2)) <$> others, (λ x : string * ObjectData, (potential_object_id, x.1)) <$> others,
      od_is_geo_coordinate primary).

Definition is_initial (l : Location) : bool := feq (lat l) f0 && feq (lon l) f0 && feq (alt l) f0.

Definition update_collision_location sensor_id (frame : FrameData) (is_geo_coordinate_frame : bool) potential_object_id
    : stM Detector unit :=
  location ← slift (if is_geo_coordinate_frame
                    then primary ← require (dget (fd_objects frame) potential_object_id) KeyError;
                         mret (mk_Location (od_x primary) (od_y primary) f0)
                    else mret GEO_COORDINATE_INITIAL_LOCATION);
  d ← sget;
  match nget (potential_collision_map d) sensor_id potential_object_id with
  | Some collision_state =>
      if is_initial (cs_location collision_state)
      then on_group sensor_id potential_object_id (λ cs, Ok (update_location location cs)) else mret tt
  | None => mret tt
  end.

Definition merge_object sensor_id object_id_i (collision_state_j : State) object_id : stM Detector unit :=
  _ ← on_group sensor_id object_id_i (λ cs, Ok (add_object_id object_id (get_proximity_moment object_id collision_state_j) cs));
  trajectory ← slift (get_trajectory object_id collision_state_j);
  _ ← on_group sensor_id object_id_i (λ cs, Ok (update_trajectory_by_trajectory object_id trajectory cs));
  on_group sensor_id object_id_i (λ cs, Ok (update_behavior object_id (get_behavior object_id collision_state_j) cs)).
Definition merge_potential_collisions object_id_i object_id_j sensor_id : stM Detector string :=
  collision_state_j ← get_group sensor_id object_id_j;
  _ ← sfor (iter_set (cs_object_ids collision_state_j)) (merge_object sensor_id object_id_i collision_state_j);
  mret object_id_j.

(** The body both loops over close objects share: the object joins the group, or
    its group is merged in; the group to remove afterwards, if any *)
Definition close_object sensor_id (frame : FrameData) (is_geo_coordinate_frame : bool) potential_object_id object_id_a
    : stM Detector (option string) :=
  _ ← update_collision_location sensor_id frame is_geo_coordinate_frame potential_object_id;
  d ← sget;
  match check_is_in_potential_collision object_id_a sensor_id d with
  | None =>
      _ ← on_group sensor_id potential_object_id (λ cs, Ok (add_object_id object_id_a (Some (fd_timestamp frame)) cs));
      _ ← update_from_past_frames sensor_id potential_object_id object_id_a;
      mret None
  | Some object_id_b =>
      if String.eqb object_id_b potential_object_id then mret None
      else removed_object_id ← merge_potential_collisions potential_object_id object_id_b sensor_id;
           mret (Some removed_object_id)
  end.
Fixpoint close_objects sensor_id (frame : FrameData) (is_geo_coordinate_frame : bool) potential_object_id
    (closest_objects : list (string * float)) (removed_object_id_list : list string) : stM Detector (list string) :=
  match closest_objects with
  | [] => mret removed_object_id_list
  | (object_id_a, _) :: closest_objects' =>
      removed ← close_object sensor_id frame is_geo_coordinate_frame potential_object_id object_id_a;
      close_objects sensor_id frame is_geo_coordinate_frame potential_object_id closest_objects'
        (match removed with Some r => set_add r removed_object_id_list | None => removed_object_id_list end)
  end.

(** [get_pairs], [check_distances] and the loop over the closest objects *)
Definition gather_close sensor_id (frame : FrameData) potential_object_id : stM Detector (list string) :=
  '(pairs, pair_ids, is_geo_coordinate_frame) ← slift (get_pairs frame potential_object_id);
  d ← sget;
  closest_objects ← slift (check_distances cfg (calibration_type d) pairs pair_ids);
  close_objects sensor_id frame is_geo_coordinate_frame potential_object_id closest_objects [].

(** ** Suspicions *)

(** The frames an object was in, by time, at most [maxNumberPastFrames] of the latest *)
Definition timestamp_of_frame sensor_id (frame_id : Z) : stM Detector (Z * Z) :=
  frames ← frames_of sensor_id;
  frame ← slift (require (dget frames frame_id) KeyError);
  mret (frame_id, fd_timestamp frame).
Fixpoint timestamps_of sensor_id (ids : list Z) : stM Detector (list (Z * Z)) :=
  match ids with
  | [] => mret []
  | i :: ids' => x ← timestamp_of_frame sensor_id i; l ← timestamps_of sensor_id ids'; mret (x :: l)
  end.
Definition recent_frames (keyed : list (Z * Z)) : list Z :=
  reverse (py_take (maxNumberPastFrames cfg) (sort_key (λ x : Z * Z, - x.2) keyed).*1).

Definition process_past_frame potential_object_id sensor_id (frame_id : Z) : stM Detector unit :=
  frames ← frames_of sensor_id;
  frame ← slift (require (dget frames frame_id) KeyError);
  removed_object_id_list ← gather_close sensor_id frame potential_object_id;
  sfor (iter_set removed_object_id_list) (pop_group sensor_id).
Definition process_potential_collision_on_past_frames potential_object_id sensor_id : stM Detector unit :=
  refs ← refs_of sensor_id;
  match dget refs potential_object_id with
  | None => mret tt
  | Some ids =>
      keyed ← timestamps_of sensor_id ids;
      sfor (recent_frames keyed) (process_past_frame potential_object_id sensor_id)
  end.

Definition update_potential_collision potential_object_id sensor_id (behavior : Behavior T) (trigger_modules : list string)
    : stM Detector unit :=
  d ← sget;
  if negb (enable cfg) then mret tt
  else match nget (alert_list d) sensor_id potential_object_id with
  | Some _ => mret tt
  | None =>
      _ ← smod (λ d, set_potential (open_sensor (potential_collision_map d) sensor_id) d);
      d ← sget;
      match nget (potential_collision_map d) sensor_id potential_object_id with
      | Some _ => mret tt
      | None =>
          is_init ← initialize_potential_collision potential_object_id sensor_id behavior trigger_modules;
          if (is_init : bool) then
            _ ← update_from_past_frames sensor_id potential_object_id potential_object_id;
            d ← sget;
            if dmem (object_id_to_frames_map d) sensor_id
            then process_potential_collision_on_past_frames potential_object_id sensor_id else mret tt
          else mret tt
      end
  end.
Definition have_potential_collision d : bool := (0 <? length (potential_collision_map d))%nat.

(** ** Frames *)

(** Position, whether it is geographic, and the switch to image coordinates *)
Definition parse_object (obj : Object) : stM Detector (float * float * bool) :=
  let bbox := ob_bbox obj in
  let coordinate := ob_coordinate obj in
  let '(lat, lon) := match ob_location obj with Some l => (lat l, lon l) | None => (f0, f0) end in
  let set x := negb (feq x f0) in
  if set (co_x coordinate) && set (co_y coordinate) && set lat && set lon then mret (lat, lon, true)
  else _ ← smod (set_calibration IMAGE);
       let '(geo_x, geo_y) := center bbox in mret (geo_x, geo_y, false).

Definition bearing_of sensor_id object_id d : float :=
  match nget (object_id_to_behavior_map d) sensor_id object_id with
  | Some behavior => bearing (be_trajectory behavior)
  | None => Z2f (-1)
  end.

Definition add_object object_id (obj : ObjectData) (frame : FrameData) : FrameData :=
  mk_FrameData (num_references frame + 1) (fd_timestamp frame) (fd_id frame) (dset (fd_objects frame) object_id obj).

Definition add_message sensor_id (frame_id : Z) (acc : FrameData * list string) (message : Message)
    : stM Detector (FrameData * list string) :=
  match ms_object message with
  | None => mret acc
  | Some obj =>
      if bool_decide (ob_type obj ∈ targetClasses cfg) then
        '(x, y, is_geo_coordinate) ← parse_object obj;
        let obj_id := ob_id obj in
        d ← sget;
        let obj_data := mk_ObjectData x y (ob_bbox obj) (ob_type obj) is_geo_coordinate (bearing_of sensor_id obj_id d) in
        time ← now;
        _ ← smod (λ d, set_timeouts (nset (timeout_counter_map d) sensor_id obj_id time) d);
        _ ← smod (λ d, let refs := object_id_to_frames_map d in
                       set_refs (nset refs sensor_id obj_id (default [] (nget refs sensor_id obj_id) ++ [frame_id])) d);
        mret (add_object obj_id obj_data acc.1, set_add obj_id acc.2)
      else mret acc
  end.
Fixpoint add_messages sensor_id (frame_id : Z) (acc : FrameData * list string) (frame : list Message)
    : stM Detector (FrameData * list string) :=
  match frame with
  | [] => mret acc
  | message :: frame' => acc ← add_message sensor_id frame_id acc message; add_messages sensor_id frame_id acc frame'
  end.

Definition update_frame sensor_id (frame : list Message) (id : string) : stM Detector (list string * FrameData) :=
  first ← slift (require (head frame) IndexError);
  timestamp ← slift (iso_to_epoch (ms_timestamp first));
  _ ← smod (λ d, set_timeouts (open_sensor (timeout_counter_map d) sensor_id) d);
  _ ← smod (λ d, set_counters (set_once (frame_ids d) sensor_id 0) d);
  d ← sget;
  frame_id ← slift (require (dget (frame_ids d) sensor_id) KeyError);
  '(new_frame, object_in_current_frame_ids) ← add_messages sensor_id frame_id (mk_FrameData 0 timestamp id [], []) frame;
  _ ← smod (λ d, set_frames (nset (sensor_to_frames_map d) sensor_id frame_id new_frame) d);
  d ← sget;
  counter ← slift (require (dget (frame_ids d) sensor_id) KeyError);
  _ ← smod (λ d, set_counters (dset (frame_ids d) sensor_id ((counter + 1) mod FRAME_ID_LIMIT)) d);
  mret (object_in_current_frame_ids, new_frame).

(** One round of the loop over the groups: the groups merged into this one *)
Definition process_group (present : list string) (new_frame : FrameData) sensor_id potential_object_id
    : stM Detector (list string) :=
  removed_object_id_list ←
    (if bool_decide (potential_object_id ∈ present) then
       _ ← on_group sensor_id potential_object_id (λ cs, Ok (add_frame_id (fd_id new_frame) (fd_timestamp new_frame) cs));
       gather_close sensor_id new_frame potential_object_id
     else mret []);
  _ ← sfor (iter_set removed_object_id_list) (pop_group sensor_id);
  collision_state ← get_group sensor_id potential_object_id;
  _ ← sfor (iter_set (cs_object_ids collision_state)) (λ object_id,
        if bool_decide (object_id ∈ present)
        then on_group sensor_id potential_object_id (update_trajectory_by_frame object_id new_frame) else mret tt);
  mret removed_object_id_list.

(** The groups are taken from the end of the list, so it is kept in reverse, each
    name once; [fuel] counts them. *)
Fixpoint process_groups (fuel : nat) (present : list string) (new_frame : FrameData) sensor_id (pending : list string)
    : stM Detector unit :=
  match fuel, pending with
  | _, [] => mret tt
  | O, _ => sraise (NamedError "fuel")
  | S fuel, potential_object_id :: rest =>
      removed_object_id_list ← process_group present new_frame sensor_id potential_object_id;
      process_groups fuel present new_frame sensor_id (foldl (λ l r, py_remove r l) rest removed_object_id_list)
  end.
Definition process_potential_collisions_on_new_frame (present : list string) (new_frame : FrameData) sensor_id : stM Detector unit :=
  d ← sget;
  match dget (potential_collision_map d) sensor_id with
  | None => mret tt
  | Some groups => process_groups (length (dkeys groups)) present new_frame sensor_id (reverse (dkeys groups))
  end.

(** ** Forgetting *)

(** One frame an object was in: it loses the object, and goes with its last one. *)
Definition release_frame sensor_id object_id (frame_id : Z) (m : dict string (dict Z FrameData)) : dict string (dict Z FrameData) :=
  match nget m sensor_id frame_id with
  | None => m
  | Some frame =>
      let frame' := mk_FrameData (num_references frame - 1) (fd_timestamp frame) (fd_id frame) (ddel (fd_objects frame) object_id) in
      if num_references frame' <=? 0 then ndel m sensor_id frame_id else nset m sensor_id frame_id frame'
  end.
Definition remove_object_id sensor_id object_id d : Detector :=
  let d := set_timeouts (ndel (timeout_counter_map d) sensor_id object_id) d in
  let d := set_potential (ndel (potential_collision_map d) sensor_id object_id) d in
  let d := match nget (object_id_to_frames_map d) sensor_id object_id with
           | None => d
           | Some ids =>
               set_refs (ndel (object_id_to_frames_map d) sensor_id object_id)
                 (set_frames (foldl (λ m i, release_frame sensor_id object_id i m) (sensor_to_frames_map d) ids) d)
           end in
  set_behavior_map (ndel (object_id_to_behavior_map d) sensor_id object_id) d.

(** The names of a dict whose entry, and a clock reading, satisfy a test *)
Fixpoint select_by_clock {K V} (test : datetime → K → V → Detector → result bool) (l : dict K V) : stM Detector (list K) :=
  match l with
  | [] => mret []
  | (k, v) :: l' =>
      time ← now;
      d ← sget;
      chosen ← slift (test time k v d);
      rest ← select_by_clock test l';
      mret (if (chosen : bool) then k :: rest else rest)
  end.

Definition object_timed_out sensor_id (time : datetime) object_id (seen : datetime) d : result bool :=
  Ok (fgeZ (total_seconds (time - seen)) TIMEOUT_THRESHOLD &&
      bool_decide (check_is_in_potential_collision object_id sensor_id d = None)).
Definition cleanup_objects sensor_id : stM Detector unit :=
  d ← sget;
  removed ← select_by_clock (object_timed_out sensor_id) (default [] (dget (timeout_counter_map d) sensor_id));
  smod (λ d, foldl (λ d o, remove_object_id sensor_id o d) d removed).

Definition frame_timed_out (time : datetime) (frame_id : Z) (frame : FrameData) d : result bool :=
  current_time_ms ← iso_to_epoch time;
  mret (fgeZ (div_ints (current_time_ms - fd_timestamp frame) 1000) FRAME_TIMEOUT_THRESHOLD).
Definition unreference sensor_id (frame_id : Z) (m : dict string (dict string (list Z))) object_id : dict string (dict string (list Z)) :=
  match nget m sensor_id object_id with
  | Some ids => nset m sensor_id object_id (py_remove frame_id ids)
  | None => m
  end.
Definition drop_frame sensor_id (frame_id : Z) d : Detector :=
  match nget (sensor_to_frames_map d) sensor_id frame_id with
  | None => d
  | Some frame =>
      let object_ids := filter (λ k, starts_with_underscore k = false) (dkeys (fd_objects frame)) in
      set_frames (ndel (sensor_to_frames_map d) sensor_id frame_id)
        (set_refs (foldl (unreference sensor_id frame_id) (object_id_to_frames_map d) object_ids) d)
  end.
Definition cleanup_frames sensor_id : stM Detector unit :=
  d ← sget;
  removed ← select_by_clock frame_timed_out (default [] (dget (sensor_to_frames_map d) sensor_id));
  smod (λ d, foldl (λ d i, drop_frame sensor_id i d) d removed).

Definition alert_timed_out (time : datetime) object_id (alerted : datetime) d : result bool :=
  Ok (fgeZ (total_seconds (time - alerted)) (alertListTimeoutThreshold cfg)).
Definition cleanup_alerts sensor_id : stM Detector unit :=
  d ← sget;
  removed ← select_by_clock alert_timed_out (default [] (dget (alert_list d) sensor_id));
  smod (λ d, set_alerts (foldl (λ m o, ndel m sensor_id o) (alert_list d) removed) d).

Definition cleanup_data : stM Detector unit :=
  d ← sget; _ ← sfor (dkeys (timeout_counter_map d)) cleanup_objects;
  d ← sget; _ ← sfor (dkeys (sensor_to_frames_map d)) cleanup_frames;
  d ← sget; sfor (dkeys (alert_list d)) cleanup_alerts.

(** ** Batches *)

Definition process_frame sensor_id (x : string * list Message) : stM Detector unit :=
  let '(frame_id, frame) := x in
  if (0 <? length frame)%nat then
    '(object_in_current_frame_ids, new_frame) ← update_frame sensor_id frame frame_id;
    process_potential_collisions_on_new_frame object_in_current_frame_ids new_frame sensor_id
  else mret tt.
Definition update_frames (frames : dict string (list (string * list Message))) : stM Detector unit :=
  if negb (enable cfg) then mret tt
  else _ ← sfor frames (λ x, sfor x.2 (process_frame x.1)); cleanup_data.

Fixpoint group_behaviors (m : dict string (dict string (Behavior T))) (behaviors : list (Behavior T))
    : result unit * dict string (dict string (Behavior T)) :=
  match behaviors with
  | [] => (Ok tt, m)
  | behavior :: behaviors' =>
      match py_split " #-# " (be_id behavior) with
      | [sensor_id; object_id] => group_behaviors (nset m sensor_id object_id behavior) behaviors'
      | _ => (Exn ValueError, m)
      end
  end.
Definition refresh_behaviors (m : dict string (Behavior T)) (cs : State) : State :=
  foldl (λ cs object_id, match dget m object_id with
                         | Some behavior => update_behavior object_id (Some behavior) cs
                         | None => cs
                         end) cs (iter_set (cs_object_ids cs)).
Definition update_behaviors (behaviors : list (Behavior T)) : stM Detector unit := λ d,
  let '(r, m) := group_behaviors [] behaviors in
  let d := set_behavior_map m d in
  match r with
  | Exn e => (Exn e, d)
  | Ok _ =>
      (Ok tt, set_potential ((λ x : string * dict string State,
                 (x.1, dmap (refresh_behaviors (default [] (dget m x.1))) x.2)) <$> potential_collision_map d) d)
  end.

(** ** Incidents *)

(** The first and the last time of the primary object's trajectory; seconds for
    milliseconds; the current time where there are none *)
Definition LIMIT_MILLISECONDS : Z := 1000000000000.
Definition incident_interval (current_time : datetime) (timestamps : list Z) : datetime * datetime :=
  match timestamps with
  | [] => (current_time, current_time)
  | t :: ts =>
      let min_timestamp := foldl Z.min t ts in
      let max_timestamp := foldl Z.max t ts in
      let in_seconds x := if LIMIT_MILLISECONDS <? min_timestamp then fdiv (Z2f x) (Z2f 1000) else Z2f x in
      match fromtimestamp (in_seconds min_timestamp), fromtimestamp (in_seconds max_timestamp) with
      | Ok start_timestamp, Ok end_timestamp => (start_timestamp, end_timestamp)
      | _, _ => (current_time, current_time)
      end
  end.

Definition location_text (l : Location) : string := repr_float (lat l) +:+ "," +:+ repr_float (lon l) +:+ "," +:+ repr_float (alt l).

Definition collision_state_to_incident (collision_state : State) : stM Detector Incident :=
  trajectory ← slift (get_trajectory (cs_primary_object_id collision_state) collision_state);
  current_time ← now;
  let '(start_timestamp, end_timestamp) := incident_interval current_time (tp_timestamp <$> trajectory) in
  moment ← match get_proximity_moment (cs_primary_object_id collision_state) collision_state with
           | None => mret []
           | Some proximity_moment =>
               collision_moment ← slift (fromtimestamp (fdiv (Z2f proximity_moment) (Z2f 1000)));
               mret [("collisionMoment", isoformat_utc collision_moment)]
           end;
  mret (mk_Incident start_timestamp end_timestamp (cs_sensor_id collision_state) (iter_set (cs_object_ids collision_state))
          "collision" (cs_place collision_state)
          ([("primaryObjectId", cs_primary_object_id collision_state); ("location", location_text (cs_location collision_state))] ++ moment)).

Fixpoint ghosts (collision_state : State) (object_ids : list string) : stM Detector (list string) :=
  match object_ids with
  | [] => mret []
  | obj_id :: object_ids' =>
      if String.eqb obj_id (cs_primary_object_id collision_state) then ghosts collision_state object_ids'
      else
        d ← sget;
        ghost ← slift (is_ghost_object cfg np_sum (calibration_type d) collision_state obj_id);
        rest ← ghosts collision_state object_ids';
        mret (if (ghost : bool) then obj_id :: rest else rest)
  end.

Definition record_alert sensor_id object_id : stM Detector unit :=
  time ← now; smod (λ d, set_alerts (nset (alert_list d) sensor_id object_id time) d).

(** A group whose time is over: its incident, unless all but one of its objects are ghosts *)
Definition report_group sensor_id (collision_state : State) : stM Detector (list (Incident * State)) :=
  ghost_object_ids ← ghosts collision_state (iter_set (cs_object_ids collision_state));
  if (1 <? length (cs_object_ids collision_state) - length ghost_object_ids)%nat then
    let updated_collision_state :=
      set_object_ids (filter (λ o, o ∉ ghost_object_ids) (iter_set (cs_object_ids collision_state))) collision_state in
    incident ← collision_state_to_incident updated_collision_state;
    _ ← smod (λ d, set_alerts (open_sensor (alert_list d) sensor_id) d);
    _ ← sfor (iter_set (cs_object_ids updated_collision_state)) (record_alert sensor_id);
    mret [(incident, updated_collision_state)]
  else mret [].

Definition alerts_of_group sensor_id (x : string * State) (acc : list (Incident * State) * list string)
    : stM Detector (list (Incident * State) * list string) :=
  let '(potential_object_id, collision_state) := x in
  let '(collision_incidents, removed_object_ids) := acc in
  time ← now;
  if is_timeout time collision_state then
    reported ← (if (1 <? length (cs_object_ids collision_state))%nat && negb (bool_decide (potential_object_id ∈ removed_object_ids))
                then report_group sensor_id collision_state else mret []);
    mret (collision_incidents ++ reported,
          removed_object_ids ++ potential_object_id :: filter (.≠ potential_object_id) (iter_set (cs_object_ids collision_state)))
  else mret acc.
Fixpoint alerts_of_groups sensor_id (groups : dict string State) (acc : list (Incident * State) * list string)
    : stM Detector (list (Incident * State) * list string) :=
  match groups with
  | [] => mret acc
  | x :: groups' => acc ← alerts_of_group sensor_id x acc; alerts_of_groups sensor_id groups' acc
  end.

Fixpoint alerts_of_sensors (sensor_ids : list string) : stM Detector (list (Incident * State)) :=
  match sensor_ids with
  | [] => mret []
  | sensor_id :: sensor_ids' =>
      d ← sget;
      '(collision_incidents, removed_object_ids) ← alerts_of_groups sensor_id (default [] (dget (potential_collision_map d) sensor_id)) ([], []);
      _ ← smod (λ d, foldl (λ d o, remove_object_id sensor_id o d) d removed_object_ids);
      rest ← alerts_of_sensors sensor_ids';
      mret (collision_incidents ++ rest)
  end.
Definition get_collision_alerts : stM Detector (list (Incident * State)) :=
  d ← sget;
  if negb (enable cfg) then mret [] else alerts_of_sensors (dkeys (potential_collision_map d)).
End collision.
