(* ===== verification/CollisionGroups.v ===== *)
(** * Collision detection: the groups of a sensor

    The groups are a partition of the tracked objects, each under its primary
    object. What a frame does to them refines an abstract regrouping
    ([regroup]): an object close to a primary one joins its group, or the group
    it is in is united with it. While a primary object is looked at the united
    groups are still there ([transient]); they go at the end of its turn. *)

From Stdlib Require Import ZArith Lia Floats.SpecFloat.
From stdpp Require Import base list strings gmap sets relations.
From S2P Require Import Prelude PyDict PyFloat PyNumber PyText PyIso PyVal Schema Crp Stop CollisionState Closeness Collision.
Open Scope string_scope.
Open Scope list_scope.
Open Scope Z_scope.

(** ** The abstract partition *)

Abbreviation partition := (gmap string (gset string)).
Inductive regroup (close : string → string → Prop) : relation partition :=
  | regroup_join p o A X :
      A !! p = Some X → close p o → (∀ q Y, A !! q = Some Y → o ∉ Y) →
      regroup close A (<[p := X ∪ {[o]}]> A)
  | regroup_unite p q o A X Y :
      A !! p = Some X → A !! q = Some Y → p ≠ q → close p o → o ∈ Y →
      regroup close A (delete q (<[p := X ∪ Y]> A)).

(** Groups are never split: a group that stays has all its objects, one that goes
    is inside another. *)
Lemma regroup_grows close A A' p X :
  regroup close A A' → A !! p = Some X → ∃ q Y, A' !! q = Some Y ∧ X ⊆ Y ∧ (is_Some (A' !! p) → q = p).
Proof.
  intros [p0 o A0 X0 HX0 _ _|p0 q0 o A0 X0 Y0 HX0 HY0 Hne _ _] HX.
  - destruct (decide (p0 = p)) as [->|Hp].
    + exists p, (X0 ∪ {[o]}). rewrite lookup_insert, decide_True by done. split_and!; [done|set_solver|done].
    + exists p, X. rewrite lookup_insert_ne by done. by split_and!.
  - destruct (decide (p = q0)) as [->|Hq].
    + exists p0, (X0 ∪ Y0). rewrite lookup_delete_ne, lookup_insert, decide_True by done.
      split_and!; [done|set_solver|]. rewrite lookup_delete, decide_True by done. by intros [? [=]].
    + destruct (decide (p0 = p)) as [->|Hp].
      * exists p, (X0 ∪ Y0). rewrite lookup_delete_ne, lookup_insert, decide_True by done.
        split_and!; [done|set_solver|done].
      * exists p, X. rewrite lookup_delete_ne, lookup_insert_ne by done. by split_and!.
Qed.

Lemma regroup_dom close A A' p : regroup close A A' → is_Some (A' !! p) → is_Some (A !! p).
Proof.
  intros [p0 o A0 X0 HX0 _ _|p0 q0 o A0 X0 Y0 HX0 HY0 Hne _ _].
  - rewrite lookup_insert. case_decide; [subst; by eexists|done].
  - rewrite lookup_delete. case_decide; [by intros [? [=]]|]. rewrite lookup_insert. case_decide; [subst; by eexists|done].
Qed.

Lemma regroups_dom close A A' p : rtc (regroup close) A A' → is_Some (A' !! p) → is_Some (A !! p).
Proof. induction 1; eauto using regroup_dom. Qed.

Lemma regroups_stay close A A' p X :
  rtc (regroup close) A A' → A !! p = Some X → is_Some (A' !! p) → ∃ Y, A' !! p = Some Y ∧ X ⊆ Y.
Proof.
  intros Hr. revert X. induction Hr as [A|A A1 A' Hs Hr IH]; intros X HX Hp; [by exists X|].
  pose proof (regroups_dom _ _ _ _ Hr Hp) as H1. destruct (regroup_grows _ _ _ _ _ Hs HX) as (q & Y & HY & Hsub & Hq).
  rewrite (Hq H1) in HY. destruct (IH Y HY Hp) as (Z & HZ & Hz). exists Z. split; [done|]. by etrans.
Qed.

Lemma regroups_covered close A A' p X :
  rtc (regroup close) A A' → A !! p = Some X → ∃ q Y, A' !! q = Some Y ∧ X ⊆ Y.
Proof.
  intros Hr. revert p X. induction Hr as [A|A A1 A' Hs Hr IH]; intros p X HX; [by exists p, X|].
  destruct (regroup_grows _ _ _ _ _ Hs HX) as (q & Y & HY & Hsub & _). destruct (IH q Y HY) as (q' & Z & HZ & Hz).
  exists q', Z. split; [done|]. by etrans.
Qed.

Lemma regroup_mono (close close' : string → string → Prop) A A' :
  (∀ p o, close p o → close' p o) → regroup close A A' → regroup close' A A'.
Proof.
  intros Hc [p o A0 X HX Ho Hn|p q o A0 X Y HX HY Hne Ho Hin]; [apply regroup_join|eapply regroup_unite]; eauto.
Qed.

(** A Python set iterates its elements once, in some order. *)
Definition iterates (iter_set : list string → list string) : Prop := ∀ l, NoDup l → iter_set l ≡ₚ l.

Section groups.
Context {T : Type} (bearing : T → float).
Context `{NM : NumpyMath} `{DG : Degrees} `{ML : MathLib} `{FT : FloatText} (np_sum : vec → float).
Context (cfg : CollisionDetectionConfig) (clock : nat → datetime) (iter_set : list string → list string).
Context (iterate : iterates iter_set).

Abbreviation Detector := (CollisionDetection T).
Abbreviation State := (CollisionState T).
Implicit Types (d : Detector) (s p q o : string) (cs : State) (gs : dict string State).

(** ** States of groups *)

(** The moment can be written as a date. *)
Definition dated (ms : Z) : bool := is_ok (fromtimestamp (fdiv (Z2f ms) (Z2f 1000))).
Definition good p cs : Prop := state_ok p cs ∧ ∀ o t, dget (cs_proximity_moments cs) o = Some t → dated t = true.

Definition ids cs : gset string := list_to_set (cs_object_ids cs).
Lemma elem_ids o cs : o ∈ ids cs ↔ o ∈ cs_object_ids cs.
Proof. unfold ids. by rewrite elem_of_list_to_set. Qed.

Lemma good_member p cs : good p cs → p ∈ ids cs.
Proof. intros [Hs _]. apply elem_ids, Hs. Qed.

Lemma set_once_moment (m : dict string Z) k v o t :
  dget (set_once m k v) o = Some t → dget m o = Some t ∨ t = v.
Proof. rewrite set_once_get. destruct (dget m o); [by left|]. case_decide; [|done]. intros [= <-]. by right. Qed.

Lemma good_add p o t cs : good p cs → (∀ x, t = Some x → dated x = true) → good p (add_object_id o t cs).
Proof.
  intros [Hs Hm] Ht. split; [by apply add_object_ok|]. intros o' t'. destruct t as [t|]; [|apply Hm]. cbn.
  intros [[Hd| ->]%set_once_moment| ->]%set_once_moment; eauto.
Qed.
Lemma ids_add o t cs : ids (add_object_id o t cs) = ids cs ∪ {[o]}.
Proof. apply set_eq. intros x. rewrite elem_ids, add_object_ids, set_add_elem, elem_of_union, elem_ids. set_solver. Qed.

Lemma good_trajectory p o l cs : good p cs → good p (update_trajectory_by_trajectory o l cs).
Proof. intros [Hs Hm]. split; [by apply set_trajectory_ok|done]. Qed.

(** The rest of a state does not matter. *)
Lemma good_same p cs cs' :
  cs_primary_object_id cs' = cs_primary_object_id cs → cs_object_ids cs' = cs_object_ids cs →
  cs_trajectories cs' = cs_trajectories cs → cs_proximity_moments cs' = cs_proximity_moments cs → good p cs → good p cs'.
Proof. intros H1 H2 H3 H4 [[] Hm]. split; [split; rewrite ?H1, ?H2, ?H3; done|by rewrite H4]. Qed.

(** ** Frames of the other maps *)

(** What merging leaves alone, readings of the clock aside; a sensor without frames
    may get an empty dict of them. *)
Record quiet s d d' : Prop := {
  q_refs : object_id_to_frames_map d' = object_id_to_frames_map d;
  q_timeouts : timeout_counter_map d' = timeout_counter_map d;
  q_counters : frame_ids d' = frame_ids d;
  q_alerts : alert_list d' = alert_list d;
  q_behaviors : object_id_to_behavior_map d' = object_id_to_behavior_map d;
  q_calibration : calibration_type d' = calibration_type d;
  q_readings : (readings d ≤ readings d')%nat;
  q_frames s' f : nget (sensor_to_frames_map d') s' f = nget (sensor_to_frames_map d) s' f;
  q_frames_wf : nested_wf (sensor_to_frames_map d) → nested_wf (sensor_to_frames_map d');
  q_others s' : s' ≠ s → dget (potential_collision_map d') s' = dget (potential_collision_map d) s';
  q_groups_dom : dict_wf (potential_collision_map d) → dict_wf (potential_collision_map d');
}.
#[global] Instance quiet_preorder s : PreOrder (quiet s).
Proof.
  split; [by intros d; split|]. intros d1 d2 d3 [] []. split; intros; try congruence; eauto; [lia|].
  by rewrite q_others1, q_others0.
Qed.

Definition groups_of s d : dict string State := default [] (dget (potential_collision_map d) s).
Lemma nget_groups s p d : nget (potential_collision_map d) s p = dget (groups_of s d) p.
Proof. unfold nget, groups_of. by destruct (dget _ s). Qed.

Definition put s p cs d : Detector := set_potential (nset (potential_collision_map d) s p cs) d.
Lemma put_groups s p cs d : groups_of s (put s p cs d) = dset (groups_of s d) p cs.
Proof. unfold groups_of, put, nset. cbn. by rewrite dget_dset_eq. Qed.
Lemma put_quiet s p cs d : quiet s d (put s p cs d).
Proof.
  split; try done.
  - intros s' Hs. unfold put, nset. cbn. by rewrite dget_dset_ne.
  - intros Hw. by apply dict_wf_dset.
Qed.
Lemma bind_get {B} (f : Detector → stM Detector B) d : (sget ≫= f) d = f d d.
Proof. done. Qed.
Lemma bind_lift {A B} (r : result A) (f : A → stM Detector B) d a : r = Ok a → (slift r ≫= f) d = f a d.
Proof. by intros ->. Qed.

Lemma get_group_ok s p cs d : dget (groups_of s d) p = Some cs → get_group s p d = (Ok cs, d).
Proof. intros Hg. unfold get_group, mbind, stM_bind, sget, slift. by rewrite nget_groups, Hg. Qed.

Lemma on_group_ok s p cs cs' (f : State → result State) d :
  dget (groups_of s d) p = Some cs → f cs = Ok cs' → on_group s p f d = (Ok tt, put s p cs' d).
Proof. intros Hg Hf. unfold on_group. rewrite (bind_Ok _ _ _ _ _ (get_group_ok _ _ _ _ Hg)). unfold mbind, stM_bind, slift. by rewrite Hf. Qed.

Lemma frames_of_ok s d : ∃ d', frames_of s d = (Ok (default [] (dget (sensor_to_frames_map d) s)), d') ∧ quiet s d d' ∧
  groups_of s d' = groups_of s d.
Proof.
  unfold frames_of, dsetdefault. destruct (dget (sensor_to_frames_map d) s) as [m|] eqn:E; eexists; (split; [done|]; split; [|done]).
  - by split.
  - split; try done; cbn.
    + intros s' f. unfold nget. rewrite dget_dset. case_decide; [subst; by rewrite E|done].
    + intros Hw. apply nested_wf_dset; [done|constructor].
Qed.
Lemma nget_frames s d f : nget (sensor_to_frames_map d) s f = dget (default [] (dget (sensor_to_frames_map d) s)) f.
Proof. unfold nget. by destruct (dget _ s). Qed.

(** ** One group grows *)

(** The group [p], so far [cs], has become one of the objects of [Z] besides. *)
Definition grown s p cs (Z : gset string) d d' : Prop :=
  quiet s d d' ∧ ∃ cs', groups_of s d' = dset (groups_of s d) p cs' ∧ good p cs' ∧ ids cs' = ids cs ∪ Z ∧ cs_start_time cs' = cs_start_time cs.

Lemma grown_get s p cs Z d d' : grown s p cs Z d d' → ∃ cs', dget (groups_of s d') p = Some cs' ∧ good p cs' ∧ ids cs' = ids cs ∪ Z.
Proof. intros (_ & cs' & Hg & Hgood & Hi & _). exists cs'. by rewrite Hg, dget_dset_eq. Qed.

Lemma grown_refl s p cs d : dget (groups_of s d) p = Some cs → good p cs → grown s p cs ∅ d d.
Proof. intros Hg Hgood. split; [done|]. exists cs. rewrite dset_id by done. split_and!; [done..|set_solver|done]. Qed.

Lemma grown_trans s p cs cs1 Z1 Z2 d d1 d2 :
  grown s p cs Z1 d d1 → dget (groups_of s d1) p = Some cs1 → grown s p cs1 Z2 d1 d2 → grown s p cs (Z1 ∪ Z2) d d2.
Proof.
  intros (Hq & cs1' & Hg & Hgood & Hi & Ht). rewrite Hg, dget_dset_eq. intros [= ->] (Hq2 & cs2 & Hg2 & Hgood2 & Hi2 & Ht2).
  split; [by etrans|]. exists cs2. rewrite Hg2, Hg, dset_dset. split_and!; [done..| |congruence]. rewrite Hi2, Hi. set_solver.
Qed.

Lemma on_group_grown s p cs cs' (f : State → result State) Z d :
  dget (groups_of s d) p = Some cs → f cs = Ok cs' → good p cs' → ids cs' = ids cs ∪ Z → cs_start_time cs' = cs_start_time cs →
  ∃ d', on_group s p f d = (Ok tt, d') ∧ grown s p cs Z d d'.
Proof.
  intros Hg Hf Hgood Hi Ht. eexists. split; [by eapply on_group_ok|]. split; [apply put_quiet|]. exists cs'.
  split_and!; [apply put_groups|done..].
Qed.

(** A loop whose rounds add their objects to the group *)
Lemma for_grown {A} s p cs (l : list A) (body : A → stM Detector unit) (Z : A → gset string) d :
  dget (groups_of s d) p = Some cs → good p cs →
  (∀ x cs1 d1, x ∈ l → quiet s d d1 → dget (groups_of s d1) p = Some cs1 → good p cs1 → ids cs ⊆ ids cs1 →
     ∃ d2, body x d1 = (Ok tt, d2) ∧ grown s p cs1 (Z x) d1 d2) →
  ∃ d', sfor l body d = (Ok tt, d') ∧ grown s p cs (⋃ (Z <$> l)) d d'.
Proof.
  revert cs d. induction l as [|x l IH]; intros cs d Hg Hgood Hb.
  { exists d. split; [done|]. by apply grown_refl. }
  destruct (Hb x cs d) as (d1 & E1 & H1); [by left|done..|]. cbn [sfor]. rewrite (bind_Ok _ _ _ _ _ E1).
  destruct (grown_get _ _ _ _ _ _ H1) as (cs1 & Hg1 & Hgood1 & Hi1).
  destruct (IH cs1 d1 Hg1 Hgood1) as (d2 & E2 & H2).
  { intros y cs2 d2 Hy Hq Hg2 Hgood2 Hsub. apply Hb; [by right|etrans; [apply H1|done]|done|done|set_solver]. }
  exists d2. split; [done|]. cbn. by eapply grown_trans.
Qed.

Lemma merge_object_ok s p q o cs csj d :
  dget (groups_of s d) p = Some cs → good p cs → good q csj → o ∈ cs_object_ids csj →
  ∃ d', merge_object s p csj o d = (Ok tt, d') ∧ grown s p cs {[o]} d d'.
Proof.
  intros Hg Hgood [Hsj Hmj] Ho. unfold merge_object.
  destruct (on_group_grown s p cs (add_object_id o (get_proximity_moment o csj) cs)
              (λ cs, Ok (add_object_id o (get_proximity_moment o csj) cs)) {[o]} d) as (d1 & E1 & H1); [done|done| |apply ids_add|by destruct (get_proximity_moment _ _)|].
  { apply good_add; [done|]. intros t Ht. by eapply Hmj. }
  rewrite (bind_Ok _ _ _ _ _ E1). destruct (ok_trajectories _ _ Hsj o Ho) as [l Hl].
  rewrite (bind_lift _ _ _ l) by (unfold get_trajectory; by rewrite Hl). destruct (grown_get _ _ _ _ _ _ H1) as (cs1 & Hg1 & Hgood1 & _).
  destruct (on_group_grown s p cs1 (update_trajectory_by_trajectory o l cs1) (λ cs, Ok (update_trajectory_by_trajectory o l cs)) ∅ d1)
    as (d2 & E2 & H2); [done|done|by apply good_trajectory|by rewrite (right_id_L ∅ (∪))|done|].
  rewrite (bind_Ok _ _ _ _ _ E2). destruct (grown_get _ _ _ _ _ _ H2) as (cs2 & Hg2 & Hgood2 & _).
  destruct (on_group_grown s p cs2 (update_behavior o (get_behavior o csj) cs2) (λ cs, Ok (update_behavior o (get_behavior o csj) cs)) ∅ d2)
    as (d3 & E3 & H3); [done|done|by apply (good_same p cs2)|by rewrite (right_id_L ∅ (∪))|done|].
  exists d3. split; [done|]. rewrite <- (right_id_L ∅ (∪) {[o]}), <- (right_id_L ∅ (∪) ({[o]} ∪ ∅)).
  eapply grown_trans; [eapply grown_trans|..]; done.
Qed.

Lemma merge_groups_ok s p q cs csj d :
  dget (groups_of s d) p = Some cs → good p cs → dget (groups_of s d) q = Some csj → good q csj →
  ∃ d', merge_potential_collisions iter_set p q s d = (Ok q, d') ∧ grown s p cs (ids csj) d d'.
Proof.
  intros Hg Hgood Hgj Hj. unfold merge_potential_collisions. rewrite (bind_Ok _ _ _ _ _ (get_group_ok _ _ _ _ Hgj)).
  assert (iter_set (cs_object_ids csj) ≡ₚ cs_object_ids csj) as Hp by apply iterate, Hj.
  destruct (for_grown s p cs (iter_set (cs_object_ids csj)) (merge_object s p csj) (λ o, {[o]}) d) as (d1 & E1 & H1); [done|done| |].
  { intros o cs1 d1 Ho _ Hg1 Hgood1 _. eapply merge_object_ok; [done|done|done|by rewrite <- Hp]. }
  exists d1. rewrite (bind_Ok _ _ _ _ _ E1). split; [done|].
  assert (⋃ ((λ o : string, {[o]} : gset string) <$> iter_set (cs_object_ids csj)) = ids csj) as <-; [|done].
  apply set_eq. intros x. rewrite elem_ids, elem_of_union_list, <- Hp. split.
  - intros (X & (y & -> & Hy)%list_elem_of_fmap & ->%elem_of_singleton). done.
  - intros Hx. exists {[x]}. split; [|set_solver]. apply list_elem_of_fmap. by exists x.
Qed.

(** The frames an object is listed in are there with it, or gone. *)
Definition listed s o d : Prop := ∀ l f fr, nget (object_id_to_frames_map d) s o = Some l → f ∈ l →
  nget (sensor_to_frames_map d) s f = Some fr → is_Some (dget (fd_objects fr) o).
Lemma listed_quiet s o d d' : quiet s d d' → listed s o d → listed s o d'.
Proof. intros Hq Hl l f fr. rewrite (q_refs _ _ _ Hq), (q_frames _ _ _ Hq). apply Hl. Qed.

Lemma trajectory_by_frame_ok p o fr cs : good p cs → is_Some (dget (fd_objects fr) o) →
  ∃ cs', update_trajectory_by_frame o fr cs = Ok cs' ∧ good p cs' ∧ ids cs' = ids cs ∪ ∅ ∧ cs_start_time cs' = cs_start_time cs.
Proof.
  intros [Hs Hm] [x Hx]. unfold update_trajectory_by_frame. rewrite Hx. eexists. split; [done|]. split; [|by rewrite (right_id_L ∅ (∪))].
  split; [by apply set_trajectory_ok|done].
Qed.

Lemma update_from_past_ok s p o cs d :
  dget (groups_of s d) p = Some cs → good p cs → listed s o d →
  ∃ d', update_from_past_frames s p o d = (Ok tt, d') ∧ grown s p cs ∅ d d'.
Proof.
  intros Hg Hgood Hl. unfold update_from_past_frames. rewrite bind_get.
  destruct (nget (object_id_to_frames_map d) s o) as [l|] eqn:El; [|exists d; split; [done|by apply grown_refl]].
  destruct (for_grown s p cs l (update_from_past_frame s p o) (λ _, ∅) d) as (d1 & E1 & H1); [done|done| |].
  2: { exists d1. split; [done|]. assert (⋃ ((λ _, ∅ : gset string) <$> l) = ∅) as <-; [|done]. clear. induction l; cbn; set_solver. }
  intros f cs1 d1 Hf Hq Hg1 Hgood1 _. unfold update_from_past_frame.
  destruct (frames_of_ok s d1) as (d2 & E2 & Hq2 & Hgs2). rewrite (bind_Ok _ _ _ _ _ E2).
  assert (∀ Z d3, grown s p cs1 Z d2 d3 → grown s p cs1 Z d1 d3) as Hback.
  { intros Z d3 [Hq3 Hc]. split; [by etrans|]. by rewrite <- Hgs2. }
  rewrite <- nget_frames. destruct (nget (sensor_to_frames_map d1) s f) as [fr|] eqn:Ef; rewrite <- Hgs2 in Hg1.
  2: { exists d2. split; [done|]. apply Hback. by apply grown_refl. }
  assert (is_Some (dget (fd_objects fr) o)) as Ho by (eapply (listed_quiet s o d d1); [done|done|by rewrite (q_refs _ _ _ Hq)|done|done]).
  destruct (trajectory_by_frame_ok p o fr cs1 Hgood1 Ho) as (cs2 & Ec & Hgood2 & Hi2 & Ht2).
  destruct (on_group_grown s p cs1 cs2 (update_trajectory_by_frame o fr) ∅ d2) as (d3 & E3 & H3); [done..|].
  rewrite (bind_Ok _ _ _ _ _ E3). destruct (grown_get _ _ _ _ _ _ H3) as (cs3 & Hg3 & Hgood3 & _).
  destruct (on_group_grown s p cs3 (add_frame_id (fd_id fr) (fd_timestamp fr) cs3) (λ cs, Ok (add_frame_id (fd_id fr) (fd_timestamp fr) cs)) ∅ d3)
    as (d4 & E4 & H4); [done|done|by apply (good_same p cs3)|by rewrite (right_id_L ∅ (∪))|done|].
  exists d4. split; [done|]. apply Hback. rewrite <- (right_id_L ∅ (∪) ∅). by eapply grown_trans.
Qed.

(** ** The partition of a sensor *)

(** The groups of a sensor apart from those of [R], which are about to go *)
Definition view (R : list string) gs : partition := filter (λ x : string * gset string, x.1 ∉ R) (ids <$> dict_map gs).
Lemma view_lookup R gs q : view R gs !! q = if decide (q ∈ R) then None else ids <$> dget gs q.
Proof.
  unfold view. rewrite map_lookup_filter, lookup_fmap, dict_map_lookup.
  destruct (dget gs q) as [cs|]; cbn; [|by case_decide]. case_guard as Hq; cbn in *; [by rewrite decide_False|by destruct (decide (q ∈ R))].
Qed.
Lemma view_some R gs q X : view R gs !! q = Some X ↔ (q ∉ R) ∧ (∃ cs, dget gs q = Some cs ∧ X = ids cs).
Proof.
  rewrite view_lookup. case_decide; [naive_solver|]. destruct (dget gs q) as [cs|]; cbn; naive_solver.
Qed.

(** Groups between two frames, and while the primary object [p] is looked at *)
Record stable gs : Prop := {
  st_wf : dict_wf gs;
  st_good q cs : dget gs q = Some cs → good q cs;
  st_disjoint q1 q2 cs1 cs2 o : dget gs q1 = Some cs1 → dget gs q2 = Some cs2 → o ∈ ids cs1 → o ∈ ids cs2 → q1 = q2;
}.
Record transient p (R : list string) gs : Prop := {
  tr_wf : dict_wf gs;
  tr_good q cs : dget gs q = Some cs → good q cs;
  tr_primary : is_Some (dget gs p);
  tr_disjoint q1 q2 cs1 cs2 o : dget gs q1 = Some cs1 → dget gs q2 = Some cs2 → o ∈ ids cs1 → o ∈ ids cs2 →
    q1 = q2 ∨ (q1 = p ∧ q2 ∈ R) ∨ (q2 = p ∧ q1 ∈ R);
  tr_removed q : q ∈ R → q ≠ p ∧ ∃ csq csp, dget gs q = Some csq ∧ dget gs p = Some csp ∧ ids csq ⊆ ids csp;
  tr_nodup : NoDup R;
}.
Lemma stable_transient p gs : stable gs → is_Some (dget gs p) → transient p [] gs.
Proof. intros [] Hp. split; try done; [naive_solver|by intros q ?%elem_of_nil|constructor]. Qed.
Lemma transient_stable p gs : transient p [] gs → stable gs.
Proof.
  intros Ht. split; [apply Ht|apply Ht|]. intros q1 q2 cs1 cs2 o H1 H2 Ho1 Ho2.
  destruct (tr_disjoint _ _ _ Ht _ _ _ _ _ H1 H2 Ho1 Ho2) as [?|[[_ Hr]|[_ Hr]]]; [done|..]; by apply elem_of_nil in Hr.
Qed.

Lemma transient_key p R gs q : transient p R gs → q ∈ R → is_Some (dget gs q).
Proof. intros Ht Hq. destruct (tr_removed _ _ _ Ht q Hq) as (_ & cs & _ & Hc & _). by exists cs. Qed.

Lemma find_group_some o gs q : dict_wf gs → find_group o gs = Some q → ∃ cs, dget gs q = Some cs ∧ o ∈ ids cs.
Proof.
  intros Hw Hf. assert (∃ cs, (q, cs) ∈ gs ∧ o ∈ ids cs) as (cs & Hin & Ho).
  { clear Hw. induction gs as [|[q' cs] gs IH]; [done|]. cbn in Hf. case_bool_decide as Ho.
    - injection Hf as ->. exists cs. split; [by left|by apply elem_ids].
    - destruct (IH Hf) as (cs' & Hin & Ho'). exists cs'. split; [by right|done]. }
  exists cs. split; [by apply elem_dget|done].
Qed.
Lemma find_group_none o gs q cs : find_group o gs = None → dget gs q = Some cs → o ∉ ids cs.
Proof.
  intros Hf Hd%dget_elem. induction gs as [|[q' cs'] gs IH]; [by apply elem_of_nil in Hd|]. cbn in Hf.
  case_bool_decide as Ho; [done|]. apply elem_of_cons in Hd as [[= -> ->]|Hd]; [by rewrite elem_ids|by apply IH].
Qed.

Lemma check_some o s d q :
  dict_wf (groups_of s d) → (∀ q' cs, dget (groups_of s d) q' = Some cs → good q' cs) →
  check_is_in_potential_collision o s d = Some q → ∃ cs, dget (groups_of s d) q = Some cs ∧ o ∈ ids cs.
Proof.
  unfold check_is_in_potential_collision, groups_of. destruct (dget (potential_collision_map d) s) as [gs|]; [|done]. cbn.
  intros Hw Hg. unfold dmem. destruct (dget gs o) as [cs|] eqn:E; [|by apply find_group_some].
  intros [= <-]. exists cs. split; [done|]. by apply good_member, Hg.
Qed.
Lemma check_none o s d q cs :
  check_is_in_potential_collision o s d = None → dget (groups_of s d) q = Some cs → o ∉ ids cs.
Proof.
  unfold check_is_in_potential_collision, groups_of. destruct (dget (potential_collision_map d) s) as [gs|]; [|done]. cbn.
  unfold dmem. destruct (dget gs o); [done|]. apply find_group_none.
Qed.

(** Growing the group of the primary object *)
Lemma transient_grow p R gs cs cs' R' :
  transient p R gs → dget gs p = Some cs → good p cs' → ids cs ⊆ ids cs' → NoDup R' → R ⊆ R' →
  (∀ q csq, q ∈ R' → q ∉ R → dget gs q = Some csq → q ≠ p ∧ ids csq ⊆ ids cs') → (∀ q, q ∈ R' → is_Some (dget gs q)) →
  (∀ q csq o, q ∉ R' → dget gs q = Some csq → o ∈ ids csq → o ∈ ids cs' → o ∈ ids cs) →
  transient p R' (dset gs p cs').
Proof.
  intros Ht Hp Hgood Hsub Hnd HR Hnew Hkey Hold.
  assert (∀ q csq o, q ≠ p → dget gs q = Some csq → o ∈ ids csq → o ∈ ids cs' → q ∈ R') as Hmeet.
  { intros q csq o Hne Hq Ho Ho'. destruct (decide (q ∈ R')) as [|Hn]; [done|].
    destruct (tr_disjoint _ _ _ Ht _ _ _ _ o Hq Hp Ho) as [?|[[? _]|[_ ?]]]; [by eapply Hold|done..|by apply HR]. }
  split; [by apply dict_wf_dset, Ht| | | | |done].
  - intros q csq. rewrite dget_dset. case_decide; [intros [= <-]; by subst|apply Ht].
  - rewrite dget_dset_eq. by eexists.
  - intros q1 q2 cs1 cs2 o. rewrite !dget_dset.
    destruct (decide (p = q1)) as [<-|N1], (decide (p = q2)) as [<-|N2]; intros E1 E2 O1 O2; simplify_eq.
    + by left.
    + right; left. split; [done|]. by eapply Hmeet.
    + right; right. split; [done|]. by eapply Hmeet.
    + destruct (tr_disjoint _ _ _ Ht _ _ _ _ o E1 E2 O1 O2) as [?|[[? ?]|[? ?]]]; [by left|subst; done..].
  - intros q Hq. destruct (Hkey q Hq) as [csq Hcsq].
    assert (q ≠ p ∧ ids csq ⊆ ids cs') as [Hne Hs].
    { destruct (decide (q ∈ R)) as [Hr|Hr]; [|by eapply Hnew]. destruct (tr_removed _ _ _ Ht q Hr) as (Hne & c1 & c2 & E1 & E2 & Hs).
      simplify_eq. split; [done|]. by etrans. }
    split; [done|]. exists csq, cs'. rewrite dget_dset_ne, dget_dset_eq by done. by split_and!.
Qed.

(** ** One close object *)

Definition joined (removed : option string) (R : list string) : list string :=
  match removed with Some r => set_add r R | None => R end.

Lemma update_location_ok s p fr geo cs d :
  dget (groups_of s d) p = Some cs → good p cs → is_Some (dget (fd_objects fr) p) →
  ∃ d', update_collision_location s fr geo p d = (Ok tt, d') ∧ grown s p cs ∅ d d'.
Proof.
  intros Hg Hgood [x Hx]. unfold update_collision_location.
  set (r := if geo then _ else _). assert (∃ l, r = Ok l) as [l Hl] by (unfold r; destruct geo; [rewrite Hx|]; by eexists).
  rewrite (bind_lift _ _ _ l) by done. rewrite bind_get, nget_groups, Hg. destruct (is_initial _).
  - apply on_group_grown with (update_location l cs); [done..|by apply (good_same p cs)|by rewrite (right_id_L ∅ (∪))|done].
  - exists d. split; [done|]. by apply grown_refl.
Qed.

(** The three ways an object can be found, on the partition *)
Lemma view_grow p R gs cs' cs :
  dget gs p = Some cs → ids cs' = ids cs → view R (dset gs p cs') = view R gs.
Proof.
  intros Hp Hi. apply map_eq. intros q. rewrite !view_lookup, dget_dset. case_decide; [done|]. case_decide; [|done].
  subst. by rewrite Hp; cbn; rewrite Hi.
Qed.
Lemma view_join close p o R gs cs cs' :
  transient p R gs → dget gs p = Some cs → ids cs' = ids cs ∪ {[o]} → close p o →
  (∀ q csq, dget gs q = Some csq → o ∉ ids csq) → regroup close (view R gs) (view R (dset gs p cs')).
Proof.
  intros Ht Hp Hi Hc Hn. assert (p ∉ R) as HR by (intros Hr; by destruct (tr_removed _ _ _ Ht p Hr)).
  replace (view R (dset gs p cs')) with (<[p := ids cs ∪ {[o]}]> (view R gs)).
  - apply regroup_join; [|done|].
    + apply view_some. eauto.
    + intros q Y (_ & csq & Hq & ->)%view_some. by eapply Hn.
  - apply map_eq. intros q. rewrite lookup_insert, !view_lookup, dget_dset. repeat case_decide; subst; try done. cbn. by rewrite Hi.
Qed.
Lemma view_unite close p q o R gs cs csq cs' :
  transient p R gs → dget gs p = Some cs → dget gs q = Some csq → q ≠ p → q ∉ R → o ∈ ids csq → close p o →
  ids cs' = ids cs ∪ ids csq → regroup close (view R gs) (view (set_add q R) (dset gs p cs')).
Proof.
  intros Ht Hp Hq Hne HR Ho Hc Hi. assert (p ∉ R) as HpR by (intros Hr; by destruct (tr_removed _ _ _ Ht p Hr)).
  replace (view (set_add q R) (dset gs p cs')) with (delete q (<[p := ids cs ∪ ids csq]> (view R gs))).
  - eapply regroup_unite; [..|done|done]; [apply view_some; eauto|apply view_some; eauto|done].
  - apply map_eq. intros x. rewrite lookup_delete, lookup_insert, !view_lookup, dget_dset.
    destruct (decide (q = x)) as [<-|Nq]; [by rewrite decide_True by (apply set_add_elem; by left)|].
    destruct (decide (x ∈ R)) as [Hr|Hr], (decide (x ∈ set_add q R)) as [Hx|Hx]; rewrite set_add_elem in Hx; try tauto.
    + by rewrite decide_False by congruence.
    + naive_solver.
    + case_decide; cbn; [by rewrite Hi|done].
Qed.

(** What the turn of [p] has done so far: from the groups [gs] to those of [d'], with
    [R'] about to go *)
Record progress close s p R R' d d' : Prop := {
  pr_quiet : quiet s d d';
  pr_transient : transient p R' (groups_of s d');
  pr_regroup : rtc (regroup close) (view R (groups_of s d)) (view R' (groups_of s d'));
  pr_members cs : dget (groups_of s d) p = Some cs → ∃ cs', dget (groups_of s d') p = Some cs' ∧ ids cs ⊆ ids cs';
  pr_keys : dkeys (groups_of s d') = dkeys (groups_of s d);
}.
Lemma progress_refl close s p R d : transient p R (groups_of s d) → progress close s p R R d d.
Proof. intros Ht. split; [done|done|done|eauto|done]. Qed.
Lemma progress_trans close s p R1 R2 R3 d1 d2 d3 :
  progress close s p R1 R2 d1 d2 → progress close s p R2 R3 d2 d3 → progress close s p R1 R3 d1 d3.
Proof.
  intros [] []. split; [by etrans|done|by etrans| |congruence].
  intros cs Hcs. destruct (pr_members0 cs Hcs) as (cs1 & H1 & S1). destruct (pr_members1 cs1 H1) as (cs2 & H2 & S2).
  exists cs2. split; [done|by etrans].
Qed.

(** A group that grew by nothing, by the object, or by a whole group *)
Lemma progress_grown close s p R d d' cs Z R' :
  transient p R (groups_of s d) → dget (groups_of s d) p = Some cs → grown s p cs Z d d' → NoDup R' → R ⊆ R' →
  (∀ q csq, q ∈ R' → q ∉ R → dget (groups_of s d) q = Some csq → q ≠ p ∧ ids csq ⊆ ids cs ∪ Z) →
  (∀ q, q ∈ R' → is_Some (dget (groups_of s d) q)) →
  (∀ q csq o, q ∉ R' → dget (groups_of s d) q = Some csq → o ∈ ids csq → o ∈ Z → o ∈ ids cs) →
  (∀ cs', ids cs' = ids cs ∪ Z → rtc (regroup close) (view R (groups_of s d)) (view R' (dset (groups_of s d) p cs'))) →
  progress close s p R R' d d'.
Proof.
  intros Ht Hp (Hq & cs' & Hg & Hgood & Hi & _) Hnd HR Hnew Hkey Hold Hv. split; [done| | | |].
  - rewrite Hg. apply (transient_grow p R _ cs); try done.
    + rewrite Hi. set_solver.
    + intros q csq Hq1 Hq2 Hq3. rewrite Hi. by eapply Hnew.
    + intros q csq o Hq1 Hq2 Ho. rewrite Hi, elem_of_union. intros [?|?]; [done|]. by eapply Hold.
  - rewrite Hg. by apply Hv.
  - intros cs0 Hc0. simplify_eq. exists cs'. rewrite Hg, dget_dset_eq. split; [done|]. rewrite Hi. set_solver.
  - rewrite Hg. apply dkeys_dset_in, dget_is_Some. by eexists.
Qed.

Lemma close_object_ok close s fr geo p o R d :
  transient p R (groups_of s d) → is_Some (dget (fd_objects fr) p) → dated (fd_timestamp fr) = true → listed s o d → close p o →
  ∃ r d', close_object iter_set s fr geo p o d = (Ok r, d') ∧ progress close s p R (joined r R) d d' ∧
    ∃ cs', dget (groups_of s d') p = Some cs' ∧ o ∈ ids cs'.
Proof.
  intros Ht Hp Hd Hl Hc. destruct (tr_primary _ _ _ Ht) as [cs Hcs]. pose proof (tr_good _ _ _ Ht _ _ Hcs) as Hgood.
  unfold close_object. destruct (update_location_ok s p fr geo cs d Hcs Hgood Hp) as (d1 & E1 & H1). rewrite (bind_Ok _ _ _ _ _ E1), bind_get.
  assert (progress close s p R R d d1) as P1.
  { apply (progress_grown close s p R d d1 cs ∅ R); try done; [apply Ht|intros q; by apply (transient_key p R)|].
    intros cs' Hi. rewrite (view_grow p R _ cs' cs) by (try done; set_solver). done. }
  pose proof (pr_transient _ _ _ _ _ _ _ P1) as Ht1. destruct (tr_primary _ _ _ Ht1) as [cs1 Hcs1].
  pose proof (tr_good _ _ _ Ht1 _ _ Hcs1) as Hgood1.
  destruct (check_is_in_potential_collision o s d1) as [q|] eqn:Ec.
  - destruct (check_some o s d1 q (tr_wf _ _ _ Ht1) (tr_good _ _ _ Ht1) Ec) as (csq & Hq & Ho).
    destruct (String.eqb_spec q p) as [->|Hne].
    { exists None, d1. split; [done|]. split; [done|]. exists csq. by split. }
    destruct (merge_groups_ok s p q cs1 csq d1) as (d2 & E2 & H2); [done|done|done|by apply (tr_good _ _ _ Ht1)|].
    rewrite (bind_Ok _ _ _ _ _ E2). exists (Some q), d2. split; [done|]. split.
    + eapply progress_trans; [exact P1|]. apply (progress_grown close s p R d1 d2 cs1 (ids csq)); try done; cbn [joined].
      * apply set_add_NoDup, Ht1.
      * intros x Hx. apply set_add_elem. by right.
      * intros q' csq' [->|?]%set_add_elem Hn Hq'; [|done]. simplify_eq. split; [done|set_solver].
      * intros q' [->|Hq']%set_add_elem; [by eexists|]. by apply (transient_key p R).
      * intros q' csq' o' Hn Hq' Ho' Ho2. destruct (tr_disjoint _ _ _ Ht1 q' q csq' csq o') as [->|[[-> _]|[-> _]]]; try done.
        -- destruct Hn. apply set_add_elem. by left.
        -- by simplify_eq.
      * intros cs' Hi. destruct (decide (q ∈ R)) as [HqR|HqR]; [|by eapply rtc_once, view_unite].
        assert (set_add q R = R) as -> by (unfold set_add; by rewrite bool_decide_true).
        rewrite (view_grow p R _ cs' cs1); [done|done|]. rewrite Hi. destruct (tr_removed _ _ _ Ht1 q HqR) as (_ & c1 & c2 & ? & ? & Hs).
        simplify_eq. set_solver.
    + destruct (grown_get _ _ _ _ _ _ H2) as (cs2 & Hcs2 & _ & Hi). exists cs2. split; [done|]. rewrite Hi. set_solver.
  - destruct (on_group_grown s p cs1 (add_object_id o (Some (fd_timestamp fr)) cs1) (λ cs, Ok (add_object_id o (Some (fd_timestamp fr)) cs)) {[o]} d1)
      as (d2 & E2 & H2); [done|done|apply good_add; [done|by intros t [= <-]]|apply ids_add|done|].
    rewrite (bind_Ok _ _ _ _ _ E2). destruct (grown_get _ _ _ _ _ _ H2) as (cs2 & Hcs2 & Hgood2 & Hi2).
    destruct (update_from_past_ok s p o cs2 d2) as (d3 & E3 & H3); [done|done|eapply listed_quiet, listed_quiet; [apply H2|apply P1|done]|].
    rewrite (bind_Ok _ _ _ _ _ E3). exists None, d3. split; [done|]. pose proof (grown_trans _ _ _ _ _ _ _ _ _ H2 Hcs2 H3) as H4. split.
    + eapply progress_trans; [exact P1|]. apply (progress_grown close s p R d1 d3 cs1 ({[o]} ∪ ∅)); try done; cbn [joined].
      * apply Ht1.
      * intros q. by apply (transient_key p R).
      * intros q csq o' Hn Hq Ho' Ho2. assert (o' = o) as -> by set_solver. by destruct (check_none o s d1 q csq Ec Hq).
      * intros cs' Hi. apply rtc_once. apply (view_join close p o R _ cs1 cs'); [done|done|by rewrite Hi, (right_id_L ∅ (∪))|done|]. intros q csq. by apply check_none.
    + destruct (grown_get _ _ _ _ _ _ H3) as (cs3 & Hcs3 & _ & Hi3). exists cs3. split; [done|]. rewrite Hi3, Hi2. set_solver.
Qed.

(** ** The turn of a primary object *)

(** The objects a frame shows close to [p] *)
Definition near (calibration : CalibrationType) fr p : list string :=
  match get_pairs fr p with
  | Ok (pairs, pair_ids, _) =>
      match check_distances cfg calibration pairs pair_ids with Ok l => l.*1 | Exn _ => [] end
  | Exn _ => []
  end.

Definition member s p o d : Prop := ∃ cs, dget (groups_of s d) p = Some cs ∧ o ∈ ids cs.
Lemma progress_member close s p R R' d d' o : progress close s p R R' d d' → member s p o d → member s p o d'.
Proof. intros Hp (cs & Hc & Ho). destruct (pr_members _ _ _ _ _ _ _ Hp cs Hc) as (cs' & Hc' & Hs). exists cs'. set_solver. Qed.

Lemma close_objects_ok close s fr geo p l R d :
  transient p R (groups_of s d) → is_Some (dget (fd_objects fr) p) → dated (fd_timestamp fr) = true → (∀ o, listed s o d) →
  (∀ x, x ∈ l → close p x.1) →
  ∃ R' d', close_objects iter_set s fr geo p l R d = (Ok R', d') ∧ progress close s p R R' d d' ∧ ∀ x, x ∈ l → member s p x.1 d'.
Proof.
  intros Ht Hp Hd. revert R d Ht. induction l as [|[o dist] l IH]; intros R d Ht Hl Hc.
  { exists R, d. split; [done|]. split; [by apply progress_refl|]. by intros x ?%elem_of_nil. }
  destruct (close_object_ok close s fr geo p o R d) as (r & d1 & E1 & P1 & Hm); [done..|apply (Hc (o, dist)); by left|].
  cbn [close_objects]. rewrite (bind_Ok _ _ _ _ _ E1). fold (joined r R).
  destruct (IH (joined r R) d1) as (R' & d2 & E2 & P2 & Hm2); [apply P1|intros o'; eapply listed_quiet; [apply P1|apply Hl]|intros x Hx; apply Hc; by right|].
  exists R', d2. split; [done|]. split; [by eapply progress_trans|]. intros x [->|Hx]%elem_of_cons; [|by apply Hm2].
  by eapply progress_member.
Qed.

Lemma gather_close_ok s fr p d :
  transient p [] (groups_of s d) → is_Some (dget (fd_objects fr) p) → dated (fd_timestamp fr) = true → (∀ o, listed s o d) →
  calibration_type d ≠ CARTESIAN →
  ∃ R d', gather_close cfg iter_set s fr p d = (Ok R, d') ∧
    progress (λ q o, q = p ∧ o ∈ near (calibration_type d) fr p) s p [] R d d' ∧ ∀ o, o ∈ near (calibration_type d) fr p → member s p o d'.
Proof.
  intros Ht [x Hx] Hd Hl Hc. unfold gather_close, near.
  destruct (get_pairs fr p) as [[[pairs pids] geo]|] eqn:Ep; [|unfold get_pairs in Ep; by rewrite Hx in Ep].
  rewrite (bind_lift _ _ _ (pairs, pids, geo)) by done. rewrite bind_get.
  destruct (check_distances_ok cfg (calibration_type d) pairs pids Hc) as (l & El & _). rewrite (bind_lift _ _ _ l), El by done.
  destruct (close_objects_ok (λ q o, q = p ∧ o ∈ l.*1) s fr geo p l [] d) as (R & d' & E & P & Hm); [done|by exists x|done|done| |].
  { intros y Hy. split; [done|]. apply list_elem_of_fmap. by exists y. }
  exists R, d'. split; [done|]. split; [done|]. intros o (y & -> & Hy)%list_elem_of_fmap. by apply Hm.
Qed.

Lemma pop_groups_ok s (l : list string) d :
  NoDup l → (∀ q, q ∈ l → is_Some (dget (groups_of s d) q)) →
  ∃ d', sfor l (pop_group s) d = (Ok tt, d') ∧ quiet s d d' ∧ groups_of s d' = foldl (λ m k, ddel m k) (groups_of s d) l.
Proof.
  revert d. induction l as [|q l IH]; intros d Hnd Hk; [by exists d|]. apply NoDup_cons in Hnd as [Hn Hnd].
  destruct (Hk q) as [cs Hcs]; [by left|]. cbn [sfor]. set (d1 := set_potential (ndel (potential_collision_map d) s q) d).
  assert (pop_group s q d = (Ok tt, d1)) as E1 by (unfold pop_group; by rewrite (bind_Ok _ _ _ _ _ (get_group_ok _ _ _ _ Hcs))).
  assert (groups_of s d1 = ddel (groups_of s d) q) as Hg1.
  { unfold d1, groups_of, ndel. cbn. unfold groups_of in Hcs. destruct (dget (potential_collision_map d) s); [|done]. by rewrite dget_dset_eq. }
  assert (quiet s d d1) as Hq1.
  { split; try done; unfold d1, ndel; cbn.
    - intros s' Hs. destruct (dget _ s); [by rewrite dget_dset_ne|done].
    - intros Hw. destruct (dget _ s); [by apply dict_wf_dset|done]. }
  rewrite (bind_Ok _ _ _ _ _ E1). destruct (IH d1) as (d2 & E2 & Hq2 & Hg2); [done| |].
  - intros q' Hq'. rewrite Hg1, dget_ddel_ne by set_solver. apply Hk. by right.
  - exists d2. split; [done|]. split; [by etrans|]. by rewrite Hg2, Hg1.
Qed.

(** Without the groups that were united, a partition again *)
Lemma transient_drop p R gs l :
  transient p R gs → l ≡ₚ R →
  let gs' := foldl (λ m k, ddel m k) gs l in stable gs' ∧ view [] gs' = view R gs ∧ dget gs' p = dget gs p.
Proof.
  intros Ht Hl gs'. assert (∀ q, dget gs' q = if decide (q ∈ R) then None else dget gs q) as Hg.
  { intros q. unfold gs'. rewrite dget_foldl_ddel. destruct (decide (q ∈ l)) as [Hq|Hq], (decide (q ∈ R)) as [Hr|Hr]; rewrite Hl in Hq; done. }
  split_and!.
  - split; [apply dict_wf_foldl_ddel, Ht| |].
    + intros q cs. rewrite Hg. case_decide; [done|]. apply Ht.
    + intros q1 q2 cs1 cs2 o. rewrite !Hg. do 2 (case_decide; [done|]). intros E1 E2 O1 O2.
      destruct (tr_disjoint _ _ _ Ht _ _ _ _ o E1 E2 O1 O2) as [?|[[_ ?]|[_ ?]]]; done.
  - apply map_eq. intros q. rewrite !view_lookup, Hg. rewrite decide_False by (apply not_elem_of_nil). by case_decide.
  - rewrite Hg. rewrite decide_False; [done|]. intros Hr. by destruct (tr_removed _ _ _ Ht p Hr).
Qed.

(** ** A frame *)

(** What a frame does to the groups of its sensor *)
Definition close_in (calibration : CalibrationType) fr p o : Prop := o ∈ near calibration fr p.
Record regrouped (close : string → string → Prop) s d d' : Prop := {
  rg_quiet : quiet s d d';
  rg_stable : stable (groups_of s d');
  rg_steps : rtc (regroup close) (view [] (groups_of s d)) (view [] (groups_of s d'));
}.
Lemma regrouped_refl close s d : stable (groups_of s d) → regrouped close s d d.
Proof. by split. Qed.
Lemma regrouped_trans close s d1 d2 d3 : regrouped close s d1 d2 → regrouped close s d2 d3 → regrouped close s d1 d3.
Proof. intros [] []. split; [by etrans|done|by etrans]. Qed.
Lemma regrouped_mono (close close' : string → string → Prop) s d d' :
  (∀ p o, close p o → close' p o) → regrouped close s d d' → regrouped close' s d d'.
Proof. intros Hc []. split; [done..|]. eapply rtc_subrel; [|done]. intros x y. by apply regroup_mono. Qed.

Lemma regrouped_key close s d d' p :
  regrouped close s d d' → is_Some (dget (groups_of s d') p) → is_Some (dget (groups_of s d) p).
Proof.
  intros Hr [cs Hcs]. assert (is_Some (view [] (groups_of s d) !! p)) as [X HX].
  { eapply regroups_dom; [apply Hr|]. exists (ids cs). apply view_some. split; [apply not_elem_of_nil|eauto]. }
  apply view_some in HX as (_ & cs0 & H0 & _). by exists cs0.
Qed.
Lemma regrouped_member close s d d' p o :
  regrouped close s d d' → member s p o d → is_Some (dget (groups_of s d') p) → member s p o d'.
Proof.
  intros Hr (cs & Hcs & Ho) [cs' Hcs'].
  destruct (regroups_stay close _ _ p (ids cs) (rg_steps _ _ _ _ Hr)) as (Y & HY & Hs).
  - apply view_some. split; [apply not_elem_of_nil|eauto].
  - exists (ids cs'). apply view_some. split; [apply not_elem_of_nil|eauto].
  - apply view_some in HY as (_ & cs2 & H2 & ->). exists cs2. split; [done|set_solver].
Qed.

(** The turn of one primary object, up to the removal of the groups united with it *)
Lemma turn_ok s fr p d :
  stable (groups_of s d) → is_Some (dget (groups_of s d) p) → is_Some (dget (fd_objects fr) p) → dated (fd_timestamp fr) = true →
  (∀ o, listed s o d) → calibration_type d ≠ CARTESIAN →
  ∃ R d' d'', gather_close cfg iter_set s fr p d = (Ok R, d') ∧ sfor (iter_set R) (pop_group s) d' = (Ok tt, d'') ∧
    regrouped (λ q o, q = p ∧ close_in (calibration_type d) fr p o) s d d'' ∧ NoDup R ∧ (p ∉ R) ∧
    (∀ q, q ∈ R → is_Some (dget (groups_of s d) q)) ∧
    (∀ q, is_Some (dget (groups_of s d'') q) ↔ is_Some (dget (groups_of s d) q) ∧ q ∉ R) ∧
    ∀ o, close_in (calibration_type d) fr p o → member s p o d''.
Proof.
  intros Hst Hk Hp Hd Hl Hc.
  destruct (gather_close_ok s fr p d) as (R & d' & E & P & Hm); [by apply stable_transient|done..|].
  pose proof (pr_transient _ _ _ _ _ _ _ P) as Ht. assert (iter_set R ≡ₚ R) as HR by apply iterate, Ht.
  destruct (pop_groups_ok s (iter_set R) d') as (d2 & E2 & Hq2 & Hg2).
  { rewrite HR. apply Ht. } { intros q. rewrite HR. by apply (transient_key p R). }
  destruct (transient_drop p R (groups_of s d') (iter_set R) Ht HR) as (Hst2 & Hv2 & Hp2). rewrite <- Hg2 in Hst2, Hv2, Hp2.
  assert (∀ q, is_Some (dget (groups_of s d') q) ↔ is_Some (dget (groups_of s d) q)) as Hkeys.
  { intros q. by rewrite !dget_is_Some, (pr_keys _ _ _ _ _ _ _ P). }
  exists R, d', d2. split_and!; [done|done| |apply Ht|intros Hr; by destruct (tr_removed _ _ _ Ht p Hr)| | |].
  - split; [etrans; [apply P|done]|done|]. rewrite Hv2. apply P.
  - intros q Hq. apply Hkeys. by apply (transient_key p R).
  - intros q. rewrite <- Hkeys, Hg2, dget_foldl_ddel.
    destruct (decide (q ∈ iter_set R)) as [Hq|Hq]; rewrite HR in Hq; [|tauto]. split; [by intros [? [=]]|tauto].
  - intros o Ho. destruct (Hm o Ho) as (cs & Hcs & Hin). exists cs. by rewrite Hp2.
Qed.

Lemma quiet_listed s d d' : quiet s d d' → (∀ o, listed s o d) → ∀ o, listed s o d'.
Proof. intros Hq Hl o. by eapply listed_quiet. Qed.

(** Growing by nothing is a regrouping without steps. *)
Lemma grown_regrouped close s p cs d d' :
  stable (groups_of s d) → dget (groups_of s d) p = Some cs → grown s p cs ∅ d d' →
  regrouped close s d d' ∧ (∀ q, is_Some (dget (groups_of s d') q) ↔ is_Some (dget (groups_of s d) q)) ∧
  ∀ q o, member s q o d → member s q o d'.
Proof.
  intros Hst Hp Hg. pose proof Hg as (Hq & cs' & Hgs & Hgood & Hi & _). rewrite (right_id_L ∅ (∪)) in Hi. split_and!.
  - split; [done| |].
    + rewrite Hgs. split; [by apply dict_wf_dset, Hst| |].
      * intros q c. rewrite dget_dset. case_decide; [intros [= <-]; by subst|apply Hst].
      * intros q1 q2 c1 c2 o. rewrite !dget_dset.
        destruct (decide (p = q1)) as [<-|N1], (decide (p = q2)) as [<-|N2]; intros E1 E2 O1 O2; simplify_eq; try done.
        -- rewrite Hi in O1. by eapply Hst.
        -- rewrite Hi in O2. by eapply Hst.
        -- by eapply (st_disjoint _ Hst q1 q2).
    + rewrite Hgs, (view_grow p [] _ cs' cs) by done. done.
  - intros q. rewrite Hgs, dget_dset. case_decide; [|done]. subst. split; intros _; by eexists.
  - intros q o (c & Hc & Ho). unfold member. rewrite Hgs. setoid_rewrite dget_dset. case_decide; [|by exists c]. subst. simplify_eq.
    exists cs'. by rewrite Hi.
Qed.

Definition saturated (calibration : CalibrationType) fr s (present : list string) p d : Prop :=
  p ∈ present → ∀ o, close_in calibration fr p o → member s p o d.

Lemma process_group_ok s present fr p d :
  stable (groups_of s d) → is_Some (dget (groups_of s d) p) → (∀ o, o ∈ present → is_Some (dget (fd_objects fr) o)) →
  dated (fd_timestamp fr) = true → (∀ o, listed s o d) → calibration_type d ≠ CARTESIAN →
  ∃ R d', process_group cfg iter_set present fr s p d = (Ok R, d') ∧
    regrouped (close_in (calibration_type d) fr) s d d' ∧ NoDup R ∧ (p ∉ R) ∧ (∀ q, q ∈ R → is_Some (dget (groups_of s d) q)) ∧
    (∀ q, is_Some (dget (groups_of s d') q) ↔ is_Some (dget (groups_of s d) q) ∧ q ∉ R) ∧
    saturated (calibration_type d) fr s present p d'.
Proof.
  intros Hst Hk Hpr Hd Hl Hc. unfold process_group.
  set (first := if bool_decide (p ∈ present) then _ else _).
  assert (∃ R d1 d2, first d = (Ok R, d1) ∧ sfor (iter_set R) (pop_group s) d1 = (Ok tt, d2) ∧
    regrouped (close_in (calibration_type d) fr) s d d2 ∧ NoDup R ∧ (p ∉ R) ∧ (∀ q, q ∈ R → is_Some (dget (groups_of s d) q)) ∧
    (∀ q, is_Some (dget (groups_of s d2) q) ↔ is_Some (dget (groups_of s d) q) ∧ q ∉ R) ∧
    saturated (calibration_type d) fr s present p d2) as (R & d1 & d2 & E1 & E2 & Hr & Hnd & HpR & HR & Hkeys & Hsat).
  { unfold first. case_bool_decide as Hin.
    - destruct Hk as [cs Hcs]. pose proof (st_good _ Hst _ _ Hcs) as Hgood.
      destruct (on_group_grown s p cs (add_frame_id (fd_id fr) (fd_timestamp fr) cs) (λ cs, Ok (add_frame_id (fd_id fr) (fd_timestamp fr) cs)) ∅ d)
        as (d0 & E0 & H0); [done|done|by apply (good_same p cs)|by rewrite (right_id_L ∅ (∪))|done|].
      destruct (grown_regrouped (close_in (calibration_type d) fr) s p cs d d0 Hst Hcs H0) as (Hr0 & Hk0 & Hm0).
      pose proof (rg_quiet _ _ _ _ Hr0) as Hq0. pose proof (q_calibration _ _ _ Hq0) as Hcal.
      destruct (turn_ok s fr p d0) as (R & d1 & d2 & E1 & E2 & Hr & Hnd & HpR & HR & Hkeys & Hsat);
        [apply Hr0|apply Hk0; by eexists|by apply Hpr|done|by eapply quiet_listed|by rewrite Hcal|].
      rewrite Hcal in Hr, Hsat. exists R, d1, d2. rewrite (bind_Ok _ _ _ _ _ E0).
      split_and!; [done|done| |done|done| | |by intros _].
      + eapply regrouped_trans; [done|]. eapply regrouped_mono; [|done]. by intros q o [-> ?].
      + intros q Hq. by apply Hk0, HR.
      + intros q. by rewrite Hkeys, Hk0.
    - exists [], d, d. assert (iter_set [] = []) as -> by (apply Permutation_nil; symmetry; apply iterate; constructor).
      split_and!; [done|done|by apply regrouped_refl|by apply NoDup_nil|apply not_elem_of_nil|by intros q ?%elem_of_nil| |by intros ?].
      intros q. pose proof (not_elem_of_nil q). tauto. }
  rewrite (bind_Ok _ _ _ _ _ E1), (bind_Ok _ _ _ _ _ E2).
  assert (is_Some (dget (groups_of s d2) p)) as [cs2 Hcs2] by (by apply Hkeys).
  rewrite (bind_Ok _ _ _ _ _ (get_group_ok _ _ _ _ Hcs2)). pose proof (st_good _ (rg_stable _ _ _ _ Hr) _ _ Hcs2) as Hgood2.
  destruct (for_grown s p cs2 (iter_set (cs_object_ids cs2))
    (λ o, if bool_decide (o ∈ present) then on_group s p (update_trajectory_by_frame o fr) else mret tt) (λ _, ∅) d2) as (d3 & E3 & H3); [done|done| |].
  { intros o cs3 d3 _ _ Hcs3 Hgood3 _. case_bool_decide as Ho; [|exists d3; split; [done|by apply grown_refl]].
    destruct (trajectory_by_frame_ok p o fr cs3 Hgood3 (Hpr o Ho)) as (cs4 & Ec & Hgood4 & Hi4 & Ht4).
    by apply on_group_grown with cs4. }
  assert (grown s p cs2 ∅ d2 d3) as H3'.
  { assert (⋃ ((λ _, ∅ : gset string) <$> iter_set (cs_object_ids cs2)) = ∅) as <-; [|done].
    generalize (iter_set (cs_object_ids cs2)). intros l. induction l; cbn; set_solver. }
  destruct (grown_regrouped (close_in (calibration_type d) fr) s p cs2 d2 d3 (rg_stable _ _ _ _ Hr) Hcs2 H3') as (Hr3 & Hk3 & Hm3).
  exists R, d3. rewrite (bind_Ok _ _ _ _ _ E3). split_and!; [done|by eapply regrouped_trans|done..| |].
  - intros q. by rewrite Hk3, Hkeys.
  - intros Hin o Ho. by apply Hm3, Hsat.
Qed.

(** The loop ends: it takes each primary object at most once, and leaves those that
    stay saturated. *)
Lemma process_groups_ok fuel s present fr pending d :
  stable (groups_of s d) → (length pending ≤ fuel)%nat → NoDup pending → (∀ q, q ∈ pending → is_Some (dget (groups_of s d) q)) →
  (∀ o, o ∈ present → is_Some (dget (fd_objects fr) o)) → dated (fd_timestamp fr) = true → (∀ o, listed s o d) →
  calibration_type d ≠ CARTESIAN →
  (∀ q, is_Some (dget (groups_of s d) q) → q ∉ pending → saturated (calibration_type d) fr s present q d) →
  ∃ d', process_groups cfg iter_set fuel present fr s pending d = (Ok tt, d') ∧ regrouped (close_in (calibration_type d) fr) s d d' ∧
    ∀ q, is_Some (dget (groups_of s d') q) → saturated (calibration_type d) fr s present q d'.
Proof.
  revert pending d. induction fuel as [|fuel IH]; intros pending d Hst Hf Hnd Hk Hpr Hd Hl Hc Hsat.
  all: destruct pending as [|p pending].
  1, 3: exists d; split; [done|]; split; [by apply regrouped_refl|]; intros q Hq; apply Hsat; [done|apply not_elem_of_nil].
  { cbn in Hf. lia. }
  apply NoDup_cons in Hnd as [Hnp Hnd].
  destruct (process_group_ok s present fr p d) as (R & d1 & E1 & Hr & HndR & HpR & HR & Hkeys & Hp); [done|apply Hk; by left|done..|].
  cbn [process_groups]. rewrite (bind_Ok _ _ _ _ _ E1). pose proof (q_calibration _ _ _ (rg_quiet _ _ _ _ Hr)) as Hcal.
  destruct (py_removes R pending Hnd) as (Hnd' & Hin' & Hlen).
  destruct (IH (foldl (λ l r, py_remove r l) pending R) d1) as (d2 & E2 & Hr2 & Hs2).
  - apply Hr.
  - cbn in Hf. lia.
  - done.
  - intros q [Hq HqR]%Hin'. apply Hkeys. split; [apply Hk; by right|done].
  - done.
  - done.
  - eapply quiet_listed; [apply Hr|done].
  - by rewrite Hcal.
  - rewrite Hcal. intros q Hq Hnq. destruct (decide (q = p)) as [->|Hne]; [done|].
    assert (q ∉ p :: pending) as Hn.
    { intros [->|Hq']%elem_of_cons; [done|]. apply Hnq, Hin'. split; [done|]. by apply Hkeys in Hq as [_ ?]. }
    intros Hpres o Ho. eapply regrouped_member; [exact Hr| |done]. apply (Hsat q); [by apply Hkeys|done..].
  - rewrite Hcal in Hr2, Hs2. exists d2. split; [done|]. split; [by eapply regrouped_trans|done].
Qed.

Lemma dkeys_reverse gs : stable gs → NoDup (reverse (dkeys gs)) ∧ ∀ q, q ∈ reverse (dkeys gs) ↔ is_Some (dget gs q).
Proof. intros Hs. split; [rewrite reverse_Permutation; apply Hs|]. intros q. by rewrite reverse_Permutation, dget_is_Some. Qed.

Lemma on_new_frame_ok s present fr d :
  stable (groups_of s d) → (∀ o, o ∈ present → is_Some (dget (fd_objects fr) o)) → dated (fd_timestamp fr) = true →
  (∀ o, listed s o d) → calibration_type d ≠ CARTESIAN →
  ∃ d', process_potential_collisions_on_new_frame cfg iter_set present fr s d = (Ok tt, d') ∧
    regrouped (close_in (calibration_type d) fr) s d d' ∧
    ∀ q, is_Some (dget (groups_of s d') q) → saturated (calibration_type d) fr s present q d'.
Proof.
  intros Hst Hpr Hd Hl Hc. unfold process_potential_collisions_on_new_frame. rewrite bind_get.
  destruct (dget (potential_collision_map d) s) as [gs|] eqn:E.
  - assert (groups_of s d = gs) as Hgs by (unfold groups_of; by rewrite E). rewrite Hgs in Hst.
    destruct (dkeys_reverse gs Hst) as [Hnd Hin].
    apply process_groups_ok; rewrite ?Hgs; try done; [by rewrite length_reverse|apply Hin|].
    intros q Hq Hn. by destruct Hn; apply Hin.
  - exists d. split; [done|]. split; [by apply regrouped_refl|]. unfold groups_of. rewrite E. by intros q [? [=]].
Qed.

(** ** A suspicion *)

(** The frames and the references to them agree: an object is listed in exactly the
    frames it is in, once, and a frame counts its objects. *)
Record accounted d : Prop := {
  ac_frames_wf : nested_wf (sensor_to_frames_map d);
  ac_refs_wf : nested_wf (object_id_to_frames_map d);
  ac_frame s f fr : nget (sensor_to_frames_map d) s f = Some fr →
    num_references fr = Z.of_nat (length (fd_objects fr)) ∧ dict_wf (fd_objects fr) ∧ dated (fd_timestamp fr) = true ∧
    ∀ o, is_Some (dget (fd_objects fr) o) → starts_with_underscore o = false;
  ac_refs s o f : (∃ l, nget (object_id_to_frames_map d) s o = Some l ∧ f ∈ l) ↔
    ∃ fr, nget (sensor_to_frames_map d) s f = Some fr ∧ is_Some (dget (fd_objects fr) o);
  ac_nodup s o l : nget (object_id_to_frames_map d) s o = Some l → NoDup l;
}.
Lemma accounted_listed s o d : accounted d → listed s o d.
Proof.
  intros Ha l f fr Hl Hf Hfr. destruct (proj1 (ac_refs _ Ha s o f)) as (fr' & Hfr' & Ho); [by exists l|]. by simplify_eq.
Qed.
Lemma accounted_quiet s d d' : quiet s d d' → accounted d → accounted d'.
Proof.
  intros Hq []. split; rewrite ?(q_refs _ _ _ Hq); try done; [by eapply q_frames_wf|..]; intros s' *; rewrite ?(q_refs _ _ _ Hq);
    setoid_rewrite (q_frames _ _ _ Hq); eauto.
Qed.

(** [p] was seen close to the object in one of the frames it is listed in. *)
Definition seen_close s p d : string → string → Prop := λ q o, q = p ∧
  ∃ f fr, nget (sensor_to_frames_map d) s f = Some fr ∧ is_Some (dget (fd_objects fr) p) ∧ close_in (calibration_type d) fr p o.
Lemma seen_close_quiet s p d d' q o : quiet s d d' → seen_close s p d' q o → seen_close s p d q o.
Proof.
  intros Hq (-> & f & fr & Hf & Hp & Ho). split; [done|]. exists f, fr.
  rewrite (q_frames _ _ _ Hq) in Hf. by rewrite (q_calibration _ _ _ Hq) in Ho.
Qed.

Lemma frame_at_ok {B} s f fr (k : FrameData → stM Detector B) d : nget (sensor_to_frames_map d) s f = Some fr →
  ∃ d', (frames ← frames_of s; frame ← slift (require (dget frames f) KeyError); k frame) d = k fr d' ∧ quiet s d d' ∧ groups_of s d' = groups_of s d.
Proof.
  intros Hf. destruct (frames_of_ok s d) as (d1 & E1 & Hq & Hg). exists d1. split; [|done].
  rewrite (bind_Ok _ _ _ _ _ E1), <- nget_frames, Hf. done.
Qed.

Lemma timestamps_ok s (l : list Z) d :
  (∀ f, f ∈ l → is_Some (nget (sensor_to_frames_map d) s f)) →
  ∃ keyed d', timestamps_of s l d = (Ok keyed, d') ∧ keyed.*1 = l ∧ quiet s d d' ∧ groups_of s d' = groups_of s d.
Proof.
  revert d. induction l as [|f l IH]; intros d Hl; [by exists [], d|].
  destruct (Hl f) as [fr Hfr]; [by left|]. cbn [timestamps_of].
  destruct (frame_at_ok s f fr (λ frame, mret (f, fd_timestamp frame)) d Hfr) as (d1 & E1 & Hq1 & Hg1).
  assert (timestamp_of_frame s f d = (Ok (f, fd_timestamp fr), d1)) as E by done. rewrite (bind_Ok _ _ _ _ _ E).
  destruct (IH d1) as (keyed & d2 & E2 & Hk & Hq2 & Hg2).
  { intros f' Hf'. rewrite (q_frames _ _ _ Hq1). apply Hl. by right. }
  exists ((f, fd_timestamp fr) :: keyed), d2. rewrite (bind_Ok _ _ _ _ _ E2). split; [done|]. csimpl.
  split_and!; [by rewrite Hk|by etrans|congruence].
Qed.

Lemma py_take_sub {A} n (l : list A) x : x ∈ py_take n l → x ∈ l.
Proof.
  unfold py_take. intros Hx. assert (∃ k, x ∈ take k l) as [k Hk] by (case_match; eauto).
  rewrite <- (take_drop k l). apply elem_of_app. by left.
Qed.
Lemma recent_frames_sub keyed f : f ∈ recent_frames cfg keyed → f ∈ keyed.*1.
Proof.
  unfold recent_frames. rewrite reverse_Permutation. intros Hf%py_take_sub. revert Hf.
  rewrite !list_elem_of_fmap. intros (x & -> & Hx). exists x. split; [done|]. by apply sort_by_elem_of in Hx.
Qed.

Lemma past_frames_ok s p (l : list Z) d :
  stable (groups_of s d) → is_Some (dget (groups_of s d) p) → accounted d → calibration_type d ≠ CARTESIAN →
  (∀ f, f ∈ l → ∃ fr, nget (sensor_to_frames_map d) s f = Some fr ∧ is_Some (dget (fd_objects fr) p)) →
  ∃ d', sfor l (process_past_frame cfg iter_set p s) d = (Ok tt, d') ∧ regrouped (seen_close s p d) s d d' ∧ is_Some (dget (groups_of s d') p).
Proof.
  revert d. induction l as [|f l IH]; intros d Hst Hk Ha Hc Hl; [exists d; split; [done|]; split; [by apply regrouped_refl|done]|].
  destruct (Hl f) as (fr & Hfr & Hp); [by left|].
  destruct (frame_at_ok s f fr (λ frame, removed ← gather_close cfg iter_set s frame p; sfor (iter_set removed) (pop_group s)) d Hfr) as (d0 & E0 & Hq0 & Hg0).
  assert (process_past_frame cfg iter_set p s f d = (removed ← gather_close cfg iter_set s fr p; sfor (iter_set removed) (pop_group s)) d0) as E by done.
  pose proof (q_calibration _ _ _ Hq0) as Hcal.
  destruct (turn_ok s fr p d0) as (R & d1 & d2 & E1 & E2 & Hr & _ & HpR & _ & Hkeys & _);
    [by rewrite Hg0|by rewrite Hg0|done|by eapply (ac_frame _ Ha)|intros o; eapply accounted_listed, accounted_quiet; done|by rewrite Hcal|].
  assert (regrouped (seen_close s p d) s d d2) as Hr2.
  { split; [etrans; [exact Hq0|apply Hr]|apply Hr|]. rewrite <- Hg0. eapply rtc_subrel; [|apply Hr]. intros A A'. apply regroup_mono.
    intros q o [-> Ho]. split; [done|]. exists f, fr. rewrite <- Hcal. done. }
  pose proof (rg_quiet _ _ _ _ Hr2) as Hq2.
  destruct (IH d2) as (d3 & E3 & Hr3 & Hp3).
  - apply Hr2. - apply Hkeys. by rewrite Hg0. - by eapply accounted_quiet. - by rewrite (q_calibration _ _ _ Hq2).
  - intros f' Hf'. setoid_rewrite (q_frames _ _ _ Hq2). apply Hl. by right.
  - exists d3. cbn [sfor]. split; [|split; [|done]].
    + rewrite (bind_Ok _ _ d tt d2); [done|]. by rewrite E, (bind_Ok _ _ _ _ _ E1).
    + eapply regrouped_trans; [done|]. eapply regrouped_mono; [|done]. intros q o. by apply seen_close_quiet.
Qed.

Lemma past_collisions_ok s p d :
  stable (groups_of s d) → is_Some (dget (groups_of s d) p) → accounted d → calibration_type d ≠ CARTESIAN →
  dmem (object_id_to_frames_map d) s = true →
  ∃ d', process_potential_collision_on_past_frames cfg iter_set p s d = (Ok tt, d') ∧ regrouped (seen_close s p d) s d d'.
Proof.
  intros Hst Hk Ha Hc Hm. unfold process_potential_collision_on_past_frames.
  assert (∃ refs, dget (object_id_to_frames_map d) s = Some refs) as [refs Hrefs]
    by (revert Hm; unfold dmem; destruct (dget _ s); [by eexists|done]).
  assert (refs_of s d = (Ok refs, d)) as E1 by (unfold refs_of, dsetdefault; rewrite Hrefs; by destruct d).
  rewrite (bind_Ok _ _ _ _ _ E1). destruct (dget refs p) as [l|] eqn:El; [|exists d; split; [done|by apply regrouped_refl]].
  assert (∀ f, f ∈ l → ∃ fr, nget (sensor_to_frames_map d) s f = Some fr ∧ is_Some (dget (fd_objects fr) p)) as Hl.
  { intros f Hf. apply (ac_refs _ Ha). exists l. split; [|done]. unfold nget. by rewrite Hrefs. }
  destruct (timestamps_ok s l d) as (keyed & d1 & E2 & Hkl & Hq1 & Hg1); [intros f Hf; destruct (Hl f Hf) as (fr & ? & _); by exists fr|].
  rewrite (bind_Ok _ _ _ _ _ E2).
  destruct (past_frames_ok s p (recent_frames cfg keyed) d1) as (d2 & E3 & Hr & _).
  - by rewrite Hg1. - by rewrite Hg1. - by eapply accounted_quiet. - by rewrite (q_calibration _ _ _ Hq1).
  - intros f Hf%recent_frames_sub. rewrite Hkl in Hf. setoid_rewrite (q_frames _ _ _ Hq1). by apply Hl.
  - exists d2. split; [done|]. split; [etrans; [done|apply Hr]|apply Hr|]. rewrite <- Hg1. eapply rtc_subrel; [|apply Hr].
    intros A A'. apply regroup_mono. intros q o. by apply seen_close_quiet.
Qed.
End groups.
