(* ===== verification/CollisionFrames.v ===== *)
(** * Collision detection: the frames of a sensor

    New frames, forgotten objects and old frames keep the account of references
    ([accounted]): a frame goes with its last object, and an object that is
    forgotten is in no frame. *)

From Stdlib Require Import ZArith Lia Floats.SpecFloat.
From stdpp Require Import base list strings gmap sets relations.
From S2P Require Import Prelude PyDict PyFloat PyNumber PyText PyIso PyVal Schema Crp Stop CollisionState Closeness Collision CollisionGroups.
Open Scope string_scope.
Open Scope list_scope.
Open Scope Z_scope.

Section frames.
Context {T : Type} (bearing : T → float).
Context (cfg : CollisionDetectionConfig) (clock : nat → datetime).

Abbreviation Detector := (CollisionDetection T).
Implicit Types (d : Detector) (s o : string) (f : Z) (fr : FrameData).

Abbreviation frame_at d s f := (nget (sensor_to_frames_map d) s f).
Abbreviation listed_in d s o := (nget (object_id_to_frames_map d) s o).

Lemma ddel_length {V} (m : dict string V) k : dict_wf m → is_Some (dget m k) → S (length (ddel m k)) = length m.
Proof.
  unfold ddel. intros Hw Hk. apply dget_is_Some in Hk. revert Hw Hk. unfold dict_wf, dkeys.
  induction m as [|[k' v] m IH]; csimpl; [by intros _ ?%elem_of_nil|]. intros [Hn Hw]%NoDup_cons Hk.
  rewrite filter_cons. cbn. destruct (decide (k' = k)) as [->|Hne].
  - rewrite decide_False by tauto. rewrite list_filter_all; [done|]. intros [k1 v1] Hin Heq. cbn in Heq. subst.
    apply Hn, list_elem_of_fmap. by exists (k, v1).
  - rewrite decide_True by done. cbn. rewrite IH; [done|done|]. by apply elem_of_cons in Hk as [<-|?].
Qed.

(** ** Forgetting an object *)

(** A frame without the object, if it has others *)
Definition without o fr : option FrameData :=
  let fr' := mk_FrameData (num_references fr - 1) (fd_timestamp fr) (fd_id fr) (ddel (fd_objects fr) o) in
  if num_references fr' <=? 0 then None else Some fr'.

Lemma release_lookup s o f m s' f' :
  nget (release_frame s o f m) s' f' = if decide (s = s' ∧ f = f') then nget m s f ≫= without o else nget m s' f'.
Proof.
  unfold release_frame, without. destruct (nget m s f) as [fr|] eqn:E; cbn.
  - case_match; rewrite ?nget_ndel, ?nget_nset; by case_decide.
  - case_decide as Hd; [|done]. by destruct Hd as [<- <-].
Qed.

Lemma releases_lookup s o l m s' f' :
  NoDup l →
  nget (foldl (λ m f, release_frame s o f m) m l) s' f' = if decide (s = s' ∧ f' ∈ l) then nget m s f' ≫= without o else nget m s' f'.
Proof.
  revert m. induction l as [|f l IH]; intros m Hnd; cbn.
  { rewrite decide_False; [done|]. by intros [_ ?%elem_of_nil]. }
  apply NoDup_cons in Hnd as [Hf Hnd]. rewrite IH by done. rewrite !release_lookup.
  destruct (decide (s = s')) as [<-|Hs].
  - destruct (decide (f' ∈ l)) as [Hl|Hl].
    + rewrite decide_True by done. rewrite decide_False by (intros [_ ->]; done). by rewrite decide_True by (split; [done|by right]).
    + rewrite decide_False by tauto. destruct (decide (f = f')) as [<-|Hne].
      * by rewrite !decide_True by (split; [done|]; try done; by left).
      * rewrite !decide_False; [done|intros [_ [?|?]%elem_of_cons]; done|tauto].
  - by rewrite !decide_False by tauto.
Qed.

Lemma release_wf s o f (m : dict string (dict Z FrameData)) : nested_wf m → nested_wf (release_frame s o f m).
Proof. intros Hm. unfold release_frame. repeat case_match; auto with pylib. Qed.
Lemma releases_wf s o l (m : dict string (dict Z FrameData)) : nested_wf m → nested_wf (foldl (λ m f, release_frame s o f m) m l).
Proof. revert m. induction l as [|f l IH]; intros m Hm; [done|]. by apply IH, release_wf. Qed.

Lemma remove_refs s o d s' o' :
  listed_in (remove_object_id s o d) s' o' = if decide (s = s' ∧ o = o') then None else listed_in d s' o'.
Proof.
  unfold remove_object_id. cbn. destruct (listed_in d s o) as [l|] eqn:E; cbn; [apply nget_ndel|].
  case_decide as Hd; [|done]. by destruct Hd as [<- <-].
Qed.
Lemma remove_frames s o d s' f :
  accounted d →
  frame_at (remove_object_id s o d) s' f =
  fr ← frame_at d s' f; if decide (s = s' ∧ is_Some (dget (fd_objects fr) o)) then without o fr else Some fr.
Proof.
  intros Ha. unfold remove_object_id. cbn.
  destruct (listed_in d s o) as [l|] eqn:E; cbn.
  - rewrite releases_lookup by (by eapply (ac_nodup _ Ha)).
    destruct (decide (s = s' ∧ f ∈ l)) as [[<- Hf]|Hn].
    + destruct (proj1 (ac_refs _ Ha s o f)) as (fr & Hfr & Ho); [by exists l|]. rewrite Hfr. cbn. by rewrite decide_True.
    + destruct (frame_at d s' f) as [fr|] eqn:Hfr; [|done]. cbn. rewrite decide_False; [done|]. intros [<- Ho].
      destruct (proj2 (ac_refs _ Ha s o f)) as (l' & Hl' & Hf); [by exists fr|]. apply Hn. by simplify_eq.
  - destruct (frame_at d s' f) as [fr|] eqn:Hfr; [|done]. cbn. rewrite decide_False; [done|]. intros [<- Ho].
    destruct (proj2 (ac_refs _ Ha s o f)) as (l' & Hl' & Hf); [by exists fr|]. by simplify_eq.
Qed.

Lemma without_some o fr fr' o' :
  dict_wf (fd_objects fr) → num_references fr = Z.of_nat (length (fd_objects fr)) → is_Some (dget (fd_objects fr) o) → without o fr = Some fr' →
  num_references fr' = Z.of_nat (length (fd_objects fr')) ∧ dict_wf (fd_objects fr') ∧ fd_timestamp fr' = fd_timestamp fr ∧
  dget (fd_objects fr') o' = if decide (o = o') then None else dget (fd_objects fr) o'.
Proof.
  intros Hw Hn Ho. unfold without. cbn. case_match; [done|]. intros [= <-]. cbn. pose proof (ddel_length _ _ Hw Ho). split_and!; [lia| |done|].
  - by apply dict_wf_ddel.
  - apply dget_ddel.
Qed.
Lemma without_none o fr o' :
  dict_wf (fd_objects fr) → num_references fr = Z.of_nat (length (fd_objects fr)) → is_Some (dget (fd_objects fr) o) → without o fr = None →
  is_Some (dget (fd_objects fr) o') → o' = o.
Proof.
  intros Hw Hn Ho. unfold without. cbn. case_match eqn:Hle; [|done]. intros _ [x Hx]. pose proof (ddel_length _ _ Hw Ho) as Hl. bool_lia.
  assert (length (ddel (fd_objects fr) o) = 0%nat) as Hz by lia. apply length_zero_iff_nil in Hz.
  destruct (decide (o = o')) as [|Hne]; [done|]. pose proof (dget_ddel_ne (fd_objects fr) o o' Hne) as Hd. rewrite Hz, Hx in Hd. done.
Qed.

(** An object that is forgotten leaves no frame and no reference behind, and the
    account stays right. *)
Lemma remove_accounted s o d : accounted d → accounted (remove_object_id s o d).
Proof.
  intros Ha. split.
  - unfold remove_object_id. cbn. destruct (listed_in d s o); cbn; [|apply Ha]. apply releases_wf, Ha.
  - unfold remove_object_id. cbn. destruct (listed_in d s o); cbn; [apply nested_wf_ndel|]; apply Ha.
  - intros s' f fr. rewrite remove_frames by done. destruct (frame_at d s' f) as [fr0|] eqn:E; [|done]. cbn.
    destruct (ac_frame _ Ha _ _ _ E) as (Hn & Hw & Hd & Hu). case_decide as Hc; [|by intros [= <-]]. destruct Hc as [_ Ho].
    intros Hfr. destruct (without_some o fr0 fr o Hw Hn Ho Hfr) as (H1 & H2 & H3 & _). split_and!; [done|done|by rewrite H3|].
    intros o'. destruct (without_some o fr0 fr o' Hw Hn Ho Hfr) as (_ & _ & _ & ->). case_decide; [by intros [? [=]]|apply Hu].
  - intros s' o' f. rewrite remove_refs. setoid_rewrite remove_frames; [|done].
    destruct (decide (s = s' ∧ o = o')) as [[<- <-]|Hne].
    + split; [by intros (l & [=] & _)|]. intros (fr & Hfr & Ho). exfalso.
      destruct (frame_at d s f) as [fr0|] eqn:E; [|done]. cbn in Hfr. destruct (ac_frame _ Ha _ _ _ E) as (Hn & Hw & _ & _).
      case_decide as Hc.
      * destruct (without_some o fr0 fr o Hw Hn (proj2 Hc) Hfr) as (_ & _ & _ & Hg). rewrite Hg, decide_True in Ho by done. by destruct Ho.
      * simplify_eq. tauto.
    + rewrite (ac_refs _ Ha). split; intros (fr0 & E & Ho').
      * rewrite E. cbn. destruct (ac_frame _ Ha _ _ _ E) as (Hn & Hw & _ & _). case_decide as Hc; [|by exists fr0]. destruct Hc as [<- Ho].
        destruct (without o fr0) as [fr|] eqn:Ew.
        -- exists fr. split; [done|]. destruct (without_some o fr0 fr o' Hw Hn Ho Ew) as (_ & _ & _ & ->). by rewrite decide_False by naive_solver.
        -- pose proof (without_none o fr0 o' Hw Hn Ho Ew Ho'). naive_solver.
      * destruct (frame_at d s' f) as [fr|] eqn:E2; [|done]. cbn in E. exists fr. split; [done|].
        destruct (ac_frame _ Ha _ _ _ E2) as (Hn & Hw & _ & _). case_decide as Hc; [|by simplify_eq]. destruct Hc as [<- Ho].
        destruct (without_some o fr fr0 o' Hw Hn Ho E) as (_ & _ & _ & Hg). rewrite Hg in Ho'. by case_decide; [destruct Ho'|].
  - intros s' o' l. rewrite remove_refs. case_decide; [done|]. apply Ha.
Qed.

(** ** The rest of the detector *)

Record inv d : Prop := {
  iv_stable s : stable (groups_of s d);
  iv_groups : dict_wf (potential_collision_map d);
  iv_accounted : accounted d;
  iv_calibration : calibration_type d ≠ CARTESIAN;
  iv_counter s c : dget (frame_ids d) s = Some c → 0 ≤ c < FRAME_ID_LIMIT;
  iv_timeouts : nested_wf (timeout_counter_map d);
  iv_alerts : nested_wf (alert_list d);
}.

Lemma remove_groups s o d s' :
  groups_of s' (remove_object_id s o d) = if decide (s = s') then ddel (groups_of s' d) o else groups_of s' d.
Proof.
  unfold remove_object_id, groups_of. cbn. assert (∀ m, default [] (dget (ndel m s o : dict string (dict string (CollisionState T))) s') =
    if decide (s = s') then ddel (default [] (dget m s')) o else default [] (dget m s')) as H.
  { intros m. unfold ndel. destruct (dget m s) as [gs|] eqn:E.
    - rewrite dget_dset. case_decide; [subst; by rewrite E|done].
    - case_decide; [subst; by rewrite E|done]. }
  destruct (listed_in d s o); cbn; apply H.
Qed.
Lemma stable_ddel (gs : dict string (CollisionState T)) o : stable gs → stable (ddel gs o).
Proof.
  intros Hs. split; [by apply dict_wf_ddel, Hs| |].
  - intros q cs. rewrite dget_ddel. case_decide; [done|apply Hs].
  - intros q1 q2 cs1 cs2 x. rewrite !dget_ddel. do 2 (case_decide; [done|]). apply Hs.
Qed.
Lemma stable_nil : stable ([] : dict string (CollisionState T)).
Proof. by split; [constructor|..]. Qed.

Lemma remove_calibration s o d : calibration_type (remove_object_id s o d) = calibration_type d.
Proof. unfold remove_object_id. cbn. by destruct (listed_in d s o). Qed.
Lemma remove_counters s o d : frame_ids (remove_object_id s o d) = frame_ids d.
Proof. unfold remove_object_id. cbn. by destruct (listed_in d s o). Qed.
Lemma remove_alerts s o d : alert_list (remove_object_id s o d) = alert_list d.
Proof. unfold remove_object_id. cbn. by destruct (listed_in d s o). Qed.
Lemma remove_timeouts s o d : timeout_counter_map (remove_object_id s o d) = ndel (timeout_counter_map d) s o.
Proof. unfold remove_object_id. cbn. by destruct (listed_in d s o). Qed.
Lemma remove_behaviors s o d : object_id_to_behavior_map (remove_object_id s o d) = ndel (object_id_to_behavior_map d) s o.
Proof. unfold remove_object_id. cbn. by destruct (listed_in d s o). Qed.

Lemma remove_inv s o d : inv d → inv (remove_object_id s o d).
Proof.
  intros []. split.
  - intros s'. rewrite remove_groups. case_decide; [by apply stable_ddel|done].
  - unfold remove_object_id. cbn. assert (dict_wf (ndel (potential_collision_map d) s o)) as H by (unfold ndel; case_match; [by apply dict_wf_dset|done]).
    by destruct (listed_in d s o).
  - by apply remove_accounted.
  - by rewrite remove_calibration.
  - by rewrite remove_counters.
  - rewrite remove_timeouts. auto with pylib.
  - by rewrite remove_alerts.
Qed.
Lemma removes_inv s l d : inv d → inv (foldl (λ d o, remove_object_id s o d) d l).
Proof. revert d. induction l as [|o l IH]; intros d Hd; [done|]. by apply IH, remove_inv. Qed.

(** No trace of the object: no frame, reference, group, timer or behavior *)
Record forgotten s o d : Prop := {
  fg_timeout : nget (timeout_counter_map d) s o = None;
  fg_group : dget (groups_of s d) o = None;
  fg_refs : listed_in d s o = None;
  fg_frames f fr : frame_at d s f = Some fr → dget (fd_objects fr) o = None;
  fg_behavior : nget (object_id_to_behavior_map d) s o = None;
}.
Lemma no_refs_no_frames s o d f fr : accounted d → listed_in d s o = None → frame_at d s f = Some fr → dget (fd_objects fr) o = None.
Proof.
  intros Ha Hn Hf. destruct (dget (fd_objects fr) o) as [x|] eqn:E; [|done]. exfalso.
  destruct (proj2 (ac_refs _ Ha s o f)) as (l & Hl & _); [exists fr; split; [done|by exists x]|]. by simplify_eq.
Qed.
Lemma remove_forgets s o d : inv d → forgotten s o (remove_object_id s o d).
Proof.
  intros Hd. split.
  - rewrite remove_timeouts, nget_ndel. by rewrite decide_True.
  - rewrite remove_groups, decide_True by done. apply dget_ddel_eq.
  - rewrite remove_refs. by rewrite decide_True.
  - intros f fr. apply no_refs_no_frames; [apply remove_accounted, Hd|]. rewrite remove_refs. by rewrite decide_True.
  - rewrite remove_behaviors, nget_ndel. by rewrite decide_True.
Qed.
Lemma remove_keeps_forgotten s o s' o' d : inv d → forgotten s o d → forgotten s o (remove_object_id s' o' d).
Proof.
  intros Hd []. assert (listed_in (remove_object_id s' o' d) s o = None) as Hr by (rewrite remove_refs; by case_decide).
  split; [| |done| |].
  - rewrite remove_timeouts, nget_ndel. by case_decide.
  - rewrite remove_groups. case_decide; [|done]. rewrite dget_ddel. by case_decide.
  - intros f fr. by apply no_refs_no_frames; [apply remove_accounted, Hd|].
  - rewrite remove_behaviors, nget_ndel. by case_decide.
Qed.
Lemma removes_forget s l o d : inv d → forgotten s o d ∨ o ∈ l → forgotten s o (foldl (λ d o, remove_object_id s o d) d l).
Proof.
  revert d. induction l as [|x l IH]; intros d Hd Ho; [destruct Ho as [?|?%elem_of_nil]; done|]. cbn. apply IH; [by apply remove_inv|].
  destruct Ho as [Ho|[->|Ho]%elem_of_cons]; [left; by apply remove_keeps_forgotten|left; by apply remove_forgets|by right].
Qed.

(** ** Dropping an old frame *)

Lemma unreferences_lookup s f l (m : dict string (dict string (list Z))) s' o :
  NoDup l → (∀ ids, nget m s o = Some ids → NoDup ids) →
  nget (foldl (unreference s f) m l) s' o = if decide (s = s' ∧ o ∈ l) then py_remove f <$> nget m s o else nget m s' o.
Proof.
  revert m. induction l as [|x l IH]; intros m Hnd Hm; cbn; [rewrite decide_False; [done|by intros [_ ?%elem_of_nil]]|].
  apply NoDup_cons in Hnd as [Hx Hnd].
  assert (∀ s0 o0, nget (unreference s f m x) s0 o0 = if decide (s = s0 ∧ x = o0) then py_remove f <$> nget m s x else nget m s0 o0) as Hu.
  { intros s0 o0. unfold unreference. destruct (nget m s x) as [ids|] eqn:E; [by rewrite nget_nset|].
    destruct (decide (s = s0 ∧ x = o0)) as [[<- <-]|_]; [by rewrite E|done]. }
  rewrite IH; [|done|].
  2: { intros ids. rewrite Hu. destruct (decide (s = s ∧ x = o)) as [[_ ->]|_]; [|apply Hm]. destruct (nget m s o) as [i|] eqn:E; [|done].
       intros [= <-]. by apply py_remove_NoDup, Hm. }
  rewrite !Hu. destruct (decide (s = s')) as [<-|Hs]; [|by rewrite !decide_False by tauto].
  destruct (decide (o ∈ l)) as [Hl|Hl].
  - rewrite decide_True by done. rewrite decide_False by (intros [_ ->]; done). by rewrite decide_True by (split; [done|by right]).
  - rewrite (decide_False (P := s = s ∧ o ∈ l)) by tauto. destruct (decide (x = o)) as [<-|Hne].
    + by rewrite !decide_True by (split; [done|]; try done; by left).
    + rewrite !decide_False; [done|intros [_ [?|?]%elem_of_cons]; done|tauto].
Qed.

Lemma unreferences_wf s f l (m : dict string (dict string (list Z))) : nested_wf m → nested_wf (foldl (unreference s f) m l).
Proof.
  revert m. induction l as [|x l IH]; intros m Hm; [done|]. apply IH. unfold unreference. case_match; auto with pylib.
Qed.

Lemma frame_objects d s f fr : accounted d → frame_at d s f = Some fr →
  let l := filter (λ k, starts_with_underscore k = false) (dkeys (fd_objects fr)) in
  NoDup l ∧ ∀ o, o ∈ l ↔ is_Some (dget (fd_objects fr) o).
Proof.
  intros Ha Hf l. destruct (ac_frame _ Ha _ _ _ Hf) as (_ & Hw & _ & Hu). split; [by apply NoDup_filter|].
  intros o. unfold l. rewrite list_elem_of_filter, dget_is_Some. split; [tauto|]. intros Ho. split; [|done]. by apply Hu, dget_is_Some.
Qed.

Lemma drop_frames s f d s' f' : frame_at (drop_frame s f d) s' f' = if decide (s = s' ∧ f = f') then None else frame_at d s' f'.
Proof.
  unfold drop_frame. destruct (frame_at d s f) as [fr|] eqn:E; cbn; [apply nget_ndel|].
  case_decide as Hd; [|done]. by destruct Hd as [<- <-].
Qed.

Lemma drop_accounted s f d : accounted d → accounted (drop_frame s f d).
Proof.
  intros Ha. unfold drop_frame. destruct (frame_at d s f) as [fr|] eqn:E; [|done].
  destruct (frame_objects _ _ _ _ Ha E) as [Hnd Hin]. set (l := filter _ _) in *.
  assert (∀ s' o, nget (foldl (unreference s f) (object_id_to_frames_map d) l) s' o =
    if decide (s = s' ∧ o ∈ l) then py_remove f <$> listed_in d s o else listed_in d s' o) as Hl.
  { intros s' o. apply unreferences_lookup; [done|]. intros ids. apply Ha. }
  split; cbn.
  - apply nested_wf_ndel, Ha.
  - apply unreferences_wf, Ha.
  - intros s' f' fr'. rewrite nget_ndel. case_decide; [done|]. apply Ha.
  - intros s' o f'. rewrite Hl. setoid_rewrite nget_ndel. split.
    + intros (ids & Hids & Hf'). destruct (decide (s = s' ∧ o ∈ l)) as [Hd|Hd].
      * destruct Hd as [<- Ho]. destruct (listed_in d s o) as [ids0|] eqn:E0; [|done]. injection Hids as <-.
        apply py_remove_elem in Hf' as [Hne Hf']; [|by eapply (ac_nodup _ Ha)].
        rewrite decide_False by naive_solver. apply (ac_refs _ Ha). by exists ids0.
      * destruct (proj1 (ac_refs _ Ha s' o f')) as (fr' & Hfr' & Ho); [by exists ids|]. rewrite decide_False; [by exists fr'|].
        intros [<- <-]. simplify_eq. apply Hd. split; [done|]. by apply Hin.
    + intros (fr' & Hfr' & Ho). destruct (decide (s = s' ∧ f = f')) as [|Hff]; [done|].
      destruct (proj2 (ac_refs _ Ha s' o f')) as (ids & Hids & Hf'); [by exists fr'|]. destruct (decide (s = s' ∧ o ∈ l)) as [Hd|Hd]; [|by exists ids].
      destruct Hd as [<- Hol]. rewrite Hids. cbn. eexists. split; [done|]. apply py_remove_elem; [by eapply (ac_nodup _ Ha)|]. split; [|done].
      intros ->. by apply Hff.
  - intros s' o ids. rewrite Hl. case_decide as Hd; [|apply Ha]. destruct (listed_in d s o) as [ids0|] eqn:E0; [|done].
    intros [= <-]. eapply py_remove_NoDup, Ha. done.
Qed.

Lemma drop_inv s f d : inv d → inv (drop_frame s f d).
Proof.
  intros []. split; [| |by apply drop_accounted|..]; unfold drop_frame; by destruct (frame_at d s f).
Qed.
Lemma drops_inv s l d : inv d → inv (foldl (λ d f, drop_frame s f d) d l).
Proof. revert d. induction l as [|f l IH]; intros d Hd; [done|]. by apply IH, drop_inv. Qed.

(** ** A new frame *)

(** The objects of a frame that are tracked *)
Definition target (message : Message) : option string :=
  obj ← ms_object message; if bool_decide (ob_type obj ∈ targetClasses cfg) then Some (ob_id obj) else None.
Definition targets (frame : list Message) : list string := omap target frame.

(** A frame as the service makes them: its first timestamp is a date, it shows an
    object once, and no object is named like an internal key. *)
Record proper (frame : list Message) : Prop := {
  pp_time : ∃ first t, head frame = Some first ∧ iso_to_epoch (ms_timestamp first) = Ok t ∧ dated t = true;
  pp_once : NoDup (targets frame);
  pp_names o : o ∈ targets frame → starts_with_underscore o = false;
}.

(** What reading the messages of a frame leaves alone *)
Record reading (s : string) f (ids : list string) d d' : Prop := {
  rd_groups : potential_collision_map d' = potential_collision_map d;
  rd_frames : sensor_to_frames_map d' = sensor_to_frames_map d;
  rd_counters : frame_ids d' = frame_ids d;
  rd_alerts : alert_list d' = alert_list d;
  rd_readings : (readings d ≤ readings d')%nat;
  rd_behaviors : object_id_to_behavior_map d' = object_id_to_behavior_map d;
  rd_calibration : calibration_type d ≠ CARTESIAN → calibration_type d' ≠ CARTESIAN;
  rd_refs s' o : listed_in d' s' o = if decide (s = s' ∧ o ∈ ids) then Some (default [] (listed_in d s o) ++ [f]) else listed_in d s' o;
  rd_refs_wf : nested_wf (object_id_to_frames_map d) → nested_wf (object_id_to_frames_map d');
  rd_timeouts_wf : nested_wf (timeout_counter_map d) → nested_wf (timeout_counter_map d');
}.
Lemma reading_nil s f d : reading s f [] d d.
Proof. split; try done. intros s' o. rewrite decide_False; [done|]. by intros [_ ?%elem_of_nil]. Qed.
Lemma reading_cons s f o ids d d1 d2 : (o ∉ ids) → reading s f [o] d d1 → reading s f ids d1 d2 → reading s f (o :: ids) d d2.
Proof.
  intros Ho [] []. split; intros; try congruence; eauto; [lia|]. rewrite rd_refs1, !rd_refs0. destruct (decide (s = s')) as [<-|Hs].
  - destruct (decide (o0 ∈ ids)) as [Hi|Hi].
    + rewrite (decide_True (P := s = s ∧ o0 ∈ ids)), (decide_False (P := s = s ∧ o0 ∈ [o])), (decide_True (P := s = s ∧ o0 ∈ o :: ids));
        [done|split; [done|by right]|intros [_ ->%list_elem_of_singleton]; done|done].
    + rewrite (decide_False (P := s = s ∧ o0 ∈ ids)) by tauto. destruct (decide (o0 = o)) as [->|Hne].
      * by rewrite !decide_True by (split; [done|by left]).
      * rewrite !decide_False; [done|intros [_ [?|?]%elem_of_cons]; done|intros [_ ?%list_elem_of_singleton]; done].
  - by rewrite !decide_False by tauto.
Qed.

(** The frame under construction: its objects so far, in order *)
Definition holds (acc : FrameData * list string) (ids : list string) : Prop :=
  dkeys (fd_objects acc.1) = ids ∧ acc.2 = ids ∧ num_references acc.1 = Z.of_nat (length (fd_objects acc.1)).

Lemma parse_object_ok obj d : ∃ x d', parse_object obj d = (Ok x, d') ∧ (d' = d ∨ d' = set_calibration IMAGE d).
Proof.
  unfold parse_object. destruct (match ob_location obj with Some l => (lat l, lon l) | None => (f0, f0) end) as [lat0 lon0].
  case_match; [by exists (lat0, lon0, true), d; auto|]. destruct (center (ob_bbox obj)) as [x y].
  exists (x, y, false), (set_calibration IMAGE d). auto.
Qed.

Lemma add_message_ok s f acc ids message d :
  holds acc ids → (∀ o, target message = Some o → o ∉ ids) →
  let new := match target message with Some o => [o] | None => [] end in
  ∃ acc' d', add_message bearing cfg clock s f acc message d = (Ok acc', d') ∧ reading s f new d d' ∧ holds acc' (ids ++ new) ∧
    fd_timestamp acc'.1 = fd_timestamp acc.1.
Proof.
  intros (Hk & Hp & Hn) Hnew. unfold target in *. unfold add_message. destruct (ms_object message) as [obj|]; cbn in *.
  2: { exists acc, d. rewrite app_nil_r. split_and!; [done|apply reading_nil|done|done]. }
  case_bool_decide as Ht; cbn; [|exists acc, d; rewrite app_nil_r; split_and!; [done|apply reading_nil|done|done]].
  destruct (parse_object_ok obj d) as ([[x y] geo] & d1 & E1 & Hd1). rewrite (bind_Ok _ _ _ _ _ E1).
  specialize (Hnew (ob_id obj) eq_refl). eexists _, _. split; [done|]. split_and!.
  - assert (∀ (m : dict string (dict string (list Z))) s' o, nget (nset m s (ob_id obj) (default [] (nget m s (ob_id obj)) ++ [f])) s' o =
      if decide (s = s' ∧ o ∈ [ob_id obj]) then Some (default [] (nget m s o) ++ [f]) else nget m s' o) as Hm.
    { intros m s' o. rewrite nget_nset. destruct (decide (s = s' ∧ ob_id obj = o)) as [[<- <-]|Hne].
      - by rewrite decide_True by (split; [done|by left]).
      - rewrite decide_False; [done|]. intros [<- ->%list_elem_of_singleton]. by apply Hne. }
    destruct Hd1 as [-> | ->]; split; cbn; try done; auto with pylib; lia.
  - unfold holds. cbn. rewrite <- Hk in Hnew. rewrite dset_fresh by done. unfold dkeys in *. rewrite fmap_app, Hk. cbn.
    split_and!; [done| |rewrite length_app; cbn; lia]. unfold set_add. rewrite bool_decide_false; by rewrite Hp, <- Hk in *.
  - done.
Qed.

Lemma add_messages_ok s f frame acc ids d :
  holds acc ids → NoDup (ids ++ targets frame) →
  ∃ acc' d', add_messages bearing cfg clock s f acc frame d = (Ok acc', d') ∧ reading s f (targets frame) d d' ∧
    holds acc' (ids ++ targets frame) ∧ fd_timestamp acc'.1 = fd_timestamp acc.1.
Proof.
  revert acc ids d. induction frame as [|message frame IH]; intros acc ids d Ha Hnd.
  { exists acc, d. cbn. rewrite app_nil_r. split_and!; [done|apply reading_nil|done|done]. }
  assert (targets (message :: frame) = match target message with Some o => [o] | None => [] end ++ targets frame) as Ht
    by (unfold targets; csimpl; by destruct (target message)).
  rewrite Ht in *. destruct (add_message_ok s f acc ids message d Ha) as (acc1 & d1 & E1 & R1 & Ha1 & Hts1).
  { intros o Ho. rewrite Ho in Hnd. apply NoDup_app in Hnd as (_ & Hd & _). intros Hin. apply (Hd o Hin). by left. }
  cbn [add_messages]. rewrite (bind_Ok _ _ _ _ _ E1). rewrite (assoc_L (++)) in Hnd.
  destruct (IH acc1 _ d1 Ha1 Hnd) as (acc2 & d2 & E2 & R2 & Ha2 & Hts2). exists acc2, d2. split; [done|]. rewrite (assoc_L (++)).
  split_and!; [|done|congruence]. destruct (target message) as [o|]; cbn in *; [|].
  - apply (reading_cons _ _ _ _ _ d1); [|done|done]. apply NoDup_app in Hnd as (_ & Hd & _). apply Hd. set_solver.
  - destruct R1, R2. split; intros; try congruence; eauto; [lia|]. rewrite rd_refs1, !rd_refs0.
    rewrite !(decide_False (P := _ ∧ _ ∈ [])); [done|..]; by intros [_ ?%elem_of_nil].
Qed.

(** The number the next frame of a sensor gets, and that the next [n] are free: the
    numbers wrap around at [FRAME_ID_LIMIT] *)
Definition next_id s d : Z := default 0 (dget (frame_ids d) s).
Definition room s (n : nat) d : Prop :=
  Z.of_nat n ≤ FRAME_ID_LIMIT ∧ ∀ i, 0 ≤ i < Z.of_nat n → frame_at d s ((next_id s d + i) mod FRAME_ID_LIMIT) = None.

Lemma next_id_range s d : inv d → 0 ≤ next_id s d < FRAME_ID_LIMIT.
Proof. intros Hd. unfold next_id. destruct (dget (frame_ids d) s) as [c|] eqn:E; [by eapply iv_counter|done]. Qed.

(** What a new frame does *)
Record framed s (fr : FrameData) d d' : Prop := {
  fm_readings : (readings d ≤ readings d')%nat;
  fm_groups : potential_collision_map d' = potential_collision_map d;
  fm_frames s' f : frame_at d' s' f = if decide (s = s' ∧ next_id s d = f) then Some fr else frame_at d s' f;
  fm_next s' : next_id s' d' = if decide (s = s') then (next_id s d + 1) mod FRAME_ID_LIMIT else next_id s' d;
}.

Lemma framed_room s fr d d' n : inv d → framed s fr d d' → room s (S n) d → room s n d'.
Proof.
  intros Hd [_ _ Hf Hn] [Hle Hr]. pose proof (next_id_range s d Hd) as Hc. unfold room, FRAME_ID_LIMIT in *. split; [lia|].
  intros i Hi. rewrite Hn, decide_True by done. rewrite Z.add_mod_idemp_l by done.
  replace (next_id s d + 1 + i) with (next_id s d + (i + 1)) by lia.
  rewrite Hf, decide_False; [apply Hr; lia|]. intros [_ Heq].
  pose proof (Z.div_mod (next_id s d + (i + 1)) 1000000 ltac:(done)) as Hdm. lia.
Qed.
Lemma framed_room_other s s' fr d d' n : framed s fr d d' → s ≠ s' → room s' n d → room s' n d'.
Proof.
  intros [_ _ Hf Hn] Hs [Hle Hr]. split; [done|]. intros i Hi. rewrite Hf, Hn, (decide_False (P := s = s')), decide_False; [by apply Hr|by intros [? _]|done].
Qed.

Lemma update_frame_ok s frame id d :
  inv d → proper frame → frame_at d s (next_id s d) = None →
  ∃ present fr d', update_frame bearing cfg clock s frame id d = (Ok (present, fr), d') ∧ framed s fr d d' ∧ inv d' ∧
    dkeys (fd_objects fr) = targets frame ∧ present = targets frame ∧ dated (fd_timestamp fr) = true.
Proof.
  intros Hd [(first & t & Hfirst & Ht & Hdt) Hnd Hnames] Hfree. unfold update_frame.
  rewrite (bind_lift _ _ _ first), (bind_lift _ _ _ t) by (by rewrite ?Hfirst).
  set (d1 := set_counters (set_once (frame_ids d) s 0) (set_timeouts (open_sensor (timeout_counter_map d) s) d)).
  change ((_ ← smod (λ d0, set_timeouts (open_sensor (timeout_counter_map d0) s) d0);
           _ ← smod (λ d0, set_counters (set_once (frame_ids d0) s 0) d0); ?k) d) with (k d1).
  rewrite bind_get. assert (dget (frame_ids d1) s = Some (next_id s d)) as Hc1.
  { cbn. rewrite set_once_get. unfold next_id. destruct (dget (frame_ids d) s); [done|]. by rewrite decide_True. }
  rewrite (bind_lift _ _ _ (next_id s d)) by (by rewrite Hc1).
  destruct (add_messages_ok s (next_id s d) frame (mk_FrameData 0 t id [], []) [] d1) as ([fr present] & d2 & E2 & R2 & (Hk & Hp & Hn) & Hts); [done|done|].
  rewrite (bind_Ok _ _ _ _ _ E2). cbn [fst snd app] in *.
  set (d3 := set_frames (nset (sensor_to_frames_map d2) s (next_id s d) fr) d2).
  change ((_ ← smod _; ?k) d2) with (k d3). rewrite bind_get.
  assert (frame_ids d2 = set_once (frame_ids d) s 0) as Hc2 by apply (rd_counters _ _ _ _ _ R2).
  rewrite (bind_lift _ _ _ (next_id s d)) by (unfold d3; cbn [frame_ids set_frames]; rewrite (rd_counters _ _ _ _ _ R2); by rewrite Hc1).
  eexists _, _, _. split; [done|]. unfold d3.
  assert (∀ s' f, nget (nset (sensor_to_frames_map d2) s (next_id s d) fr) s' f = if decide (s = s' ∧ next_id s d = f) then Some fr else frame_at d s' f) as Hfr.
  { intros s' f. rewrite nget_nset. by rewrite (rd_frames _ _ _ _ _ R2). }
  assert (∀ s', default 0 (dget (dset (frame_ids d2) s ((next_id s d + 1) mod FRAME_ID_LIMIT)) s') =
    if decide (s = s') then (next_id s d + 1) mod FRAME_ID_LIMIT else next_id s' d) as Hnext.
  { intros s'. rewrite dget_dset. case_decide; [done|]. rewrite Hc2, set_once_get, decide_False by done. unfold next_id. by destruct (dget _ s'). }
  assert (∀ s' o, listed_in d2 s' o = if decide (s = s' ∧ o ∈ targets frame) then Some (default [] (listed_in d s o) ++ [next_id s d]) else listed_in d s' o)
    as Hrefs by apply (rd_refs _ _ _ _ _ R2).
  assert (NoDup (targets frame)) as Hnd' by done.
  split_and!; [split; cbn; [apply (rd_readings _ _ _ _ _ R2)|by rewrite (rd_groups _ _ _ _ _ R2)|apply Hfr|apply Hnext]| |done|done|by rewrite Hts].
  destruct Hd as [I1 I2 Ha I4 I5 I6 I7]. split; cbn.
  - intros s'. unfold groups_of. cbn. rewrite (rd_groups _ _ _ _ _ R2). apply I1.
  - by rewrite (rd_groups _ _ _ _ _ R2).
  - assert (∀ s' o f, (∃ l, listed_in d s' o = Some l ∧ f ∈ l) → ¬ (s = s' ∧ next_id s d = f)) as Hold.
    { intros s' o f Hl [<- <-]. apply (ac_refs _ Ha) in Hl as (fr0 & Hfr0 & _). congruence. }
    split; cbn.
    + apply nested_wf_nset. rewrite (rd_frames _ _ _ _ _ R2). apply Ha.
    + apply (rd_refs_wf _ _ _ _ _ R2), Ha.
    + intros s' f fr'. rewrite Hfr. destruct (decide (s = s' ∧ next_id s d = f)); [|apply Ha]. intros [= <-].
      split_and!; [done|unfold dict_wf; by rewrite Hk|by rewrite Hts|]. intros o Ho%dget_is_Some. rewrite Hk in Ho. by apply Hnames.
    + intros s' o f. setoid_rewrite Hfr. rewrite Hrefs. destruct (decide (s = s' ∧ next_id s d = f)) as [[<- <-]|Hne].
      * split.
        -- intros (l & Hl & Hf). exists fr. split; [done|]. apply dget_is_Some. rewrite Hk.
           destruct (decide (s = s ∧ o ∈ targets frame)) as [[_ ?]|]; [done|]. exfalso. eapply Hold; [by exists l|done].
        -- intros (fr' & [= <-] & Ho%dget_is_Some). rewrite Hk in Ho. rewrite decide_True by done. eexists. split; [done|]. set_solver.
      * rewrite <- (ac_refs _ Ha). destruct (decide (s = s' ∧ o ∈ targets frame)) as [[<- Ho]|]; [|done]. split.
        -- intros (l & [= <-] & Hf). apply elem_of_app in Hf as [Hf|Hf%list_elem_of_singleton]; [|subst; tauto].
           destruct (listed_in d s o) as [l0|]; [by exists l0|by apply elem_of_nil in Hf].
        -- intros (l & Hl & Hf). rewrite Hl. eexists. split; [done|]. cbn. set_solver.
    + intros s' o l. rewrite Hrefs. destruct (decide (s = s' ∧ o ∈ targets frame)) as [[<- Ho]|]; [|apply Ha]. intros [= <-].
      destruct (listed_in d s o) as [l0|] eqn:E0; [|apply NoDup_singleton]. apply NoDup_app. split_and!; [by eapply (ac_nodup _ Ha)| |apply NoDup_singleton].
      intros f Hf ->%list_elem_of_singleton. eapply Hold; [by exists l0|done].
  - apply (rd_calibration _ _ _ _ _ R2). done.
  - intros s' c Hcc. pose proof (Hnext s') as Hx. rewrite Hcc in Hx. cbn in Hx. subst c. case_decide.
    + apply Z.mod_pos_bound. done.
    + unfold next_id. destruct (dget (frame_ids d) s') eqn:E; [by eapply I5|done].
  - apply (rd_timeouts_wf _ _ _ _ _ R2). unfold d1, open_sensor, set_once. cbn. case_match; [done|]. apply nested_wf_dset; [done|constructor].
  - by rewrite (rd_alerts _ _ _ _ _ R2).
Qed.

(** ** Cleaning up *)

Definition tick (n : nat) d : Detector :=
  mk_CollisionDetection (potential_collision_map d) (sensor_to_frames_map d) (object_id_to_frames_map d)
    (timeout_counter_map d) (frame_ids d) (alert_list d) (object_id_to_behavior_map d) (calibration_type d) n.
Lemma tick_inv n d : inv d → inv (tick n d).
Proof. intros []. split; try done. destruct iv_accounted0. by split. Qed.

Lemma bind_now {B} (c : datetime → stM Detector B) d : (now clock ≫= c) d = c (clock (readings d)) (tick (S (readings d)) d).
Proof. done. Qed.

(** The entry at position [i] is tested at the [i]-th reading from here. *)
Lemma select_ok {K V} `{EqDecision K} (test : datetime → K → V → Detector → result bool) (l : dict K V) d :
  dict_wf l → (∀ n m k v, (k, v) ∈ l → is_ok (test (clock n) k v (tick m d))) →
  (∀ t k v m, test t k v (tick m d) = test t k v d) →
  ∃ ks m, select_by_clock clock test l d = (Ok ks, tick m d) ∧ (readings d ≤ m)%nat ∧ NoDup ks ∧ (∀ k, k ∈ ks → k ∈ dkeys l) ∧
    ∀ k v, (k, v) ∈ l → ∃ n, (readings d ≤ n < m)%nat ∧ (k ∈ ks ↔ test (clock n) k v d = Ok true).
Proof.
  revert d. induction l as [|[k v] l IH]; intros d Hw Hok Hsame.
  { exists [], (readings d). split_and!; [by destruct d|done|by apply NoDup_nil|by intros k ?%elem_of_nil|by intros k v ?%elem_of_nil]. }
  apply NoDup_cons in Hw as [Hk Hw]. cbn [select_by_clock].
  rewrite bind_now, bind_get.
  pose proof (Hok (readings d) (S (readings d)) k v ltac:(by left)) as Hb. rewrite Hsame in Hb.
  destruct (test (clock (readings d)) k v d) as [b|e] eqn:Eb; [|done].
  rewrite (bind_lift _ _ _ b) by (by rewrite Hsame).
  destruct (IH (tick (S (readings d)) d) Hw) as (ks & m & E & Hm & Hnd & Hks & Ht).
  { intros n m k' v' Hin. apply (Hok n m). by right. } { intros t k' v' m. rewrite Hsame. apply (Hsame t k' v' m). }
  rewrite (bind_Ok _ _ _ _ _ E). cbn in Hm. assert (k ∉ ks) as Hnk by (intros ?%Hks; done).
  exists (if b then k :: ks else ks), m. split; [done|]. split_and!; [lia|destruct b; [by apply NoDup_cons|done]| |].
  - intros k' Hin. assert (k' = k ∨ k' ∈ ks) as [->|Hin'] by (destruct b; [by apply elem_of_cons in Hin|by right]).
    + by left.
    + right. by apply Hks.
  - intros k' v' [[= -> ->]|Hin]%elem_of_cons.
    + exists (readings d). split; [lia|]. rewrite Eb. destruct b; [split; [done|by left]|by split].
    + destruct (Ht k' v' Hin) as (n & Hn & Hiff). exists n. cbn in Hn. split; [lia|].
      assert (k' ≠ k) as Hne by (intros ->; apply Hk, list_elem_of_fmap; by exists (k, v')).
      assert (test (clock n) k' v' (tick (S (readings d)) d) = test (clock n) k' v' d) as Hs by apply Hsame. rewrite Hs in Hiff.
      rewrite <- Hiff. destruct b; [|done]. rewrite elem_of_cons. naive_solver.
Qed.

Context (clock_ok : ∀ n, is_ok (iso_to_epoch (clock n)) = true).

(** Left after the cleanup: what a reading during it found to be young *)
Definition young_frames (n0 n1 : nat) s d : Prop := ∀ f fr, frame_at d s f = Some fr →
  ∃ n, (n0 ≤ n < n1)%nat ∧ frame_timed_out (clock n) f fr d = Ok false.
Definition young_alerts (n0 n1 : nat) s d : Prop := ∀ o t, nget (alert_list d) s o = Some t →
  ∃ n, (n0 ≤ n < n1)%nat ∧ alert_timed_out cfg (clock n) o t d = Ok false.
Definition live_objects (n0 n1 : nat) s d : Prop := ∀ o t, nget (timeout_counter_map d) s o = Some t →
  ∃ n, (n0 ≤ n < n1)%nat ∧ (fgeZ (total_seconds (clock n - t)) TIMEOUT_THRESHOLD = false ∨ check_is_in_potential_collision o s d ≠ None).

Lemma frame_test_ok n f fr d : ∃ b, frame_timed_out (clock n) f fr d = Ok b.
Proof.
  unfold frame_timed_out. pose proof (clock_ok n) as Hc. destruct (iso_to_epoch (clock n)) as [ms|]; [|done]. by eexists.
Qed.

Lemma drops_frames s l d s' f : frame_at (foldl (λ d f, drop_frame s f d) d l) s' f = if decide (s = s' ∧ f ∈ l) then None else frame_at d s' f.
Proof.
  revert d. induction l as [|x l IH]; intros d; cbn; [rewrite decide_False; [done|by intros [_ ?%elem_of_nil]]|].
  rewrite IH, drop_frames. destruct (decide (s = s')) as [<-|Hs]; [|by rewrite !decide_False by tauto].
  destruct (decide (f ∈ l)) as [Hl|Hl].
  - by rewrite !decide_True by (split; [done|]; try done; by right).
  - rewrite (decide_False (P := s = s ∧ f ∈ l)) by tauto. destruct (decide (x = f)) as [->|Hne].
    + by rewrite !decide_True by (split; [done|]; try done; by left).
    + rewrite !decide_False; [done|intros [_ [?|?]%elem_of_cons]; congruence|tauto].
Qed.
Lemma drops_rest s l d : let d' := foldl (λ d f, drop_frame s f d) d l in
  potential_collision_map d' = potential_collision_map d ∧ alert_list d' = alert_list d ∧ timeout_counter_map d' = timeout_counter_map d ∧ readings d' = readings d.
Proof.
  cbn zeta. revert d. induction l as [|x l IH]; intros d; [done|]. cbn. destruct (IH (drop_frame s x d)) as (-> & -> & -> & ->).
  unfold drop_frame. by destruct (frame_at d s x).
Qed.

Lemma cleanup_frames_ok s d :
  inv d → ∃ d', cleanup_frames clock s d = (Ok tt, d') ∧ inv d' ∧ (readings d ≤ readings d')%nat ∧
    young_frames (readings d) (readings d') s d' ∧ (∀ s' f, s' ≠ s → frame_at d' s' f = frame_at d s' f) ∧
    (∀ s' f fr, frame_at d' s' f = Some fr → frame_at d s' f = Some fr) ∧
    potential_collision_map d' = potential_collision_map d ∧ alert_list d' = alert_list d ∧ timeout_counter_map d' = timeout_counter_map d.
Proof.
  intros Hd. unfold cleanup_frames. rewrite bind_get. set (l := default [] (dget (sensor_to_frames_map d) s)).
  assert (dict_wf l) as Hw by apply nested_wf_default, Hd.
  destruct (select_ok frame_timed_out l d) as (ks & m & E & Hm & _ & _ & Ht); [done| |done|].
  { intros n m k v _. destruct (frame_test_ok n k v (tick m d)) as [b ->]. done. }
  rewrite (bind_Ok _ _ _ _ _ E). destruct (drops_rest s ks (tick m d)) as (R1 & R2 & R3 & R4).
  eexists. split; [done|]. split; [by apply drops_inv, tick_inv|]. rewrite R1, R2, R3, R4. split_and!; [done| | | |done..].
  - intros f fr. rewrite drops_frames. case_decide as Hf; [done|]. cbn. intros Hfr. unfold nget in Hfr.
    destruct (Ht f fr) as (n & Hn & Hiff); [apply dget_elem; unfold l; by destruct (dget _ s)|]. exists n. split; [done|].
    destruct (frame_test_ok n f fr d) as [b Hb]. change (frame_timed_out (clock n) f fr d = Ok false). rewrite Hb in *.
    destruct b; [|done]. exfalso. apply Hf. split; [done|]. by apply Hiff.
  - intros s' f Hs. rewrite drops_frames. by rewrite decide_False by naive_solver.
  - intros s' f fr. rewrite drops_frames. by case_decide.
Qed.

Lemma removes_rest s l d : let d' := foldl (λ d o, remove_object_id s o d) d l in
  alert_list d' = alert_list d ∧ (∀ s', s' ≠ s → dget (timeout_counter_map d') s' = dget (timeout_counter_map d) s') ∧ readings d' = readings d ∧
  (∀ s' o, nget (timeout_counter_map d') s' o = if decide (s = s' ∧ o ∈ l) then None else nget (timeout_counter_map d) s' o).
Proof.
  cbn zeta. revert d. induction l as [|x l IH]; intros d.
  { split_and!; [done..|]. intros s' o. rewrite decide_False; [done|by intros [_ ?%elem_of_nil]]. }
  cbn. destruct (IH (remove_object_id s x d)) as (-> & H2 & -> & H4). split_and!.
  - apply remove_alerts.
  - intros s' Hs. rewrite H2, remove_timeouts by done. unfold ndel. destruct (dget _ s); [by rewrite dget_dset_ne|done].
  - unfold remove_object_id. cbn. by destruct (listed_in d s x).
  - intros s' o. rewrite H4, remove_timeouts, nget_ndel. destruct (decide (s = s')) as [<-|Hs]; [|by rewrite !decide_False by tauto].
    destruct (decide (o ∈ l)) as [Hl|Hl].
    + by rewrite !decide_True by (split; [done|]; try done; by right).
    + rewrite (decide_False (P := s = s ∧ o ∈ l)) by tauto. destruct (decide (x = o)) as [->|Hne].
      * by rewrite !decide_True by (split; [done|]; try done; by left).
      * rewrite !decide_False; [done|intros [_ [?|?]%elem_of_cons]; congruence|tauto].
Qed.

(** Forgetting objects that are in no group leaves the groups alone. *)
Lemma removes_groups s l d : (∀ o, o ∈ l → check_is_in_potential_collision o s d = None) →
  ∀ s', groups_of s' (foldl (λ d o, remove_object_id s o d) d l) = groups_of s' d.
Proof.
  intros Hl s'. assert (∀ o, o ∈ l → dget (groups_of s d) o = None) as Hn.
  { intros o Ho. specialize (Hl o Ho). revert Hl. unfold check_is_in_potential_collision, groups_of, dmem. destruct (dget _ s) as [gs|]; [|done]. cbn.
    by destruct (dget gs o). }
  clear Hl. revert d Hn. induction l as [|x l IH]; intros d Hn; [done|]. cbn.
  assert (∀ s0, groups_of s0 (remove_object_id s x d) = groups_of s0 d) as H1.
  { intros s0. rewrite remove_groups. case_decide; [subst|done]. apply ddel_absent, Hn. by left. }
  rewrite IH; [apply H1|]. intros o Ho. rewrite H1. apply Hn. by right.
Qed.
Lemma check_groups o s d d' : groups_of s d' = groups_of s d → check_is_in_potential_collision o s d' = check_is_in_potential_collision o s d.
Proof.
  unfold check_is_in_potential_collision, groups_of. destruct (dget (potential_collision_map d') s), (dget (potential_collision_map d) s); cbn; intros; subst; done.
Qed.

Lemma cleanup_objects_ok s d :
  inv d → ∃ d', cleanup_objects clock s d = (Ok tt, d') ∧ inv d' ∧ (readings d ≤ readings d')%nat ∧
    live_objects (readings d) (readings d') s d' ∧ (∀ s', s' ≠ s → dget (timeout_counter_map d') s' = dget (timeout_counter_map d) s') ∧
    (∀ s', groups_of s' d' = groups_of s' d) ∧ alert_list d' = alert_list d.
Proof.
  intros Hd. unfold cleanup_objects. rewrite bind_get. set (l := default [] (dget (timeout_counter_map d) s)).
  assert (dict_wf l) as Hw by apply nested_wf_default, Hd.
  destruct (select_ok (object_timed_out s) l d) as (ks & m & E & Hm & _ & Hks & Ht); [done..|].
  rewrite (bind_Ok _ _ _ _ _ E). destruct (removes_rest s ks (tick m d)) as (R1 & R2 & R3 & R4).
  assert (∀ s', groups_of s' (foldl (λ d o, remove_object_id s o d) (tick m d) ks) = groups_of s' d) as Hgs.
  { intros s'. etrans; [apply (removes_groups s ks (tick m d))|done]. intros o Ho. pose proof (Hks o Ho) as (t & Hin%dget_elem)%dget_is_Some.
    destruct (Ht o t Hin) as (n & _ & Hiff). apply Hiff in Ho. unfold object_timed_out in Ho. injection Ho as [_ Hb]%andb_true_iff.
    by apply bool_decide_eq_true in Hb. }
  eexists. split; [done|]. split; [by apply removes_inv, tick_inv|]. rewrite R1, R3. split_and!; [done| |done|done|done].
  intros o t. rewrite R4. case_decide as Ho; [done|]. cbn. intros Hot. unfold nget in Hot.
  destruct (Ht o t) as (n & Hn & Hiff); [apply dget_elem; unfold l; by destruct (dget _ s)|]. exists n. split; [done|].
  rewrite (check_groups o s d) by apply Hgs. destruct (fgeZ _ _) eqn:Ef; [right|by left]. intros Hc. apply Ho. split; [done|].
  apply Hiff. unfold object_timed_out. rewrite Ef. by rewrite bool_decide_true.
Qed.

Lemma cleanup_alerts_ok s d :
  inv d → ∃ d', cleanup_alerts cfg clock s d = (Ok tt, d') ∧ inv d' ∧ (readings d ≤ readings d')%nat ∧
    young_alerts (readings d) (readings d') s d' ∧ (∀ s', s' ≠ s → dget (alert_list d') s' = dget (alert_list d) s') ∧
    sensor_to_frames_map d' = sensor_to_frames_map d ∧ timeout_counter_map d' = timeout_counter_map d ∧
    potential_collision_map d' = potential_collision_map d.
Proof.
  intros Hd. pose proof (iv_alerts _ Hd) as Hal. unfold cleanup_alerts. rewrite bind_get. set (l := default [] (dget (alert_list d) s)).
  assert (dict_wf l) as Hw by by apply nested_wf_default.
  destruct (select_ok (alert_timed_out cfg) l d) as (ks & m & E & Hm & _ & _ & Ht); [done..|]. rewrite (bind_Ok _ _ _ _ _ E).
  assert (∀ (l : list string) (m : dict string (dict string datetime)), nested_wf m → let m' := foldl (λ m o, ndel m s o) m l in nested_wf m' ∧
    (∀ s', s' ≠ s → dget m' s' = dget m s') ∧ ∀ o, nget m' s o = if decide (o ∈ l) then None else nget m s o) as Hdel.
  { clear. induction l as [|x l IH]; intros m Hm; cbn.
    - split_and!; [done..|]. intros o. by rewrite decide_False by apply not_elem_of_nil.
    - destruct (IH (ndel m s x)) as (H1 & H2 & H3); [by apply nested_wf_ndel|]. split_and!; [done| |].
      + intros s' Hs. rewrite H2 by done. unfold ndel. destruct (dget m s); [by rewrite dget_dset_ne|done].
      + intros o. rewrite H3, nget_ndel. destruct (decide (o ∈ l)), (decide (o ∈ x :: l)), (decide (s = s ∧ x = o)); set_solver. }
  destruct (Hdel ks (alert_list d) Hal) as (D1 & D2 & D3).
  eexists. split; [done|]. cbn. split_and!; [|done| |done..].
  - pose proof (tick_inv m d Hd) as []. split; try done. destruct iv_accounted0. by split.
  - intros o t. cbn. rewrite D3. case_decide as Ho; [done|]. intros Hot. unfold nget in Hot.
    destruct (Ht o t) as (n & Hn & Hiff); [apply dget_elem; unfold l; by destruct (dget _ s)|]. exists n. split; [done|].
    unfold alert_timed_out in *. destruct (fgeZ _ _); [|done]. exfalso. by apply Ho, Hiff.
Qed.
End frames.
