(* ===== verification/CollisionSafe.v ===== *)
(** * Collision detection: what the detector guarantees

    With geographic or image coordinates no operation raises on a detector it can
    reach and a batch that shows every object once ([detector_safe]); a frame and a suspicion regroup the objects
    ([frame_regroups], [suspicion_regroups]); the reports are exactly the groups
    whose time is over ([alerts_exact]); a batch ends with nothing stale
    ([cleanup_bounds]). *)

From Stdlib Require Import ZArith Lia Floats.SpecFloat.
From stdpp Require Import base list strings gmap sets relations.
From S2P Require Import Prelude PyDict PyFloat PyNumber PyText PyIso PyVal Schema Crp Stop CollisionState Closeness Collision.
From S2P Require Import CollisionGroups CollisionFrames.
Open Scope string_scope.
Open Scope list_scope.
Open Scope Z_scope.

Section detector.
Context {T : Type} (bearing : T → float).
Context `{NM : NumpyMath} `{DG : Degrees} `{ML : MathLib} `{FT : FloatText} (np_sum : vec → float).
Context (cfg : CollisionDetectionConfig) (clock : nat → datetime) (iter_set : list string → list string).
Context (iterate : iterates iter_set) (clock_ok : ∀ n, is_ok (iso_to_epoch (clock n)) = true).

Abbreviation Detector := (CollisionDetection T).
Abbreviation State := (CollisionState T).
Implicit Types (d : Detector) (s p q o : string) (cs : State) (gs : dict string State).
Abbreviation frame_at d s f := (nget (sensor_to_frames_map d) s f).

Lemma new_inv calibration : calibration ≠ CARTESIAN → inv (new_CollisionDetection (T := T) calibration).
Proof.
  intros Hc. split; [intros s; apply stable_nil|constructor| |done|done|apply nested_wf_nil|apply nested_wf_nil].
  split; [apply nested_wf_nil|apply nested_wf_nil|done| |done]. intros s o f. split; intros (x & Hx & _); discriminate.
Qed.

Lemma groups_quiet s s' d d' : quiet s d d' → s' ≠ s → groups_of s' d' = groups_of s' d.
Proof. intros Hq Hs. unfold groups_of. by rewrite (q_others _ _ _ Hq). Qed.

Lemma quiet_keeps_inv s d d' : quiet s d d' → stable (groups_of s d') → inv d → inv d'.
Proof.
  intros Hq Hst Hd. split.
  - intros s'. destruct (decide (s' = s)) as [->|Hs]; [done|]. rewrite (groups_quiet _ _ _ _ Hq Hs). apply Hd.
  - apply (q_groups_dom _ _ _ Hq), Hd.
  - eapply accounted_quiet; [done|apply Hd].
  - rewrite (q_calibration _ _ _ Hq). apply Hd.
  - rewrite (q_counters _ _ _ Hq). apply Hd.
  - rewrite (q_timeouts _ _ _ Hq). apply Hd.
  - rewrite (q_alerts _ _ _ Hq). apply Hd.
Qed.
Lemma room_quiet s s' n d d' : quiet s d d' → room s' n d → room s' n d'.
Proof.
  intros Hq [Hle Hr]. split; [done|]. intros i Hi. rewrite (q_frames _ _ _ Hq). unfold next_id. rewrite (q_counters _ _ _ Hq). by apply Hr.
Qed.
Lemma inv_listed s o d : inv d → listed s o d.
Proof. intros Hd. apply accounted_listed, Hd. Qed.

(** ** Batches of frames *)

Definition proper_frames (l : list (string * list Message)) : Prop := ∀ x, x ∈ l → x.2 = [] ∨ proper cfg x.2.

Lemma process_frame_ok s x n d :
  inv d → x.2 = [] ∨ proper cfg x.2 → room s (S n) d →
  ∃ d', process_frame bearing cfg clock iter_set s x d = (Ok tt, d') ∧ inv d' ∧ room s n d' ∧
    (readings d ≤ readings d')%nat ∧ ∀ s' n', s' ≠ s → room s' n' d → room s' n' d'.
Proof.
  destruct x as [id frame]. cbn. intros Hd Hp Hr. unfold process_frame.
  destruct frame as [|m frame].
  { exists d. split_and!; [done|done| |done|done]. destruct Hr as [Hle Hf]. split; [lia|]. intros i Hi. apply Hf. lia. }
  destruct Hp as [[=]|Hp]. cbn [length Nat.ltb Nat.leb].
  destruct (update_frame_ok bearing cfg clock s (m :: frame) id d Hd Hp) as (present & fr & d1 & E1 & Hfm & Hd1 & Hk & Hpr & Hdt).
  { destruct Hr as [_ Hf]. specialize (Hf 0 ltac:(lia)). rewrite Z.add_0_r, Z.mod_small in Hf; [done|]. by apply next_id_range. }
  rewrite (bind_Ok _ _ _ _ _ E1).
  destruct (on_new_frame_ok cfg iter_set iterate s present fr d1) as (d2 & E2 & Hrg & _); [apply Hd1| |done|intros o; by apply inv_listed|apply Hd1|].
  { intros o Ho. apply dget_is_Some. by rewrite Hk, <- Hpr. }
  exists d2. split; [done|]. pose proof (rg_quiet _ _ _ _ Hrg) as Hq. split_and!; [eapply quiet_keeps_inv; [done|apply Hrg|done]|..].
  - eapply room_quiet; [done|]. by apply (framed_room s fr d).
  - pose proof (q_readings _ _ _ Hq). pose proof (fm_readings _ _ _ _ Hfm). lia.
  - intros s' n' Hs Hr'. eapply room_quiet; [done|]. eapply framed_room_other; [exact Hfm|by apply not_eq_sym|done].
Qed.

Lemma process_frames_ok s (l : list (string * list Message)) d :
  inv d → proper_frames l → room s (length l) d →
  ∃ d', sfor l (process_frame bearing cfg clock iter_set s) d = (Ok tt, d') ∧ inv d' ∧
    (readings d ≤ readings d')%nat ∧ ∀ s' n', s' ≠ s → room s' n' d → room s' n' d'.
Proof.
  revert d. induction l as [|x l IH]; intros d Hd Hp Hr; [by exists d|].
  destruct (process_frame_ok s x (length l) d) as (d1 & E1 & Hd1 & Hr1 & Hn1 & Ho1); [done|apply Hp; by left|done|]. cbn [sfor].
  rewrite (bind_Ok _ _ _ _ _ E1). destruct (IH d1) as (d2 & E2 & Hd2 & Hn2 & Ho2); [done|intros y Hy; apply Hp; by right|done|].
  exists d2. split_and!; [done|done|lia|]. intros s' n' Hs Hr'. by apply Ho2, Ho1.
Qed.

Definition batch := dict string (list (string * list Message)).
Definition proper_batch (frames : batch) d : Prop :=
  dict_wf frames ∧ ∀ s l, (s, l) ∈ frames → proper_frames l ∧ room s (length l) d.

Lemma process_batch_ok (frames : batch) d :
  inv d → proper_batch frames d →
  ∃ d', sfor frames (λ x : string * list (string * list Message), sfor x.2 (process_frame bearing cfg clock iter_set x.1)) d = (Ok tt, d') ∧ inv d' ∧
    (readings d ≤ readings d')%nat.
Proof.
  revert d. induction frames as [|[s l] frames IH]; intros d Hd [Hw Hp]; [by exists d|].
  apply NoDup_cons in Hw as [Hs Hw]. destruct (Hp s l) as [Hpl Hrl]; [by left|].
  destruct (process_frames_ok s l d Hd Hpl Hrl) as (d1 & E1 & Hd1 & Hn1 & Ho1). cbn [sfor fst snd]. rewrite (bind_Ok _ _ _ _ _ E1).
  destruct (IH d1) as (d2 & E2 & Hd2 & Hn2); [done| |exists d2; split_and!; [done|done|lia]]. split; [done|]. intros s' l' Hin. destruct (Hp s' l') as [Hpl' Hrl']; [by right|]. split; [done|].
  apply Ho1; [|done]. intros ->. apply Hs, list_elem_of_fmap. by exists (s, l').
Qed.

(** ** The cleanup *)

Record clean (n0 : nat) s d : Prop := {
  cl_objects : live_objects clock n0 (readings d) s d;
  cl_frames : young_frames clock n0 (readings d) s d;
  cl_alerts : young_alerts cfg clock n0 (readings d) s d;
}.

Lemma live_objects_mono n0 n1 n1' s d d' :
  live_objects clock n0 n1 s d → (n1 ≤ n1')%nat → dget (timeout_counter_map d') s = dget (timeout_counter_map d) s →
  groups_of s d' = groups_of s d → live_objects clock n0 n1' s d'.
Proof.
  intros Hl Hn Ht Hg o t. unfold nget. rewrite Ht. intros Ho. destruct (Hl o t Ho) as (n & Hb & Hc). exists n. split; [lia|].
  by rewrite (check_groups o s d d').
Qed.

Lemma objects_loop (l : list string) d :
  NoDup l → inv d →
  ∃ d', sfor l (cleanup_objects clock) d = (Ok tt, d') ∧ inv d' ∧ (readings d ≤ readings d')%nat ∧
    (∀ s, s ∈ l → live_objects clock (readings d) (readings d') s d') ∧ (∀ s, s ∉ l → dget (timeout_counter_map d') s = dget (timeout_counter_map d) s) ∧
    (∀ s, groups_of s d' = groups_of s d).
Proof.
  revert d. induction l as [|s l IH]; intros d Hnd Hd; [exists d; split_and!; try done; by intros s ?%elem_of_nil|].
  apply NoDup_cons in Hnd as [Hs Hnd]. destruct (cleanup_objects_ok clock s d Hd) as (d1 & E1 & Hd1 & Hr1 & Hl1 & Ho1 & Hg1 & _).
  cbn [sfor]. rewrite (bind_Ok _ _ _ _ _ E1). destruct (IH d1 Hnd Hd1) as (d2 & E2 & Hd2 & Hr2 & Hl2 & Ho2 & Hg2).
  exists d2. split_and!; [done|done|lia| | |].
  - intros s' [->|Hs']%elem_of_cons.
    + eapply live_objects_mono; [exact Hl1|done|by apply Ho2|apply Hg2].
    + intros o t Hot. destruct (Hl2 s' Hs' o t Hot) as (n & Hn & Hc). exists n. split; [lia|done].
  - intros s' [Hne Hs']%not_elem_of_cons. rewrite Ho2, Ho1; done.
  - intros s'. by rewrite Hg2.
Qed.

Lemma frames_loop (l : list string) d :
  NoDup l → inv d →
  ∃ d', sfor l (cleanup_frames clock) d = (Ok tt, d') ∧ inv d' ∧ (readings d ≤ readings d')%nat ∧
    (∀ s, s ∈ l → young_frames clock (readings d) (readings d') s d') ∧ (∀ s f, s ∉ l → frame_at d' s f = frame_at d s f) ∧
    potential_collision_map d' = potential_collision_map d ∧ timeout_counter_map d' = timeout_counter_map d.
Proof.
  revert d. induction l as [|s l IH]; intros d Hnd Hd; [exists d; split_and!; try done; by intros s ?%elem_of_nil|].
  apply NoDup_cons in Hnd as [Hs Hnd].
  destruct (cleanup_frames_ok clock clock_ok s d Hd) as (d1 & E1 & Hd1 & Hr1 & Hl1 & Ho1 & Hf1 & Hp1 & _ & Ht1).
  cbn [sfor]. rewrite (bind_Ok _ _ _ _ _ E1). destruct (IH d1 Hnd Hd1) as (d2 & E2 & Hd2 & Hr2 & Hl2 & Ho2 & Hp2 & Ht2).
  exists d2. split_and!; [done|done|lia| | |congruence|congruence].
  - intros s' [->|Hs']%elem_of_cons f fr Hfr.
    + rewrite Ho2 in Hfr by done. destruct (Hl1 f fr Hfr) as (n & Hn & Hc). exists n. split; [lia|done].
    + destruct (Hl2 s' Hs' f fr Hfr) as (n & Hn & Hc). exists n. split; [lia|done].
  - intros s' f [Hne Hs']%not_elem_of_cons. rewrite Ho2, Ho1; done.
Qed.

Lemma alerts_loop (l : list string) d :
  NoDup l → inv d →
  ∃ d', sfor l (cleanup_alerts cfg clock) d = (Ok tt, d') ∧ inv d' ∧ (readings d ≤ readings d')%nat ∧
    (∀ s, s ∈ l → young_alerts cfg clock (readings d) (readings d') s d') ∧ (∀ s, s ∉ l → dget (alert_list d') s = dget (alert_list d) s) ∧
    sensor_to_frames_map d' = sensor_to_frames_map d ∧ timeout_counter_map d' = timeout_counter_map d ∧
    potential_collision_map d' = potential_collision_map d.
Proof.
  revert d. induction l as [|s l IH]; intros d Hnd Hd; [exists d; split_and!; try done; by intros s ?%elem_of_nil|].
  apply NoDup_cons in Hnd as [Hs Hnd].
  destruct (cleanup_alerts_ok cfg clock s d Hd) as (d1 & E1 & Hd1 & Hr1 & Hl1 & Ho1 & Hf1 & Ht1 & Hp1).
  cbn [sfor]. rewrite (bind_Ok _ _ _ _ _ E1). destruct (IH d1 Hnd Hd1) as (d2 & E2 & Hd2 & Hr2 & Hl2 & Ho2 & Hf2 & Ht2 & Hp2).
  exists d2. split_and!; [done|done|lia| | |congruence..].
  - intros s' [->|Hs']%elem_of_cons o t Hot.
    + unfold nget in Hot. rewrite Ho2 in Hot by done. destruct (Hl1 o t Hot) as (n & Hn & Hc). exists n. split; [lia|done].
    + destruct (Hl2 s' Hs' o t Hot) as (n & Hn & Hc). exists n. split; [lia|done].
  - intros s' [Hne Hs']%not_elem_of_cons. rewrite Ho2, Ho1; done.
Qed.

Lemma absent_key {V} (m : dict string V) k : k ∉ dkeys m → dget m k = None.
Proof. apply dget_None. Qed.

Lemma cleanup_ok d :
  inv d → ∃ d', cleanup_data cfg clock d = (Ok tt, d') ∧ inv d' ∧ (∀ s, groups_of s d' = groups_of s d) ∧ ∀ s, clean (readings d) s d'.
Proof.
  intros Hd. unfold cleanup_data. rewrite bind_get.
  destruct (objects_loop (dkeys (timeout_counter_map d)) d) as (d1 & E1 & Hd1 & Hr1 & Hl1 & Ho1 & Hg1); [apply Hd|done|].
  rewrite (bind_Ok _ _ _ _ _ E1), bind_get.
  destruct (frames_loop (dkeys (sensor_to_frames_map d1)) d1) as (d2 & E2 & Hd2 & Hr2 & Hl2 & Ho2 & Hp2 & Ht2); [apply (ac_frames_wf _ (iv_accounted _ Hd1))|done|].
  rewrite (bind_Ok _ _ _ _ _ E2), bind_get.
  destruct (alerts_loop (dkeys (alert_list d2)) d2) as (d3 & E3 & Hd3 & Hr3 & Hl3 & Ho3 & Hf3 & Ht3 & Hp3); [apply Hd2|done|].
  assert (∀ s, groups_of s d3 = groups_of s d1) as Hg3 by (intros s; unfold groups_of; by rewrite Hp3, Hp2).
  exists d3. split_and!; [done|done|intros s; by rewrite Hg3|]. intros s. split.
  - eapply (live_objects_mono _ (readings d1) _ s d1); [|lia|by rewrite Ht3, Ht2|apply Hg3].
    destruct (decide (s ∈ dkeys (timeout_counter_map d))) as [Hin|Hin]; [by apply Hl1|].
    intros o t. unfold nget. rewrite Ho1 by done. by rewrite (absent_key _ _ Hin).
  - intros f fr. rewrite Hf3. intros Hfr. destruct (decide (s ∈ dkeys (sensor_to_frames_map d1))) as [Hin|Hin].
    + destruct (Hl2 s Hin f fr Hfr) as (n & Hn & Hc). exists n. split; [lia|done].
    + rewrite Ho2 in Hfr by done. unfold nget in Hfr. by rewrite (absent_key _ _ Hin) in Hfr.
  - intros o t Hot. destruct (decide (s ∈ dkeys (alert_list d2))) as [Hin|Hin].
    + destruct (Hl3 s Hin o t Hot) as (n & Hn & Hc). exists n. split; [lia|done].
    + unfold nget in Hot. rewrite Ho3 in Hot by done. by rewrite (absent_key _ _ Hin) in Hot.
Qed.

Lemma update_frames_ok (frames : batch) d :
  inv d → proper_batch frames d → ∃ d', update_frames bearing cfg clock iter_set frames d = (Ok tt, d') ∧ inv d' ∧
    (enable cfg = true → ∃ n0, (readings d ≤ n0)%nat ∧ ∀ s, clean n0 s d').
Proof.
  intros Hd Hp. unfold update_frames. destruct (enable cfg); cbn [negb]; [|by exists d].
  destruct (process_batch_ok frames d Hd Hp) as (d1 & E1 & Hd1 & Hr1). rewrite (bind_Ok _ _ _ _ _ E1).
  destruct (cleanup_ok d1 Hd1) as (d2 & E2 & Hd2 & _ & Hc). exists d2. split_and!; [done|done|]. intros _. exists (readings d1). by split.
Qed.

(** ** Suspicions *)

Lemma open_quiet s d : let d' := set_potential (open_sensor (potential_collision_map d) s) d in
  quiet s d d' ∧ ∀ s', groups_of s' d' = groups_of s' d.
Proof.
  cbn zeta. unfold open_sensor, set_once, dmem. destruct (dget (potential_collision_map d) s) as [gs|] eqn:E.
  { split; [by destruct d|by destruct d]. }
  split.
  - split; try done; cbn; [|intros Hw; by apply dict_wf_dset]. intros s' Hs. by rewrite dget_dset_ne.
  - intros s'. unfold groups_of. cbn. rewrite dget_dset. case_decide; [subst; by rewrite E|done].
Qed.

Lemma stable_new gs p cs : stable gs → good p cs → ids cs = {[p]} → (∀ q csq, dget gs q = Some csq → p ∉ ids csq) → stable (dset gs p cs).
Proof.
  intros Hst Hg Hi Hn. split; [by apply dict_wf_dset, Hst| |].
  - intros q csq. rewrite dget_dset. case_decide; [intros [= <-]; by subst|apply Hst].
  - intros q1 q2 cs1 cs2 o. rewrite !dget_dset.
    destruct (decide (p = q1)) as [<-|N1], (decide (p = q2)) as [<-|N2]; intros E1 E2 O1 O2; simplify_eq; try done.
    + rewrite Hi in O1. apply elem_of_singleton in O1 as ->. by destruct (Hn q2 cs2).
    + rewrite Hi in O2. apply elem_of_singleton in O2 as ->. by destruct (Hn q1 cs1).
    + by eapply (st_disjoint _ Hst q1 q2).
Qed.
Lemma view_new gs p cs : ids cs = {[p]} → view [] (dset gs p cs) = <[p := {[p]}]> (view [] gs).
Proof.
  intros Hi. apply map_eq. intros q. rewrite lookup_insert, !view_lookup, dget_dset.
  rewrite !(decide_False (P := q ∈ [])) by apply not_elem_of_nil. case_decide; [cbn; by rewrite Hi|done].
Qed.

(** The outcome of a suspicion about [p] *)
Record suspected s p d d' : Prop := {
  su_inv : inv d';
  su_quiet : quiet s d d';
  su_known : is_Some (nget (alert_list d) s p) ∨ check_is_in_potential_collision p s d ≠ None → groups_of s d' = groups_of s d;
  su_new : nget (alert_list d) s p = None → check_is_in_potential_collision p s d = None →
    rtc (regroup (seen_close cfg s p d)) (<[p := {[p]}]> (view [] (groups_of s d))) (view [] (groups_of s d'));
}.

Lemma suspected_known s p d d' : inv d → quiet s d d' → groups_of s d' = groups_of s d →
  is_Some (nget (alert_list d) s p) ∨ check_is_in_potential_collision p s d ≠ None → suspected s p d d'.
Proof.
  intros Hd Hq Hg Hk. split; [eapply quiet_keeps_inv; [done|rewrite Hg; apply Hd|done]|done|done|].
  intros Ha Hc. rewrite Ha in Hk. destruct Hk as [[? [=]]|]; done.
Qed.

Lemma initialize_ok s p behavior modules d :
  inv d → check_is_in_potential_collision p s d = None →
  ∃ d', initialize_potential_collision cfg clock p s behavior modules d = (Ok true, d') ∧ inv d' ∧ quiet s d d' ∧
    is_Some (dget (groups_of s d') p) ∧ view [] (groups_of s d') = <[p := {[p]}]> (view [] (groups_of s d)).
Proof.
  intros Hd Hc. unfold initialize_potential_collision. set (d1 := set_potential (open_sensor (potential_collision_map d) s) d).
  change ((_ ← smod _; ?k) d) with (k d1). destruct (open_quiet s d) as [Hq1 Hg1]. rewrite bind_get.
  rewrite (check_groups p s d d1), Hc, bind_now by apply Hg1.
  destruct (new_state_ok (T := T) p s (be_place behavior) GEO_COORDINATE_INITIAL_LOCATION (clock (readings d1)) modules (alertTimeWindow cfg))
    as (cs & Ec & Hst & Hids & _ & _ & _ & Hm). rewrite (bind_lift _ _ _ cs) by done.
  assert (good p cs) as Hgood by (split; [done|]; rewrite Hm; done).
  assert (ids cs = {[p]}) as Hi by (apply set_eq; intros x; rewrite elem_ids, Hids; set_solver).
  eexists. split; [done|]. set (d2 := set_potential _ _).
  assert (groups_of s d2 = dset (groups_of s d) p cs) as Hg2.
  { unfold d2. transitivity (groups_of s (put s p cs (tick (S (readings d1)) d1))); [done|]. rewrite put_groups. f_equal. apply Hg1. }
  assert (quiet s d d2) as Hq2.
  { etrans; [exact Hq1|]. etrans; [|apply (put_quiet s p cs (tick (S (readings d1)) d1))]. split; try done. cbn. lia. }
  assert (stable (groups_of s d2)) as Hst2.
  { rewrite Hg2. apply stable_new; [apply Hd|done|done|]. intros q csq. by apply check_none. }
  split_and!; [by eapply quiet_keeps_inv|done|rewrite Hg2, dget_dset_eq; by eexists|]. by rewrite Hg2, view_new.
Qed.

Lemma update_potential_ok s p behavior modules d :
  inv d → enable cfg = true →
  ∃ d', update_potential_collision cfg clock iter_set p s behavior modules d = (Ok tt, d') ∧ suspected s p d d'.
Proof.
  intros Hd He. unfold update_potential_collision. rewrite bind_get, He. cbn [negb].
  destruct (nget (alert_list d) s p) as [t|] eqn:Ea.
  { exists d. split; [done|]. apply suspected_known; [done..|]. left. by exists t. }
  set (d1 := set_potential (open_sensor (potential_collision_map d) s) d). change ((_ ← smod _; ?k) d) with (k d1).
  destruct (open_quiet s d) as [Hq1 Hg1]. fold d1 in Hq1, Hg1. rewrite bind_get, nget_groups.
  assert (inv d1) as Hd1 by (eapply quiet_keeps_inv; [done|rewrite Hg1; apply Hd|done]).
  destruct (dget (groups_of s d1) p) as [cs|] eqn:Eg.
  { exists d1. split; [done|]. apply suspected_known; [done..|]. right. intros Hc. rewrite Hg1 in Eg.
    pose proof (check_none p s d p cs Hc Eg) as Hn. apply Hn. apply good_member. by eapply Hd. }
  destruct (check_is_in_potential_collision p s d1) as [q|] eqn:Ec.
  { unfold initialize_potential_collision. set (d2 := set_potential (open_sensor (potential_collision_map d1) s) d1).
    destruct (open_quiet s d1) as [Hq2 Hg2]. fold d2 in Hq2, Hg2. exists d2. split.
    - unfold mbind, stM_bind, smod, sget. fold d2. by rewrite (check_groups p s d1 d2), Ec by apply Hg2.
    - apply suspected_known; [done|by etrans|by rewrite Hg2|]. right. rewrite <- (check_groups p s d d1), Ec by apply Hg1. done. }
  destruct (initialize_ok s p behavior modules d1 Hd1 Ec) as (d2 & E2 & Hd2 & Hq2 & Hp2 & Hv2). rewrite (bind_Ok _ _ _ _ _ E2). cbv iota.
  destruct Hp2 as [cs2 Hcs2]. destruct (update_from_past_ok iter_set iterate s p p cs2 d2) as (d3 & E3 & H3); [done|by eapply Hd2|by apply inv_listed|].
  rewrite (bind_Ok _ _ _ _ _ E3), bind_get.
  destruct (grown_regrouped (seen_close cfg s p d) s p cs2 d2 d3 (iv_stable _ Hd2 s) Hcs2 H3) as (Hr3 & Hk3 & _).
  pose proof (rg_quiet _ _ _ _ Hr3) as Hq3. assert (inv d3) as Hd3 by (eapply quiet_keeps_inv; [done|apply Hr3|done]).
  assert (quiet s d d3) as Hq by (by do 2 (etrans; [done|])).
  assert (∃ d4, (if dmem (object_id_to_frames_map d3) s then process_potential_collision_on_past_frames cfg iter_set p s else mret tt) d3 = (Ok tt, d4) ∧
    regrouped (seen_close cfg s p d) s d3 d4) as (d4 & E4 & Hr4).
  { destruct (dmem (object_id_to_frames_map d3) s) eqn:Em; [|exists d3; split; [done|by apply regrouped_refl, Hd3]].
    destruct (past_collisions_ok cfg iter_set iterate s p d3) as (d4 & E4 & Hr4); [apply Hd3|apply Hk3; by exists cs2|apply Hd3|apply Hd3|done|].
    exists d4. split; [done|]. eapply regrouped_mono; [|done]. intros q o. by apply seen_close_quiet. }
  exists d4. split; [done|]. pose proof (rg_quiet _ _ _ _ Hr4) as Hq4. split.
  - eapply quiet_keeps_inv; [done|apply Hr4|done].
  - by etrans.
  - intros [[? Hs]|Hc]; [congruence|]. by rewrite (check_groups p s d d1) in Ec by apply Hg1.
  - intros _ _. rewrite <- Hg1, <- Hv2. etrans; [apply Hr3|apply Hr4].
Qed.

(** ** Behaviors *)

Definition two_part (b : Behavior T) : Prop := ∃ s o, py_split " #-# " (be_id b) = [s; o].

Lemma refresh_good p (m : dict string (Behavior T)) cs :
  good p cs → good p (refresh_behaviors iter_set m cs) ∧ ids (refresh_behaviors iter_set m cs) = ids cs.
Proof.
  unfold refresh_behaviors. generalize (iter_set (cs_object_ids cs)). intros l. revert cs.
  induction l as [|o l IH]; intros cs Hg; [done|]. cbn.
  destruct (IH (match dget m o with Some b => update_behavior o (Some b) cs | None => cs end)) as [H1 H2].
  { destruct (dget m o); [by apply (good_same p cs)|done]. }
  split; [done|]. rewrite H2. by destruct (dget m o).
Qed.

Lemma stable_dmap gs (f : State → State) : (∀ p cs, good p cs → good p (f cs) ∧ ids (f cs) = ids cs) → stable gs → stable (dmap f gs).
Proof.
  intros Hf Hst. split; [by apply dict_wf_dmap, Hst| |].
  - intros q cs. rewrite dget_dmap. destruct (dget gs q) as [cs0|] eqn:E; [|done]. intros [= <-]. by apply Hf, Hst.
  - intros q1 q2 cs1 cs2 o. rewrite !dget_dmap.
    destruct (dget gs q1) as [c1|] eqn:E1; [|done]. destruct (dget gs q2) as [c2|] eqn:E2; [|done]. cbn. intros [= <-] [= <-].
    rewrite (proj2 (Hf q1 c1 (st_good _ Hst _ _ E1))), (proj2 (Hf q2 c2 (st_good _ Hst _ _ E2))). by eapply (st_disjoint _ Hst).
Qed.

Lemma group_behaviors_ok (bs : list (Behavior T)) m : (∀ b, b ∈ bs → two_part b) → ∃ m', group_behaviors m bs = (Ok tt, m').
Proof.
  revert m. induction bs as [|b bs IH]; intros m Hb; [by exists m|]. destruct (Hb b) as (s & o & E); [by left|]. cbn. rewrite E.
  apply IH. intros b' Hb'. apply Hb. by right.
Qed.

Lemma update_behaviors_ok (bs : list (Behavior T)) d :
  inv d → (∀ b, b ∈ bs → two_part b) → ∃ d', update_behaviors iter_set bs d = (Ok tt, d') ∧ inv d' ∧
    ∀ s, view [] (groups_of s d') = view [] (groups_of s d).
Proof.
  intros Hd Hb. unfold update_behaviors. destruct (group_behaviors_ok bs [] Hb) as [m ->]. eexists. split; [done|].
  set (f := λ x : string * dict string State, (x.1, dmap (refresh_behaviors iter_set (default [] (dget m x.1))) x.2)).
  set (d' := set_potential _ _).
  assert (∀ s gs, dget (f <$> potential_collision_map d) s = Some gs ↔
    ∃ gs0, dget (potential_collision_map d) s = Some gs0 ∧ gs = dmap (refresh_behaviors iter_set (default [] (dget m s))) gs0) as Hf.
  { intros s gs. generalize (potential_collision_map d). intros pm. induction pm as [|[s' g] pm IH]; cbn; [naive_solver|].
    destruct (decide (s = s')) as [->|]; [naive_solver|done]. }
  assert (∀ s, groups_of s d' = dmap (refresh_behaviors iter_set (default [] (dget m s))) (groups_of s d)) as Hg.
  { intros s. unfold d', groups_of. cbn. destruct (dget (f <$> potential_collision_map d) s) as [gs|] eqn:E.
    - apply Hf in E as (gs0 & -> & ->). done.
    - destruct (dget (potential_collision_map d) s) as [gs0|] eqn:E0; [|done].
      pose proof (proj2 (Hf s _) (ex_intro _ gs0 (conj E0 eq_refl))). congruence. }
  split.
  - split; try apply Hd.
    + intros s. rewrite Hg. apply stable_dmap; [|apply Hd]. intros p cs. by apply refresh_good.
    + unfold d', dict_wf, dkeys. cbn. rewrite <- list_fmap_compose. apply Hd.
    + destruct (iv_accounted _ Hd). by split.
  - intros s. rewrite Hg. apply map_eq. intros q. rewrite !view_lookup, dget_dmap.
    destruct (decide _); [done|]. destruct (dget (groups_of s d) q) as [cs|] eqn:E; [|done]. cbn. f_equal.
    eapply refresh_good, Hd. done.
Qed.

(** ** Reports *)

(** The objects of a group that are no ghosts; the primary one never is *)
Definition is_ghost calibration cs o : bool :=
  negb (String.eqb o (cs_primary_object_id cs)) && match is_ghost_object cfg np_sum calibration cs o with Ok b => b | Exn _ => false end.
Definition real calibration cs : list string := filter (λ o, is_ghost calibration cs o = false) (cs_object_ids cs).

(** The incident and the state reported for a group *)
Record describes calibration s p cs (x : Incident * State) : Prop := {
  de_objects : in_objectIds x.1 ≡ₚ real calibration cs;
  de_state : cs_object_ids x.2 ≡ₚ real calibration cs;
  de_sensor : in_sensorId x.1 = cs_sensor_id cs;
  de_category : in_category x.1 = "collision";
  de_primary : dget (in_info x.1) "primaryObjectId" = Some p;
}.

(** Reports only enter alerts and read the clock. *)
Definition alerting d d' : Prop := ∃ m n, d' = set_alerts m (tick n d) ∧ (readings d ≤ n)%nat ∧ (nested_wf (alert_list d) → nested_wf m) ∧
  ∀ s o, is_Some (nget (alert_list d) s o) → is_Some (nget m s o).
Lemma alerting_refl d : alerting d d.
Proof. exists (alert_list d), (readings d). by split_and!; [destruct d|..]. Qed.
Lemma alerting_trans d1 d2 d3 : alerting d1 d2 → alerting d2 d3 → alerting d1 d3.
Proof.
  intros (m1 & n1 & -> & Hn1 & Hw1 & Hs1) (m2 & n2 & -> & Hn2 & Hw2 & Hs2). exists m2, n2. cbn in *. split_and!; [done|lia|auto|auto].
Qed.
Lemma alerting_inv d d' : alerting d d' → inv d → inv d'.
Proof.
  intros (m & n & -> & _ & Hw & _) Hd. split; try apply Hd; [|by apply Hw, Hd]. destruct (iv_accounted _ Hd). by split.
Qed.
Lemma alerting_readings d d' : alerting d d' → (readings d ≤ readings d')%nat.
Proof. by intros (m & n & -> & Hn & _). Qed.
Lemma alerting_groups d d' : alerting d d' → potential_collision_map d' = potential_collision_map d ∧ calibration_type d' = calibration_type d.
Proof. by intros (m & n & -> & _). Qed.
Lemma alerting_keeps s o d d' : alerting d d' → is_Some (nget (alert_list d) s o) → is_Some (nget (alert_list d') s o).
Proof. intros (m & n & -> & _ & _ & Hs). apply Hs. Qed.

Lemma is_ghost_ok calibration p cs o : good p cs → o ∈ cs_object_ids cs → ∃ b, is_ghost_object cfg np_sum calibration cs o = Ok b.
Proof.
  intros [Hs _] Ho. unfold is_ghost_object, get_trajectory. destruct (ok_trajectories _ _ Hs o Ho) as [l ->]. cbn.
  destruct (sort_key tp_timestamp l); [by eexists|]. destruct (get_proximity_moment o cs); [|by eexists].
  case_match; [by eexists|]. case_match; by eexists.
Qed.

Lemma ghosts_ok p cs (l : list string) d :
  good p cs → (∀ o, o ∈ l → o ∈ cs_object_ids cs) →
  ghosts np_sum cfg cs l d = (Ok (filter (λ o, is_ghost (calibration_type d) cs o = true) l), d).
Proof.
  intros Hg. revert d. induction l as [|o l IH]; intros d Hl; [done|]. cbn [ghosts]. rewrite filter_cons.
  assert (∀ o, o ∈ l → o ∈ cs_object_ids cs) as Hl' by (intros o' Ho'; apply Hl; by right).
  destruct (String.eqb o (cs_primary_object_id cs)) eqn:Eo.
  - rewrite decide_False by (unfold is_ghost; by rewrite Eo). by apply IH.
  - rewrite bind_get. destruct (is_ghost_ok (calibration_type d) p cs o) as [b Hb]; [done|apply Hl; by left|].
    assert (is_ghost (calibration_type d) cs o = b) as Hi by (unfold is_ghost; by rewrite Eo, Hb).
    rewrite (bind_lift _ _ _ b), (bind_Ok _ _ _ _ _ (IH d Hl')) by done.
    destruct b; [rewrite decide_True|rewrite decide_False]; by rewrite ?Hi.
Qed.

Lemma incident_ok p cs d :
  good p cs → ∃ inc d', collision_state_to_incident clock iter_set cs d = (Ok inc, d') ∧ alerting d d' ∧
    in_objectIds inc = iter_set (cs_object_ids cs) ∧ in_sensorId inc = cs_sensor_id cs ∧ in_category inc = "collision" ∧
    dget (in_info inc) "primaryObjectId" = Some p.
Proof.
  intros [Hs Hm]. unfold collision_state_to_incident. destruct (ok_trajectories _ _ Hs p (ok_member _ _ Hs)) as [l Hl].
  rewrite (bind_lift _ _ _ l) by (unfold get_trajectory; by rewrite (ok_primary _ _ Hs), Hl). rewrite bind_now.
  assert (alerting d (tick (S (readings d)) d)) as Ha by (exists (alert_list d), (S (readings d)); split_and!; [done|lia|done|done]).
  destruct (incident_interval _ _) as [t1 t2]. rewrite (ok_primary _ _ Hs). unfold get_proximity_moment.
  destruct (dget (cs_proximity_moments cs) p) as [t|] eqn:Et.
  - specialize (Hm p t Et). unfold dated in Hm. destruct (fromtimestamp _) as [dt|] eqn:Ed; [|done].
    eexists _, _. split; [done|]. by split_and!.
  - eexists _, _. split; [done|]. by split_and!.
Qed.

Lemma real_split calibration cs L : NoDup (cs_object_ids cs) → L ≡ₚ cs_object_ids cs →
  let G := filter (λ o, is_ghost calibration cs o = true) L in
  filter (λ o, o ∉ G) L ≡ₚ real calibration cs ∧ (length L = length G + length (real calibration cs))%nat.
Proof.
  intros Hnd HL G. assert (NoDup L) as HndL by (by rewrite HL).
  assert (∀ o, o ∈ filter (λ o, o ∉ G) L ↔ o ∈ real calibration cs) as Hin.
  { intros o. unfold G, real. rewrite !list_elem_of_filter, HL. destruct (is_ghost calibration cs o); naive_solver. }
  split; [by apply NoDup_Permutation; [apply NoDup_filter|apply NoDup_filter|]|].
  assert (L ≡ₚ G ++ real calibration cs) as Hp.
  { apply NoDup_Permutation; [done|apply NoDup_app; split_and!; try by apply NoDup_filter|].
    - intros o. unfold G, real. rewrite !list_elem_of_filter. naive_solver congruence.
    - intros o. unfold G, real. rewrite elem_of_app, !list_elem_of_filter, HL. destruct (is_ghost calibration cs o); naive_solver. }
  rewrite Hp at 1. by rewrite length_app.
Qed.

Lemma record_alerts_ok s (l : list string) d :
  ∃ d', sfor l (record_alert clock s) d = (Ok tt, d') ∧ alerting d d' ∧ ∀ o, o ∈ l → is_Some (nget (alert_list d') s o).
Proof.
  revert d. induction l as [|o l IH]; intros d; [exists d; split_and!; [done|apply alerting_refl|by intros o ?%elem_of_nil]|].
  set (d1 := set_alerts (nset (alert_list d) s o (clock (readings d))) (tick (S (readings d)) d)).
  assert (record_alert clock s o d = (Ok tt, d1)) as E1 by done. cbn [sfor]. rewrite (bind_Ok _ _ _ _ _ E1).
  assert (alerting d d1) as Ha1.
  { eexists _, _. split_and!; [done|lia|apply nested_wf_nset|]. intros s' o'. rewrite nget_nset. by case_decide. }
  destruct (IH d1) as (d2 & E2 & Ha2 & Ho2). exists d2. split_and!; [done|by eapply alerting_trans|].
  intros o' [->|Ho']%elem_of_cons; [|by apply Ho2]. eapply alerting_keeps; [exact Ha2|]. cbn. rewrite nget_nset_eq. by eexists.
Qed.

Lemma open_alerting s d : alerting d (set_alerts (open_sensor (alert_list d) s) d).
Proof.
  exists (open_sensor (alert_list d) s), (readings d). unfold open_sensor, set_once, dmem. split_and!; [by destruct d|done|..].
  - intros Hw. case_match; [done|]. apply nested_wf_dset; [done|constructor].
  - intros s' o. destruct (dget (alert_list d) s) eqn:E; [done|]. unfold nget. rewrite dget_dset. case_decide; [subst; by rewrite E|done].
Qed.

Lemma report_group_ok s p cs d :
  good p cs →
  ∃ res d', report_group np_sum cfg clock iter_set s cs d = (Ok res, d') ∧ alerting d d' ∧
    if (1 <? length (real (calibration_type d) cs))%nat
    then ∃ x, res = [x] ∧ describes (calibration_type d) s p cs x ∧ ∀ o, o ∈ in_objectIds x.1 → is_Some (nget (alert_list d') s o)
    else res = [].
Proof.
  intros Hg. pose proof Hg as [Hst Hm]. unfold report_group.
  assert (iter_set (cs_object_ids cs) ≡ₚ cs_object_ids cs) as HL by apply iterate, Hst.
  rewrite (bind_Ok _ _ _ _ _ (ghosts_ok p cs (iter_set (cs_object_ids cs)) d Hg ltac:(intros o; by rewrite HL))).
  destruct (real_split (calibration_type d) cs (iter_set (cs_object_ids cs)) (ok_ids _ _ Hst) HL) as [Hreal Hlen].
  set (G := filter (λ o, is_ghost (calibration_type d) cs o = true) (iter_set (cs_object_ids cs))) in *. rewrite HL in Hlen.
  replace (length (cs_object_ids cs) - length G)%nat with (length (real (calibration_type d) cs)) by lia.
  destruct (1 <? _)%nat; [|exists [], d; split_and!; [done|apply alerting_refl|done]].
  set (cs' := set_object_ids _ cs). assert (cs_object_ids cs' ≡ₚ real (calibration_type d) cs) as Hids by done.
  assert (p ∈ cs_object_ids cs') as Hp.
  { rewrite Hids. apply list_elem_of_filter. split; [|apply Hst]. unfold is_ghost. by rewrite (ok_primary _ _ Hst), String.eqb_refl. }
  assert (good p cs') as Hg'.
  { split; [|done]. split; [apply Hst|done|rewrite Hids; apply NoDup_filter, Hst|]. intros o. rewrite Hids. intros [_ Ho]%list_elem_of_filter. by apply Hst. }
  destruct (incident_ok p cs' d Hg') as (inc & d1 & E1 & Ha1 & I1 & I2 & I3 & I4). rewrite (bind_Ok _ _ _ _ _ E1).
  set (d2 := set_alerts (open_sensor (alert_list d1) s) d1). change ((_ ← smod _; ?k) d1) with (k d2).
  destruct (record_alerts_ok s (iter_set (cs_object_ids cs')) d2) as (d3 & E3 & Ha3 & Ho3). rewrite (bind_Ok _ _ _ _ _ E3).
  assert (iter_set (cs_object_ids cs') ≡ₚ real (calibration_type d) cs) as HL' by (rewrite <- Hids; apply iterate; apply Hg').
  exists [(inc, cs')], d3. split; [done|]. split; [eapply alerting_trans; [exact Ha1|]; eapply alerting_trans; [apply open_alerting|done]|].
  exists (inc, cs'). split; [done|]. split; [|intros o; cbn; rewrite I1; apply Ho3].
  split; cbn; [by rewrite I1|done|done|done|done].
Qed.

(** The reports of a sensor, [due] telling which groups were found to be over *)
Record reports calibration s gs (due : string → bool) (res : list (Incident * State)) (removed : list string) d d' : Prop := {
  re_alerting : alerting d d';
  re_due p cs : (p, cs) ∈ gs → ∃ n, (readings d ≤ n < readings d')%nat ∧ due p = is_timeout (clock n) cs;
  re_removed o : o ∈ removed ↔ ∃ p cs, (p, cs) ∈ gs ∧ due p = true ∧ o ∈ cs_object_ids cs;
  re_reported p cs : (p, cs) ∈ gs → due p = true → (1 < length (real calibration cs))%nat → ∃ x, x ∈ res ∧ describes calibration s p cs x;
  re_only x : x ∈ res → (∃ p cs, (p, cs) ∈ gs ∧ due p = true ∧ (1 < length (real calibration cs))%nat ∧ describes calibration s p cs x) ∧
    ∀ o, o ∈ in_objectIds x.1 → is_Some (nget (alert_list d') s o);
}.

Lemma real_ids calibration cs : (length (real calibration cs) ≤ length (cs_object_ids cs))%nat.
Proof. apply length_filter. Qed.

Lemma alerts_of_group_ok s p cs acc d :
  good p cs → (p ∉ acc.2) →
  ∃ res removed b d', alerts_of_group np_sum cfg clock iter_set s (p, cs) acc d = (Ok (acc.1 ++ res, acc.2 ++ removed), d') ∧
    reports (calibration_type d) s [(p, cs)] (λ _, b) res removed d d'.
Proof.
  intros Hg Hp. pose proof (proj1 Hg) as Hst. destruct acc as [incs rem]. unfold alerts_of_group. rewrite bind_now. cbn [fst snd] in *.
  assert (alerting d (tick (S (readings d)) d)) as Ha by (exists (alert_list d), (S (readings d)); split_and!; [done|lia|done|done]).
  destruct (is_timeout (clock (readings d)) cs) eqn:Et.
  2: { exists [], [], false, (tick (S (readings d)) d). rewrite !app_nil_r. split; [done|]. split; [done| | | |].
    - intros p' cs' [= -> ->]%list_elem_of_singleton. exists (readings d). cbn. split; [lia|done].
    - intros o. split; [by intros ?%elem_of_nil|by intros (? & ? & _ & [=] & _)].
    - done. - by intros x ?%elem_of_nil. }
  rewrite bool_decide_false by done. cbn [negb andb]. rewrite andb_true_r.
  set (removed := p :: filter (.≠ p) (iter_set (cs_object_ids cs))).
  assert (∀ o, o ∈ removed ↔ o ∈ cs_object_ids cs) as Hrem.
  { intros o. unfold removed. rewrite elem_of_cons, list_elem_of_filter, (iterate (cs_object_ids cs)) by apply Hst.
    destruct (decide (o = p)) as [->|]; [|naive_solver]. split; [intros _; apply Hst|by left]. }
  destruct (report_group_ok s p cs (tick (S (readings d)) d) Hg) as (res & d2 & E2 & Ha2 & Hres). cbn [calibration_type tick] in Hres.
  assert (∃ res d2, (if (1 <? length (cs_object_ids cs))%nat then report_group np_sum cfg clock iter_set s cs else mret []) (tick (S (readings d)) d) = (Ok res, d2) ∧
    alerting (tick (S (readings d)) d) d2 ∧
    if (1 <? length (real (calibration_type d) cs))%nat
    then ∃ x, res = [x] ∧ describes (calibration_type d) s p cs x ∧ ∀ o, o ∈ in_objectIds x.1 → is_Some (nget (alert_list d2) s o)
    else res = []) as (res' & d2' & E & Ha' & Hres').
  { destruct (1 <? length (cs_object_ids cs))%nat eqn:El; [by exists res, d2|]. exists [], (tick (S (readings d)) d).
    split_and!; [done|apply alerting_refl|]. pose proof (real_ids (calibration_type d) cs). apply Nat.ltb_ge in El.
    by rewrite (proj2 (Nat.ltb_ge _ _)) by lia. }
  clear res d2 E2 Ha2 Hres. rewrite (bind_Ok _ _ _ _ _ E). exists res', removed, true, d2'. split; [done|].
  split; [by eapply alerting_trans| | | |].
  - intros p' cs' [= -> ->]%list_elem_of_singleton. exists (readings d). split; [|done].
    apply alerting_readings in Ha'. cbn in Ha'. lia.
  - intros o. rewrite Hrem. split; [intros Ho; exists p, cs; split_and!; [by left|done|done]|].
    by intros (? & ? & [= -> ->]%list_elem_of_singleton & _ & ?).
  - intros p' cs' [= -> ->]%list_elem_of_singleton _ Hl. rewrite (proj2 (Nat.ltb_lt _ _) Hl) in Hres'.
    destruct Hres' as (x & -> & Hx & _). exists x. split; [by left|done].
  - intros x Hx. destruct (1 <? length (real (calibration_type d) cs))%nat eqn:El in Hres'; [|rewrite Hres' in Hx; by apply elem_of_nil in Hx]. apply Nat.ltb_lt in El.
    destruct Hres' as (y & -> & Hy & Ho). apply list_elem_of_singleton in Hx as ->. split; [|done]. exists p, cs. split_and!; [by left|done..].
Qed.

Lemma alerts_of_groups_ok s gs acc d :
  dict_wf gs → (∀ p cs, (p, cs) ∈ gs → good p cs) → (∀ p cs q csq, (p, cs) ∈ gs → (q, csq) ∈ gs → q ∈ cs_object_ids cs → q = p) →
  (∀ p cs, (p, cs) ∈ gs → p ∉ acc.2) →
  ∃ res removed due d', alerts_of_groups np_sum cfg clock iter_set s gs acc d = (Ok (acc.1 ++ res, acc.2 ++ removed), d') ∧
    reports (calibration_type d) s gs due res removed d d'.
Proof.
  revert acc d. induction gs as [|[p cs] gs IH]; intros acc d Hw Hg Hd Hp.
  { exists [], [], (λ _, false), d. rewrite !app_nil_r. split; [by destruct acc|].
    split; [apply alerting_refl|by intros ? ? ?%elem_of_nil| |by intros ? ? ?%elem_of_nil|by intros ? ?%elem_of_nil].
    intros o. split; [by intros ?%elem_of_nil|by intros (? & ? & ?%elem_of_nil & _)]. }
  apply NoDup_cons in Hw as [Hnp Hw].
  destruct (alerts_of_group_ok s p cs acc d) as (res1 & rem1 & b & d1 & E1 & R1); [apply Hg; by left|eapply Hp; by left|].
  cbn [alerts_of_groups]. rewrite (bind_Ok _ _ _ _ _ E1).
  destruct (IH (acc.1 ++ res1, acc.2 ++ rem1) d1) as (res2 & rem2 & due & d2 & E2 & R2);
    [done|intros q csq Hq; apply Hg; by right|intros q csq q' csq' Hq Hq'; apply (Hd q csq q' csq'); by right| |].
  { intros q csq Hq. cbn. rewrite not_elem_of_app. split; [eapply Hp; by right|]. intros Hr. apply (re_removed _ _ _ _ _ _ _ _ R1) in Hr as (p' & cs' & [= -> ->]%list_elem_of_singleton & _ & Ho).
    assert (q = p) as -> by (eapply (Hd p cs q csq); [by left|by right|done]). apply Hnp, list_elem_of_fmap. by exists (p, csq). }
  destruct (alerting_groups _ _ (re_alerting _ _ _ _ _ _ _ _ R1)) as [_ Hcal]. rewrite Hcal in R2.
  assert (∀ q csq, (q, csq) ∈ gs → q ≠ p) as Hne' by (intros q csq Hq ->; apply Hnp, list_elem_of_fmap; by exists (p, csq)).
  pose proof (alerting_readings _ _ (re_alerting _ _ _ _ _ _ _ _ R1)) as Hn1. pose proof (alerting_readings _ _ (re_alerting _ _ _ _ _ _ _ _ R2)) as Hn2.
  set (due' := λ q, if decide (q = p) then b else due q).
  assert (due' p = b) as Hdp by (unfold due'; by rewrite decide_True).
  assert (∀ q csq, (q, csq) ∈ gs → due' q = due q) as Hdq by (intros q csq Hq; unfold due'; rewrite decide_False; [done|by eapply Hne']).
  exists (res1 ++ res2), (rem1 ++ rem2), due', d2. rewrite !(assoc_L (++)). split; [done|]. split.
  - eapply alerting_trans; [apply R1|apply R2].
  - intros q csq [[= -> ->]|Hq]%elem_of_cons.
    + destruct (re_due _ _ _ _ _ _ _ _ R1 p cs) as (n & Hn & Hdue); [by left|]. exists n. split; [lia|by rewrite Hdp].
    + destruct (re_due _ _ _ _ _ _ _ _ R2 q csq Hq) as (n & Hn & Hdue). exists n. split; [lia|by rewrite (Hdq q csq)].
  - intros o. rewrite elem_of_app, (re_removed _ _ _ _ _ _ _ _ R1), (re_removed _ _ _ _ _ _ _ _ R2). split.
    + intros [(q & csq & [= -> ->]%list_elem_of_singleton & Hb & Ho)|(q & csq & Hq & Hb & Ho)]; [exists p, cs|exists q, csq].
      * split_and!; [by left|by rewrite Hdp|done].
      * split_and!; [by right|by rewrite (Hdq q csq)|done].
    + intros (q & csq & [[= -> ->]|Hq]%elem_of_cons & Hb & Ho); [left; exists p, cs|right; exists q, csq].
      * split_and!; [by left|by rewrite <- Hdp|done].
      * split_and!; [done|by rewrite <- (Hdq q csq)|done].
  - intros q csq [[= -> ->]|Hq]%elem_of_cons Hb Hl.
    + destruct (re_reported _ _ _ _ _ _ _ _ R1 p cs) as (x & Hx & Hdx); [by left|by rewrite <- Hdp|done|]. exists x. rewrite elem_of_app. by split; [left|].
    + destruct (re_reported _ _ _ _ _ _ _ _ R2 q csq Hq) as (x & Hx & Hdx); [by rewrite <- (Hdq q csq)|done|]. exists x. rewrite elem_of_app. by split; [right|].
  - intros x [Hx|Hx]%elem_of_app.
    + destruct (re_only _ _ _ _ _ _ _ _ R1 x Hx) as [(q & csq & [= -> ->]%list_elem_of_singleton & Hb & Hl & Hdx) Ho]. split.
      * exists p, cs. split_and!; [by left|by rewrite Hdp|done|done].
      * intros o Hin. eapply alerting_keeps; [apply R2|by apply Ho].
    + destruct (re_only _ _ _ _ _ _ _ _ R2 x Hx) as [(q & csq & Hq & Hb & Hl & Hdx) Ho]. split; [|done].
      exists q, csq. split_and!; [by right|by rewrite (Hdq q csq)|done|done].
Qed.

Lemma removes_alerting s l d : alert_list (foldl (λ d o, remove_object_id s o d) d l) = alert_list d ∧
  calibration_type (foldl (λ d o, remove_object_id s o d) d l) = calibration_type d ∧
  readings (foldl (λ d o, remove_object_id s o d) d l) = readings d.
Proof.
  revert d. induction l as [|o l IH]; intros d; [done|]. cbn. destruct (IH (remove_object_id s o d)) as (-> & -> & ->).
  split_and!; [apply remove_alerts|apply remove_calibration|]. unfold remove_object_id. cbn. by destruct (nget _ s o).
Qed.
Lemma removes_lookup s l d s' p :
  dget (groups_of s' (foldl (λ d o, remove_object_id s o d) d l)) p = if decide (s = s' ∧ p ∈ l) then None else dget (groups_of s' d) p.
Proof.
  revert d. induction l as [|o l IH]; intros d; [rewrite decide_False; [done|by intros [_ ?%elem_of_nil]]|].
  cbn. rewrite IH, remove_groups. destruct (decide (s = s')) as [<-|Hs].
  - destruct (decide (p ∈ l)) as [Hp|Hp]; [rewrite !decide_True; set_solver|]. rewrite decide_False, dget_ddel by tauto.
    destruct (decide (p = o)) as [->|Hne]; [by rewrite !decide_True by set_solver|]. rewrite !decide_False; set_solver.
  - by rewrite !decide_False by tauto.
Qed.
Lemma removes_forgotten s l d s' o :
  inv d → forgotten s' o d → forgotten s' o (foldl (λ d o, remove_object_id s o d) d l).
Proof.
  revert d. induction l as [|o' l IH]; intros d Hd Ho; [done|]. apply IH; [by apply remove_inv|by apply remove_keeps_forgotten].
Qed.
Lemma alerting_forgotten s o d d' : alerting d d' → forgotten s o d → forgotten s o d'.
Proof. intros (m & n & -> & _) []. by split. Qed.

(** What a round of reports does to the groups of the sensors [ss] *)
Record alerted (ss : list string) d (res : list (Incident * State)) d' : Prop := {
  al_inv : inv d';
  al_calibration : calibration_type d' = calibration_type d;
  al_readings : (readings d ≤ readings d')%nat;
  al_others s p : s ∉ ss ∨ dget (groups_of s d) p = None → dget (groups_of s d') p = dget (groups_of s d) p;
  al_group s p cs : s ∈ ss → dget (groups_of s d) p = Some cs →
    ∃ n, (readings d ≤ n < readings d')%nat ∧
      if is_timeout (clock n) cs
      then dget (groups_of s d') p = None ∧ (∀ o, o ∈ cs_object_ids cs → forgotten s o d') ∧
        ((1 < length (real (calibration_type d) cs))%nat → ∃ x, x ∈ res ∧ describes (calibration_type d) s p cs x)
      else dget (groups_of s d') p = Some cs;
  al_only x : x ∈ res → ∃ s p cs, s ∈ ss ∧ dget (groups_of s d) p = Some cs ∧ dget (groups_of s d') p = None ∧
    (1 < length (real (calibration_type d) cs))%nat ∧ describes (calibration_type d) s p cs x ∧
    ∀ o, o ∈ in_objectIds x.1 → is_Some (nget (alert_list d') s o);
  al_forgotten s o : forgotten s o d → forgotten s o d';
  al_alerts s o : is_Some (nget (alert_list d) s o) → is_Some (nget (alert_list d') s o);
}.

Lemma alerted_nil d : inv d → alerted [] d [] d.
Proof. intros Hd. split; try done; [by intros ? ? ? ?%elem_of_nil|by intros ? ?%elem_of_nil]. Qed.

Lemma alerted_app ss1 ss2 d r1 d1 r2 d2 :
  NoDup (ss1 ++ ss2) → alerted ss1 d r1 d1 → alerted ss2 d1 r2 d2 → alerted (ss1 ++ ss2) d (r1 ++ r2) d2.
Proof.
  intros (_ & Hdis & _)%NoDup_app H1 H2. pose proof (al_calibration _ _ _ _ H1) as Hc. pose proof (al_readings _ _ _ _ H1). pose proof (al_readings _ _ _ _ H2).
  split.
  - apply H2.
  - by rewrite (al_calibration _ _ _ _ H2).
  - lia.
  - intros s p Hs. assert (dget (groups_of s d1) p = dget (groups_of s d) p) as E1.
    { apply (al_others _ _ _ _ H1). destruct Hs as [[Hs _]%not_elem_of_app|Hs]; [by left|by right]. }
    rewrite <- E1. apply (al_others _ _ _ _ H2). destruct Hs as [[_ Hs]%not_elem_of_app|Hs]; [by left|right; congruence].
  - intros s p cs [Hs|Hs]%elem_of_app Hp.
    + destruct (al_group _ _ _ _ H1 s p cs Hs Hp) as (n & Hn & Hg). exists n. split; [lia|].
      rewrite (al_others _ _ _ _ H2) by (left; by eapply Hdis). destruct (is_timeout (clock n) cs); [|done].
      destruct Hg as (Hg & Hf & Hr). split_and!; [done|intros o Ho; by apply (al_forgotten _ _ _ _ H2), Hf|].
      intros Hl. destruct (Hr Hl) as (x & Hx & Hdx). exists x. rewrite elem_of_app. by split; [left|].
    + rewrite <- (al_others _ _ _ _ H1) in Hp by (left; intros Hs1; by apply (Hdis _ Hs1)).
      destruct (al_group _ _ _ _ H2 s p cs Hs Hp) as (n & Hn & Hg). exists n. split; [lia|]. rewrite Hc in Hg.
      destruct (is_timeout (clock n) cs); [|done]. destruct Hg as (Hg & Hf & Hr). split_and!; [done|done|].
      intros Hl. destruct (Hr Hl) as (x & Hx & Hdx). exists x. rewrite elem_of_app. by split; [right|].
  - intros x [Hx|Hx]%elem_of_app.
    + destruct (al_only _ _ _ _ H1 x Hx) as (s & p & cs & Hs & Hp & Hp' & Hl & Hdx & Ho). exists s, p, cs.
      split_and!; [apply elem_of_app; by left|done| |done|done|intros o Hin; by apply (al_alerts _ _ _ _ H2), Ho].
      by rewrite (al_others _ _ _ _ H2) by (by right).
    + destruct (al_only _ _ _ _ H2 x Hx) as (s & p & cs & Hs & Hp & Hp' & Hl & Hdx & Ho). rewrite Hc in Hl, Hdx. exists s, p, cs.
      split_and!; [apply elem_of_app; by right| |done..].
      rewrite <- (al_others _ _ _ _ H1); [done|]. left. intros Hs1. by apply (Hdis _ Hs1).
  - intros s o Ho. by apply (al_forgotten _ _ _ _ H2), (al_forgotten _ _ _ _ H1).
  - intros s o Ho. by apply (al_alerts _ _ _ _ H2), (al_alerts _ _ _ _ H1).
Qed.

Lemma removed_due gs (due : string → bool) (removed : list string) p cs :
  stable gs → (∀ o, o ∈ removed ↔ ∃ p cs, (p, cs) ∈ gs ∧ due p = true ∧ o ∈ cs_object_ids cs) → dget gs p = Some cs → p ∈ removed ↔ due p = true.
Proof.
  intros Hst Hrem Hp. rewrite Hrem. split.
  - intros (q & csq & Hq & Hdue & Ho). enough (p = q) as -> by done. apply elem_dget in Hq; [|apply Hst].
    eapply (st_disjoint _ Hst p q cs csq p); [done|done|eapply good_member, (st_good _ Hst); exact Hp|by apply elem_ids].
  - intros Hdue. exists p, cs. split_and!; [by apply dget_elem|done|]. apply elem_ids. eapply good_member, (st_good _ Hst); exact Hp.
Qed.
Lemma alerts_of_sensor_ok s d :
  inv d → ∃ res d', (∀ ss, alerts_of_sensors np_sum cfg clock iter_set (s :: ss) d =
      (rest ← alerts_of_sensors np_sum cfg clock iter_set ss; mret (res ++ rest)) d') ∧ alerted [s] d res d'.
Proof.
  intros Hd. pose proof (iv_stable _ Hd s) as Hst.
  assert (∀ p cs, (p, cs) ∈ groups_of s d → dget (groups_of s d) p = Some cs) as Hin by (intros p cs; apply elem_dget, Hst).
  destruct (alerts_of_groups_ok s (groups_of s d) ([], []) d) as (res & removed & due & d1 & E1 & R);
    [apply Hst|intros p cs Hp; by eapply Hst, Hin| |intros p cs _; apply not_elem_of_nil|].
  { intros p cs q csq Hp Hq Ho. eapply (st_disjoint _ Hst q p csq cs q); [by apply Hin|by apply Hin|eapply good_member, (st_good _ Hst), Hin, Hq|by apply elem_ids]. }
  set (d2 := foldl (λ d o, remove_object_id s o d) d1 removed). exists res, d2.
  split; [intros ss; cbn [alerts_of_sensors]; rewrite bind_get; by rewrite (bind_Ok _ _ _ _ _ E1)|].
  pose proof (re_alerting _ _ _ _ _ _ _ _ R) as Ha. destruct (alerting_groups _ _ Ha) as [Hpm Hcal].
  destruct (removes_alerting s removed d1) as (Hal & Hcal2 & Hrd). assert (inv d1) as Hd1 by by eapply alerting_inv.
  assert (∀ s', groups_of s' d1 = groups_of s' d) as Hg1 by (intros s'; unfold groups_of; by rewrite Hpm).
  split.
  - by apply removes_inv.
  - unfold d2. by rewrite Hcal2.
  - unfold d2. rewrite Hrd. by apply alerting_readings.
  - intros s' p Hs. unfold d2. rewrite removes_lookup, Hg1. destruct (decide (s = s' ∧ p ∈ removed)) as [[-> Hp]|]; [|done].
    destruct Hs as [Hs|Hs]; [destruct Hs; by left|done].
  - intros s' p cs ->%list_elem_of_singleton Hp. destruct (re_due _ _ _ _ _ _ _ _ R p cs) as (n & Hn & Hdue); [by apply dget_elem|].
    exists n. unfold d2. rewrite Hrd. split; [done|]. rewrite <- Hdue, removes_lookup, Hg1.
    pose proof (removed_due _ due removed p cs Hst (re_removed _ _ _ _ _ _ _ _ R) Hp) as Hrm.
    destruct (due p) eqn:Ed; [|rewrite decide_False; [done|intros [_ Hx]; by apply Hrm in Hx]].
    rewrite decide_True by (split; [done|by apply Hrm]). split_and!; [done| |intros Hl; apply (re_reported _ _ _ _ _ _ _ _ R); by try apply dget_elem].
    intros o Ho. apply removes_forget; [done|]. right. apply (re_removed _ _ _ _ _ _ _ _ R). exists p, cs. by split_and!; [apply dget_elem|..].
  - intros x Hx. destruct (re_only _ _ _ _ _ _ _ _ R x Hx) as [(p & cs & Hp & Hdue & Hl & Hdx) Ho]. pose proof (Hin _ _ Hp) as Hg. exists s, p, cs.
    split_and!; [by left|done| |done|done|].
    + unfold d2. rewrite removes_lookup, decide_True; [done|]. split; [done|]. by apply (removed_due _ due removed p cs Hst (re_removed _ _ _ _ _ _ _ _ R) Hg).
    + intros o Hin'. unfold d2. rewrite Hal. by apply Ho.
  - intros s' o Ho. apply removes_forgotten; [done|]. by eapply alerting_forgotten.
  - intros s' o Ho. unfold d2. rewrite Hal. by eapply alerting_keeps.
Qed.

Lemma alerts_of_sensors_ok (ss : list string) d :
  NoDup ss → inv d → ∃ res d', alerts_of_sensors np_sum cfg clock iter_set ss d = (Ok res, d') ∧ alerted ss d res d'.
Proof.
  revert d. induction ss as [|s ss IH]; intros d Hnd Hd; [exists [], d; split; [done|by apply alerted_nil]|].
  destruct (alerts_of_sensor_ok s d Hd) as (r1 & d1 & E1 & H1). destruct (IH d1) as (r2 & d2 & E2 & H2); [by apply NoDup_cons in Hnd as [_ ?]|apply H1|].
  exists (r1 ++ r2), d2. split; [by rewrite E1, (bind_Ok _ _ _ _ _ E2)|by apply (alerted_app [s] ss d r1 d1)].
Qed.

Lemma alerts_ok d :
  inv d → enable cfg = true → ∃ res d', get_collision_alerts np_sum cfg clock iter_set d = (Ok res, d') ∧ alerted (dkeys (potential_collision_map d)) d res d'.
Proof.
  intros Hd He. unfold get_collision_alerts. rewrite bind_get, He. apply alerts_of_sensors_ok; [apply Hd|done].
Qed.

Lemma frame_regroups_ok s id frame d :
  inv d → frame ≠ [] → proper cfg frame → room s 1 d →
  ∃ fr d', process_frame bearing cfg clock iter_set s (id, frame) d = (Ok tt, d') ∧ inv d' ∧
    frame_at d' s (next_id s d) = Some fr ∧ dkeys (fd_objects fr) = targets cfg frame ∧
    (∀ s', s' ≠ s → groups_of s' d' = groups_of s' d) ∧
    rtc (regroup (close_in cfg (calibration_type d') fr)) (view [] (groups_of s d)) (view [] (groups_of s d')) ∧
    ∀ p o, is_Some (dget (groups_of s d') p) → p ∈ targets cfg frame → close_in cfg (calibration_type d') fr p o → member s p o d'.
Proof.
  intros Hd Hf Hp [_ Hr]. unfold process_frame. assert ((0 <? length frame)%nat = true) as -> by by destruct frame.
  destruct (update_frame_ok bearing cfg clock s frame id d Hd Hp) as (present & fr & d1 & E1 & Hfm & Hd1 & Hk & Hpr & Hdt).
  { specialize (Hr 0 ltac:(lia)). by rewrite Z.add_0_r, Z.mod_small in Hr by by apply next_id_range. }
  rewrite (bind_Ok _ _ _ _ _ E1).
  destruct (on_new_frame_ok cfg iter_set iterate s present fr d1) as (d2 & E2 & Hrg & Hs); [apply Hd1| |done|intros o; by apply inv_listed|apply Hd1|].
  { intros o Ho. apply dget_is_Some. by rewrite Hk, <- Hpr. }
  pose proof (rg_quiet _ _ _ _ Hrg) as Hq. rewrite <- (q_calibration _ _ _ Hq) in Hrg, Hs.
  assert (∀ s', groups_of s' d1 = groups_of s' d) as Hg by (intros s'; unfold groups_of; by rewrite (fm_groups _ _ _ _ Hfm)).
  exists fr, d2. split_and!; [done|eapply quiet_keeps_inv; [done|apply Hrg|done]| |done| | |].
  - by rewrite (q_frames _ _ _ Hq), (fm_frames _ _ _ _ Hfm), decide_True.
  - intros s' Hne. by rewrite (groups_quiet _ _ _ _ Hq Hne).
  - rewrite <- Hg. apply Hrg.
  - intros p o Hgp Hpt Hc. subst present. by apply (Hs p Hgp Hpt).
Qed.

(** ** What the service does with the detector *)

Inductive event :=
  | FramesSeen (frames : batch)
  | BehaviorsSeen (behaviors : list (Behavior T))
  | Suspicion (potential_object_id sensor_id : string) (behavior : Behavior T) (trigger_modules : list string)
  | Reports.
Definition handle (e : event) : stM Detector (list (Incident * State)) :=
  match e with
  | FramesSeen frames => _ ← update_frames bearing cfg clock iter_set frames; mret []
  | BehaviorsSeen behaviors => _ ← update_behaviors iter_set behaviors; mret []
  | Suspicion p s behavior modules => _ ← update_potential_collision cfg clock iter_set p s behavior modules; mret []
  | Reports => get_collision_alerts np_sum cfg clock iter_set
  end.
Definition admissible d (e : event) : Prop :=
  match e with
  | FramesSeen frames => proper_batch frames d
  | BehaviorsSeen behaviors => ∀ b, b ∈ behaviors → two_part b
  | _ => True
  end.
Inductive reached : Detector → Prop :=
  | reached_new calibration : calibration ≠ CARTESIAN → reached (new_CollisionDetection calibration)
  | reached_step d e r d' : reached d → admissible d e → handle e d = (r, d') → reached d'.

Lemma handle_ok e d : inv d → admissible d e → ∃ res d', handle e d = (Ok res, d') ∧ inv d'.
Proof.
  intros Hd Ha. destruct e as [frames|bs|p s b modules|].
  - destruct (update_frames_ok frames d Hd Ha) as (d' & E & Hd' & _). exists [], d'. cbn. by rewrite (bind_Ok _ _ _ _ _ E).
  - destruct (update_behaviors_ok bs d Hd Ha) as (d' & E & Hd' & _). exists [], d'. cbn. by rewrite (bind_Ok _ _ _ _ _ E).
  - destruct (enable cfg) eqn:He.
    + destruct (update_potential_ok s p b modules d Hd He) as (d' & E & Hs). exists [], d'. cbn. rewrite (bind_Ok _ _ _ _ _ E). split; [done|apply Hs].
    + exists [], d. split; [|done]. cbn. unfold update_potential_collision, mbind, stM_bind, sget. by rewrite He.
  - destruct (enable cfg) eqn:He.
    + destruct (alerts_ok d Hd He) as (res & d' & E & Hal). exists res, d'. split; [done|apply Hal].
    + exists [], d. split; [|done]. cbn. unfold get_collision_alerts, mbind, stM_bind, sget. by rewrite He.
Qed.
Lemma reached_inv d : reached d → inv d.
Proof.
  induction 1 as [c Hc|d e r d' _ IH Ha E]; [by apply new_inv|]. destruct (handle_ok e d IH Ha) as (res & d1 & E1 & Hd1). congruence.
Qed.

(** ** Properties *)

(** C32. With geographic or image coordinates, no operation of the detector raises
    on proper frames and behaviors with two-part names, and the detector is
    well-formed again, whatever such frames and behaviors, suspicions and report
    requests came before: disjoint groups led by their primary object, frames
    counting exactly the objects that refer to them, dated proximity moments. A
    proper frame has a dated first timestamp, shows each object once and none
    whose name starts with an underscore, and its sensor has a frame number free.
    Where these fail an operation can raise (the examples [cartesian_raises] and
    [dangling_frame] of CollisionRuns.v). *)
Theorem detector_safe d e :
  reached d → admissible d e → ∃ res d', handle e d = (Ok res, d') ∧ reached d' ∧ inv d'.
Proof.
  intros Hd Ha. destruct (handle_ok e d (reached_inv d Hd) Ha) as (res & d' & E & Hd'). exists res, d'.
  split_and!; [done|by eapply reached_step|done].
Qed.

(** C33. A frame regroups the objects of its sensor as the closeness it shows says,
    and by nothing else: each step lets an object in no group join one whose primary
    object it is close to, or unites two groups of which one has an object close to
    the other's primary object. When it is done, every primary object that stays and
    is in the frame has all objects the frame shows close to it in its group, every
    old group is inside a new one, and other sensors keep their groups. *)
Theorem frame_regroups s id frame d :
  reached d → frame ≠ [] → proper cfg frame → room s 1 d →
  ∃ fr d', process_frame bearing cfg clock iter_set s (id, frame) d = (Ok tt, d') ∧
    frame_at d' s (next_id s d) = Some fr ∧ dkeys (fd_objects fr) = targets cfg frame ∧
    (∀ s', s' ≠ s → groups_of s' d' = groups_of s' d) ∧
    rtc (regroup (close_in cfg (calibration_type d') fr)) (view [] (groups_of s d)) (view [] (groups_of s d')) ∧
    (∀ p o, is_Some (dget (groups_of s d') p) → p ∈ targets cfg frame → close_in cfg (calibration_type d') fr p o → member s p o d') ∧
    ∀ p cs, dget (groups_of s d) p = Some cs → ∃ q cs', dget (groups_of s d') q = Some cs' ∧ ids cs ⊆ ids cs'.
Proof.
  intros Hd%reached_inv Hf Hp Hr. destruct (frame_regroups_ok s id frame d Hd Hf Hp Hr) as (fr & d' & E & _ & H1 & H2 & H3 & H4 & H5).
  exists fr, d'. split_and!; [done..|]. intros p cs Hcs.
  destruct (regroups_covered _ _ _ p (ids cs) H4) as (q & Y & HY & Hsub); [apply view_some; split; [by apply not_elem_of_nil|by exists cs]|].
  apply view_some in HY as (_ & cs' & Hcs' & ->). by exists q, cs'.
Qed.

(** A suspicion about an object that is being tracked, in a group of its own or
    in another's, or that was alerted changes no group. About any other object it
    opens a group of that object alone, and then regroups by the frames the object
    is listed in: it takes in, alone or with their groups, only objects close to it
    in one of them. Groups are never split, other sensors keep theirs. *)
Theorem suspicion_regroups s p behavior modules d :
  reached d → enable cfg = true →
  ∃ d', update_potential_collision cfg clock iter_set p s behavior modules d = (Ok tt, d') ∧
    (∀ s', s' ≠ s → groups_of s' d' = groups_of s' d) ∧
    (is_Some (nget (alert_list d) s p) ∨ check_is_in_potential_collision p s d ≠ None → groups_of s d' = groups_of s d) ∧
    (nget (alert_list d) s p = None → check_is_in_potential_collision p s d = None →
      rtc (regroup (seen_close cfg s p d)) (<[p := {[p]}]> (view [] (groups_of s d))) (view [] (groups_of s d')) ∧
      (∃ q, member s q p d') ∧ ∀ q cs, dget (groups_of s d) q = Some cs → q = p ∨ ∃ q' cs', dget (groups_of s d') q' = Some cs' ∧ ids cs ⊆ ids cs').
Proof.
  intros Hd%reached_inv He. destruct (update_potential_ok s p behavior modules d Hd He) as (d' & E & Hs). exists d'.
  split_and!; [done|intros s' Hne; by apply (groups_quiet _ _ _ _ (su_quiet _ _ _ _ Hs))|apply Hs|].
  intros Ha Hc. pose proof (su_new _ _ _ _ Hs Ha Hc) as Hr. split_and!; [done| |].
  - destruct (regroups_covered _ _ _ p {[p]} Hr) as (q & Y & HY & Hsub); [apply lookup_insert_eq|].
    apply view_some in HY as (_ & cs' & Hcs' & ->). exists q, cs'. split; [done|set_solver].
  - intros q cs Hcs. destruct (decide (q = p)) as [->|Hq]; [by left|right].
    destruct (regroups_covered _ _ _ q (ids cs) Hr) as (q' & Y & HY & Hsub).
    { rewrite lookup_insert_ne by done. apply view_some. split; [by apply not_elem_of_nil|by exists cs]. }
    apply view_some in HY as (_ & cs' & Hcs' & ->). by exists q', cs'.
Qed.

(** C34. A round of reports settles every group by one reading of the clock: a group
    whose time is not over stays as it is; one whose time is over goes, and every
    object of it is forgotten everywhere; if more than one of its objects is real
    (its primary object, or no ghost) it is reported with exactly those, under its
    sensor and primary object. Nothing else is reported, and every object reported
    is in the alert list. *)
Theorem alerts_exact d :
  reached d → enable cfg = true →
  ∃ res d', get_collision_alerts np_sum cfg clock iter_set d = (Ok res, d') ∧
    (∀ s p, dget (groups_of s d) p = None → dget (groups_of s d') p = None) ∧
    (∀ s p cs, dget (groups_of s d) p = Some cs → ∃ n, (readings d ≤ n < readings d')%nat ∧
      if is_timeout (clock n) cs
      then dget (groups_of s d') p = None ∧ (∀ o, o ∈ cs_object_ids cs → forgotten s o d') ∧
        ((1 < length (real (calibration_type d) cs))%nat → ∃ x, x ∈ res ∧ describes (calibration_type d) s p cs x)
      else dget (groups_of s d') p = Some cs) ∧
    ∀ x, x ∈ res → ∃ s p cs, dget (groups_of s d) p = Some cs ∧ dget (groups_of s d') p = None ∧
      (1 < length (real (calibration_type d) cs))%nat ∧ describes (calibration_type d) s p cs x ∧
      ∀ o, o ∈ in_objectIds x.1 → is_Some (nget (alert_list d') s o).
Proof.
  intros Hd%reached_inv He. destruct (alerts_ok d Hd He) as (res & d' & E & H). exists res, d'. split_and!; [done|..].
  - intros s p Hp. rewrite (al_others _ _ _ _ H); [done|by right].
  - intros s p cs Hp. apply (al_group _ _ _ _ H); [|done]. apply dget_is_Some. unfold groups_of in Hp.
    destruct (dget (potential_collision_map d) s); [by eexists|discriminate].
  - intros x Hx. destruct (al_only _ _ _ _ H x Hx) as (s & p & cs & _ & Hp & Hp' & Hl & Hdx & Ho). by exists s, p, cs.
Qed.

(** A batch of frames ends with nothing stale: by some reading of the clock
    after the batch, every frame kept is at most half an hour old, every alert kept
    younger than its threshold, and every object kept was seen within five minutes
    or is tracked in a group. *)
Theorem cleanup_bounds frames d :
  reached d → proper_batch frames d → enable cfg = true →
  ∃ n0 d', update_frames bearing cfg clock iter_set frames d = (Ok tt, d') ∧ (readings d ≤ n0)%nat ∧ ∀ s,
    (∀ f fr, frame_at d' s f = Some fr → ∃ n t, (n0 ≤ n < readings d')%nat ∧ iso_to_epoch (clock n) = Ok t ∧
      fgeZ (div_ints (t - fd_timestamp fr) 1000) (30 * 60) = false) ∧
    (∀ o t, nget (alert_list d') s o = Some t → ∃ n, (n0 ≤ n < readings d')%nat ∧
      fgeZ (total_seconds (clock n - t)) (alertListTimeoutThreshold cfg) = false) ∧
    ∀ o t, nget (timeout_counter_map d') s o = Some t → ∃ n, (n0 ≤ n < readings d')%nat ∧
      (fgeZ (total_seconds (clock n - t)) (5 * 60) = false ∨ ∃ p, member s p o d').
Proof.
  intros Hd%reached_inv Hp He. destruct (update_frames_ok frames d Hd Hp) as (d' & E & Hd' & Hc).
  destruct (Hc He) as (n0 & Hn0 & Hcl). exists n0, d'. split_and!; [done..|]. intros s. destruct (Hcl s) as [Ho Hf Ha]. split_and!.
  - intros f fr Hfr. destruct (Hf f fr Hfr) as (n & Hn & Ht). unfold frame_timed_out in Ht. exists n.
    destruct (iso_to_epoch (clock n)) as [t|] eqn:Et; [|done]. exists t. split_and!; [by apply Hn..|done|]. injection Ht as Ht. exact Ht.
  - intros o t Hot. destruct (Ha o t Hot) as (n & Hn & Ht). exists n. split; [done|]. injection Ht as Ht. exact Ht.
  - intros o t Hot. destruct (Ho o t Hot) as (n & Hn & Ht). exists n. split; [done|]. destruct Ht as [Ht|Ht]; [by left|right].
    destruct (check_is_in_potential_collision o s d') as [p|] eqn:Ec; [|done]. exists p. eapply check_some; [apply Hd'|apply Hd'|done].
Qed.
End detector.
