(* ===== verification/CollisionRuns.v ===== *)
(** * Collision detection: runs

    Concrete runs of the detector: what the theorems of [CollisionSafe.v] say on
    them, and the behaviors of the code that its comments do not announce. *)

From Stdlib Require Import ZArith Lia Floats.SpecFloat.
From stdpp Require Import base list strings gmap sets relations.
From S2P Require Import Prelude PyDict PyFloat PyNumber PyText PyIso PyVal Schema Crp Stop CollisionState Closeness Collision.
From S2P Require Import CollisionGroups CollisionFrames CollisionSafe.
Open Scope string_scope.
Open Scope list_scope.
Open Scope Z_scope.

#[local] Instance plain_math : NumpyMath := {| np_radians x := x; np_sin x := x; np_cos x := x; np_arctan2 x _ := x |}.
#[local] Instance plain_degrees : Degrees := λ x, x.
#[local] Instance plain_mathlib : MathLib :=
  {| math_pow x _ := Ok x; radians x := x; math_sin x := x; math_cos x := x; math_atan2 x _ := x |}.
#[local] Existing Instance bits_text.

(** Boxes that overlap are close; every object that moved is real. *)
Definition cfg_ex (enable : bool) : CollisionDetectionConfig :=
  mk_CollisionDetectionConfig enable ["person"] (Z2f 2) f0 10 60 30 1000 f0 f0.
(** The clock shows one second a reading from second [t0], and [t1] from reading [k]. *)
Definition clock_ex (k : nat) (t0 t1 : Z) (n : nat) : datetime := (if (n <? k)%nat then t0 else t1) * 1000000.
Definition order_ex (l : list string) : list string := l.
Lemma order_iterates : iterates order_ex.
Proof. by intros l _. Qed.
Lemma clock_dates k : ∀ n, is_ok (iso_to_epoch (clock_ex k 1000 1020 n)) = true.
Proof. intros n. unfold clock_ex. destruct (n <? k)%nat; vm_compute; reflexivity. Qed.
Definition sum_ex (l : vec) : float := foldl fadd f0 l.

Definition object_ex (o : string) (x : Z) : Object :=
  mk_Object o "person" f0 (mk_Bbox (Z2f x) f0 (Z2f (x + 10)) (Z2f 10)) None (mk_Coordinate f0 f0 f0) None [].
Definition message_ex (t : Z) (o : string) (x : Z) : Message :=
  mk_Message (t * 1000000) (mk_Sensor "cam") (Some (object_ex o x)) "hall" None "".
Definition behavior_ex (o : string) : Behavior float :=
  mk_Behavior ("cam #-# " +:+ o) 0 0 f0 [] [] 0 f0 (mk_Sensor "cam") (object_ex o 0) "hall" None "".

Section runs.
Context (clock : nat → datetime).
Abbreviation handle_ex := (handle (λ x : float, x) sum_ex (cfg_ex true) clock order_ex).
Fixpoint run (es : list event) (d : CollisionDetection float) : result (list (Incident * CollisionState float)) * CollisionDetection float :=
  match es with
  | [] => (Ok [], d)
  | e :: es' => match handle_ex e d with
                | (Ok r, d') => match run es' d' with (Ok r', d'') => (Ok (r ++ r'), d'') | x => x end
                | x => x
                end
  end.
End runs.
Definition seen (t : Z) (l : list (string * Z)) : string * list Message := ("f", (λ x : string * Z, message_ex t x.1 x.2) <$> l).
Definition watch (fs : list (string * list Message)) : event (T:=float) := FramesSeen [("cam", fs)].
Definition suspect (o : string) : event := Suspicion o "cam" (behavior_ex o) [].

(** ** A run: [c] joins [a] on the second frame, the group is reported when its time is over *)

Definition frames_1 : event := watch [seen 1000 [("a", 0); ("b", 5); ("c", 30)]].
Definition frames_2 : event := watch [seen 1001 [("a", 1); ("b", 5); ("c", 4)]].
Definition clock_r : nat → datetime := clock_ex 16 1000 1020.
Definition step_ex (e : event) (d : CollisionDetection float) : CollisionDetection float :=
  (handle (λ x : float, x) sum_ex (cfg_ex true) clock_r order_ex e d).2.
Definition d0 : CollisionDetection float := new_CollisionDetection IMAGE.
Definition d1 := step_ex frames_1 d0.
Definition d2 := step_ex (suspect "a") d1.
Definition d3 := step_ex frames_2 d2.


Example groups_ex : (λ x : string * CollisionState float, (x.1, cs_object_ids x.2)) <$> groups_of "cam" d3 = [("a", ["a"; "b"; "c"])].
Proof. vm_compute. reflexivity. Qed.

Lemma watch_ok t l d :
  t = 1000 ∨ t = 1001 → NoDup l.*1 → l ≠ [] → (∀ x, x ∈ l → starts_with_underscore x.1 = false) →
  nget (sensor_to_frames_map d) "cam" (next_id "cam" d) = None → inv d → admissible (cfg_ex true) d (watch [seen t l]).
Proof.
  intros Ht Hnd Hne Hn Hf Hd. assert (targets (cfg_ex true) (seen t l).2 = l.*1) as El.
  { clear Hnd Hne Hn. cbn. induction l as [|x l IH]; [done|]. cbn. by rewrite <- IH. }
  split; [apply NoDup_singleton|]. intros s fs [= -> ->]%list_elem_of_singleton. split; [|split; [done|]].
  - intros x ->%list_elem_of_singleton. right. split; rewrite ?El; [|done|by intros o (x & -> & Hx)%list_elem_of_fmap; apply Hn].
    destruct l as [|x l]; [done|]. exists (message_ex t x.1 x.2), (t * 1000). by destruct Ht as [->| ->].
  - intros i Hi. assert (i = 0) as -> by (cbn in Hi; lia). rewrite Z.add_0_r, Z.mod_small; [done|]. by apply next_id_range.
Qed.

Abbreviation reached_ex := (reached (λ x : float, x) sum_ex (cfg_ex true) clock_r order_ex).
Lemma step_reached e d : reached_ex d → admissible (cfg_ex true) d e → reached_ex (step_ex e d).
Proof.
  intros Hd Ha. unfold step_ex. destruct (handle (λ x, x) sum_ex (cfg_ex true) clock_r order_ex e d) as [r d'] eqn:E.
  exact (reached_step _ _ _ _ _ d e r d' Hd Ha E).
Qed.
Lemma reached_ok d : reached_ex d → inv d.
Proof. apply reached_inv; [apply order_iterates|apply clock_dates]. Qed.
Lemma reached_0 : reached_ex d0.
Proof. by apply reached_new. Qed.
Ltac seen_ok := apply watch_ok;
  [auto|repeat constructor; set_solver|done|by intros x [->|[->|[->|[]%elem_of_nil]%elem_of_cons]%elem_of_cons]%elem_of_cons|reflexivity|].
Lemma reached_1 : reached_ex d1.
Proof. apply step_reached; [apply reached_0|]. seen_ok. apply reached_ok, reached_0. Qed.
Lemma reached_2 : reached_ex d2.
Proof. by apply step_reached; [apply reached_1|]. Qed.
Lemma admissible_2 : admissible (cfg_ex true) d2 frames_2.
Proof. seen_ok. apply reached_ok, reached_2. Qed.
Lemma reached_3 : reached_ex d3.
Proof. apply step_reached; [apply reached_2|apply admissible_2]. Qed.

Lemma detector_safe_witness :
  ∃ res d', handle (λ x : float, x) sum_ex (cfg_ex true) clock_r order_ex Reports d3 = (Ok res, d') ∧ reached_ex d' ∧ inv d'.
Proof. apply detector_safe; [apply order_iterates|apply clock_dates|apply reached_3|done]. Defined.

(** The second frame shows [c] close to [a], which was suspected before. *)
Definition frame_2 : list Message := (seen 1001 [("a", 1); ("b", 5); ("c", 4)]).2.
Lemma frame_regroups_witness :
  ∃ fr d', process_frame (λ x : float, x) (cfg_ex true) clock_r order_ex "cam" ("f", frame_2) d2 = (Ok tt, d') ∧
    nget (sensor_to_frames_map d') "cam" (next_id "cam" d2) = Some fr ∧ dkeys (fd_objects fr) = targets (cfg_ex true) frame_2 ∧
    (∀ s', s' ≠ "cam" → groups_of s' d' = groups_of s' d2) ∧
    rtc (regroup (close_in (cfg_ex true) (calibration_type d') fr)) (view [] (groups_of "cam" d2)) (view [] (groups_of "cam" d')) ∧
    (∀ p o, is_Some (dget (groups_of "cam" d') p) → p ∈ targets (cfg_ex true) frame_2 →
      close_in (cfg_ex true) (calibration_type d') fr p o → member "cam" p o d') ∧
    ∀ p cs, dget (groups_of "cam" d2) p = Some cs → ∃ q cs', dget (groups_of "cam" d') q = Some cs' ∧ ids cs ⊆ ids cs'.
Proof.
  destruct (admissible_2) as [_ H]. destruct (H "cam" [("f", frame_2)]) as [Hp Hr]; [by left|].
  eapply (frame_regroups _ sum_ex); [apply order_iterates|apply clock_dates|apply reached_2|done| |exact Hr].
  by destruct (Hp ("f", frame_2)) as [?|?]; [left| |].
Defined.

Lemma suspicion_regroups_witness :
  ∃ d', update_potential_collision (cfg_ex true) clock_r order_ex "a" "cam" (behavior_ex "a") [] d1 = (Ok tt, d') ∧
    (∀ s', s' ≠ "cam" → groups_of s' d' = groups_of s' d1) ∧
    (is_Some (nget (alert_list d1) "cam" "a") ∨ check_is_in_potential_collision "a" "cam" d1 ≠ None → groups_of "cam" d' = groups_of "cam" d1) ∧
    (nget (alert_list d1) "cam" "a" = None → check_is_in_potential_collision "a" "cam" d1 = None →
      rtc (regroup (seen_close (cfg_ex true) "cam" "a" d1)) (<["a" := {["a"]}]> (view [] (groups_of "cam" d1))) (view [] (groups_of "cam" d')) ∧
      (∃ q, member "cam" q "a" d') ∧
      ∀ q cs, dget (groups_of "cam" d1) q = Some cs → q = "a" ∨ ∃ q' cs', dget (groups_of "cam" d') q' = Some cs' ∧ ids cs ⊆ ids cs').
Proof. apply (suspicion_regroups (λ x : float, x) sum_ex); [apply order_iterates|apply clock_dates|apply reached_1|done]. Defined.

(** From reading 16 on the clock is past the window: the group of [a] is reported, without the ghost [b]. *)
Example report_ex :
  match handle (λ x : float, x) sum_ex (cfg_ex true) clock_r order_ex Reports d3 with
  | (Ok [(inc, _)], d') => (in_objectIds inc, dget (groups_of "cam" d') "a", dkeys (default [] (dget (alert_list d') "cam")))
  | _ => ([], None, [])
  end = (["a"; "c"], None, ["a"; "c"]).
Proof. vm_compute. reflexivity. Qed.

Lemma alerts_exact_witness :
  ∃ res d', get_collision_alerts sum_ex (cfg_ex true) clock_r order_ex d3 = (Ok res, d') ∧
    (∀ s p, dget (groups_of s d3) p = None → dget (groups_of s d') p = None) ∧
    (∀ s p cs, dget (groups_of s d3) p = Some cs → ∃ n, (readings d3 ≤ n < readings d')%nat ∧
      if is_timeout (clock_r n) cs
      then dget (groups_of s d') p = None ∧ (∀ o, o ∈ cs_object_ids cs → forgotten s o d') ∧
        ((1 < length (real sum_ex (cfg_ex true) (calibration_type d3) cs))%nat →
          ∃ x, x ∈ res ∧ describes sum_ex (cfg_ex true) (calibration_type d3) s p cs x)
      else dget (groups_of s d') p = Some cs) ∧
    ∀ x, x ∈ res → ∃ s p cs, dget (groups_of s d3) p = Some cs ∧ dget (groups_of s d') p = None ∧
      (1 < length (real sum_ex (cfg_ex true) (calibration_type d3) cs))%nat ∧ describes sum_ex (cfg_ex true) (calibration_type d3) s p cs x ∧
      ∀ o, o ∈ in_objectIds x.1 → is_Some (nget (alert_list d') s o).
Proof. apply (alerts_exact (λ x : float, x)); [apply order_iterates|apply clock_dates|apply reached_3|done]. Defined.

Lemma cleanup_bounds_witness :
  ∃ n0 d', update_frames (λ x : float, x) (cfg_ex true) clock_r order_ex [("cam", [("f", frame_2)])] d2 = (Ok tt, d') ∧ (readings d2 ≤ n0)%nat ∧ ∀ s,
    (∀ f fr, nget (sensor_to_frames_map d') s f = Some fr → ∃ n t, (n0 ≤ n < readings d')%nat ∧ iso_to_epoch (clock_r n) = Ok t ∧
      fgeZ (div_ints (t - fd_timestamp fr) 1000) (30 * 60) = false) ∧
    (∀ o t, nget (alert_list d') s o = Some t → ∃ n, (n0 ≤ n < readings d')%nat ∧
      fgeZ (total_seconds (clock_r n - t)) (alertListTimeoutThreshold (cfg_ex true)) = false) ∧
    ∀ o t, nget (timeout_counter_map d') s o = Some t → ∃ n, (n0 ≤ n < readings d')%nat ∧
      (fgeZ (total_seconds (clock_r n - t)) (5 * 60) = false ∨ ∃ p, member s p o d').
Proof.
  apply (cleanup_bounds _ sum_ex); [apply order_iterates|apply clock_dates|apply reached_2|apply admissible_2|done].
Defined.

(** ** What the comments do not announce *)

(** [c] was in two frames and has three points: the frame that lets it join gives
    its point twice. *)
Example joins_twice : match dget (groups_of "cam" d3) "a" with
  | Some cs => tp_timestamp <$> default [] (dget (cs_trajectories cs) "c")
  | None => []
  end = [1000000; 1001000; 1001000].
Proof. vm_compute. reflexivity. Qed.

(** An object in the alert list is reported again with a primary object that is not. *)
Definition clock_a (n : nat) : datetime := if (n <? 36)%nat then clock_r n else 1040 * 1000000.
Definition again : list event :=
  [frames_1; suspect "a"; frames_2; Reports; watch [seen 1019 [("b", 5); ("c", 4)]]; suspect "b"; watch [seen 1020 [("b", 7); ("c", 5)]]; Reports].
Example alerted_again : match (run clock_a again d0).1 with
  | Ok l => (λ x : Incident * CollisionState float, in_objectIds x.1) <$> l
  | Exn _ => []
  end = [["a"; "c"]; ["b"; "c"]].
Proof. vm_compute. reflexivity. Qed.

(** One object without a position switches the detector to image coordinates for good. *)
Definition geo_message (o : string) : Message :=
  mk_Message 1000000000 (mk_Sensor "cam") (Some (mk_Object o "person" f0 (mk_Bbox f0 f0 (Z2f 10) (Z2f 10)) None
    (mk_Coordinate (Z2f 1) (Z2f 1) f0) (Some (mk_Location (Z2f 1) (Z2f 1) f0)) [])) "hall" None "".
Definition geo_frame : string * list Message := ("f", [geo_message "a"; geo_message "b"]).
Example image_for_good :
  calibration_type (run clock_r [watch [geo_frame]] (new_CollisionDetection GEO)).2 = GEO ∧
  calibration_type (run clock_r [watch [("f", [geo_message "a"; message_ex 1000 "b" 0]); geo_frame; geo_frame]] (new_CollisionDetection GEO)).2 = IMAGE.
Proof. vm_compute. done. Qed.

(** A Cartesian calibration and objects with positions: no distances. *)
Example cartesian_raises :
  (run clock_r [watch [geo_frame]; suspect "a"] (new_CollisionDetection CARTESIAN)).1 = Exn UnboundLocalError.
Proof. vm_compute. reflexivity. Qed.

(** An object shown twice in a frame still refers to it when the frame is old and dropped. *)
Example dangling_frame :
  (run (clock_ex 4 1000 3000) [watch [seen 1000 [("a", 0); ("a", 2)]]; watch [seen 3000 [("a", 0)]]; suspect "a"] d0).1 = Exn KeyError.
Proof. vm_compute. reflexivity. Qed.
