(* ===== verification/WorkloadSpec.v ===== *)
(** * The workload specification: what the stream controllers share in Redis

    [redisconfig] of [sdrc/lib/parameters/redisconfig.py] and the mappings of
    [sdrc/lib/messaging/redisMessaging.py]: which streams each worker pod has, in
    a Redis hash that all replicas of the controller share and each caches; the
    leases under which a stream is provisioned; the routes from streams to pods.

    A replica is a number. A section under the workload-spec lock is one action:
    the lock has no expiry and every section releases it. That holds for controllers
    that are up: one that is being started removes the key of the lock, whoever has
    it ([clear_stale_redis_workload_spec_lock_keys]), and so breaks the exclusion; no
    start is part of the model. A field of the hash is
    what [json.loads] makes of its text, nothing where that fails; so is what a
    hash reads back. Redis may refuse a request, or lose its answer ([faults]).
    The time to live of a lease is left to the environment. Redis fields are
    listed in the order of their insertion. *)

From Stdlib Require Import ZArith Lia.
From stdpp Require Import base list strings gmap.
From S2P Require Import Prelude PyDict PyFloat PyText PyVal Proc.
Open Scope Z_scope.

(** ** Values *)

(** [a == b], for values without NaN *)
Definition num_eqb (a b : pyval) : option bool :=
  let int v := match v with VBool b => Some (if b then 1 else 0) | VInt z => Some z | _ => None end in
  match int a, int b, a, b with
  | Some x, Some y, _, _ => Some (x =? y)
  | Some x, None, _, VFloat f | None, Some x, VFloat f, _ => Some (fgeZ f x && negb (fgtZ f x))
  | None, None, VFloat f, VFloat g => Some (feq f g)
  | _, _, _, _ => None
  end.
Fixpoint py_eqb (a b : pyval) : bool :=
  match a, b with
  | VNone, VNone => true
  | VStr s, VStr t => String.eqb s t
  | VList l, VList m =>
      (fix go l m := match l, m with [], [] => true | x :: l', y :: m' => py_eqb x y && go l' m' | _, _ => false end) l m
  | VDict d, VDict e =>
      (length d =? length e)%nat &&
      (fix go d := match d with
                   | [] => true
                   | (k, x) :: d' => match dget e k with Some y => py_eqb x y | None => false end && go d'
                   end) d
  | _, _ => default false (num_eqb a b)
  end.

(** [v[key]] *)
Definition vsub (v : pyval) (key : string) : result pyval :=
  match v with VDict d => require (dget d key) KeyError | _ => Exn TypeError end.

(** ** The store *)

Definition field := option pyval.

(** What the controller publishes: errors, and events for the agents *)
Inductive Published :=
  | ErrorMsg (podname : string) (id : pyval) (type status : string)
  | AgentMsg (event_info : string) (stream_id : pyval) (podname : string).

Record Store := mk_Store {
  specs : dict string field;
  leases : dict string string;
  routes : dict string string;
  hosts : dict string string;
  allocations : dict string pyval;
  published : list Published;
  caches : gmap nat (dict string field);
  requests : nat;
  draws : nat;
}.
Definition empty_Store : Store := mk_Store [] [] [] [] [] [] ∅ 0 0.

Definition set_specs m st := mk_Store m (leases st) (routes st) (hosts st) (allocations st) (published st) (caches st) (requests st) (draws st).
Definition set_leases m st := mk_Store (specs st) m (routes st) (hosts st) (allocations st) (published st) (caches st) (requests st) (draws st).
Definition set_routes m h st := mk_Store (specs st) (leases st) m h (allocations st) (published st) (caches st) (requests st) (draws st).
Definition set_allocations m st := mk_Store (specs st) (leases st) (routes st) (hosts st) m (published st) (caches st) (requests st) (draws st).
Definition set_published m st := mk_Store (specs st) (leases st) (routes st) (hosts st) (allocations st) m (caches st) (requests st) (draws st).
Definition set_caches m st := mk_Store (specs st) (leases st) (routes st) (hosts st) (allocations st) (published st) m (requests st) (draws st).
Definition count_request st := mk_Store (specs st) (leases st) (routes st) (hosts st) (allocations st) (published st) (caches st) (S (requests st)) (draws st).
Definition count_draw st := mk_Store (specs st) (leases st) (routes st) (hosts st) (allocations st) (published st) (caches st) (requests st) (S (draws st)).

(** Where a larger state keeps the store *)
Class HasStore (St : Type) := {
  store : St → Store;
  set_store : Store → St → St;
  store_set st s : store (set_store st s) = st;
  set_store_store s : set_store (store s) s = s;
  set_set_store st st' s : set_store st (set_store st' s) = set_store st s;
}.

(** A request to Redis: carried out, refused, or carried out without an answer *)
Inductive fault := Fine | Refused | AnswerLost.
Definition RedisError : pyexn := NamedError "redis.RedisError".

Record SpecConfig := mk_SpecConfig {
  even_obj : string;
  id_field : string;
}.

Section workload_spec.
Context {S : Type} {HS : HasStore S} (faults : nat → fault) (uuid4 : nat → string) (redis_text : pyval → result string) (cfg : SpecConfig).
Implicit Types (r : nat) (pod_name stream_id owner : string) (id : pyval).

Definition local {A} (op : stM Store A) : proc S A := atomic (zoom store set_store op).
Definition redis {A} (op : stM Store A) : proc S A := local (λ st,
  match faults (requests st) with
  | Fine => op (count_request st)
  | Refused => (Exn RedisError, count_request st)
  | AnswerLost => (Exn RedisError, (op (count_request st)).2)
  end).
(** A request that only reads *)
Definition redis_get {A} (f : Store → A) : proc S A := redis (λ st, (Ok (f st), st)).

Definition uuid : proc S string := local (λ st, (Ok (uuid4 (draws st)), count_draw st)).

(** ** Entries *)

Definition decode_wl_spec_field (raw : option field) : list pyval :=
  match raw with Some (Some (VList l)) => l | _ => [] end.

(** [s[event][id]] *)
Definition entry_id (s : pyval) : result pyval := ev ← vsub s (even_obj cfg); vsub ev (id_field cfg).
(** [s.get(event, {}).get(id)] *)
Definition soft_id (s : pyval) : result pyval := ev ← vget_or s (even_obj cfg) (VDict []); vget ev (id_field cfg).

Definition get_wl_spec r st : option (dict string field) := caches st !! r.
Definition put_wl_spec r (m : dict string field) st : Store := set_caches (<[r := m]> (caches st)) st.

(** ** Leases *)

Definition tryAcquireProvisionLease stream_id owner : proc S bool := redis (λ st,
  if dmem (leases st) stream_id then (Ok false, st) else (Ok true, set_leases (dset (leases st) stream_id owner) st)).
Definition renewProvisionLease stream_id owner : proc S bool :=
  redis_get (λ st, bool_decide (dget (leases st) stream_id = Some owner)).
Definition releaseProvisionLease stream_id owner : proc S bool := redis (λ st,
  if bool_decide (dget (leases st) stream_id = Some owner) then (Ok true, set_leases (ddel (leases st) stream_id) st) else (Ok false, st)).

(** ** Reading *)

(** A load that fails leaves the cached specification. *)
Definition loadWorkLoadSpec r : proc S unit := local (λ st,
  match faults (requests st) with
  | Fine => (Ok tt, put_wl_spec r (specs st) (count_request st))
  | _ => (Ok tt, count_request st)
  end).
Definition wl_spec r : proc S (option (dict string field)) := local (λ st, (Ok (get_wl_spec r st), st)).

Definition getpods r : proc S (list string) := _ ← loadWorkLoadSpec r; m ← wl_spec r; mret (default [] (dkeys <$> m)).
Definition getpodsCount r : proc S nat := m ← wl_spec r; mret (length (default [] (dkeys <$> m))).
Definition getSpecCount r pod_name : proc S Z :=
  m ← wl_spec r;
  mret (match m with Some m => if dmem m pod_name then Z.of_nat (length (decode_wl_spec_field (dget m pod_name))) else 0 | None => 0 end).
Definition getAllStreams r : proc S (dict string (list pyval)) :=
  _ ← loadWorkLoadSpec r; m ← wl_spec r;
  mret (default [] ((λ m : dict string field, (λ x : string * field, (x.1, decode_wl_spec_field (Some x.2))) <$> m) <$> m)).

Fixpoint first_with_id id (l : list pyval) : result (option pyval) :=
  match l with
  | [] => Ok None
  | s :: l' => i ← entry_id s; if py_eqb i id then Ok (Some s) else first_with_id id l'
  end.
Fixpoint find_stream id (pods : dict string (list pyval)) : result (option (string * pyval)) :=
  match pods with
  | [] => Ok None
  | (pod, l) :: pods' => x ← first_with_id id l; match x with Some s => Ok (Some (pod, s)) | None => find_stream id pods' end
  end.
Definition getCacheInfoForStreamId r id : proc S (option (string * pyval)) :=
  pods ← getAllStreams r; plift (find_stream id pods).

(** The entries of a stream, each with the pod it was found under *)
Definition with_pod_name pod_name (s : dict string pyval) : dict string pyval :=
  if dmem s "pod_name" then s else s ++ [("pod_name", VStr pod_name)].
Fixpoint entries_by_id id pod_name (l : list pyval) : result (list (dict string pyval)) :=
  match l with
  | [] => Ok []
  | VDict d :: l' =>
      i ← entry_id (VDict d); rest ← entries_by_id id pod_name l';
      Ok (if py_eqb i id then with_pod_name pod_name d :: rest else rest)
  | _ :: l' => entries_by_id id pod_name l'
  end.
Fixpoint specs_by_id id (m : dict string field) : result (list (dict string pyval)) :=
  match m with
  | [] => Ok []
  | (pod, raw) :: m' => l ← entries_by_id id pod (decode_wl_spec_field (Some raw)); rest ← specs_by_id id m'; Ok (l ++ rest)
  end.
(** [None] when there is none, an empty list when nothing was ever loaded *)
Definition getworkLoadSpecById r id : proc S (option (list (dict string pyval))) :=
  _ ← loadWorkLoadSpec r; m ← wl_spec r;
  match m with
  | None => mret (Some [])
  | Some m => l ← plift (specs_by_id id m); mret (match l with [] => None | _ => Some l end)
  end.

Fixpoint filter_id (keep : bool) id (l : list pyval) : result (list pyval) :=
  match l with
  | [] => Ok []
  | s :: l' => i ← entry_id s; rest ← filter_id keep id l'; Ok (if Bool.eqb (py_eqb i id) keep then s :: rest else rest)
  end.
Definition getworkLoadSpec r pod_name id : proc S (option (list pyval)) :=
  _ ← loadWorkLoadSpec r; m ← wl_spec r;
  match m with
  | None => mret None
  | Some m => match dget m pod_name with
              | None => mret None
              | Some raw => l ← plift (filter_id true id (decode_wl_spec_field (Some raw))); mret (Some l)
              end
  end.

(** ** Writing *)

(** Everything that goes wrong is logged and swallowed. *)
Definition deleteFromWorkLoadSpec r pod_name id : proc S unit :=
  ptry is_Exception
    (found ← redis (λ st, match dget (specs st) pod_name with
                          | None => (Ok false, st)
                          | Some raw => match filter_id false id (decode_wl_spec_field (Some raw)) with
                                        | Ok remaining => (Ok true, set_specs (dset (specs st) pod_name (Some (VList remaining))) st)
                                        | Exn e => (Exn e, st)
                                        end
                          end);
     if (found : bool) then loadWorkLoadSpec r else mret tt)
    (λ _, mret tt).

Definition deleteWLObj r pod_name : proc S unit :=
  m ← wl_spec r;
  match m with
  | None => mret tt
  | Some m =>
      if dmem m pod_name then
        _ ← local (λ st, (Ok tt, put_wl_spec r (ddel m pod_name) st));
        _ ← redis (λ st, (Ok tt, set_specs (ddel (specs st) pod_name) st));
        loadWorkLoadSpec r
      else mret tt
  end.
Definition erasePodSpecContent r pod_name : proc S unit :=
  _ ← loadWorkLoadSpec r; m ← wl_spec r;
  match m with Some m => if dmem m pod_name then deleteWLObj r pod_name else mret tt | None => mret tt end.
Definition eraseSpecContent r : proc S unit :=
  _ ← ptry is_Exception (redis (λ st, (Ok tt, set_specs [] st))) (λ _, mret tt); loadWorkLoadSpec r.

Inductive reservation := Reserved | AlreadyHeld | Full.
Fixpoint holds_id id (l : list pyval) : result bool :=
  match l with
  | [] => Ok false
  | VDict d :: l' => i ← soft_id (VDict d); if py_eqb i id then Ok true else holds_id id l'
  | _ :: l' => holds_id id l'
  end.
Definition reserve pod_name (original : pyval) id (threshold : Z) : stM Store reservation := λ st,
  let streams := decode_wl_spec_field (dget (specs st) pod_name) in
  match holds_id id streams with
  | Exn e => (Exn e, st)
  | Ok true => (Ok AlreadyHeld, st)
  | Ok false => if threshold <=? Z.of_nat (length streams) then (Ok Full, st)
                else (Ok Reserved, set_specs (dset (specs st) pod_name (Some (VList (streams ++ [original])))) st)
  end.
Definition tryReserveWorkLoadSpec r pod_name (original : pyval) (threshold : Z) : proc S reservation :=
  id ← plift (entry_id original);
  res ← redis (reserve pod_name original id threshold);
  match res with Reserved => _ ← loadWorkLoadSpec r; mret Reserved | _ => mret res end.

Definition setworkLoadSpec r pod_name (spec_data : field) : proc S unit := local (λ st,
  (Ok tt, put_wl_spec r (dset (default [] (get_wl_spec r st)) pod_name spec_data) st)).
(** The new value is computed from the cached specification, before the lock is taken. *)
Definition addWorkLoadSpec r pod_name (original : pyval) : proc S unit :=
  m ← wl_spec r;
  let streams := match default [] m with m => match dget m pod_name with Some raw => decode_wl_spec_field (Some raw) | None => [] end end in
  _ ← redis (λ st, (Ok tt, set_specs (dset (specs st) pod_name (Some (VList (streams ++ [original])))) st));
  loadWorkLoadSpec r.
Definition updateWorkLoadSpec r pod_name id (new_value : pyval) : proc S unit :=
  ptry is_Exception (_ ← deleteFromWorkLoadSpec r pod_name id; addWorkLoadSpec r pod_name new_value) (λ _, mret tt).

Definition deleteFromWorkLoadSpecbyId r id : proc S (option (list (dict string pyval))) :=
  delList ← getworkLoadSpecById r id;
  _ ← pfor (default [] delList) (λ s,
        match dget s "pod_name" with
        | None => mret tt
        | Some (VStr pn) =>
            _ ← deleteFromWorkLoadSpec r pn id; m ← wl_spec r;
            match m with
            | None => praise AttributeError
            | Some m => match decode_wl_spec_field (dget m pn) with [] => deleteWLObj r pn | _ => mret tt end
            end
        | Some (VList _ | VDict _) => praise TypeError
        | Some _ => mret tt
        end);
  mret delList.

(** [apply_cache_metadata_update]: the first entry of a stream, its metadata merged *)
Definition merge_metadata (cache_key : string) (overwrite : bool) (additional : dict string pyval) (s : dict string pyval)
    : dict string pyval :=
  let old := match dget s cache_key with Some (VDict d) => d | _ => [] end in
  let new := if negb overwrite && dmem s cache_key then dupdate old additional else additional in
  match new with [] => ddel s cache_key | _ => dset s cache_key (VDict new) end.
Fixpoint update_first id (f : dict string pyval → dict string pyval) (l : list pyval) : result (option (list pyval)) :=
  match l with
  | [] => Ok None
  | VDict d :: l' =>
      i ← soft_id (VDict d);
      if py_eqb i id then Ok (Some (VDict (f d) :: l'))
      else x ← update_first id f l'; Ok (fmap (M:=option) (cons (VDict d)) x)
  | v :: l' => x ← update_first id f l'; Ok (fmap (M:=option) (cons v) x)
  end.
Fixpoint update_in_pods id (f : dict string pyval → dict string pyval) (m : dict string field) : result (option (string * list pyval)) :=
  match m with
  | [] => Ok None
  | (pod, raw) :: m' =>
      x ← update_first id f (decode_wl_spec_field (Some raw));
      match x with Some l => Ok (Some (pod, l)) | None => update_in_pods id f m' end
  end.
Definition apply_cache_metadata_update r id (additional : pyval) (cache_key : string) (overwrite : bool) : proc S bool :=
  match additional with
  | VDict additional =>
      ptry is_Exception
        (found ← redis (λ st, match update_in_pods id (merge_metadata cache_key overwrite additional) (specs st) with
                              | Exn e => (Exn e, st)
                              | Ok None => (Ok false, st)
                              | Ok (Some (pod, l)) => (Ok true, set_specs (dset (specs st) pod (Some (VList l))) st)
                              end);
         if (found : bool) then _ ← loadWorkLoadSpec r; mret true else mret false)
        (λ _, mret false)
  | _ => mret false
  end.

(** ** Routes and messages *)

Definition getIdPodMapping id : proc S (option string) := k ← plift (redis_text id); redis_get (λ st, dget (routes st) k).
Definition publishMessage (m : Published) : proc S unit := redis (λ st, (Ok tt, set_published (published st ++ [m]) st)).
(** One message, in the version that is configured *)
Definition message_err podname id type status : proc S unit := publishMessage (ErrorMsg podname id type status).
End workload_spec.
