(* ===== verification/HealthWatcher.v ===== *)
(** * The health watcher of the stream controller

    [lib/podprovisioner/healthwatcher.py]: which pods answered their last probe,
    and the transitions the pod watcher is told of. A section under the watcher's
    lock is one action, so is a request, and so is putting an event into the
    queue, which is done after the lock is released.

    What a request answers is a parameter, of how many there were before. How many
    probes a wait gets in before its deadline is the clock's, an argument of the
    wait; without a deadline it never ends otherwise than healthy, and is not
    modelled. *)

From Stdlib Require Import ZArith Strings.String.
From stdpp Require Import base list strings relations.
From S2P Require Import Prelude PyDict PyText Proc.
Open Scope Z_scope.

(** ** Pods *)

Record Pod := mk_Pod {
  podName : string;
  podIp : string;
  podPort : option string;
  poddns : option string;
  provisioning_address : option string;
}.
Definition WorkloadUnhealthyError : pyexn := NamedError "WorkloadUnhealthyError".
Definition RequestException : pyexn := NamedError "requests.RequestException".

Definition blank (s : option string) : bool := match s with Some s => String.eqb (py_strip s) "" | None => true end.
Definition first_of (l : list string) : string := default "" (head (filter (.≠ "") l)).
Definition build_health_url (q : Pod) (health_path : string) : string :=
  let path := if String.prefix "/" health_path then health_path else "/" +:+ health_path in
  if negb (blank (provisioning_address q)) then "http://" +:+ py_strip (default "" (provisioning_address q)) +:+ path
  else
    let host := first_of [podIp q; default "" (poddns q); podName q] in
    if blank (podPort q) then "http://" +:+ host +:+ path else "http://" +:+ host +:+ ":" +:+ default "" (podPort q) +:+ path.

(** ** The watcher *)

(** [events]: whether a pod went down, and which *)
Record Watcher := mk_Watcher {
  pod_healthy : dict string bool;
  pod_info : dict string Pod;
  events : list (bool * string);
  gets : nat;
}.
Definition empty_Watcher : Watcher := mk_Watcher [] [] [] 0.

Section watcher.
Context (http_get : nat → string → result Z) (health_path : string).
Abbreviation P := (proc Watcher).
Implicit Types (q : Pod) (s : Watcher) (name : string).

Definition get (target : string) : P Z := atomic (λ s,
  (http_get (gets s) target, mk_Watcher (pod_healthy s) (pod_info s) (events s) (S (gets s)))).
Definition probe_pod_health q : P bool :=
  ptry (λ e, bool_decide (e = RequestException)) (status ← get (build_health_url q health_path); mret (status =? 200)) (λ _, mret false).

Definition emit (is_down : bool) name : P unit :=
  atomic (smod (λ s, mk_Watcher (pod_healthy s) (pod_info s) (events s ++ [(is_down, name)]) (gets s))).
(** What was known before *)
Definition record q (healthy : bool) : P (option bool) := atomic (λ s,
  (Ok (dget (pod_healthy s) (podName q)),
   mk_Watcher (dset (pod_healthy s) (podName q) healthy) (dset (pod_info s) (podName q) q) (events s) (gets s))).
Definition apply_result q (healthy : bool) : P unit :=
  if String.eqb (podName q) "" then mret tt
  else
    previous ← record q healthy;
    match previous with
    | None => if healthy then mret tt else emit true (podName q)
    | Some previous =>
        if previous && negb healthy then emit true (podName q)
        else if negb previous && healthy then emit false (podName q)
        else mret tt
    end.

Definition check_pod q : P bool := healthy ← probe_pod_health q; _ ← apply_result q healthy; mret healthy.
Fixpoint wait_until_healthy (probes : nat) q : P bool :=
  match probes with
  | O => mret false
  | S probes => healthy ← check_pod q; if (healthy : bool) then mret true else wait_until_healthy probes q
  end.

Definition poll_pod q : P unit :=
  if String.eqb (podName q) "" then mret tt else healthy ← probe_pod_health q; apply_result q healthy.
Definition forget name : P unit :=
  stale ← atomic (λ s, (Ok (default (mk_Pod name "" None None None) (dget (pod_info s) name)), s));
  _ ← apply_result stale false;
  atomic (smod (λ s, mk_Watcher (ddel (pod_healthy s) name) (ddel (pod_info s) name) (events s) (gets s))).
(** [resolved]: the inventory, as it could be resolved *)
Definition poll_once (resolved : result (list Pod)) : P unit :=
  let pods := match resolved with Ok pods => pods | Exn _ => [] end in
  _ ← pfor pods poll_pod;
  missing ← atomic (λ s, (Ok (filter (λ name, name ∉ filter (.≠ "") (podName <$> pods)) (dkeys (pod_healthy s))), s));
  pfor missing forget.
End watcher.

Definition is_pod_known (s : Watcher) (name : string) : bool := dmem (pod_healthy s) name.
Definition is_pod_healthy (s : Watcher) (name : string) : bool := default false (dget (pod_healthy s) name).
Definition healthy_count (s : Watcher) : Z := Z.of_nat (length (filter (λ b, b = true) (dvals (pod_healthy s)))).

(** ** What the pod watcher makes of the events

    [dockerclient.watchPodState] keeps the pods it was told are down
    ([downpodsArray]). *)
Fixpoint remove_first (name : string) (l : list string) : list string :=
  match l with [] => [] | n :: l' => if String.eqb n name then l' else n :: remove_first name l' end.
Definition noticed (downs : list string) (event : bool * string) : list string :=
  let '(is_down, name) := event in
  if bool_decide (name ∈ downs) then (if is_down then downs else remove_first name downs) else if is_down then downs ++ [name] else downs.

Lemma remove_first_elem name n l : NoDup l → n ∈ remove_first name l ↔ n ≠ name ∧ n ∈ l.
Proof.
  induction 1 as [|m l Hm _ IH]; cbn [remove_first]; [rewrite elem_of_nil; naive_solver|].
  destruct (String.eqb_spec m name) as [->|Hne]; rewrite !elem_of_cons; [naive_solver|]. rewrite IH. naive_solver.
Qed.
Lemma remove_first_nodup name l : NoDup l → NoDup (remove_first name l).
Proof.
  induction 1 as [|m l Hm Hl IH]; cbn [remove_first]; [constructor|]. destruct (String.eqb m name); [done|]. constructor; [|done].
  rewrite remove_first_elem by done. tauto.
Qed.
Lemma noticed_elem downs is_down name n : NoDup downs →
  n ∈ noticed downs (is_down, name) ↔ if is_down then n = name ∨ n ∈ downs else n ≠ name ∧ n ∈ downs.
Proof.
  intros Hd. unfold noticed. case_bool_decide as E; destruct is_down; rewrite ?remove_first_elem, ?elem_of_app, ?list_elem_of_singleton by done; naive_solver.
Qed.
Lemma noticed_nodup downs event : NoDup downs → NoDup (noticed downs event).
Proof.
  intros Hd. destruct event as [is_down name]. unfold noticed. case_bool_decide; destruct is_down; auto using remove_first_nodup.
  apply NoDup_app. split_and!; [done|set_solver|apply NoDup_singleton].
Qed.

Section agreement.
Context (http_get : nat → string → result Z) (health_path : string).
Implicit Types (q : Pod) (s : Watcher) (name : string) (downs : list string).

(** What the pod watcher will think is down is what the last probes found down. *)
Definition agrees s downs : Prop :=
  NoDup (foldl noticed downs (events s)) ∧ ("" ∉ dkeys (pod_healthy s)) ∧
  ∀ name, (name ∈ foldl noticed downs (events s)) ↔ dget (pod_healthy s) name = Some false.
(** The watcher and the pod watcher; no pod that is known leaves the inventory. *)
Inductive wstep : relation (Watcher * list string) :=
  | w_check q s downs : wstep (s, downs) ((exec (check_pod http_get health_path q) s).2, downs)
  | w_poll pods s downs : (∀ name, name ∈ dkeys (pod_healthy s) → name ∈ podName <$> pods) →
      wstep (s, downs) ((exec (poll_once http_get health_path (Ok pods)) s).2, downs)
  | w_notice event evs s downs : events s = event :: evs →
      wstep (s, downs) (mk_Watcher (pod_healthy s) (pod_info s) evs (gets s), noticed downs event).

(** One more observation: nothing else changes, and an event if it is news *)
Lemma applied q healthy s : podName q ≠ "" →
  let news := match dget (pod_healthy s) (podName q) with
              | None => if healthy then [] else [(true, podName q)]
              | Some previous => if Bool.eqb previous healthy then [] else [(negb healthy, podName q)]
              end in
  exec (apply_result q healthy) s =
    (Ok tt, mk_Watcher (dset (pod_healthy s) (podName q) healthy) (dset (pod_info s) (podName q) q) (events s ++ news) (gets s)).
Proof.
  intros Hq. unfold apply_result. apply String.eqb_neq in Hq as ->. rewrite exec_bind. unfold record, atomic. rewrite exec_act. cbn zeta.
  destruct (dget (pod_healthy s) (podName q)) as [[]|], healthy; cbn; by rewrite ?app_nil_r.
Qed.
Lemma applied_agrees q healthy s downs : agrees s downs → agrees (exec (apply_result q healthy) s).2 downs.
Proof.
  intros (Hnd & Hn & Ha). destruct (String.eqb_spec (podName q) "") as [E|E].
  { unfold apply_result. by rewrite E. }
  rewrite applied by done. unfold agrees. cbn [snd events pod_healthy]. rewrite foldl_app. set (l := foldl noticed downs (events s)) in *.
  setoid_rewrite dget_dset. pose proof (Ha (podName q)) as Hq.
  destruct (dget (pod_healthy s) (podName q)) as [[]|], healthy; cbn [Bool.eqb negb foldl];
    (split; [by try apply noticed_nodup|]); (split; [rewrite dkeys_dset_elem; intros [?|?]; [by destruct E|done]|]); intros name;
    rewrite ?noticed_elem, ?Ha by done; case_decide; subst; naive_solver.
Qed.
Lemma applied_known q healthy s name : name ∈ dkeys (pod_healthy (exec (apply_result q healthy) s).2) → name = podName q ∨ name ∈ dkeys (pod_healthy s).
Proof.
  destruct (String.eqb_spec (podName q) "") as [E|E]; [unfold apply_result; rewrite E; by right|].
  rewrite applied by done. cbn [snd pod_healthy]. apply dkeys_dset_elem.
Qed.

(** What a process does that only looks at the given pods *)
Definition looks downs (names : list string) s s' : Prop :=
  (agrees s downs → agrees s' downs) ∧ ∀ name, name ∈ dkeys (pod_healthy s') → name ∈ names ∨ name ∈ dkeys (pod_healthy s).
#[local] Instance looks_preorder downs names : PreOrder (looks downs names).
Proof.
  split; [by intros s; split; [done|by right]|]. intros s1 s2 s3 [H1 H2] [H3 H4]. split; [auto|]. intros name Hn. destruct (H4 name Hn); auto.
Qed.
Lemma apply_looks downs names q healthy : podName q ∈ names → stays (looks downs names) (apply_result q healthy).
Proof. intros Hq s. split; [apply applied_agrees|]. intros name [->|?]%applied_known; auto. Qed.
Lemma probe_looks downs names q : stays (looks downs names) (probe_pod_health http_get health_path q).
Proof. apply (stays_try _ _ _); [|by intros; apply (stays_ret _)]. apply (stays_bind _ _ _); [|by intros; apply (stays_ret _)]. apply (stays_act _). intros s. split; [done|]. by right. Qed.
Lemma check_looks downs q : stays (looks downs [podName q]) (check_pod http_get health_path q).
Proof.
  apply (stays_bind _ _ _); [apply probe_looks|]. intros healthy. apply (stays_bind _ _ _); [apply apply_looks; by left|]. intros _. apply (stays_ret _).
Qed.
Lemma poll_looks downs pods : stays (looks downs (podName <$> pods)) (pfor pods (poll_pod http_get health_path)).
Proof.
  apply (stays_for _). intros q Hq. unfold poll_pod. destruct (String.eqb _ _); [apply (stays_ret _)|].
  apply (stays_bind _ _ _); [apply probe_looks|]. intros healthy. apply apply_looks. by apply list_elem_of_fmap_2.
Qed.
Lemma poll_agrees pods s downs : (∀ name, name ∈ dkeys (pod_healthy s) → name ∈ podName <$> pods) →
  agrees s downs → agrees (exec (poll_once http_get health_path (Ok pods)) s).2 downs.
Proof.
  intros Hk Ha. unfold poll_once. rewrite exec_bind. destruct (poll_looks downs pods s) as [H1 H2].
  destruct (exec (pfor pods _) s) as [[[]|e] s1]; cbn in H1, H2; [|by apply H1]. rewrite exec_bind. unfold atomic at 1. rewrite exec_act.
  assert (filter (λ name, name ∉ filter (.≠ "") (podName <$> pods)) (dkeys (pod_healthy s1)) = []) as ->; [|by apply H1].
  destruct (H1 Ha) as (_ & Hn & _). apply elem_of_nil_inv. intros name [Hno Hin]%list_elem_of_filter. apply Hno, list_elem_of_filter.
  split; [by intros ->|]. destruct (H2 name Hin); auto.
Qed.
Lemma agrees_step s downs s' downs' : wstep (s, downs) (s', downs') → agrees s downs → agrees s' downs'.
Proof.
  intros Hs. inversion Hs as [|? ? ? Hk|? ? ? ? E]; subst; [apply check_looks|by apply poll_agrees|]. intros (H1 & H2 & H3).
  rewrite E in *. done.
Qed.

(** C40. However polls, probes before an add and the pod watcher follow each other:
    once it has taken all events, the pod watcher holds for down exactly the pods
    whose last probe failed. *)
Theorem watchers_agree s downs : rtc wstep (empty_Watcher, []) (s, downs) → events s = [] → NoDup downs ∧ ∀ name, name ∈ downs ↔ dget (pod_healthy s) name = Some false.
Proof.
  intros Hr He. assert (agrees s downs) as (H1 & _ & H3); [|by rewrite He in *].
  revert Hr. apply (rtc_ind_r (λ sd, agrees sd.1 sd.2) (empty_Watcher, [])).
  - split_and!; [constructor|by intros ?%elem_of_nil|]. cbn. intros name. by rewrite elem_of_nil.
  - intros [s1 d1] [s2 d2] _ Hs. by apply agrees_step.
Qed.
End agreement.
