(* ===== verification/Placement.v ===== *)
(** * Stream placement: which worker pod takes a stream

    Of [sdrc/app.py]: [provisionStreamRedis], which reserves room for a stream on
    a pod and adds it there, with all it calls, [deprovisionStreamRedis],
    [readdStreams] and the route that changes metadata; the requests to the pods
    ([provisionconfig.py]); how the event bus hears of the outcome.

    Every handler is a process over what the replicas share ([WorkloadSpec.v]),
    the cluster ([Cluster]) and the pods ([Workers]). The cluster client and its
    health watcher are an interface, implemented for docker in Docker.v. The
    handlers are given the event object of their message beside the message; it
    is the same object, so it is one value here. A thread for an add goes on with
    the process of the handler that starts it, after the handler has returned; the
    heartbeat of a lease is a process of its own. Waiting for add threads before a
    removal ends after its timeout whatever they do, and is left out, as are
    tracing, route notifications, the copies of a message and of its cached entry in
    what the agents are told, and log texts. *)

From Stdlib Require Import ZArith Lia Strings.String Strings.Ascii.
From stdpp Require Import base list strings gmap.
From S2P Require Import Prelude PyDict PyFloat PyText PyVal Proc BusOutcomes WorkloadSpec HealthWatcher.
Open Scope Z_scope.

(** ** The cluster and the pods *)

Class Cluster (C : Type) := {
  (** [getStatefulSets()]: the replicas of the workload, if it is there *)
  getStatefulSets : C → result (option Z);
  (** [getPodIps(getWorkloadObjects())] *)
  getPods : C → result (option (list Pod));
  ifPodDown : string → C → result bool;
  getReadyReplicas : C → result Z;
  scaleStatefulsetPods : Z → stM C unit;
  (** of the health watcher *)
  watcher_count : C → option Z;
  watcher_wait : Pod → stM C bool;
}.

Record Response := mk_Response { status_code : Z; json_body : result pyval }.
Class Workers (W : Type) := send : string → string → pyval → stM W Response.

(** ** Configuration *)
Record Config := mk_Config {
  spec : SpecConfig;
  event_message : bool;
  name_ignore : option (string → bool);
  WDM_DS_SWAP_ID_NAME : bool;
  WDM_WL_SWAP_KEY_SECONDARY_FIELD : string;
  required_fields : option (list string);
  WDM_WL_THRESHOLD : Z;
  WDM_ENABLE_REGEX_MAPPING : bool;
  WDM_STREAM_ADD_REGEX_INFO_KEY : string;
  WDM_POD_ALLOCATION_REGEX_DELIMITER : string;
  WDM_WL_ASSIGNING_METHOD : string;
  docker : bool;
  WDM_MAX_REPLICAS : Z;
  WDM_WL_CHANGE_FIELD : string;
  WDM_WL_CHANGE_ID_ADD : string;
  WDM_WL_CHANGE_ID_DEL : string;
  WDM_PROVISION_ASYNC : bool;
  WDM_WL_HEALTH_CHECK_WAIT_ENABLED : bool;
  WDM_CHECK_STATUS : bool;
  WDM_WL_ADD_URL : string;
  WDM_WL_DELETE_URL : string;
  DELETE_API_METHOD : string;
  WDM_ADD_REMOVE_RETRY_ATTEMPTS : positive;
  map_add_field : option (dict string pyval);
  remap_event_object : option (dict string pyval);
  webhook : option string;
  WDM_EVICT_QUEUE_ON_NO_CAPACITY : bool;
}.

Definition MaxReplicaException : pyexn := NamedError "MaxReplicaException".
Definition RecursionError : pyexn := NamedError "RecursionError".
Definition DataError : pyexn := NamedError "redis.DataError".

(** ** Choosing a pod *)

(** [re.search(r"-(\d+)$", name)] *)
Definition is_digit (c : ascii) : bool := let b := byte_of c in (48 <=? b) && (b <=? 57).
Definition ordinal (pod_name : string) : option Z :=
  match reverse (py_split "-" pod_name) with
  | digits :: _ :: _ =>
      if negb (String.eqb digits "") && forallb is_digit (list_ascii_of_string digits) then parse_int digits else None
  | _ => None
  end.
Definition pod_ordinal (pod_name : string) : Z * string := (default 0 (ordinal pod_name), pod_name).
Definition key_ltb (a b : Z * string) : bool :=
  (a.1 <? b.1) || ((a.1 =? b.1) && match String.compare a.2 b.2 with Lt => true | _ => false end).

(** [min(l, key=...)]: the first of the least *)
Fixpoint least {A} (ltb : A → A → bool) (x : A) (l : list A) : A :=
  match l with [] => x | y :: l' => least ltb (if ltb y x then y else x) l' end.

(** A pod that may take the stream, and how many it has *)
Definition Entry : Type := Pod * Z.
Definition entry_ltb (a b : Entry) : bool := key_ltb (pod_ordinal (podName a.1)) (pod_ordinal (podName b.1)).
Definition select_pod_from_candidates (first : Entry) (rest : list Entry) (assigning_method : string) : Entry :=
  if String.eqb assigning_method "sequential" then first
  else
    let min_count := foldl Z.min first.2 (rest.*2) in
    match filter (λ e : Entry, e.2 = min_count) (first :: rest) with
    | e :: es => least entry_ltb e es
    | [] => first
    end.

(** What the provisioning of a stream answers; [PDeferred] is
    [PROVISION_DEFERRED_UNREADY_PODS]. *)
Inductive Provision := PNone | PFalse | PTrue | PDeferred.
#[export] Instance provision_eq_dec : EqDecision Provision.
Proof. solve_decision. Defined.

Section placement.
Context {C W : Type} {CL : Cluster C} {WK : Workers W}.
Context (faults : nat → fault) (uuid4 : nat → string) (redis_text : pyval → result string) (cfg : Config).

(** [lease_lost]: the attempts whose heartbeat found its lease gone *)
Record State := mk_State { redis_store : Store; cluster : C; workers : W; lease_lost : list string }.
#[export] Instance state_store : HasStore State.
Proof.
  refine {| store := redis_store; set_store st s := mk_State st (cluster s) (workers s) (lease_lost s) |};
    [done|by intros []|done].
Defined.
Definition set_cluster c s : State := mk_State (redis_store s) c (workers s) (lease_lost s).
Definition set_workers w s : State := mk_State (redis_store s) (cluster s) w (lease_lost s).
Definition set_lost l s : State := mk_State (redis_store s) (cluster s) (workers s) l.

Abbreviation P := (proc State).
Abbreviation ev := (even_obj (spec cfg)).
Abbreviation idf := (id_field (spec cfg)).
Abbreviation redis := (redis faults).
Abbreviation redis_get := (redis_get faults).
Abbreviation tryAcquire := (tryAcquireProvisionLease faults).
Abbreviation release := (releaseProvisionLease faults).
Abbreviation delete_spec r pod id := (deleteFromWorkLoadSpec faults (spec cfg) r pod id).
Implicit Types (r : nat) (payload : pyval) (id : pyval) (owner lease : string) (pod : Pod).

Definition ask {A} (f : C → result A) : P A := atomic (λ s, (f (cluster s), s)).
Definition on_cluster {A} (m : stM C A) : P A := atomic (zoom cluster set_cluster m).
Definition on_workers {A} (m : stM W A) : P A := atomic (zoom workers set_workers m).

(** ** Messages *)

(** [v[key] = x] *)
Definition vset (v : pyval) (key : string) (x : pyval) : result pyval :=
  match v with VDict d => Ok (VDict (dset d key x)) | _ => Exn TypeError end.
Definition event_of payload : result pyval := vsub payload ev.
Definition event_get payload (key : string) : result pyval := e ← event_of payload; vsub e key.
Definition event_set payload (key : string) (x : pyval) : result pyval := e ← event_of payload; e' ← vset e key x; vset payload ev e'.
(** What is sent: the message or its event object, and the message once that was changed *)
Definition config_data payload : result pyval := if event_message cfg then Ok payload else event_of payload.
Definition with_config_data payload (c : pyval) : result pyval := if event_message cfg then Ok c else vset payload ev c.

(** ** Requests to the pods *)

Definition url pod (path : string) : string := "http://" +:+ podIp pod +:+ ":" +:+ default "None" (podPort pod) +:+ path.

(** Changed in place before it is sent *)
Definition map_add (data : pyval) : result pyval :=
  match map_add_field cfg with
  | None => Ok data
  | Some m =>
      e ← vsub data ev; change ← vsub e (WDM_WL_CHANGE_FIELD cfg);
      mapped ← match change with
               | VStr k => require (dget m k) KeyError
               | VList _ | VDict _ => Exn TypeError
               | _ => Exn KeyError
               end;
      e' ← vset e (WDM_WL_CHANGE_FIELD cfg) mapped; vset data ev e'
  end.
Definition remap_event (data : pyval) : result pyval :=
  match remap_event_object cfg with
  | None => Ok data
  | Some m =>
      key ← require (dget m ev) KeyError;
      e ← vsub data ev;
      match data, key with
      | VDict d, VStr k => Ok (VDict (ddel (dset d k e) ev))
      | _, _ => Exn TypeError
      end
  end.
(** The stream id for the log *)
Definition logged_id (data : pyval) : result pyval :=
  key ← match data, remap_event_object cfg with
        | VDict d, Some m => if dmem d ev then Ok ev else
                               match require (dget m ev) KeyError with Ok (VStr k) => Ok k | Ok _ => Exn TypeError | Exn e => Exn e end
        | _, _ => Ok ev
        end;
  e ← vget_or data key (VDict []); vget_or e idf (VStr "?").

(** Until a request is answered with 200, at most [attempts + 1] times; the last response there was *)
Fixpoint request_until_ok (attempts : nat) (method target : string) (data : pyval) (last : option Response) : P (option Response) :=
  res ← ptry is_Exception (resp ← on_workers (send method target data); mret (Some resp)) (λ _, mret None);
  let last := match res with Some resp => Some resp | None => last end in
  match res with
  | Some resp => if status_code resp =? 200 then mret last
                 else match attempts with O => mret last | S a => request_until_ok a method target data last end
  | None => match attempts with O => mret last | S a => request_until_ok a method target data last end
  end.
Definition attempts : nat := pred (Pos.to_nat (WDM_ADD_REMOVE_RETRY_ATTEMPTS cfg)).

Definition publish_event r (data : pyval) pod (event_info : string) : P unit :=
  id ← plift (e ← vsub data ev; vsub e idf);
  _ ← getCacheInfoForStreamId faults (spec cfg) r id;
  publishMessage faults (AgentMsg event_info id (podName pod)).

(** [provisionconfig.add]: the response and the message as it was sent *)
Definition pc_add r pod (data : pyval) : P (option Response * pyval) :=
  data ← plift (map_add data);
  data ← plift (remap_event data);
  _ ← plift (logged_id data);
  _ ← (if WDM_WL_HEALTH_CHECK_WAIT_ENABLED cfg then
         healthy ← on_cluster (watcher_wait pod);
         if (healthy : bool) then mret tt else praise WorkloadUnhealthyError
       else mret tt);
  resp ← (if String.eqb (WDM_WL_ADD_URL cfg) "" then mret None
          else request_until_ok attempts "POST" (url pod (WDM_WL_ADD_URL cfg)) data None);
  _ ← publish_event r data pod "Add event";
  mret (resp, data).
Definition pc_delete r pod (data : pyval) : P (option Response) :=
  resp ← (if String.eqb (WDM_WL_DELETE_URL cfg) "" then mret None
          else request_until_ok attempts (if String.eqb (DELETE_API_METHOD cfg) "DELETE" then "DELETE" else "POST")
                 (url pod (WDM_WL_DELETE_URL cfg)) data None);
  _ ← publish_event r data pod "Delete event";
  mret resp.

(** [WDM_CHECK_STATUS] makes an answer other than 200, or none, a failure. *)
Definition accepted (resp : option Response) : bool :=
  negb (WDM_CHECK_STATUS cfg && match resp with Some resp => negb (status_code resp =? 200) | None => true end).

(** ** Routes *)

Definition route_host pod : string :=
  match poddns pod with
  | Some h => if String.eqb h "" then (if String.eqb (podIp pod) "" then podName pod else podIp pod) else h
  | None => if String.eqb (podIp pod) "" then podName pod else podIp pod
  end.
Definition add_route (id : string) pod (host : string) (st : Store) : Store :=
  set_routes (dset (routes st) id (podName pod)) (dset (hosts st) (podName pod) host) st.
Definition addRouteMapping id pod : P unit :=
  k ← plift (redis_text id);
  if docker cfg then
    _ ← redis (λ st, (Ok tt, set_routes (dset (routes st) k (podName pod)) (hosts st) st));
    redis (λ st, (Ok tt, set_routes (routes st) (dset (hosts st) (podName pod) (route_host pod)) st))
  else
    host ← plift (require (poddns pod) DataError);
    redis (λ st, (Ok tt, add_route k pod host st)).
Definition deleteRouteMapping id : P unit :=
  k ← plift (redis_text id);
  redis (λ st, (Ok tt, set_routes (ddel (routes st) k) (hosts st) st)).

(** ** Adding a stream to the pod that was chosen *)

Definition is_lost owner : P bool := atomic (λ s, (Ok (bool_decide (owner ∈ lease_lost s)), s)).

Definition logged (m : P unit) : P unit := ptry is_Exception m (λ _, mret tt).
(** A request whose failure is logged *)
Definition try_acquire lease owner : P bool := ptry is_Exception (tryAcquire lease owner) (λ _, mret false).

Definition lease_of id : result string := redis_text id.

(** What was done is undone only under a lease of its own. *)
Definition abort_provision_after_lease_loss r pod (data : pyval) id (rollback added : bool) : P unit :=
  lease ← plift (lease_of id);
  cleanup_owner ← uuid uuid4;
  owns_cleanup ← try_acquire lease cleanup_owner;
  if (owns_cleanup : bool) then
    pfinally
      (_ ← (if added then logged (_ ← pc_delete r pod data; mret tt) else mret tt);
       _ ← (if rollback then delete_spec r (podName pod) id else mret tt);
       logged (message_err faults (podName pod) id "critical" "add_stream_failed"))
      (logged (_ ← release lease cleanup_owner; mret tt))
  else mret tt.

Definition response_body (resp : option Response) : pyval :=
  match resp with Some resp => match json_body resp with Ok v => v | Exn _ => VStr "" end | None => VStr "" end.

(** [_provision_add_stream_to_pod] where the room is reserved already, as its
    only caller does *)
Definition provision_add_stream_to_pod r pod payload id owner : P unit :=
  lost ← is_lost owner;
  data ← plift (config_data payload);
  if (lost : bool) then abort_provision_after_lease_loss r pod data id true false else
  '(resp, data) ← ptry is_Exception (pc_add r pod data)
    (λ e, _ ← (if bool_decide (e = WorkloadUnhealthyError) then delete_spec r (podName pod) id else mret tt); praise e);
  lost ← is_lost owner;
  if (lost : bool) then abort_provision_after_lease_loss r pod data id true true else
  payload ← plift (with_config_data payload data);
  payload ← plift (event_set payload "response" (response_body resp));
  data ← plift (config_data payload);
  if negb (accepted resp) then
    _ ← delete_spec r (podName pod) id;
    message_err faults (podName pod) id "critical" "add_stream_failed"
  else
    lost ← is_lost owner;
    if (lost : bool) then abort_provision_after_lease_loss r pod data id true true else
    _ ← addRouteMapping id pod;
    match webhook cfg with
    | None => mret tt
    | Some target => logged (e ← plift (vsub data ev); _ ← on_workers (send "POST" target e); mret tt)
    end.

Definition no_thread : P unit := mret tt.
Definition finish_provision_lease lease owner : P unit := logged (_ ← release lease owner; mret tt).

(** [_run_provision_add_stream]: what is left for a thread *)
Definition run_provision_add_stream r pod payload id owner : P (P unit) :=
  lease ← plift (lease_of id);
  _ ← (if WDM_WL_HEALTH_CHECK_WAIT_ENABLED cfg then
         healthy ← on_cluster (watcher_wait pod);
         if (healthy : bool) then mret tt
         else _ ← finish_provision_lease lease owner; _ ← delete_spec r (podName pod) id; praise WorkloadUnhealthyError
       else mret tt);
  let add := provision_add_stream_to_pod r pod payload id owner in
  let roll_back := delete_spec r (podName pod) id in
  if WDM_PROVISION_ASYNC cfg then
    mret (pfinally (ptry is_Exception add (λ _, roll_back)) (finish_provision_lease lease owner))
  else
    _ ← pfinally (ptry is_Exception add (λ e, _ ← roll_back; praise e)) (finish_provision_lease lease owner);
    mret no_thread.

(** ** Removing a stream *)

Definition deprovision_pod r payload id pod : P unit :=
  podname ← getIdPodMapping faults redis_text id;
  if bool_decide (podname = Some (podName pod)) then
    wl_spec ← getworkLoadSpec faults (spec cfg) r (podName pod) id;
    _ ← plift (event_get payload idf);
    data ← plift (config_data payload);
    resp ← pc_delete r pod data;
    match wl_spec with
    | Some _ =>
        if accepted resp then
          _ ← delete_spec r (podName pod) id; deleteRouteMapping id
        else message_err faults (podName pod) id "agent" "delete_stream_failed"
    | None => _ ← delete_spec r (podName pod) id; deleteRouteMapping id
    end
  else mret tt.
Definition deprovisionStreamRedis r payload : P unit :=
  replicas ← ask getStatefulSets;
  match replicas with
  | None | Some 0 => mret tt
  | Some _ =>
      pods ← ask getPods;
      match pods with
      | None => mret tt
      | Some pods => id ← plift (event_get payload idf); pfor pods (deprovision_pod r payload id)
      end
  end.

(** ** Provisioning *)

(** [workload_spec_for_stream_id] *)
Definition workload_spec_for_stream_id r id : P (option pyval) :=
  l ← getworkLoadSpecById faults (spec cfg) r id;
  plift (first_with_id (spec cfg) id (VDict <$> default [] l)).

(** Whether the message differs from what is stored for its stream, which is then
    removed, and the message, whose [change] that sets *)
Definition remove_streams_with_same_id r payload : P (bool * pyval) :=
  id ← plift (event_get payload idf);
  curr_spec ← workload_spec_for_stream_id r id;
  match curr_spec with
  | None => mret (true, payload)
  | Some curr_spec =>
      same ← plift (if event_message cfg then a ← vsub curr_spec ev; b ← event_of payload; Ok (py_eqb a b)
                    else Ok (py_eqb curr_spec payload));
      if (same : bool) then mret (false, payload)
      else payload ← plift (event_set payload "change" (VStr (WDM_WL_CHANGE_ID_DEL cfg)));
           _ ← deprovisionStreamRedis r payload; mret (true, payload)
  end.

(** [x in text] *)
Fixpoint substring (x text : string) : bool :=
  String.prefix x text || match text with EmptyString => false | String _ text' => substring x text' end.
Definition pod_of_allocation (a : pyval) : result pyval := vsub a "podName".
Definition get_current_allocation_pod_names : P (list pyval) :=
  l ← redis_get allocations;
  plift (foldr (λ (x : string * pyval) acc, p ← pod_of_allocation x.2; l ← acc; Ok (p :: l)) (Ok []) l).
Definition get_pod_info_by_encoded_name (encoded_name : pyval) : P pyval :=
  match encoded_name with
  | VStr s =>
      match py_split (WDM_POD_ALLOCATION_REGEX_DELIMITER cfg) s with
      | a :: b :: ([] | [_]) =>
          x ← redis_get (λ st, dget (allocations st) (a +:+ WDM_POD_ALLOCATION_REGEX_DELIMITER cfg +:+ b));
          plift (require x TypeError)
      | _ => mret (VDict [])
      end
  | _ => praise AttributeError
  end.
(** Whether the configured assignment lets the pod take the stream *)
Definition regex_match payload (curr_allocations : option (list pyval)) pod : P bool :=
  match curr_allocations with
  | None => mret true
  | Some names =>
      if existsb (py_eqb (VStr (podName pod))) names then
        encoded ← plift (event_get payload (WDM_STREAM_ADD_REGEX_INFO_KEY cfg));
        info ← get_pod_info_by_encoded_name encoded;
        name ← plift (vsub info "podName");
        match name with
        | VStr n => mret (substring (podName pod) n)
        | VList l => mret (existsb (py_eqb (VStr (podName pod))) l)
        | VDict d => mret (dmem d (podName pod))
        | _ => praise TypeError
        end
      else mret false
  end.

(** The scan: whether a pod is down, the healthy pods with room, and the others *)
Record Scan := mk_Scan { any_pod_down : bool; eligible_pods : list Entry; unhealthy_capacity_pods : list Entry }.
Definition scan_pod r payload id (curr_allocations : option (list pyval)) (acc : Scan) pod : P Scan :=
  pod_is_down ← ask (ifPodDown (podName pod));
  let acc := mk_Scan (any_pod_down acc || pod_is_down) (eligible_pods acc) (unhealthy_capacity_pods acc) in
  matches ← regex_match payload curr_allocations pod;
  if (matches : bool) then
    _ ← getworkLoadSpec faults (spec cfg) r (podName pod) id;
    spec_count ← getSpecCount r (podName pod);
    if WDM_WL_THRESHOLD cfg <=? spec_count then mret acc
    else if (pod_is_down : bool)
    then mret (mk_Scan (any_pod_down acc) (eligible_pods acc) (unhealthy_capacity_pods acc ++ [(pod, spec_count)]))
    else mret (mk_Scan (any_pod_down acc) (eligible_pods acc ++ [(pod, spec_count)]) (unhealthy_capacity_pods acc))
  else mret acc.
Fixpoint scan_pods r payload id (curr_allocations : option (list pyval)) (acc : Scan) (pods : list Pod) : P Scan :=
  match pods with
  | [] => mret acc
  | pod :: pods' => acc ← scan_pod r payload id curr_allocations acc pod; scan_pods r payload id curr_allocations acc pods'
  end.

(** [candidates.remove(candidate)]; pods differ by name *)
Fixpoint remove_entry (e : Entry) (l : list Entry) : list Entry :=
  match l with
  | [] => []
  | e' :: l' => if String.eqb (podName e'.1) (podName e.1) && (e'.2 =? e.2) then l' else e' :: remove_entry e l'
  end.
(** One candidate after the other until one has room; [fuel] counts them. *)
Fixpoint reserve_candidate (fuel : nat) r payload (candidates : list Entry) : P (option Entry) :=
  match fuel, candidates with
  | _, [] | O, _ => mret None
  | S fuel, first :: rest =>
      let candidate := select_pod_from_candidates first rest (WDM_WL_ASSIGNING_METHOD cfg) in
      reservation ← tryReserveWorkLoadSpec faults (spec cfg) r (podName candidate.1) payload (WDM_WL_THRESHOLD cfg);
      match reservation with
      | Full => reserve_candidate fuel r payload (remove_entry candidate candidates)
      | _ => mret (Some candidate)
      end
  end.

(** The checks before a pod is looked for *)
Definition name_ignored payload : result bool :=
  match name_ignore cfg with
  | None => Ok false
  | Some matches =>
      name ← event_get payload (if WDM_DS_SWAP_ID_NAME cfg then idf else WDM_WL_SWAP_KEY_SECONDARY_FIELD cfg);
      match name with VStr n => Ok (matches n) | _ => Exn TypeError end
  end.
Fixpoint field_missing (e : pyval) (fields : list string) : result bool :=
  match fields with
  | [] => Ok false
  | f :: fields' =>
      match e with
      | VDict d => match dget d f with
                   | None => Ok true
                   | Some v => match vor v (VStr "") with
                               | VStr t => if String.eqb (py_strip t) "" then Ok true else field_missing e fields'
                               | _ => Exn AttributeError
                               end
                   end
      | _ => Exn TypeError
      end
  end.
Definition incomplete payload : result bool :=
  match required_fields cfg with None => Ok false | Some fields => e ← event_of payload; field_missing e fields end.

(** Reservations without a route are taken away under a lease; [false] when
    another replica has it. *)
Definition remove_orphans r lease id (orphans : list (dict string pyval)) : P bool :=
  cleanup_owner ← uuid uuid4;
  acquired ← tryAcquire lease cleanup_owner;
  if (acquired : bool) then
    _ ← pfinally (pfor orphans (λ orphan, match dget orphan "pod_name" with
                                         | Some (VStr pod) => delete_spec r pod id
                                         | _ => mret tt
                                         end))
          (_ ← release lease cleanup_owner; mret tt);
    mret true
  else mret false.

(** A chosen pod is reserved and the stream added; [None] when no candidate had room. *)
Definition place r payload id lease (candidates : list Entry) : P (option (Provision * P unit)) :=
  lease_owner ← uuid uuid4;
  acquired ← tryAcquire lease lease_owner;
  if negb acquired then mret (Some (PFalse, no_thread)) else
  selected ← ptry is_Exception (reserve_candidate (length candidates) r payload candidates)
               (λ e, _ ← release lease lease_owner; praise e);
  match selected with
  | Some (pod, _) =>
      ptry (λ e, bool_decide (e = WorkloadUnhealthyError))
        (background ← run_provision_add_stream r pod payload id lease_owner; mret (Some (PTrue, background)))
        (λ _, mret (Some (PDeferred, no_thread)))
  | None => _ ← release lease lease_owner; mret None
  end.

(** [fuel] is how deep Python may still recurse. *)
Fixpoint provisionStreamRedis (fuel : nat) r payload : P (Provision * P unit) :=
  match fuel with
  | O => praise RecursionError
  | S fuel =>
      id ← plift (event_get payload idf);
      lease ← plift (lease_of id);
      obj ← getIdPodMapping faults redis_text id;
      wobj ← getworkLoadSpecById faults (spec cfg) r id;
      match obj, wobj with
      | Some _, Some (_ :: _) => mret (PNone, no_thread)
      | _, _ =>
          cleaned ← match obj, wobj with
                    | None, Some ((_ :: _) as orphans) => remove_orphans r lease id orphans
                    | _, _ => mret true
                    end;
          if negb cleaned then mret (PFalse, no_thread) else
          ignored ← plift (name_ignored payload);
          if (ignored : bool) then mret (PFalse, no_thread) else
          missing ← plift (incomplete payload);
          if (missing : bool) then mret (PFalse, no_thread) else
          '(differs, payload) ← remove_streams_with_same_id r payload;
          payload ← (if (differs : bool) then mret payload
                     else p ← plift (event_set payload "change" (VStr (WDM_WL_CHANGE_ID_DEL cfg)));
                          _ ← deprovisionStreamRedis r p;
                          plift (event_set p "change" (VStr (WDM_WL_CHANGE_ID_ADD cfg))));
          curr_allocations ← (if WDM_ENABLE_REGEX_MAPPING cfg then l ← get_current_allocation_pod_names; mret (Some l) else mret None);
          replicas ← ask getStatefulSets;
          let again n :=
            _ ← on_cluster (scaleStatefulsetPods n);
            '(scaled, background) ← provisionStreamRedis fuel r payload;
            mret (if bool_decide (scaled = PDeferred) then PDeferred else PTrue, background) in
          match replicas with
          | None | Some 0 => again 1
          | Some replicas =>
              pods ← ask getPods;
              match pods with
              | None => mret (PTrue, no_thread)
              | Some pods =>
                  scan ← scan_pods r payload id curr_allocations (mk_Scan false [] []) pods;
                  let candidates := match eligible_pods scan with [] => unhealthy_capacity_pods scan | l => l end in
                  placed ← (match candidates with [] => mret None | _ => place r payload id lease candidates end);
                  match placed with
                  | Some outcome => mret outcome
                  | None =>
                      if docker cfg then
                        if any_pod_down scan then mret (PDeferred, no_thread)
                        else _ ← message_err faults "None" id "critical" "add_stream_failed"; mret (PTrue, no_thread)
                      else if WDM_ENABLE_REGEX_MAPPING cfg then
                        _ ← message_err faults "None" id "critical" "add_stream_failed"; mret (PTrue, no_thread)
                      else if replicas <? WDM_MAX_REPLICAS cfg then again (replicas + 1)
                      else
                        ready_replicas ← ask getReadyReplicas;
                        healthy ← ask (λ c, Ok (watcher_count c));
                        let healthy_via_http := default ready_replicas healthy in
                        if (ready_replicas <? replicas) || (any_pod_down scan && (healthy_via_http =? 0)) then mret (PDeferred, no_thread)
                        else
                          match last pods with
                          | None => praise UnboundLocalError
                          | Some pod => _ ← message_err faults (podName pod) id "critical" "add_stream_failed"; praise MaxReplicaException
                          end
                  end
              end
          end
      end
  end.

(** [_renew_provision_lease_until_stopped]: in every round, whether the lease would
    have expired should Redis fail; the list ends when the attempt does. *)
Fixpoint renew_provision_lease_until_stopped lease owner (late : list bool) : P unit :=
  match late with
  | [] => mret tt
  | past_deadline :: late' =>
      renewed ← ptry is_Exception (b ← renewProvisionLease faults lease owner; mret (Some b)) (λ _, mret None);
      match renewed with
      | Some true => renew_provision_lease_until_stopped lease owner late'
      | Some false => atomic (smod (λ s, set_lost (owner :: lease_lost s) s))
      | None => if (past_deadline : bool) then atomic (smod (λ s, set_lost (owner :: lease_lost s) s))
                else renew_provision_lease_until_stopped lease owner late'
      end
  end.

(** The outcome of an add for the event bus ([redisGetStreamData]) *)
Definition add_outcome (env : Imports) (mro : pyexn → list string) (res : result Provision) : string :=
  match res with
  | Ok PDeferred => EVENT_RETRYABLE
  | Ok _ => EVENT_OK
  | Exn e => if bool_decide (e = MaxReplicaException)
             then (if WDM_EVICT_QUEUE_ON_NO_CAPACITY cfg then EVENT_TERMINAL else EVENT_RETRYABLE)
             else classify_exception env (mro e)
  end.
(** A handler of an add with the thread it may leave running *)
Definition provision_handler (fuel : nat) r payload : P unit :=
  '(_, background) ← provisionStreamRedis fuel r payload; background.

(** [readdStreams]: the streams a recovered pod had; the status is logged before
    the response is looked at. *)
Definition readd_stream r pod (s : pyval) : P unit :=
  id ← plift (event_get s idf);
  '(resp, _) ← pc_add r pod s;
  match resp with
  | None => praise AttributeError
  | Some _ => if accepted resp then addRouteMapping id pod
              else message_err faults (podName pod) id "critical" "reapply_stream_failed"
  end.
Definition readdStreams r (pod_name : string) (streams : list pyval) : P unit :=
  pods ← ask getPods;
  pfor (default [] pods) (λ pod, if String.eqb (podName pod) pod_name then pfor streams (readd_stream r pod) else mret tt).

(** The route [cache_metadata_update]: the metadata of a stream, deleted and added again *)
Definition updated_entry (cache_key : string) (overwrite : bool) (additional : dict string pyval) (info : dict string pyval) : result pyval :=
  old ← match dget info cache_key with
        | None => Ok []
        | Some (VDict d) => Ok d
        | Some (VList _) => if overwrite then Ok [] else Exn AttributeError
        | Some _ => Exn AttributeError
        end;
  let new := if negb overwrite && dmem info cache_key then dupdate old additional else additional in
  Ok (VDict (match new with [] => ddel info cache_key | _ => dset info cache_key (VDict new) end)).
Definition cache_metadata_update r id (additional : dict string pyval) (cache_key : string) (overwrite : bool) : P Z :=
  found ← getCacheInfoForStreamId faults (spec cfg) r id;
  match found with
  | None => mret 400
  | Some (pod_name, VDict info) =>
      new_value ← plift (updated_entry cache_key overwrite additional info);
      _ ← updateWorkLoadSpec faults (spec cfg) r pod_name id new_value; mret 200
  | Some _ => praise TypeError
  end.
End placement.
