(* ===== verification/PlacementSafe.v ===== *)
(** * Stream placement: what holds under every interleaving

    Handlers of any number of controller replicas that are up, interleaved, with
    threads and heartbeats, expiring leases and failing requests: no pod is ever given
    more streams than it has room for ([capacity_kept]), unless its metadata are
    changed meanwhile, and no lease is kept ([leases_given_back]). *)

From Stdlib Require Import ZArith Lia.
From stdpp Require Import base list strings gmap relations.
From S2P Require Import Prelude PyDict PyFloat PyText PyVal Proc BusOutcomes WorkloadSpec HealthWatcher Placement.
Open Scope Z_scope.

Section safe.
Context {C W : Type} {CL : Cluster C} {WK : Workers W}.
Context (faults : nat → fault) (uuid4 : nat → string) (redis_text : pyval → result string) (cfg : Config).
Abbreviation State := (@State C W).
Implicit Types (s : State) (st : Store) (r : nat) (x o pod : string).

(** ** Room *)

(** How often a pod lists a stream *)
Definition is_entry x (v : pyval) : bool := match entry_id (spec cfg) v with Ok (VStr y) => String.eqb y x | _ => false end.
Definition occurrences x (l : list pyval) : nat := length (filter (λ v, is_entry x v = true) l).
Definition streams_of st pod : list pyval := decode_wl_spec_field (dget (specs st) pod).
Definition orderly st : Prop := ∀ pod,
  Z.of_nat (length (streams_of st pod)) ≤ Z.max 0 (WDM_WL_THRESHOLD cfg) ∧ ∀ x, (occurrences x (streams_of st pod) ≤ 1)%nat.

Lemma py_eqb_str v x : py_eqb v (VStr x) = true ↔ v = VStr x.
Proof. destruct v; cbn; try done. rewrite String.eqb_eq. naive_solver. Qed.

Lemma orderly_specs st st' : specs st' = specs st → orderly st → orderly st'.
Proof. intros E H pod. unfold streams_of. rewrite E. apply H. Qed.
Lemma orderly_set st pod l :
  orderly st → Z.of_nat (length l) ≤ Z.max 0 (WDM_WL_THRESHOLD cfg) → (∀ x, (occurrences x l ≤ 1)%nat) →
  orderly (set_specs (dset (specs st) pod (Some (VList l))) st).
Proof.
  intros H H1 H2 pod'. unfold streams_of. cbn [specs set_specs]. rewrite dget_dset. case_decide; [by subst|apply H].
Qed.
Lemma orderly_del st pod : orderly st → orderly (set_specs (ddel (specs st) pod) st).
Proof.
  intros H pod'. unfold streams_of. cbn [specs set_specs]. rewrite dget_ddel. case_decide; [|apply H].
  split; [cbn; lia|intros x; cbn; lia].
Qed.
Lemma orderly_nil st : orderly (set_specs [] st).
Proof. intros pod. unfold streams_of. cbn. split; [lia|intros x; lia]. Qed.

Lemma filter_id_sub keep id l l' : filter_id (spec cfg) keep id l = Ok l' → l' `sublist_of` l.
Proof.
  revert l'. induction l as [|v l IH]; intros l'; cbn; [by intros [= <-]|].
  destruct (entry_id (spec cfg) v) as [i|]; [|done]. cbn. destruct (filter_id _ _ _ l) as [rest|]; [|done]. cbn. intros [= <-].
  case_match; [by apply sublist_skip, IH|by apply sublist_cons, IH].
Qed.
Lemma occurrences_sub x l l' : l' `sublist_of` l → (occurrences x l' ≤ occurrences x l)%nat.
Proof.
  induction 1 as [|v l' l Hs IH|v l' l Hs IH]; unfold occurrences in *; rewrite ?filter_cons; [done|..]; repeat case_decide; cbn; lia.
Qed.
Lemma orderly_filter st pod id l :
  orderly st → filter_id (spec cfg) false id (streams_of st pod) = Ok l → orderly (set_specs (dset (specs st) pod (Some (VList l))) st).
Proof.
  intros H Hl%filter_id_sub. destruct (H pod) as [H1 H2]. apply orderly_set; [done|apply sublist_length in Hl; lia|].
  intros x. pose proof (occurrences_sub x _ _ Hl). specialize (H2 x). lia.
Qed.

Lemma soft_entry_id v d : v = VDict d → ∀ x, is_entry x v = true → soft_id (spec cfg) v = Ok (VStr x).
Proof.
  intros -> x. unfold is_entry, entry_id, soft_id, vsub, vget_or, vget. cbn. destruct (dget d _) as [ev|]; [|done]. cbn.
  destruct ev as [| | | | | |e]; try done. cbn. destruct (dget e _) as [i|]; [|done]. cbn. destruct i; try done. by intros ->%String.eqb_eq.
Qed.
Lemma holds_id_false x l : holds_id (spec cfg) (VStr x) l = Ok false → occurrences x l = 0%nat.
Proof.
  unfold occurrences. induction l as [|v l IH]; [done|]. intros Hl. rewrite filter_cons.
  destruct (decide (is_entry x v = true)) as [E|_].
  - destruct v as [| | | | | |d]; try done. cbn [holds_id] in Hl. rewrite (soft_entry_id _ d eq_refl x E) in Hl. cbn in Hl. by rewrite String.eqb_refl in Hl.
  - apply IH. destruct v; try done. cbn [holds_id] in Hl. destruct (soft_id _ _) as [i|]; [|done]. cbn in Hl. by destruct (py_eqb i (VStr x)).
Qed.
Lemma occurrences_snoc x l v : occurrences x (l ++ [v]) = (occurrences x l + Nat.b2n (is_entry x v))%nat.
Proof. unfold occurrences. rewrite filter_app, length_app, filter_cons, filter_nil. by destruct (is_entry x v). Qed.
Lemma orderly_reserve st pod original id :
  orderly st → entry_id (spec cfg) original = Ok id →
  orderly (reserve (spec cfg) pod original id (WDM_WL_THRESHOLD cfg) st).2.
Proof.
  intros H Hid. unfold reserve. fold (streams_of st pod). destruct (holds_id _ _ _) as [[]|e] eqn:Eh; [done| |done].
  destruct (Z.leb_spec (WDM_WL_THRESHOLD cfg) (Z.of_nat (length (streams_of st pod)))); [done|]. cbn. destruct (H pod) as [H1 H2].
  apply orderly_set; [done|rewrite length_app; cbn; lia|]. intros x. rewrite occurrences_snoc. specialize (H2 x).
  destruct (is_entry x original) eqn:E; [|cbn; lia]. unfold is_entry in E. rewrite Hid in E. destruct id; try done.
  apply String.eqb_eq in E as ->. by rewrite (holds_id_false x _ Eh).
Qed.

(** ** Leases *)

Context (earlier : dict string string).

(** Redis answers, and so does the health watcher. *)
Definition calm : Prop := (∀ n, faults n = Fine) ∧ ∀ (p : Pod) (c : C), is_ok (watcher_wait p c).1 = true.
(** Whose lease it is: that of a process of the pool, or one there was already *)
Definition covered st (R : list (string * string)) : Prop := ∀ x o, dget (leases st) x = Some o → (x, o) ∈ R ∨ (x, o) ∈ earlier.

(** Whether the pods' rooms are looked at as well as the leases *)
Context (rooms : Prop).
Definition Inv s (R : list (string * string)) : Prop := (rooms → orderly (redis_store s)) ∧ (calm → covered (redis_store s) R).
#[export] Instance inv_proper s : Proper ((≡ₚ) ==> iff) (Inv s).
Proof. intros R R' E. unfold Inv, covered. by setoid_rewrite E. Qed.
Definition any (_ _ : State) : Prop := True.
Definition nobody_waits (_ : string * string) : Prop := False.
Abbreviation wp := (wp Inv any nobody_waits).
Abbreviation keeps := (keeps Inv any nobody_waits).
Abbreviation redis := (redis (S:=State) faults).
Abbreviation sp := (spec cfg).

Lemma not_calm n f : faults n = f → f ≠ Fine → ¬ calm.
Proof. intros <- H [Hf _]. by rewrite Hf in H. Qed.

(** ** Actions that leave the leases alone *)

Definition mild {A} (op : stM Store A) : Prop := ∀ st, leases (op st).2 = leases st ∧ (rooms → orderly st → orderly (op st).2).

Lemma inv_store s st' R :
  leases st' = leases (redis_store s) → (rooms → orderly (redis_store s) → orderly st') → Inv s R → Inv (set_store st' s) R.
Proof. intros El Ho [H1 H2]. split; [intros Hr; by apply Ho, H1|]. intros Hc x o. cbn. rewrite El. by apply H2. Qed.
Lemma keeps_local {A} h (op : stM Store A) : mild op → keeps h (local op).
Proof.
  intros Hop. apply keeps_act. intros s R HI. split; [done|]. unfold zoom. specialize (Hop (store s)). destruct (op (store s)) as [a st'] eqn:E.
  cbn in *. destruct Hop. by apply inv_store.
Qed.
Lemma keeps_redis {A} h (op : stM Store A) : mild op → keeps h (redis op).
Proof.
  intros Hop. apply keeps_local. intros st. destruct (faults (requests st)); [exact (Hop (count_request st))|done|exact (Hop (count_request st))].
Qed.
Lemma mild_read {A} (f : Store → A) : mild (λ st, (Ok (f st), st)).
Proof. by intros st. Qed.
Lemma keeps_get {A} h (f : Store → A) : keeps h (redis_get faults f).
Proof. apply keeps_redis, mild_read. Qed.
Lemma mild_other {A} (f : Store → result A) g :
  (∀ st, leases (g st) = leases st) → (∀ st, specs (g st) = specs st) → mild (λ st, (f st, g st)).
Proof. intros Hl Hs st. split; [apply Hl|]. cbn. intros _ Ho. by eapply orderly_specs; [apply Hs|]. Qed.

Lemma keeps_lift {A B} h (v : result A) (f : A → proc State B) : (∀ a, v = Ok a → keeps h (f a)) → keeps h (plift v ≫= f).
Proof. destruct v; [intros Hf; by apply Hf|done]. Qed.

(** ** Actions on the cluster and the pods *)
Lemma keeps_elsewhere {A} h (op : stM State A) : (∀ s, redis_store (op s).2 = redis_store s) → keeps h (atomic op).
Proof. intros Hop. apply keeps_act. intros s R [H1 H2]. split; [done|]. unfold Inv. by rewrite Hop. Qed.
Lemma keeps_ask {A} h (f : C → result A) : keeps h (ask f).
Proof. by apply keeps_elsewhere. Qed.
Lemma keeps_cluster {A} h (m : stM C A) : keeps h (on_cluster m).
Proof. apply keeps_elsewhere. intros s. unfold zoom. by destruct (m _). Qed.
Lemma keeps_workers {A} h (m : stM W A) : keeps h (on_workers m).
Proof. apply keeps_elsewhere. intros s. unfold zoom. by destruct (m _). Qed.
Lemma keeps_lost h owner : keeps h (is_lost owner).
Proof. by apply keeps_elsewhere. Qed.
Lemma keeps_uuid h : keeps h (uuid uuid4).
Proof. by apply keeps_local, mild_other. Qed.

Create HintDb place.
#[local] Hint Resolve keeps_get keeps_ask keeps_cluster keeps_workers keeps_lost keeps_uuid : place.
Ltac place := repeat first
  [ progress intros
  | done
  | solve [auto with place nocore]
  | apply keeps_ret
  | apply keeps_bind
  | apply keeps_try
  | apply keeps_finally
  | apply keeps_for
  | match goal with
    | |- Proc.keeps _ _ _ _ (match ?x with _ => _ end) => destruct x
    end ].

(** ** Reading and writing the workload specification *)
Lemma keeps_load h r : keeps h (loadWorkLoadSpec faults r).
Proof. apply keeps_local. intros st. by destruct (faults _). Qed.
Lemma keeps_wl_spec h r : keeps h (wl_spec r).
Proof. by apply keeps_local, mild_other. Qed.
#[local] Hint Resolve keeps_load keeps_wl_spec : place.
Lemma keeps_getSpecCount h r pod : keeps h (getSpecCount r pod).
Proof. unfold getSpecCount. place. Qed.
Lemma keeps_all h r : keeps h (getAllStreams faults r).
Proof. unfold getAllStreams. place. Qed.
#[local] Hint Resolve keeps_getSpecCount keeps_all : place.
Lemma keeps_info h r id : keeps h (getCacheInfoForStreamId faults sp r id).
Proof. unfold getCacheInfoForStreamId. place. Qed.
Lemma keeps_by_id h r id : keeps h (getworkLoadSpecById faults sp r id).
Proof. unfold getworkLoadSpecById. place. Qed.
Lemma keeps_spec h r pod id : keeps h (getworkLoadSpec faults sp r pod id).
Proof. unfold getworkLoadSpec. place. Qed.
#[local] Hint Resolve keeps_info keeps_by_id keeps_spec : place.

Lemma keeps_delete_spec h r pod id : keeps h (deleteFromWorkLoadSpec faults sp r pod id).
Proof.
  unfold deleteFromWorkLoadSpec. apply keeps_try; [|done]. apply keeps_bind; [|place]. apply keeps_redis. intros st.
  destruct (dget (specs st) pod) as [raw|] eqn:E; [|done]. destruct (filter_id _ _ _ _) as [l|] eqn:El; [|done]. split; [done|].
  intros _ Ho. eapply orderly_filter; [done|]. unfold streams_of. by rewrite E.
Qed.
Lemma keeps_delete_obj h r pod : keeps h (deleteWLObj faults r pod).
Proof.
  unfold deleteWLObj. apply keeps_bind; [apply keeps_wl_spec|]. place.
  - by apply keeps_local, mild_other.
  - apply keeps_redis. intros st. split; [done|intros _; apply orderly_del].
Qed.
#[local] Hint Resolve keeps_delete_spec keeps_delete_obj : place.
Lemma keeps_erase_pod h r pod : keeps h (erasePodSpecContent faults r pod).
Proof. unfold erasePodSpecContent. place. Qed.
Lemma keeps_erase h r : keeps h (eraseSpecContent faults r).
Proof. unfold eraseSpecContent. place. apply keeps_redis. intros st. split; [done|intros _ _; apply orderly_nil]. Qed.
Lemma keeps_delete_by_id h r id : keeps h (deleteFromWorkLoadSpecbyId faults sp r id).
Proof. unfold deleteFromWorkLoadSpecbyId. place. Qed.
Lemma keeps_reserve h r pod original : keeps h (tryReserveWorkLoadSpec faults sp r pod original (WDM_WL_THRESHOLD cfg)).
Proof.
  apply keeps_lift. intros id Hid. place. apply keeps_redis. intros st. split; [|intros _ Ho; by apply orderly_reserve].
  unfold reserve. by repeat case_match.
Qed.
#[local] Hint Resolve keeps_erase_pod keeps_erase keeps_delete_by_id keeps_reserve : place.

(** ** Messages, routes and requests *)
Lemma keeps_publish h m : keeps h (publishMessage faults m).
Proof. by apply keeps_redis, mild_other. Qed.
#[local] Hint Resolve keeps_publish : place.
Lemma keeps_message_err h p id t u : keeps h (message_err faults p id t u).
Proof. unfold message_err. place. Qed.
Lemma keeps_mapping h id : keeps h (getIdPodMapping faults redis_text id).
Proof. unfold getIdPodMapping. place. Qed.
Lemma keeps_request h n method target data last : keeps h (request_until_ok n method target data last).
Proof. revert last. induction n as [|n IH]; intros last; cbn [request_until_ok]; place. Qed.
Lemma keeps_publish_event h r data q info : keeps h (publish_event faults cfg r data q info).
Proof. unfold publish_event. place. Qed.
#[local] Hint Resolve keeps_message_err keeps_mapping keeps_request keeps_publish_event : place.
Lemma keeps_add h r q data : keeps h (pc_add faults cfg r q data).
Proof. unfold pc_add. place. Qed.
Lemma keeps_delete h r q data : keeps h (pc_delete faults cfg r q data).
Proof. unfold pc_delete. place. Qed.
Lemma keeps_add_route h id q : keeps h (addRouteMapping faults redis_text cfg id q).
Proof. unfold addRouteMapping. place; by apply keeps_redis, mild_other. Qed.
Lemma keeps_delete_route h id : keeps h (deleteRouteMapping faults redis_text id).
Proof. unfold deleteRouteMapping. place. by apply keeps_redis, mild_other. Qed.
#[local] Hint Resolve keeps_add keeps_delete keeps_add_route keeps_delete_route : place.
Lemma keeps_logged h p : keeps h p → keeps h (logged p).
Proof. unfold logged. place. Qed.
#[local] Hint Resolve keeps_logged : place.

(** ** Leases *)
Lemma acquire_lease_wp h x o :
  wp h (tryAcquireProvisionLease faults x o) (λ res h', h' = match res with Ok true => (x, o) :: h | _ => h end).
Proof.
  split; [|done]. intros s R [H1 H2]. split; [done|]. unfold zoom. cbn. destruct (faults _) eqn:Ef.
  - destruct (dmem _ x) eqn:Em; cbn; [by exists h|]. exists ((x, o) :: h). split; [|done]. split; [done|].
    intros Hc y p. cbn. rewrite dget_dset. case_decide as E; [intros [= <-]; subst; left; by left|]. intros Hy. destruct (H2 Hc _ _ Hy); [left; by right|by right].
  - exists h. split; [split; [done|]|done]. intros []%(not_calm _ _ Ef); done.
  - exists h. split; [split|by destruct (dmem _ x)]; [by destruct (dmem _ x)|]. intros []%(not_calm _ _ Ef); done.
Qed.
Lemma covered_release st x o R : covered st ((x, o) :: R) → covered (set_leases (ddel (leases st) x) st) R.
Proof.
  intros H y p. cbn [leases set_leases]. rewrite dget_ddel. case_decide as E; [done|]. intros [Hy|Hy]%H; [left|by right].
  apply elem_of_cons in Hy as [[= -> ->]|Hy]; [by destruct E|done].
Qed.
Lemma release_lease_wp h x o :
  wp ((x, o) :: h) (releaseProvisionLease faults x o) (λ res h', match res with Ok _ => True | Exn e => is_Exception e = true end ∧ h' = h).
Proof.
  split; [|done]. intros s R [H1 H2]. split; [done|]. unfold zoom. cbn. destruct (faults _) eqn:Ef; exists h.
  - destruct (decide (dget (leases (redis_store s)) x = Some o)) as [E|E]; cbn.
    + rewrite bool_decide_true by done. split; [|done]. split; [done|]. intros Hc. by apply (covered_release (count_request (redis_store s)) x o), H2.
    + rewrite bool_decide_false by done. split; [|done]. split; [done|]. intros Hc y p Hy.
      destruct (H2 Hc y p Hy) as [Hin|Hin]; [left|by right]. apply elem_of_cons in Hin as [[= -> ->]|Hin]; [by destruct E|done].
  - split; [split; [done|]|done]. intros []%(not_calm _ _ Ef); done.
  - destruct (bool_decide _); (split; [split; [done|]|done]); intros []%(not_calm _ _ Ef); done.
Qed.
Lemma finish_wp h x o : wp ((x, o) :: h) (finish_provision_lease faults x o) (λ res h', res = Ok tt ∧ h' = h).
Proof.
  unfold finish_provision_lease, logged. apply wp_try, wp_bind. eapply wp_mono; [|apply release_lease_wp]. by intros [b|e] h' [He ->]; [|rewrite He].
Qed.

Lemma keeps_under_lease h x o (body : proc State unit) (rest : proc State unit) :
  keeps ((x, o) :: h) body → wp ((x, o) :: h) rest (λ _ h', h' = h) → wp ((x, o) :: h) (pfinally body rest) (λ _ h', h' = h).
Proof. intros Hb Hr. apply wp_finally. eapply wp_mono; [|exact Hb]. intros res h' ->. eapply wp_mono; [|exact Hr]. by intros [] h' ->. Qed.
Lemma keeps_abort h r q data id rollback added :
  keeps h (abort_provision_after_lease_loss faults uuid4 redis_text cfg r q data id rollback added).
Proof.
  unfold abort_provision_after_lease_loss. apply keeps_lift. intros x _. apply keeps_bind; [place|]. intros o.
  apply wp_bind, wp_try. eapply wp_mono; [|apply acquire_lease_wp]. intros [[]|e] h' ->; [|done|by destruct (is_Exception e)].
  apply keeps_under_lease; [place|]. eapply wp_mono; [|apply finish_wp]. by intros res h' [_ ->].
Qed.
#[local] Hint Resolve keeps_abort : place.
Lemma keeps_add_to_pod h r q payload id owner : keeps h (provision_add_stream_to_pod faults uuid4 redis_text cfg r q payload id owner).
Proof. unfold provision_add_stream_to_pod. place. Qed.
#[local] Hint Resolve keeps_add_to_pod : place.

(** ** Removing and choosing *)
Lemma keeps_deprovision_pod h r payload id q : keeps h (deprovision_pod faults redis_text cfg r payload id q).
Proof. unfold deprovision_pod. place. Qed.
#[local] Hint Resolve keeps_deprovision_pod : place.
Lemma keeps_deprovision h r payload : keeps h (deprovisionStreamRedis faults redis_text cfg r payload).
Proof. unfold deprovisionStreamRedis. place. Qed.
Lemma keeps_for_id h r id : keeps h (workload_spec_for_stream_id faults cfg r id).
Proof. unfold workload_spec_for_stream_id. place. Qed.
#[local] Hint Resolve keeps_deprovision keeps_for_id : place.
Lemma keeps_remove_same h r payload : keeps h (remove_streams_with_same_id faults redis_text cfg r payload).
Proof. unfold remove_streams_with_same_id. place. Qed.
Lemma keeps_names h : keeps h (get_current_allocation_pod_names faults).
Proof. unfold get_current_allocation_pod_names. place. Qed.
Lemma keeps_encoded h v : keeps h (get_pod_info_by_encoded_name faults cfg v).
Proof. unfold get_pod_info_by_encoded_name. place. Qed.
#[local] Hint Resolve keeps_remove_same keeps_names keeps_encoded : place.
Lemma keeps_regex h payload names q : keeps h (regex_match faults cfg payload names q).
Proof. unfold regex_match. place. Qed.
#[local] Hint Resolve keeps_regex : place.
Lemma keeps_scan h r payload id names acc qs : keeps h (scan_pods faults cfg r payload id names acc qs).
Proof. revert acc. induction qs as [|q qs IH]; intros acc; cbn [scan_pods]; [done|]. apply keeps_bind; [unfold scan_pod; place|done]. Qed.
Lemma keeps_candidate h n r payload l : keeps h (reserve_candidate faults cfg n r payload l).
Proof. revert l. induction n as [|n IH]; intros [|e l]; cbn [reserve_candidate]; place. Qed.
#[local] Hint Resolve keeps_scan keeps_candidate : place.

(** ** Provisioning *)

(** A handler has given its lease back, or has left it to a thread that will. *)
Definition settled (res : result (Provision * proc State unit)) (h : list (string * string)) : Prop :=
  match res with Ok (_, background) => wp h background (λ _ h', h' = []) | Exn _ => h = [] end.
Lemma settled_bind {A} h (m : proc State A) f :
  keeps h m → (∀ a, wp h (f a) settled) → h = [] → wp h (m ≫= f) settled.
Proof. intros Hm Hf ->. apply wp_bind. eapply wp_mono; [|exact Hm]. by intros [a|e] h' ->. Qed.

(** Nothing is held after an exception. *)
Definition or_none {A} h (res : result A) (h' : list (string * string)) : Prop := h' = match res with Ok _ => h | Exn _ => [] end.
Lemma wait_wp q h : wp h (on_cluster (watcher_wait q)) (or_none h).
Proof.
  split; [|done]. intros s R [H1 H2]. split; [done|]. unfold zoom. cbn.
  destruct (watcher_wait q (cluster s)) as [[b|e] c] eqn:E; cbn; [by exists h|].
  exists []. split; [|done]. split; [done|]. intros [_ Hw]. specialize (Hw q (cluster s)). by rewrite E in Hw.
Qed.
Lemma wp_plift {A B} h (a : A) (f : A → proc State B) Q : wp h (f a) Q → wp h (plift (Ok a) ≫= f) Q.
Proof. done. Qed.
Lemma finish_then {A} h x o (rest : proc State A) Q :
  wp h rest Q → wp ((x, o) :: h) (_ ← finish_provision_lease faults x o; rest) Q.
Proof. intros Hr. apply wp_bind. eapply wp_mono; [|apply finish_wp]. by intros res h' [-> ->]. Qed.
Lemma run_wp r q payload id x o : lease_of redis_text id = Ok x →
  wp [(x, o)] (run_provision_add_stream faults uuid4 redis_text cfg r q payload id o)
    (λ res h, match res with Ok background => wp h background (λ _ h', h' = []) | Exn _ => h = [] end).
Proof.
  intros Hx. unfold run_provision_add_stream. rewrite Hx. apply wp_plift, wp_bind.
  eapply (wp_mono _ _ _ _ _ (or_none [(x, o)])).
  2: { destruct (WDM_WL_HEALTH_CHECK_WAIT_ENABLED cfg); [|done]. apply wp_bind. eapply wp_mono; [|apply wait_wp].
       intros [[]|e] h' ->; [done| |done]. apply finish_then, wp_bind. eapply wp_mono; [|apply keeps_delete_spec]. by intros [] h' ->. }
  intros [[]|e] h' ->; [|done]. destruct (WDM_PROVISION_ASYNC cfg).
  - apply keeps_under_lease; [place|]. eapply wp_mono; [|apply finish_wp]. by intros res h' [_ ->].
  - apply wp_bind. eapply wp_mono; [|apply keeps_under_lease; [place|]; eapply wp_mono; [|apply finish_wp]; by intros res h' [_ ->]].
    by intros [[]|e] h' ->.
Qed.

(** Choosing a pod raises nothing but what [except Exception] catches. *)
Definition usual {A} (res : result A) : Prop := match res with Ok _ => True | Exn e => is_Exception e = true end.
Lemma usual_bind {A B} (v : result A) (f : A → result B) : usual v → (∀ a, usual (f a)) → usual (v ≫= f).
Proof. destruct v as [a|e]; [intros _ Hf; apply Hf|done]. Qed.
Lemma vsub_usual v k : usual (vsub v k).
Proof. unfold vsub. destruct v; try done. by destruct (dget _ _). Qed.
Lemma entry_id_usual v : usual (entry_id sp v).
Proof. apply usual_bind; [|intros ?]; apply vsub_usual. Qed.
Lemma holds_id_usual id l : usual (holds_id sp id l).
Proof.
  induction l as [|v l IH]; [done|]. destruct v; try done. cbn [holds_id]. apply usual_bind; [|intros i; by destruct (py_eqb i id)].
  apply usual_bind; [done|]. intros w. by destruct w.
Qed.
Lemma zoom_fst {S B A} (get : S → B) (put : B → S → S) (m : stM B A) (s : S) : (zoom get put m s).1 = (m (get s)).1.
Proof. unfold zoom. by destruct (m _). Qed.
Lemma redis_wp {A} h (op : stM Store A) : mild op → (∀ st, usual (op st).1) → wp h (redis op) (λ res h', usual res ∧ h' = h).
Proof.
  intros Hm Hu. assert (∀ st, usual (match faults (requests st) with Fine => op (count_request st) | Refused => (Exn RedisError, count_request st)
      | AnswerLost => (Exn RedisError, (op (count_request st)).2) end).1) as Hu' by (intros st; destruct (faults _); done || apply Hu).
  destruct (keeps_redis h op Hm) as [Hk _]. split; [|done]. intros s R HI. destruct (Hk s R HI) as (_ & h' & HI' & ->).
  split; [done|]. exists h. split; [exact HI'|]. split; [|done]. rewrite zoom_fst. apply Hu'.
Qed.
Lemma load_wp h r : wp h (loadWorkLoadSpec faults r) (λ res h', usual res ∧ h' = h).
Proof.
  destruct (keeps_load h r) as [Hk _]. split; [|done]. intros s R HI. destruct (Hk s R HI) as (_ & h' & HI' & ->).
  split; [done|]. exists h. split; [exact HI'|]. unfold zoom. cbn. by destruct (faults _).
Qed.
Lemma candidate_wp n r payload l h : wp h (reserve_candidate faults cfg n r payload l) (λ res h', usual res ∧ h' = h).
Proof.
  revert l. induction n as [|n IH]; intros [|e l]; [done..|]. cbn [reserve_candidate]. apply wp_bind. unfold tryReserveWorkLoadSpec.
  pose proof (entry_id_usual payload) as Hu. destruct (entry_id sp payload) as [id|err] eqn:Ei; [|done]. apply wp_plift, wp_bind.
  eapply wp_mono; [|apply redis_wp].
  - intros [b|err] h' [Hb ->]; [|done]. assert (∀ b, wp h (match b with Full => reserve_candidate faults cfg n r payload
      (remove_entry (select_pod_from_candidates e l (WDM_WL_ASSIGNING_METHOD cfg)) (e :: l)) | _ => mret (Some (select_pod_from_candidates e l (WDM_WL_ASSIGNING_METHOD cfg))) end)
      (λ res h', usual res ∧ h' = h)) as Hr by (intros []; done || apply IH).
    destruct b; [|apply Hr..]. apply wp_bind. eapply wp_mono; [|apply load_wp]. by intros [u|err] h' [Hu' ->].
  - intros st. split; [|intros _ Ho; by apply orderly_reserve]. unfold reserve. by repeat case_match.
  - intros st. pose proof (holds_id_usual id (decode_wl_spec_field (dget (specs st) (podName (select_pod_from_candidates e l (WDM_WL_ASSIGNING_METHOD cfg)).1)))) as Hh.
    unfold reserve. destruct (holds_id _ _ _) as [[]|]; [done| |done]. by case_match.
Qed.
Definition placed (res : result (option (Provision * proc State unit))) (h : list (string * string)) : Prop :=
  match res with Ok (Some outcome) => settled (Ok outcome) h | _ => h = [] end.
Lemma place_wp r payload id x candidates : lease_of redis_text id = Ok x →
  wp [] (place faults uuid4 redis_text cfg r payload id x candidates) placed.
Proof.
  intros Hx. unfold place. apply wp_bind. eapply wp_mono; [|apply keeps_uuid]. intros [o|e] h ->; [|done].
  apply wp_bind. eapply wp_mono; [|apply acquire_lease_wp]. intros [[]|e] h ->; [|done..]. apply wp_bind, wp_try.
  eapply wp_mono; [|apply candidate_wp]. intros [[[q n]|]|e] h [He ->].
  - apply wp_try, wp_bind. eapply wp_mono; [|by apply run_wp]. intros [bg|e] h' Hbg; [done|]. by destruct (bool_decide _).
  - apply wp_bind. eapply wp_mono; [|apply release_lease_wp]. by intros [b|e] h' [_ ->].
  - cbn in He. rewrite He. apply wp_bind. eapply wp_mono; [|apply release_lease_wp]. by intros [b|e'] h' [_ ->].
Qed.
Lemma orphans_keeps r x id l : keeps [] (remove_orphans faults uuid4 cfg r x id l).
Proof.
  unfold remove_orphans. apply keeps_bind; [place|]. intros o. apply wp_bind. eapply wp_mono; [|apply acquire_lease_wp].
  intros [[]|e] h ->; [|done..]. apply wp_bind. eapply wp_mono; [|apply keeps_under_lease; [place|]].
  2: { apply wp_bind. eapply wp_mono; [|apply release_lease_wp]. by intros [b|e] h' [_ ->]. }
  by intros [[]|e] h ->.
Qed.

Lemma settled_done (v : Provision) : settled (Ok (v, no_thread)) [].
Proof. done. Qed.
Lemma settled_lift {A} (v : result A) f : (∀ a, v = Ok a → wp [] (f a) settled) → wp [] (plift v ≫= f) settled.
Proof. destruct v; [intros Hf; by apply Hf|done]. Qed.
Lemma settled_again (again : proc State (Provision * proc State unit)) :
  wp [] again settled →
  wp [] ('(scaled, background) ← again; mret (if bool_decide (scaled = PDeferred) then PDeferred else PTrue, background)) settled.
Proof. intros Ha. apply wp_bind. eapply wp_mono; [|exact Ha]. by intros [[v bg]|e] h Hv. Qed.
Lemma settled_placed (m : proc State (option (Provision * proc State unit))) f :
  wp [] m placed → (∀ outcome, f (Some outcome) = mret outcome) → wp [] (f None) settled → wp [] (m ≫= f) settled.
Proof. intros Hm Hs Hn. apply wp_bind. eapply wp_mono; [|exact Hm]. intros [[o|]|e] h; [by rewrite Hs|by intros ->|done]. Qed.
Ltac settle := repeat first
  [ progress intros
  | done
  | assumption
  | apply settled_again
  | apply settled_lift
  | apply settled_bind; [solve [place]| |done]
  | match goal with
    | |- Proc.wp _ _ _ _ (match ?x with _ => _ end) _ => destruct x eqn:?
    end
  | apply settled_placed; [|done|] ].
#[local] Hint Resolve orphans_keeps : place.
Lemma provision_wp fuel r payload : wp [] (provisionStreamRedis faults uuid4 redis_text cfg fuel r payload) settled.
Proof.
  revert payload. induction fuel as [|fuel IH]; intros payload; [done|]. cbn [provisionStreamRedis]. settle; try apply IH; by apply place_wp.
Qed.

Lemma keeps_heartbeat h x o late : keeps h (renew_provision_lease_until_stopped faults x o late).
Proof.
  induction late as [|late lates IH]; cbn [renew_provision_lease_until_stopped]; [done|]. apply keeps_bind.
  - apply keeps_try; [|done]. apply keeps_bind; [apply keeps_get|done].
  - assert (keeps h (atomic (S := State) (smod (λ s, set_lost (o :: lease_lost s) s)))) as Hl by by apply keeps_elsewhere.
    intros [[]|]; [done..|]. by destruct late.
Qed.
Lemma keeps_readd h r pod streams : keeps h (readdStreams faults redis_text cfg r pod streams).
Proof. unfold readdStreams, readd_stream. place. Qed.

(** ** Every interleaving *)

(** What the event bus and the pod watcher of any replica run, the heartbeat of any
    lease, and the routes that erase *)
Inductive bus_handler : proc State unit → Prop :=
  | h_provision fuel r payload : bus_handler (provision_handler faults uuid4 redis_text cfg fuel r payload)
  | h_deprovision r payload : bus_handler (deprovisionStreamRedis faults redis_text cfg r payload)
  | h_readd r pod streams : bus_handler (readdStreams faults redis_text cfg r pod streams)
  | h_renew x o late : bus_handler (renew_provision_lease_until_stopped faults x o late)
  | h_delete r pod : bus_handler (deleteWLObj faults r pod)
  | h_erase_pod r pod : bus_handler (erasePodSpecContent faults r pod)
  | h_erase r : bus_handler (eraseSpecContent faults r).
(** And the route that changes metadata *)
Inductive handler : proc State unit → Prop :=
  | h_bus p : bus_handler p → handler p
  | h_metadata r id additional cache_key overwrite :
      handler (_ ← cache_metadata_update faults cfg r id additional cache_key overwrite; mret tt).
(** What else happens: leases expire, pods and the cluster change, and all but the
    specification in Redis *)
Definition outside s s' : Prop :=
  specs (redis_store s') = specs (redis_store s) ∧
  ∀ x o, dget (leases (redis_store s')) x = Some o → dget (leases (redis_store s)) x = Some o.

Lemma bus_handler_wp p : bus_handler p → wp [] p (λ _ h, h = []).
Proof.
  intros [fuel r payload|r payload|r pod streams|x o late|r pod|r pod|r].
  - apply wp_bind. eapply wp_mono; [|apply provision_wp]. intros [[v bg]|e] h Hv; exact Hv.
  - apply keeps_deprovision.
  - apply keeps_readd.
  - apply keeps_heartbeat.
  - apply keeps_delete_obj.
  - apply keeps_erase_pod.
  - apply keeps_erase.
Qed.
(** The metadata route takes no lease, but writes what its own cache says of a pod. *)
Lemma keeps_metadata h r id additional cache_key overwrite :
  ¬ rooms → keeps h (cache_metadata_update faults cfg r id additional cache_key overwrite).
Proof.
  intros Hr. unfold cache_metadata_update, updateWorkLoadSpec, addWorkLoadSpec. place. apply keeps_redis. intros st. by split.
Qed.
Lemma handler_wp p : ¬ rooms → handler p → wp [] p (λ _ h, h = []).
Proof.
  intros Hr [q Hq|r id additional cache_key overwrite]; [by apply bus_handler_wp|].
  apply (keeps_bind _ _ _ []); [by apply keeps_metadata|done].
Qed.
Lemma environment_inv s s' R : outside s s' → Inv s R → Inv s' R.
Proof.
  intros [Es El] [H1 H2]. split; [intros Hr; eapply orderly_specs; [done|by apply H1]|]. intros Hc x o Hx. apply (H2 Hc), El, Hx.
Qed.
Lemma run_inv (procs : proc State unit → Prop) s s' ps :
  (∀ p, procs p → wp [] p (λ _ h, h = [])) →
  Inv s [] → rtc (pstep procs outside) (s, []) (s', ps) → pool_ok Inv any nobody_waits (s', ps).
Proof. intros Hp HI. apply pool_sound; [apply _|exact Hp|apply environment_inv|]. by exists []. Qed.
Lemma covered_earlier st : leases st = earlier → covered st [].
Proof. intros E x o Hx. right. rewrite <-E. by apply dget_elem. Qed.
End safe.

Section theorems.
Context {C W : Type} {CL : Cluster C} {WK : Workers W}.
Context (faults : nat → fault) (uuid4 : nat → string) (redis_text : pyval → result string) (cfg : Config).
Implicit Types (s : @State C W).

(** C35. However adds, removals, re-adds and erasures of any number of controllers
    that are up interleave, with their threads and heartbeats, whatever Redis refuses
    or fails to answer, whenever a lease expires: no pod is ever given more streams
    than the threshold, and none lists a stream twice. The route that changes metadata
    is not among them: it can give a pod a stream too many ([metadata_overfills] of
    PlacementRuns.v). *)
Theorem capacity_kept s s' ps :
  orderly cfg (redis_store s) →
  rtc (pstep (bus_handler faults uuid4 redis_text cfg) outside) (s, []) (s', ps) → orderly cfg (redis_store s').
Proof.
  intros Ho Hr. apply (run_inv faults cfg (leases (redis_store s)) True) in Hr as (hs & _ & HI & _); [by apply HI|apply bus_handler_wp|].
  split; [done|]. intros _. by apply covered_earlier.
Qed.

(** C36. When Redis answers and all handlers and threads have come to their end,
    however they ended, no lease is left but what was there before. *)
Theorem leases_given_back s s' ps :
  calm (C := C) faults → rtc (pstep (handler faults uuid4 redis_text cfg) outside) (s, []) (s', ps) → Forall is_done ps →
  ∀ x o, dget (leases (redis_store s')) x = Some o → (x, o) ∈ leases (redis_store s).
Proof.
  intros Hc Hr Hd x o Hx. apply (run_inv faults cfg (leases (redis_store s)) False) in Hr;
    [|intros p Hp; eapply handler_wp; [by intros []|exact Hp]|split; [by intros []|intros _; by apply covered_earlier]].
  eapply pool_done_held in Hr as [_ Hl]; [|done]. by destruct (Hl Hc x o Hx) as [?%elem_of_nil|?].
Qed.
End theorems.
