(* ===== verification/PlacementExact.v ===== *)
(** * Stream placement: what a handler does alone

    With Redis, the cluster and the pods answering, and no other handler running:
    a new stream goes to the pod the configured method selects, with its route, and
    nothing is left of the lease ([provision_exact]); removing it takes everything
    back ([add_then_remove]); with an assignment by use, streams added one after the
    other go round the pods ([round_robin]). *)

From Stdlib Require Import ZArith Lia.
From stdpp Require Import base list strings gmap.
From S2P Require Import Prelude PyDict PyFloat PyText PyVal Proc BusOutcomes WorkloadSpec HealthWatcher Placement PlacementSafe.
Open Scope Z_scope.

(** ** Selection *)

Lemma least_elem {A} (ltb : A → A → bool) x l : least ltb x l ∈ x :: l.
Proof.
  revert x. induction l as [|y l IH]; intros x; [by left|]. cbn [least]. destruct (ltb y x).
  - right. apply IH.
  - specialize (IH x). rewrite !elem_of_cons in *. tauto.
Qed.
Lemma least_le {A} (ltb : A → A → bool) (f : A → Z) x l :
  (∀ a b, ltb a b = true → f a ≤ f b) → (∀ a b, ltb a b = false → f b ≤ f a) → ∀ y, y ∈ x :: l → f (least ltb x l) ≤ f y.
Proof.
  intros H1 H2. revert x. induction l as [|z l IH]; intros x y Hy; [by apply list_elem_of_singleton in Hy as ->|].
  cbn [least]. destruct (ltb z x) eqn:E; (apply elem_of_cons in Hy as [->|Hy]; [|apply elem_of_cons in Hy as [->|Hy]; [|apply IH; by right]]).
  - etrans; [apply IH; by left|by apply H1].
  - apply IH; by left.
  - apply IH; by left.
  - etrans; [apply IH; by left|by apply H2].
Qed.
Definition rank (e : Entry) : Z := (pod_ordinal (podName e.1)).1.
Lemma least_rank e es : ∀ y, y ∈ e :: es → rank (least entry_ltb e es) ≤ rank y.
Proof.
  apply least_le; unfold entry_ltb, key_ltb, rank; intros a b.
  - intros [?%Z.ltb_lt|[?%Z.eqb_eq _]%andb_true_iff]%orb_true_iff; lia.
  - intros [?%Z.ltb_ge _]%orb_false_iff. lia.
Qed.

Lemma foldl_min_le m l : foldl Z.min m l ≤ m ∧ ∀ x, x ∈ l → foldl Z.min m l ≤ x.
Proof.
  revert m. induction l as [|y l IH]; intros m; cbn; [split; [lia|by intros x ?%elem_of_nil]|]. destruct (IH (Z.min m y)) as [H1 H2].
  split; [lia|]. intros x [->|Hx]%elem_of_cons; [lia|by apply H2].
Qed.
Lemma foldl_min_in m l : foldl Z.min m l ∈ m :: l.
Proof.
  revert m. induction l as [|y l IH]; intros m; cbn; [by left|]. specialize (IH (Z.min m y)). rewrite !elem_of_cons in *.
  destruct IH as [->|]; [|tauto]. destruct (Z.min_spec m y) as [[_ ->]|[_ ->]]; tauto.
Qed.
Lemma select_elem first rest how : select_pod_from_candidates first rest how ∈ first :: rest.
Proof.
  unfold select_pod_from_candidates. destruct (String.eqb how "sequential"); [by left|]. set (m := foldl Z.min _ _).
  destruct (filter _ (first :: rest)) as [|e es] eqn:E; [by left|]. assert (least entry_ltb e es ∈ filter (λ e : Entry, e.2 = m) (first :: rest)) as H.
  { rewrite E. apply least_elem. }
  by apply list_elem_of_filter in H as [_ H].
Qed.
(** With any other method than "sequential": a pod with the fewest streams, and of
    these none precedes it by the number its name ends with *)
Lemma select_least first rest how e : String.eqb how "sequential" = false → e ∈ first :: rest →
  (select_pod_from_candidates first rest how).2 ≤ e.2 ∧
  (e.2 = (select_pod_from_candidates first rest how).2 → rank (select_pod_from_candidates first rest how) ≤ rank e).
Proof.
  intros Hs He. unfold select_pod_from_candidates. rewrite Hs. cbn zeta. set (m := foldl Z.min first.2 rest.*2).
  assert (∀ e, e ∈ first :: rest → m ≤ e.2) as Hm.
  { intros e'. destruct (foldl_min_le first.2 rest.*2) as [H1 H2]. intros [->|He']%elem_of_cons; [done|]. apply H2. apply list_elem_of_fmap. eauto. }
  assert (∃ e', e' ∈ first :: rest ∧ e'.2 = m) as (e0 & He0 & Hm0).
  { pose proof (foldl_min_in first.2 rest.*2) as H. change (m ∈ (first :: rest).*2) in H. apply list_elem_of_fmap in H as (e' & -> & ?). eauto. }
  destruct (filter _ (first :: rest)) as [|y ys] eqn:E.
  { assert (e0 ∈ filter (λ e : Entry, e.2 = m) (first :: rest)) as H by by apply list_elem_of_filter. rewrite E in H. by apply elem_of_nil in H. }
  assert (∀ z, z ∈ y :: ys ↔ z.2 = m ∧ z ∈ first :: rest) as Hf by (intros z; rewrite <-E; exact (list_elem_of_filter (λ e : Entry, e.2 = m) (first :: rest) z)).
  pose proof (least_elem entry_ltb y ys) as [Hl _]%Hf. rewrite Hl. split; [by apply Hm|]. intros Hem. apply least_rank. by apply Hf.
Qed.

(** ** What a process does to a view of the state, while the rest stays good *)
Section does.
Context {St V : Type} (good : St → Prop) (view : St → V).
Definition does {A} (p : proc St A) (v : V) (res : result A) (v' : V) : Prop :=
  ∀ s, good s → view s = v → ∃ s', exec p s = (res, s') ∧ good s' ∧ view s' = v'.

Lemma does_ret {A} (res : result A) v : does (Done res) v res v.
Proof. intros s Hg Hs. by exists s. Qed.
Lemma does_bind {A B} (m : proc St A) (f : A → proc St B) a v v1 res v' :
  does m v (Ok a) v1 → does (f a) v1 res v' → does (m ≫= f) v res v'.
Proof. intros Hm Hf s Hg Hs. destruct (Hm s Hg Hs) as (s1 & E & Hg1 & Hs1). rewrite exec_bind, E. by apply Hf. Qed.
Lemma does_ret_in {A} a (p : proc St A) v : p = mret a → does p v (Ok a) v.
Proof. intros ->. apply does_ret. Qed.
Lemma does_ret_eq {A} (p : proc St A) v res res' v' : res = res' → does p v res' v' → does p v res v'.
Proof. by intros ->. Qed.
Lemma does_lift {A B} (w : result A) (f : A → proc St B) a v res v' :
  w = Ok a → does (f a) v res v' → does (plift w ≫= f) v res v'.
Proof. by intros ->. Qed.
Lemma does_try {A} catches (m : proc St A) handler a v v' : does m v (Ok a) v' → does (ptry catches m handler) v (Ok a) v'.
Proof. intros Hm s Hg Hs. destruct (Hm s Hg Hs) as (s1 & E & Hg1 & Hs1). rewrite exec_try, E. eauto. Qed.
Lemma does_finally {A} (m : proc St A) cleanup a v v1 v' :
  does m v (Ok a) v1 → does cleanup v1 (Ok tt) v' → does (pfinally m cleanup) v (Ok a) v'.
Proof.
  intros Hm Hc s Hg Hs. destruct (Hm s Hg Hs) as (s1 & E & Hg1 & Hs1). destruct (Hc s1 Hg1 Hs1) as (s2 & E2 & Hg2 & Hs2).
  rewrite exec_finally, E, E2. eauto.
Qed.
Lemma does_op {A} (op : stM St A) v res v' :
  (∀ s, good s → view s = v → (op s).1 = res ∧ good (op s).2 ∧ view (op s).2 = v') → does (atomic op) v res v'.
Proof. intros Hop s Hg Hs. destruct (Hop s Hg Hs) as [<- [? <-]]. exists (op s).2. unfold atomic. by rewrite exec_act, <-surjective_pairing. Qed.
End does.

Section alone.
Context {C W : Type} {CL : Cluster C} {WK : Workers W}.
Context (faults : nat → fault) (uuid4 : nat → string) (redis_text : pyval → result string) (cfg : Config).
Context (answers : ∀ n, faults n = Fine) (encodes : ∀ x, redis_text (VStr x) = Ok x).
Abbreviation State := (@State C W).
Abbreviation sp := (spec cfg).

(** The pods of the cluster: which are down, and that those a stream is sent to are
    found healthy *)
Context (replicas : Z) (pods : list Pod) (down : Pod → bool) (well : C → Prop).
Context (replicas_some : replicas ≠ 0).
Context (well_ok : ∀ c, well c → getStatefulSets c = Ok (Some replicas) ∧ getPods c = Ok (Some pods) ∧
  ∀ q, q ∈ pods → ifPodDown (podName q) c = Ok (down q) ∧ ∃ c', watcher_wait q c = (Ok true, c') ∧ well c').
Definition good (s : State) : Prop := well (cluster s) ∧ lease_lost s = [].

(** All of Redis but what is cached and counted, and the pods *)
Definition plain (st : Store) : Store :=
  mk_Store (specs st) (leases st) (routes st) (hosts st) (allocations st) (published st) ∅ 0 0.
Definition view (s : State) : Store * W := (plain (redis_store s), workers s).
Abbreviation does := (does good view).
Definition on_store (f : Store → Store) (v : Store * W) : Store * W := (f v.1, v.2).
Implicit Types (s : State) (v : Store * W) (st : Store) (r : nat) (x o : string) (q : Pod).

(** A step in Redis computes from what the view shows. *)
Lemma does_redis {A} (op : stM Store A) v f (res : result A) :
  (∀ st, plain st = v.1 → (op st).1 = res ∧ plain (op st).2 = f v.1) → does (redis faults op) v res (on_store f v).
Proof.
  intros Hop. apply does_op. intros s Hg <-. specialize (Hop (count_request (redis_store s)) eq_refl). unfold zoom. cbn. rewrite answers.
  destruct (op _) as [a st']. destruct Hop as [H1 H2]. split; [exact H1|]. split; [exact Hg|]. unfold view, on_store. cbn in *. by rewrite H2.
Qed.
Lemma does_get {A} (f : Store → A) v : (∀ st, f st = f (plain st)) → does (redis_get faults f) v (Ok (f v.1)) v.
Proof.
  intros Hf. destruct v as [st0 w]. apply (does_redis (λ st, (Ok (f st), st)) (st0, w) (λ st, st)). intros st. cbn. intros <-. by rewrite <-Hf.
Qed.
Lemma does_loaded r v : does (loadWorkLoadSpec faults r) v (Ok tt) v.
Proof. apply does_op. intros s Hg <-. rewrite zoom_fst. unfold zoom. cbn. by rewrite answers. Qed.
Lemma does_ask {A} (f : C → result A) a v : (∀ c, well c → f c = Ok a) → does (ask f) v (Ok a) v.
Proof. intros Hf. apply does_op. intros s Hg Hs. split; [apply Hf, Hg|done]. Qed.

(** *** The workload specification *)
#[local] Arguments decode_wl_spec_field : simpl never.

Lemma exec_loaded r s :
  ∃ s', exec (loadWorkLoadSpec faults r) s = (Ok tt, s') ∧ (good s → good s') ∧ view s' = view s ∧
        caches (redis_store s') !! r = Some (specs (view s).1).
Proof.
  unfold loadWorkLoadSpec, local, atomic. rewrite exec_act. unfold zoom. cbn [store state_store]. rewrite answers.
  eexists. split; [done|]. split; [done|]. split; [done|]. apply lookup_insert_eq.
Qed.
Lemma exec_wl_spec r s : exec (wl_spec r) s = (Ok (caches (redis_store s) !! r), s).
Proof. unfold wl_spec, local, atomic. rewrite exec_act. by destruct s. Qed.

Lemma does_by_id r id l v : specs_by_id sp id (specs v.1) = Ok l →
  does (getworkLoadSpecById faults sp r id) v (Ok (match l with [] => None | _ => Some l end)) v.
Proof.
  intros Hl s Hg <-. unfold getworkLoadSpecById. destruct (exec_loaded r s) as (s' & E & Hg' & Hs & Hc).
  rewrite exec_bind, E, exec_bind, exec_wl_spec, Hc, exec_lift, Hl. exists s'. split; [by destruct l|auto].
Qed.
Lemma does_info {A} r id w (f : option (string * pyval) → proc State A) v res v' :
  find_stream sp id ((λ y : string * field, (y.1, decode_wl_spec_field (Some y.2))) <$> specs v.1) = Ok w → does (f w) v res v' →
  does (getCacheInfoForStreamId faults sp r id ≫= f) v res v'.
Proof.
  intros Hw Hf. eapply does_bind; [|exact Hf]. intros s Hg <-. unfold getCacheInfoForStreamId, getAllStreams.
  destruct (exec_loaded r s) as (s' & E & Hg' & Hs & Hc). rewrite !exec_bind, E, exec_bind, exec_wl_spec, Hc.
  exists s'. cbn [exec mret proc_ret]. unfold plift. cbn in Hw |- *. rewrite Hw. auto.
Qed.
Lemma exec_spec r pod id s : is_ok (filter_id sp true id (streams_of (redis_store s) pod)) = true →
  ∃ w s', exec (getworkLoadSpec faults sp r pod id) s = (Ok w, s') ∧ (good s → good s') ∧ view s' = view s ∧
          caches (redis_store s') !! r = Some (specs (view s).1).
Proof.
  intros Hl. unfold getworkLoadSpec. destruct (exec_loaded r s) as (s' & E & Hg & Hs & Hc). rewrite exec_bind, E, exec_bind, exec_wl_spec, Hc.
  unfold streams_of in Hl. cbn [view fst redis_store plain specs]. destruct (dget _ pod) as [raw|]; [|by exists None, s'].
  rewrite exec_lift. destruct (filter_id _ _ _ _) as [l|]; [by exists (Some l), s'|done].
Qed.
Lemma does_spec {A} r pod id (f : option (list pyval) → proc State A) v res v' :
  is_ok (filter_id sp true id (streams_of v.1 pod)) = true → (∀ w, does (f w) v res v') → does (getworkLoadSpec faults sp r pod id ≫= f) v res v'.
Proof.
  intros Hl Hf s Hg <-. destruct (exec_spec r pod id s Hl) as (w & s' & E & Hg' & Hs & _). rewrite exec_bind, E. by apply Hf; [apply Hg'|].
Qed.
Lemma does_count {A} r pod id (f : Z → proc State A) v res v' :
  is_ok (filter_id sp true id (streams_of v.1 pod)) = true →
  does (f (Z.of_nat (length (streams_of v.1 pod)))) v res v' →
  does (_ ← getworkLoadSpec faults sp r pod id; n ← getSpecCount r pod; f n) v res v'.
Proof.
  intros Hl Hf s Hg <-. destruct (exec_spec r pod id s Hl) as (w & s' & E & Hg' & Hs & Hc). destruct (Hf s' (Hg' Hg) Hs) as (s2 & E2 & Hs2).
  exists s2. split; [|done]. rewrite exec_bind, E, exec_bind. unfold getSpecCount. rewrite exec_bind, exec_wl_spec, Hc.
  unfold dmem, streams_of in *. cbn in E2 |- *. by destruct (dget _ pod).
Qed.
Definition without pod (l : list pyval) st : Store :=
  match dget (specs st) pod with Some _ => set_specs (dset (specs st) pod (Some (VList l))) st | None => st end.
Definition with_stream pod payload st : Store := set_specs (dset (specs st) pod (Some (VList (streams_of st pod ++ [payload])))) st.
Lemma does_delete_spec r pod id l v : filter_id sp false id (streams_of v.1 pod) = Ok l →
  does (deleteFromWorkLoadSpec faults sp r pod id) v (Ok tt) (on_store (without pod l) v).
Proof.
  intros Hl. unfold deleteFromWorkLoadSpec. apply does_try. destruct v as [st0 w]. cbn [fst] in Hl.
  apply (does_bind _ _ _ _ (match dget (specs st0) pod with Some _ => true | None => false end) _ (on_store (without pod l) (st0, w))).
  - apply does_redis. cbn [fst]. intros st <-. unfold without, streams_of in *. cbn in *.
    destruct (dget (specs st) pod) as [raw|]; [by rewrite Hl|done].
  - destruct (dget _ pod); [apply does_loaded|apply does_ret].
Qed.
Lemma does_reserve {A} r pod payload x (f : reservation → proc State A) v res v' :
  entry_id sp payload = Ok (VStr x) → holds_id sp (VStr x) (streams_of v.1 pod) = Ok false →
  Z.of_nat (length (streams_of v.1 pod)) < WDM_WL_THRESHOLD cfg →
  does (f Reserved) (on_store (with_stream pod payload) v) res v' →
  does (tryReserveWorkLoadSpec faults sp r pod payload (WDM_WL_THRESHOLD cfg) ≫= f) v res v'.
Proof.
  intros Hid Hh Hlt Hf. eapply does_bind; [|exact Hf]. unfold tryReserveWorkLoadSpec. eapply does_lift; [exact Hid|].
  eapply (does_bind _ _ _ _ Reserved); [|eapply does_bind; [apply does_loaded|apply does_ret]].
  apply does_redis. intros st E. rewrite <-E in *. unfold reserve, with_stream, streams_of in *. cbn in *.
  rewrite Hh. destruct (Z.leb_spec (WDM_WL_THRESHOLD cfg) (Z.of_nat (length (decode_wl_spec_field (dget (specs st) pod))))); [lia|done].
Qed.

(** *** Leases, messages and routes *)
Lemma does_uuid {A} (f : string → proc State A) v res v' : (∀ o, does (f o) v res v') → does (uuid uuid4 ≫= f) v res v'.
Proof. intros Hf s Hg <-. rewrite exec_bind. unfold uuid, local, atomic. rewrite exec_act. by apply Hf. Qed.
Definition leased x o st : Store := set_leases (dset (leases st) x o) st.
Definition unleased x st : Store := set_leases (ddel (leases st) x) st.
Lemma does_acquire x o v : dget (leases v.1) x = None → does (tryAcquireProvisionLease faults x o) v (Ok true) (on_store (leased x o) v).
Proof. intros Hx. apply does_redis. intros st E. rewrite <-E in *. unfold dmem. cbn in *. by rewrite Hx. Qed.
Lemma does_release x o v : dget (leases v.1) x = Some o → does (releaseProvisionLease faults x o) v (Ok true) (on_store (unleased x) v).
Proof. intros Hx. apply does_redis. intros st E. rewrite <-E in *. cbn in *. by rewrite bool_decide_true. Qed.
Lemma does_finish x o v : dget (leases v.1) x = Some o → does (finish_provision_lease faults x o) v (Ok tt) (on_store (unleased x) v).
Proof. intros Hx. apply does_try. eapply does_bind; [by apply does_release|apply does_ret]. Qed.
Definition publishing m st : Store := set_published (published st ++ [m]) st.
Lemma does_publish m v : does (publishMessage faults m) v (Ok tt) (on_store (publishing m) v).
Proof. apply does_redis. by intros st <-. Qed.
Lemma does_mapping x v : does (getIdPodMapping faults redis_text (VStr x)) v (Ok (dget (routes v.1) x)) v.
Proof. eapply does_lift; [apply encodes|]. by apply (does_get (λ st, dget (routes st) x)). Qed.
(** What the host of a pod is recorded as *)
Definition recorded_host q : option string := if docker cfg then Some (route_host q) else poddns q.
Lemma does_add_route x q host v : recorded_host q = Some host →
  does (addRouteMapping faults redis_text cfg (VStr x) q) v (Ok tt) (on_store (add_route x q host) v).
Proof.
  intros Hh. unfold addRouteMapping, recorded_host in *. eapply does_lift; [apply encodes|]. destruct (docker cfg).
  - injection Hh as <-. eapply does_bind.
    + apply (does_redis _ _ (λ st, set_routes (dset (routes st) x (podName q)) (hosts st) st)). by intros st <-.
    + apply (does_redis _ (on_store (λ st, set_routes (dset (routes st) x (podName q)) (hosts st) st) v)
        (λ st, set_routes (routes st) (dset (hosts st) (podName q) (route_host q)) st)). by intros st <-.
  - rewrite Hh. eapply does_lift; [done|]. apply does_redis. by intros st <-.
Qed.
Definition unrouted x st : Store := set_routes (ddel (routes st) x) (hosts st) st.
Lemma does_delete_route x v : does (deleteRouteMapping faults redis_text (VStr x)) v (Ok tt) (on_store (unrouted x) v).
Proof. eapply does_lift; [apply encodes|]. apply does_redis. by intros st <-. Qed.

(** *** The pods *)
Lemma does_send {A} method target data resp w' (f : Response → proc State A) v res v' :
  send method target data v.2 = (Ok resp, w') → does (f resp) (v.1, w') res v' → does (on_workers (send method target data) ≫= f) v res v'.
Proof.
  intros Hsd Hf. eapply does_bind; [|exact Hf]. apply does_op. intros s Hg <-. unfold zoom. cbn in *. by rewrite Hsd.
Qed.
Lemma does_wait q v : q ∈ pods → does (on_cluster (watcher_wait q)) v (Ok true) v.
Proof.
  intros Hq. apply does_op. intros s [Hw Hl] <-. destruct (well_ok _ Hw) as (_ & _ & H). destruct (H q Hq) as (_ & c' & E & Hw').
  unfold zoom. rewrite E. done.
Qed.
Lemma does_lost o v : does (is_lost o) v (Ok false) v.
Proof. apply does_op. intros s [Hw Hl] Hs. cbn. rewrite Hl. by rewrite bool_decide_false; [|apply not_elem_of_nil]. Qed.
Lemma does_request n method target data resp w' v last :
  send method target data v.2 = (Ok resp, w') → status_code resp = 200 →
  does (request_until_ok n method target data last) v (Ok (Some resp)) (v.1, w').
Proof.
  intros Hsd H2. destruct n; cbn [request_until_ok]; (eapply (does_bind _ _ _ _ (Some resp)); [apply does_try; eapply does_send; [done|apply does_ret]|]);
    cbn iota; rewrite H2; apply does_ret.
Qed.
(** ** Stored streams *)

Definition has_id (e : pyval) : Prop := ∃ y, entry_id sp e = Ok (VStr y).
Definition stored (m : dict string field) : Prop := dict_wf m ∧ ∀ pod raw, (pod, raw) ∈ m → Forall has_id (decode_wl_spec_field (Some raw)).
Definition unknown x st : Prop := ∀ pod, occurrences cfg x (streams_of st pod) = 0%nat.

Lemma is_entry_id y x e : entry_id sp e = Ok (VStr y) → is_entry cfg x e = String.eqb y x.
Proof. unfold is_entry. by intros ->. Qed.
Lemma has_id_dict e : has_id e → ∃ d, e = VDict d.
Proof. intros [y Hy]. unfold entry_id, vsub in Hy. destruct e; eauto; done. Qed.
Lemma filter_id_exact keep x l : Forall has_id l → filter_id sp keep (VStr x) l = Ok (filter (λ e, is_entry cfg x e = keep) l).
Proof.
  induction 1 as [|e l [y Hy] _ IH]; [done|]. rewrite filter_cons. cbn [filter_id]. rewrite Hy. cbn [mbind result_bind]. rewrite IH.
  cbn [mbind result_bind py_eqb]. destruct (decide (is_entry cfg x e = keep)) as [E|E]; rewrite (is_entry_id y x e Hy) in E.
  - by rewrite E, eqb_reflx.
  - destruct (Bool.eqb _ keep) eqn:E'; [by apply eqb_prop in E'|done].
Qed.
Lemma holds_id_zero x l : Forall has_id l → occurrences cfg x l = 0%nat → holds_id sp (VStr x) l = Ok false.
Proof.
  induction 1 as [|e l He _ IH]; [done|]. unfold occurrences. rewrite filter_cons. destruct (has_id_dict e He) as [d ->]. destruct He as [y Hy].
  intros H0. cbn [holds_id]. rewrite (soft_entry_id cfg _ d eq_refl y) by (rewrite (is_entry_id y y _ Hy); apply String.eqb_refl). cbn.
  rewrite (is_entry_id y x _ Hy) in H0. destruct (String.eqb y x); [done|]. by apply IH.
Qed.
Lemma stored_streams m st pod : specs st = m → stored m → Forall has_id (streams_of st pod).
Proof. intros E [_ H]. unfold streams_of. rewrite E. destruct (dget m pod) as [raw|] eqn:Ep; [|constructor]. by apply (H pod), dget_elem. Qed.
Lemma stored_dset m pod l : stored m → Forall has_id l → stored (dset m pod (Some (VList l))).
Proof. intros [H1 H2] Hl. split; [by apply dict_wf_dset|]. intros p raw [[-> ->]|Hp]%dset_elem_1; [done|by apply (H2 p)]. Qed.
Lemma find_stream_ok id m : stored m → ∃ w, find_stream sp id ((λ y : string * field, (y.1, decode_wl_spec_field (Some y.2))) <$> m) = Ok w.
Proof.
  intros [_ H]. induction m as [|[pod raw] m IH]; [by eexists|]. cbn [fmap list_fmap find_stream fst snd].
  assert (∀ l, Forall has_id l → ∃ w, first_with_id sp id l = Ok w) as Hf.
  { induction 1 as [|e l [y Hy] _ [w IH']]; [by eexists|]. cbn [first_with_id]. rewrite Hy. cbn [mbind result_bind]. rewrite IH'. destruct (py_eqb (VStr y) id); by eexists. }
  destruct (Hf (decode_wl_spec_field (Some raw))) as [w Ew]; [apply (H pod); by left|]. rewrite Ew. destruct w; [by eexists|].
  cbn. apply IH. intros p r Hr. apply (H p). by right.
Qed.
Lemma specs_by_id_unknown x st : stored (specs st) → unknown x st → specs_by_id sp (VStr x) (specs st) = Ok [].
Proof.
  intros [Hwf H] Hx. assert (∀ pod raw, (pod, raw) ∈ specs st → occurrences cfg x (decode_wl_spec_field (Some raw)) = 0%nat) as H0.
  { intros pod raw Hp%elem_dget; [|done]. specialize (Hx pod). unfold streams_of in Hx. by rewrite Hp in Hx. }
  clear Hx Hwf. induction (specs st) as [|[pod raw] m IH]; [done|]. cbn [specs_by_id].
  assert (∀ l, Forall has_id l → occurrences cfg x l = 0%nat → entries_by_id sp (VStr x) pod l = Ok []) as He.
  { induction 1 as [|e l He _ IH']; [done|]. destruct (has_id_dict e He) as [d ->]. destruct He as [y Hy]. unfold occurrences. rewrite filter_cons.
    rewrite (is_entry_id y x _ Hy). intros Hl. cbn [entries_by_id]. rewrite Hy. cbn. destruct (String.eqb y x); [done|]. by rewrite IH'. }
  rewrite He; [|apply (H pod); by left|apply (H0 pod); by left]. cbn. rewrite IH; [done|..]; intros p r Hr; [apply (H p)|apply (H0 p)]; by right.
Qed.
(** ** Adding *)

(** Messages are forwarded whole and unchanged; streams go to any pod. *)
Definition simple : Prop :=
  event_message cfg = true ∧ WDM_ENABLE_REGEX_MAPPING cfg = false ∧ map_add_field cfg = None ∧ remap_event_object cfg = None ∧
  webhook cfg = None ∧ String.eqb (WDM_WL_ADD_URL cfg) "" = false ∧ String.eqb (WDM_WL_DELETE_URL cfg) "" = false.
Context (is_simple : simple).
(** A message that is not turned away, and the id of its stream *)
Definition admitted payload x : Prop :=
  entry_id sp payload = Ok (VStr x) ∧ name_ignored cfg payload = Ok false ∧ incomplete cfg payload = Ok false.
Implicit Types (payload : pyval) (host : string).

Lemma event_dict payload i : entry_id sp payload = Ok i →
  ∃ d e, payload = VDict d ∧ dget d (even_obj sp) = Some (VDict e) ∧ dget e (id_field sp) = Some i.
Proof.
  unfold entry_id, vsub. destruct payload as [| | | | | |d]; try done. destruct (dget d _) as [ev|] eqn:Ed; [|done]. cbn.
  destruct ev as [| | | | | |e]; try done. destruct (dget e _) as [i'|] eqn:Ee; [|done]. cbn. intros [= ->]. eauto.
Qed.
Lemma event_set_ok payload i key value : entry_id sp payload = Ok i → ∃ p, event_set cfg payload key value = Ok p.
Proof.
  intros (d & e & -> & Hd & He)%event_dict. unfold event_set, event_of, vset. cbn. rewrite Hd. by eexists.
Qed.

Definition event_of_stream info x q := AgentMsg info (VStr x) (podName q).
Lemma does_publish_event r payload x q info v : entry_id sp payload = Ok (VStr x) → stored (specs v.1) →
  does (publish_event faults cfg r payload q info) v (Ok tt) (on_store (publishing (event_of_stream info x q)) v).
Proof.
  intros Hid Hst. unfold publish_event. eapply does_lift; [exact Hid|]. destruct (find_stream_ok (VStr x) _ Hst) as [w Hw].
  eapply does_info; [exact Hw|]. apply does_publish.
Qed.
Lemma does_add r payload x q resp w' v :
  entry_id sp payload = Ok (VStr x) → stored (specs v.1) → q ∈ pods →
  send "POST" (url q (WDM_WL_ADD_URL cfg)) payload v.2 = (Ok resp, w') → status_code resp = 200 →
  does (pc_add faults cfg r q payload) v (Ok (Some resp, payload)) (publishing (event_of_stream "Add event" x q) v.1, w').
Proof.
  intros Hid Hst Hq Hsd H2. destruct is_simple as (_ & _ & Hm & Hr & _ & Hu & _). unfold pc_add.
  eapply does_lift; [unfold map_add; by rewrite Hm|]. eapply does_lift; [unfold remap_event; by rewrite Hr|].
  destruct (event_dict _ _ Hid) as (d & e & Ep & Hd & He). assert (∃ i, logged_id cfg payload = Ok i) as [i Hi].
  { unfold logged_id. rewrite Hr, Ep. cbn. rewrite Hd. by eexists. }
  eapply does_lift; [exact Hi|]. rewrite Hu. eapply (does_bind _ _ _ _ tt _ v).
  { destruct (WDM_WL_HEALTH_CHECK_WAIT_ENABLED cfg); [|apply does_ret]. eapply does_bind; [by apply does_wait|apply does_ret]. }
  eapply does_bind; [by apply does_request|]. eapply does_bind; [by apply does_publish_event|]. apply does_ret.
Qed.
Definition added x q host st : Store := add_route x q host (publishing (event_of_stream "Add event" x q) st).
Lemma does_add_to_pod r payload x q o resp w' host v :
  entry_id sp payload = Ok (VStr x) → stored (specs v.1) → q ∈ pods → recorded_host q = Some host →
  send "POST" (url q (WDM_WL_ADD_URL cfg)) payload v.2 = (Ok resp, w') → status_code resp = 200 →
  does (provision_add_stream_to_pod faults uuid4 redis_text cfg r q payload (VStr x) o) v (Ok tt) (added x q host v.1, w').
Proof.
  intros Hid Hst Hq Hh Hsd H2. pose proof is_simple as (Hev & _ & _ & _ & Hwh & _). unfold provision_add_stream_to_pod, config_data, with_config_data.
  rewrite Hev, Hwh. eapply does_bind; [apply does_lost|]. eapply does_lift; [done|]. cbn iota.
  eapply does_bind; [apply does_try; by eapply does_add|]. cbn iota. eapply does_bind; [apply does_lost|]. eapply does_lift; [done|].
  destruct (event_set_ok payload _ "response" (response_body (Some resp)) Hid) as [p Hp]. eapply does_lift; [exact Hp|]. eapply does_lift; [done|].
  unfold accepted. rewrite H2, andb_false_r. cbn iota. eapply does_bind; [apply does_lost|]. cbn iota.
  eapply does_bind; [by apply does_add_route|]. apply does_ret.
Qed.
Lemma does_run r payload x q o resp w' host v :
  entry_id sp payload = Ok (VStr x) → stored (specs v.1) → q ∈ pods → recorded_host q = Some host →
  send "POST" (url q (WDM_WL_ADD_URL cfg)) payload v.2 = (Ok resp, w') → status_code resp = 200 → dget (leases v.1) x = Some o →
  ∃ background v1, does (run_provision_add_stream faults uuid4 redis_text cfg r q payload (VStr x) o) v (Ok background) v1 ∧
    does background v1 (Ok tt) (unleased x (added x q host v.1), w').
Proof.
  intros Hid Hst Hq Hh Hsd H2 Hl. unfold run_provision_add_stream, lease_of. rewrite encodes.
  assert (∀ A (m : proc State A) res v', does m v res v' →
    does (_ ← (if WDM_WL_HEALTH_CHECK_WAIT_ENABLED cfg then
      healthy ← on_cluster (watcher_wait q);
      if (healthy : bool) then mret tt
      else _ ← finish_provision_lease faults x o; _ ← deleteFromWorkLoadSpec faults sp r (podName q) (VStr x); praise WorkloadUnhealthyError
      else mret tt); m) v res v') as Hw.
  { intros A m res v' Hm. eapply does_bind; [|exact Hm]. destruct (WDM_WL_HEALTH_CHECK_WAIT_ENABLED cfg); [|apply does_ret].
    eapply does_bind; [by apply does_wait|apply does_ret]. }
  assert (∀ handler, does (pfinally (ptry is_Exception (provision_add_stream_to_pod faults uuid4 redis_text cfg r q payload (VStr x) o) handler)
    (finish_provision_lease faults x o)) v (Ok tt) (unleased x (added x q host v.1), w')) as Hadd.
  { intros handler. eapply does_finally; [by apply does_try; eapply does_add_to_pod|]. by apply (does_finish x o (added x q host v.1, w')). }
  destruct (WDM_PROVISION_ASYNC cfg); do 2 eexists.
  - split; [eapply does_lift; [done|]; apply Hw, does_ret|apply Hadd].
  - split; [eapply does_lift; [done|]; apply Hw; eapply does_bind; [apply Hadd|apply does_ret]|apply does_ret].
Qed.
(** ** The scan *)
Definition count st q : Z := Z.of_nat (length (streams_of st (podName q))).
(** The pods with room among those that are, or are not, down *)
Definition roomy st (is_down : bool) (l : list Pod) : list Entry :=
  (λ q, (q, count st q)) <$> filter (λ q, count st q < WDM_WL_THRESHOLD cfg ∧ down q = is_down) l.
Definition candidates st : list Entry := match roomy st false pods with [] => roomy st true pods | l => l end.
Lemma roomy_cons st b q l : roomy st b (q :: l) =
  if decide (count st q < WDM_WL_THRESHOLD cfg ∧ down q = b) then (q, count st q) :: roomy st b l else roomy st b l.
Proof. unfold roomy. rewrite filter_cons. by case_decide. Qed.
Lemma candidates_elem st e : e ∈ candidates st → e.1 ∈ pods ∧ e.2 = count st e.1 ∧ count st e.1 < WDM_WL_THRESHOLD cfg.
Proof.
  assert (∀ b, e ∈ roomy st b pods → e.1 ∈ pods ∧ e.2 = count st e.1 ∧ count st e.1 < WDM_WL_THRESHOLD cfg) as H.
  { intros b (q & -> & [[H1 _] H2]%list_elem_of_filter)%list_elem_of_fmap. done. }
  unfold candidates. pose proof (H false) as Hf. destruct (roomy st false pods); [apply H|exact Hf].
Qed.
Definition scanned st acc q : Scan :=
  let acc := mk_Scan (any_pod_down acc || down q) (eligible_pods acc) (unhealthy_capacity_pods acc) in
  if WDM_WL_THRESHOLD cfg <=? count st q then acc
  else if down q then mk_Scan (any_pod_down acc) (eligible_pods acc) (unhealthy_capacity_pods acc ++ [(q, count st q)])
  else mk_Scan (any_pod_down acc) (eligible_pods acc ++ [(q, count st q)]) (unhealthy_capacity_pods acc).
Lemma does_scan r payload x l acc v : stored (specs v.1) → l ⊆ pods →
  does (scan_pods faults cfg r payload (VStr x) None acc l) v
    (Ok (mk_Scan (any_pod_down acc || existsb down l) (eligible_pods acc ++ roomy v.1 false l) (unhealthy_capacity_pods acc ++ roomy v.1 true l))) v.
Proof.
  intros Hst. revert acc. induction l as [|q l IH]; intros acc Hl; cbn [scan_pods existsb].
  { unfold roomy. rewrite orb_false_r, !app_nil_r. destruct acc. apply does_ret. }
  eapply does_bind.
  - unfold scan_pod, regex_match. eapply (does_bind _ _ _ _ (down q)).
    { apply does_ask. intros c Hc. destruct (well_ok c Hc) as (_ & _ & H). apply (H q), Hl. by left. }
    cbn iota. eapply does_bind; [apply does_ret|]. cbn iota. apply does_count.
    + rewrite filter_id_exact; [done|]. by eapply stored_streams.
    + apply (does_ret_in _ _ (scanned v.1 acc q)). unfold scanned, count. by destruct (_ <=? _), (down q).
  - eapply does_ret_eq; [|apply IH; set_solver]. unfold scanned. rewrite !roomy_cons.
    destruct (Z.leb_spec (WDM_WL_THRESHOLD cfg) (count v.1 q)); [rewrite !decide_False by lia; cbn; by rewrite orb_assoc|].
    destruct (down q) eqn:E; cbn; [rewrite decide_False by naive_solver; rewrite decide_True by done|
      rewrite decide_True by done; rewrite decide_False by naive_solver]; by rewrite <-app_assoc, ?orb_true_r, ?orb_false_r.
Qed.
(** ** Provisioning *)

(** What a process leaves to a thread is done after it. *)
Definition leaves {A} (m : proc State A) (thread : A → proc State unit) v (ok : A → Prop) v' : Prop :=
  ∀ s, good s → view s = v → ∃ a s1 s', exec m s = (Ok a, s1) ∧ ok a ∧ exec (thread a) s1 = (Ok tt, s') ∧ good s' ∧ view s' = v'.
Lemma leaves_bind {A B} (m : proc State A) (f : A → proc State B) thread a v v1 ok v' :
  does m v (Ok a) v1 → leaves (f a) thread v1 ok v' → leaves (m ≫= f) thread v ok v'.
Proof. intros Hm Hf s Hg Hs. destruct (Hm s Hg Hs) as (s1 & E & Hg1 & Hs1). rewrite exec_bind, E. by apply Hf. Qed.
Lemma leaves_lift {A B} (w : result A) (f : A → proc State B) thread a v ok v' :
  w = Ok a → leaves (f a) thread v ok v' → leaves (plift w ≫= f) thread v ok v'.
Proof. by intros ->. Qed.
Lemma leaves_uuid {A} (f : string → proc State A) thread v ok v' :
  (∀ o, leaves (f o) thread v ok v') → leaves (uuid uuid4 ≫= f) thread v ok v'.
Proof. intros Hf s Hg <-. rewrite exec_bind. unfold uuid, local, atomic. rewrite exec_act. by apply Hf. Qed.
Lemma leaves_then {A B} (m : proc State A) (f : A → proc State B) thread thread' v (ok ok' : _ → Prop) v' :
  leaves m thread v ok v' → (∀ a, ok a → ∃ b, f a = mret b ∧ thread' b = thread a ∧ ok' b) → leaves (m ≫= f) thread' v ok' v'.
Proof.
  intros Hm Hf s Hg Hs. destruct (Hm s Hg Hs) as (a & s1 & s' & E & Ha & Eb & ? & ?). destruct (Hf a Ha) as (b & Ef & Et & Hok).
  exists b, s1, s'. rewrite exec_bind, E, Ef, Et. done.
Qed.
Lemma leaves_try {A} catches (m : proc State A) handler thread v ok v' :
  leaves m thread v ok v' → leaves (ptry catches m handler) thread v ok v'.
Proof. intros Hm s Hg Hs. destruct (Hm s Hg Hs) as (a & s1 & s' & E & ?). exists a, s1, s'. by rewrite exec_try, E. Qed.

(** The stream on a pod, with its route *)
Definition on_pod payload x q host st : Store := added x q host (with_stream (podName q) payload st).
Lemma lease_undone payload x q host o st : dget (leases st) x = None →
  unleased x (added x q host (with_stream (podName q) payload (leased x o st))) = on_pod payload x q host st.
Proof.
  intros Hx. unfold unleased, on_pod, added, add_route, publishing, with_stream, leased, streams_of.
  destruct st as [sp0 l0 ro ho al pu ca nr nd]. cbn [leases set_leases specs set_specs set_routes set_published routes hosts published] in *.
  by rewrite ddel_dset.
Qed.
Lemma stored_with st pod payload x : stored (specs st) → entry_id sp payload = Ok (VStr x) → stored (specs (with_stream pod payload st)).
Proof.
  intros Hst Hid. apply stored_dset; [done|]. apply Forall_app. split; [by eapply stored_streams|]. repeat constructor. by exists x.
Qed.
Definition thread_of (placed : option (Provision * proc State unit)) : proc State unit :=
  match placed with Some (_, background) => background | None => no_thread end.
Lemma leaves_place r payload x first rest q resp w' host v :
  entry_id sp payload = Ok (VStr x) → stored (specs v.1) → unknown x v.1 → dget (leases v.1) x = None →
  candidates v.1 = first :: rest → (select_pod_from_candidates first rest (WDM_WL_ASSIGNING_METHOD cfg)).1 = q → recorded_host q = Some host →
  send "POST" (url q (WDM_WL_ADD_URL cfg)) payload v.2 = (Ok resp, w') → status_code resp = 200 →
  leaves (place faults uuid4 redis_text cfg r payload (VStr x) x (first :: rest)) thread_of v (λ a, ∃ background, a = Some (PTrue, background))
    (on_pod payload x q host v.1, w').
Proof.
  intros Hid Hst Hx Hl Hc Hsel Hh Hsd H2. unfold place. apply leaves_uuid. intros o.
  eapply leaves_bind; [by apply does_acquire|]. cbn [negb]. cbn iota. set (e := select_pod_from_candidates first rest _) in *.
  assert (e ∈ candidates v.1) as He by (rewrite Hc; apply select_elem). apply candidates_elem in He as (Hq & _ & Hroom). rewrite Hsel in Hq, Hroom.
  apply (leaves_bind _ _ _ (Some e) _ (on_store (with_stream (podName q) payload) (on_store (leased x o) v))).
  { apply does_try. cbn [length reserve_candidate]. fold e. rewrite Hsel. eapply does_reserve; [exact Hid| |exact Hroom|apply does_ret].
    apply holds_id_zero; [by eapply (stored_streams (specs v.1))|apply Hx]. }
  destruct e as [q' n]. cbn in Hsel. subst q'. cbn iota. apply leaves_try.
  destruct (does_run r payload x q o resp w' host (on_store (with_stream (podName q) payload) (on_store (leased x o) v))) as (bg & v1 & Hrun & Hbg); try done.
  { by eapply stored_with. }
  { cbn. apply dget_dset_eq. }
  eapply leaves_bind; [exact Hrun|]. intros s Hg Hs. destruct (Hbg s Hg Hs) as (s' & E & Hg' & Hs'). exists (Some (PTrue, bg)), s, s'.
  split; [done|]. split; [by eexists|]. split; [done|]. split; [done|]. rewrite Hs'. cbn [on_store fst]. by rewrite lease_undone.
Qed.
Lemma leaves_provision fuel r payload x first rest q resp w' host v :
  admitted payload x → stored (specs v.1) → unknown x v.1 → dget (leases v.1) x = None →
  candidates v.1 = first :: rest → (select_pod_from_candidates first rest (WDM_WL_ASSIGNING_METHOD cfg)).1 = q → recorded_host q = Some host →
  send "POST" (url q (WDM_WL_ADD_URL cfg)) payload v.2 = (Ok resp, w') → status_code resp = 200 →
  leaves (provisionStreamRedis faults uuid4 redis_text cfg (S fuel) r payload) snd v (λ a, a.1 = PTrue) (on_pod payload x q host v.1, w').
Proof.
  intros (Hid & Hig & Hin) Hst Hx Hl Hc Hsel Hh Hsd H2. pose proof is_simple as (Hev & Hre & _). cbn [provisionStreamRedis].
  assert (does (getworkLoadSpecById faults sp r (VStr x)) v (Ok None) v) as Hnone by by apply (does_by_id _ _ []), specs_by_id_unknown.
  eapply leaves_lift; [exact Hid|]. eapply leaves_lift; [apply encodes|]. eapply leaves_bind; [apply does_mapping|]. eapply leaves_bind; [exact Hnone|].
  destruct (dget (routes v.1) x); cbn iota; (eapply (leaves_bind _ _ _ true); [apply does_ret|]); cbn [negb]; cbn iota;
    (eapply leaves_lift; [exact Hig|]); (eapply leaves_lift; [exact Hin|]); cbn iota.
  all: apply (leaves_bind _ _ _ (true, payload) _ v);
    [eapply does_lift; [exact Hid|]; eapply (does_bind _ _ _ _ None); [eapply does_bind; [exact Hnone|apply does_ret]|apply does_ret]|].
  all: cbn iota; eapply leaves_bind; [apply does_ret|]; rewrite Hre; eapply leaves_bind; [apply does_ret|].
  all: eapply leaves_bind; [apply does_ask; intros c Hw; apply (well_ok c Hw)|]; cbn iota.
  all: assert (∃ n, replicas = Z.pos n ∨ replicas = Z.neg n) as (n & [En|En]) by (pose proof replicas_some as Hnz; clear -Hnz; destruct replicas; eauto; done); rewrite En.
  all: eapply leaves_bind; [apply does_ask; intros c Hw; apply (well_ok c Hw)|]; cbn iota; (eapply leaves_bind; [by apply does_scan|]).
  all: cbn [eligible_pods unhealthy_capacity_pods app]; fold (candidates v.1); rewrite Hc; eapply leaves_then;
    [by eapply leaves_place|intros a [bg ->]; by eexists].
Qed.
(** ** Removing *)
Definition delete_method : string := if String.eqb (DELETE_API_METHOD cfg) "DELETE" then "DELETE" else "POST".
Definition removed payload x q st : Store :=
  unrouted x (without (podName q) (filter (λ e, is_entry cfg x e = false) (streams_of st (podName q))) (publishing (event_of_stream "Delete event" x q) st)).
Lemma does_delete r payload x q resp w' v :
  entry_id sp payload = Ok (VStr x) → stored (specs v.1) →
  send delete_method (url q (WDM_WL_DELETE_URL cfg)) payload v.2 = (Ok resp, w') → status_code resp = 200 →
  does (pc_delete faults cfg r q payload) v (Ok (Some resp)) (publishing (event_of_stream "Delete event" x q) v.1, w').
Proof.
  intros Hid Hst Hsd H2. destruct is_simple as (_ & _ & _ & _ & _ & _ & Hu). unfold pc_delete. rewrite Hu. fold delete_method.
  eapply does_bind; [by apply does_request|]. eapply does_bind; [by apply does_publish_event|]. apply does_ret.
Qed.
Lemma does_deprovision_pod r payload x q resp w' v :
  entry_id sp payload = Ok (VStr x) → stored (specs v.1) → dget (routes v.1) x = Some (podName q) →
  send delete_method (url q (WDM_WL_DELETE_URL cfg)) payload v.2 = (Ok resp, w') → status_code resp = 200 →
  does (deprovision_pod faults redis_text cfg r payload (VStr x) q) v (Ok tt) (removed payload x q v.1, w').
Proof.
  intros Hid Hst Hro Hsd H2. pose proof is_simple as (Hev & _). unfold deprovision_pod. eapply does_bind; [apply does_mapping|].
  rewrite bool_decide_true by done. cbn iota. assert (Forall has_id (streams_of v.1 (podName q))) as Hf by by eapply (stored_streams (specs v.1)).
  apply does_spec; [by rewrite filter_id_exact|]. intros wl. eapply does_lift; [exact Hid|]. eapply does_lift; [unfold config_data; by rewrite Hev|].
  eapply does_bind; [by eapply does_delete|]. unfold accepted. rewrite H2, andb_false_r. cbn iota.
  assert (does (_ ← deleteFromWorkLoadSpec faults sp r (podName q) (VStr x); deleteRouteMapping faults redis_text (VStr x))
    (publishing (event_of_stream "Delete event" x q) v.1, w') (Ok tt) (removed payload x q v.1, w')) as Hd.
  { eapply does_bind; [apply does_delete_spec; by apply (filter_id_exact false)|]. apply does_delete_route. }
  destruct wl; exact Hd.
Qed.
Lemma does_elsewhere r payload x q v : dget (routes v.1) x ≠ Some (podName q) →
  does (deprovision_pod faults redis_text cfg r payload (VStr x) q) v (Ok tt) v.
Proof. intros Hne. eapply does_bind; [apply does_mapping|]. rewrite bool_decide_false by done. apply does_ret. Qed.
Lemma does_all_elsewhere r payload x l v : (∀ q, q ∈ l → dget (routes v.1) x ≠ Some (podName q)) →
  does (pfor l (deprovision_pod faults redis_text cfg r payload (VStr x))) v (Ok tt) v.
Proof.
  induction l as [|q l IH]; intros Hl; cbn [pfor]; [apply does_ret|]. eapply does_bind; [apply does_elsewhere, Hl; by left|].
  apply IH. intros q' Hq. apply Hl. by right.
Qed.
Lemma removed_route payload x q st : dget (routes (removed payload x q st)) x = None.
Proof. unfold removed, unrouted. cbn [routes set_routes]. apply dget_ddel_eq. Qed.
Lemma does_remove_from r payload x q resp w' l v :
  NoDup (podName <$> l) → q ∈ l →
  entry_id sp payload = Ok (VStr x) → stored (specs v.1) → dget (routes v.1) x = Some (podName q) →
  send delete_method (url q (WDM_WL_DELETE_URL cfg)) payload v.2 = (Ok resp, w') → status_code resp = 200 →
  does (pfor l (deprovision_pod faults redis_text cfg r payload (VStr x))) v (Ok tt) (removed payload x q v.1, w').
Proof.
  intros Hnd Hq Hid Hst Hro Hsd H2. induction l as [|q' l IH]; [by apply elem_of_nil in Hq|]. cbn [pfor].
  apply NoDup_cons in Hnd as [Hn Hnd]. destruct (decide (podName q' = podName q)) as [E|E].
  - assert (q' = q) as ->. { apply elem_of_cons in Hq as [->|Hq]; [done|]. destruct Hn. rewrite E. by apply list_elem_of_fmap_2. }
    eapply does_bind; [by eapply does_deprovision_pod|]. apply does_all_elsewhere. intros q' _. cbn [fst]. by rewrite removed_route.
  - eapply does_bind; [apply does_elsewhere; rewrite Hro; intros [= E']; by destruct E|]. apply IH; [done|]. by apply elem_of_cons in Hq as [->|?].
Qed.
Lemma does_deprovision r payload x q resp w' v :
  NoDup (podName <$> pods) → q ∈ pods →
  entry_id sp payload = Ok (VStr x) → stored (specs v.1) → dget (routes v.1) x = Some (podName q) →
  send delete_method (url q (WDM_WL_DELETE_URL cfg)) payload v.2 = (Ok resp, w') → status_code resp = 200 →
  does (deprovisionStreamRedis faults redis_text cfg r payload) v (Ok tt) (removed payload x q v.1, w').
Proof.
  intros Hnd Hq Hid Hst Hro Hsd H2. unfold deprovisionStreamRedis. eapply does_bind; [apply does_ask; intros c Hw; apply (well_ok c Hw)|].
  assert (∃ n, replicas = Z.pos n ∨ replicas = Z.neg n) as (n & [En|En]) by (pose proof replicas_some as Hnz; clear -Hnz; destruct replicas; eauto; done); rewrite En.
  all: eapply does_bind; [apply does_ask; intros c Hw; apply (well_ok c Hw)|]; cbn iota; eapply does_lift; [exact Hid|].
  all: by eapply does_remove_from.
Qed.

(** What adding a stream and removing it leaves *)
Lemma on_pod_route payload x q host st : dget (routes (on_pod payload x q host st)) x = Some (podName q).
Proof. apply dget_dset_eq. Qed.
Lemma streams_with st pod pod' payload :
  streams_of (with_stream pod payload st) pod' = if decide (pod = pod') then streams_of st pod ++ [payload] else streams_of st pod'.
Proof. unfold streams_of, with_stream. cbn [specs set_specs]. rewrite dget_dset. by case_decide. Qed.
Lemma streams_without st pod pod' l :
  streams_of (without pod l st) pod' = if decide (pod = pod' ∧ is_Some (dget (specs st) pod)) then l else streams_of st pod'.
Proof.
  unfold streams_of, without. destruct (dget (specs st) pod) eqn:E; cbn [specs set_specs].
  - rewrite dget_dset. case_decide; [rewrite decide_True by naive_solver; done|]. by rewrite decide_False by naive_solver.
  - by rewrite decide_False by (intros [_ [? ?]]; done).
Qed.
Lemma without_other pod l st : routes (without pod l st) = routes st ∧ leases (without pod l st) = leases st.
Proof. unfold without. by destruct (dget _ _). Qed.
Lemma filter_unknown x l : occurrences cfg x l = 0%nat → filter (λ e, is_entry cfg x e = false) l = l.
Proof.
  unfold occurrences. intros H. apply list_filter_all. intros e He. destruct (is_entry cfg x e) eqn:E; [|done].
  assert (e ∈ filter (λ e, is_entry cfg x e = true) l) as Hin by by apply list_elem_of_filter.
  destruct (filter _ l); [by apply elem_of_nil in Hin|done].
Qed.
Lemma removed_on_pod payload x q host st pod : entry_id sp payload = Ok (VStr x) → unknown x st →
  streams_of (removed payload x q (on_pod payload x q host st)) pod = streams_of st pod.
Proof.
  intros Hid Hx. unfold removed. set (st' := publishing _ _).
  change (streams_of (unrouted x ?a) pod) with (streams_of a pod). rewrite streams_without.
  assert (∀ p, streams_of st' p = streams_of (with_stream (podName q) payload st) p) as E by done.
  change (streams_of (on_pod payload x q host st) (podName q)) with (streams_of st' (podName q)). rewrite !E, !streams_with. rewrite (decide_True (P := podName q = podName q)) by done.
  rewrite filter_app, filter_unknown by apply Hx. rewrite filter_cons, filter_nil. rewrite (is_entry_id x x payload Hid), String.eqb_refl.
  rewrite (decide_False (P := true = false)) by done. rewrite app_nil_r.
  assert (is_Some (dget (specs st') (podName q))) as Hs by (unfold st'; eexists; apply dget_dset_eq).
  destruct (decide (podName q = pod)) as [<-|Hne]; [by rewrite decide_True|]. by rewrite decide_False by naive_solver.
Qed.
(** ** Turns *)

(** Every [k]-th element, from the [i]-th on *)
Definition every {A} (k i : nat) (l : list A) : list A :=
  (imap pair l) ≫= λ '(j, a), if decide (j `mod` k = i)%nat then [a] else [].
Lemma every_snoc {A} k i (l : list A) a : every k i (l ++ [a]) = every k i l ++ (if decide (length l `mod` k = i)%nat then [a] else []).
Proof. unfold every. rewrite imap_app, bind_app. cbn. by rewrite app_nil_r, Nat.add_0_r. Qed.
Lemma every_length {A} k i (l : list A) : (i < k)%nat →
  length (every k i l) = (length l / k + if decide (i < length l mod k) then 1 else 0)%nat.
Proof.
  intros Hi. induction l as [|a l IH] using rev_ind.
  { cbn. rewrite Nat.Div0.div_0_l, Nat.Div0.mod_0_l. by rewrite decide_False by lia. }
  rewrite every_snoc, !length_app, IH. cbn [length]. pose proof (Nat.div_mod_eq (length l) k) as E1. pose proof (Nat.mod_upper_bound (length l) k ltac:(lia)) as Hm.
  destruct (decide (S (length l mod k) = k)) as [Ek|Ek].
  - assert ((length l + 1) / k = S (length l / k) ∧ (length l + 1) mod k = 0)%nat as [-> ->].
    { split; [symmetry; apply (Nat.div_unique _ _ _ 0); lia|symmetry; apply (Nat.mod_unique _ _ (S (length l / k))); lia]. }
    repeat case_decide; cbn; lia.
  - assert ((length l + 1) / k = length l / k ∧ (length l + 1) mod k = S (length l mod k))%nat as [-> ->].
    { split; [symmetry; apply (Nat.div_unique _ _ _ (S (length l mod k))); lia|symmetry; apply (Nat.mod_unique _ _ (length l / k)); lia]. }
    repeat case_decide; cbn; lia.
Qed.
Section turns.
Context (k : nat) (pod : nat → Pod) (fuel : nat).
Context (k_pos : (0 < k)%nat) (pods_are : pods ≡ₚ pod <$> seq 0 k) (all_up : ∀ q, down q = false).
Context (numbered : ∀ i, (i < k)%nat → ordinal (podName (pod i)) = Some (Z.of_nat i)).
Context (hosted : ∀ q, q ∈ pods → is_Some (recorded_host q)) (by_use : String.eqb (WDM_WL_ASSIGNING_METHOD cfg) "sequential" = false).
Context (accepting : ∀ target data w, ∃ resp w', send "POST" target data w = (Ok resp, w') ∧ status_code resp = 200).

(** Streams added one after the other, each by some replica *)
Fixpoint add_all (jobs : list (nat * pyval)) s : State :=
  match jobs with
  | [] => s
  | (r, payload) :: jobs' => add_all jobs' (exec (provision_handler faults uuid4 redis_text cfg (S fuel) r payload) s).2
  end.
Lemma add_all_snoc jobs r payload s :
  add_all (jobs ++ [(r, payload)]) s = (exec (provision_handler faults uuid4 redis_text cfg (S fuel) r payload) (add_all jobs s)).2.
Proof. revert s. induction jobs as [|[r' p'] jobs IH]; intros s; cbn; [done|apply IH]. Qed.

Lemma pod_elem q : q ∈ pods ↔ ∃ i, (i < k)%nat ∧ q = pod i.
Proof. rewrite pods_are, list_elem_of_fmap. setoid_rewrite elem_of_seq. split; intros (i & H1 & H2); exists i; split; (done || lia). Qed.
Lemma pod_rank i n : (i < k)%nat → rank (pod i, n) = Z.of_nat i.
Proof. intros Hi. unfold rank, pod_ordinal. cbn. by rewrite numbered. Qed.
Lemma pod_name_inj i j : (i < k)%nat → (j < k)%nat → podName (pod i) = podName (pod j) → i = j.
Proof. intros Hi Hj E. apply numbered in Hi, Hj. rewrite E in Hi. rewrite Hi in Hj. injection Hj. lia. Qed.
Lemma candidate_iff st e : (∃ q, q ∈ pods ∧ count st q < WDM_WL_THRESHOLD cfg) →
  e ∈ candidates st ↔ ∃ i, (i < k)%nat ∧ e = (pod i, count st (pod i)) ∧ count st (pod i) < WDM_WL_THRESHOLD cfg.
Proof.
  intros (q0 & Hq0 & Hc0). assert (∀ e, e ∈ roomy st false pods ↔ ∃ i, (i < k)%nat ∧ e = (pod i, count st (pod i)) ∧ count st (pod i) < WDM_WL_THRESHOLD cfg) as H.
  { intros e'. unfold roomy. rewrite list_elem_of_fmap. setoid_rewrite list_elem_of_filter. setoid_rewrite pod_elem. split.
    - intros (q & -> & [Hlt _] & i & Hi & ->). eauto.
    - intros (i & Hi & -> & Hlt). exists (pod i). rewrite all_up. eauto 6. }
  unfold candidates. pose proof (H e) as He. destruct (roomy st false pods) eqn:E; [|exact He].
  apply pod_elem in Hq0 as (i & Hi & ->). destruct (H (pod i, count st (pod i))) as [_ H2]. exfalso. eapply not_elem_of_nil, H2. eauto.
Qed.
(** With [n] streams placed in turn, the next pod is number [n mod k]. *)
Lemma next_turn st n first rest :
  (∀ i, (i < k)%nat → count st (pod i) = Z.of_nat (n / k + if decide (i < n mod k)%nat then 1 else 0)) → Z.of_nat (n / k) < WDM_WL_THRESHOLD cfg →
  candidates st = first :: rest → (select_pod_from_candidates first rest (WDM_WL_ASSIGNING_METHOD cfg)).1 = pod (n mod k).
Proof.
  intros Hn Hroom Hc. pose proof (Nat.mod_upper_bound n k ltac:(lia)) as Hm. set (m := (n mod k)%nat) in *.
  assert (count st (pod m) = Z.of_nat (n / k)) as Hcm by (rewrite Hn, decide_False by lia; lia).
  assert (∃ q, q ∈ pods ∧ count st q < WDM_WL_THRESHOLD cfg) as Hex by (exists (pod m); rewrite pod_elem; split; [eauto|lia]).
  assert ((pod m, count st (pod m)) ∈ first :: rest) as Hin by (rewrite <-Hc; apply candidate_iff; [done|]; exists m; split_and!; [done|done|lia]).
  pose proof (select_elem first rest (WDM_WL_ASSIGNING_METHOD cfg)) as Hs. destruct (select_least _ _ _ _ by_use Hin) as [Hmin Hfirst].
  set (e := select_pod_from_candidates _ _ _) in *. rewrite <-Hc in Hs. apply candidate_iff in Hs as (i & Hi & -> & _); [|done]. cbn [fst snd] in *.
  f_equal. rewrite !pod_rank in Hfirst by done. rewrite (Hn i Hi) in *. rewrite Hcm in *. case_decide as Him; [lia|]. rewrite Nat.add_0_r in *.
  specialize (Hfirst eq_refl). lia.
Qed.
(** After some jobs: each pod has every [k]-th of their streams, which are routed
    there. *)
Definition in_turn (jobs : list (nat * pyval)) (xs : list string) (st0 st : Store) : Prop :=
  stored (specs st) ∧ leases st = leases st0 ∧
  (∀ i, (i < k)%nat → streams_of st (podName (pod i)) = every k i jobs.*2) ∧
  (∀ name, (∀ i, (i < k)%nat → name ≠ podName (pod i)) → streams_of st name = []) ∧
  (∀ j x, xs !! j = Some x → dget (routes st) x = Some (podName (pod (j mod k)))).
Definition empty_store st : Prop := specs st = [] ∧ leases st = [].

Lemma every_elem {A} n i (l : list A) a : a ∈ every n i l → a ∈ l.
Proof.
  induction l as [|b l IH] using rev_ind; [done|]. rewrite every_snoc, elem_of_app. intros [H|H]; apply elem_of_app; [left; auto|right].
  case_decide; [done|by apply elem_of_nil in H].
Qed.
Lemma in_turn_unknown jobs xs x st0 st : in_turn jobs xs st0 st → Forall2 (λ job x, admitted job.2 x) jobs xs → x ∉ xs → unknown x st.
Proof.
  intros (_ & _ & Hs & Hn & _) Hj Hx name. assert (∀ e, e ∈ streams_of st name → e ∈ jobs.*2) as Hin.
  { intros e He. destruct (decide (Exists (λ i, name = podName (pod i)) (seq 0 k))) as [(i & Hi & ->)%Exists_exists|Hno].
    - apply elem_of_seq in Hi. rewrite Hs in He by lia. by eapply every_elem.
    - rewrite Hn in He; [by apply elem_of_nil in He|]. intros i Hi E. apply Hno, Exists_exists. exists i. by rewrite elem_of_seq; split; [lia|]. }
  unfold occurrences. destruct (filter _ (streams_of st name)) as [|e l] eqn:E; [done|].
  assert (e ∈ filter (λ e, is_entry cfg x e = true) (streams_of st name)) as He by (rewrite E; by left).
  apply list_elem_of_filter in He as [Hx' He%Hin]. apply list_elem_of_fmap in He as (job & -> & Hjob). apply list_elem_of_lookup in Hjob as [j Hj'].
  destruct (Forall2_lookup_l _ _ _ _ _ Hj Hj') as (y & Hy & Hid & _). rewrite (is_entry_id y x _ Hid) in Hx'. apply String.eqb_eq in Hx' as ->.
  destruct Hx. by eapply list_elem_of_lookup_2.
Qed.
Lemma in_turn_step jobs xs r payload x st0 s :
  good s → in_turn jobs xs st0 (view s).1 → Forall2 (λ job x, admitted job.2 x) jobs xs → admitted payload x → x ∉ xs → leases st0 = [] →
  Z.of_nat (length jobs) < Z.of_nat k * WDM_WL_THRESHOLD cfg →
  good (exec (provision_handler faults uuid4 redis_text cfg (S fuel) r payload) s).2 ∧
  in_turn (jobs ++ [(r, payload)]) (xs ++ [x]) st0 (view (exec (provision_handler faults uuid4 redis_text cfg (S fuel) r payload) s).2).1.
Proof.
  intros Hg Ht Hj Ha Hx Hl0 Hroom. pose proof (in_turn_unknown _ _ x _ _ Ht Hj Hx) as Hunk. destruct Ht as (Hst & Hl & Hs & Hn & Hr).
  set (n := length jobs) in *. set (st := (view s).1) in *. pose proof (Nat.mod_upper_bound n k ltac:(lia)) as Hm.
  assert (∀ i, (i < k)%nat → count st (pod i) = Z.of_nat (n / k + if decide (i < n mod k)%nat then 1 else 0)) as Hcount.
  { intros i Hi. unfold count. rewrite Hs, every_length, length_fmap by done. done. }
  assert (Z.of_nat (n / k) < WDM_WL_THRESHOLD cfg) as Hlt by (pose proof (Nat.div_mod_eq n k); nia).
  destruct (candidates st) as [|first rest] eqn:Hc.
  { assert ((pod (n mod k), count st (pod (n mod k))) ∈ candidates st) as H; [|by rewrite Hc in H; apply elem_of_nil in H].
    assert (count st (pod (n mod k)) < WDM_WL_THRESHOLD cfg) by (rewrite Hcount, decide_False by lia; lia).
    apply candidate_iff; [|eauto]. exists (pod (n mod k)). split; [apply pod_elem; eauto|done]. }
  pose proof (next_turn st n first rest Hcount Hlt Hc) as Hsel. set (q := pod (n mod k)) in *.
  assert (q ∈ pods) as Hq by (apply pod_elem; eauto). destruct (hosted q Hq) as [host Hh].
  assert (dget (leases st) x = None) as Hlx by by rewrite Hl, Hl0.
  destruct (accepting (url q (WDM_WL_ADD_URL cfg)) payload (view s).2) as (resp & w' & Hsd & H2).
  destruct (leaves_provision fuel r payload x first rest q resp w' host (view s) Ha Hst Hunk Hlx Hc Hsel Hh Hsd H2 s Hg eq_refl)
    as ([out bg] & s1 & s' & E1 & _ & E2 & Hg' & Hv). unfold provision_handler. rewrite exec_bind, E1. cbn [snd] in E2. rewrite E2. cbn [snd]. rewrite Hv. cbn [fst].
  split; [done|]. fold st. destruct Ha as [Hid _]. split_and!.
  - by eapply (stored_with st).
  - done.
  - intros i Hi. change (streams_of (on_pod payload x q host st) ?p) with (streams_of (with_stream (podName q) payload st) p).
    rewrite streams_with, fmap_app. cbn [fmap list_fmap snd]. rewrite every_snoc, length_fmap, !Hs by done. fold n. destruct (decide (podName q = _)) as [E|E].
    + apply pod_name_inj in E as <-; [|done..]. rewrite decide_True by done. f_equal. by apply Hs.
    + rewrite decide_False by (intros <-; by apply E). by rewrite app_nil_r.
  - intros name Hname. change (streams_of (on_pod payload x q host st) ?p) with (streams_of (with_stream (podName q) payload st) p).
    rewrite streams_with, decide_False by (intros <-; by apply (Hname _ Hm)). by apply Hn.
  - intros j y Hy. change (routes (on_pod payload x q host st)) with (dset (routes st) x (podName q)). rewrite dget_dset.
    assert (length xs = n) as Hlen by (symmetry; by eapply Forall2_length). apply lookup_app_Some in Hy as [Hy|[Hj' Hy]].
    + rewrite decide_False; [by apply Hr|]. intros ->. by apply Hx; eapply list_elem_of_lookup_2.
    + apply list_lookup_singleton_Some in Hy as [Hy ->]. rewrite decide_True by done. by replace j with n by lia.
Qed.
Lemma turns jobs xs s :
  good s → empty_store (redis_store s) → Forall2 (λ job x, admitted job.2 x) jobs xs → NoDup xs → Z.of_nat (length jobs) ≤ Z.of_nat k * WDM_WL_THRESHOLD cfg →
  good (add_all jobs s) ∧ in_turn jobs xs (redis_store s) (view (add_all jobs s)).1.
Proof.
  intros Hg [Hs Hl]. revert xs. induction jobs as [|[r payload] jobs IH] using rev_ind; intros xs Hj Hnd Hroom.
  { apply Forall2_nil_inv_l in Hj as ->. split; [done|]. unfold in_turn, streams_of. cbn. rewrite Hs, Hl. split_and!; try done. split; [apply dict_wf_nil|].
    by intros pod' raw ?%elem_of_nil. }
  apply Forall2_app_inv_l in Hj as (xs1 & xs2 & Hj & Hj2 & ->). apply Forall2_cons_inv_l in Hj2 as (x & xs3 & Ha & Hj3 & ->). apply Forall2_nil_inv_l in Hj3 as ->.
  apply NoDup_app in Hnd as (Hnd & Hx & _). rewrite length_app in Hroom. cbn [length] in Hroom. destruct (IH xs1 Hj Hnd ltac:(lia)) as [Hg1 Ht].
  rewrite add_all_snoc. apply in_turn_step; try done; [|lia]. intros Hin. destruct (Hx x Hin). by left.
Qed.

(** C37. With another assignment method than "sequential", the default, and messages
    forwarded as they are, streams are added one after the other, each by whatever
    replica, to pods that are all up, empty at the start and accept every addition:
    the [j]-th of them is routed to pod [j mod k], in whatever order the cluster
    lists its pods, and every pod has its share, in order. *)
Theorem round_robin jobs xs s :
  good s → empty_store (redis_store s) → Forall2 (λ job x, admitted job.2 x) jobs xs → NoDup xs →
  Z.of_nat (length jobs) ≤ Z.of_nat k * WDM_WL_THRESHOLD cfg →
  let st := redis_store (add_all jobs s) in
  (∀ j x, xs !! j = Some x → dget (routes st) x = Some (podName (pod (j mod k)))) ∧
  (∀ i, (i < k)%nat → streams_of st (podName (pod i)) = every k i jobs.*2) ∧ leases st = [].
Proof.
  intros Hg He Hj Hnd Hroom. destruct (turns jobs xs s Hg He Hj Hnd Hroom) as [_ (_ & Hl & Hs & _ & Hr)].
  split_and!; [exact Hr|exact Hs|]. rewrite <-(proj2 He). exact Hl.
Qed.
End turns.

(** C38. A new stream, alone: it is sent to the pod the configured method selects among
    those with room, reserved there, routed there and announced, nothing else in
    Redis changes, and its lease is given back. *)
Theorem provision_exact fuel r payload x first rest q resp w' host s :
  good s → admitted payload x → stored (specs (redis_store s)) → unknown x (redis_store s) → dget (leases (redis_store s)) x = None →
  candidates (redis_store s) = first :: rest → (select_pod_from_candidates first rest (WDM_WL_ASSIGNING_METHOD cfg)).1 = q →
  recorded_host q = Some host → send "POST" (url q (WDM_WL_ADD_URL cfg)) payload (workers s) = (Ok resp, w') → status_code resp = 200 →
  ∃ thread s1 s', exec (provisionStreamRedis faults uuid4 redis_text cfg (S fuel) r payload) s = (Ok (PTrue, thread), s1) ∧
    exec thread s1 = (Ok tt, s') ∧ workers s' = w' ∧ plain (redis_store s') = on_pod payload x q host (plain (redis_store s)).
Proof.
  intros Hg Ha Hst Hx Hl Hc Hsel Hh Hsd H2.
  destruct (leaves_provision fuel r payload x first rest q resp w' host (view s) Ha Hst Hx Hl Hc Hsel Hh Hsd H2 s Hg eq_refl)
    as ([out thread] & s1 & s' & E1 & Hout & E2 & _ & Hv). cbn in Hout. subst out. exists thread, s1, s'.
  split_and!; [done|done|exact (f_equal snd Hv)|exact (f_equal fst Hv)].
Qed.

(** C39. Adding a stream and removing it: every pod has the streams it had, and routes
    and leases are what they were. *)
Theorem add_then_remove fuel r r' payload x first rest q resp resp' w1 w2 host s :
  NoDup (podName <$> pods) →
  good s → admitted payload x → stored (specs (redis_store s)) → unknown x (redis_store s) →
  dget (leases (redis_store s)) x = None → dget (routes (redis_store s)) x = None →
  candidates (redis_store s) = first :: rest → (select_pod_from_candidates first rest (WDM_WL_ASSIGNING_METHOD cfg)).1 = q →
  recorded_host q = Some host →
  send "POST" (url q (WDM_WL_ADD_URL cfg)) payload (workers s) = (Ok resp, w1) → status_code resp = 200 →
  send delete_method (url q (WDM_WL_DELETE_URL cfg)) payload w1 = (Ok resp', w2) → status_code resp' = 200 →
  ∃ s', exec (_ ← provision_handler faults uuid4 redis_text cfg (S fuel) r payload; deprovisionStreamRedis faults redis_text cfg r' payload) s = (Ok tt, s') ∧
    (∀ name, streams_of (redis_store s') name = streams_of (redis_store s) name) ∧
    routes (redis_store s') = routes (redis_store s) ∧ leases (redis_store s') = leases (redis_store s) ∧ workers s' = w2.
Proof.
  intros Hnd Hg Ha Hst Hx Hl Hr Hc Hsel Hh Hsd H2 Hsd' H2'. assert (q ∈ pods) as Hq.
  { rewrite <-Hsel. apply (candidates_elem (redis_store s)). rewrite Hc. apply select_elem. }
  destruct (leaves_provision fuel r payload x first rest q resp w1 host (view s) Ha Hst Hx Hl Hc Hsel Hh Hsd H2 s Hg eq_refl)
    as ([out thread] & s1 & s2 & E1 & _ & E2 & Hg2 & Hv2). destruct Ha as [Hid _].
  destruct (does_deprovision r' payload x q resp' w2 (view s2)) with (s := s2) as (s3 & E3 & _ & Hv3); try done.
  { rewrite Hv2. by eapply (stored_with (view s).1). }
  { rewrite Hv2. apply on_pod_route. }
  { by rewrite Hv2. }
  exists s3. unfold provision_handler. rewrite !exec_bind, E1. cbn [snd] in E2. rewrite E2, E3. rewrite Hv2 in Hv3. split; [done|]. split_and!.
  - intros name. change (streams_of (redis_store s3) name) with (streams_of (view s3).1 name). rewrite Hv3. exact (removed_on_pod payload x q host (view s).1 name Hid Hx).
  - change (routes (redis_store s3)) with (routes (view s3).1). rewrite Hv3. unfold removed, unrouted. cbn [fst routes set_routes].
    destruct (without_other (podName q) (filter (λ e, is_entry cfg x e = false) (streams_of (on_pod payload x q host (view s).1) (podName q)))
      (publishing (event_of_stream "Delete event" x q) (on_pod payload x q host (view s).1))) as [-> _]. exact (ddel_dset (routes (redis_store s)) x (podName q) Hr).
  - change (leases (redis_store s3)) with (leases (view s3).1). rewrite Hv3. exact (proj2 (without_other _ _ _)).
  - change (workers s3) with (view s3).2. by rewrite Hv3.
Qed.
End alone.
