(* ===== verification/Docker.v ===== *)
(** * Workload pods under docker

    [lib/podprovisioner/kubernetes/dockerclient.py]: the pods of the cluster
    configuration, their state as the health watcher or else docker reports it, as
    the interface the placement of streams uses ([Cluster]).

    What docker reports of a container is part of the state, changed by the
    environment; [None] when it reports none. A section of the client is one action
    of the placement, the wait for a pod to be healthy among them. *)

From Stdlib Require Import ZArith Lia Strings.String Strings.Ascii.
From stdpp Require Import base list strings relations.
From S2P Require Import Prelude PyDict PyText Proc HealthWatcher WorkloadSpec Placement.
Open Scope Z_scope.

(** An entry of [docker_cluster_config.json], whose values are strings *)
Record ConfigEntry := mk_ConfigEntry { process_type : option string; address : option string }.
Record Docker := mk_Docker {
  cluster_config_data : dict string ConfigEntry;
  max_replicas : Z;
  ready_replicas : Z;
  health_watcher : option Watcher;
  downpodsArray : list string;
  containers : string → option string;
  waits : nat;
}.
Definition set_watcher (w : option Watcher) (s : Docker) : Docker :=
  mk_Docker (cluster_config_data s) (max_replicas s) (ready_replicas s) w (downpodsArray s) (containers s) (waits s).
Definition set_downs (l : list string) (s : Docker) : Docker :=
  mk_Docker (cluster_config_data s) (max_replicas s) (ready_replicas s) (health_watcher s) l (containers s) (waits s).
Definition count_wait (s : Docker) : Docker :=
  mk_Docker (cluster_config_data s) (max_replicas s) (ready_replicas s) (health_watcher s) (downpodsArray s) (containers s) (S (waits s)).

(** ** The inventory *)

(** [st.capitalize()], for ASCII *)
Definition capitalize (s : string) : string :=
  match s with
  | EmptyString => ""
  | String c s' => String (if (97 <=? byte_of c) && (byte_of c <=? 122) then ascii_of_nat (Z.to_nat (byte_of c - 32)) else c) (py_lower s')
  end.
Definition phase_from_docker_container (s : Docker) (container_name : string) : string :=
  match containers s container_name with
  | None => "Unknown"
  | Some status =>
      let st := py_lower status in
      if String.eqb st "running" then "Running"
      else if existsb (String.eqb st) ["exited"; "restarting"; "created"; "removing"] then "Pending"
      else if String.eqb st "paused" then "Unknown"
      else if String.eqb st "dead" then "Failed"
      else if String.eqb st "" then "Unknown" else capitalize st
  end.

(** [i.spec.hostname], [i.status.pod_ip] and [i.metadata.name], the first that is not blank *)
Definition docker_service_address (hostname pod_ip name : string) : option string :=
  head (filter (.≠ "") (py_strip <$> [hostname; pod_ip; name])).
(** An entry of the configuration, by way of [getWorkloadObjects] and [getPodIps];
    its own address is not empty here *)
Definition configured_pod (name : string) (value : ConfigEntry) : result Pod :=
  a ← require (address value) KeyError;
  base ← require (py_split ":" a !! 0%nat) IndexError;
  port ← require (py_split ":" a !! 1%nat) IndexError;
  _ ← require (process_type value) KeyError;
  Ok (mk_Pod name base (Some port) (docker_service_address base base name) (Some a)).
Fixpoint configured_pods (entries : dict string ConfigEntry) : result (list Pod) :=
  match entries with
  | [] => Ok []
  | (name, value) :: entries' => q ← configured_pod name value; l ← configured_pods entries'; Ok (q :: l)
  end.
Definition docker_getPods (s : Docker) : result (option (list Pod)) :=
  l ← configured_pods (cluster_config_data s); Ok (match l with [] => None | _ => Some l end).
Fixpoint typed_entries (entries : dict string ConfigEntry) : result unit :=
  match entries with [] => Ok tt | (_, value) :: entries' => _ ← require (process_type value) KeyError; typed_entries entries' end.
(** The replicas are those the configuration allows, not those there are. *)
Definition docker_getStatefulSets (s : Docker) : result (option Z) :=
  _ ← typed_entries (cluster_config_data s); Ok (match cluster_config_data s with [] => None | _ => Some (max_replicas s) end).

Definition docker_getReadyReplicas (s : Docker) : result Z :=
  Ok (match health_watcher s with Some w => healthy_count w | None => ready_replicas s end).
Definition docker_ifPodDown (podname : string) (s : Docker) : result bool :=
  Ok (match health_watcher s with
      | Some w => if is_pod_known w podname then negb (is_pod_healthy w podname) else true
      | None => if bool_decide (podname ∈ downpodsArray s) then true else negb (String.eqb (phase_from_docker_container s podname) "Running")
      end).
Definition docker_scaleStatefulsetPods (replicas : Z) : stM Docker unit := mret tt.

(** What is probed: the entries with an address *)
Definition health_target (name : string) (value : ConfigEntry) : option Pod :=
  a ← address value;
  let a := py_strip a in
  if String.eqb a "" then None
  else match reverse (py_split ":" a) with
       | port :: ((_ :: _) as host) => Some (mk_Pod name (py_join ":" (reverse host)) (Some port) None (Some a))
       | _ => Some (mk_Pod name a None None (Some a))
       end.
Definition get_health_check_targets (s : Docker) : list Pod := omap (λ x : string * ConfigEntry, health_target x.1 x.2) (cluster_config_data s).

Section docker.
Context (http_get : nat → string → result Z) (health_path : string) (patience : nat → nat).

(** A step of the watcher, where there is one *)
Definition watching {A} (otherwise : A) (p : proc Watcher A) : stM Docker A := λ s,
  match health_watcher s with
  | Some w => let '(res, w') := exec p w in (res, set_watcher (Some w') s)
  | None => (Ok otherwise, s)
  end.
Definition docker_wait_until_healthy (q : Pod) : stM Docker bool := λ s,
  watching false (wait_until_healthy http_get health_path (patience (waits s)) q) (count_wait s).
Definition docker_poll : stM Docker unit := λ s, watching tt (poll_once http_get health_path (Ok (get_health_check_targets s))) s.
(** [watchPodState] with a health watcher: the next event, if there is one *)
Definition watchPodState : stM Docker (option (bool * string)) := λ s,
  match health_watcher s with
  | Some w => match events w with
              | [] => (Ok None, s)
              | event :: evs => (Ok (Some event), set_downs (noticed (downpodsArray s) event)
                                   (set_watcher (Some (mk_Watcher (pod_healthy w) (pod_info w) evs (gets w))) s))
              end
  | None => (Ok None, s)
  end.

#[export] Instance docker_cluster : Cluster Docker := {
  getStatefulSets := docker_getStatefulSets;
  getPods := docker_getPods;
  ifPodDown := docker_ifPodDown;
  getReadyReplicas := docker_getReadyReplicas;
  scaleStatefulsetPods := docker_scaleStatefulsetPods;
  watcher_count s := healthy_count <$> health_watcher s;
  watcher_wait := docker_wait_until_healthy;
}.

(** ** A cluster whose pods all answer their health check

    It keeps what the placement of streams relies on. *)
Context (config : dict string ConfigEntry) (max : Z) (pods : list Pod).
Context (configured : configured_pods config = Ok pods) (some_pods : pods ≠ []) (patient : ∀ n, patience n ≠ 0%nat)
        (healthy_answers : ∀ n target, http_get n target = Ok 200).
Definition all_healthy (s : Docker) : Prop :=
  cluster_config_data s = config ∧ max_replicas s = max ∧ ∃ w, health_watcher s = Some w ∧ ∀ q, q ∈ pods → dget (pod_healthy w) (podName q) = Some true.

Lemma configured_typed entries l : configured_pods entries = Ok l → typed_entries entries = Ok tt.
Proof.
  revert l. induction entries as [|[name value] entries IH]; intros l H; [done|]. cbn [configured_pods typed_entries] in *.
  apply result_bind_Ok in H as (q & Hq & H). apply result_bind_Ok in H as (l' & Hl & _). unfold configured_pod in Hq.
  apply result_bind_Ok in Hq as (a & _ & Hq). apply result_bind_Ok in Hq as (b & _ & Hq). apply result_bind_Ok in Hq as (c & _ & Hq). apply result_bind_Ok in Hq as (t & Ht & _).
  rewrite Ht. by apply (IH l').
Qed.
Lemma apply_healthy q w name : dget (pod_healthy w) name = Some true → dget (pod_healthy (exec (apply_result q true) w).2) name = Some true.
Proof.
  intros Hn. destruct (String.eqb_spec (podName q) "") as [E|E]; [unfold apply_result; by rewrite E|].
  rewrite applied by done. cbn [snd pod_healthy]. rewrite dget_dset. by case_decide.
Qed.
Lemma checked q w n : exec (wait_until_healthy http_get health_path (S n) q) w =
  (Ok true, (exec (apply_result q true) (mk_Watcher (pod_healthy w) (pod_info w) (events w) (S (gets w)))).2).
Proof.
  cbn [wait_until_healthy]. unfold check_pod. rewrite !exec_bind. unfold probe_pod_health, get, atomic. rewrite exec_try, exec_bind, exec_act, healthy_answers.
  cbn [exec mret proc_ret]. change (200 =? 200) with true. rewrite exec_bind. destruct (String.eqb_spec (podName q) "") as [E|E]; [unfold apply_result; by rewrite E|].
  by rewrite applied.
Qed.
Lemma all_healthy_ok s : all_healthy s →
  getStatefulSets s = Ok (Some max) ∧ getPods s = Ok (Some pods) ∧
  ∀ q, q ∈ pods → ifPodDown (podName q) s = Ok false ∧ ∃ s', watcher_wait q s = (Ok true, s') ∧ all_healthy s'.
Proof.
  intros (Hc & Hm & w & Hw & Hh). cbn. unfold docker_getStatefulSets, docker_getPods. rewrite Hc, Hm, (configured_typed _ _ configured), configured. cbn.
  split_and!.
  - destruct config; [|done]. by injection configured as <-.
  - by destruct pods.
  - intros q Hq. unfold docker_ifPodDown, is_pod_known, is_pod_healthy, dmem. rewrite Hw, Hh by done. split; [done|].
    unfold docker_wait_until_healthy, watching. cbn. rewrite Hw. pose proof (patient (waits s)) as Hp. destruct (patience (waits s)) as [|n]; [done|].
    rewrite checked. eexists. split; [done|]. split; [done|]. split; [done|]. eexists. split; [done|]. intros q' Hq'. by apply apply_healthy, Hh.
Qed.
End docker.
