(* ===== verification/PlacementRuns.v ===== *)
(** * Stream placement: runs

    A controller of two pods under docker: the properties of stream placement at
    concrete inputs, and what the code does that they do not exclude. *)

From Stdlib Require Import ZArith Lia.
From stdpp Require Import base list strings gmap relations.
From S2P Require Import Prelude PyDict PyFloat PyText PyVal Proc BusOutcomes WorkloadSpec HealthWatcher Placement PlacementSafe PlacementExact.
From S2P Require Import Docker.
Open Scope Z_scope.

Definition cfg_ex (threshold : Z) (asynchronous : bool) : Config := mk_Config (mk_SpecConfig "event" "camera_id") true None false "camera_name"
  None threshold false "" "" "lru_round_robin" true 2 "change" "camera_streaming" "camera_remove" asynchronous true true "/add" "/remove" "POST" 3 None None None false.
Definition fine (_ : nat) : fault := Fine.
Definition uuid_ex (n : nat) : string := String (Ascii.ascii_of_nat (97 + n)) EmptyString.
Definition text_ex (v : pyval) : result string := match v with VStr s => Ok s | _ => Exn DataError end.
Definition stream (x : string) : pyval := VDict [("event", VDict [("camera_id", VStr x)])].

Definition config_ex : dict string ConfigEntry :=
  [("sdr-0", mk_ConfigEntry (Some "vlm") (Some "10.0.0.1:9000")); ("sdr-1", mk_ConfigEntry (Some "vlm") (Some "10.0.0.2:9000"))].
Definition pod_ex (i : nat) : Pod :=
  match i with
  | O => mk_Pod "sdr-0" "10.0.0.1" (Some "9000") (Some "10.0.0.1") (Some "10.0.0.1:9000")
  | _ => mk_Pod "sdr-1" "10.0.0.2" (Some "9000") (Some "10.0.0.2") (Some "10.0.0.2:9000")
  end.
Definition http_ex (_ : nat) (_ : string) : result Z := Ok 200.
Definition patience_ex (_ : nat) : nat := 1.
Definition docker_ex : Docker :=
  mk_Docker config_ex 2 0 (Some (mk_Watcher [("sdr-0", true); ("sdr-1", true)] [] [] 0)) [] (λ _, None) 0.
(** The pods answer every request with 200 and keep what they were sent. *)
#[local] Instance cluster_ex : Cluster Docker := docker_cluster http_ex "/health" patience_ex.
Definition Calls : Type := list (string * string).
#[local] Instance workers_ex : Workers Calls := λ method target data w, (Ok (mk_Response 200 (Ok VNone)), w ++ [(method, target)]).
Abbreviation State := (@State Docker Calls).
Definition start : State := mk_State empty_Store docker_ex [] [].
Definition provision (threshold : Z) (asynchronous : bool) (r : nat) (x : string) : proc State unit :=
  provision_handler fine uuid_ex text_ex (cfg_ex threshold asynchronous) 5 r (stream x).

Definition add_one : State := (exec (provision 2 false 0 "cam-a") start).2.
Example add_one_ex : (routes (redis_store add_one), specs (redis_store add_one), leases (redis_store add_one), workers add_one) =
  ([("cam-a", "sdr-0")], [("sdr-0", Some (VList [stream "cam-a"]))], [], [("POST", "http://10.0.0.1:9000/add")]).
Proof. vm_compute. reflexivity. Qed.

(** ** Interleaved *)

(** Every process in turn, as long as one can move *)
Fixpoint in_turns (steps i : nat) (sp : State * list (proc State unit)) : list choice :=
  match steps with
  | O => []
  | S steps =>
      match choose (Go (i mod length sp.2)) sp with
      | Some sp' => Go (i mod length sp.2) :: in_turns steps (S i) sp'
      | None => in_turns steps (S i) sp
      end
  end.
Definition crowd : list (proc State unit) := [provision 1 true 0 "cam-a"; provision 1 true 1 "cam-b"; provision 1 true 0 "cam-c"].
Definition crowded : State * list (proc State unit) := after (in_turns 300 0 (start, crowd)) (start, crowd).
Lemma start_orderly threshold asynchronous : orderly (cfg_ex threshold asynchronous) (redis_store start).
Proof. intros pod. cbn. split; [lia|intros x; apply Nat.le_0_l]. Qed.
Lemma crowd_handlers : Forall (bus_handler fine uuid_ex text_ex (cfg_ex 1 true)) crowd.
Proof. repeat constructor. Qed.
Lemma capacity_kept_witness :
  specs (redis_store crowded.1) = [("sdr-0", Some (VList [stream "cam-a"])); ("sdr-1", Some (VList [stream "cam-b"]))] ∧
  orderly (cfg_ex 1 true) (redis_store crowded.1).
Proof.
  split; [vm_compute; reflexivity|].
  apply (capacity_kept fine uuid_ex text_ex (cfg_ex 1 true) start crowded.1 crowded.2); [apply start_orderly|].
  apply pool_after_runs, crowd_handlers.
Defined.

Lemma calm_ex : calm (C := Docker) fine.
Proof.
  split; [done|]. intros q s. cbn. unfold docker_wait_until_healthy, watching. destruct (health_watcher (count_wait s)) as [w|]; [|done].
  unfold patience_ex. by rewrite checked.
Qed.
Lemma all_done {S} (ps : list (proc S unit)) : forallb is_done ps = true → Forall is_done ps.
Proof. induction ps as [|p ps IH]; cbn; [constructor|]. intros [H1 H2]%andb_true_iff. constructor; [by rewrite H1|auto]. Qed.
(** A lease of a controller elsewhere stays; metadata are changed meanwhile. *)
Definition start_leased : State := mk_State (set_leases [("cam-z", "elsewhere")] empty_Store) docker_ex [] [].
Definition tag_metadata (threshold : Z) : proc State unit :=
  _ ← cache_metadata_update fine (cfg_ex threshold false) 1 (VStr "cam-a") [("tag", VInt 1)] "metadata" true; mret tt.
Definition busy : list (proc State unit) := tag_metadata 1 :: crowd.
Lemma busy_handlers : Forall (handler fine uuid_ex text_ex (cfg_ex 1 true)) busy.
Proof. constructor; [by apply (h_metadata fine uuid_ex text_ex (cfg_ex 1 true))|]. eapply Forall_impl; [apply crowd_handlers|]. intros p Hp. by apply h_bus. Qed.
Definition crowded_leased : State * list (proc State unit) := after (in_turns 400 0 (start_leased, busy)) (start_leased, busy).
Lemma leases_given_back_witness :
  forallb is_done crowded_leased.2 = true ∧ leases (redis_store crowded_leased.1) = [("cam-z", "elsewhere")] ∧
  ("cam-z", "elsewhere") ∈ leases (redis_store start_leased).
Proof.
  split; [vm_compute; reflexivity|]. split; [vm_compute; reflexivity|].
  apply (leases_given_back fine uuid_ex text_ex (cfg_ex 1 true) start_leased crowded_leased.1 crowded_leased.2); [apply calm_ex| | |].
  - apply pool_after_runs, busy_handlers.
  - apply all_done. vm_compute. reflexivity.
  - vm_compute. reflexivity.
Defined.

(** ** One after the other *)
Lemma fine_ex : ∀ n, fine n = Fine.
Proof. done. Qed.
Lemma text_ok : ∀ x, text_ex (VStr x) = Ok x.
Proof. done. Qed.
Definition well_ex : Docker → Prop := all_healthy config_ex 2 [pod_ex 0; pod_ex 1].
Definition up (_ : Pod) : bool := false.
Lemma well_ex_ok c : well_ex c → getStatefulSets c = Ok (Some 2) ∧ getPods c = Ok (Some [pod_ex 0; pod_ex 1]) ∧
  ∀ q, q ∈ [pod_ex 0; pod_ex 1] → ifPodDown (podName q) c = Ok (up q) ∧ ∃ c', watcher_wait q c = (Ok true, c') ∧ well_ex c'.
Proof. apply all_healthy_ok; done. Qed.
Lemma start_good : good well_ex start.
Proof.
  split; [|done]. split; [done|]. split; [done|]. eexists. split; [done|].
  intros q [->|[->|?%elem_of_nil]%elem_of_cons]%elem_of_cons; done.
Qed.
Lemma simple_ex threshold asynchronous : simple (cfg_ex threshold asynchronous).
Proof. done. Qed.
Lemma admitted_ex threshold asynchronous x : admitted (cfg_ex threshold asynchronous) (stream x) x.
Proof. done. Qed.
Lemma start_stored threshold asynchronous : stored (cfg_ex threshold asynchronous) (specs (redis_store start)).
Proof. split; [apply dict_wf_nil|]. by intros pod raw ?%elem_of_nil. Qed.

Definition jobs_ex : list (nat * pyval) := [(0%nat, stream "cam-a"); (1%nat, stream "cam-b"); (0%nat, stream "cam-c")].
Lemma round_robin_witness :
  dget (routes (redis_store (add_all fine uuid_ex text_ex (cfg_ex 2 false) 4 jobs_ex start))) "cam-c" = Some "sdr-0" ∧
  streams_of (redis_store (add_all fine uuid_ex text_ex (cfg_ex 2 false) 4 jobs_ex start)) "sdr-0" = [stream "cam-a"; stream "cam-c"].
Proof.
  destruct (round_robin fine uuid_ex text_ex (cfg_ex 2 false) fine_ex text_ok 2 [pod_ex 0; pod_ex 1] up well_ex ltac:(done) well_ex_ok (simple_ex _ _)
    2 pod_ex 4 ltac:(lia)) with (jobs := jobs_ex) (xs := ["cam-a"; "cam-b"; "cam-c"]) (s := start) as (Hr & Hs & _).
  - done.
  - done.
  - intros [|[|i]] Hi; [done|done|lia].
  - intros q _. by eexists.
  - done.
  - intros target data w. by do 2 eexists.
  - apply start_good.
  - done.
  - repeat constructor.
  - apply (bool_decide_unpack _). vm_compute. exact I.
  - done.
  - split; [exact (Hr 2%nat "cam-c" eq_refl)|exact (Hs 0%nat ltac:(lia))].
Defined.

Definition one_added : result Provision * State :=
  match exec (provisionStreamRedis fine uuid_ex text_ex (cfg_ex 2 true) 1 0 (stream "cam-a")) start with
  | (Ok (out, thread), s) => (Ok out, (exec thread s).2)
  | (Exn e, s) => (Exn e, s)
  end.
Lemma provision_exact_witness : candidates (cfg_ex 2 true) [pod_ex 0; pod_ex 1] up (redis_store start) = [(pod_ex 0, 0); (pod_ex 1, 0)] ∧
  one_added.1 = Ok PTrue ∧ workers one_added.2 = [("POST", "http://10.0.0.1:9000/add")] ∧
  plain (redis_store one_added.2) = on_pod (stream "cam-a") "cam-a" (pod_ex 0) "10.0.0.1" (plain (redis_store start)).
Proof.
  split; [vm_compute; reflexivity|].
  destruct (provision_exact fine uuid_ex text_ex (cfg_ex 2 true) fine_ex text_ok 2 [pod_ex 0; pod_ex 1] up well_ex ltac:(done) well_ex_ok (simple_ex _ _)
    0 0 (stream "cam-a") "cam-a" (pod_ex 0, 0) [(pod_ex 1, 0)] (pod_ex 0) (mk_Response 200 (Ok VNone)) [("POST", "http://10.0.0.1:9000/add")] "10.0.0.1" start
    start_good (admitted_ex _ _ _) (start_stored _ _) ltac:(by intros name) eq_refl eq_refl eq_refl eq_refl eq_refl eq_refl) as (thread & s1 & s' & E1 & E2 & Hw & Hp).
  unfold one_added. rewrite E1, E2. split; [reflexivity|]. split; [exact Hw|exact Hp].
Defined.

Definition added_removed : State :=
  (exec (_ ← provision 2 true 0 "cam-a"; deprovisionStreamRedis fine text_ex (cfg_ex 2 true) 1 (stream "cam-a")) start).2.
Lemma add_then_remove_witness :
  streams_of (redis_store added_removed) "sdr-0" = [] ∧ routes (redis_store added_removed) = [] ∧ leases (redis_store added_removed) = [] ∧
  workers added_removed = [("POST", "http://10.0.0.1:9000/add"); ("POST", "http://10.0.0.1:9000/remove")].
Proof.
  destruct (add_then_remove fine uuid_ex text_ex (cfg_ex 2 true) fine_ex text_ok 2 [pod_ex 0; pod_ex 1] up well_ex ltac:(done) well_ex_ok (simple_ex _ _)
    4 0 1 (stream "cam-a") "cam-a" (pod_ex 0, 0) [(pod_ex 1, 0)] (pod_ex 0) (mk_Response 200 (Ok VNone)) (mk_Response 200 (Ok VNone))
    [("POST", "http://10.0.0.1:9000/add")] [("POST", "http://10.0.0.1:9000/add"); ("POST", "http://10.0.0.1:9000/remove")] "10.0.0.1" start
    ltac:(apply (bool_decide_unpack _); vm_compute; exact I) start_good (admitted_ex _ _ _) (start_stored _ _) ltac:(by intros name)
    eq_refl eq_refl eq_refl eq_refl eq_refl eq_refl eq_refl eq_refl eq_refl) as (s' & E & Hs & Hr & Hl & Hw).
  unfold added_removed, provision. rewrite E. split; [exact (Hs "sdr-0")|]. split; [exact Hr|]. split; [exact Hl|exact Hw].
Defined.

(** ** The health watcher *)

(** sdr-0 fails its second probe. *)
Definition http_once (n : nat) (_ : string) : result Z := if (n =? 1)%nat then Exn RequestException else Ok 200.
Definition check_once (s : Watcher) : Watcher := (exec (check_pod http_once "/health" (pod_ex 0)) s).2.
Definition flaky : Watcher := check_once (check_once empty_Watcher).
Definition flaky_told : Watcher := mk_Watcher (pod_healthy flaky) (pod_info flaky) [] (gets flaky).
Lemma watchers_agree_witness : events flaky = [(true, "sdr-0")] ∧ NoDup ["sdr-0"] ∧ ("sdr-0" ∈ ["sdr-0"] ↔ dget (pod_healthy flaky_told) "sdr-0" = Some false).
Proof.
  split; [vm_compute; reflexivity|]. destruct (watchers_agree http_once "/health" flaky_told ["sdr-0"]) as [H1 H2]; [|reflexivity|split; [exact H1|apply H2]].
  eapply rtc_l; [apply (w_check http_once "/health" (pod_ex 0))|]. eapply rtc_l; [apply (w_check http_once "/health" (pod_ex 0))|].
  apply rtc_once. apply (w_notice http_once "/health" (true, "sdr-0") [] flaky []). vm_compute. reflexivity.
Defined.

(** ** What is not excluded *)

(** A controller that has seen neither route nor reservation goes on while another
    places the stream: it is placed again, on another pod. *)
Definition two_adds : list (proc State unit) := [provision 2 false 0 "cam-a"; provision 2 false 1 "cam-a"].
Fixpoint only (steps i : nat) (sp : State * list (proc State unit)) : State * list (proc State unit) :=
  match steps with O => sp | S n => match choose (Go i) sp with Some sp' => only n i sp' | None => sp end end.
Definition placed_twice : State := (only 200 0 (only 200 1 (only 5 0 (start, two_adds)))).1.
Example placed_twice_ex : (specs (redis_store placed_twice), workers placed_twice) =
  ([("sdr-0", Some (VList [stream "cam-a"])); ("sdr-1", Some (VList [stream "cam-a"]))],
   [("POST", "http://10.0.0.1:9000/add"); ("POST", "http://10.0.0.2:9000/add")]).
Proof. vm_compute. reflexivity. Qed.

(** [cache_metadata_update] puts the stream back into what its own controller had
    read of the pod, and takes away what another added in between. *)
Definition metadata_run : State :=
  let st := (exec (provision 2 false 0 "cam-b") (exec (provision 2 false 0 "cam-a") start).2).2 in
  (only 200 0 (only 200 1 (only 4 0 (st, [tag_metadata 2; provision 2 false 0 "cam-c"])))).1.
Example metadata_loses_stream :
  dget (routes (redis_store metadata_run)) "cam-c" = Some "sdr-0" ∧
  streams_of (redis_store metadata_run) "sdr-0" = [VDict [("event", VDict [("camera_id", VStr "cam-a")]); ("metadata", VDict [("tag", VInt 1)])]].
Proof. vm_compute. split; reflexivity. Qed.
(** Between taking the stream out and putting it back it leaves its place to a new
    one: with room for one, the pod has two. *)
Definition overfilled : State :=
  let st := (exec (provision 1 false 0 "cam-a") start).2 in
  (only 200 0 (only 200 1 (only 3 0 (st, [tag_metadata 1; provision 1 false 1 "cam-b"])))).1.
Example metadata_overfills : streams_of (redis_store overfilled) "sdr-0" =
  [stream "cam-b"; VDict [("event", VDict [("camera_id", VStr "cam-a")]); ("metadata", VDict [("tag", VInt 1)])]].
Proof. vm_compute. reflexivity. Qed.
(** Without configured pods an add scales, which does nothing under docker, and starts
    again, until Python has had enough. *)
Definition no_pods : State := mk_State empty_Store (mk_Docker [] 2 0 None [] (λ _, None) 0) [] [].
Example no_pods_ex : (exec (provisionStreamRedis fine uuid_ex text_ex (cfg_ex 2 false) 50 0 (stream "cam-a")) no_pods).1 = Exn RecursionError.
Proof. vm_compute. reflexivity. Qed.

(** A pod that was missing from one inventory is not reported as recovered. *)
Definition poll (pods : result (list Pod)) (w : Watcher) : Watcher := (exec (poll_once http_ex "/health" pods) w).2.
Definition missed : Watcher := poll (Ok [pod_ex 0]) (poll (Exn ValueError) (poll (Ok [pod_ex 0]) empty_Watcher)).
Example recovery_missed : pod_healthy missed = [("sdr-0", true)] ∧ foldl noticed [] (events missed) = ["sdr-0"].
Proof. vm_compute. split; reflexivity. Qed.
